(* ===== verification/_CoqProject ===== *)
-Q . S2P
Prelude.v
Order.v
Text.v
Strings.v
Format.v
Facts.v
Reuse.v
Radix.v
Metadata.v
Hex.v
BlockMeta.v
SlateMeta.v
ObjectStore.v
WalKeys.v
WalStore.v
GroupCommit.v
SegmentStore.v
Compression.v
F64.v
Histogram.v
Metrics.v
Worker.v
Lru.v
BlobCache.v
Foyer.v
Embed.v
Durable.v
Prefetch.v
Envelope.v
Wire.v
Dst.v
Oracle.v
Arena.v
Fanout.v
Rpc.v
Daemon.v
DaemonSpec.v
Client.v
ClientSpec.v
Tcp.v
Http.v
HttpSpec.v
Lifecycle.v
S3.v
Cabi.v
CabiSpec.v
CabiRound.v
CabiInit.v
Serve.v
ServeSpec.v
Startup.v
Listen.v
Remote.v
Bench.v
Runner.v
BenchTools.v
PufferTools.v
Simulate.v
LayoutAudit.v
Drill.v
