(* ===== verification/Prelude.v ===== *)
(** * WombatKV: a verification development (root file and shared prelude)

    WombatKV is a tiered cache for the key-value blocks of language-model
    inference.  An engine puts blocks into a local store with two cache tiers (a
    flat-file cache and the foyer memory-and-disk cache) over a durable object
    store; indexes over block hashes tell which prefix of a prompt is already
    cached; background workers evict and prefetch blocks; a write-ahead log of
    records, with group commit, and immutable segments live in the object store;
    manifests and delta facts describe what was published.  A daemon serves one
    store to engines in other processes, over rings in shared memory, TCP or HTTP;
    a C ABI gives engines a handle on an embedded store or on a daemon.  Simulation
    runners exercise the store under planned faults, and benchmarks drive it.  This
    library models those parts, in the language of the source, and proves what makes
    them correct.

    ** Files and sources

    Paths are under [src/crates/].

    - [Prelude] (this file): bytes, strings, slices, the [Result] and
      state-and-error monads, machine integers, tactics and hint databases.
    - [Order]: comparison functions, the stable sort, [BTreeMap] enumeration.
    - [Text]: decimal [format!] and [str::parse]; [Strings]: the methods of [str]
      the daemon parses text with; [F64]: the non-negative binary64 arithmetic of
      the eviction target and of the benchmarks' statistics; [Hex]: the hexadecimal names of hashes
      ([slatedb_meta.rs], [block_prefetch.rs], [embed.rs], [ffi.rs]).
    - [Format]: [wombatkv-format/src/lib.rs], the WAL record and the segment.
    - [Facts], [Reuse], [Metadata]: [wombatkv-core/src/lib.rs], [reuse.rs] and
      [metadata.rs].
    - [Radix], [BlockMeta], [SlateMeta]: [wombatkv-radix/src/lib.rs],
      [block_meta.rs] and [slatedb_meta.rs].
    - [ObjectStore], [WalKeys], [WalStore], [GroupCommit]:
      [wombatkv-store/src/wal_store.rs], in four parts, and [S3], its S3 store over a
      bucket; [SegmentStore]: [segment_store.rs]; [LayoutAudit]: the layout-audit tool
      [bin/wombatkv-wal-layout-audit.rs]; [Drill]: the group-commit drill
      [bin/wombatkv-wal-group-commit-drill.rs].
    - [Compression], [BlobCache], [Foyer], [Worker], [Lru], [Embed], [Prefetch]:
      [wombatkv-node/src/compression.rs], [kv_blob_cache.rs], [foyer_cache.rs],
      the worker threads of [lru.rs] and [block_prefetch.rs], [lru.rs],
      [embed.rs], [block_prefetch.rs]; [Durable]: what the operations of [Embed]
      leave in the object store.
    - [Histogram], [Metrics]: [wombatkv-node/src/latency_histogram.rs] and
      [embed_metrics.rs].
    - [Envelope], [Wire], [Rpc], [Arena]: [wombatkv-daemon/src/envelope.rs], the
      codecs, segment names, requests and responses of [lib.rs], and [arena.rs].
    - [Fanout]: the scoped threads of the daemon; [Daemon]: the request handlers
      of [wombatkv-daemon/src/bin/wombatkv-daemon.rs]; [DaemonSpec]: what they
      promise.
    - [Client]: [wombatkv-daemon/src/client.rs]; [ClientSpec]: the client and the
      daemon on the two ends of a pair of rings.
    - [Tcp], [Http]: [tcp_transport.rs] and [http_transport.rs]; [HttpSpec]: the
      reference of the HTTP handler and its theorems.
    - [Lifecycle]: [lifecycle.rs], heartbeats, the monitor and the clean-up.
    - [Serve]: the life of a served prefix, from opening its rings to shutdown
      ([serve_prefix], [run_legacy_per_prefix], [run_tpc], [run_shutdown_drain] of
      [wombatkv-daemon.rs], [open_daemon] of [lib.rs]), and the
      thread-per-core runtime of [runtime_tpc.rs]; [ServeSpec]: a fleet of such workers beside background
      writes and other processes.
    - [Startup]: [config.rs], the command line and [main]; [Listen]: the shards,
      accept loops and connection identifiers of both transports.
    - [Cabi]: the exported functions of [wombatkv-cabi/src/ffi.rs] over the memory
      of the process; [CabiSpec]: what every call keeps; [CabiRound]: blocks put and
      got through handles; [CabiInit]: [config.rs] and the making of handles.
    - [Remote]: the embedded, ring, TCP and HTTP clients behind one interface, and
      the closure [main] hands to its listeners.
    - [Bench], [BenchTools], [PufferTools]: [wombatkv-bench/src/bin/]: the smoke test
      and the load benchmarks over the clients of [Remote]; the benchmarks of the
      arena and of the rings, the names of a run and the main functions; the tool and
      the bench of the cache.
    - [Runner]: the loops of the simulation runners of [wombatkv-dst/src/bin/] and of
      [wombatkv-bench/src/bin/wombatkv-dst-driver.rs]; [Simulate]: the programs around
      them, plans and reports in files, and how the daemon loads a plan.
    - [Oracle], [Dst]: [wombatkv-dst/src/oracle.rs], the reference model of the
      store, and the fault plans, random numbers and assertions of [fault.rs],
      [dst_plan.rs], [dst_rng.rs], [dst_buggify.rs] and [dst_assertions.rs].

    Each file keeps the source's function names; a Rust method becomes a
    function from the state it mutates to the new state and its result ([M] when
    it can fail), a trait becomes a type class, a struct a record.

    ** Interfaces

    [ObjectStore] (class [ObjectStore], contract [ObjectStoreLaws], and
    [ReliableStore] for stores that do not fail) is what [WalStore],
    [GroupCommit], [SegmentStore] and [Embed] are proved against; the in-memory
    store discharges it, and the S3 store does for keys without a leading slash, over
    the laws of a [Bucket].  [MetadataIndex] and [MetadataIndexLaws] are discharged
    by the in-memory and the SlateDB index and used by [Lru] and [Prefetch].
    [EvictionDeleter] and [PrefetchFetcher] bind the workers to the store of
    [Embed].  [Ring] is what the client sees of the rings, discharged in
    [ClientSpec] by the daemon at their other end; [Peer] and [Endpoint] are what
    the TCP and the HTTP client see of their connection, [Protocol] what a listener's
    shards know of the protocol they serve.  [KvClient] and [KeepsPuts] are what the
    benchmarks know of a client; [Carrier] is what the daemon's clients know of a
    transport, discharged by TCP and by HTTP; [UnderTest] is the daemon the driver
    checks.  Third-party code is a
    parameter with its documented behaviour as laws: blake3 ([Reuse]), serde_json
    ([Metadata], [Simulate]), SlateDB and rkyv ([SlateMeta], [Wire], [Rpc]), zstd
    ([Compression]), foyer ([Foyer]), floating-point operations ([Prefetch], [Dst]),
    CRC-32C ([Envelope]), the texts of foreign errors ([Texts] in [Rpc]).  Every
    such contract has a concrete instance.

    ** What the theorems show

    - [Format]: the record decoder accepts exactly the encoder's outputs,
      truncations are rejected, segment indexes locate their payloads and are
      only read when their checksum matches.
    - [WalStore], [GroupCommit], [WalKeys]: the objects of a namespace represent
      an abstract log; publishing appends to it or fails cleanly, replay returns
      it, reopening resumes it, group commit keeps the order of records between
      log and buffer, and keys parse back; [Drill]: group commit with a final flush
      loses nothing and writes as few objects as its policy allows.
    - [SegmentStore]: range reads return exactly the blocks in range, within the
      round-trip bound.
    - [ObjectStore]: conditional writes lose no update; the retry loop.
    - [Facts], [Metadata], [Reuse]: winners do not depend on arrival order,
      replay is first-writer-wins, published prefixes are found and isolated
      between tenants and fingerprints.
    - [Radix], [BlockMeta], [SlateMeta]: lookups compute the longest resident
      prefix, guarded inserts keep the budget, compare-and-delete has no ABA
      problem, the SlateDB index agrees with the in-memory one.
    - [Compression], [BlobCache], [Embed]: what is put is what is read, through
      every tier and failure; a written-through put survives the caches;
      bootstrap indexes the bucket.
    - [Lru], [Prefetch], [Worker]: evictions take the fewest oldest blocks and
      spare touched ones, the best-scored blocks are prefetched, workers stop
      promptly.
    - [Histogram], [Metrics]: concurrent recorders lose no sample, are lock-free
      and stay within 64 bits; percentiles are at most twice too high; the samples
      kept are bounded.
    - [Envelope], [Wire], [Rpc], [Arena]: the decoders of envelopes, key batches
      and byte batches accept exactly what the encoders produce, manifests read
      back; an arena payload stays readable until the wrapped allocator reaches
      it.
    - [DaemonSpec]: under content addressing every request keeps the daemon's
      invariant, none panics, and what a get answers is what its key stands for;
      batches are all or nothing under every schedule of their threads.
    - [ClientSpec]: a hit reported by the client is the payload of its key,
      whatever is lost, late or done by others; a put is found by a later get.
    - [Tcp], [HttpSpec]: a connection serves exactly the requests whose frames
      make up the head of its input, HTTP does so however the network cuts the
      input, and a client gets the dispatcher's responses in order over both.
    - [Lifecycle]: a client that beats in time keeps its prefix; a dead one is
      noticed and replaced.
    - [ServeSpec]: every request a worker takes is answered, however workers
      interleave; a worker fails only after the configured failures to open; a
      shutdown ends every worker in a bounded number of steps; the drain ends within
      its budget and reports what is true.
    - [Startup], [CabiInit]: the daemon, and a handle, are what environment and
      command line ask for, or an error.
    - [Listen]: connections of one listener do not mix and have distinct identifiers.
    - [Cabi], [CabiSpec], [CabiRound]: no call unwinds into C, failures are reported
      and change nothing else, borrows stay readable until released, blocks come back.
    - [S3]: the S3 store keeps the contract of [ObjectStore] over requests that fail,
      get lost or are repeated; only its own variables configure it.
    - [Remote]: a conversation of puts and gets over any carrier is answered as the
      daemon answers it, and every get of it finds what was put.
    - [Bench], [BenchTools], [PufferTools]: a percentile is a sample of the nearest
      rank; the smoke test passes exactly when the store answers as it should; the
      arena bench reads back what it wrote; what the bench of the cache measures.
    - [Runner], [Simulate]: the two runners suppress the same writes, a run through the
      spawned child passes for every seed and class, and the driver accepts every
      daemon that keeps what it acknowledges; [LayoutAudit]: the verdict of the tool.
    - [Oracle], [Dst]: the store of [Embed] refines the reference oracle; which
      failure classes a plan can deliver, for every seed.

    Some theorems show behaviour the code's comments do not intend: a failed
    flush of a single buffered record drops it ([GroupCommit]), distinct keys may
    share a flat file ([BlobCache]), a raw blob may look compressed
    ([Compression]), a deleted blob may come back from foyer ([Embed]), a failed
    put is readable and two namespaces may name one object ([Oracle]), a read of
    the arena may panic ([Arena]), a small put leaves a stale slab and a crafted
    manifest panics ([DaemonSpec]), panics use up the dispatch pool ([Tcp]), an
    unread body is served as a request ([HttpSpec]), a payload may read as a
    manifest ([ClientSpec]), two prefixes may share a heartbeat ([Lifecycle]),
    most fault plans never fire ([Dst]), a small sample cap grows ([Metrics]), the
    compare-and-swap of S3 may overwrite and its token may be newer than its bytes
    ([S3]), a daemon without prefixes does not drain and an index that workers share
    is not closed ([Startup]), the thread-per-core mode and the listeners hide
    failures ([ServeSpec], [Listen]), a slash in the namespace panics ([CabiInit]).

    ** Bounds, fuel and time

    Integers are [Z] with their width written out where the code can reach it.
    Loops over data are structural.  The loops that need fuel: the index parser runs
    with one round more than there are bytes, each round consuming ten of them
    ([parse_segment_index_loop_total]), and the publish loop of [WalStore] with
    one round more than the store has objects, each conflict being a new object
    ([publish_record_appends]); the batch decoders of [Wire] run with one round
    more than the payload has bytes, each round consuming four of them, whatever
    count the payload announces.  A connection of [Tcp] or [Http] runs for one more
    round than its input has bytes, each served request consuming at least one;
    a read loop ([fill]) takes one piece of what arrived per round; the client's
    reading of response heads stops at [MAX_HEAD_BYTES]
    ([response_headers_enough]).  Clocks, stop flags, durations, faults of the file
    system, of the network and of the rings, and the actions of other threads are
    arguments, so theorems hold for all of them.

    ** Not modelled

    The text and layout of log lines, banners, printed tables and JSON output (the
    values they report are modelled); the parsing of the tools' command lines by clap
    (a parsed command line is an argument; the daemon's own parser is in [Startup]); the
    registration of signal handlers (the flag they set is an argument); derived and
    forwarding trait implementations ([Display], [From], [Debug]) beyond the texts that
    travel to a client; tests; the macOS variant of unlinking; the libraries behind the
    parameters: rust-s3, the myelon transport, compio, foyer, SlateDB, zstd, rkyv,
    serde_json, blake3, CRC-32C.  Measured times are arguments.  Reordering of relaxed
    atomics is not modelled either: threads interleave their atomic operations. *)

From Stdlib Require Export ZArith Lia Strings.Byte Strings.String.
From stdpp Require Export sorting base gmap list numbers.
From stdpp Require Export list_basics list_relations list_monad list_misc.

#[global] Open Scope Z_scope.
#[global] Open Scope list_scope.

Declare Scope wmbt_scope.
Delimit Scope wmbt_scope with wmbt.
#[global] Open Scope wmbt_scope.

(** Lemmas that normalise lengths, slices and byte-level codecs. *)
Create HintDb wmbt discriminated.
Create Rewrite HintDb wmbt.

(** ** Bytes and strings

    A Rust [u8] is a [byte]; a [&[u8]], a [Vec<u8>] and a [String] (its UTF-8
    bytes) are a [list byte]. *)
Abbreviation bytes := (list byte).
Abbreviation str := (list byte).

(** A string or byte-string literal of the source. *)
Definition lit (s : string) : bytes := list_byte_of_string s.
Arguments lit s%_string.

#[global] Instance byte_eq_decision : EqDecision byte := Byte.byte_eq_dec.
#[global] Program Instance byte_countable : Countable byte :=
  inj_countable Byte.to_N Byte.of_N _.
Next Obligation. intros b. apply Byte.of_to_N. Qed.

(** [u8 as uN] and the truncating cast [uN as u8]. *)
Definition byte_to_Z (b : byte) : Z := Z.of_N (Byte.to_N b).
Definition byte_of_Z (z : Z) : byte :=
  match Byte.of_N (Z.to_N (z mod 256)) with Some b => b | None => x00 end.

(** [l.len()] *)
Definition len {A} (l : list A) : Z := Z.of_nat (length l).

(** [&l[a..b]] on a range already checked to lie within [l]. *)
Definition slice {A} (a b : Z) (l : list A) : list A :=
  take (Z.to_nat (b - a)) (drop (Z.to_nat a) l).

(** [l.starts_with(p)] and [l.strip_prefix(p)] *)
Fixpoint strip_prefix {A} `{EqDecision A} (p l : list A) : option (list A) :=
  match p, l with
  | [], _ => Some l
  | x :: p', y :: l' => if decide (x = y) then strip_prefix p' l' else None
  | _ :: _, [] => None
  end.
Definition starts_with {A} `{EqDecision A} (p l : list A) : bool :=
  match strip_prefix p l with Some _ => true | None => false end.

(** [l.strip_suffix(p)] *)
Definition strip_suffix {A} `{EqDecision A} (p l : list A) : option (list A) :=
  option_map reverse (strip_prefix (reverse p) (reverse l)).

(** [s.split_once(c)]: around the first [c]. *)
Fixpoint split_once {A} `{EqDecision A} (c : A) (l : list A) : option (list A * list A) :=
  match l with
  | [] => None
  | x :: l' =>
      if decide (x = c) then Some ([], l')
      else option_map (fun ab => (x :: fst ab, snd ab)) (split_once c l')
  end.

(** [s.rsplit_once(c)]: around the last [c]. *)
Definition rsplit_once {A} `{EqDecision A} (c : A) (l : list A) : option (list A * list A) :=
  match split_once c (reverse l) with
  | Some (a, b) => Some (reverse b, reverse a)
  | None => None
  end.

(** ** Fallible code: [Result] and the state-and-error monad *)
Inductive result (A E : Type) : Type :=
| Ok (a : A)
| Err (e : E).
Arguments Ok {A E} a.
Arguments Err {A E} e.

Definition res_bind {A B E} (r : result A E) (k : A -> result B E) : result B E :=
  match r with Ok a => k a | Err e => Err e end.
Definition map_err {A E F} (f : E -> F) (r : result A E) : result A F :=
  match r with Ok a => Ok a | Err e => Err (f e) end.
Definition ok_or {A E} (o : option A) (e : E) : result A E :=
  match o with Some a => Ok a | None => Err e end.
Definition is_ok {A E} (r : result A E) : bool :=
  match r with Ok _ => true | Err _ => false end.

Lemma pair_inj {A B} (a c : A) (b d : B) : (a, b) = (c, d) -> a = c /\ b = d.
Proof. by intros [= -> ->]. Qed.
Lemma Some_pair_inj {A B} (a c : A) (b d : B) : Some (a, b) = Some (c, d) -> a = c /\ b = d.
Proof. by intros [= -> ->]. Qed.
Lemma Err_Ok {A E} (e : E) (a : A) : Err e = Ok a -> False.
Proof. discriminate. Qed.
Lemma Ok_inj {A E} (a b : A) : @Ok A E a = Ok b -> a = b.
Proof. congruence. Qed.
Lemma Err_inj {A E} (x y : E) : @Err A E x = Err y -> x = y.
Proof. by intros [= ->]. Qed.
Lemma Some_Ok_inj {A E} (a b : A) : Some (@Ok A E a) = Some (Ok b) -> a = b.
Proof. congruence. Qed.
Lemma Some_Err_Ok {A E} (e : E) (a : A) : Some (Err e) = Some (Ok a) -> False.
Proof. discriminate. Qed.

(** The [?] operator. *)
Notation "'let?' x ':=' c 'in' k" := (res_bind c (fun x => k))
  (at level 10, x pattern, c at level 100, k at level 200) : wmbt_scope.

(** A computation over a mutable state that may fail; the state reached is
    returned on failure too. *)
Definition M (St E A : Type) : Type := St -> St * result A E.
Definition st_ret {St E A} (a : A) : M St E A := fun s => (s, Ok a).
Definition st_fail {St E A} (e : E) : M St E A := fun s => (s, Err e).
Definition st_bind {St E A B} (c : M St E A) (k : A -> M St E B) : M St E B :=
  fun s => match c s with
           | (s', Ok a) => k a s'
           | (s', Err e) => (s', Err e)
           end.
Definition st_lift {St E A} (r : result A E) : M St E A := fun s => (s, r).

Notation "'let!' x ':=' c 'in' k" := (st_bind c (fun x => k))
  (at level 10, x pattern, c at level 100, k at level 200) : wmbt_scope.

(** ** Machine integers, kept at their width *)
Abbreviation u8_max := 255%Z (only parsing).
Abbreviation u16_max := 65535%Z (only parsing).
Abbreviation u32_max := 4294967295%Z (only parsing).
Abbreviation u64_max := 18446744073709551615%Z (only parsing).

Definition in_u8 (z : Z) : Prop := 0 <= z <= u8_max.
Definition in_u16 (z : Z) : Prop := 0 <= z <= u16_max.
Definition in_u32 (z : Z) : Prop := 0 <= z <= u32_max.
Definition in_u64 (z : Z) : Prop := 0 <= z <= u64_max.

(** [uN::try_from] on a non-negative value. *)
Definition u16_try_from (z : Z) : option Z := if decide (z <= u16_max) then Some z else None.
Definition u32_try_from (z : Z) : option Z := if decide (z <= u32_max) then Some z else None.

(** [u64]/[usize] arithmetic ([usize] is 64 bits wide on every supported target). *)
Definition saturating_add (x y : Z) : Z := Z.min (x + y) u64_max.
Definition saturating_sub (x y : Z) : Z := Z.max (x - y) 0.
Definition saturating_mul (x y : Z) : Z := Z.min (x * y) u64_max.
Definition checked_add (x y : Z) : option Z := if decide (x + y <= u64_max) then Some (x + y) else None.
Definition checked_sub (x y : Z) : option Z := if decide (y <= x) then Some (x - y) else None.
Definition wrap32 (z : Z) : Z := z mod 4294967296.
Definition wrap64 (z : Z) : Z := z mod 18446744073709551616.

(** [x.to_le_bytes()] on [n] bytes and [uN::from_le_bytes]. *)
Fixpoint le_bytes (n : nat) (z : Z) : bytes :=
  match n with
  | O => []
  | S n' => byte_of_Z z :: le_bytes n' (z / 256)
  end.
Fixpoint le_val (l : bytes) : Z :=
  match l with
  | [] => 0
  | b :: l' => byte_to_Z b + 256 * le_val l'
  end.

(** The little-endian integer of the [n] bytes of [l] from offset [i]; the
    source indexes [l] at [i .. i+n-1] after checking the length. *)
Definition le_at (n : nat) (i : Z) (l : bytes) : Z := le_val (slice i (i + Z.of_nat n) l).

(** *** Facts about bytes and slices *)
Lemma byte_to_Z_range b : 0 <= byte_to_Z b < 256.
Proof.
  unfold byte_to_Z. pose proof (Byte.to_N_bounded b). lia.
Qed.

Lemma byte_of_Z_to_Z b : byte_of_Z (byte_to_Z b) = b.
Proof.
  unfold byte_of_Z. rewrite Z.mod_small by apply byte_to_Z_range.
  unfold byte_to_Z. rewrite N2Z.id, Byte.of_to_N. done.
Qed.

Lemma byte_to_of_Z z : byte_to_Z (byte_of_Z z) = z mod 256.
Proof.
  unfold byte_of_Z. pose proof (Z.mod_pos_bound z 256 ltac:(lia)).
  destruct (Byte.of_N _) as [b|] eqn:E.
  - unfold byte_to_Z. apply Byte.to_of_N in E. rewrite E. lia.
  - apply Byte.of_N_None_iff in E. lia.
Qed.

Lemma byte_to_Z_inj b c : byte_to_Z b = byte_to_Z c -> b = c.
Proof. intros E. rewrite <- (byte_of_Z_to_Z b), <- (byte_of_Z_to_Z c). by rewrite E. Qed.

Lemma len_nonneg {A} (l : list A) : 0 <= len l.
Proof. unfold len. lia. Qed.
Lemma len_app {A} (l k : list A) : len (l ++ k) = len l + len k.
Proof. unfold len. rewrite length_app. lia. Qed.
Lemma len_cons {A} (x : A) l : len (x :: l) = 1 + len l.
Proof. unfold len. simpl. lia. Qed.
Lemma len_nil {A} : len (@nil A) = 0.
Proof. done. Qed.
Lemma len_to_nat {A} (l : list A) : Z.to_nat (len l) = length l.
Proof. unfold len. lia. Qed.

Lemma length_le_bytes n z : length (le_bytes n z) = n.
Proof. revert z. induction n; intros; simpl; auto. Qed.
Lemma len_le_bytes n z : len (le_bytes n z) = Z.of_nat n.
Proof. unfold len. by rewrite length_le_bytes. Qed.

Lemma le_val_bytes n z : le_val (le_bytes n z) = z mod 256 ^ Z.of_nat n.
Proof.
  revert z. induction n as [|n IH]; intros z.
  { simpl. by rewrite Z.mod_1_r. }
  cbn [le_bytes le_val]. rewrite IH, byte_to_of_Z.
  rewrite Nat2Z.inj_succ, Z.pow_succ_r by lia.
  rewrite Z.rem_mul_r by lia. done.
Qed.

Lemma le_val_bytes_small n z :
  0 <= z < 256 ^ Z.of_nat n -> le_val (le_bytes n z) = z.
Proof. intros. rewrite le_val_bytes. by apply Z.mod_small. Qed.

Lemma le_val_range l : 0 <= le_val l < 256 ^ len l.
Proof.
  induction l as [|b l IH]; simpl; [done|].
  rewrite len_cons, Z.pow_add_r by (pose proof (len_nonneg l); lia).
  pose proof (byte_to_Z_range b). change (256 ^ 1) with 256. nia.
Qed.

Lemma le_bytes_val l : le_bytes (length l) (le_val l) = l.
Proof.
  induction l as [|b l IH]; [done|]. cbn [length le_bytes le_val].
  pose proof (byte_to_Z_range b).
  f_equal.
  - apply byte_to_Z_inj. rewrite byte_to_of_Z, (Z.mul_comm 256), Z.mod_add by lia.
    by apply Z.mod_small.
  - rewrite (Z.mul_comm 256), Z.div_add by lia. by rewrite Z.div_small, Z.add_0_l.
Qed.

Lemma slice_app {A} (p m q : list A) a b :
  a = len p -> b = len p + len m -> slice a b (p ++ m ++ q) = m.
Proof.
  intros -> ->. unfold slice.
  replace (Z.to_nat (len p + len m - len p)) with (length m) by (unfold len; lia).
  by rewrite len_to_nat, drop_app_length, take_app_length.
Qed.

Lemma slice_app_end {A} (p m : list A) a b :
  a = len p -> b = len p + len m -> slice a b (p ++ m) = m.
Proof. intros. rewrite <- (app_nil_r m) at 1. by apply slice_app. Qed.

Lemma slice_app_start {A} (m q : list A) b : b = len m -> slice 0 b (m ++ q) = m.
Proof. intros. by apply (slice_app [] m q). Qed.

Lemma slice_app_start_eq {A} (m q : list A) a b : a = 0 -> b = len m -> slice a b (m ++ q) = m.
Proof. intros ->. apply slice_app_start. Qed.

Lemma slice_app_l {A} (p q : list A) a b : 0 <= a -> b <= len p -> slice a b (p ++ q) = slice a b p.
Proof.
  intros. unfold slice, len in *.
  destruct (decide (a <= Z.of_nat (length p))).
  - rewrite drop_app_le by lia. apply take_app_le. rewrite length_drop. lia.
  - replace (Z.to_nat (b - a)) with 0%nat by lia. done.
Qed.

Lemma slice_all {A} (l : list A) b : b = len l -> slice 0 b l = l.
Proof. intros. rewrite <- (app_nil_r l) at 1. by apply slice_app_start. Qed.

Lemma le_at_app n p z q :
  0 <= z < 256 ^ Z.of_nat n -> le_at n (len p) (p ++ le_bytes n z ++ q) = z.
Proof.
  intros. unfold le_at.
  rewrite slice_app; [by apply le_val_bytes_small|done|by rewrite len_le_bytes].
Qed.

Lemma length_slice_le {A} a b (l : list A) : 0 <= a <= b -> b <= len l -> len (slice a b l) = b - a.
Proof.
  intros. unfold slice, len in *. rewrite length_take, length_drop. lia.
Qed.

(** Reading past a prefix of known length. *)
Lemma slice_skip {A} (p q : list A) a b :
  len p <= a -> slice a b (p ++ q) = slice (a - len p) (b - len p) q.
Proof.
  intros. unfold slice, len in *.
  rewrite drop_app_ge by lia. f_equal; [lia|]. f_equal. lia.
Qed.

Lemma le_at_skip n i p q : len p <= i -> le_at n i (p ++ q) = le_at n (i - len p) q.
Proof.
  intros. unfold le_at. rewrite slice_skip by done. do 2 f_equal. lia.
Qed.

Lemma le_at_here n z q : 0 <= z < 256 ^ Z.of_nat n -> le_at n 0 (le_bytes n z ++ q) = z.
Proof. intros. by apply (le_at_app n [] z q). Qed.

Lemma le_at_end n z : 0 <= z < 256 ^ Z.of_nat n -> le_at n 0 (le_bytes n z) = z.
Proof. intros. rewrite <- (app_nil_r (le_bytes n z)). by apply le_at_here. Qed.

Lemma le_at_range n i l : 0 <= i -> i + Z.of_nat n <= len l -> 0 <= le_at n i l < 256 ^ Z.of_nat n.
Proof.
  intros. unfold le_at. pose proof (le_val_range (slice i (i + Z.of_nat n) l)) as Hr.
  rewrite length_slice_le in Hr by lia.
  by replace (i + Z.of_nat n - i) with (Z.of_nat n) in Hr by lia.
Qed.

(** The bytes an integer was read from are the bytes it is written to. *)
Lemma le_bytes_at n i l :
  0 <= i -> i + Z.of_nat n <= len l -> le_bytes n (le_at n i l) = slice i (i + Z.of_nat n) l.
Proof.
  intros. unfold le_at. rewrite <- (le_bytes_val (slice _ _ l)) at 2. f_equal.
  unfold slice, len in *. rewrite length_take, length_drop. lia.
Qed.

Lemma slice_slice_split {A} a b c (l : list A) :
  0 <= a -> a <= b <= c -> slice a b l ++ slice b c l = slice a c l.
Proof.
  intros. unfold slice.
  replace (drop (Z.to_nat b) l) with (drop (Z.to_nat (b - a)) (drop (Z.to_nat a) l))
    by (rewrite drop_drop; f_equal; lia).
  rewrite <- (take_drop (Z.to_nat (b - a)) (take (Z.to_nat (c - a)) (drop (Z.to_nat a) l))).
  rewrite take_take, skipn_firstn_comm.
  f_equal; f_equal; lia.
Qed.

Lemma slice_slice {A} a b c d (l : list A) :
  0 <= a -> 0 <= c -> c + b <= d -> slice a b (slice c d l) = slice (c + a) (c + b) l.
Proof.
  intros. unfold slice. rewrite skipn_firstn_comm, take_take, drop_drop.
  f_equal; [lia|]. f_equal. lia.
Qed.

Arguments lit : simpl never.
Arguments len : simpl never.
Arguments slice : simpl never.
Arguments le_bytes : simpl never.
Arguments le_val : simpl never.
Arguments le_at : simpl never.
Arguments byte_of_Z : simpl never.
Arguments byte_to_Z : simpl never.

#[export] Hint Rewrite @len_app @len_cons @len_nil len_le_bytes : wmbt.

(** Normalise lengths and finish with linear arithmetic. *)
Ltac solve_len :=
  autorewrite with wmbt in *; cbn [Z.of_nat Pos.of_succ_nat Pos.succ] in *; try done; try lia.

(** Run the error monads, leaving byte-level terms folded. *)
Ltac run_res := cbn [res_bind ok_or map_err is_ok st_bind st_ret st_fail st_lift fst snd option_map].

(** Decide a closed proposition by evaluation. *)
Ltac by_eval :=
  match goal with |- ?P => apply (bool_decide_unpack P); vm_compute; exact I end.

(** Resolve the outermost test of the goal. *)
Tactic Notation "test_true" "by" tactic3(tac) :=
  match goal with
  | |- context [if @decide ?P ?D then _ else _] => rewrite (@decide_True _ P D) by tac
  end.
Tactic Notation "test_false" "by" tactic3(tac) :=
  match goal with
  | |- context [if @decide ?P ?D then _ else _] => rewrite (@decide_False _ P D) by tac
  end.

(** Evaluate a little-endian read from a concatenation of known layout: skip
    the pieces before the offset, then read the integer's own bytes. *)
Ltac read_le :=
  repeat (rewrite le_at_skip by solve_len);
  match goal with
  | |- context [le_at ?n ?i _] => replace i with 0 by solve_len
  end;
  first [rewrite le_at_here by (cbn; lia) | rewrite le_at_end by (cbn; lia)].

(** *** Facts about string cutting *)
Section Cutting.
Context {A : Type} `{!EqDecision A}.
Implicit Types l p : list A.

Lemma strip_prefix_app p l : strip_prefix p (p ++ l) = Some l.
Proof. induction p; simpl; [done|]. by rewrite decide_True. Qed.

Lemma strip_prefix_Some p l r : strip_prefix p l = Some r -> l = p ++ r.
Proof.
  revert l. induction p as [|x p IH]; intros l; simpl; [naive_solver|].
  destruct l as [|y l]; [done|]. case_decide; [|done]. intros ?%IH. naive_solver.
Qed.

Lemma starts_with_spec p l : starts_with p l = true <-> exists r, l = p ++ r.
Proof.
  unfold starts_with. split.
  - destruct (strip_prefix p l) as [r|] eqn:E; [|done]. intros _.
    exists r. by apply strip_prefix_Some.
  - intros [r ->]. by rewrite strip_prefix_app.
Qed.

Lemma starts_with_app p l : starts_with p (p ++ l) = true.
Proof. apply starts_with_spec. by exists l. Qed.

Lemma strip_suffix_app p l : strip_suffix p (l ++ p) = Some l.
Proof. unfold strip_suffix. rewrite reverse_app, strip_prefix_app. simpl. by rewrite reverse_involutive. Qed.

Lemma strip_suffix_Some p l r : strip_suffix p l = Some r -> l = r ++ p.
Proof.
  unfold strip_suffix. destruct (strip_prefix _ _) as [q|] eqn:E; [|done].
  intros [= <-]. apply strip_prefix_Some in E.
  rewrite <- (reverse_involutive l), E, reverse_app. by rewrite reverse_involutive.
Qed.

Lemma split_once_app c l r : c ∉ l -> split_once c (l ++ c :: r) = Some (l, r).
Proof.
  induction l as [|x l IH]; simpl; intros Hc.
  { by rewrite decide_True. }
  rewrite decide_False by set_solver. by rewrite IH by set_solver.
Qed.

Lemma rsplit_once_app c l r : c ∉ r -> rsplit_once c (l ++ c :: r) = Some (l, r).
Proof.
  intros Hc. unfold rsplit_once.
  rewrite reverse_app, reverse_cons, <- app_assoc. simpl. rewrite split_once_app.
  - by rewrite !reverse_involutive.
  - by rewrite elem_of_reverse.
Qed.
End Cutting.

(** ** Finite maps *)
Lemma alter_lookup_Some `{Countable K} {V} (f : V -> V) (m : gmap K V) k v :
  m !! k = Some v -> alter f k m = <[k := f v]> m.
Proof.
  intros E. apply map_eq. intros j. destruct (decide (j = k)) as [->|?].
  - by rewrite lookup_insert_eq, lookup_alter_eq, E.
  - by rewrite lookup_insert_ne, lookup_alter_ne.
Qed.
