(* ===== verification/Order.v ===== *)
(** * Orders, sorting and [BTreeMap]

    Rust orders values with [Ord::cmp] and [Ordering::then_with], sorts with
    the stable [slice::sort_by] and iterates a [BTreeMap] in key order.  This
    file gives those three a model: comparison functions with their laws as
    type classes, a stable insertion sort, and the ordered enumeration of a
    [gmap].  The main fact is that a sorted list without duplicates is
    determined by its elements, so an enumeration can be computed from any
    strictly sorted list with the right contents. *)

From S2P Require Import Prelude.

(** A comparison function that is a total preorder. *)
Class TotalCmp {A} (cmp : A -> A -> comparison) : Prop := {
  cmp_antisym x y : cmp y x = CompOpp (cmp x y);
  cmp_trans x y z : cmp x y <> Gt -> cmp y z <> Gt -> cmp x z <> Gt
}.
(** A comparison function whose [Equal] is equality. *)
Class StrictCmp {A} (cmp : A -> A -> comparison) : Prop := {
  strict_total :: TotalCmp cmp;
  cmp_eq x y : cmp x y = Eq -> x = y
}.

Arguments cmp_antisym {A} cmp {_} x y.
Arguments cmp_trans {A} cmp {_} x y z.
Arguments cmp_eq {A} cmp {_} x y.

(** [a.cmp(&b).then_with(|| c)] *)
Definition then_with (c d : comparison) : comparison :=
  match c with Eq => d | _ => c end.
(** The comparison of pairs, lexicographic. *)
Definition pair_cmp {A B} (ca : A -> A -> comparison) (cb : B -> B -> comparison)
  (x y : A * B) : comparison := then_with (ca (fst x) (fst y)) (cb (snd x) (snd y)).
(** Comparison through a key. *)
Definition cmp_on {A B} (f : A -> B) (cmp : B -> B -> comparison) (x y : A) : comparison :=
  cmp (f x) (f y).
(** The comparison of slices and strings, lexicographic. *)
Fixpoint list_cmp {A} (cmp : A -> A -> comparison) (x y : list A) : comparison :=
  match x, y with
  | [], [] => Eq
  | [], _ :: _ => Lt
  | _ :: _, [] => Gt
  | a :: x', b :: y' => then_with (cmp a b) (list_cmp cmp x' y')
  end.
Definition byte_cmp (a b : byte) : comparison := Z.compare (byte_to_Z a) (byte_to_Z b).
Definition bytes_cmp : bytes -> bytes -> comparison := list_cmp byte_cmp.

(** The boolean and propositional readings of a comparison. *)
Definition cmp_le {A} (cmp : A -> A -> comparison) (x y : A) : Prop := cmp x y <> Gt.
Definition cmp_lt {A} (cmp : A -> A -> comparison) (x y : A) : Prop := cmp x y = Lt.
#[global] Instance cmp_le_dec {A} (cmp : A -> A -> comparison) x y : Decision (cmp_le cmp x y).
Proof. unfold cmp_le. destruct (cmp x y); [left|left|right]; naive_solver. Defined.

(** [v.sort_by(cmp)], stable: equal elements keep their order. *)
Fixpoint insert_by {A} (cmp : A -> A -> comparison) (x : A) (l : list A) : list A :=
  match l with
  | [] => [x]
  | y :: l' => match cmp x y with Gt => y :: insert_by cmp x l' | _ => x :: l end
  end.
Definition sort_by {A} (cmp : A -> A -> comparison) (l : list A) : list A :=
  foldr (insert_by cmp) [] l.

(** The first minimal element: [iter.min_by(cmp)]. *)
Fixpoint min_by {A} (cmp : A -> A -> comparison) (l : list A) : option A :=
  match l with
  | [] => None
  | x :: l' =>
      match min_by cmp l' with
      | None => Some x
      | Some y => match cmp x y with Gt => Some y | _ => Some x end
      end
  end.

(** The entries of a [BTreeMap] in iteration order, and its keys. *)
Definition btree_entries {K V} `{Countable K} (cmp : K -> K -> comparison)
  (m : gmap K V) : list (K * V) := sort_by (cmp_on fst cmp) (map_to_list m).
Definition btree_keys {K V} `{Countable K} (cmp : K -> K -> comparison)
  (m : gmap K V) : list K := map fst (btree_entries cmp m).

(** ** Laws of the comparison functions *)
Section Laws.
Context {A : Type} (cmp : A -> A -> comparison).

Lemma cmp_refl `{!TotalCmp cmp} x : cmp x x = Eq.
Proof. pose proof (cmp_antisym cmp x x). destruct (cmp x x); done. Qed.

Lemma cmp_gt_lt `{!TotalCmp cmp} x y : cmp x y = Gt <-> cmp y x = Lt.
Proof. rewrite (cmp_antisym cmp x y). destruct (cmp x y); naive_solver. Qed.

Lemma cmp_eq_sym `{!TotalCmp cmp} x y : cmp x y = Eq -> cmp y x = Eq.
Proof. rewrite (cmp_antisym cmp x y). by intros ->. Qed.

Lemma cmp_le_total `{!TotalCmp cmp} x y : cmp_le cmp x y \/ cmp_le cmp y x.
Proof. unfold cmp_le. rewrite (cmp_antisym cmp x y). destruct (cmp x y); naive_solver. Qed.

Lemma cmp_lt_le_trans `{!TotalCmp cmp} x y z : cmp x y = Lt -> cmp_le cmp y z -> cmp x z = Lt.
Proof.
  unfold cmp_le. intros Hxy Hyz.
  destruct (cmp x z) eqn:E; [|done|].
  - exfalso. assert (cmp y x <> Gt) as H.
    { apply (cmp_trans cmp) with z; [done|]. by rewrite (cmp_eq_sym x z). }
    by apply H, cmp_gt_lt.
  - exfalso. apply cmp_gt_lt in E. apply (cmp_trans cmp) with (x := y) (y := z) (z := x); try done.
    + by rewrite E.
    + by apply cmp_gt_lt.
Qed.

Lemma cmp_le_lt_trans `{!TotalCmp cmp} x y z : cmp_le cmp x y -> cmp y z = Lt -> cmp x z = Lt.
Proof.
  unfold cmp_le. intros Hxy Hyz.
  destruct (cmp x z) eqn:E; [|done|].
  - exfalso. assert (cmp z y <> Gt) as H.
    { apply (cmp_trans cmp) with x; [|done]. by rewrite (cmp_eq_sym x z). }
    by apply H, cmp_gt_lt.
  - exfalso. apply cmp_gt_lt in E. apply (cmp_trans cmp) with (x := z) (y := x) (z := y); try done.
    + by rewrite E.
    + by apply cmp_gt_lt.
Qed.

Lemma cmp_le_antisym `{!StrictCmp cmp} x y : cmp_le cmp x y -> cmp_le cmp y x -> x = y.
Proof.
  unfold cmp_le. rewrite (cmp_antisym cmp x y). intros.
  apply (cmp_eq cmp). by destruct (cmp x y).
Qed.

Lemma cmp_lt_irrefl `{!TotalCmp cmp} x : cmp x x <> Lt.
Proof. by rewrite cmp_refl. Qed.
End Laws.

#[global] Instance Zcompare_strict : StrictCmp Z.compare.
Proof.
  split; [split|].
  - intros x y. apply Z.compare_antisym.
  - intros x y z. rewrite !Z.compare_gt_iff. lia.
  - intros x y. by apply Z.compare_eq.
Qed.

#[global] Instance byte_cmp_strict : StrictCmp byte_cmp.
Proof.
  split; [split|]; unfold byte_cmp.
  - intros x y. apply Z.compare_antisym.
  - intros x y z. rewrite !Z.compare_gt_iff. lia.
  - intros x y ?%Z.compare_eq. by apply byte_to_Z_inj.
Qed.

#[global] Instance cmp_on_total {A B} (f : A -> B) cmp `{!TotalCmp cmp} : TotalCmp (cmp_on f cmp).
Proof. split; unfold cmp_on; intros; [apply (cmp_antisym cmp)|by eapply (cmp_trans cmp)]. Qed.

#[global] Instance pair_cmp_total {A B} (ca : A -> A -> comparison) (cb : B -> B -> comparison)
  `{!TotalCmp ca, !TotalCmp cb} : TotalCmp (pair_cmp ca cb).
Proof.
  split; unfold pair_cmp; intros [a b] [a' b']; simpl.
  { rewrite (cmp_antisym ca a a'), (cmp_antisym cb b b'). by destruct (ca a a'). }
  intros [a'' b'']. simpl. intros H1 H2.
  destruct (ca a a') eqn:E1, (ca a' a'') eqn:E2; simpl in *; try done.
  - assert (ca a a'' = Eq) as ->.
    { apply (cmp_eq_sym ca) in E1 as E1', E2 as E2'.
      pose proof (cmp_trans ca a a' a'') as T. pose proof (cmp_trans ca a'' a' a) as T'.
      rewrite E1, E2 in T. rewrite E1', E2' in T'.
      destruct (ca a a'') eqn:E; [done| |by destruct T].
      apply cmp_gt_lt in E; [|done]. by destruct T'. }
    simpl. by apply (cmp_trans cb) with b'.
  - rewrite (cmp_le_lt_trans ca a a' a''); [done| |done]. unfold cmp_le. by rewrite E1.
  - rewrite (cmp_lt_le_trans ca a a' a''); [done|done|]. unfold cmp_le. by rewrite E2.
  - rewrite (cmp_lt_le_trans ca a a' a''); [done|done|]. unfold cmp_le. by rewrite E2.
Qed.

#[global] Instance pair_cmp_strict {A B} (ca : A -> A -> comparison) (cb : B -> B -> comparison)
  `{!StrictCmp ca, !StrictCmp cb} : StrictCmp (pair_cmp ca cb).
Proof.
  split; [apply _|]. intros [a b] [a' b']. unfold pair_cmp. simpl.
  destruct (ca a a') eqn:E; simpl; try done.
  intros E'. f_equal; [by apply (cmp_eq ca)|by apply (cmp_eq cb)].
Qed.

(** Lists compare as the pair of head and tail, so the laws follow from those
    of [pair_cmp] by induction on the length. *)
#[global] Instance list_cmp_strict {A} (cmp : A -> A -> comparison) `{!StrictCmp cmp} :
  StrictCmp (list_cmp cmp).
Proof.
  split; [split|].
  - intros x. induction x as [|a x IH]; intros [|b y]; simpl; try done.
    rewrite (cmp_antisym cmp a b), IH. by destruct (cmp a b).
  - intros x. induction x as [|a x IH]; intros [|b y] [|c z]; simpl; try done.
    intros H1 H2. unfold then_with in *.
    destruct (cmp a b) eqn:E1; [apply (cmp_eq cmp) in E1 as ->| |done].
    + destruct (cmp b c) eqn:E2; [|done|done]. by apply IH with y.
    + destruct (cmp b c) eqn:E2; [apply (cmp_eq cmp) in E2 as ->; by rewrite E1| |done].
      rewrite (cmp_lt_le_trans cmp a b c); [done|done|]. unfold cmp_le. by rewrite E2.
  - intros x. induction x as [|a x IH]; intros [|b y]; simpl; try done.
    destruct (cmp a b) eqn:E; simpl; try done.
    intros E'. f_equal; [by apply (cmp_eq cmp)|by apply IH].
Qed.

#[global] Instance bytes_cmp_strict : StrictCmp bytes_cmp := list_cmp_strict byte_cmp.

(** ** The stable sort *)
Section Sorting.
Context {A : Type} (cmp : A -> A -> comparison) `{!TotalCmp cmp}.

Lemma insert_by_perm x l : insert_by cmp x l ≡ₚ x :: l.
Proof using.
  induction l as [|y l IH]; simpl; [done|].
  destruct (cmp x y); try done. rewrite IH. by constructor.
Qed.

Lemma sort_by_perm l : sort_by cmp l ≡ₚ l.
Proof using.
  induction l as [|x l IH]; simpl; [done|]. rewrite insert_by_perm. by constructor.
Qed.

Lemma insert_by_sorted x l :
  StronglySorted (cmp_le cmp) l -> StronglySorted (cmp_le cmp) (insert_by cmp x l).
Proof.
  induction 1 as [|y l Hl IH Hy]; simpl; [repeat constructor|].
  destruct (cmp x y) eqn:E.
  1,2: assert (cmp_le cmp x y) as Hxy by (unfold cmp_le; by rewrite E);
       constructor; [by constructor|]; constructor; [done|];
       eapply Forall_impl; [exact Hy|]; intros z Hz; by apply (cmp_trans cmp) with y.
  constructor; [done|]. rewrite insert_by_perm. constructor; [|done].
  unfold cmp_le. rewrite (cmp_antisym cmp x y), E. done.
Qed.

Lemma sort_by_sorted l : StronglySorted (cmp_le cmp) (sort_by cmp l).
Proof. induction l; simpl; [constructor|by apply insert_by_sorted]. Qed.

(** A sorted input is left alone, ties included: the sort is stable. *)
Lemma sort_by_id l : StronglySorted (cmp_le cmp) l -> sort_by cmp l = l.
Proof using.
  induction 1 as [|x l Hl IH Hx]; simpl; [done|]. rewrite IH.
  destruct l as [|y l]; [done|]. simpl. inversion Hx; subst.
  unfold cmp_le in *. by destruct (cmp x y).
Qed.

(** A sorted permutation of a strictly sorted list is that list. *)
Lemma sorted_unique s k :
  StronglySorted (cmp_le cmp) s -> StronglySorted (cmp_lt cmp) k -> s ≡ₚ k -> s = k.
Proof.
  intros Hs Hk. revert s Hs. induction Hk as [|x k Hk IH Hx]; intros s Hs Hp.
  { by apply Permutation_nil_r in Hp as ->. }
  destruct Hs as [|y s Hs Hy]; [by apply Permutation_nil_l in Hp|].
  assert (x = y) as ->.
  { assert (y ∈ x :: k) as Hyk by (rewrite <- Hp; left).
    apply elem_of_cons in Hyk as [->|Hyk]; [done|]. exfalso.
    assert (x ∈ y :: s) as Hxs by (rewrite Hp; left).
    rewrite Forall_forall in Hx, Hy. specialize (Hx y Hyk).
    apply elem_of_cons in Hxs as [->|Hxs]; [by apply (cmp_lt_irrefl cmp) in Hx|].
    apply (Hy x Hxs), cmp_gt_lt; done. }
  f_equal. apply IH; [done|]. by apply Permutation_cons_inv in Hp.
Qed.

Lemma sort_by_unique l k :
  StronglySorted (cmp_lt cmp) k -> l ≡ₚ k -> sort_by cmp l = k.
Proof.
  intros. apply sorted_unique; [apply sort_by_sorted|done|]. by rewrite sort_by_perm.
Qed.

Lemma min_by_None l : min_by cmp l = None <-> l = [].
Proof using.
  destruct l as [|x l]; simpl; [done|].
  destruct (min_by cmp l); [destruct (cmp x a)|]; done.
Qed.

Lemma min_by_Some l x : min_by cmp l = Some x -> x ∈ l /\ Forall (cmp_le cmp x) l.
Proof.
  revert x. induction l as [|y l IH]; intros x; simpl; [done|].
  destruct (min_by cmp l) as [z|] eqn:E.
  - destruct (IH z eq_refl) as [Hz Hl].
    destruct (cmp y z) eqn:Eyz; intros [= <-].
    1,2: split; [left|]; constructor; [unfold cmp_le; by rewrite cmp_refl|];
         eapply Forall_impl; [exact Hl|]; intros w Hw; apply (cmp_trans cmp) with z; [|done];
         unfold cmp_le; by rewrite Eyz.
    split; [by right|]. constructor; [|done].
    unfold cmp_le. rewrite (cmp_antisym cmp y z), Eyz. done.
  - intros [= <-]. apply min_by_None in E as ->. split; [left|].
    repeat constructor. unfold cmp_le. by rewrite cmp_refl.
Qed.
End Sorting.

(** Under a strict order the result of a sort or of a selection does not
    depend on the order of the input. *)
Lemma sort_by_perm_eq {A} (cmp : A -> A -> comparison) `{!StrictCmp cmp} l k :
  l ≡ₚ k -> sort_by cmp l = sort_by cmp k.
Proof.
  intros Hp. apply (StronglySorted_unique_strong (cmp_le cmp)).
  - intros x y _ _. apply (cmp_le_antisym cmp).
  - apply (sort_by_sorted cmp).
  - apply (sort_by_sorted cmp).
  - by rewrite !sort_by_perm.
Qed.

Lemma min_by_perm {A} (cmp : A -> A -> comparison) `{!StrictCmp cmp} l k :
  l ≡ₚ k -> min_by cmp l = min_by cmp k.
Proof.
  intros Hp. destruct (min_by cmp l) as [x|] eqn:El, (min_by cmp k) as [y|] eqn:Ek; try done.
  - apply min_by_Some in El as [Hx Fx]; [|apply _]. apply min_by_Some in Ek as [Hy Fy]; [|apply _].
    f_equal. rewrite Forall_forall in Fx, Fy. apply (cmp_le_antisym cmp).
    + apply Fx. by rewrite Hp.
    + apply Fy. by rewrite <- Hp.
  - apply min_by_None in Ek as ->. by apply Permutation_nil_r in Hp as ->.
  - apply min_by_None in El as ->. symmetry in Hp. by apply Permutation_nil_r in Hp as ->.
Qed.

(** ** Enumerating a [BTreeMap] *)
Section BTree.
Context {K V : Type} `{Countable K} (cmp : K -> K -> comparison) `{!StrictCmp cmp}.
Implicit Types m : gmap K V.

Lemma btree_entries_perm m : btree_entries cmp m ≡ₚ map_to_list m.
Proof using. apply sort_by_perm. Qed.

Lemma elem_of_btree_entries m k v : (k, v) ∈ btree_entries cmp m <-> m !! k = Some v.
Proof using. rewrite btree_entries_perm. apply elem_of_map_to_list. Qed.

Lemma btree_keys_perm m : btree_keys cmp m ≡ₚ elements (dom m).
Proof using.
  unfold btree_keys. rewrite btree_entries_perm.
  apply NoDup_Permutation.
  - apply NoDup_fst_map_to_list.
  - apply NoDup_elements.
  - intros k. rewrite elem_of_elements, elem_of_dom, list_elem_of_fmap. split.
    + intros ([k' v] & -> & Hk). apply elem_of_map_to_list in Hk. simpl. eauto.
    + intros [v Hv]. exists (k, v). split; [done|]. by apply elem_of_map_to_list.
Qed.

Lemma elem_of_btree_keys m k : k ∈ btree_keys cmp m <-> is_Some (m !! k).
Proof using. by rewrite btree_keys_perm, elem_of_elements, elem_of_dom. Qed.

Lemma NoDup_btree_keys m : NoDup (btree_keys cmp m).
Proof using. rewrite btree_keys_perm. apply NoDup_elements. Qed.

(** The enumeration of a map is the only strictly sorted list of its entries. *)
Lemma btree_entries_unique m l :
  StronglySorted (cmp_lt (cmp_on fst cmp)) l -> l ≡ₚ map_to_list m -> btree_entries cmp m = l.
Proof. intros. by apply sort_by_unique; [apply _| |symmetry]. Qed.

Lemma length_btree_entries m : length (btree_entries cmp m) = size m.
Proof using. by rewrite btree_entries_perm, length_map_to_list. Qed.
End BTree.

(** A strictly sorted list has no duplicates. *)
Lemma sorted_lt_NoDup {A} (cmp : A -> A -> comparison) `{!TotalCmp cmp} l :
  StronglySorted (cmp_lt cmp) l -> NoDup l.
Proof.
  induction 1 as [|x l _ IH Hx]; constructor; [|done]. intros Hin.
  rewrite Forall_forall in Hx. specialize (Hx x Hin). unfold cmp_lt in Hx. by rewrite (cmp_refl cmp) in Hx.
Qed.

(** In a sorted list what comes first is at most what comes later. *)
Lemma sorted_app_le {A} (cmp : A -> A -> comparison) l k x y :
  StronglySorted (cmp_le cmp) (l ++ k) -> x ∈ l -> y ∈ k -> cmp_le cmp x y.
Proof.
  induction l as [|z l IH]; cbn; intros Hs Hx Hy; [by apply elem_of_nil in Hx|].
  inversion Hs as [|? ? Hs' Hz]; subst. apply elem_of_cons in Hx as [->|Hx]; [|by apply IH].
  rewrite Forall_forall in Hz. apply Hz. set_solver.
Qed.
