(* ===== verification/Text.v ===== *)
(** * Decimal text: [format!] and [str::parse]

    The object keys of the store carry integers in decimal: zero-padded to
    twenty digits ([{:020}]) or plain ([{}]).  This file models those two
    formats and [str::parse::<u64>], and shows that parsing inverts printing,
    that printed digits contain no separator, and that padded numerals order
    like the numbers they print. *)

From S2P Require Import Prelude Order.

Definition digit_byte (d : Z) : byte := byte_of_Z (48 + d).
Definition is_ascii_digit (c : byte) : bool :=
  bool_decide (48 <= byte_to_Z c) && bool_decide (byte_to_Z c <= 57).
Definition is_ascii_alphanumeric (c : byte) : bool :=
  is_ascii_digit c
  || (bool_decide (65 <= byte_to_Z c) && bool_decide (byte_to_Z c <= 90))
  || (bool_decide (97 <= byte_to_Z c) && bool_decide (byte_to_Z c <= 122)).

(** [format!("{z:0n$}")] for [z < 10^n]. *)
Fixpoint dec_fixed (n : nat) (z : Z) : str :=
  match n with
  | O => []
  | S n' => dec_fixed n' (z / 10) ++ [digit_byte (z mod 10)]
  end.
(** [format!("{z:020}")]: twenty digits hold every [u64]. *)
Definition pad20 (z : Z) : str := dec_fixed 20 z.
(** Leading zeros removed, one digit kept. *)
Fixpoint trim_zeros (s : str) : str :=
  match s with
  | [] => []
  | [c] => [c]
  | c :: s' => if decide (c = "0"%byte) then trim_zeros s' else s
  end.
(** [format!("{z}")] for a [u64]. *)
Definition dec (z : Z) : str := trim_zeros (pad20 z).

(** [s.parse::<u64>().ok()]: an optional [+], then at least one digit, without
    overflow. *)
Fixpoint parse_digits (acc : Z) (s : str) : option Z :=
  match s with
  | [] => Some acc
  | c :: s' =>
      if is_ascii_digit c then
        let acc' := acc * 10 + (byte_to_Z c - 48) in
        if decide (acc' <= u64_max) then parse_digits acc' s' else None
      else None
  end.
Definition parse_u64 (s : str) : option Z :=
  match s with
  | [] => None
  | [c] => if is_ascii_digit c then Some (byte_to_Z c - 48) else None
  | c :: s' => if decide (c = "+"%byte) then parse_digits 0 s' else parse_digits 0 s
  end.

Arguments is_ascii_digit : simpl never.

Lemma byte_to_digit d : 0 <= d < 10 -> byte_to_Z (digit_byte d) = 48 + d.
Proof. intros. unfold digit_byte. rewrite byte_to_of_Z. apply Z.mod_small. lia. Qed.

Lemma is_ascii_digit_digit d : 0 <= d < 10 -> is_ascii_digit (digit_byte d) = true.
Proof.
  intros. unfold is_ascii_digit. rewrite byte_to_digit by done.
  rewrite !bool_decide_eq_true_2 by lia. done.
Qed.

Lemma length_dec_fixed n z : length (dec_fixed n z) = n.
Proof.
  revert z. induction n as [|n IH]; intros z; [done|].
  cbn [dec_fixed]. rewrite length_app, IH. simpl. lia.
Qed.

Lemma dec_fixed_digits n z : Forall (fun c => is_ascii_digit c = true) (dec_fixed n z).
Proof.
  revert z. induction n as [|n IH]; intros z; cbn [dec_fixed]; [constructor|].
  apply Forall_app. split; [done|]. repeat constructor. apply is_ascii_digit_digit.
  apply Z.mod_pos_bound. lia.
Qed.

Lemma dec_fixed_no c n z : is_ascii_digit c = false -> c ∉ dec_fixed n z.
Proof.
  intros Hc Hin. pose proof (dec_fixed_digits n z) as Hd. rewrite Forall_forall in Hd.
  specialize (Hd c Hin). congruence.
Qed.

Lemma parse_digits_app s t acc :
  parse_digits acc (s ++ t) = match parse_digits acc s with Some a => parse_digits a t | None => None end.
Proof.
  revert acc. induction s as [|c s IH]; intros acc; cbn [parse_digits app]; [done|].
  destruct (is_ascii_digit c); [|done]. case_decide; [apply IH|done].
Qed.

Lemma parse_dec_fixed n z acc :
  0 <= z < 10 ^ Z.of_nat n -> 0 <= acc -> acc * 10 ^ Z.of_nat n + z <= u64_max ->
  parse_digits acc (dec_fixed n z) = Some (acc * 10 ^ Z.of_nat n + z).
Proof.
  revert z. induction n as [|n IH]; intros z Hz Ha Hm.
  { cbn in *. f_equal. lia. }
  rewrite Nat2Z.inj_succ, Z.pow_succ_r in * by lia. cbn [dec_fixed].
  pose proof (Z.div_mod z 10 ltac:(lia)). pose proof (Z.mod_pos_bound z 10 ltac:(lia)).
  assert (0 <= z / 10 < 10 ^ Z.of_nat n) by (split; [apply Z.div_pos|apply Z.div_lt_upper_bound]; lia).
  rewrite parse_digits_app, IH by nia. cbn [parse_digits].
  rewrite is_ascii_digit_digit, byte_to_digit by done. rewrite decide_True by nia. f_equal. nia.
Qed.

(** No printed number is a single [+], so the sign rule of [parse] is idle. *)
Lemma parse_u64_digits s :
  s <> [] -> Forall (fun c => is_ascii_digit c = true) s -> parse_u64 s = parse_digits 0 s.
Proof.
  intros Hs Hd. destruct s as [|c [|c' s]]; [done| |].
  - apply Forall_cons in Hd as [Hc _]. cbn [parse_u64 parse_digits]. rewrite Hc.
    unfold is_ascii_digit in Hc. apply andb_true_iff in Hc as [_ Hc%bool_decide_eq_true].
    rewrite decide_True by lia. f_equal; lia.
  - apply Forall_cons in Hd as [Hc _]. cbn [parse_u64]. rewrite decide_False; [done|].
    intros ->. discriminate.
Qed.

Lemma pad20_nonempty z : pad20 z <> [].
Proof. intros E. apply (f_equal length) in E. unfold pad20 in E. by rewrite length_dec_fixed in E. Qed.

Lemma parse_pad20 z : in_u64 z -> parse_u64 (pad20 z) = Some z.
Proof.
  intros [??]. unfold pad20. rewrite parse_u64_digits.
  - rewrite parse_dec_fixed; [done| |done|]; cbn; lia.
  - apply pad20_nonempty.
  - apply dec_fixed_digits.
Qed.

Lemma pad20_inj x y : in_u64 x -> in_u64 y -> pad20 x = pad20 y -> x = y.
Proof. intros Hx Hy E. apply parse_pad20 in Hx, Hy. congruence. Qed.

Lemma trim_zeros_digits s :
  Forall (fun c => is_ascii_digit c = true) s -> Forall (fun c => is_ascii_digit c = true) (trim_zeros s).
Proof.
  induction 1 as [|c s Hc Hs IH]; [constructor|]. destruct s as [|d s]; [by constructor|].
  change (trim_zeros (c :: d :: s)) with (if decide (c = "0"%byte) then trim_zeros (d :: s) else c :: d :: s).
  case_decide; [done|by constructor].
Qed.

Lemma trim_zeros_nonempty s : s <> [] -> trim_zeros s <> [].
Proof.
  induction s as [|c s IH]; [done|]. intros _. destruct s as [|d s]; [done|].
  change (trim_zeros (c :: d :: s)) with (if decide (c = "0"%byte) then trim_zeros (d :: s) else c :: d :: s).
  case_decide; [by apply IH|done].
Qed.

Lemma parse_trim_zeros s : parse_digits 0 (trim_zeros s) = parse_digits 0 s.
Proof.
  induction s as [|c s IH]; [done|]. destruct s as [|d s]; [done|].
  change (trim_zeros (c :: d :: s)) with (if decide (c = "0"%byte) then trim_zeros (d :: s) else c :: d :: s).
  case_decide as Hc; [|done]. rewrite IH. by subst c.
Qed.

Lemma parse_dec z : in_u64 z -> parse_u64 (dec z) = Some z.
Proof.
  intros Hz. unfold dec. rewrite parse_u64_digits.
  - rewrite parse_trim_zeros, <- (parse_u64_digits (pad20 z)).
    + by apply parse_pad20.
    + apply pad20_nonempty.
    + apply dec_fixed_digits.
  - apply trim_zeros_nonempty, pad20_nonempty.
  - apply trim_zeros_digits, dec_fixed_digits.
Qed.

Lemma dec_digits z : Forall (fun c => is_ascii_digit c = true) (dec z).
Proof. unfold dec. apply trim_zeros_digits, dec_fixed_digits. Qed.

Lemma dec_no c z : is_ascii_digit c = false -> c ∉ dec z.
Proof.
  intros Hc Hin. pose proof (trim_zeros_digits _ (dec_fixed_digits 20 z)) as Hd.
  rewrite Forall_forall in Hd. specialize (Hd c Hin). congruence.
Qed.

(** The text before the first separator is determined. *)
Lemma split_unique (c : byte) a b x y :
  c ∉ a -> c ∉ b -> a ++ c :: x = b ++ c :: y -> a = b /\ x = y.
Proof.
  intros Ha Hb E. pose proof (split_once_app c a x Ha) as H1. pose proof (split_once_app c b y Hb) as H2.
  rewrite E in H1. split; congruence.
Qed.

Lemma rsplit_unique (c : byte) a b x y :
  c ∉ x -> c ∉ y -> a ++ c :: x = b ++ c :: y -> a = b /\ x = y.
Proof.
  intros Hx Hy E. pose proof (rsplit_once_app c a x Hx) as H1. pose proof (rsplit_once_app c b y Hy) as H2.
  rewrite E in H1. split; congruence.
Qed.

Lemma dec_inj x y : in_u64 x -> in_u64 y -> dec x = dec y -> x = y.
Proof. intros Hx Hy E. apply parse_dec in Hx, Hy. congruence. Qed.

(** Lists of equal length compare from the left. *)
Lemma list_cmp_app {A} (cmp : A -> A -> comparison) a b x y :
  length a = length b ->
  list_cmp cmp (a ++ x) (b ++ y) = then_with (list_cmp cmp a b) (list_cmp cmp x y).
Proof.
  revert b. induction a as [|c a IH]; intros [|d b] Hl; try done.
  injection Hl as Hl. cbn [app list_cmp]. rewrite IH by done. by destruct (cmp c d).
Qed.

(** Zero-padded numerals order like numbers. *)
Lemma dec_fixed_cmp n x y :
  0 <= x < 10 ^ Z.of_nat n -> 0 <= y < 10 ^ Z.of_nat n ->
  bytes_cmp (dec_fixed n x) (dec_fixed n y) = Z.compare x y.
Proof.
  revert x y. induction n as [|n IH]; intros x y Hx Hy.
  { cbn in *. replace x with 0 by lia. by replace y with 0 by lia. }
  rewrite Nat2Z.inj_succ, Z.pow_succ_r in * by lia. cbn [dec_fixed]. unfold bytes_cmp.
  rewrite list_cmp_app by (by rewrite !length_dec_fixed). fold bytes_cmp.
  pose proof (Z.div_mod x 10 ltac:(lia)). pose proof (Z.mod_pos_bound x 10 ltac:(lia)).
  pose proof (Z.div_mod y 10 ltac:(lia)). pose proof (Z.mod_pos_bound y 10 ltac:(lia)).
  rewrite IH by (split; [apply Z.div_pos|apply Z.div_lt_upper_bound]; lia).
  cbn [bytes_cmp list_cmp]. unfold byte_cmp. rewrite !byte_to_digit by done.
  destruct (Z.compare_spec (x / 10) (y / 10)), (Z.compare_spec (48 + x mod 10) (48 + y mod 10)),
    (Z.compare_spec x y); cbn [then_with]; try done; lia.
Qed.

Lemma pad20_cmp x y : in_u64 x -> in_u64 y -> bytes_cmp (pad20 x) (pad20 y) = Z.compare x y.
Proof. intros [??] [??]. apply dec_fixed_cmp; cbn; lia. Qed.

Arguments dec_fixed : simpl never.
Arguments pad20 : simpl never.
Arguments dec : simpl never.
