(* ===== verification/Strings.v ===== *)
(** * String functions of the standard library

    The methods of [str] that the daemon, its clients and its transports parse
    text with: [split], [lines], [trim], [split_whitespace],
    [to_ascii_lowercase], [find], bounded [parse], padded [format!], and the
    [{:?}] of byte slices.  Strings are UTF-8 byte lists; white space is that of
    Unicode, in its UTF-8 encoding.

    The lemmas show how each splits what [format!] has joined. *)

From S2P Require Import Prelude Order Text.

(** [s.split(c)]: the pieces between the separators, one at least. *)
Fixpoint split_on (c : byte) (s : str) : list str :=
  match s with
  | [] => [[]]
  | x :: s' =>
      if decide (x = c) then [] :: split_on c s'
      else match split_on c s' with
           | p :: ps => (x :: p) :: ps
           | [] => [[x]]
           end
  end.

(** [s.split_inclusive('\n')] with the line ending taken off, as [lines] does:
    a carriage return only goes with the line feed after it. *)
Definition LF : byte := x0a.
Definition CR : byte := x0d.
Definition strip_cr (s : str) : str :=
  match strip_suffix [CR] s with Some s' => s' | None => s end.
Fixpoint lines_from (cur : str) (s : str) : list str :=
  match s with
  | [] => match cur with [] => [] | _ => [cur] end
  | x :: s' => if decide (x = LF) then strip_cr cur :: lines_from [] s' else lines_from (cur ++ [x]) s'
  end.
Definition lines (s : str) : list str := lines_from [] s.

(** The length of the white-space character at the head of the text, and of the
    one at its end given reversed. *)
Definition byte_is (n : Z) (b : byte) : bool := bool_decide (byte_to_Z b = n).
Definition ascii_ws (b : byte) : bool :=
  bool_decide (9 <= byte_to_Z b <= 13) || byte_is 32 b.
Definition ws3 (a b c : byte) : bool :=
  (byte_is 225 a && byte_is 154 b && byte_is 128 c)
  || (byte_is 226 a && byte_is 128 b
      && (bool_decide (128 <= byte_to_Z c <= 138) || byte_is 168 c || byte_is 169 c || byte_is 175 c))
  || (byte_is 226 a && byte_is 129 b && byte_is 159 c)
  || (byte_is 227 a && byte_is 128 b && byte_is 128 c).
Definition ws2 (a b : byte) : bool := byte_is 194 a && (byte_is 133 b || byte_is 160 b).
Definition ws_head (s : str) : nat :=
  match s with
  | a :: s1 =>
      if ascii_ws a then 1
      else match s1 with
           | b :: s2 =>
               if ws2 a b then 2
               else match s2 with c :: _ => if ws3 a b c then 3 else 0 | [] => 0 end
           | [] => 0
           end
  | [] => 0
  end%nat.
Definition ws_last (rev : str) : nat :=
  match rev with
  | c :: s1 =>
      if ascii_ws c then 1
      else match s1 with
           | b :: s2 =>
               if ws2 b c then 2
               else match s2 with a :: _ => if ws3 a b c then 3 else 0 | [] => 0 end
           | [] => 0
           end
  | [] => 0
  end%nat.
(** Every round drops at least a byte. *)
Fixpoint drop_ws (fuel : nat) (head : str -> nat) (s : str) : str :=
  match fuel, head s with
  | S fuel', S n => drop_ws fuel' head (drop (S n) s)
  | _, _ => s
  end.
Definition trim_start (s : str) : str := drop_ws (length s) ws_head s.
Definition trim_end (s : str) : str := reverse (drop_ws (length s) ws_last (reverse s)).
(** [s.trim()] *)
Definition trim (s : str) : str := trim_end (trim_start s).

(** [s.split_whitespace()]: the maximal runs without white space. *)
Fixpoint words_from (fuel : nat) (cur : str) (s : str) : list str :=
  let flush rest := match cur with [] => rest | _ => cur :: rest end in
  match fuel, s with
  | _, [] => flush []
  | O, _ => flush []
  | S fuel', x :: s' =>
      match ws_head s with
      | O => words_from fuel' (cur ++ [x]) s'
      | S n => flush (words_from fuel' [] (drop n s'))
      end
  end.
Definition split_whitespace (s : str) : list str := words_from (length s) [] s.

(** [s.to_ascii_lowercase()] and [a.eq_ignore_ascii_case(b)] *)
Definition lower_byte (b : byte) : byte :=
  if bool_decide (65 <= byte_to_Z b <= 90) then byte_of_Z (byte_to_Z b + 32) else b.
Definition to_ascii_lowercase (s : str) : str := map lower_byte s.
Definition eq_ignore_ascii_case (a b : str) : bool :=
  bool_decide (to_ascii_lowercase a = to_ascii_lowercase b).

(** [s.parse::<uN>().ok()] for a type with greatest value [max], at most [u64]. *)
Definition parse_bounded (max : Z) (s : str) : option Z :=
  n ← parse_u64 s; if decide (n <= max) then Some n else None.
Definition parse_u32 (s : str) : option Z := parse_bounded u32_max s.
Definition parse_u16 (s : str) : option Z := parse_bounded u16_max s.

(** [format!("{z:0n$}")]: padded to [n] digits, more when [z] needs them. *)
Definition dec_pad (n : nat) (z : Z) : str :=
  if decide (z < 10 ^ Z.of_nat n) then dec_fixed n z else dec z.

(** [sep.join(parts)] and the [{:?}] of a byte slice. *)
Fixpoint join (sep : str) (parts : list str) : str :=
  match parts with
  | [] => []
  | [p] => p
  | p :: rest => p ++ sep ++ join sep rest
  end.
Definition bytes_debug (bs : bytes) : str :=
  lit "[" ++ join (lit ", ") (map (fun b => dec (byte_to_Z b)) bs) ++ lit "]".

(** ** Splitting what was joined *)
Lemma split_on_nonempty c s : split_on c s <> [].
Proof. destruct s as [|x s]; cbn; [done|]. case_decide; [done|]. by destruct (split_on c s). Qed.

Lemma split_on_absent c s : c ∉ s -> split_on c s = [s].
Proof.
  induction s as [|x s IH]; intros Hc; [done|]. cbn [split_on]. rewrite not_elem_of_cons in Hc.
  rewrite decide_False by (intros ->; tauto). rewrite IH by tauto. done.
Qed.

Lemma split_on_cons c p s : c ∉ p -> split_on c (p ++ c :: s) = p :: split_on c s.
Proof.
  induction p as [|x p IH]; intros Hc; cbn [app split_on]; [by rewrite decide_True|].
  rewrite not_elem_of_cons in Hc. rewrite decide_False by (intros ->; tauto). by rewrite IH by tauto.
Qed.

Lemma lines_from_line cur p s : LF ∉ p -> lines_from cur (p ++ LF :: s) = strip_cr (cur ++ p) :: lines_from [] s.
Proof.
  revert cur. induction p as [|x p IH]; intros cur Hp; cbn [app lines_from].
  - by rewrite decide_True, app_nil_r.
  - rewrite not_elem_of_cons in Hp. rewrite decide_False by (intros ->; tauto).
    rewrite IH by tauto. by rewrite <- app_assoc.
Qed.

Lemma strip_cr_absent p : CR ∉ p -> strip_cr p = p.
Proof.
  intros Hp. unfold strip_cr. destruct (strip_suffix [CR] p) as [q|] eqn:E; [|done].
  apply strip_suffix_Some in E. subst. exfalso. apply Hp. set_solver.
Qed.

(** A line of its own comes back, the rest being read on. *)
Lemma lines_cons p s : LF ∉ p -> CR ∉ p -> lines (p ++ LF :: s) = p :: lines s.
Proof. intros Hl Hc. unfold lines. rewrite lines_from_line by done. by rewrite strip_cr_absent. Qed.

(** ** Numbers *)
Lemma parse_bounded_dec max z : 0 <= z <= max -> max <= u64_max -> parse_bounded max (dec z) = Some z.
Proof.
  intros Hz Hm. unfold parse_bounded. rewrite parse_dec by (unfold in_u64; lia). cbn. by rewrite decide_True by lia.
Qed.

Lemma dec_fixed_inj n x y :
  0 <= x < 10 ^ Z.of_nat n -> 0 <= y < 10 ^ Z.of_nat n -> dec_fixed n x = dec_fixed n y -> x = y.
Proof.
  revert x y. induction n as [|n IH]; intros x y Hx Hy; [cbn in Hx, Hy; lia|].
  rewrite Nat2Z.inj_succ, Z.pow_succ_r in Hx, Hy by lia. cbn [dec_fixed]. intros E.
  apply app_inj_tail in E as [E1 E2].
  apply IH in E1; [|split; [apply Z.div_pos; lia|apply Z.div_lt_upper_bound; lia]..].
  apply (f_equal byte_to_Z) in E2. rewrite !byte_to_digit in E2 by (apply Z.mod_pos_bound; lia).
  rewrite (Z.div_mod x 10), (Z.div_mod y 10) by lia. lia.
Qed.

Lemma dec_pad_no c n z : is_ascii_digit c = false -> c ∉ dec_pad n z.
Proof. intros Hc. unfold dec_pad. case_decide; [by apply dec_fixed_no|by apply dec_no]. Qed.

Lemma dec_length_pos z : dec z <> [].
Proof. unfold dec. apply trim_zeros_nonempty, pad20_nonempty. Qed.

Example text_samples :
  lines (lit "a" ++ [CR; LF] ++ lit "b" ++ [CR]) = [lit "a"; lit "b" ++ [CR]] /\
  split_on ";"%byte (lit "tier:1;arena:64:9") = [lit "tier:1"; lit "arena:64:9"] /\
  split_whitespace (lit " GET  /x HTTP/1.1 ") = [lit "GET"; lit "/x"; lit "HTTP/1.1"] /\
  trim (lit "  12 ") = lit "12" /\ dec_pad 8 42 = lit "00000042" /\
  to_ascii_lowercase (lit "Content-Length") = lit "content-length" /\
  bytes_debug [x01; xff] = lit "[1, 255]".
Proof. repeat split; vm_compute; reflexivity. Qed.
