(* ===== verification/Format.v ===== *)
(** * The binary formats of [wombatkv-format]

    Models [crates/wombatkv-format/src/lib.rs]: the WAL record
    ([encode_wal_record]/[decode_wal_record]), its FNV-1a checksum, and the
    compacted segment object with its index and footer
    ([encode_segment_v1], [decode_segment_index] and their helpers).

    The theorems show that the record decoder accepts exactly the encoder's
    outputs (followed by anything), that every truncation of a record is
    rejected, that the index parser terminates, and that a decoded segment
    index points at the payloads that were encoded. *)

From S2P Require Import Prelude.

Definition WAL_MAGIC : bytes := lit "WMBT_KV_WAL1".
Definition WAL_HEADER_SIZE : Z := 24.
Definition SEGMENT_FOOTER_MAGIC : bytes := lit "WMBT_KV_SEG1".
Definition SEGMENT_FOOTER_SIZE : Z := 20.
Definition SEGMENT_MAGIC : bytes := lit "WMBT_KV_SGV1".
Definition SEGMENT_HEADER_SIZE : Z := 16.

(** [struct WalRecord] *)
Record WalRecord := mkWalRecord { wr_key : bytes; wr_meta : bytes; wr_payload : bytes }.

(** [enum FormatError] *)
Inductive FormatError :=
| InvalidMagic
| UnexpectedEof
| ChecksumMismatch
| FieldTooLarge.

#[global] Instance WalRecord_eq_dec : EqDecision WalRecord.
Proof. solve_decision. Defined.
#[global] Instance FormatError_eq_dec : EqDecision FormatError.
Proof. solve_decision. Defined.

(** One round of the checksum: [state ^= byte; state = state.wrapping_mul(16777619)]. *)
Definition checksum32_step (state : Z) (b : byte) : Z :=
  wrap32 (Z.lxor state (byte_to_Z b) * 16777619).
Definition checksum32 (l : bytes) : Z := foldl checksum32_step 2166136261 l.

Definition encode_wal_record (record : WalRecord) : result bytes FormatError :=
  let? key_len := ok_or (u16_try_from (len (wr_key record))) FieldTooLarge in
  let? meta_len := ok_or (u16_try_from (len (wr_meta record))) FieldTooLarge in
  let? payload_len := ok_or (u32_try_from (len (wr_payload record))) FieldTooLarge in
  let body := wr_key record ++ wr_meta record ++ wr_payload record in
  let checksum := checksum32 body in
  Ok (WAL_MAGIC ++ le_bytes 2 key_len ++ le_bytes 2 meta_len ++ le_bytes 4 payload_len
        ++ le_bytes 4 checksum ++ body).

Definition decode_wal_record (data : bytes) : result WalRecord FormatError :=
  if decide (len data < WAL_HEADER_SIZE) then Err UnexpectedEof else
  if decide (slice 0 (len WAL_MAGIC) data <> WAL_MAGIC) then Err InvalidMagic else
  let key_len := le_at 2 12 data in
  let meta_len := le_at 2 14 data in
  let payload_len := le_at 4 16 data in
  let checksum := le_at 4 20 data in
  let? body_len :=
    ok_or (match checked_add key_len meta_len with
           | Some x => checked_add x payload_len
           | None => None
           end) FieldTooLarge in
  let? total_len := ok_or (checked_add WAL_HEADER_SIZE body_len) FieldTooLarge in
  if decide (len data < total_len) then Err UnexpectedEof else
  let body := slice WAL_HEADER_SIZE total_len data in
  if decide (checksum32 body <> checksum) then Err ChecksumMismatch else
  let key_end := key_len in
  let meta_end := key_end + meta_len in
  Ok {| wr_key := slice 0 key_end body;
        wr_meta := slice key_end meta_end body;
        wr_payload := slice meta_end (len body) body |}.

(** [struct SegmentFooter] *)
Record SegmentFooter := mkSegmentFooter { index_len : Z; index_checksum : Z }.

Definition encode_segment_footer (footer : SegmentFooter) : bytes :=
  SEGMENT_FOOTER_MAGIC ++ le_bytes 4 (index_len footer) ++ le_bytes 4 (index_checksum footer).

Definition decode_segment_footer (footer_bytes index_bytes : bytes)
  : result SegmentFooter FormatError :=
  if decide (len footer_bytes < SEGMENT_FOOTER_SIZE) then Err UnexpectedEof else
  if decide (slice 0 12 footer_bytes <> SEGMENT_FOOTER_MAGIC) then Err InvalidMagic else
  let il := le_at 4 12 footer_bytes in
  let ic := le_at 4 16 footer_bytes in
  if decide (il <> len index_bytes) then Err UnexpectedEof else
  if decide (checksum32 index_bytes <> ic) then Err ChecksumMismatch else
  Ok {| index_len := il; index_checksum := ic |}.

(** [struct SegmentIndexEntry] *)
Record SegmentIndexEntry := mkSegmentIndexEntry {
  se_key : bytes; payload_offset : Z; payload_len : Z
}.

(** The loop body of [encode_segment_index] over the entries. *)
Fixpoint encode_segment_index (entries : list SegmentIndexEntry) : result bytes FormatError :=
  match entries with
  | [] => Ok []
  | entry :: rest =>
      let? key_len := ok_or (u16_try_from (len (se_key entry))) FieldTooLarge in
      let? out := encode_segment_index rest in
      Ok (le_bytes 2 key_len ++ se_key entry ++ le_bytes 4 (payload_offset entry)
            ++ le_bytes 4 (payload_len entry) ++ out)
  end.

(** The block loop of [encode_segment_v1]: [out] is the object built so far and
    [index_entries] the index collected so far. *)
Fixpoint encode_blocks (out : bytes) (index_entries : list SegmentIndexEntry)
    (blocks : list (bytes * bytes)) : result (bytes * list SegmentIndexEntry) FormatError :=
  match blocks with
  | [] => Ok (out, index_entries)
  | (key, payload) :: rest =>
      let? key_len := ok_or (u16_try_from (len key)) FieldTooLarge in
      let? plen := ok_or (u32_try_from (len payload)) FieldTooLarge in
      let? poff := ok_or (u32_try_from (len out + 2 + 4 + key_len)) FieldTooLarge in
      encode_blocks (out ++ le_bytes 2 key_len ++ le_bytes 4 plen ++ key ++ payload)
        (index_entries ++ [{| se_key := key; payload_offset := poff; payload_len := plen |}]) rest
  end.

Definition encode_segment_v1 (blocks : list (bytes * bytes)) : result bytes FormatError :=
  let? block_count := ok_or (u32_try_from (len blocks)) FieldTooLarge in
  let? (out, index_entries) :=
    encode_blocks (SEGMENT_MAGIC ++ le_bytes 4 block_count) [] blocks in
  let? index_bytes := encode_segment_index index_entries in
  let? il := ok_or (u32_try_from (len index_bytes)) FieldTooLarge in
  let footer := encode_segment_footer
                  {| index_len := il; index_checksum := checksum32 index_bytes |} in
  Ok (out ++ index_bytes ++ footer).

(** The [while cursor < index_bytes.len()] loop; [None] is fuel exhaustion. *)
Fixpoint parse_segment_index_loop (fuel : nat) (index_bytes : bytes) (cursor : Z)
    (entries : list SegmentIndexEntry) : option (result (list SegmentIndexEntry) FormatError) :=
  match fuel with
  | O => None
  | S fuel' =>
      if decide (cursor < len index_bytes) then
        if decide (saturating_sub (len index_bytes) cursor < 2) then Some (Err UnexpectedEof) else
        let key_len := le_at 2 cursor index_bytes in
        let cursor := saturating_add cursor 2 in
        if decide (saturating_sub (len index_bytes) cursor < key_len + 8)
        then Some (Err UnexpectedEof) else
        let key := slice cursor (cursor + key_len) index_bytes in
        let cursor := saturating_add cursor key_len in
        let poff := le_at 4 cursor index_bytes in
        let cursor := saturating_add cursor 4 in
        let plen := le_at 4 cursor index_bytes in
        let cursor := saturating_add cursor 4 in
        parse_segment_index_loop fuel' index_bytes cursor
          (entries ++ [{| se_key := key; payload_offset := poff; payload_len := plen |}])
      else Some (Ok entries)
  end.

(** Every iteration consumes at least ten bytes, so [S (length index_bytes)]
    rounds are enough ([parse_segment_index_loop_total]). *)
Definition parse_segment_index (index_bytes : bytes)
  : result (list SegmentIndexEntry) FormatError :=
  match parse_segment_index_loop (S (length index_bytes)) index_bytes 0 [] with
  | Some r => r
  | None => Err UnexpectedEof
  end.

Definition decode_segment_index (segment : bytes) : result (list SegmentIndexEntry) FormatError :=
  if decide (len segment < SEGMENT_HEADER_SIZE + SEGMENT_FOOTER_SIZE) then Err UnexpectedEof else
  if decide (slice 0 (len SEGMENT_MAGIC) segment <> SEGMENT_MAGIC) then Err InvalidMagic else
  let? footer_start := ok_or (checked_sub (len segment) SEGMENT_FOOTER_SIZE) UnexpectedEof in
  let footer_bytes := slice footer_start (len segment) segment in
  let il := le_at 4 12 footer_bytes in
  let? index_start := ok_or (checked_sub footer_start il) UnexpectedEof in
  let index_bytes := slice index_start footer_start segment in
  let? _ := decode_segment_footer footer_bytes index_bytes in
  parse_segment_index index_bytes.

Arguments WAL_MAGIC : simpl never.
Arguments SEGMENT_MAGIC : simpl never.
Arguments SEGMENT_FOOTER_MAGIC : simpl never.
Arguments checksum32 : simpl never.

(** The repository's golden file [tests/golden/wal_v1_record.bin], byte for byte. *)
Example wal_golden_vector_v1 :
  encode_wal_record (mkWalRecord (lit "k") (lit "m") (lit "pqr"))
  = Ok (map byte_of_Z [87; 77; 66; 84; 95; 75; 86; 95; 87; 65; 76; 49; 1; 0; 1; 0; 3; 0; 0; 0;
                       152; 48; 79; 197; 107; 109; 112; 113; 114]).
Proof. reflexivity. Qed.

(** ** The WAL record *)
Lemma len_WAL_MAGIC : len WAL_MAGIC = 12.
Proof. reflexivity. Qed.
Lemma len_SEGMENT_MAGIC : len SEGMENT_MAGIC = 12.
Proof. reflexivity. Qed.
Lemma len_SEGMENT_FOOTER_MAGIC : len SEGMENT_FOOTER_MAGIC = 12.
Proof. reflexivity. Qed.
#[export] Hint Rewrite len_WAL_MAGIC len_SEGMENT_MAGIC len_SEGMENT_FOOTER_MAGIC : wmbt.

Lemma checksum32_range l : 0 <= checksum32 l < 4294967296.
Proof.
  unfold checksum32. assert (0 <= 2166136261 < 4294967296) as H by lia. revert H.
  generalize 2166136261. induction l as [|b l IH]; intros z Hz; simpl; [done|].
  apply IH. unfold checksum32_step, wrap32. apply Z.mod_pos_bound. lia.
Qed.

(** A record whose field lengths fit the header's integers. *)
Definition wal_record_fits (r : WalRecord) : Prop :=
  len (wr_key r) <= u16_max /\ len (wr_meta r) <= u16_max /\ len (wr_payload r) <= u32_max.

(** The bytes of a record that fits. *)
Definition wal_record_layout (r : WalRecord) : bytes :=
  WAL_MAGIC ++ le_bytes 2 (len (wr_key r)) ++ le_bytes 2 (len (wr_meta r))
    ++ le_bytes 4 (len (wr_payload r))
    ++ le_bytes 4 (checksum32 (wr_key r ++ wr_meta r ++ wr_payload r))
    ++ (wr_key r ++ wr_meta r ++ wr_payload r).

Arguments wal_record_layout : simpl never.

Lemma encode_wal_record_eq r :
  encode_wal_record r =
    if decide (wal_record_fits r) then Ok (wal_record_layout r) else Err FieldTooLarge.
Proof.
  unfold encode_wal_record, u16_try_from, u32_try_from, wal_record_fits, wal_record_layout.
  repeat case_decide; simpl; try done; exfalso; tauto.
Qed.

Lemma len_wal_record_layout r :
  len (wal_record_layout r) = 24 + len (wr_key r) + len (wr_meta r) + len (wr_payload r).
Proof. unfold wal_record_layout. solve_len. Qed.

(** Decoding the layout of a record, followed by anything. *)
Lemma decode_wal_record_layout r tail :
  wal_record_fits r -> decode_wal_record (wal_record_layout r ++ tail) = Ok r.
Proof.
  destruct r as [k m p]. intros (Hk & Hm & Hp). cbn [wr_key wr_meta wr_payload] in *.
  pose proof (len_nonneg k). pose proof (len_nonneg m). pose proof (len_nonneg p).
  pose proof (len_nonneg tail). pose proof (checksum32_range (k ++ m ++ p)).
  unfold decode_wal_record, WAL_HEADER_SIZE.
  test_false by (rewrite len_app, len_wal_record_layout; cbn [wr_key wr_meta wr_payload]; lia).
  replace (slice 0 (len WAL_MAGIC) _) with WAL_MAGIC
    by (unfold wal_record_layout; rewrite <- !app_assoc; by rewrite slice_app_start).
  test_false by tauto.
  replace (le_at 2 12 _) with (len k)
    by (unfold wal_record_layout; cbn [wr_key wr_meta wr_payload]; rewrite <- !app_assoc; read_le; done).
  replace (le_at 2 14 _) with (len m)
    by (unfold wal_record_layout; cbn [wr_key wr_meta wr_payload]; rewrite <- !app_assoc; read_le; done).
  replace (le_at 4 16 _) with (len p)
    by (unfold wal_record_layout; cbn [wr_key wr_meta wr_payload]; rewrite <- !app_assoc; read_le; done).
  replace (le_at 4 20 _) with (checksum32 (k ++ m ++ p))
    by (unfold wal_record_layout; cbn [wr_key wr_meta wr_payload]; rewrite <- !app_assoc; read_le; done).
  unfold checked_add. test_true by lia. test_true by lia.
  run_res. test_true by lia. run_res.
  test_false by (rewrite len_app, len_wal_record_layout; cbn [wr_key wr_meta wr_payload]; lia).
  replace (slice 24 _ _) with (k ++ m ++ p).
  2:{ unfold wal_record_layout. cbn [wr_key wr_meta wr_payload]. rewrite <- !app_assoc.
      rewrite !slice_skip by solve_len. rewrite !app_assoc. symmetry. apply slice_app_start_eq; solve_len. }
  test_false by tauto.
  do 2 f_equal.
  - by rewrite slice_app_start.
  - rewrite slice_app; [done|done|lia].
  - rewrite app_assoc. apply slice_app_end; solve_len.
Qed.

(** The decoder accepts nothing but the layout of the record it returns. *)
Lemma decode_wal_record_sound data r :
  decode_wal_record data = Ok r ->
  wal_record_fits r /\ exists tail, data = wal_record_layout r ++ tail.
Proof.
  unfold decode_wal_record, WAL_HEADER_SIZE. case_decide as Hlen; [done|].
  case_decide as Hmagic; [done|]. rewrite len_WAL_MAGIC in Hmagic.
  pose proof (le_at_range 2 12 data) as Rk. pose proof (le_at_range 2 14 data) as Rm.
  pose proof (le_at_range 4 16 data) as Rp. pose proof (le_at_range 4 20 data) as Rc.
  cbn [Z.of_nat Pos.of_succ_nat Pos.succ] in *.
  unfold checked_add. case_decide; [|done]. case_decide; [|done]. run_res.
  case_decide; [|done]. run_res. case_decide as Htot; [done|].
  set (kl := le_at 2 12 data) in *. set (ml := le_at 2 14 data) in *. set (pl := le_at 4 16 data) in *.
  set (body := slice 24 (24 + (kl + ml + pl)) data).
  case_decide as Hsum; [done|]. intros [= <-].
  assert (len body = kl + ml + pl) as Hbody by (unfold body; rewrite length_slice_le; lia).
  assert (slice 0 kl body ++ slice kl (kl + ml) body ++ slice (kl + ml) (len body) body = body) as Hsplit.
  { rewrite slice_slice_split, slice_slice_split by lia. by apply slice_all. }
  unfold wal_record_fits, wal_record_layout. cbn [wr_key wr_meta wr_payload].
  rewrite Hsplit, Hsum, !length_slice_le by lia.
  replace (kl - 0) with kl by lia. replace (kl + ml - kl) with ml by lia.
  replace (len body - (kl + ml)) with pl by lia.
  split; [lia|]. exists (slice (24 + (kl + ml + pl)) (len data) data).
  unfold kl, ml, pl. rewrite <- Hmagic, !le_bytes_at by (cbn; lia). fold kl ml pl.
  cbn [Z.of_nat Pos.of_succ_nat Pos.succ Z.add Pos.add Pos.add_carry]. unfold body.
  rewrite <- !app_assoc.
  rewrite !slice_slice_split by lia. symmetry. by apply slice_all.
Qed.

(** C5: the WAL record decoder and encoder are inverse to each other: the
    decoder returns a record exactly on the bytes the encoder produces for that
    record, whatever bytes follow them.  So decoding an encoded record gives it
    back, and no byte string that the encoder cannot produce is accepted. *)
Theorem decode_wal_record_iff_encode data r :
  decode_wal_record data = Ok r <->
  exists enc tail, encode_wal_record r = Ok enc /\ data = enc ++ tail.
Proof.
  split.
  - intros [Hfit [tail ->]]%decode_wal_record_sound.
    exists (wal_record_layout r), tail. split; [|done].
    rewrite encode_wal_record_eq. by test_true by done.
  - intros (enc & tail & He & ->). rewrite encode_wal_record_eq in He.
    case_decide; [|done]. injection He as <-. by apply decode_wal_record_layout.
Qed.

(** A truncated WAL record is rejected: every strict prefix of an encoded
    record decodes to [UnexpectedEof], never to a record. *)
Theorem truncated_wal_record_rejected r enc n :
  encode_wal_record r = Ok enc -> (n < length enc)%nat ->
  decode_wal_record (take n enc) = Err UnexpectedEof.
Proof.
  rewrite encode_wal_record_eq. case_decide as Hfit; [|done]. intros [= <-] Hn.
  unfold decode_wal_record, WAL_HEADER_SIZE.
  case_decide as Hlen; [done|].
  assert (len (take n (wal_record_layout r)) = Z.of_nat n) as Hl.
  { unfold len. rewrite length_take. lia. }
  rewrite Hl in Hlen.
  pose proof (len_wal_record_layout r) as Ll. unfold len in Ll at 1.
  assert (forall k i, 0 <= i -> i + Z.of_nat k <= 24 ->
    le_at k i (take n (wal_record_layout r)) = le_at k i (wal_record_layout r)) as Hat.
  { intros k i ??. unfold le_at. f_equal. unfold slice.
    rewrite skipn_firstn_comm, take_take. f_equal. lia. }
  rewrite !Hat by (cbn; lia).
  replace (slice 0 (len WAL_MAGIC) _) with WAL_MAGIC.
  2:{ unfold slice. rewrite skipn_firstn_comm, take_take, len_WAL_MAGIC.
      replace (_ `min` _)%nat with 12%nat by lia. done. }
  test_false by tauto.
  destruct r as [k m p], Hfit as (Hk & Hm & Hp). cbn [wr_key wr_meta wr_payload] in *.
  pose proof (len_nonneg k). pose proof (len_nonneg m). pose proof (len_nonneg p).
  replace (le_at 2 12 _) with (len k)
    by (unfold wal_record_layout; cbn [wr_key wr_meta wr_payload]; read_le; done).
  replace (le_at 2 14 _) with (len m)
    by (unfold wal_record_layout; cbn [wr_key wr_meta wr_payload]; read_le; done).
  replace (le_at 4 16 _) with (len p)
    by (unfold wal_record_layout; cbn [wr_key wr_meta wr_payload]; read_le; done).
  unfold checked_add. test_true by lia. test_true by lia. run_res. test_true by lia. run_res.
  rewrite Hl. by test_true by lia.
Qed.

Lemma truncated_wal_record_rejected_witness :
  decode_wal_record (take 28 (wal_record_layout (mkWalRecord (lit "k") (lit "m") (lit "pqr"))))
  = Err UnexpectedEof.
Proof.
  apply (truncated_wal_record_rejected (mkWalRecord (lit "k") (lit "m") (lit "pqr"))).
  - reflexivity.
  - vm_compute. lia.
Defined.

(** ** The segment object *)
Lemma parse_segment_index_loop_total fuel index_bytes cursor entries :
  len index_bytes <= u64_max -> 0 <= cursor <= len index_bytes ->
  len index_bytes - cursor < Z.of_nat fuel ->
  is_Some (parse_segment_index_loop fuel index_bytes cursor entries).
Proof.
  intros Hmax. revert cursor entries. induction fuel as [|fuel IH]; intros cursor entries Hc Hf; [lia|].
  cbn [parse_segment_index_loop]. case_decide; [|done].
  case_decide as H2; [done|]. unfold saturating_sub in H2.
  pose proof (le_at_range 2 cursor index_bytes ltac:(lia) ltac:(cbn; lia)).
  replace (saturating_add cursor 2) with (cursor + 2) by (unfold saturating_add; lia).
  case_decide as H3; [done|]. unfold saturating_sub in H3.
  apply IH; unfold saturating_add; lia.
Qed.

(** Parsing a segment index terminates: on any index of addressable length
    the loop stops within one round per byte, so [parse_segment_index] is the
    loop's own answer and never the out-of-fuel default. *)
Theorem parse_segment_index_terminates index_bytes :
  len index_bytes <= u64_max ->
  parse_segment_index_loop (S (length index_bytes)) index_bytes 0 []
  = Some (parse_segment_index index_bytes).
Proof.
  intros. unfold parse_segment_index.
  destruct (parse_segment_index_loop_total (S (length index_bytes)) index_bytes 0 []) as [r ->];
    unfold len in *; try lia. done.
Qed.

Lemma parse_segment_index_terminates_witness :
  parse_segment_index_loop 11 (le_bytes 2 0 ++ le_bytes 4 7 ++ le_bytes 4 9) 0 []
  = Some (parse_segment_index (le_bytes 2 0 ++ le_bytes 4 7 ++ le_bytes 4 9)).
Proof.
  apply (parse_segment_index_terminates (le_bytes 2 0 ++ le_bytes 4 7 ++ le_bytes 4 9)).
  vm_compute. discriminate.
Defined.

(** An index entry whose fields fit their widths. *)
Definition entry_fits (e : SegmentIndexEntry) : Prop :=
  len (se_key e) <= u16_max /\ in_u32 (payload_offset e) /\ in_u32 (payload_len e).

Lemma encode_segment_index_length es out :
  encode_segment_index es = Ok out -> (length es <= length out)%nat.
Proof.
  revert out. induction es as [|e es IH]; intros out; cbn [encode_segment_index length]; [lia|].
  destruct (u16_try_from _); run_res; [|done].
  destruct (encode_segment_index es) as [o|]; run_res; [|done]. intros <-%Ok_inj.
  specialize (IH o eq_refl). rewrite !length_app, !length_le_bytes. lia.
Qed.

Lemma parse_segment_index_loop_encode es : forall out pre acc fuel,
  encode_segment_index es = Ok out -> Forall entry_fits es ->
  len (pre ++ out) <= u64_max -> (length es < fuel)%nat ->
  parse_segment_index_loop fuel (pre ++ out) (len pre) acc = Some (Ok (acc ++ es)).
Proof.
  induction es as [|e es IH]; intros out pre acc fuel He Hfit Hmax Hfuel.
  { injection He as <-. destruct fuel as [|fuel]; [simpl in Hfuel; lia|].
    cbn [parse_segment_index_loop]. rewrite !app_nil_r. by test_false by lia. }
  apply Forall_cons in Hfit as [(Hk & Ho & Hl) Hfit]. unfold in_u32 in *.
  cbn [encode_segment_index] in He. unfold u16_try_from in He. case_decide; [|done].
  run_res; cbn [ok_or res_bind] in He.
  destruct (encode_segment_index es) as [o|] eqn:Eo; [|done]. apply Ok_inj in He as <-.
  destruct e as [k off l]. cbn [se_key payload_offset payload_len] in *.
  destruct fuel as [|fuel]; [simpl in Hfuel; lia|]. cbn [parse_segment_index_loop].
  pose proof (len_nonneg k). pose proof (len_nonneg pre). pose proof (len_nonneg o).
  rewrite !len_app, !len_le_bytes in *. cbn [Z.of_nat Pos.of_succ_nat Pos.succ] in *.
  test_true by lia. unfold saturating_sub. test_false by lia.
  rewrite le_at_app by (cbn; lia). unfold saturating_add.
  rewrite !Z.min_l by lia. test_false by lia.
  replace (slice (len pre + 2) _ _) with k
    by (rewrite app_assoc; symmetry; apply slice_app; solve_len).
  replace (le_at 4 (len pre + 2 + len k) _) with off by (read_le; done).
  replace (le_at 4 (len pre + 2 + len k + 4) _) with l by (read_le; done).
  specialize (IH o (pre ++ le_bytes 2 (len k) ++ k ++ le_bytes 4 off ++ le_bytes 4 l)
                (acc ++ [mkSegmentIndexEntry k off l]) fuel eq_refl Hfit).
  rewrite <- !app_assoc in IH. rewrite !len_app, !len_le_bytes in IH.
  cbn [Z.of_nat Pos.of_succ_nat Pos.succ app] in IH.
  rewrite <- IH by (simpl in Hfuel; lia). f_equal. lia.
Qed.

Lemma parse_segment_index_encode es out :
  encode_segment_index es = Ok out -> Forall entry_fits es -> len out <= u64_max ->
  parse_segment_index out = Ok es.
Proof.
  intros He Hfit Hmax. unfold parse_segment_index.
  pose proof (encode_segment_index_length es out He).
  pose proof (parse_segment_index_loop_encode es out [] [] (S (length out)) He Hfit) as Hp.
  cbn [app] in Hp. rewrite len_nil in Hp. by rewrite Hp by lia.
Qed.

(** An index entry that locates a block's payload inside an object. *)
Definition block_indexed (object : bytes) (b : bytes * bytes) (e : SegmentIndexEntry) : Prop :=
  se_key e = fst b /\ payload_len e = len (snd b) /\
  0 <= payload_offset e /\ payload_offset e + payload_len e <= len object /\
  slice (payload_offset e) (payload_offset e + payload_len e) object = snd b.

Lemma block_indexed_app object q b e : block_indexed object b e -> block_indexed (object ++ q) b e.
Proof.
  intros (? & ? & ? & ? & Hs). pose proof (len_nonneg q).
  repeat split; try done; [rewrite len_app; lia|]. by rewrite slice_app_l.
Qed.

Lemma encode_blocks_spec blocks : forall out es out' es',
  encode_blocks out es blocks = Ok (out', es') ->
  exists body new, out' = out ++ body /\ es' = es ++ new /\
    Forall2 (block_indexed out') blocks new /\ Forall entry_fits new /\
    len out' <= Z.max (len out) (2 * u32_max).
Proof.
  induction blocks as [|[k p] blocks IH]; intros out es out' es'.
  { intros [= <- <-]. exists [], []. rewrite !app_nil_r. repeat split; try constructor. lia. }
  cbn [encode_blocks]. unfold u16_try_from, u32_try_from.
  repeat (case_decide; [|done]; run_res).
  intros (body & new & -> & -> & Hall & Hfit & Hmax)%IH.
  pose proof (len_nonneg k). pose proof (len_nonneg p). pose proof (len_nonneg out).
  eexists _, (_ :: new). rewrite <- !app_assoc. cbn [app]. repeat split.
  - constructor; [|by rewrite <- !app_assoc in Hall].
    repeat split; cbn [payload_offset payload_len se_key snd fst]; try done; solve_len.
    { pose proof (len_nonneg body). lia. }
    rewrite !app_assoc. rewrite <- app_assoc. apply slice_app; solve_len.
  - constructor; [|done]. unfold entry_fits, in_u32; simpl. lia.
  - rewrite <- !app_assoc in Hmax. solve_len.
Qed.

Lemma decode_segment_footer_encode idx il :
  il = len idx -> il <= u32_max ->
  is_ok (decode_segment_footer (encode_segment_footer (mkSegmentFooter il (checksum32 idx))) idx) = true.
Proof.
  intros -> Hmax. pose proof (len_nonneg idx). pose proof (checksum32_range idx).
  unfold decode_segment_footer, encode_segment_footer, SEGMENT_FOOTER_SIZE.
  cbn [index_len index_checksum]. test_false by solve_len.
  rewrite slice_app_start by done. test_false by tauto.
  replace (le_at 4 12 _) with (len idx) by (read_le; done).
  replace (le_at 4 16 _) with (checksum32 idx) by (read_le; done).
  test_false by tauto. by test_false by tauto.
Qed.

Lemma decode_encode_segment blocks seg :
  encode_segment_v1 blocks = Ok seg ->
  exists entries, decode_segment_index seg = Ok entries /\
    Forall2 (block_indexed seg) blocks entries.
Proof.
  unfold encode_segment_v1. destruct (u32_try_from (len blocks)) as [n|]; [|done]. run_res.
  destruct (encode_blocks _ _ _) as [[out es]|] eqn:Eb; [|done]. run_res.
  destruct (encode_segment_index es) as [idx|] eqn:Ei; [|done]. run_res.
  unfold u32_try_from. case_decide as Hidx; [|done]. run_res. intros <-%Ok_inj.
  apply encode_blocks_spec in Eb as (body & new & -> & Hes & Hall & Hfit & Hmax).
  cbn [app] in Hes. subst new. exists es. split.
  2:{ eapply Forall2_impl; [exact Hall|]. intros. by apply block_indexed_app. }
  set (out := (_ ++ _) ++ body) in *. set (footer := encode_segment_footer _).
  assert (len footer = 20) as Hf by (unfold footer, encode_segment_footer; solve_len).
  assert (16 <= len out) as Ho
    by (unfold out; pose proof (len_nonneg body); solve_len).
  pose proof (len_nonneg idx).
  unfold decode_segment_index, SEGMENT_HEADER_SIZE, SEGMENT_FOOTER_SIZE, checked_sub.
  test_false by solve_len.
  replace (slice 0 _ _) with SEGMENT_MAGIC
    by (unfold out; rewrite <- !app_assoc; by rewrite slice_app_start).
  test_false by tauto. test_true by solve_len. run_res.
  replace (slice (len (out ++ idx ++ footer) - 20) _ _) with footer
    by (rewrite app_assoc; symmetry; apply slice_app_end; solve_len).
  replace (le_at 4 12 footer) with (len idx)
    by (unfold footer, encode_segment_footer; cbn [index_len index_checksum]; read_le; done).
  test_true by solve_len. run_res.
  replace (slice _ _ _) with idx by (symmetry; apply slice_app; solve_len).
  pose proof (decode_segment_footer_encode idx (len idx) eq_refl Hidx) as Hok. fold footer in Hok.
  destruct (decode_segment_footer footer idx); [|done]. run_res.
  apply parse_segment_index_encode; [done|done|lia].
Qed.

(** Decoding the index of an encoded segment gives one entry per block, in
    order, with the block's key, and each entry's byte range holds that block's
    payload inside the segment. *)
Theorem segment_index_locates_payloads blocks seg :
  encode_segment_v1 blocks = Ok seg ->
  exists entries, decode_segment_index seg = Ok entries /\
    Forall2 (block_indexed seg) blocks entries.
Proof. apply decode_encode_segment. Qed.

Lemma segment_index_locates_payloads_witness :
  exists seg entries,
    encode_segment_v1 [(lit "a", lit "payload-a"); (lit "b", lit "")] = Ok seg /\
    decode_segment_index seg = Ok entries /\
    Forall2 (block_indexed seg) [(lit "a", lit "payload-a"); (lit "b", lit "")] entries.
Proof.
  eexists _.
  edestruct (segment_index_locates_payloads [(lit "a", lit "payload-a"); (lit "b", lit "")])
    as (entries & H1 & H2); [vm_compute; reflexivity|].
  exists entries. split; [reflexivity|]. by split.
Defined.

(** An index is only ever read from a segment whose footer vouches for it:
    when [decode_segment_index] succeeds, the object ends with an index, then the
    footer the encoder would write for exactly that index (its length and its
    checksum), and the entries returned are that index parsed. *)
Theorem segment_index_checked segment entries :
  decode_segment_index segment = Ok entries ->
  exists head index_bytes,
    segment = head ++ index_bytes
                ++ encode_segment_footer (mkSegmentFooter (len index_bytes) (checksum32 index_bytes)) /\
    parse_segment_index index_bytes = Ok entries.
Proof.
  unfold decode_segment_index, SEGMENT_HEADER_SIZE, SEGMENT_FOOTER_SIZE, checked_sub.
  case_decide as Hlen; [done|]. case_decide; [done|]. test_true by lia. run_res.
  set (fs := len segment - 20). set (footer := slice fs (len segment) segment).
  assert (len footer = 20) as Hf by (unfold footer, fs; rewrite length_slice_le; lia).
  case_decide as Hil; [|done]. run_res.
  pose proof (le_at_range 4 12 footer ltac:(lia) ltac:(cbn; lia)).
  set (istart := fs - le_at 4 12 footer). set (idx := slice istart fs segment).
  unfold decode_segment_footer, SEGMENT_FOOTER_SIZE.
  case_decide; [done|]. case_decide as Hmagic; [done|]. case_decide as Hl; [done|].
  case_decide as Hc; [done|]. run_res. intros Hp.
  exists (slice 0 istart segment), idx. split; [|done].
  unfold encode_segment_footer. cbn [index_len index_checksum].
  rewrite <- Hl, Hc, <- Hmagic, !le_bytes_at by (cbn; lia).
  cbn [Z.of_nat Pos.of_succ_nat Pos.succ Z.add Pos.add Pos.add_carry].
  rewrite !slice_slice_split by lia. rewrite (slice_all footer) by lia.
  unfold idx, footer. rewrite !slice_slice_split by lia. symmetry. by apply slice_all.
Qed.

Lemma segment_index_checked_witness :
  exists seg entries head idx,
    decode_segment_index seg = Ok entries /\ entries <> [] /\
    seg = head ++ idx ++ encode_segment_footer (mkSegmentFooter (len idx) (checksum32 idx)) /\
    parse_segment_index idx = Ok entries.
Proof.
  pose (seg := match encode_segment_v1 [(lit "a", lit "p")] with Ok s => s | Err _ => [] end).
  pose (entries := [mkSegmentIndexEntry (lit "a") 23 1]).
  assert (decode_segment_index seg = Ok entries) as H by (vm_compute; reflexivity).
  destruct (segment_index_checked seg entries H) as (head & idx & Hs & Hp).
  exists seg, entries, head, idx. by repeat split.
Defined.
