(* ===== verification/Facts.v ===== *)
(** * Fact ordering and frozen defaults ([wombatkv-core])

    Models [crates/wombatkv-core/src/lib.rs]: the conflict-resolution contract
    ([FactRef], [compare_facts], [pick_winner]), the WAL chunk name, the
    resident-prefix count and the frozen [M0Defaults].

    The theorems show that the winner does not depend on arrival order and is
    the least fact, and that chunk names are unique as long as tenant and
    fingerprint contain no slash. *)

From S2P Require Import Prelude Order Text.

(** [struct FactRef]; [write_id] is a [[u8; 16]]. *)
Record FactRef := mkFactRef { epoch_ms : Z; write_id : bytes }.

(** [FactRef::ordering_key] *)
Definition ordering_key (f : FactRef) : Z * bytes := (epoch_ms f, write_id f).

(** [compare_facts]: tuples compare lexicographically, arrays byte by byte. *)
Definition compare_facts (lhs rhs : FactRef) : comparison :=
  pair_cmp Z.compare bytes_cmp (ordering_key lhs) (ordering_key rhs).

Definition pick_winner (facts : list FactRef) : option FactRef := min_by compare_facts facts.

Definition wal_chunk_key (tenant fingerprint : str) (epoch : Z) (node_id : str) (seq : Z) : str :=
  lit "wal/" ++ tenant ++ lit "/" ++ fingerprint ++ lit "/" ++ dec epoch ++ lit "/chunk-"
    ++ node_id ++ lit "-" ++ dec seq ++ lit ".bin".

(** [residency.iter().take_while(|r| **r).count()] *)
Fixpoint contiguous_resident_prefix (residency : list bool) : Z :=
  match residency with
  | true :: rest => 1 + contiguous_resident_prefix rest
  | _ => 0
  end.

Inductive HashFunction := Blake3 | XxHash3.
Inductive WireFormat := MsgPack | FlatBuffers | Capnp.

(** [struct M0Defaults] *)
Record M0Defaults := mkM0Defaults {
  block_size_tokens : Z;
  hash_function : HashFunction;
  wal_chunk_target_mb : Z;
  wire_format : WireFormat
}.

(** [M0Defaults::default] *)
Definition m0_default : M0Defaults :=
  {| block_size_tokens := 128; hash_function := Blake3;
     wal_chunk_target_mb := 32; wire_format := MsgPack |}.

(** [M0Defaults::validate] *)
Definition validate (d : M0Defaults) : result unit str :=
  if bool_decide (block_size_tokens d ∈ [64; 128; 256]) then
    if bool_decide (wal_chunk_target_mb d ∈ [8; 32; 64]) then Ok tt
    else Err (lit "wal_chunk_target_mb must be one of 8, 32, 64")
  else Err (lit "block_size_tokens must be one of 64, 128, 256").

Example m0_default_valid : validate m0_default = Ok tt.
Proof. reflexivity. Qed.

(** ** Conflict resolution *)
#[global] Instance compare_facts_strict : StrictCmp compare_facts.
Proof.
  split; [split|]; unfold compare_facts.
  - intros. apply (cmp_antisym (pair_cmp Z.compare bytes_cmp)).
  - intros x y z. apply (cmp_trans (pair_cmp Z.compare bytes_cmp)).
  - intros [e w] [e' w'] E. apply (cmp_eq (pair_cmp Z.compare bytes_cmp)) in E.
    unfold ordering_key in E. naive_solver.
Qed.

(** The winner among competing facts does not depend on the order in which
    they arrive: any permutation of the facts picks the same one. *)
Theorem pick_winner_order_independent facts facts' :
  facts ≡ₚ facts' -> pick_winner facts = pick_winner facts'.
Proof. apply (min_by_perm compare_facts). Qed.

Lemma pick_winner_order_independent_witness :
  pick_winner [mkFactRef 100 (lit "bb"); mkFactRef 100 (lit "ab")]
  = pick_winner [mkFactRef 100 (lit "ab"); mkFactRef 100 (lit "bb")].
Proof. apply pick_winner_order_independent. constructor. Defined.

(** The winner is one of the facts, with the lowest epoch and, among those of
    that epoch, the lowest write id. *)
Lemma pick_winner_least facts w :
  pick_winner facts = Some w ->
  w ∈ facts /\
  Forall (fun f => epoch_ms w < epoch_ms f \/
                   (epoch_ms w = epoch_ms f /\ bytes_cmp (write_id w) (write_id f) <> Gt)) facts.
Proof.
  intros [Hin Hall]%min_by_Some; [|apply _]. split; [done|].
  eapply Forall_impl; [exact Hall|]. intros f. unfold cmp_le, compare_facts, pair_cmp. simpl.
  destruct (Z.compare_spec (epoch_ms w) (epoch_ms f)); cbn [then_with]; [auto|auto|done].
Qed.

(** ** Chunk names *)

(** WAL chunk names are globally unique: two names agree only when tenant,
    fingerprint, epoch, node and sequence number all agree, provided tenant and
    fingerprint contain no slash (node ids are unrestricted). *)
Theorem wal_chunk_key_unique t f e n s t' f' e' n' s' :
  "/"%byte ∉ t -> "/"%byte ∉ f -> "/"%byte ∉ t' -> "/"%byte ∉ f' ->
  in_u64 e -> in_u64 e' -> in_u64 s -> in_u64 s' ->
  wal_chunk_key t f e n s = wal_chunk_key t' f' e' n' s' ->
  t = t' /\ f = f' /\ e = e' /\ n = n' /\ s = s'.
Proof.
  intros Ht Hf Ht' Hf' He He' Hs Hs' E. unfold wal_chunk_key in E. apply app_inv_head in E.
  change (lit "/") with ["/"%byte] in E. change (lit "-") with ["-"%byte] in E.
  change (lit "/chunk-") with ("/"%byte :: lit "chunk-") in E. cbn [app] in E.
  apply split_unique in E as [-> E]; [|done|done].
  apply split_unique in E as [-> E]; [|done|done].
  apply split_unique in E as [Ee E]; [|by apply dec_no; reflexivity..].
  apply dec_inj in Ee as ->; [|done|done]. apply app_inv_head in E.
  apply rsplit_unique in E as [-> E].
  - apply app_inv_tail in E. by apply dec_inj in E as ->.
  - apply not_elem_of_app. split; [by apply dec_no; reflexivity|by_eval].
  - apply not_elem_of_app. split; [by apply dec_no; reflexivity|by_eval].
Qed.

Lemma wal_chunk_key_unique_witness :
  wal_chunk_key (lit "t1") (lit "f1") 1000 (lit "node-a") 7
  <> wal_chunk_key (lit "t1") (lit "f1") 1000 (lit "node-b") 7.
Proof.
  intros E. apply wal_chunk_key_unique in E as (_ & _ & _ & E & _);
    [by vm_compute in E|by_eval|by_eval|by_eval|by_eval|unfold in_u64; lia..].
Defined.
