(* ===== verification/Reuse.v ===== *)
(** * The in-memory prefix-reuse store ([wombatkv-core], [reuse.rs])

    Models [crates/wombatkv-core/src/reuse.rs]: the chained block hashes and
    [InMemoryKvStore] with [put_block], [publish_prefix] and [lookup_prefix].
    The hash function is the [blake3] crate, a parameter of the model: a
    [Hasher] fed by [update] calls hashes the concatenation of what it was fed.

    The theorems show that a published prefix is found again in full, that
    publishing for one tenant and fingerprint is invisible to every other, and
    that two chains agreeing on a block's hash agree on every token up to that
    block unless [blake3] collides. *)

From S2P Require Import Prelude.

(** [struct BlockKey]; [Fingerprint] and [prefix_hash] are [[u8; 32]]. *)
Record BlockKey := mkBlockKey {
  tenant_id : str; fingerprint : bytes; prefix_hash : bytes; block_index : Z
}.

#[global] Instance BlockKey_eq_dec : EqDecision BlockKey.
Proof. solve_decision. Defined.
#[global] Program Instance BlockKey_countable : Countable BlockKey :=
  inj_countable' (fun k => (tenant_id k, fingerprint k, prefix_hash k, block_index k))
                 (fun '(t, f, h, i) => mkBlockKey t f h i) _.
Next Obligation. by intros []. Qed.

(** [struct LookupResult] *)
Record LookupResult := mkLookupResult {
  matched_blocks : Z; payloads : list bytes; missing_keys : list BlockKey
}.

(** [struct InMemoryKvStore]: its one field, the block map. *)
Abbreviation InMemoryKvStore := (gmap BlockKey bytes).

Section Reuse.
Context (blake3 : bytes -> bytes).

Definition seed_hash (tenant fp : bytes) : bytes := blake3 (lit "tp-seed-v1" ++ tenant ++ fp).

Definition mix_hash (prev data : bytes) : bytes :=
  blake3 (lit "tp-chain-v1" ++ prev ++ le_bytes 8 (Z.min (len data) u64_max) ++ data).

(** The bytes of one token block: each [u32] token in little-endian order. *)
Definition token_bytes (block : list Z) : bytes := concat (map (le_bytes 4) block).

(** The loop of [chained_prefix_hashes] from the running hash [current]. *)
Fixpoint chain_hashes (current : bytes) (token_blocks : list (list Z)) : list bytes :=
  match token_blocks with
  | [] => []
  | block :: rest =>
      let current := mix_hash current (token_bytes block) in
      current :: chain_hashes current rest
  end.
Definition chained_prefix_hashes (tenant : str) (fp : bytes) (token_blocks : list (list Z))
  : list bytes := chain_hashes (seed_hash tenant fp) token_blocks.

Definition put_block (store : InMemoryKvStore) (key : BlockKey) (payload : bytes) : InMemoryKvStore :=
  <[key := payload]> store.

(** The enumerated loop of [publish_prefix], from position [index] on. *)
Fixpoint publish_loop (store : InMemoryKvStore) (tenant : str) (fp : bytes) (index : Z)
    (pairs : list (bytes * bytes)) : InMemoryKvStore * result unit str :=
  match pairs with
  | [] => (store, Ok tt)
  | (h, payload) :: rest =>
      match u32_try_from index with
      | None => (store, Err (lit "block index overflow"))
      | Some bi => publish_loop (put_block store (mkBlockKey tenant fp h bi) payload)
                     tenant fp (index + 1) rest
      end
  end.
Definition publish_prefix (store : InMemoryKvStore) (tenant : str) (fp : bytes)
    (token_blocks : list (list Z)) (ps : list bytes) : InMemoryKvStore * result unit str :=
  if decide (length token_blocks <> length ps)
  then (store, Err (lit "token_blocks and payloads length mismatch"))
  else publish_loop store tenant fp 0 (zip (chained_prefix_hashes tenant fp token_blocks) ps).

(** The enumerated loop of [lookup_prefix]; [None] is the panic of
    [u32::try_from(index).expect(..)]. *)
Fixpoint lookup_loop (store : InMemoryKvStore) (tenant : str) (fp : bytes) (index : Z)
    (hashes : list bytes) (r : LookupResult) : option LookupResult :=
  match hashes with
  | [] => Some r
  | h :: rest =>
      match u32_try_from index with
      | None => None
      | Some bi =>
          let key := mkBlockKey tenant fp h bi in
          let r' :=
            match missing_keys r with
            | [] =>
                match store !! key with
                | Some payload =>
                    mkLookupResult (matched_blocks r + 1) (payloads r ++ [payload]) []
                | None => mkLookupResult (matched_blocks r) (payloads r) [key]
                end
            | missing => mkLookupResult (matched_blocks r) (payloads r) (missing ++ [key])
            end in
          lookup_loop store tenant fp (index + 1) rest r'
      end
  end.
Definition lookup_prefix (store : InMemoryKvStore) (tenant : str) (fp : bytes)
    (token_blocks : list (list Z)) : option LookupResult :=
  lookup_loop store tenant fp 0 (chained_prefix_hashes tenant fp token_blocks)
    (mkLookupResult 0 [] []).

(** ** Publishing and looking up *)
Lemma length_chain_hashes c bs : length (chain_hashes c bs) = length bs.
Proof. revert c. induction bs; intros; simpl; auto. Qed.

Lemma chain_hashes_app c xs ys :
  exists d, chain_hashes c (xs ++ ys) = chain_hashes c xs ++ chain_hashes d ys.
Proof.
  revert c. induction xs as [|x xs IH]; intros c; [by exists c|].
  destruct (IH (mix_hash c (token_bytes x))) as [d Hd]. exists d. simpl. by rewrite Hd.
Qed.

(** The key of the block at a position. *)
Definition key_at (tenant : str) (fp : bytes) (i : Z) (h : bytes) : BlockKey := mkBlockKey tenant fp h i.

Lemma publish_loop_other store tenant fp i pairs key :
  (tenant_id key <> tenant \/ fingerprint key <> fp \/ block_index key < i) ->
  fst (publish_loop store tenant fp i pairs) !! key = store !! key.
Proof.
  revert store i. induction pairs as [|[h p] pairs IH]; intros store i Hk; cbn [publish_loop]; [done|].
  unfold u32_try_from. case_decide; [|done]. rewrite IH by (destruct Hk as [?|[?|?]]; auto; right; right; lia).
  unfold put_block. rewrite lookup_insert_ne; [done|]. intros <-. simpl in Hk.
  destruct Hk as [?|[?|?]]; [done|done|lia].
Qed.

(** Every hash of the list is present, at consecutive positions from [i]. *)
Fixpoint hits (store : InMemoryKvStore) (tenant : str) (fp : bytes) (i : Z)
    (hs ps : list bytes) : Prop :=
  match hs, ps with
  | [], [] => True
  | h :: hs', p :: ps' =>
      store !! key_at tenant fp i h = Some p /\ hits store tenant fp (i + 1) hs' ps'
  | _, _ => False
  end.

Lemma publish_loop_hits tenant fp : forall hs ps store i,
  0 <= i -> i + len hs <= u32_max + 1 -> length hs = length ps ->
  hits (fst (publish_loop store tenant fp i (zip hs ps))) tenant fp i hs ps.
Proof.
  induction hs as [|h hs IH]; intros [|p ps] store i Hi Hmax Hl; try done.
  rewrite len_cons in Hmax. pose proof (len_nonneg hs). injection Hl as Hl.
  cbn [zip zip_with publish_loop hits]. unfold u32_try_from. rewrite decide_True by lia. split.
  - rewrite publish_loop_other by (right; right; simpl; lia). apply lookup_insert_eq.
  - apply IH; [lia|lia|done].
Qed.

Lemma publish_loop_ok store tenant fp i pairs :
  0 <= i -> i + len pairs <= u32_max + 1 -> snd (publish_loop store tenant fp i pairs) = Ok tt.
Proof.
  revert store i. induction pairs as [|[h p] pairs IH]; intros store i Hi Hmax; [done|].
  rewrite len_cons in Hmax. pose proof (len_nonneg pairs).
  cbn [publish_loop]. unfold u32_try_from. rewrite decide_True by lia. apply IH; lia.
Qed.

(** While every key is present the loop only collects payloads. *)
Lemma lookup_loop_hits store tenant fp : forall hs ps i m acc rest,
  0 <= i -> i + len hs <= u32_max + 1 -> hits store tenant fp i hs ps ->
  lookup_loop store tenant fp i (hs ++ rest) (mkLookupResult m acc [])
  = lookup_loop store tenant fp (i + len hs) rest (mkLookupResult (m + len hs) (acc ++ ps) []).
Proof.
  induction hs as [|h hs IH]; intros [|p ps] i m acc rest Hi Hmax Hall; try done.
  { cbn [app]. by rewrite len_nil, !Z.add_0_r, app_nil_r. }
  rewrite len_cons in *. pose proof (len_nonneg hs). destruct Hall as [Hh Hrest].
  cbn [app lookup_loop]. unfold u32_try_from. rewrite decide_True by lia. cbn [missing_keys].
  fold (key_at tenant fp i h). rewrite Hh. cbn [matched_blocks payloads].
  rewrite (IH ps); [|lia|lia|done]. rewrite <- app_assoc. cbn [app].
  f_equal; [lia|]. f_equal. lia.
Qed.

(** Once a key is missing the loop only collects keys. *)
Lemma lookup_loop_missing store tenant fp : forall hs i m acc k ks,
  0 <= i -> i + len hs <= u32_max + 1 ->
  exists ms, lookup_loop store tenant fp i hs (mkLookupResult m acc (k :: ks))
             = Some (mkLookupResult m acc (k :: ks ++ ms)) /\ length ms = length hs.
Proof.
  induction hs as [|h hs IH]; intros i m acc k ks Hi Hmax.
  { exists []. by rewrite app_nil_r. }
  rewrite len_cons in Hmax. pose proof (len_nonneg hs).
  cbn [lookup_loop]. unfold u32_try_from. rewrite decide_True by lia.
  cbn [missing_keys matched_blocks payloads app].
  destruct (IH (i + 1) m acc k (ks ++ [mkBlockKey tenant fp h i])) as (ms & -> & Hl); [lia|lia|].
  exists (mkBlockKey tenant fp h i :: ms). rewrite <- app_assoc. simpl. by rewrite Hl.
Qed.

Lemma lookup_loop_extends store tenant fp : forall hs i m acc,
  0 <= i -> i + len hs <= u32_max + 1 ->
  exists r, lookup_loop store tenant fp i hs (mkLookupResult m acc []) = Some r /\
            acc `prefix_of` payloads r /\ m <= matched_blocks r.
Proof.
  induction hs as [|h hs IH]; intros i m acc Hi Hmax; [by eexists|].
  rewrite len_cons in Hmax. pose proof (len_nonneg hs).
  cbn [lookup_loop]. unfold u32_try_from. rewrite decide_True by lia.
  cbn [missing_keys matched_blocks payloads].
  destruct (store !! _) as [p|].
  - destruct (IH (i + 1) (m + 1) (acc ++ [p])) as (r & -> & Hp & Hm); [lia|lia|].
    exists r. repeat split; [|lia]. etrans; [|exact Hp]. by apply prefix_app_r.
  - destruct (lookup_loop_missing store tenant fp hs (i + 1) m acc (mkBlockKey tenant fp h i) [])
      as (ms & -> & _); [lia|lia|]. by eexists.
Qed.

(** C6: a published prefix chain is reused: after [publish_prefix] of a chain
    that fits the 32-bit block index, looking up any extension of its token
    blocks answers without a panic, and the payloads returned start with
    exactly the published payloads, in order. *)
Theorem published_prefix_is_found store tenant fp token_blocks ps more :
  length token_blocks = length ps -> len (token_blocks ++ more) <= u32_max + 1 ->
  exists store' r,
    publish_prefix store tenant fp token_blocks ps = (store', Ok tt) /\
    lookup_prefix store' tenant fp (token_blocks ++ more) = Some r /\
    ps `prefix_of` payloads r /\ len ps <= matched_blocks r /\
    (more = [] -> r = mkLookupResult (len ps) ps []).
Proof.
  intros Hl Hmax. rewrite len_app in Hmax. pose proof (len_nonneg more).
  unfold publish_prefix. rewrite decide_False by tauto.
  set (hs := chained_prefix_hashes tenant fp token_blocks).
  assert (length hs = length ps) as Hhs by (unfold hs, chained_prefix_hashes; by rewrite length_chain_hashes).
  assert (len hs = len token_blocks) as Hlh by (unfold len; lia).
  assert (len hs = len ps) as Hlp by (unfold len; lia).
  pose proof (publish_loop_hits tenant fp hs ps store 0 ltac:(lia) ltac:(lia) Hhs) as Hhits.
  pose proof (publish_loop_ok store tenant fp 0 (zip hs ps)) as Hok.
  destruct (publish_loop store tenant fp 0 (zip hs ps)) as [store' res] eqn:E. cbn [fst snd] in *.
  destruct (chain_hashes_app (seed_hash tenant fp) token_blocks more) as [d Hd].
  unfold lookup_prefix, chained_prefix_hashes. rewrite Hd.
  change (chain_hashes (seed_hash tenant fp) token_blocks) with hs.
  exists store'. rewrite (lookup_loop_hits _ _ _ _ ps) by (done || lia). cbn [app]. rewrite !Z.add_0_l, Hlp.
  assert (exists r, lookup_loop store' tenant fp (len ps) (chain_hashes d more) (mkLookupResult (len ps) ps [])
                    = Some r /\ ps `prefix_of` payloads r /\ len ps <= matched_blocks r) as (r & Hr & Hp & Hm).
  { apply lookup_loop_extends; [apply len_nonneg|]. unfold len at 2. rewrite length_chain_hashes. unfold len in *. lia. }
  exists r. repeat split; try done.
  - f_equal. apply Hok; [lia|]. unfold len. rewrite length_zip_with_l_eq by done. unfold len in *. lia.
  - intros ->. simpl in Hr. congruence.
Qed.

(** ** Isolation between tenants and fingerprints *)
Lemma lookup_loop_agree store store' tenant fp hs : forall i r,
  (forall h j, store !! key_at tenant fp j h = store' !! key_at tenant fp j h) ->
  lookup_loop store tenant fp i hs r = lookup_loop store' tenant fp i hs r.
Proof.
  induction hs as [|h hs IH]; intros i r Hag; cbn [lookup_loop]; [done|].
  destruct (u32_try_from i) as [bi|]; [|done].
  fold (key_at tenant fp bi h). rewrite Hag. by apply IH.
Qed.

(** Strict cache compatibility: publishing under one tenant and fingerprint
    changes no lookup under another tenant or another fingerprint, whatever the
    tokens and even if hashes collide. *)
Theorem publish_is_isolated store tenant fp token_blocks ps tenant' fp' blocks' :
  tenant <> tenant' \/ fp <> fp' ->
  lookup_prefix (fst (publish_prefix store tenant fp token_blocks ps)) tenant' fp' blocks'
  = lookup_prefix store tenant' fp' blocks'.
Proof.
  intros Hne. unfold publish_prefix. case_decide; [done|].
  apply lookup_loop_agree. intros h j. apply publish_loop_other. simpl.
  destruct Hne; [left|right; left]; done.
Qed.

(** ** Content addressing *)
Definition blake3_collision : Prop := exists x y, x <> y /\ blake3 x = blake3 y.

Lemma app_inj_len {A} (a b x y : list A) : length a = length b -> a ++ x = b ++ y -> a = b /\ x = y.
Proof. apply app_inj_1. Qed.

Lemma mix_hash_inj p d p' d' :
  length p = length p' -> mix_hash p d = mix_hash p' d' ->
  (p = p' /\ d = d') \/ blake3_collision.
Proof.
  intros Hl E. unfold mix_hash in E.
  match type of E with blake3 ?x = blake3 ?y => destruct (decide (x = y)) as [Exy|Hxy] end.
  - left. apply app_inv_head in Exy. apply app_inj_len in Exy as [-> Exy]; [|done].
    apply app_inj_len in Exy as [_ ->]; [done|]. by rewrite !length_le_bytes.
  - right. by eexists _, _.
Qed.

Lemma token_bytes_inj b b' :
  Forall in_u32 b -> Forall in_u32 b' -> token_bytes b = token_bytes b' -> b = b'.
Proof.
  unfold token_bytes. intros Hb. revert b'. induction Hb as [|x b Hx Hb IH]; intros b' Hb' E.
  { destruct b'; [done|]. apply (f_equal length) in E. cbn [map concat] in E.
    rewrite length_app, length_le_bytes in E. done. }
  destruct Hb' as [|x' b' Hx' Hb'].
  { apply (f_equal length) in E. cbn [map concat] in E. rewrite length_app, length_le_bytes in E. done. }
  cbn [map concat] in E. apply app_inj_len in E as [E1 E2]; [|by rewrite !length_le_bytes].
  apply (f_equal le_val) in E1. unfold in_u32 in *.
  rewrite !le_val_bytes_small in E1 by (cbn; lia). f_equal; [done|]. by apply IH.
Qed.

Context (blake3_length : forall x, length (blake3 x) = 32%nat).

Lemma chain_hashes_inj i : forall c c' a b h,
  length c = 32%nat -> length c' = 32%nat ->
  Forall (Forall in_u32) a -> Forall (Forall in_u32) b ->
  chain_hashes c a !! i = Some h -> chain_hashes c' b !! i = Some h ->
  (c = c' /\ take (S i) a = take (S i) b) \/ blake3_collision.
Proof.
  induction i as [|i IH]; intros c c' [|x a] [|y b] h Hc Hc' Ha Hb E E'; try done;
    apply Forall_cons in Ha as [Hx Ha]; apply Forall_cons in Hb as [Hy Hb];
    cbn [chain_hashes] in E, E'.
  - cbn in E, E'. assert (mix_hash c (token_bytes x) = mix_hash c' (token_bytes y)) as Em by congruence.
    apply mix_hash_inj in Em as [[-> Et]|?]; [|by right|by rewrite Hc, Hc'].
    left. split; [done|]. simpl. f_equal. by apply token_bytes_inj.
  - cbn [lookup list_lookup] in E, E'.
    destruct (IH _ _ a b h (blake3_length _) (blake3_length _) Ha Hb E E') as [[Em Et]|?]; [|by right].
    apply mix_hash_inj in Em as [[-> Etok]|?]; [|by right|by rewrite Hc, Hc'].
    left. split; [done|]. cbn [take] in *. f_equal; [by apply token_bytes_inj|done].
Qed.

(** Content addressing: if two prompts have the same chained hash at the
    same block position, then they have the same tenant, the same fingerprint
    and the same tokens in every block up to that position, or else two
    different byte strings with the same blake3 hash have been exhibited. *)
Theorem same_hash_same_prefix tenant fp a tenant' fp' b i h :
  length fp = 32%nat -> length fp' = 32%nat ->
  Forall (Forall in_u32) a -> Forall (Forall in_u32) b ->
  chained_prefix_hashes tenant fp a !! i = Some h ->
  chained_prefix_hashes tenant' fp' b !! i = Some h ->
  (tenant = tenant' /\ fp = fp' /\ take (S i) a = take (S i) b) \/ blake3_collision.
Proof.
  intros Hf Hf' Ha Hb E E'. unfold chained_prefix_hashes in *.
  destruct (chain_hashes_inj i _ _ a b h (blake3_length _) (blake3_length _) Ha Hb E E')
    as [[Es Et]|?]; [|by right].
  unfold seed_hash in Es.
  match type of Es with blake3 ?x = blake3 ?y => destruct (decide (x = y)) as [Exy|Hxy] end.
  - left. apply app_inv_head in Exy. apply app_inj_2 in Exy as [-> ->]; [done|]. by rewrite Hf, Hf'.
  - right. by eexists _, _.
Qed.
End Reuse.

(** A stand-in for the hash with 32-byte outputs, for evaluating the model. *)
Definition toy_hash (x : bytes) : bytes := le_bytes 32 (foldl (fun a b => a * 257 + byte_to_Z b) 7 x).

Lemma published_prefix_is_found_witness :
  exists store' r,
    publish_prefix toy_hash ∅ (lit "tenant-a") (le_bytes 32 3) [[1; 2]; [3]] [lit "kv-1"; lit "kv-2"]
    = (store', Ok tt) /\
    lookup_prefix toy_hash store' (lit "tenant-a") (le_bytes 32 3) [[1; 2]; [3]; [9]] = Some r /\
    [lit "kv-1"; lit "kv-2"] `prefix_of` payloads r /\ 2 <= matched_blocks r.
Proof.
  destruct (published_prefix_is_found toy_hash ∅ (lit "tenant-a") (le_bytes 32 3) [[1; 2]; [3]]
              [lit "kv-1"; lit "kv-2"] [[9]] eq_refl) as (store' & r & Hp & Hl & Hpre & Hm & _).
  - vm_compute. discriminate.
  - by exists store', r.
Defined.

(** The same run, evaluated: two blocks match and the third is missing. *)
Example publish_then_lookup_run :
  option_map (fun r => (matched_blocks r, payloads r, len (missing_keys r)))
    (lookup_prefix toy_hash
       (fst (publish_prefix toy_hash ∅ (lit "tenant-a") (le_bytes 32 3) [[1; 2]; [3]] [lit "kv-1"; lit "kv-2"]))
       (lit "tenant-a") (le_bytes 32 3) [[1; 2]; [3]; [9]])
  = Some (2, [lit "kv-1"; lit "kv-2"], 1).
Proof. vm_compute. reflexivity. Qed.

Lemma publish_is_isolated_witness :
  lookup_prefix toy_hash (fst (publish_prefix toy_hash ∅ (lit "a") (le_bytes 32 1) [[1]] [lit "kv"]))
    (lit "a") (le_bytes 32 2) [[1]]
  = lookup_prefix toy_hash ∅ (lit "a") (le_bytes 32 2) [[1]].
Proof. apply publish_is_isolated. right. by vm_compute. Defined.

Lemma same_hash_same_prefix_witness :
  exists h,
    chained_prefix_hashes toy_hash (lit "a") (le_bytes 32 1) [[1]; [2]; [3]] !! 1%nat = Some h /\
    chained_prefix_hashes toy_hash (lit "a") (le_bytes 32 1) [[1]; [2]; [4]] !! 1%nat = Some h /\
    ((lit "a" = lit "a" /\ le_bytes 32 1 = le_bytes 32 1 /\
      take 2 [[1]; [2]; [3]] = take 2 [[1]; [2]; [4]]) \/ blake3_collision toy_hash).
Proof.
  eexists. split; [vm_compute; reflexivity|]. split; [vm_compute; reflexivity|].
  eapply (same_hash_same_prefix toy_hash ltac:(intros; apply length_le_bytes)
    (lit "a") (le_bytes 32 1) [[1]; [2]; [3]] (lit "a") (le_bytes 32 1) [[1]; [2]; [4]] 1%nat);
    [reflexivity|reflexivity| | |vm_compute; reflexivity|vm_compute; reflexivity];
    repeat (apply Forall_cons; split); try apply Forall_nil; try done;
    repeat (apply Forall_cons; split); try apply Forall_nil; unfold in_u32; lia.
Defined.
