(* ===== verification/Radix.v ===== *)
(** * The block lookup index ([wombatkv-radix], [lib.rs])

    Models [crates/wombatkv-radix/src/lib.rs]: the residency index
    [RadixIndex] with its guarded insert and longest-prefix lookup, the buffer
    pool, the key encoder and the memory guardrail.  [Vec] capacities, which
    the code only uses to avoid reallocation, are not modelled.

    The theorems show that the lookup is the reference longest-prefix split
    whatever the buffers held before, that guarded inserts keep the estimated
    footprint within the budget, that the pool stays bounded and hands out
    empty buffers, and that encoded keys are injective and independent of the
    encoder's scratch. *)

From S2P Require Import Prelude.

Definition M3_MAX_UNIFIED_MEMORY_BYTES : Z := 96 * 1024 * 1024 * 1024.
Definition DEFAULT_MAP_OVERHEAD_BYTES_PER_ENTRY : Z := 64.
Definition BLOCK_KEY_PREFIX : str := lit "wombatkv/v1/block/b3=".
Definition SIDECAR_RAW_TAIL_KEY_PREFIX : str := lit "wombatkv/v1/sidecar/raw_tail/b3=".

Inductive Residency := Ram | Nvme | RemoteOnly.

(** [struct BlockHandle]; block keys are [[u8; 32]]. *)
Record BlockHandle := mkBlockHandle { bh_key : bytes; bh_block_index : Z; bh_residency : Residency }.

(** [struct LookupResult] *)
Record LookupResult := mkLookupResult {
  matched_depth : Z; resident_handles : list BlockHandle; prefetch_keys : list bytes
}.

(** [struct LookupBuffers] *)
Record LookupBuffers := mkLookupBuffers { lb_handles : list BlockHandle; lb_prefetch : list bytes }.
(** [LookupBuffers::default] / [with_capacity], and [clear]. *)
Definition buffers_new : LookupBuffers := mkLookupBuffers [] [].
Definition buffers_clear (b : LookupBuffers) : LookupBuffers := mkLookupBuffers [] [].

(** ** The buffer pool *)
Record LookupBufferPool := mkLookupBufferPool {
  free : list LookupBuffers; max_pool_size : Z; high_watermark : Z
}.
(** [LookupBufferPool::new] *)
Definition pool_new (max : Z) : LookupBufferPool :=
  {| free := []; max_pool_size := Z.max max 1; high_watermark := 0 |}.
(** [LookupBufferPool::acquire]: [Vec::pop] takes the last element. *)
Definition acquire (p : LookupBufferPool) : LookupBufferPool * LookupBuffers :=
  match last (free p) with
  | Some b => ({| free := take (length (free p) - 1) (free p);
                  max_pool_size := max_pool_size p; high_watermark := high_watermark p |}, b)
  | None => (p, buffers_new)
  end.
(** [LookupBufferPool::release] *)
Definition release (p : LookupBufferPool) (b : LookupBuffers) : LookupBufferPool :=
  let b := buffers_clear b in
  if decide (len (free p) < max_pool_size p) then
    let f := free p ++ [b] in
    {| free := f; max_pool_size := max_pool_size p; high_watermark := Z.max (high_watermark p) (len f) |}
  else p.
(** [LookupBufferPool::available] *)
Definition available (p : LookupBufferPool) : Z := len (free p).

(** ** The key encoder *)

(** [dst[off..off+src.len()].copy_from_slice(src)] *)
Definition copy_at (off : nat) (src dst : bytes) : bytes :=
  take off dst ++ src ++ drop (off + length src) dst.
(** [b.rotate_left(1)] on a byte. *)
Definition rotate_left1 (b : byte) : byte :=
  byte_of_Z (Z.lor (Z.land (Z.shiftl (byte_to_Z b) 1) 255) (Z.shiftr (byte_to_Z b) 7)).
Definition byte_xor (a b : byte) : byte := byte_of_Z (Z.lxor (byte_to_Z a) (byte_to_Z b)).

(** One round of the mixing loop [for idx in 24..32]. *)
Definition encode_mix (scratch : bytes) (idx : nat) : bytes :=
  <[idx := byte_xor (nth (idx - 24) scratch x00) (rotate_left1 (nth (idx - 8) scratch x00))]> scratch.
(** [KeyEncoder::encode] on the 32-byte scratch array; returns the scratch, which
    is also the key. *)
Definition encode (scratch : bytes) (fingerprint : bytes) (block_index depth : Z) : bytes :=
  let scratch := replicate (length scratch) x00 in
  let scratch := copy_at 0 fingerprint scratch in
  let scratch := copy_at 16 (le_bytes 4 block_index) scratch in
  let scratch := copy_at 20 (le_bytes 4 depth) scratch in
  foldl encode_mix scratch (seq 24 8).
(** [KeyEncoder::encode_chain]: returns the scratch left behind and the keys. *)
Fixpoint encode_chain (scratch : bytes) (fingerprint : bytes) (depths : list Z) : bytes * list bytes :=
  match depths with
  | [] => (scratch, [])
  | depth :: rest =>
      let key := encode scratch fingerprint depth depth in
      let (scratch, keys) := encode_chain key fingerprint rest in
      (scratch, key :: keys)
  end.

(** ** The memory guardrail *)
Record MemoryGuardrail := mkMemoryGuardrail {
  host_memory_bytes : Z; reserved_system_bytes : Z;
  max_index_fraction_pct : Z; map_overhead_bytes_per_entry : Z
}.
Definition m3_max_96gb : MemoryGuardrail :=
  {| host_memory_bytes := M3_MAX_UNIFIED_MEMORY_BYTES;
     reserved_system_bytes := 48 * 1024 * 1024 * 1024;
     max_index_fraction_pct := 30;
     map_overhead_bytes_per_entry := DEFAULT_MAP_OVERHEAD_BYTES_PER_ENTRY |}.
Definition index_budget_bytes (g : MemoryGuardrail) : Z :=
  let avail := saturating_sub (host_memory_bytes g) (reserved_system_bytes g) in
  saturating_mul avail (max_index_fraction_pct g) / 100.
(** [size_of::<[u8; 32]>()] and [size_of::<Entry>()]: a [u32] and a one-byte
    enum at the alignment of the [u32]. *)
Definition size_of_key : Z := 32.
Definition size_of_entry : Z := 8.
Definition estimate_entry_bytes (g : MemoryGuardrail) : Z :=
  saturating_add (saturating_add size_of_key size_of_entry) (map_overhead_bytes_per_entry g).
Definition estimate_index_bytes (g : MemoryGuardrail) (entry_count : Z) : Z :=
  saturating_mul (estimate_entry_bytes g) entry_count.

Inductive GuardrailError := MemoryBudgetExceeded (estimated_bytes budget_bytes : Z).

(** ** The index *)
Record Entry := mkEntry { block_index : Z; residency : Residency }.
(** [struct RadixIndex]: its one field, a [BTreeMap] from block keys. *)
Abbreviation RadixIndex := (gmap bytes Entry).

Definition upsert (idx : RadixIndex) (key : bytes) (bi : Z) (r : Residency) : RadixIndex :=
  <[key := mkEntry bi r]> idx.

Definition index_len (idx : RadixIndex) : Z := Z.of_nat (size idx).
Definition is_empty (idx : RadixIndex) : bool := bool_decide (index_len idx = 0).

Definition upsert_guarded (idx : RadixIndex) (key : bytes) (bi : Z) (r : Residency)
    (guardrail : MemoryGuardrail) : RadixIndex * result unit GuardrailError :=
  let next_entry_count :=
    match idx !! key with
    | Some _ => index_len idx
    | None => saturating_add (index_len idx) 1
    end in
  let estimated_bytes := estimate_index_bytes guardrail next_entry_count in
  let budget_bytes := index_budget_bytes guardrail in
  if decide (estimated_bytes > budget_bytes)
  then (idx, Err (MemoryBudgetExceeded estimated_bytes budget_bytes))
  else (upsert idx key bi r, Ok tt).

Definition estimated_heap_bytes (idx : RadixIndex) (g : MemoryGuardrail) : Z :=
  estimate_index_bytes g (index_len idx).

(** The loop of [lookup_blocks_into]: [depth] is [matched_depth], saturating at
    [u32::MAX], and [remote_seen] the flag. *)
Fixpoint lookup_blocks_loop (idx : RadixIndex) (chain : list bytes) (depth : Z)
    (remote_seen : bool) (buffers : LookupBuffers) : Z * LookupBuffers :=
  match chain with
  | [] => (depth, buffers)
  | key :: rest =>
      match idx !! key with
      | None => (depth, buffers)
      | Some entry =>
          let depth := Z.min (depth + 1) u32_max in
          if remote_seen
          then lookup_blocks_loop idx rest depth remote_seen
                 (mkLookupBuffers (lb_handles buffers) (lb_prefetch buffers ++ [key]))
          else match residency entry with
               | Ram | Nvme =>
                   lookup_blocks_loop idx rest depth remote_seen
                     (mkLookupBuffers
                        (lb_handles buffers ++ [mkBlockHandle key (block_index entry) (residency entry)])
                        (lb_prefetch buffers))
               | RemoteOnly =>
                   lookup_blocks_loop idx rest depth true
                     (mkLookupBuffers (lb_handles buffers) (lb_prefetch buffers ++ [key]))
               end
      end
  end.
Definition lookup_blocks_into (idx : RadixIndex) (chain : list bytes) (buffers : LookupBuffers)
  : Z * LookupBuffers :=
  lookup_blocks_loop idx chain 0 false (buffers_clear buffers).
Definition lookup_chain (idx : RadixIndex) (chain : list bytes) : LookupResult :=
  let (depth, buffers) := lookup_blocks_into idx chain buffers_new in
  mkLookupResult depth (lb_handles buffers) (lb_prefetch buffers).

(** ** Longest-prefix lookup *)

(** The reference answer: the longest prefix of the chain present in the index,
    cut at its first remote block. *)
Fixpoint present_prefix (idx : RadixIndex) (chain : list bytes) : list (bytes * Entry) :=
  match chain with
  | [] => []
  | key :: rest => match idx !! key with Some e => (key, e) :: present_prefix idx rest | None => [] end
  end.
Definition is_local (r : Residency) : bool := match r with RemoteOnly => false | _ => true end.
Fixpoint local_prefix (es : list (bytes * Entry)) : list (bytes * Entry) :=
  match es with
  | [] => []
  | (k, e) :: rest => if is_local (residency e) then (k, e) :: local_prefix rest else []
  end.
Definition handle_of (ke : bytes * Entry) : BlockHandle :=
  mkBlockHandle (fst ke) (block_index (snd ke)) (residency (snd ke)).
Definition lookup_reference (idx : RadixIndex) (chain : list bytes) : LookupResult :=
  let present := present_prefix idx chain in
  let local := local_prefix present in
  mkLookupResult (Z.min (len present) u32_max) (map handle_of local)
    (map fst (drop (length local) present)).

Lemma lookup_blocks_loop_remote idx chain : forall depth b,
  0 <= depth <= u32_max ->
  lookup_blocks_loop idx chain depth true b =
  (Z.min (depth + len (present_prefix idx chain)) u32_max,
   mkLookupBuffers (lb_handles b) (lb_prefetch b ++ map fst (present_prefix idx chain))).
Proof.
  induction chain as [|k chain IH]; intros depth [h q] Hd; cbn [lookup_blocks_loop present_prefix].
  { rewrite len_nil. cbn [map lb_handles lb_prefetch]. rewrite app_nil_r. f_equal. lia. }
  destruct (idx !! k) as [e|].
  - rewrite IH by lia. cbn [map fst lb_handles lb_prefetch]. rewrite len_cons, <- app_assoc.
    pose proof (len_nonneg (present_prefix idx chain)). f_equal. lia.
  - rewrite len_nil. cbn [map lb_handles lb_prefetch]. rewrite app_nil_r. f_equal. lia.
Qed.

Lemma lookup_blocks_loop_local idx chain : forall depth b,
  0 <= depth <= u32_max ->
  lookup_blocks_loop idx chain depth false b =
  let present := present_prefix idx chain in
  let local := local_prefix present in
  (Z.min (depth + len present) u32_max,
   mkLookupBuffers (lb_handles b ++ map handle_of local)
                   (lb_prefetch b ++ map fst (drop (length local) present))).
Proof.
  induction chain as [|k chain IH]; intros depth [h q] Hd; cbn [lookup_blocks_loop present_prefix].
  { cbn. rewrite !app_nil_r. f_equal. unfold len. simpl. lia. }
  destruct (idx !! k) as [[bi r]|]; cbn [residency block_index].
  - pose proof (len_nonneg (present_prefix idx chain)). cbv zeta. rewrite len_cons.
    destruct r; cbn [local_prefix is_local residency].
    1,2: rewrite IH by lia; cbn [map fst snd handle_of lb_handles lb_prefetch length drop block_index residency];
         rewrite <- app_assoc; f_equal; lia.
    rewrite lookup_blocks_loop_remote by lia.
    cbn [map fst lb_handles lb_prefetch length drop]. rewrite app_nil_r, <- app_assoc. f_equal. lia.
  - cbn. rewrite !app_nil_r. f_equal. unfold len. simpl. lia.
Qed.

Lemma lookup_blocks_into_reference idx chain buffers :
  lookup_blocks_into idx chain buffers =
  let r := lookup_reference idx chain in
  (matched_depth r, mkLookupBuffers (resident_handles r) (prefetch_keys r)).
Proof.
  unfold lookup_blocks_into, buffers_clear. rewrite lookup_blocks_loop_local by lia.
  cbv zeta. unfold lookup_reference. cbn [matched_depth resident_handles prefetch_keys lb_handles lb_prefetch].
  by rewrite Z.add_0_l.
Qed.

Lemma local_prefix_split es :
  map fst (local_prefix es) ++ map fst (drop (length (local_prefix es)) es) = map fst es.
Proof.
  induction es as [|[k e] p IH]; [done|]. cbn [local_prefix].
  destruct (is_local (residency e)); [|done]. cbn [map length drop app]. by rewrite IH.
Qed.

Lemma local_prefix_local es : Forall (fun ke => is_local (residency (snd ke)) = true) (local_prefix es).
Proof.
  induction es as [|[k e] p IH]; [done|]. cbn [local_prefix].
  destruct (is_local (residency e)) eqn:E; [|constructor]. by constructor.
Qed.

Lemma present_prefix_prefix idx chain : map fst (present_prefix idx chain) `prefix_of` chain.
Proof.
  induction chain as [|k chain IH]; [done|]. cbn [present_prefix].
  destruct (idx !! k); [|apply prefix_nil]. by apply prefix_cons.
Qed.

(** C3: longest-prefix lookup, from buffers in any state, returns exactly the
    reference answer: the depth of the longest indexed prefix of the chain, a
    handle for each block before the first remote one, and the keys of all the
    remaining matched blocks for prefetching.  Handles and prefetch keys
    together are a prefix of the chain asked for, and no handle is remote. *)
Theorem lookup_blocks_into_correct idx chain buffers :
  let r := lookup_reference idx chain in
  lookup_blocks_into idx chain buffers =
    (matched_depth r, mkLookupBuffers (resident_handles r) (prefetch_keys r)) /\
  lookup_chain idx chain = r /\
  map bh_key (resident_handles r) ++ prefetch_keys r `prefix_of` chain /\
  Forall (fun h => is_local (bh_residency h) = true) (resident_handles r).
Proof.
  intros r. split; [apply lookup_blocks_into_reference|]. split.
  { unfold lookup_chain. by rewrite lookup_blocks_into_reference. }
  unfold r, lookup_reference. cbn [resident_handles prefetch_keys]. split.
  - rewrite map_map, (map_ext (fun x => bh_key (handle_of x)) fst) by done.
    rewrite local_prefix_split. apply present_prefix_prefix.
  - apply List.Forall_map, local_prefix_local.
Qed.

(** ** Guarded inserts *)

(** A guarded insert either fails with the estimate that broke the budget
    and leaves the index as it was, or inserts exactly the entry and leaves the
    estimated footprint within the budget; so an index built by guarded inserts
    never outgrows its budget, and replacing an entry of an index within its
    budget always succeeds. *)
Theorem upsert_guarded_keeps_budget idx key bi r g :
  estimated_heap_bytes idx g <= index_budget_bytes g ->
  index_len idx < u64_max ->
  let (idx', res) := upsert_guarded idx key bi r g in
  estimated_heap_bytes idx' g <= index_budget_bytes g /\
  match res with
  | Ok _ => idx' = <[key := mkEntry bi r]> idx
  | Err (MemoryBudgetExceeded estimated budget) =>
      idx' = idx /\ idx !! key = None /\ budget = index_budget_bytes g /\ budget < estimated /\
      estimated = estimated_heap_bytes (<[key := mkEntry bi r]> idx) g
  end.
Proof.
  intros Hb Hl. unfold upsert_guarded, upsert, estimated_heap_bytes in *.
  assert (match idx !! key with Some _ => index_len idx | None => saturating_add (index_len idx) 1 end
          = index_len (<[key := mkEntry bi r]> idx)) as ->.
  { unfold index_len, saturating_add in *. destruct (idx !! key) as [e|] eqn:E.
    - by rewrite map_size_insert_Some by done.
    - rewrite map_size_insert_None by done. lia. }
  case_decide as Hc; cbv beta iota; split; try lia; [|done].
  repeat split; try lia; try done.
  destruct (idx !! key) as [e|] eqn:E; [|done]. exfalso.
  revert Hc. unfold index_len in *. rewrite map_size_insert_Some by done. lia.
Qed.

Lemma upsert_guarded_keeps_budget_witness :
  let g := mkMemoryGuardrail 500 0 50 64 in
  let k := lit "k" in
  let (idx', res) := upsert_guarded {[ k := mkEntry 1 Ram ]} (lit "j") 2 Nvme g in
  estimated_heap_bytes idx' g <= index_budget_bytes g /\
  match res with
  | Ok _ => idx' = <[lit "j" := mkEntry 2 Nvme]> {[ k := mkEntry 1 Ram ]}
  | Err (MemoryBudgetExceeded estimated budget) =>
      idx' = {[ k := mkEntry 1 Ram ]} /\ ({[ k := mkEntry 1 Ram ]} : RadixIndex) !! lit "j" = None /\
      budget = index_budget_bytes g /\ budget < estimated /\
      estimated = estimated_heap_bytes (<[lit "j" := mkEntry 2 Nvme]> {[ k := mkEntry 1 Ram ]}) g
  end.
Proof.
  intros g k. apply (upsert_guarded_keeps_budget {[ k := mkEntry 1 Ram ]} (lit "j") 2 Nvme g).
  - by_eval.
  - by_eval.
Defined.

(** ** The pool *)

(** Every pooled buffer is empty, the pool respects its capacity, and the
    watermark has seen every size. *)
Definition pool_ok (p : LookupBufferPool) : Prop :=
  1 <= max_pool_size p /\
  Forall (fun b => b = buffers_new) (free p) /\
  available p <= high_watermark p <= max_pool_size p.

Lemma pool_new_ok n : pool_ok (pool_new n).
Proof.
  unfold pool_ok, pool_new, available. cbn [free max_pool_size high_watermark].
  rewrite len_nil. repeat split; [lia|constructor|lia|lia].
Qed.

Lemma release_ok p b : pool_ok p -> pool_ok (release p b).
Proof.
  intros (Hm & Hf & Hw). unfold release, available in *. case_decide; [|done].
  unfold pool_ok, available. cbn [free max_pool_size high_watermark]. repeat split; try done.
  - apply Forall_app. split; [done|]. by repeat constructor.
  - lia.
  - rewrite len_app in *. unfold len at 2. cbn. lia.
Qed.

Lemma acquire_ok p : pool_ok p -> let (p', b) := acquire p in pool_ok p' /\ b = buffers_new.
Proof.
  intros (Hm & Hf & Hw). unfold acquire. destruct (last (free p)) as [b|] eqn:E; [|done].
  split.
  - unfold pool_ok, available in *. cbn [free max_pool_size high_watermark]. repeat split; try done.
    + by apply Forall_take.
    + unfold len in *. rewrite length_take. lia.
    + lia.
  - apply last_Some_elem_of in E. rewrite Forall_forall in Hf. by apply Hf.
Qed.

(** Clients take and return buffers in any order. *)
Inductive pool_step : LookupBufferPool -> LookupBufferPool -> Prop :=
| pool_acquire p : pool_step p (fst (acquire p))
| pool_release p b : pool_step p (release p b).

(** Whatever sequence of [acquire]s and [release]s clients perform on a new
    pool, with whatever they put in the buffers, an acquired buffer is empty, the
    pool never holds more than [max(1, max_pool_size)] buffers and never more
    than its high watermark. *)
Theorem pool_hands_out_empty_buffers n p :
  rtc pool_step (pool_new n) p ->
  snd (acquire p) = buffers_new /\ available p <= high_watermark p <= Z.max n 1.
Proof.
  intros Hr.
  assert (pool_ok p /\ max_pool_size p = Z.max n 1) as [Hok <-].
  { remember (pool_new n) as p0 eqn:E.
    assert (pool_ok p0 /\ max_pool_size p0 = Z.max n 1) as H0 by (subst; split; [apply pool_new_ok|done]).
    clear E. induction Hr as [|p1 p2 p3 Hs _ IH]; [done|]. apply IH. destruct H0 as [H1 H2].
    destruct Hs as [q|q b].
    - pose proof (acquire_ok q H1) as Hq. destruct (acquire q) as [q' b] eqn:Ea. split; [apply Hq|].
      rewrite <- H2. unfold acquire in Ea. destruct (last (free q)); by simplify_eq.
    - split; [by apply release_ok|]. rewrite <- H2. unfold release. by case_decide. }
  split; [|apply Hok]. pose proof (acquire_ok p Hok) as Hp. destruct (acquire p). apply Hp.
Qed.

Lemma pool_hands_out_empty_buffers_witness :
  let p := release (pool_new 0) (mkLookupBuffers [] [lit "junk"]) in
  snd (acquire p) = buffers_new /\ available p <= high_watermark p <= Z.max 0 1.
Proof.
  intros p. apply (pool_hands_out_empty_buffers 0 p).
  exact (rtc_once _ _ (pool_release (pool_new 0) (mkLookupBuffers [] [lit "junk"]))).
Defined.

(** ** The key encoder *)
Definition mix_rounds (idxs : list nat) (scratch : bytes) : bytes := foldl encode_mix scratch idxs.

Lemma mix_rounds_prefix idxs scratch :
  Forall (fun i => 24 <= i)%nat idxs ->
  take 24 (mix_rounds idxs scratch) = take 24 scratch /\
  length (mix_rounds idxs scratch) = length scratch.
Proof.
  intros H. revert scratch. induction H as [|i idxs Hi _ IH]; intros s; [done|].
  unfold mix_rounds in *. cbn [foldl]. destruct (IH (encode_mix s i)) as [-> ->].
  unfold encode_mix. split; [by rewrite take_insert_ge|]. apply length_insert.
Qed.

Lemma encode_layout scratch fp bi d :
  length scratch = 32%nat -> length fp = 16%nat ->
  encode scratch fp bi d =
  mix_rounds (seq 24 8) (fp ++ le_bytes 4 bi ++ le_bytes 4 d ++ replicate 8 x00).
Proof.
  intros Hs Hf. unfold encode, mix_rounds. f_equal. rewrite Hs. unfold copy_at.
  rewrite !length_le_bytes, Hf. cbn [Nat.add take drop replicate app].
  rewrite (take_app_length' fp), (drop_app_ge fp) by lia. rewrite Hf. cbn [Nat.sub drop].
  rewrite (take_app_ge fp), (drop_app_ge fp) by lia. rewrite Hf. cbn [Nat.sub].
  rewrite (take_app_length' (le_bytes 4 bi)), (drop_app_ge (le_bytes 4 bi)) by (rewrite length_le_bytes; lia).
  rewrite length_le_bytes. cbn [Nat.sub drop]. by rewrite <- !app_assoc.
Qed.

Lemma mix_idxs : Forall (fun i => 24 <= i)%nat (seq 24 8).
Proof. cbn. repeat constructor; lia. Qed.

Lemma length_encode scratch fp bi d :
  length scratch = 32%nat -> length fp = 16%nat -> length (encode scratch fp bi d) = 32%nat.
Proof.
  intros Hs Hf. rewrite encode_layout, (proj2 (mix_rounds_prefix _ _ mix_idxs)) by done.
  by rewrite !length_app, !length_le_bytes, Hf.
Qed.

(** For a 16-byte fingerprint and [u32] coordinates the encoded key has 32
    bytes, does not depend on what the encoder's scratch held, and determines
    fingerprint, block index and depth. *)
Theorem encode_injective s1 s2 fp1 fp2 bi1 bi2 d1 d2 :
  length s1 = 32%nat -> length s2 = 32%nat -> length fp1 = 16%nat -> length fp2 = 16%nat ->
  in_u32 bi1 -> in_u32 bi2 -> in_u32 d1 -> in_u32 d2 ->
  length (encode s1 fp1 bi1 d1) = 32%nat /\
  (encode s1 fp1 bi1 d1 = encode s2 fp2 bi2 d2 <-> fp1 = fp2 /\ bi1 = bi2 /\ d1 = d2).
Proof.
  intros L1 L2 F1 F2 B1 B2 D1 D2. split; [by apply length_encode|].
  rewrite !encode_layout by done.
  split; [|by intros (-> & -> & ->)]. intros E. apply (f_equal (take 24)) in E.
  rewrite !(proj1 (mix_rounds_prefix _ _ mix_idxs)) in E.
  rewrite !app_assoc, !(take_app_length' _ (replicate 8 x00)) in E
    by (rewrite !length_app, !length_le_bytes; lia).
  rewrite <- !app_assoc in E. unfold in_u32 in *.
  apply app_inj_1 in E as [-> E]; [|lia].
  apply app_inj_1 in E as [E1 E2]; [|by rewrite !length_le_bytes].
  apply (f_equal le_val) in E1, E2. rewrite !le_val_bytes_small in E1, E2 by (cbn; lia). done.
Qed.

Lemma encode_injective_witness :
  let s := replicate 32 xff in let fp := replicate 16 x07 in
  length (encode s fp 3 4) = 32%nat /\
  (encode s fp 3 4 = encode s fp 4 4 <-> fp = fp /\ 3 = 4 /\ 4 = 4).
Proof. intros s fp. apply (encode_injective s s fp fp 3 4 4 4); by_eval || (unfold in_u32; lia). Defined.

(** A chain is encoded key by key, whatever scratch each key leaves behind. *)
Lemma encode_chain_map scratch fp depths :
  length scratch = 32%nat -> length fp = 16%nat ->
  snd (encode_chain scratch fp depths) = map (fun d => encode (replicate 32 x00) fp d d) depths.
Proof.
  revert scratch. induction depths as [|d ds IH]; intros s Hs Hf; [done|]. cbn [encode_chain map].
  assert (encode s fp d d = encode (replicate 32 x00) fp d d) as -> by by rewrite !encode_layout.
  rewrite <- (IH (encode (replicate 32 x00) fp d d)) by (done || by apply length_encode).
  by destruct (encode_chain _ _ _).
Qed.
