(* ===== verification/Metadata.v ===== *)
(** * Manifest and delta metadata ([wombatkv-core], [metadata.rs])

    Models [crates/wombatkv-core/src/metadata.rs]: the validated parsers of
    manifest snapshots and delta facts, and the deterministic replay of deltas.
    [serde_json] is a parameter of the parsers: deserialisation of the two
    structs and of an untyped value, and the [get] and [as_u64] accessors.

    The theorems show that a parser accepts exactly the documents of schema
    version 1 whose required fields are non-empty, that replay keeps the first
    writer of every logical key and classifies every other fact, that its whole
    outcome is independent of arrival order, and that replaying the winners
    changes nothing. *)

From S2P Require Import Prelude Order.

Definition MANIFEST_SCHEMA_V1 : Z := 1.
Definition DELTA_SCHEMA_V1 : Z := 1.

Inductive MetadataError :=
| Json (e : str)
| UnsupportedSchemaVersion (expected found : Z)
| EmptyField (f : str)
| MissingField (f : str)
| WrongFieldType (f : str).

Record ManifestEntryV1 := mkManifestEntryV1 {
  object_id : str; key_range_start : str; key_range_end : str
}.
Record ManifestSnapshotV1 := mkManifestSnapshotV1 {
  m_schema_version : Z; m_epoch_ms : Z; checksum32 : Z; entries : list ManifestEntryV1
}.
Record DeltaFactV1 := mkDeltaFactV1 {
  schema_version : Z; epoch_ms : Z; seq : Z;
  tenant_id : str; fingerprint : str; prefix_hash : str; payload_digest : str; write_id : str
}.
Inductive ManifestSnapshot := ManifestV1 (m : ManifestSnapshotV1).
Inductive DeltaFact := DeltaV1 (d : DeltaFactV1).

(** ** Parsing and validation *)
Definition is_empty_str (s : str) : bool := match s with [] => true | _ => false end.

(** The checks of the [for entry in &manifest.entries] loop. *)
Fixpoint check_entries (es : list ManifestEntryV1) : result unit MetadataError :=
  match es with
  | [] => Ok tt
  | e :: rest =>
      if is_empty_str (object_id e) then Err (EmptyField (lit "object_id"))
      else if is_empty_str (key_range_start e) then Err (EmptyField (lit "key_range_start"))
      else if is_empty_str (key_range_end e) then Err (EmptyField (lit "key_range_end"))
      else check_entries rest
  end.

Lemma check_entries_ok es :
  check_entries es = Ok tt <->
  Forall (fun e => object_id e <> [] /\ key_range_start e <> [] /\ key_range_end e <> []) es.
Proof.
  induction es as [|e es IH]; simpl; [by split; [constructor|]|].
  rewrite Forall_cons, <- IH.
  destruct (object_id e), (key_range_start e), (key_range_end e); naive_solver.
Qed.

Section Parsing.
(** [serde_json]: [Value], [from_str] at the three types the code asks for, with
    the error rendered by [to_string], and the two accessors. *)
Context {Value : Type}.
Context (value_from_str : str -> result Value str)
        (manifest_from_str : str -> result ManifestSnapshotV1 str)
        (delta_from_str : str -> result DeltaFactV1 str)
        (get : Value -> str -> option Value)
        (as_u64 : Value -> option Z).

Definition parse_manifest_snapshot_v1 (json : str) : result ManifestSnapshotV1 MetadataError :=
  let? manifest := map_err Json (manifest_from_str json) in
  if decide (m_schema_version manifest = MANIFEST_SCHEMA_V1) then
    let? _ := check_entries (entries manifest) in
    Ok manifest
  else Err (UnsupportedSchemaVersion MANIFEST_SCHEMA_V1 (m_schema_version manifest)).

Definition parse_delta_fact_v1 (json : str) : result DeltaFactV1 MetadataError :=
  let? fact := map_err Json (delta_from_str json) in
  if decide (schema_version fact = DELTA_SCHEMA_V1) then
    if is_empty_str (tenant_id fact) then Err (EmptyField (lit "tenant_id"))
    else if is_empty_str (fingerprint fact) then Err (EmptyField (lit "fingerprint"))
    else if is_empty_str (prefix_hash fact) then Err (EmptyField (lit "prefix_hash"))
    else if is_empty_str (payload_digest fact) then Err (EmptyField (lit "payload_digest"))
    else if is_empty_str (write_id fact) then Err (EmptyField (lit "write_id"))
    else Ok fact
  else Err (UnsupportedSchemaVersion DELTA_SCHEMA_V1 (schema_version fact)).

Definition extract_schema_version (value : Value) : result Z MetadataError :=
  let? schema := ok_or (get value (lit "schema_version")) (MissingField (lit "schema_version")) in
  let? schema_u64 := ok_or (as_u64 schema) (WrongFieldType (lit "schema_version")) in
  ok_or (u16_try_from schema_u64) (WrongFieldType (lit "schema_version")).

Definition parse_manifest_snapshot (json : str) : result ManifestSnapshot MetadataError :=
  let? value := map_err Json (value_from_str json) in
  let? version := extract_schema_version value in
  if decide (version = MANIFEST_SCHEMA_V1) then
    let? manifest := parse_manifest_snapshot_v1 json in
    Ok (ManifestV1 manifest)
  else Err (UnsupportedSchemaVersion MANIFEST_SCHEMA_V1 version).

Definition parse_delta_fact (json : str) : result DeltaFact MetadataError :=
  let? value := map_err Json (value_from_str json) in
  let? version := extract_schema_version value in
  if decide (version = DELTA_SCHEMA_V1) then
    let? fact := parse_delta_fact_v1 json in
    Ok (DeltaV1 fact)
  else Err (UnsupportedSchemaVersion DELTA_SCHEMA_V1 version).

(** What the documents a parser accepts satisfy. *)
Definition manifest_valid (m : ManifestSnapshotV1) : Prop :=
  m_schema_version m = 1 /\
  Forall (fun e => object_id e <> [] /\ key_range_start e <> [] /\ key_range_end e <> []) (entries m).
Definition delta_valid (d : DeltaFactV1) : Prop :=
  schema_version d = 1 /\ tenant_id d <> [] /\ fingerprint d <> [] /\ prefix_hash d <> [] /\
  payload_digest d <> [] /\ write_id d <> [].
(** The untyped reading of the document has the integer field [schema_version = 1]. *)
Definition declares_v1 (json : str) : Prop :=
  exists v s, value_from_str json = Ok v /\ get v (lit "schema_version") = Some s /\ as_u64 s = Some 1.

Lemma parse_manifest_snapshot_v1_ok json m :
  parse_manifest_snapshot_v1 json = Ok m <-> manifest_from_str json = Ok m /\ manifest_valid m.
Proof.
  unfold parse_manifest_snapshot_v1, manifest_valid, MANIFEST_SCHEMA_V1.
  destruct (manifest_from_str json) as [m'|e]; run_res; [|naive_solver].
  rewrite <- check_entries_ok.
  case_decide; [destruct (check_entries (entries m')) as [[]|] eqn:E; run_res|];
    (split; intros; destruct_and?; simplify_eq; try congruence; auto).
Qed.

Lemma parse_delta_fact_v1_ok json d :
  parse_delta_fact_v1 json = Ok d <-> delta_from_str json = Ok d /\ delta_valid d.
Proof.
  unfold parse_delta_fact_v1, delta_valid, DELTA_SCHEMA_V1.
  destruct (delta_from_str json) as [d'|e]; run_res; [|naive_solver].
  case_decide; [|naive_solver].
  destruct d' as [v ms sq [|??] [|??] [|??] [|??] [|??]]; naive_solver.
Qed.

Lemma extract_schema_version_1 v :
  extract_schema_version v = Ok 1 <->
  exists s, get v (lit "schema_version") = Some s /\ as_u64 s = Some 1.
Proof.
  unfold extract_schema_version, u16_try_from.
  destruct (get v _) as [s|]; run_res; [|naive_solver].
  destruct (as_u64 s) as [n|] eqn:E; run_res; [|naive_solver].
  case_decide; run_res; split; intros; naive_solver lia.
Qed.

(** The version-dispatched parsers accept exactly the documents that declare
    schema version 1, deserialise, and pass validation: every manifest entry has
    its three fields non-empty, a delta its five. *)
Theorem metadata_parsers_validate json :
  (forall m, parse_manifest_snapshot json = Ok (ManifestV1 m) <->
             declares_v1 json /\ manifest_from_str json = Ok m /\ manifest_valid m) /\
  (forall d, parse_delta_fact json = Ok (DeltaV1 d) <->
             declares_v1 json /\ delta_from_str json = Ok d /\ delta_valid d).
Proof.
  unfold parse_manifest_snapshot, parse_delta_fact, declares_v1, MANIFEST_SCHEMA_V1, DELTA_SCHEMA_V1.
  destruct (value_from_str json) as [v|e]; run_res; [|naive_solver].
  pose proof (extract_schema_version_1 v) as Hv.
  split; intros x;
    [rewrite <- parse_manifest_snapshot_v1_ok; destruct (parse_manifest_snapshot_v1 json)
    |rewrite <- parse_delta_fact_v1_ok; destruct (parse_delta_fact_v1 json)];
    destruct (extract_schema_version v) as [n|]; run_res; try case_decide; run_res; naive_solver.
Qed.
End Parsing.

(** ** Deterministic replay *)
Definition DeltaLogicalKey : Type := str * str * str.
Record DeltaConflictRow := mkDeltaConflictRow {
  row_tenant_id : str; row_fingerprint : str; row_prefix_hash : str;
  winner_payload_digest : str; loser_payload_digest : str;
  winner_write_id : str; loser_write_id : str;
  winner_epoch_ms : Z; loser_epoch_ms : Z; winner_seq : Z; loser_seq : Z
}.
Record DeltaReplayStats := mkDeltaReplayStats {
  n_winners : Z; duplicates_idempotent : Z; duplicates_conflict : Z;
  conflict_rows : list DeltaConflictRow
}.
Record DeltaReplayOutcome := mkDeltaReplayOutcome {
  winners : list DeltaFactV1; stats : DeltaReplayStats
}.

(** The key a delta is sorted by, [(epoch_ms, seq, &write_id)], and its logical key. *)
Definition delta_order_key (d : DeltaFactV1) : Z * Z * str := (epoch_ms d, seq d, write_id d).
Definition delta_cmp : DeltaFactV1 -> DeltaFactV1 -> comparison :=
  cmp_on delta_order_key (pair_cmp (pair_cmp Z.compare Z.compare) bytes_cmp).
Definition delta_logical_key (d : DeltaFactV1) : DeltaLogicalKey :=
  (tenant_id d, fingerprint d, prefix_hash d).
Definition logical_key_cmp : DeltaLogicalKey -> DeltaLogicalKey -> comparison :=
  pair_cmp (pair_cmp bytes_cmp bytes_cmp) bytes_cmp.

Definition conflict_row (winner delta : DeltaFactV1) : DeltaConflictRow :=
  {| row_tenant_id := tenant_id delta; row_fingerprint := fingerprint delta;
     row_prefix_hash := prefix_hash delta;
     winner_payload_digest := payload_digest winner; loser_payload_digest := payload_digest delta;
     winner_write_id := write_id winner; loser_write_id := write_id delta;
     winner_epoch_ms := epoch_ms winner; loser_epoch_ms := epoch_ms delta;
     winner_seq := seq winner; loser_seq := seq delta |}.

(** One turn of the [for delta in ordered] loop. *)
Definition replay_step (st : gmap DeltaLogicalKey DeltaFactV1 * DeltaReplayStats) (delta : DeltaFactV1)
  : gmap DeltaLogicalKey DeltaFactV1 * DeltaReplayStats :=
  let (winners, stats) := st in
  match winners !! delta_logical_key delta with
  | None => (<[delta_logical_key delta := delta]> winners, stats)
  | Some winner =>
      if decide (payload_digest winner = payload_digest delta) then
        (winners,
         {| n_winners := n_winners stats;
            duplicates_idempotent := saturating_add (duplicates_idempotent stats) 1;
            duplicates_conflict := duplicates_conflict stats;
            conflict_rows := conflict_rows stats |})
      else
        (winners,
         {| n_winners := n_winners stats;
            duplicates_idempotent := duplicates_idempotent stats;
            duplicates_conflict := saturating_add (duplicates_conflict stats) 1;
            conflict_rows := conflict_rows stats ++ [conflict_row winner delta] |})
  end.

Definition replay_delta_facts_with_observability (deltas : list DeltaFactV1) : DeltaReplayOutcome :=
  let ordered := sort_by delta_cmp deltas in
  let (ws, st) := foldl replay_step (∅, mkDeltaReplayStats 0 0 0 []) ordered in
  let ws := map snd (btree_entries logical_key_cmp ws) in
  {| winners := ws;
     stats := {| n_winners := len ws; duplicates_idempotent := duplicates_idempotent st;
                 duplicates_conflict := duplicates_conflict st; conflict_rows := conflict_rows st |} |}.

Definition replay_delta_facts_deterministic (deltas : list DeltaFactV1) : list DeltaFactV1 :=
  winners (replay_delta_facts_with_observability deltas).

(** ** Replay: first writer wins *)
#[global] Instance delta_fact_eq_decision : EqDecision DeltaFactV1.
Proof. solve_decision. Defined.
#[global] Instance delta_cmp_total : TotalCmp delta_cmp.
Proof. unfold delta_cmp. apply _. Qed.
#[global] Instance logical_key_cmp_strict : StrictCmp logical_key_cmp.
Proof. unfold logical_key_cmp. apply _. Qed.

(** The first delta of [l] with logical key [k]. *)
Definition first_of (k : DeltaLogicalKey) (l : list DeltaFactV1) : option DeltaFactV1 :=
  head (filter (fun d => delta_logical_key d = k) l).
(** The winner map and statistics after the loop. *)
Definition replay_loop (l : list DeltaFactV1) := foldl replay_step (∅, mkDeltaReplayStats 0 0 0 []) l.

Lemma first_of_snoc k l d :
  first_of k (l ++ [d]) =
  match first_of k l with
  | Some w => Some w
  | None => if decide (delta_logical_key d = k) then Some d else None
  end.
Proof.
  unfold first_of. rewrite filter_app, filter_cons.
  destruct (filter _ l) as [|w l'] eqn:E; simpl; [|done]. by case_decide.
Qed.

Lemma replay_loop_snoc l d : replay_loop (l ++ [d]) = replay_step (replay_loop l) d.
Proof. unfold replay_loop. by rewrite foldl_app. Qed.

Lemma replay_loop_winners l k : fst (replay_loop l) !! k = first_of k l.
Proof.
  induction l as [|d l IH] using rev_ind; [done|].
  rewrite replay_loop_snoc, first_of_snoc, <- IH. clear IH.
  destruct (replay_loop l) as [ws st]. unfold replay_step. cbn [fst].
  destruct (ws !! delta_logical_key d) as [w|] eqn:E.
  - case_decide; cbn [fst]; destruct (ws !! k) eqn:Ek; try done; case_decide; congruence.
  - cbn [fst]. destruct (decide (delta_logical_key d = k)) as [<-|Hne].
    + by rewrite lookup_insert_eq, E.
    + rewrite lookup_insert_ne by done. by destruct (ws !! k).
Qed.

(** Every fact of [l] is counted once: as a winner, an idempotent duplicate or
    a conflict with its row. *)
Lemma replay_loop_counts l :
  len l <= u64_max ->
  let (ws, st) := replay_loop l in
  Z.of_nat (size ws) + duplicates_idempotent st + duplicates_conflict st = len l /\
  0 <= duplicates_idempotent st /\ duplicates_conflict st = len (conflict_rows st).
Proof.
  induction l as [|d l IH] using rev_ind; intros Hl; [done|].
  rewrite len_app, len_cons, len_nil in Hl. rewrite replay_loop_snoc.
  specialize (IH ltac:(pose proof (len_nonneg l); lia)).
  destruct (replay_loop l) as [ws st]. destruct IH as (IH1 & IH2 & IH3).
  rewrite len_app, len_cons, len_nil. pose proof (len_nonneg (conflict_rows st)).
  unfold replay_step. destruct (ws !! delta_logical_key d) as [w|] eqn:E.
  - case_decide; cbn [duplicates_idempotent duplicates_conflict conflict_rows];
      unfold saturating_add; autorewrite with wmbt; lia.
  - rewrite map_size_insert_None by done. lia.
Qed.

Lemma first_of_Some k l d : first_of k l = Some d -> d ∈ l /\ delta_logical_key d = k.
Proof.
  unfold first_of. intros Hd.
  assert (d ∈ filter (fun d => delta_logical_key d = k) l) as [??]%list_elem_of_filter; [|done].
  destruct (filter _ l); [done|]. simplify_eq/=. by left.
Qed.

Lemma first_of_least k l d :
  StronglySorted (cmp_le delta_cmp) l -> first_of k l = Some d ->
  forall d', d' ∈ l -> delta_logical_key d' = k -> cmp_le delta_cmp d d'.
Proof.
  unfold first_of. induction 1 as [|x l Hl IH Hx]; [done|]. intros Hd d'. rewrite elem_of_cons.
  rewrite filter_cons in Hd. case_decide as Hk; simplify_eq/=.
  - rewrite Forall_forall in Hx. intros [->|?] _; [|by apply Hx].
    unfold cmp_le. by rewrite (cmp_refl delta_cmp).
  - intros [->|?] ?; [done|]. by apply IH.
Qed.

Lemma first_of_is_Some l d : d ∈ l -> is_Some (first_of (delta_logical_key d) l).
Proof.
  intros Hd. unfold first_of.
  assert (d ∈ filter (fun x => delta_logical_key x = delta_logical_key d) l) as Hf
    by by apply list_elem_of_filter.
  destruct (filter _ l); [by apply not_elem_of_nil in Hf|done].
Qed.

Definition replay_ordered (deltas : list DeltaFactV1) := replay_loop (sort_by delta_cmp deltas).

Lemma replay_unfold deltas :
  replay_delta_facts_with_observability deltas =
  let ws := map snd (btree_entries logical_key_cmp (fst (replay_ordered deltas))) in
  let st := snd (replay_ordered deltas) in
  mkDeltaReplayOutcome ws
    (mkDeltaReplayStats (len ws) (duplicates_idempotent st) (duplicates_conflict st) (conflict_rows st)).
Proof.
  unfold replay_delta_facts_with_observability, replay_ordered, replay_loop. cbv zeta.
  by destruct (foldl replay_step _ _).
Qed.

Lemma elem_of_replay_winners deltas w :
  w ∈ replay_delta_facts_deterministic deltas <->
  first_of (delta_logical_key w) (sort_by delta_cmp deltas) = Some w.
Proof.
  unfold replay_delta_facts_deterministic. rewrite replay_unfold. cbv zeta. cbn [winners].
  rewrite list_elem_of_fmap. split.
  - intros ([k d] & -> & Hd). apply elem_of_btree_entries in Hd. unfold replay_ordered in Hd.
    rewrite replay_loop_winners in Hd. simpl. by pose proof (first_of_Some _ _ _ Hd) as [_ ->].
  - intros Hw. exists (delta_logical_key w, w). split; [done|].
    apply elem_of_btree_entries. unfold replay_ordered. by rewrite replay_loop_winners.
Qed.

Lemma replay_winner_keys deltas :
  map delta_logical_key (replay_delta_facts_deterministic deltas) =
  btree_keys logical_key_cmp (fst (replay_ordered deltas)).
Proof.
  unfold replay_delta_facts_deterministic, btree_keys. rewrite replay_unfold. cbv zeta. cbn [winners].
  rewrite map_map. apply map_ext_in. intros [k d] Hd%list_elem_of_In. simpl.
  apply elem_of_btree_entries in Hd. unfold replay_ordered in Hd.
  rewrite replay_loop_winners in Hd. by apply first_of_Some in Hd as [_ ?].
Qed.

(** Replay is first-writer-wins: each winner is one of the facts and no fact
    with its logical key precedes it in [(epoch_ms, seq, write_id)] order, every
    logical key has exactly one winner, and every fact is counted once, as a
    winner, an idempotent duplicate, or a conflict with its row. *)
Theorem replay_first_writer_wins deltas :
  len deltas <= u64_max ->
  let out := replay_delta_facts_with_observability deltas in
  Forall (fun w => w ∈ deltas /\
            forall d, d ∈ deltas -> delta_logical_key d = delta_logical_key w -> cmp_le delta_cmp w d)
         (winners out) /\
  (forall d, d ∈ deltas -> delta_logical_key d ∈ map delta_logical_key (winners out)) /\
  NoDup (map delta_logical_key (winners out)) /\
  n_winners (stats out) = len (winners out) /\
  n_winners (stats out) + duplicates_idempotent (stats out) + duplicates_conflict (stats out) = len deltas /\
  duplicates_conflict (stats out) = len (conflict_rows (stats out)).
Proof.
  intros Hl out.
  assert (winners out = replay_delta_facts_deterministic deltas) as -> by done. split; [|split; [|split]].
  - apply Forall_forall. intros w Hw%elem_of_replay_winners. split.
    + apply first_of_Some in Hw as [Hw _]. by rewrite sort_by_perm in Hw.
    + intros d Hd. eapply first_of_least; [apply sort_by_sorted, _|done|]. by rewrite sort_by_perm.
  - intros d Hd. rewrite replay_winner_keys. apply elem_of_btree_keys. unfold replay_ordered.
    rewrite replay_loop_winners. apply first_of_is_Some. by rewrite sort_by_perm.
  - rewrite replay_winner_keys. apply NoDup_btree_keys.
  - unfold out, replay_delta_facts_deterministic. rewrite replay_unfold. cbv zeta.
    cbn [winners stats n_winners duplicates_idempotent duplicates_conflict conflict_rows].
    assert (len (sort_by delta_cmp deltas) = len deltas) as Hs by (unfold len; by rewrite sort_by_perm).
    pose proof (replay_loop_counts (sort_by delta_cmp deltas) ltac:(lia)) as Hc. unfold replay_ordered.
    destruct (replay_loop _) as [ws st]. cbn [fst snd] in *.
    assert (len (map snd (btree_entries logical_key_cmp ws)) = Z.of_nat (size ws)) as ->
      by (unfold len; by rewrite length_map, length_btree_entries).
    repeat split; [lia|apply Hc].
Qed.

Definition sample_delta (ms sq : Z) (key digest id : string) : DeltaFactV1 :=
  mkDeltaFactV1 1 ms sq (lit "t1") (lit "f1") (lit key) (lit digest) (lit id).
Definition sample_deltas : list DeltaFactV1 :=
  [sample_delta 100 2 "h1" "digest-b" "w2"; sample_delta 90 1 "h2" "digest-c" "w4";
   sample_delta 101 1 "h1" "digest-a" "w3"; sample_delta 100 1 "h1" "digest-a" "w1"].

Lemma replay_first_writer_wins_witness :
  let out := replay_delta_facts_with_observability sample_deltas in
  n_winners (stats out) = 2 /\
  n_winners (stats out) + duplicates_idempotent (stats out) + duplicates_conflict (stats out)
    = len sample_deltas.
Proof.
  intros out. split; [by_eval|].
  apply (replay_first_writer_wins sample_deltas). by_eval.
Defined.

(** Sorting by pairwise distinct keys is strict, hence independent of the input order. *)
Lemma sort_by_key_perm {A B} (f : A -> B) (cmp : B -> B -> comparison) `{!StrictCmp cmp} l k :
  NoDup (map f l) -> l ≡ₚ k -> sort_by (cmp_on f cmp) l = sort_by (cmp_on f cmp) k.
Proof.
  intros Hn Hp. apply (sorted_unique (cmp_on f cmp)); [apply sort_by_sorted, _| |by rewrite !sort_by_perm].
  assert (NoDup (map f (sort_by (cmp_on f cmp) k))) as Hk
    by (apply (NoDup_Permutation_proper (map f l)); [by rewrite sort_by_perm, Hp|done]).
  revert Hk. pose proof (sort_by_sorted (cmp_on f cmp) k) as Hs.
  induction Hs as [|x s _ IH Hx]; [by constructor|]. intros [Hi Hd]%NoDup_cons.
  constructor; [by apply IH|]. rewrite Forall_forall in *. intros y Hy.
  specialize (Hx y Hy). unfold cmp_le, cmp_lt, cmp_on in *.
  destruct (cmp (f x) (f y)) eqn:E; [|done..]. apply (cmp_eq cmp) in E.
  destruct Hi. rewrite E. by apply list_elem_of_fmap_2.
Qed.



Lemma first_of_NoDup k l d :
  NoDup (map delta_logical_key l) -> d ∈ l -> delta_logical_key d = k -> first_of k l = Some d.
Proof.
  intros Hn Hd <-. destruct (first_of_is_Some l d Hd) as [d' Hd'].
  destruct (first_of_Some _ _ _ Hd') as [Hin Hk]. rewrite Hd'. f_equal.
  apply list_elem_of_lookup in Hd as [i Hi], Hin as [j Hj].
  assert (i = j) as <-; [|congruence].
  eapply (NoDup_lookup _ i j (delta_logical_key d)); [done| |].
  - by rewrite list_lookup_fmap, Hi.
  - by rewrite list_lookup_fmap, Hj, <- Hk.
Qed.

(** Replaying the winners of a replay returns the same winners, in the same
    order, with no duplicate left. *)
Theorem replay_winners_idempotent deltas :
  let ws := replay_delta_facts_deterministic deltas in
  len ws <= u64_max ->
  let out := replay_delta_facts_with_observability ws in
  winners out = ws /\ duplicates_idempotent (stats out) = 0 /\ duplicates_conflict (stats out) = 0.
Proof.
  intros ws Hl out.
  assert (NoDup (map delta_logical_key ws)) as Hn
    by (unfold ws; rewrite replay_winner_keys; apply NoDup_btree_keys).
  assert (Hp : sort_by delta_cmp ws ≡ₚ ws) by apply sort_by_perm.
  assert (NoDup (map delta_logical_key (sort_by delta_cmp ws))) as Hn'
    by (apply (NoDup_Permutation_proper (map delta_logical_key ws)); [by rewrite Hp|done]).
  assert (fst (replay_ordered ws) = fst (replay_ordered deltas)) as Hm.
  { apply map_eq. intros k. unfold replay_ordered. rewrite !replay_loop_winners.
    apply option_eq. intros d. split.
    - intros Hd. destruct (first_of_Some _ _ _ Hd) as [Hin Hk]. rewrite Hp in Hin.
      apply elem_of_replay_winners in Hin. by rewrite <- Hk.
    - intros Hd. destruct (first_of_Some _ _ _ Hd) as [_ Hk].
      apply first_of_NoDup; [done| |done]. rewrite Hp. apply elem_of_replay_winners. by rewrite Hk. }
  assert (winners out = ws) as Hw.
  { unfold out, ws, replay_delta_facts_deterministic. rewrite (replay_unfold deltas).
    rewrite replay_unfold. cbv zeta. cbn [winners]. unfold ws, replay_delta_facts_deterministic in Hm.
    rewrite (replay_unfold deltas) in Hm. cbv zeta in Hm. cbn [winners] in Hm. by rewrite Hm. }
  split; [done|].
  pose proof (replay_loop_counts (sort_by delta_cmp ws)) as Hc.
  assert (len (sort_by delta_cmp ws) = len ws) as Hs by (unfold len; by rewrite sort_by_perm).
  specialize (Hc ltac:(lia)). revert Hw. unfold out. rewrite replay_unfold. cbv zeta.
  cbn [winners stats duplicates_idempotent duplicates_conflict]. unfold replay_ordered.
  destruct (replay_loop (sort_by delta_cmp ws)) as [m st]. cbn [fst snd].
  intros Hw%(f_equal length). rewrite length_map, length_btree_entries in Hw.
  pose proof (len_nonneg (conflict_rows st)). unfold len in *. lia.
Qed.

Lemma replay_winners_idempotent_witness :
  let ws := replay_delta_facts_deterministic sample_deltas in
  let out := replay_delta_facts_with_observability ws in
  winners out = ws /\ duplicates_idempotent (stats out) = 0 /\ duplicates_conflict (stats out) = 0.
Proof. apply (replay_winners_idempotent sample_deltas). by_eval. Defined.
