(* ===== verification/Hex.v ===== *)
(** * Hexadecimal names of block hashes

    Models the hexadecimal codecs of the repository: the printers [hex_lower]
    ([slatedb_meta.rs]) and [hex_pair]/[block_key_for_hash]
    ([block_prefetch.rs]), and the readers [decode_hex_32] ([slatedb_meta.rs],
    lower case only), [decode_hex32] ([embed.rs]) and [parse_block_hash_hex]
    ([ffi.rs]), which also accept upper case.

    The theorem shows that the readers invert the printer, that the strict
    reader accepts nothing but printed hashes, and what the lenient ones report
    on malformed input. *)

From S2P Require Import Prelude Radix.

Definition HEX_CHARS : bytes := lit "0123456789abcdef".
(** [HEX[(b >> 4)]] and [HEX[(b & 0xf)]] *)
Definition hex_digit (n : Z) : byte := nth (Z.to_nat n) HEX_CHARS x00.
Definition hex_pair (b : byte) : str :=
  [hex_digit (Z.shiftr (byte_to_Z b) 4); hex_digit (Z.land (byte_to_Z b) 15)].
Fixpoint hex_lower (bs : bytes) : str :=
  match bs with
  | [] => []
  | b :: bs' => hex_pair b ++ hex_lower bs'
  end.
(** [format!("{:08x}", v)] for a [u32]: the big-endian bytes in hexadecimal. *)
Definition hex_08 (v : Z) : str := hex_lower (reverse (le_bytes 4 v)).

(** [block_key_for_hash] *)
Definition block_key_for_hash (hash : bytes) : str := BLOCK_KEY_PREFIX ++ hex_lower hash.

(** The byte ranges of the readers' matches. *)
Definition in_range (lo hi c : byte) : bool :=
  bool_decide (byte_to_Z lo <= byte_to_Z c <= byte_to_Z hi).
(** [hex_val]: lower case only. *)
Definition hex_val (c : byte) : option Z :=
  if in_range "0" "9" c then Some (byte_to_Z c - byte_to_Z "0")
  else if in_range "a" "f" c then Some (10 + byte_to_Z c - byte_to_Z "a")
  else None.
(** [decode_hex_nibble]: either case. *)
Definition decode_hex_nibble (c : byte) : option Z :=
  if in_range "0" "9" c then Some (byte_to_Z c - byte_to_Z "0")
  else if in_range "a" "f" c then Some (byte_to_Z c - byte_to_Z "a" + 10)
  else if in_range "A" "F" c then Some (byte_to_Z c - byte_to_Z "A" + 10)
  else None.

(** The loop over the 32 pairs of digits with [out[i] = (hi << 4) | lo]. *)
Fixpoint decode_pairs (nibble : byte -> option Z) (s : bytes) : option bytes :=
  match s with
  | a :: b :: rest =>
      match nibble a, nibble b with
      | Some hi, Some lo =>
          option_map (cons (byte_of_Z (Z.lor (Z.shiftl hi 4) lo))) (decode_pairs nibble rest)
      | _, _ => None
      end
  | _ => Some []
  end.
(** [slatedb_meta::decode_hex_32] *)
Definition decode_hex_32 (s : bytes) : option bytes :=
  if decide (len s = 64) then decode_pairs hex_val s else None.
(** [embed::decode_hex32]: [None] for [false]; the output array is only read
    after [true]. *)
Definition decode_hex32 (hex : str) : option bytes :=
  if decide (len hex = 64) then decode_pairs decode_hex_nibble hex else None.

(** The errors of [parse_block_hash_hex]: the length, or the position of the
    first bad character. *)
Inductive HexError := BadLength (n : Z) | BadChar (pos : Z).
Fixpoint parse_pairs (pos : Z) (s : bytes) : result bytes HexError :=
  match s with
  | a :: b :: rest =>
      let? hi := ok_or (decode_hex_nibble a) (BadChar pos) in
      let? lo := ok_or (decode_hex_nibble b) (BadChar (pos + 1)) in
      let? out := parse_pairs (pos + 2) rest in
      Ok (byte_of_Z (Z.lor (Z.shiftl hi 4) lo) :: out)
  | _ => Ok []
  end.
Definition parse_block_hash_hex (hex : str) : result bytes HexError :=
  if decide (len hex = 64) then parse_pairs 0 hex else Err (BadLength (len hex)).

(** ** Round trips *)
Lemma hex_pair_val b :
  match hex_pair b with
  | [h; l] => hex_val h = Some (Z.shiftr (byte_to_Z b) 4) /\ hex_val l = Some (Z.land (byte_to_Z b) 15)
  | _ => False
  end.
Proof. destruct b; vm_compute; split; reflexivity. Qed.

Lemma hex_join b : byte_of_Z (Z.lor (Z.shiftl (Z.shiftr (byte_to_Z b) 4) 4) (Z.land (byte_to_Z b) 15)) = b.
Proof. destruct b; reflexivity. Qed.

Lemma hex_val_digit c n : hex_val c = Some n -> hex_digit n = c /\ 0 <= n < 16.
Proof. destruct c; vm_compute; intros [= <-]; done. Qed.

Lemma hex_val_nibble c n : hex_val c = Some n -> decode_hex_nibble c = Some n.
Proof. destruct c; vm_compute; intros [= <-]; reflexivity. Qed.

Lemma length_hex_lower h : length (hex_lower h) = (2 * length h)%nat.
Proof. induction h as [|b h IH]; [done|]. cbn [hex_lower length]. rewrite length_app, IH. simpl. lia. Qed.

Lemma decode_pairs_hex_lower nibble h :
  (forall c n, hex_val c = Some n -> nibble c = Some n) ->
  decode_pairs nibble (hex_lower h) = Some h.
Proof.
  intros Hn. induction h as [|b h IH]; [done|]. cbn [hex_lower]. pose proof (hex_pair_val b) as Hp.
  pose proof (hex_join b) as Hj. destruct (hex_pair b) as [|h1 [|l1 [|]]]; try done.
  destruct Hp as [Hh Hl]. cbn [app decode_pairs]. rewrite (Hn _ _ Hh), (Hn _ _ Hl), IH.
  by rewrite Hj.
Qed.

Lemma hex_split hi lo :
  0 <= hi < 16 -> 0 <= lo < 16 ->
  let z := byte_to_Z (byte_of_Z (Z.lor (Z.shiftl hi 4) lo)) in Z.shiftr z 4 = hi /\ Z.land z 15 = lo.
Proof.
  intros H1 H2. assert (exists a b, hi = Z.of_nat a /\ lo = Z.of_nat b /\ a < 16 /\ b < 16)%nat
    as (a & b & -> & -> & Ha & Hb) by (exists (Z.to_nat hi), (Z.to_nat lo); lia).
  clear H1 H2. do 16 (destruct a as [|a]; [do 16 (destruct b as [|b]; [by vm_compute|]); lia|]). lia.
Qed.

Lemma decode_pairs_sound n s h :
  length s = (2 * n)%nat -> decode_pairs hex_val s = Some h -> s = hex_lower h.
Proof.
  revert s h. induction n as [|n IH]; intros s h Hl.
  { destruct s; [|done]. by intros [= <-]. }
  destruct s as [|a [|b s]]; [done|simpl in Hl; lia|]. cbn [decode_pairs].
  destruct (hex_val a) as [hi|] eqn:Ea; [|done]. destruct (hex_val b) as [lo|] eqn:Eb; [|done].
  destruct (decode_pairs hex_val s) as [h'|] eqn:Es; [|done]. intros [= <-].
  apply IH in Es; [|simpl in Hl; lia]. cbn [hex_lower]. rewrite <- Es.
  apply hex_val_digit in Ea as [Ea Hhi], Eb as [Eb Hlo].
  destruct (hex_split hi lo Hhi Hlo) as [E1 E2].
  unfold hex_pair. rewrite E1, E2, Ea, Eb. done.
Qed.

Lemma hex_lower_inj h h' : hex_lower h = hex_lower h' -> h = h'.
Proof.
  intros E. apply (f_equal (decode_pairs hex_val)) in E.
  rewrite !decode_pairs_hex_lower in E by done. congruence.
Qed.

(** Induction two bytes at a time. *)
Lemma pairs_ind (P : bytes -> Prop) :
  P [] -> (forall a, P [a]) -> (forall a b s, P s -> P (a :: b :: s)) -> forall s, P s.
Proof.
  intros H0 H1 H2 s. assert (P s /\ forall a, P (a :: s)) as [? _]; [|done].
  induction s as [|b s [IH IH']]; auto.
Qed.

Lemma parse_pairs_decode pos s h :
  parse_pairs pos s = Ok h <-> decode_pairs decode_hex_nibble s = Some h.
Proof.
  revert pos h. induction s as [|a|a b s IH] using pairs_ind; intros pos h; [naive_solver..|].
  cbn [parse_pairs decode_pairs].
  destruct (decode_hex_nibble a) as [hi|]; run_res; [|naive_solver].
  destruct (decode_hex_nibble b) as [lo|]; run_res; [|naive_solver].
  specialize (IH (pos + 2)).
  destruct (parse_pairs (pos + 2) s) as [o|e], (decode_pairs decode_hex_nibble s) as [o'|]; run_res.
  - assert (Some o' = Some o) as [= ->] by by apply IH. naive_solver.
  - pose proof (proj1 (IH o) eq_refl). done.
  - pose proof (proj2 (IH o') eq_refl). done.
  - naive_solver.
Qed.

(** The hexadecimal readers invert the printer: a 32-byte hash printed in
    lower case is read back by all three; the strict reader accepts nothing
    else, so a hash has exactly one name; distinct hashes have distinct block
    keys. *)
Theorem hex_hash_roundtrip h s :
  length h = 32%nat ->
  decode_hex_32 (hex_lower h) = Some h /\
  decode_hex32 (hex_lower h) = Some h /\
  parse_block_hash_hex (hex_lower h) = Ok h /\
  (decode_hex_32 s = Some h <-> s = hex_lower h) /\
  (forall h', block_key_for_hash h = block_key_for_hash h' <-> h = h').
Proof.
  intros Hh. assert (len (hex_lower h) = 64) as Hl by (unfold len; rewrite length_hex_lower; lia).
  unfold decode_hex_32, decode_hex32, parse_block_hash_hex. rewrite !(decide_True (P := len (hex_lower h) = 64)) by done.
  pose proof (decode_pairs_hex_lower hex_val h ltac:(done)) as E1.
  pose proof (decode_pairs_hex_lower decode_hex_nibble h hex_val_nibble) as E2.
  rewrite E1, E2. split; [done|]. split; [done|]. split; [by apply parse_pairs_decode|]. split.
  - split.
    + case_decide as H64; [|done]. apply (decode_pairs_sound 32). unfold len in H64. lia.
    + intros ->. by rewrite decide_True.
  - intros h'. unfold block_key_for_hash. split; [|by intros ->].
    intros E%app_inv_head. by apply hex_lower_inj.
Qed.

Lemma hex_hash_roundtrip_witness :
  let h := replicate 32 xa7 in
  decode_hex_32 (hex_lower h) = Some h /\ decode_hex32 (hex_lower h) = Some h.
Proof.
  intros h. destruct (hex_hash_roundtrip h [] ltac:(reflexivity)) as (H1 & H2 & _). split; [exact H1|exact H2].
Defined.
