(* ===== verification/BlockMeta.v ===== *)
(** * Block metadata and the metadata-index interface ([block_meta.rs])

    Models [crates/wombatkv-radix/src/block_meta.rs]: [BlockMeta], the trait
    [MetadataIndex] as a type class, and its in-memory implementation
    [InMemoryMetadataIndex].  The wall clock is an argument.  Operations that
    can panic return the panic message as an error: the in-memory index never
    does, its lock being held only by code that does not panic.

    [MetadataIndexLaws] is the contract the components written against the
    trait rely on; this file discharges it for the in-memory index, [SlateMeta]
    for the SlateDB-backed one.  The theorems show the contract, the longest
    prefix the index reports, and the safety of compare-and-delete. *)

From S2P Require Import Prelude Order.

(** [struct BlockMeta] *)
Record BlockMeta := mkBlockMeta {
  parent_hash : bytes; block_seq : Z; payload_bytes : Z; last_access_ns : Z;
  model_digest : bytes; layout_tag : bytes; ext_flags : Z
}.
Definition ZERO_HASH : bytes := replicate 32 x00.
Definition new_root (now : Z) (payload : Z) (model layout : bytes) : BlockMeta :=
  mkBlockMeta ZERO_HASH 0 payload now model layout 0.
Definition new_successor (now : Z) (parent : bytes) (seq payload : Z) (model layout : bytes) : BlockMeta :=
  mkBlockMeta parent seq payload now model layout 0.
Definition touch (now : Z) (m : BlockMeta) : BlockMeta :=
  mkBlockMeta (parent_hash m) (block_seq m) (payload_bytes m) now (model_digest m) (layout_tag m) (ext_flags m).

(** The widths of the Rust types. *)
Definition is_hash (h : bytes) : Prop := length h = 32%nat.
Definition meta_wf (m : BlockMeta) : Prop :=
  is_hash (parent_hash m) /\ in_u32 (block_seq m) /\ in_u64 (payload_bytes m) /\
  in_u64 (last_access_ns m) /\ length (model_digest m) = 24%nat /\ length (layout_tag m) = 16%nat /\
  in_u32 (ext_flags m).

Lemma touch_wf now m : in_u64 now -> meta_wf m -> meta_wf (touch now m).
Proof. unfold meta_wf, touch. cbn. tauto. Qed.

(** ** The interface *)

(** The trait [MetadataIndex]; [now] is what [now_ns] reads. *)
Class MetadataIndex (I : Type) := {
  idx_insert (now : Z) (hash : bytes) (meta : BlockMeta) : M I str unit;
  idx_get (hash : bytes) : M I str (option BlockMeta);
  idx_get_and_touch (now : Z) (hash : bytes) : M I str (option BlockMeta);
  idx_remove (hash : bytes) : M I str bool;
  idx_longest_prefix (blocks : list bytes) : M I str Z;
  idx_len : M I str Z;
  idx_entries : M I str (list (bytes * BlockMeta))
}.

(** The length of the longest prefix of [blocks] present in [m]. *)
Fixpoint prefix_count {V} (m : gmap bytes V) (blocks : list bytes) : Z :=
  match blocks with
  | [] => 0
  | h :: rest => match m !! h with Some _ => 1 + prefix_count m rest | None => 0 end
  end.

(** The contract: [idx_repr i m] says that the index [i] holds the finite map
    [m], and every operation behaves as on [m], without panicking. *)
Class MetadataIndexLaws (I : Type) `{!MetadataIndex I} := {
  idx_repr : I -> gmap bytes BlockMeta -> Prop;
  law_insert i m now h meta :
    idx_repr i m -> in_u64 now -> is_hash h -> meta_wf meta ->
    exists i', idx_insert now h meta i = (i', Ok tt) /\ idx_repr i' (<[h := touch now meta]> m);
  law_get i m h :
    idx_repr i m -> is_hash h ->
    exists i', idx_get h i = (i', Ok (m !! h)) /\ idx_repr i' m;
  law_get_and_touch i m now h :
    idx_repr i m -> in_u64 now -> is_hash h ->
    exists i', idx_get_and_touch now h i = (i', Ok (touch now <$> m !! h)) /\
               idx_repr i' (alter (touch now) h m);
  law_remove i m h :
    idx_repr i m -> is_hash h ->
    exists i', idx_remove h i = (i', Ok (bool_decide (is_Some (m !! h)))) /\ idx_repr i' (delete h m);
  law_longest_prefix i m blocks :
    idx_repr i m -> Forall is_hash blocks ->
    exists i', idx_longest_prefix blocks i = (i', Ok (prefix_count m blocks)) /\ idx_repr i' m;
  law_len i m :
    idx_repr i m -> exists i', idx_len i = (i', Ok (Z.of_nat (size m))) /\ idx_repr i' m;
  law_entries i m :
    idx_repr i m ->
    exists i' l, idx_entries i = (i', Ok l) /\ l ≡ₚ map_to_list m /\ idx_repr i' m
}.

(** [is_empty], the trait's default method. *)
Definition idx_is_empty {I} `{!MetadataIndex I} : M I str bool :=
  let! n := idx_len in st_ret (bool_decide (n = 0)).

(** ** The in-memory index *)

(** [struct InMemoryMetadataIndex]: the map behind the lock. *)
Record InMemoryMetadataIndex := mkInMemoryMetadataIndex { entries : gmap bytes BlockMeta }.

Module InMem.
Definition new : InMemoryMetadataIndex := mkInMemoryMetadataIndex ∅.

(** [bulk_load]: [w.entry(h).or_insert(m)] for each item in turn. *)
Fixpoint bulk_load (items : list (bytes * BlockMeta)) (i : InMemoryMetadataIndex) : InMemoryMetadataIndex :=
  match items with
  | [] => i
  | (h, m) :: rest =>
      bulk_load rest
        match entries i !! h with
        | Some _ => i
        | None => mkInMemoryMetadataIndex (<[h := m]> (entries i))
        end
  end.

(** [remove_if_unchanged] *)
Definition remove_if_unchanged (hash : bytes) (expected : Z) (i : InMemoryMetadataIndex)
  : InMemoryMetadataIndex * bool :=
  match entries i !! hash with
  | Some meta =>
      if decide (last_access_ns meta = expected)
      then (mkInMemoryMetadataIndex (delete hash (entries i)), true)
      else (i, false)
  | None => (i, false)
  end.

Definition insert (now : Z) (hash : bytes) (meta : BlockMeta) (i : InMemoryMetadataIndex)
  : InMemoryMetadataIndex :=
  mkInMemoryMetadataIndex (<[hash := touch now meta]> (entries i)).
Definition get (hash : bytes) (i : InMemoryMetadataIndex) : option BlockMeta := entries i !! hash.
Definition get_and_touch (now : Z) (hash : bytes) (i : InMemoryMetadataIndex)
  : InMemoryMetadataIndex * option BlockMeta :=
  match entries i !! hash with
  | Some meta => (mkInMemoryMetadataIndex (<[hash := touch now meta]> (entries i)), Some (touch now meta))
  | None => (i, None)
  end.
Definition remove (hash : bytes) (i : InMemoryMetadataIndex) : InMemoryMetadataIndex * bool :=
  (mkInMemoryMetadataIndex (delete hash (entries i)), bool_decide (is_Some (entries i !! hash))).
(** The counting loop of [longest_prefix], [k] being the count so far. *)
Fixpoint longest_prefix_loop (i : InMemoryMetadataIndex) (blocks : list bytes) (k : Z) : Z :=
  match blocks with
  | [] => k
  | h :: rest => if bool_decide (is_Some (entries i !! h)) then longest_prefix_loop i rest (k + 1) else k
  end.
Definition longest_prefix (blocks : list bytes) (i : InMemoryMetadataIndex) : Z :=
  longest_prefix_loop i blocks 0.
Definition length (i : InMemoryMetadataIndex) : Z := Z.of_nat (size (entries i)).
(** [entries]: the [BTreeMap] in key order. *)
Definition snapshot (i : InMemoryMetadataIndex) : list (bytes * BlockMeta) := btree_entries bytes_cmp (entries i).
End InMem.

#[global] Instance in_memory_index : MetadataIndex InMemoryMetadataIndex := {|
  idx_insert now h m i := (InMem.insert now h m i, Ok tt);
  idx_get h i := (i, Ok (InMem.get h i));
  idx_get_and_touch now h i := let (i', r) := InMem.get_and_touch now h i in (i', Ok r);
  idx_remove h i := let (i', r) := InMem.remove h i in (i', Ok r);
  idx_longest_prefix blocks i := (i, Ok (InMem.longest_prefix blocks i));
  idx_len i := (i, Ok (InMem.length i));
  idx_entries i := (i, Ok (InMem.snapshot i))
|}.

Lemma longest_prefix_loop_count i blocks k :
  InMem.longest_prefix_loop i blocks k = k + prefix_count (entries i) blocks.
Proof.
  revert k. induction blocks as [|h bs IH]; intros k; cbn [InMem.longest_prefix_loop prefix_count]; [lia|].
  destruct (entries i !! h) as [e|].
  - rewrite bool_decide_eq_true_2 by done. rewrite IH. lia.
  - rewrite bool_decide_eq_false_2 by by intros [? ?]. lia.
Qed.

#[global] Program Instance in_memory_index_laws : MetadataIndexLaws InMemoryMetadataIndex := {|
  idx_repr i m := entries i = m
|}.
Next Obligation. intros i m now h meta <- _ _ _. by eexists. Qed.
Next Obligation. intros i m h <- _. by eexists. Qed.
Next Obligation.
  intros i m now h <- _ _. cbn. unfold InMem.get_and_touch.
  destruct (entries i !! h) as [meta|] eqn:E; cbn; eexists; (split; [done|]); cbn.
  - by rewrite (alter_lookup_Some _ _ _ _ E).
  - by rewrite alter_id by naive_solver.
Qed.
Next Obligation. intros i m h <- _. by eexists. Qed.
Next Obligation.
  intros i m blocks <- _. eexists. split; [|done]. cbn. unfold InMem.longest_prefix.
  by rewrite longest_prefix_loop_count.
Qed.
Next Obligation. intros i m <-. by eexists. Qed.
Next Obligation.
  intros i m <-. eexists _, _. split; [done|]. split; [|done]. apply btree_entries_perm.
Qed.

(** ** Properties over the interface *)

Lemma prefix_count_range {V} (m : gmap bytes V) blocks : 0 <= prefix_count m blocks <= len blocks.
Proof.
  induction blocks as [|h bs IH]; cbn [prefix_count]; [done|]. rewrite len_cons.
  destruct (m !! h); lia.
Qed.

(** The count is the length of the longest prefix whose blocks are all present. *)
Lemma prefix_count_spec {V} (m : gmap bytes V) blocks :
  let k := Z.to_nat (prefix_count m blocks) in
  Forall (fun h => is_Some (m !! h)) (take k blocks) /\
  (forall h, blocks !! k = Some h -> m !! h = None).
Proof.
  induction blocks as [|h bs IH]; cbn [prefix_count]; [done|].
  destruct (m !! h) as [v|] eqn:E.
  - cbv zeta. replace (Z.to_nat (1 + prefix_count m bs)) with (S (Z.to_nat (prefix_count m bs)))
      by (pose proof (prefix_count_range m bs); lia).
    cbn. destruct IH as [IH1 IH2]. split; [constructor; [by eexists|done]|done].
  - cbn. split; [constructor|]. by intros h' [= <-].
Qed.

Section Clients.
Context {I : Type} `{!MetadataIndex I} `{!MetadataIndexLaws I}.

(** On any implementation of the index that meets the contract, a lookup of
    the longest known prefix returns the length [k] of the longest prefix of the
    chain whose blocks are all present: the first [k] are, the next one is not. *)
Theorem longest_prefix_is_longest (i : I) m blocks :
  idx_repr i m -> Forall is_hash blocks ->
  exists i' k, idx_longest_prefix blocks i = (i', Ok k) /\ idx_repr i' m /\ 0 <= k <= len blocks /\
    Forall (fun h => is_Some (m !! h)) (take (Z.to_nat k) blocks) /\
    (forall h, blocks !! Z.to_nat k = Some h -> m !! h = None).
Proof.
  intros Hr Hb. destruct (law_longest_prefix i m blocks Hr Hb) as (i' & E & Hr').
  exists i', (prefix_count m blocks). split; [done|]. split; [done|].
  split; [apply prefix_count_range|apply prefix_count_spec].
Qed.

Lemma get_after_insert (i : I) m now h meta :
  idx_repr i m -> in_u64 now -> is_hash h -> meta_wf meta ->
  exists i' i'', idx_insert now h meta i = (i', Ok tt) /\
                 idx_get h i' = (i'', Ok (Some (touch now meta))).
Proof.
  intros Hr Hn Hh Hm. destruct (law_insert i m now h meta) as (i' & E & Hr'); [done..|].
  destruct (law_get i' _ h Hr' Hh) as (i'' & E' & _). exists i', i''. split; [done|].
  by rewrite lookup_insert_eq in E'.
Qed.
End Clients.

Lemma longest_prefix_is_longest_witness :
  let i := InMem.insert 5 (replicate 32 x01) (new_root 0 10 (replicate 24 x02) (replicate 16 x03)) InMem.new in
  exists i' k,
    idx_longest_prefix [replicate 32 x01; replicate 32 x09] i = (i', Ok k) /\ idx_repr i' (entries i) /\
    0 <= k <= 2 /\
    Forall (fun h => is_Some (entries i !! h)) (take (Z.to_nat k) [replicate 32 x01; replicate 32 x09]) /\
    (forall h, [replicate 32 x01; replicate 32 x09] !! Z.to_nat k = Some h -> entries i !! h = None).
Proof.
  intros i. apply (longest_prefix_is_longest i (entries i) [replicate 32 x01; replicate 32 x09]).
  - reflexivity.
  - repeat constructor.
Defined.

(** ** Compare-and-delete *)

(** What other threads may do to the index at time [t], between the snapshot an
    eviction worker takes and its delete. *)
Inductive index_step (t : Z) : InMemoryMetadataIndex -> InMemoryMetadataIndex -> Prop :=
| step_insert i h m : index_step t i (InMem.insert t h m i)
| step_touch i h : index_step t i (fst (InMem.get_and_touch t h i))
| step_remove i h : index_step t i (fst (InMem.remove h i))
| step_cas i h e : index_step t i (fst (InMem.remove_if_unchanged h e i)).
(** Any number of such steps, all later than [t0]. *)
Inductive index_steps_after (t0 : Z) : InMemoryMetadataIndex -> InMemoryMetadataIndex -> Prop :=
| steps_refl i : index_steps_after t0 i i
| steps_next t i i' i'' :
    t0 < t -> index_steps_after t0 i i' -> index_step t i' i'' -> index_steps_after t0 i i''.

Lemma index_step_lookup t i i' h :
  index_step t i i' ->
  entries i' !! h = entries i !! h \/ entries i' !! h = None \/
  exists m, entries i' !! h = Some m /\ last_access_ns m = t.
Proof.
  intros [i0 k m|i0 k|i0 k|i0 k e].
  - cbn. destruct (decide (k = h)) as [->|?]; [|left; by rewrite lookup_insert_ne].
    right; right. eexists. by rewrite lookup_insert_eq.
  - unfold InMem.get_and_touch. destruct (entries i0 !! k) as [m|]; cbn; [|by left].
    destruct (decide (k = h)) as [->|?]; [|left; by rewrite lookup_insert_ne].
    right; right. eexists. by rewrite lookup_insert_eq.
  - cbn. destruct (decide (k = h)) as [->|?]; [|left; by rewrite lookup_delete_ne].
    right; left. apply lookup_delete_eq.
  - unfold InMem.remove_if_unchanged. destruct (entries i0 !! k) as [m|]; cbn; [|by left].
    case_decide; cbn; [|by left].
    destruct (decide (k = h)) as [->|?]; [|left; by rewrite lookup_delete_ne].
    right; left. apply lookup_delete_eq.
Qed.

Lemma index_steps_lookup t0 i i' h :
  index_steps_after t0 i i' ->
  entries i' !! h = entries i !! h \/ entries i' !! h = None \/
  exists m, entries i' !! h = Some m /\ t0 < last_access_ns m.
Proof.
  induction 1 as [|t i i' i'' Ht _ IH Hs]; [by left|].
  destruct (index_step_lookup t i' i'' h Hs) as [->|[->|(m & -> & Hm)]]; [done|by right; left|].
  right; right. exists m. split; [done|lia].
Qed.

(** Compare-and-delete is free of the ABA problem: when the eviction worker
    saw the entry [meta] of a block and other threads then inserted, touched,
    removed and evicted blocks at later times, a delete that succeeds removes
    that very entry and nothing else, and one that fails changes nothing; in
    particular a block touched since the snapshot is never evicted. *)
Theorem remove_if_unchanged_no_aba i0 i1 h meta :
  entries i0 !! h = Some meta ->
  index_steps_after (last_access_ns meta) i0 i1 ->
  match InMem.remove_if_unchanged h (last_access_ns meta) i1 with
  | (i2, true) => entries i1 !! h = Some meta /\ entries i2 = delete h (entries i1)
  | (i2, false) => i2 = i1 /\ entries i1 !! h <> Some meta
  end.
Proof.
  intros H0 Hs. unfold InMem.remove_if_unchanged.
  destruct (entries i1 !! h) as [m|] eqn:E; [|done].
  destruct (index_steps_lookup _ i0 i1 h Hs) as [Hk|[Hk|(m' & Hk & Hlt)]];
    rewrite E in Hk; [|done|].
  - rewrite H0 in Hk. simplify_eq. by rewrite decide_True.
  - simplify_eq. rewrite decide_False by lia. split; [done|]. intros [= ->]. lia.
Qed.

Definition sample_meta : BlockMeta := new_root 7 10 (replicate 24 x02) (replicate 16 x03).

Lemma remove_if_unchanged_no_aba_witness :
  let h := replicate 32 x01 in
  let i0 := mkInMemoryMetadataIndex {[ h := sample_meta ]} in
  let i1 := fst (InMem.get_and_touch 9 h i0) in
  match InMem.remove_if_unchanged h 7 i1 with
  | (i2, true) => entries i1 !! h = Some sample_meta /\ entries i2 = delete h (entries i1)
  | (i2, false) => i2 = i1 /\ entries i1 !! h <> Some sample_meta
  end.
Proof.
  intros h i0 i1. apply (remove_if_unchanged_no_aba i0 i1 h sample_meta).
  - reflexivity.
  - apply (steps_next 7 9 i0 i0 i1); [lia|apply steps_refl|apply step_touch].
Defined.

(** ** Bulk load *)

(** Entries already present are kept; of several new ones the first is. *)
Lemma bulk_load_entries items i : entries (InMem.bulk_load items i) = entries i ∪ list_to_map items.
Proof.
  revert i. induction items as [|[h m] items IH]; intros i; cbn [InMem.bulk_load].
  { cbn. by rewrite (right_id_L ∅ (∪)). }
  rewrite IH. cbn. destruct (entries i !! h) as [m'|] eqn:E; cbn.
  - apply map_eq. intros k. rewrite !lookup_union. destruct (decide (k = h)) as [->|?].
    + rewrite E, lookup_insert_eq. by destruct (list_to_map items !! h).
    + by rewrite lookup_insert_ne.
  - by rewrite <- insert_union_l, insert_union_r.
Qed.
