(* ===== verification/SlateMeta.v ===== *)
(** * The SlateDB-backed metadata index ([slatedb_meta.rs])

    Models [crates/wombatkv-radix/src/slatedb_meta.rs]: the versioned value
    codec, the two key layouts and the trait operations of
    [SlateDbMetadataIndex].  Two libraries are parameters: SlateDB, a class of
    operations [SlateDb] on a database, and the [rkyv] codec, the class [Rkyv].
    [SlateDbLaws] and [RkyvLaws] state what the code relies on: an open database
    stores what is put, a scan enumerates a key range in order, and decoding
    inverts encoding.  An [expect] on an error is a panic with its message.

    The instance at the end discharges the [MetadataIndexLaws] contract, and the
    theorem shows that the persistent and the in-memory index answer any
    sequence of trait calls alike. *)

From S2P Require Import Prelude Order Hex BlockMeta.

(** ** The libraries the code calls *)
Class SlateDb (D : Type) := {
  db_put (k v : bytes) : M D str unit;
  db_get (k : bytes) : M D str (option bytes);
  db_delete (k : bytes) : M D str unit;
  db_flush : M D str unit;
  db_scan (lo hi : bytes) : M D str (list (bytes * bytes))
}.
Class Rkyv := {
  rkyv_to_bytes : BlockMeta -> bytes;
  rkyv_from_bytes : bytes -> option BlockMeta
}.

(** [lo <= k < hi] in byte order. *)
Definition in_key_range (lo hi k : bytes) : Prop := cmp_le bytes_cmp lo k /\ bytes_cmp k hi = Lt.
#[global] Instance in_key_range_dec lo hi k : Decision (in_key_range lo hi k).
Proof. unfold in_key_range. apply _. Defined.

Class SlateDbLaws (D : Type) `{!SlateDb D} := {
  db_repr : D -> gmap bytes bytes -> Prop;
  db_put_law d m k v : db_repr d m -> exists d', db_put k v d = (d', Ok tt) /\ db_repr d' (<[k := v]> m);
  db_get_law d m k : db_repr d m -> exists d', db_get k d = (d', Ok (m !! k)) /\ db_repr d' m;
  db_delete_law d m k : db_repr d m -> exists d', db_delete k d = (d', Ok tt) /\ db_repr d' (delete k m);
  db_flush_law d m : db_repr d m -> exists d', db_flush d = (d', Ok tt) /\ db_repr d' m;
  db_scan_law d m lo hi :
    db_repr d m ->
    exists d', db_scan lo hi d =
      (d', Ok (btree_entries bytes_cmp (filter (fun kv => in_key_range lo hi (fst kv)) m))) /\ db_repr d' m
}.
Class RkyvLaws `{!Rkyv} := rkyv_roundtrip m : meta_wf m -> rkyv_from_bytes (rkyv_to_bytes m) = Some m.

(** [r.expect(msg)] *)
Definition expect {St A} (msg : str) (c : M St str A) : M St str A :=
  fun s => match c s with (s', Ok a) => (s', Ok a) | (s', Err _) => (s', Err msg) end.

Definition META_VALUE_SCHEMA_TAG : bytes := lit "v001".

Section Slate.
Context {D : Type} `{!SlateDb D} `{!Rkyv}.

(** ** Values and keys *)
Definition encode_meta_value (meta : BlockMeta) : bytes := META_VALUE_SCHEMA_TAG ++ rkyv_to_bytes meta.
Definition decode_meta_value (value : bytes) : option BlockMeta :=
  if decide (len value < len META_VALUE_SCHEMA_TAG) then None
  else if decide (slice 0 (len META_VALUE_SCHEMA_TAG) value <> META_VALUE_SCHEMA_TAG) then None
  else rkyv_from_bytes (drop (length META_VALUE_SCHEMA_TAG) value).

(** [struct SlateDbMetadataIndex]; the tokio runtime only drives the calls. *)
Record SlateDbMetadataIndex := mkSlateDbMetadataIndex { db : D; namespace : str; node_id : str }.

Inductive SlateDbMetaError := SlateIo (e : str) | SlateObjectStore (e : str) | SlateDbErr (e : str) | InUse (e : str).

(** [open_with_object_store]: the outer error is the panic of an [assert!];
    building the runtime and [Db::open] are arguments. *)
Definition open_with_object_store (build_runtime : result unit str) (open_db : str -> result D str)
    (path node ns : str) : result (result SlateDbMetadataIndex SlateDbMetaError) str :=
  if decide (ns = []) then Err (lit "namespace must not be empty")
  else if bool_decide ("/"%byte ∈ ns)
  then Err (lit "namespace must not contain '/' (would collide with key separator)")
  else Ok (let? _ := map_err SlateIo build_runtime in
           let? d := map_err SlateDbErr (open_db path) in
           Ok (mkSlateDbMetadataIndex d ns node)).

Definition key_by_hash (hash : bytes) : bytes := lit "h/" ++ hex_lower hash.
Definition key_topological (ns : str) (hash : bytes) (meta : BlockMeta) : bytes :=
  lit "t/" ++ ns ++ lit "/" ++ hex_lower (model_digest meta) ++ lit "/" ++ hex_08 (block_seq meta)
    ++ lit "/" ++ hex_lower hash.
Definition topological_prefix (ns : str) : bytes := lit "t/" ++ ns ++ lit "/".

(** A call on the database of the index. *)
Definition on_db {A} (c : M D str A) : M SlateDbMetadataIndex str A :=
  fun i => let (d, r) := c (db i) in (mkSlateDbMetadataIndex d (namespace i) (node_id i), r).

Definition put_meta (hash : bytes) (meta : BlockMeta) : M SlateDbMetadataIndex str unit :=
  fun i =>
    let value := encode_meta_value meta in
    let key_h := key_by_hash hash in
    let key_t := key_topological (namespace i) hash meta in
    on_db (let! _ := expect (lit "slatedb put(hash) failed") (db_put key_h value) in
           let! _ := expect (lit "slatedb put(topological) failed") (db_put key_t value) in
           expect (lit "slatedb flush failed") db_flush) i.

Definition read_meta (hash : bytes) : M SlateDbMetadataIndex str (option BlockMeta) :=
  let! value := on_db (expect (lit "slatedb get failed") (db_get (key_by_hash hash))) in
  st_ret (value ≫= decode_meta_value).

(** ** The trait operations *)
Definition insert (now : Z) (hash : bytes) (meta : BlockMeta) : M SlateDbMetadataIndex str unit :=
  put_meta hash (touch now meta).

Definition get_and_touch (now : Z) (hash : bytes) : M SlateDbMetadataIndex str (option BlockMeta) :=
  let! found := read_meta hash in
  match found with
  | None => st_ret None
  | Some meta =>
      let meta := touch now meta in
      let! _ := put_meta hash meta in
      st_ret (Some meta)
  end.

Definition remove (hash : bytes) : M SlateDbMetadataIndex str bool :=
  let! found := read_meta hash in
  match found with
  | None => st_ret false
  | Some meta => fun i =>
      let key_t := key_topological (namespace i) hash meta in
      (let! _ := on_db (let! _ := expect (lit "slatedb delete(hash) failed") (db_delete (key_by_hash hash)) in
                        let! _ := expect (lit "slatedb delete(topological) failed") (db_delete key_t) in
                        expect (lit "slatedb flush failed") db_flush) in
       st_ret true) i
  end.

Fixpoint longest_prefix_loop (chain : list bytes) (k : Z) : M SlateDbMetadataIndex str Z :=
  match chain with
  | [] => st_ret k
  | h :: rest =>
      let! found := read_meta h in
      match found with
      | Some _ => longest_prefix_loop rest (k + 1)
      | None => st_ret k
      end
  end.
Definition longest_prefix (chain : list bytes) : M SlateDbMetadataIndex str Z := longest_prefix_loop chain 0.

(** The scan over [h/ .. h0]; an error of the scan or of a [next] is a panic. *)
Definition scan_hashes : M SlateDbMetadataIndex str (list (bytes * bytes)) :=
  on_db (expect (lit "slatedb scan failed") (db_scan (lit "h/") (lit "h0"))).
Definition length : M SlateDbMetadataIndex str Z :=
  let! kvs := scan_hashes in st_ret (len kvs).

(** One turn of the loop of [entries]: [None] is [continue]. *)
Definition decode_entry (kv : bytes * bytes) : option (bytes * BlockMeta) :=
  let key := fst kv in
  if decide (len key <> 2 + 64 \/ slice 0 2 key <> lit "h/") then None
  else match decode_hex_32 (drop 2 key) with
       | None => None
       | Some hash => option_map (pair hash) (decode_meta_value (snd kv))
       end.
Definition entries : M SlateDbMetadataIndex str (list (bytes * BlockMeta)) :=
  let! kvs := scan_hashes in st_ret (omap decode_entry kvs).

#[global] Instance slate_index : MetadataIndex SlateDbMetadataIndex := {|
  idx_insert := insert;
  idx_get := read_meta;
  idx_get_and_touch := get_and_touch;
  idx_remove := remove;
  idx_longest_prefix := longest_prefix;
  idx_len := length;
  idx_entries := entries
|}.

(** ** Lemmas *)
Lemma key_by_hash_inj h h' : key_by_hash h = key_by_hash h' -> h = h'.
Proof using. intros E%app_inv_head. by apply hex_lower_inj. Qed.

(** The scanned range is exactly the keys that start with [h/]. *)
Lemma hash_key_range k : in_key_range (lit "h/") (lit "h0") k <-> exists r, k = lit "h/" ++ r.
Proof using.
  change (lit "h/") with ["h"; "/"]%byte. change (lit "h0") with ["h"; "0"]%byte.
  unfold in_key_range, cmp_le, bytes_cmp. split.
  - destruct k as [|a [|b k]]; cbn [list_cmp]; unfold byte_cmp, then_with; intros [H1 H2]; try done.
    + exfalso. destruct (Z.compare_spec (byte_to_Z "h") (byte_to_Z a)) as [Ha|Ha|Ha]; [by simplify_eq/=| |by simplify_eq/=].
      destruct (Z.compare_spec (byte_to_Z a) (byte_to_Z "h")); [lia|lia|done].
    + assert (a = "h"%byte) as ->.
      { apply byte_to_Z_inj.
        destruct (Z.compare_spec (byte_to_Z "h") (byte_to_Z a)) as [Ha|Ha|Ha]; [done| |done].
        destruct (Z.compare_spec (byte_to_Z a) (byte_to_Z "h")); [lia|lia|done]. }
      rewrite Z.compare_refl in H1, H2. assert (b = "/"%byte) as ->; [|by exists k].
      change (byte_to_Z "/") with 47 in *. change (byte_to_Z "0") with 48 in *.
      apply byte_to_Z_inj. change (byte_to_Z "/") with 47.
      destruct (Z.compare_spec 47 (byte_to_Z b)) as [|Hb|]; [done| |done].
      destruct (Z.compare_spec (byte_to_Z b) 48) as [Hc|Hc|Hc]; [by destruct k|lia|done].
  - intros [r ->]. cbn [app list_cmp]. unfold byte_cmp. by destruct r.
Qed.

Lemma key_topological_range ns h m : ~ in_key_range (lit "h/") (lit "h0") (key_topological ns h m).
Proof using. rewrite hash_key_range. intros [r E]. unfold key_topological in E. discriminate E. Qed.

Context `{!SlateDbLaws D} `{!RkyvLaws}.

Lemma decode_encode_meta_value m : meta_wf m -> decode_meta_value (encode_meta_value m) = Some m.
Proof.
  intros Hm. unfold decode_meta_value, encode_meta_value.
  rewrite decide_False, decide_False.
  - by rewrite drop_app_length, rkyv_roundtrip.
  - rewrite slice_app_start by done. by intros [].
  - rewrite len_app. pose proof (len_nonneg (rkyv_to_bytes m)). lia.
Qed.

Lemma decode_entry_key h m :
  is_hash h -> meta_wf m -> decode_entry (key_by_hash h, encode_meta_value m) = Some (h, m).
Proof.
  intros Hh Hm. unfold decode_entry, key_by_hash. cbn [fst snd]. rewrite decide_False.
  - rewrite decode_encode_meta_value by done.
    change (drop 2 (lit "h/" ++ hex_lower h)) with (hex_lower h). unfold decode_hex_32, is_hash in *.
    rewrite decide_True by (unfold len; rewrite length_hex_lower, Hh; done).
    by rewrite decode_pairs_hex_lower by done.
  - intros [Hl|Hp]; [|by rewrite slice_app_start in Hp].
    apply Hl. unfold len. rewrite length_app, length_hex_lower, Hh. done.
Qed.

(** What the database holds for the abstract map [m]. *)
Definition hash_view (m : gmap bytes BlockMeta) : gmap bytes bytes :=
  kmap key_by_hash (encode_meta_value <$> m).
Definition hash_part (kv : gmap bytes bytes) : gmap bytes bytes :=
  filter (fun e => in_key_range (lit "h/") (lit "h0") (fst e)) kv.
Definition slate_repr (i : SlateDbMetadataIndex) (m : gmap bytes BlockMeta) : Prop :=
  (exists kv, db_repr (db i) kv /\ hash_part kv = hash_view m) /\
  map_Forall (fun h meta => is_hash h /\ meta_wf meta) m.

Lemma hash_key_in_range h : in_key_range (lit "h/") (lit "h0") (key_by_hash h).
Proof using. apply hash_key_range. by eexists. Qed.

#[local] Instance key_by_hash_Inj : Inj (=) (=) key_by_hash.
Proof using. intros ??. apply key_by_hash_inj. Qed.

Lemma lookup_hash_view kv m h :
  hash_part kv = hash_view m -> kv !! key_by_hash h = encode_meta_value <$> m !! h.
Proof using.
  intros E. transitivity (hash_view m !! key_by_hash h);
    [|unfold hash_view; by rewrite lookup_kmap, lookup_fmap by apply _].
  rewrite <- E. unfold hash_part. pose proof (hash_key_in_range h) as Hk.
  destruct (kv !! key_by_hash h) as [v|] eqn:Ev; symmetry.
  - by apply map_lookup_filter_Some_2.
  - apply map_lookup_filter_None. by left.
Qed.

Lemma on_db_expect {A} msg (c : M D str A) i d a :
  c (db i) = (d, Ok a) ->
  on_db (expect msg c) i = (mkSlateDbMetadataIndex d (namespace i) (node_id i), Ok a).
Proof using. intros E. unfold on_db, expect. by rewrite E. Qed.

(** Two writes (or deletes) and a flush, none of which fails. *)
Lemma on_db_three (c1 c2 : M D str unit) m1 m2 m3 i d1 d2 d3 :
  c1 (db i) = (d1, Ok tt) -> c2 d1 = (d2, Ok tt) -> db_flush d2 = (d3, Ok tt) ->
  on_db (let! _ := expect m1 c1 in let! _ := expect m2 c2 in expect m3 db_flush) i =
  (mkSlateDbMetadataIndex d3 (namespace i) (node_id i), Ok tt).
Proof using. intros E1 E2 E3. unfold on_db, expect, st_bind. by rewrite E1, E2, E3. Qed.

Lemma put_meta_repr i m h meta :
  slate_repr i m -> is_hash h -> meta_wf meta ->
  exists i', put_meta h meta i = (i', Ok tt) /\ slate_repr i' (<[h := meta]> m).
Proof.
  intros [(kv & Hkv & E) Hf] Hh Hm. unfold put_meta. cbv zeta.
  destruct (db_put_law _ _ (key_by_hash h) (encode_meta_value meta) Hkv) as (d1 & E1 & H1).
  destruct (db_put_law _ _ (key_topological (namespace i) h meta) (encode_meta_value meta) H1) as (d2 & E2 & H2).
  destruct (db_flush_law _ _ H2) as (d3 & E3 & H3).
  eexists. split; [by apply (on_db_three _ _ _ _ _ i d1 d2 d3)|]. split; cbn [db].
  - eexists. split; [done|]. unfold hash_part.
    rewrite map_filter_insert_not by (intros; apply key_topological_range).
    rewrite map_filter_insert_True by apply hash_key_in_range.
    fold (hash_part kv). rewrite E. unfold hash_view. by rewrite fmap_insert, kmap_insert by apply _.
  - by apply map_Forall_insert_2.
Qed.

Lemma read_meta_repr i m h :
  slate_repr i m -> exists i', read_meta h i = (i', Ok (m !! h)) /\ slate_repr i' m /\ namespace i' = namespace i.
Proof.
  intros [(kv & Hkv & E) Hf]. unfold read_meta, st_bind, st_ret.
  destruct (db_get_law _ _ (key_by_hash h) Hkv) as (d1 & E1 & H1).
  rewrite (on_db_expect _ _ _ _ _ E1).
  exists (mkSlateDbMetadataIndex d1 (namespace i) (node_id i)). split; [|split; [split; [by exists kv|done]|done]].
  rewrite (lookup_hash_view _ _ _ E). destruct (m !! h) as [meta|] eqn:Em; [|done].
  cbn. rewrite decode_encode_meta_value; [done|]. by apply (Hf h).
Qed.

Lemma scan_hashes_repr i m :
  slate_repr i m ->
  exists i' l, scan_hashes i = (i', Ok l) /\ slate_repr i' m /\
    l ≡ₚ (fun hm => (key_by_hash (fst hm), encode_meta_value (snd hm))) <$> map_to_list m.
Proof.
  intros [(kv & Hkv & E) Hf]. unfold scan_hashes.
  destruct (db_scan_law _ _ (lit "h/") (lit "h0") Hkv) as (d1 & E1 & H1).
  erewrite on_db_expect by done. eexists _, _. split; [done|]. split; [split; [by exists kv|done]|].
  rewrite btree_entries_perm. fold (hash_part kv). rewrite E. unfold hash_view.
  rewrite map_to_list_kmap by apply _. rewrite map_to_list_fmap, <- list_fmap_compose.
  apply reflexive_eq, list_fmap_ext. by intros ? [? ?].
Qed.

#[global] Program Instance slate_index_laws : MetadataIndexLaws SlateDbMetadataIndex := {|
  idx_repr := slate_repr
|}.
Next Obligation. intros i m now h meta Hr Hn Hh Hm. apply put_meta_repr; [done..|]. by apply touch_wf. Qed.
Next Obligation. intros i m h Hr _. destruct (read_meta_repr i m h Hr) as (i' & ? & ? & _). by exists i'. Qed.
Next Obligation.
  intros i m now h Hr Hn Hh. cbn. unfold get_and_touch, st_bind.
  destruct (read_meta_repr i m h Hr) as (i1 & -> & Hr1 & _).
  destruct (m !! h) as [meta|] eqn:Em; cbn.
  - destruct (put_meta_repr i1 m h (touch now meta)) as (i2 & E2 & Hr2);
      [done..|by apply touch_wf, (proj2 Hr h meta Em)|].
    rewrite E2. exists i2. split; [done|].
    by rewrite (alter_lookup_Some _ _ _ _ Em).
  - exists i1. split; [done|]. by rewrite alter_id by naive_solver.
Qed.
Next Obligation.
  intros i m h Hr Hh. cbn [idx_remove slate_index]. unfold remove. unfold st_bind at 1.
  destruct (read_meta_repr i m h Hr) as (i1 & -> & Hr1 & Hns).
  destruct (m !! h) as [meta|] eqn:Em; cbv beta iota zeta.
  - destruct Hr1 as [(kv & Hkv & E) Hf].
    destruct (db_delete_law _ _ (key_by_hash h) Hkv) as (d1 & E1 & H1).
    destruct (db_delete_law _ _ (key_topological (namespace i1) h meta) H1) as (d2 & E2 & H2).
    destruct (db_flush_law _ _ H2) as (d3 & E3 & H3).
    unfold st_bind at 1. erewrite (on_db_three _ _ _ _ _ i1 d1 d2 d3) by done.
    eexists. split; [done|]. split; cbn [db].
    + eexists. split; [done|]. unfold hash_part. rewrite !map_filter_delete. fold (hash_part kv).
      rewrite (delete_id _ (key_topological _ _ _)).
      * rewrite E. unfold hash_view. by rewrite fmap_delete, kmap_delete by apply _.
      * rewrite lookup_delete_None. right. apply map_lookup_filter_None. right.
        intros ??. apply key_topological_range.
    + by apply map_Forall_delete.
  - exists i1. split; [done|]. by rewrite delete_id.
Qed.
Next Obligation.
  intros i m blocks Hr _. cbn. unfold longest_prefix.
  assert (forall k i, slate_repr i m ->
    exists i', longest_prefix_loop blocks k i = (i', Ok (k + prefix_count m blocks)) /\ slate_repr i' m) as Hloop;
    [|by apply (Hloop 0)].
  clear i Hr. induction blocks as [|h bs IH]; intros k i Hr; cbn [longest_prefix_loop prefix_count].
  { exists i. split; [|done]. unfold st_ret. by rewrite Z.add_0_r. }
  unfold st_bind. destruct (read_meta_repr i m h Hr) as (i1 & -> & Hr1 & _).
  destruct (m !! h); [rewrite Z.add_assoc; by apply IH|]. exists i1. split; [|done].
  unfold st_ret. by rewrite Z.add_0_r.
Qed.
Next Obligation.
  intros i m Hr. cbn. unfold length, st_bind, st_ret.
  destruct (scan_hashes_repr i m Hr) as (i' & l & -> & Hr' & Hl). exists i'. split; [|done].
  unfold len. by rewrite Hl, length_fmap, length_map_to_list.
Qed.
Next Obligation.
  intros i m Hr. cbn. unfold entries, st_bind, st_ret.
  destruct (scan_hashes_repr i m Hr) as (i' & l & -> & Hr' & Hl). eexists i', _. split; [done|].
  split; [|done]. rewrite Hl. destruct Hr as [_ Hf].
  assert (Forall (fun hm => is_hash (fst hm) /\ meta_wf (snd hm)) (map_to_list m)) as Hwf.
  { apply Forall_forall. intros [h meta] Hin%elem_of_map_to_list. by apply (Hf h meta). }
  clear Hl. induction Hwf as [|[h meta] hs [Hh Hm] _ IH]; [done|].
  cbn. rewrite decode_entry_key by done. by constructor.
Qed.
End Slate.

(** ** The two indexes agree *)

(** The calls of the trait. *)
Inductive index_call :=
| CInsert (now : Z) (h : bytes) (m : BlockMeta)
| CGet (h : bytes)
| CGetAndTouch (now : Z) (h : bytes)
| CRemove (h : bytes)
| CLongestPrefix (hs : list bytes)
| CLen
| CEntries.
(** What a call returned, with the panic as an answer of its own. *)
Inductive index_answer :=
| AUnit | AMeta (m : option BlockMeta) | ABool (b : bool) | ANum (n : Z)
| AEntries (l : list (bytes * BlockMeta)) | APanic (msg : str).

(** Arguments within the widths of their Rust types. *)
Definition call_wf (c : index_call) : Prop :=
  match c with
  | CInsert now h m => in_u64 now /\ is_hash h /\ meta_wf m
  | CGet h | CRemove h => is_hash h
  | CGetAndTouch now h => in_u64 now /\ is_hash h
  | CLongestPrefix hs => Forall is_hash hs
  | CLen | CEntries => True
  end.

Definition answer {A} (f : A -> index_answer) (r : result A str) : index_answer :=
  match r with Ok a => f a | Err e => APanic e end.
Definition run_call {I} `{!MetadataIndex I} (c : index_call) (i : I) : I * index_answer :=
  match c with
  | CInsert now h m => let (i', r) := idx_insert now h m i in (i', answer (fun _ => AUnit) r)
  | CGet h => let (i', r) := idx_get h i in (i', answer AMeta r)
  | CGetAndTouch now h => let (i', r) := idx_get_and_touch now h i in (i', answer AMeta r)
  | CRemove h => let (i', r) := idx_remove h i in (i', answer ABool r)
  | CLongestPrefix hs => let (i', r) := idx_longest_prefix hs i in (i', answer ANum r)
  | CLen => let (i', r) := idx_len i in (i', answer ANum r)
  | CEntries => let (i', r) := idx_entries i in (i', answer AEntries r)
  end.
Fixpoint run_calls {I} `{!MetadataIndex I} (cs : list index_call) (i : I) : list index_answer :=
  match cs with
  | [] => []
  | c :: rest => let (i', a) := run_call c i in a :: run_calls rest i'
  end.

(** Answers agree up to the order of a snapshot. *)
Definition same_answer (a b : index_answer) : Prop :=
  match a, b with
  | AEntries l, AEntries k => l ≡ₚ k
  | _, _ => a = b
  end.

Ltac by_law L :=
  let i' := fresh "i'" in let E := fresh "E" in
  edestruct L as (i' & E & ?); [eassumption..|]; rewrite E; clear E.

Lemma run_call_agrees {I J} `{!MetadataIndex I} `{!MetadataIndex J}
    `{!MetadataIndexLaws I} `{!MetadataIndexLaws J} c (i : I) (j : J) m :
  idx_repr i m -> idx_repr j m -> call_wf c ->
  let (i', a) := run_call c i in let (j', b) := run_call c j in
  same_answer a b /\ exists m', idx_repr i' m' /\ idx_repr j' m'.
Proof.
  intros Hi Hj Hc. destruct c; cbn in Hc |- *; destruct_and?.
  1: by_law (law_insert i); by_law (law_insert j).
  2: by_law (law_get i); by_law (law_get j).
  3: by_law (law_get_and_touch i); by_law (law_get_and_touch j).
  4: by_law (law_remove i); by_law (law_remove j).
  5: by_law (law_longest_prefix i); by_law (law_longest_prefix j).
  6: by_law (law_len i); by_law (law_len j).
  7: destruct (law_entries i m Hi) as (i' & l & -> & Hl & ?);
     destruct (law_entries j m Hj) as (j' & k & -> & Hk & ?);
     split; [cbn; by rewrite Hl, Hk|by exists m].
  all: split; [done|by eexists].
Qed.

Lemma run_calls_agree {I J} `{!MetadataIndex I} `{!MetadataIndex J}
    `{!MetadataIndexLaws I} `{!MetadataIndexLaws J} cs (i : I) (j : J) m :
  idx_repr i m -> idx_repr j m -> Forall call_wf cs ->
  Forall2 same_answer (run_calls cs i) (run_calls cs j).
Proof.
  intros Hi Hj Hcs. revert i j m Hi Hj.
  induction Hcs as [|c cs Hc _ IH]; intros i j m Hi Hj; cbn; [constructor|].
  pose proof (run_call_agrees c i j m Hi Hj Hc) as Hstep.
  destruct (run_call c i) as [i' a], (run_call c j) as [j' b].
  destruct Hstep as (Ha & m' & Hi' & Hj'). constructor; [done|]. by apply (IH i' j' m').
Qed.

(** C37: refinement: over a SlateDB that stores what is put, any sequence of
    trait calls gets from the persistent index the answers it gets from the
    in-memory index with the same contents (snapshots up to order), so no call
    panics, whatever namespace the index was opened with. *)
Theorem slate_agrees_with_memory {D} `{!SlateDb D} `{!Rkyv} `{!SlateDbLaws D} `{!RkyvLaws}
    cs (i : SlateDbMetadataIndex (D := D)) m :
  slate_repr i m -> Forall call_wf cs ->
  Forall2 same_answer (run_calls cs i) (run_calls cs (mkInMemoryMetadataIndex m)).
Proof. intros Hi. by apply (run_calls_agree cs i (mkInMemoryMetadataIndex m) m). Qed.

(** A database and codec that meet the laws: a finite map, and the fields in
    their fixed widths. *)
Module Toy.
#[export] Instance toy_db : SlateDb (gmap bytes bytes) := {|
  db_put k v d := (<[k := v]> d, Ok tt);
  db_get k d := (d, Ok (d !! k));
  db_delete k d := (delete k d, Ok tt);
  db_flush d := (d, Ok tt);
  db_scan lo hi d := (d, Ok (btree_entries bytes_cmp (filter (fun kv => in_key_range lo hi (fst kv)) d)))
|}.
#[export] Program Instance toy_db_laws : SlateDbLaws (gmap bytes bytes) := {| db_repr d m := d = m |}.
Solve All Obligations with (cbn; intros; simplify_eq; eexists; split; reflexivity).

#[export] Instance toy_rkyv : Rkyv := {|
  rkyv_to_bytes m :=
    parent_hash m ++ model_digest m ++ layout_tag m ++ le_bytes 4 (block_seq m) ++
    le_bytes 8 (payload_bytes m) ++ le_bytes 8 (last_access_ns m) ++ le_bytes 4 (ext_flags m);
  rkyv_from_bytes b :=
    Some (mkBlockMeta (slice 0 32 b) (le_at 4 72 b) (le_at 8 76 b) (le_at 8 84 b)
                      (slice 32 56 b) (slice 56 72 b) (le_at 4 92 b))
|}.
#[export] Instance toy_rkyv_laws : RkyvLaws.
Proof.
  intros [p s pb la md lt ef] (H1 & H2 & H3 & H4 & H5 & H6 & H7).
  unfold is_hash, in_u32, in_u64 in *. cbn in *.
  assert (len p = 32) by (unfold len; lia). assert (len md = 24) by (unfold len; lia).
  assert (len lt = 16) by (unfold len; lia). do 2 f_equal.
  - by apply slice_app_start.
  - read_le. done.
  - read_le. done.
  - read_le. done.
  - apply slice_app; solve_len.
  - rewrite app_assoc. apply slice_app; solve_len.
  - read_le. done.
Qed.
End Toy.
Import Toy.

Lemma slate_agrees_with_memory_witness :
  let h := replicate 32 x01 in let m := new_root 7 10 (replicate 24 x02) (replicate 16 x03) in
  let cs := [CGet h; CInsert 5 h m; CGetAndTouch 6 h; CLongestPrefix [h]; CEntries; CRemove h; CLen] in
  let i := mkSlateDbMetadataIndex (D := gmap bytes bytes) ∅ (lit "ns") (lit "node") in
  Forall2 same_answer (run_calls cs i) (run_calls cs InMem.new).
Proof.
  intros h m cs i. apply (slate_agrees_with_memory cs i ∅).
  - split; [|apply map_Forall_empty]. exists ∅. split; [reflexivity|]. apply map_filter_empty.
  - repeat constructor; vm_compute; intros; discriminate.
Defined.
