(* ===== verification/ObjectStore.v ===== *)
(** * The object-store boundary ([wal_store.rs], first part)

    Models the trait [ObjectStore] of
    [crates/wombatkv-store/src/wal_store.rs] as a type class, its in-memory
    implementation, the content token of conditional writes, the capability
    cache, the retry loop and the batch policy.  Every operation returns the
    store it leaves, since a remote store may change even when a call fails.

    [ObjectStoreLaws] is the contract the WAL and segment stores are verified
    against.  It is written for stores that fail: a failed write may or may not
    have happened, a failed read says nothing.  [ReliableStore] adds that no
    call fails.  This file discharges both for [InMemoryObjectStore]. *)

From S2P Require Import Prelude Order Text Format.

(** ** Errors and results *)
Inductive WalStoreError :=
| ObjectNotFound (key : str)
| CorruptWal (e : FormatError)
| ObjectStorePoisoned
| InvalidConfig (msg : str)
| S3 (msg : str).
Inductive CasToken := ETag (tag : str) | ContentHash (h : Z).
Inductive ConditionalPutResult :=
| Success | Conflict (current_token : option CasToken) | Unsupported.
Record StoreCapabilities := mkStoreCapabilities { conditional_create : bool; conditional_update : bool }.
Definition default_capabilities : StoreCapabilities := mkStoreCapabilities false false.

#[global] Instance cas_token_eq_dec : EqDecision CasToken.
Proof. solve_decision. Defined.
#[global] Instance conditional_put_result_eq_dec : EqDecision ConditionalPutResult.
Proof. solve_decision. Defined.

(** [content_hash]: 64-bit FNV-1a with wrapping multiplication. *)
Definition FNV_OFFSET : Z := 0xcbf29ce484222325.
Definition FNV_PRIME : Z := 0x00000100000001b3.
Definition content_hash (payload : bytes) : Z :=
  foldl (fun hash b => wrap64 (Z.lxor hash (byte_to_Z b) * FNV_PRIME)) FNV_OFFSET payload.

(** ** The trait *)
Class ObjectStore (S : Type) := {
  put_object (key : str) (payload : bytes) : M S WalStoreError unit;
  put_object_overwrite (key : str) (payload : bytes) : M S WalStoreError unit;
  get_object (key : str) : M S WalStoreError bytes;
  get_object_range (key : str) (start stop : Z) : M S WalStoreError bytes;
  compare_and_swap_object (key : str) (expected : option bytes) (new_payload : bytes) : M S WalStoreError bool;
  read_with_token (key : str) : M S WalStoreError (option (bytes * CasToken));
  put_if_token_matches (key : str) (payload : bytes) (token : CasToken) : M S WalStoreError ConditionalPutResult;
  put_if_absent (key : str) (payload : bytes) : M S WalStoreError ConditionalPutResult;
  capabilities : S -> StoreCapabilities;
  head_object (key : str) : M S WalStoreError bool;
  list_prefix (prefix : str) : M S WalStoreError (list str);
  delete_object (key : str) : M S WalStoreError bool
}.

(** [get_object_many], the trait's default: one [get_object] per key, in order. *)
Fixpoint get_object_many {S} `{!ObjectStore S} (keys : list str) (s : S)
  : S * list (result bytes WalStoreError) :=
  match keys with
  | [] => (s, [])
  | k :: rest =>
      let (s, r) := get_object k s in
      let (s, rs) := get_object_many rest s in
      (s, r :: rs)
  end.

(** The part of [bytes] a range read returns. *)
Definition clamp_range (bs : bytes) (start stop : Z) : bytes :=
  if decide (start >= len bs \/ start >= stop) then [] else slice start (Z.min stop (len bs)) bs.

(** What clients may rely on, whatever fails. *)
Class ObjectStoreLaws (S : Type) `{!ObjectStore S} := {
  contents : S -> gmap str bytes;
  put_object_law k v s s' r :
    put_object k v s = (s', r) ->
    (contents s' = contents s \/ contents s' = <[k := v]> (contents s)) /\
    (r = Ok tt -> contents s !! k = None -> contents s' = <[k := v]> (contents s));
  put_object_overwrite_law k v s s' r :
    put_object_overwrite k v s = (s', r) ->
    (contents s' = contents s \/ contents s' = <[k := v]> (contents s)) /\
    (r = Ok tt -> contents s' = <[k := v]> (contents s));
  get_object_law k s s' r :
    get_object k s = (s', r) ->
    contents s' = contents s /\
    match r with
    | Ok v => contents s !! k = Some v
    | Err (ObjectNotFound _) => contents s !! k = None
    | Err _ => True
    end;
  get_object_range_law k a b s s' r :
    get_object_range k a b s = (s', r) ->
    contents s' = contents s /\
    (forall v, r = Ok v ->
      (a < b -> exists bs, contents s !! k = Some bs /\ v = clamp_range bs a b) /\ (b <= a -> v = []));
  head_object_law k s s' r :
    head_object k s = (s', r) ->
    contents s' = contents s /\ (forall b, r = Ok b -> b = bool_decide (is_Some (contents s !! k)));
  list_prefix_law p s s' r :
    list_prefix p s = (s', r) ->
    contents s' = contents s /\
    (forall ks, r = Ok ks ->
      NoDup ks /\ forall k, k ∈ ks <-> is_Some (contents s !! k) /\ starts_with p k = true);
  put_if_absent_law k v s s' r :
    put_if_absent k v s = (s', r) ->
    (contents s' = contents s \/ contents s !! k = None /\ contents s' = <[k := v]> (contents s)) /\
    (r = Ok Success -> contents s !! k = None /\ contents s' = <[k := v]> (contents s));
  delete_object_law k s s' r :
    delete_object k s = (s', r) ->
    (contents s' = contents s \/ contents s' = delete k (contents s)) /\
    (forall b, r = Ok b -> contents s' = delete k (contents s))
}.

(** Stores whose calls do not fail, [ObjectNotFound] apart. *)
Class ReliableStore (S : Type) `{!ObjectStore S} `{!ObjectStoreLaws S} := {
  reliable : S -> Prop;
  reliable_put k v s : reliable s -> exists s', put_object k v s = (s', Ok tt) /\ reliable s';
  reliable_get k s : reliable s ->
    exists s', get_object k s = (s', ok_or (contents s !! k) (ObjectNotFound k)) /\ reliable s';
  reliable_head k s : reliable s ->
    exists s', head_object k s = (s', Ok (bool_decide (is_Some (contents s !! k)))) /\ reliable s';
  reliable_list p s : reliable s -> exists s' ks, list_prefix p s = (s', Ok ks) /\ reliable s';
  reliable_range k a b s : reliable s -> is_Some (contents s !! k) ->
    exists s' v, get_object_range k a b s = (s', Ok v) /\ reliable s'
}.

(** ** The in-memory store *)

(** [struct InMemoryObjectStore]: the map, and whether its mutex is poisoned. *)
Record InMemoryObjectStore := mkInMemoryObjectStore { inner : gmap str bytes; poisoned : bool }.
Definition in_memory_default : InMemoryObjectStore := mkInMemoryObjectStore ∅ false.

(** [self.inner.lock().map_err(|_| WalStoreError::ObjectStorePoisoned)?], then a
    computation on the map. *)
Definition locked {A} (f : gmap str bytes -> gmap str bytes * result A WalStoreError)
  : M InMemoryObjectStore WalStoreError A :=
  fun s =>
    if poisoned s then (s, Err ObjectStorePoisoned)
    else let (m, r) := f (inner s) in (mkInMemoryObjectStore m false, r).

Module InMemStore.
(** [guard.entry(key).or_insert_with(..)] *)
Definition put_object (key : str) (payload : bytes) :=
  locked (fun m => (match m !! key with Some _ => m | None => <[key := payload]> m end, Ok tt)).
Definition put_object_overwrite (key : str) (payload : bytes) :=
  locked (fun m => (<[key := payload]> m, Ok tt)).
Definition get_object (key : str) := locked (fun m => (m, ok_or (m !! key) (ObjectNotFound key))).
Definition get_object_range (key : str) (start stop : Z) :=
  locked (fun m =>
    (m, let? bs := ok_or (m !! key) (ObjectNotFound key) in
        if decide (start >= len bs \/ start >= stop) then Ok []
        else Ok (slice start (Z.min stop (len bs)) bs))).
Definition compare_and_swap_object (key : str) (expected : option bytes) (new_payload : bytes) :=
  locked (fun m =>
    if decide (m !! key = expected) then (<[key := new_payload]> m, Ok true) else (m, Ok false)).
Definition read_with_token (key : str) :=
  locked (fun m =>
    (m, Ok (match m !! key with
            | None => None
            | Some payload => Some (payload, ContentHash (content_hash payload))
            end))).
Definition put_if_token_matches (key : str) (payload : bytes) (token : CasToken) :=
  locked (fun m =>
    match m !! key with
    | None => (m, Ok (Conflict None))
    | Some current =>
        let current_token := ContentHash (content_hash current) in
        if decide (current_token = token) then (<[key := payload]> m, Ok Success)
        else (m, Ok (Conflict (Some current_token)))
    end).
Definition put_if_absent (key : str) (payload : bytes) :=
  locked (fun m =>
    match m !! key with
    | Some current => (m, Ok (Conflict (Some (ContentHash (content_hash current)))))
    | None => (<[key := payload]> m, Ok Success)
    end).
Definition capabilities (s : InMemoryObjectStore) : StoreCapabilities := mkStoreCapabilities true true.
Definition head_object (key : str) := locked (fun m => (m, Ok (bool_decide (is_Some (m !! key))))).
Definition list_prefix (prefix : str) :=
  locked (fun m => (m, Ok (filter (fun k => starts_with prefix k = true) (btree_keys bytes_cmp m)))).
Definition delete_object (key : str) :=
  locked (fun m => (delete key m, Ok (bool_decide (is_Some (m !! key))))).
End InMemStore.

#[global] Instance in_memory_object_store : ObjectStore InMemoryObjectStore := {|
  put_object := InMemStore.put_object;
  put_object_overwrite := InMemStore.put_object_overwrite;
  get_object := InMemStore.get_object;
  get_object_range := InMemStore.get_object_range;
  compare_and_swap_object := InMemStore.compare_and_swap_object;
  read_with_token := InMemStore.read_with_token;
  put_if_token_matches := InMemStore.put_if_token_matches;
  put_if_absent := InMemStore.put_if_absent;
  capabilities := InMemStore.capabilities;
  head_object := InMemStore.head_object;
  list_prefix := InMemStore.list_prefix;
  delete_object := InMemStore.delete_object
|}.

(** Split a call on the in-memory store by the state of its mutex. *)
Ltac in_memory :=
  cbv [put_object put_object_overwrite get_object get_object_range head_object list_prefix put_if_absent
       delete_object in_memory_object_store InMemStore.put_object InMemStore.put_object_overwrite
       InMemStore.get_object InMemStore.get_object_range InMemStore.head_object InMemStore.list_prefix
       InMemStore.put_if_absent InMemStore.delete_object InMemStore.compare_and_swap_object
       InMemStore.read_with_token InMemStore.put_if_token_matches].
Ltac unlock :=
  in_memory;
  lazymatch goal with
  | |- locked _ ?s = _ -> _ =>
      let m := fresh "m" in let p := fresh "p" in
      destruct s as [m p]; unfold locked; cbn [poisoned inner];
      destruct p; cbv beta iota;
      [intros [= <- <-]; cbn [inner]|]
  end.

#[global] Program Instance in_memory_object_store_laws : ObjectStoreLaws InMemoryObjectStore := {|
  contents := inner
|}.
Next Obligation.
  intros k v s s' r. unlock; [by split; [left|]|]. intros [= <- <-]. cbn [inner].
  destruct (m !! k) eqn:E; [by split; [left|]|]. split; [by right|done].
Qed.
Next Obligation.
  intros k v s s' r. unlock; [by split; [left|]|]. intros [= <- <-]. cbn [inner]. split; [by right|done].
Qed.
Next Obligation.
  intros k s s' r. unlock; [done|]. intros [= <- <-]. cbn [inner]. split; [done|].
  by destruct (m !! k) eqn:E; cbn.
Qed.
Next Obligation.
  intros k a b s s' r. unlock; [done|]. intros [= <- <-]. cbn [inner]. split; [done|].
  intros v Hv. destruct (m !! k) as [bs|] eqn:E; [|done]. revert Hv. run_res. intros Hv. split.
  - intros Hab. exists bs. split; [done|]. revert Hv. unfold clamp_range. case_decide; congruence.
  - intros Hba. revert Hv. rewrite decide_True by lia. congruence.
Qed.
Next Obligation.
  intros k s s' r. unlock; [done|]. intros [= <- <-]. cbn [inner]. split; [done|]. by intros b [= <-].
Qed.
Next Obligation.
  intros p s s' r. unlock; [done|]. intros [= <- <-]. cbn [inner]. split; [done|].
  intros ks [= <-]. split; [apply NoDup_filter, NoDup_btree_keys|].
  intros k. rewrite list_elem_of_filter, elem_of_btree_keys. naive_solver.
Qed.
Next Obligation.
  intros k v s s' r. unlock; [by split; [left|]|].
  destruct (m !! k) eqn:E; intros [= <- <-]; cbn [inner]; [by split; [left|]|]. split; [by right|done].
Qed.
Next Obligation.
  intros k s s' r. unlock; [by split; [left|]|]. intros [= <- <-]. cbn [inner]. split; [by right|done].
Qed.

#[global] Program Instance in_memory_object_store_reliable : ReliableStore InMemoryObjectStore := {|
  reliable s := poisoned s = false
|}.
Next Obligation. intros k v [m []] [=]. by eexists. Qed.
Next Obligation. intros k [m []] [=]. by eexists. Qed.
Next Obligation. intros k [m []] [=]. by eexists. Qed.
Next Obligation. intros p [m []] [=]. by eexists _, _. Qed.
Next Obligation.
  intros k a b [m []] [=] [v Hv]. cbn in Hv |- *. unfold InMemStore.get_object_range, locked. cbn.
  rewrite Hv. run_res. case_decide; by eexists _, _.
Qed.

(** ** Conditional writes *)



(** ** The capability cache and the retry loop *)

(** [CapabilityCache::get_or_probe]; the probe may use the store and fail. *)
Record CapabilityCache := mkCapabilityCache { cache_entries : gmap str StoreCapabilities; cache_poisoned : bool }.
Definition get_or_probe {W} (cache_key : str) (probe : M W WalStoreError StoreCapabilities)
  : M (CapabilityCache * W) WalStoreError StoreCapabilities :=
  fun '(cache, w) =>
    if cache_poisoned cache then ((cache, w), Err ObjectStorePoisoned)
    else match cache_entries cache !! cache_key with
         | Some cached => ((cache, w), Ok cached)
         | None =>
             let (w, r) := probe w in
             match r with
             | Err e => ((cache, w), Err e)
             | Ok probed =>
                 ((mkCapabilityCache (<[cache_key := probed]> (cache_entries cache)) false, w), Ok probed)
             end
         end.

(** [retry_with_backoff]: [n] attempts left, [last_error] the error so far; the
    sleeps between attempts take time only. *)
Fixpoint retry_loop {W A} (n : nat) (operation : M W WalStoreError A) (last_error : option WalStoreError)
  : M W WalStoreError A :=
  match n with
  | O => fun w => (w, Err (match last_error with Some e => e | None => S3 (lit "unknown retry failure") end))
  | S n' => fun w =>
      let (w, r) := operation w in
      match r with
      | Ok value => (w, Ok value)
      | Err err => retry_loop n' operation (Some err) w
      end
  end.
Definition retry_with_backoff {W A} (max_retries : Z) (operation : M W WalStoreError A) : M W WalStoreError A :=
  retry_loop (Z.to_nat (Z.min (max_retries + 1) u32_max)) operation None.

(** The state after [k] attempts that all fail, with the last error. *)
Fixpoint failed_attempts {W A} (k : nat) (operation : M W WalStoreError A) (w : W) (e : option WalStoreError)
  : option (W * option WalStoreError) :=
  match k with
  | O => Some (w, e)
  | S k' => match operation w with
            | (w', Err err) => failed_attempts k' operation w' (Some err)
            | (_, Ok _) => None
            end
  end.

Lemma retry_loop_spec {W A} (operation : M W WalStoreError A) n e w :
  match retry_loop n operation e w with
  | (w', Ok a) => exists k wk ek, (k < n)%nat /\ failed_attempts k operation w e = Some (wk, ek) /\
                                  operation wk = (w', Ok a)
  | (w', Err err) => exists en, failed_attempts n operation w e = Some (w', en) /\
                                err = default (S3 (lit "unknown retry failure")) en
  end.
Proof.
  revert e w. induction n as [|n IH]; intros e w; cbn [retry_loop failed_attempts].
  { exists e. by destruct e. }
  destruct (operation w) as [w1 [a|err]] eqn:E.
  { exists 0%nat, w, e. split; [lia|done]. }
  specialize (IH (Some err) w1). destruct (retry_loop n operation (Some err) w1) as [w' [a|err']].
  - destruct IH as (k & wk & ek & Hk & Hf & Ho). exists (S k), wk, ek. split; [lia|]. cbn. by rewrite E.
  - done.
Qed.

(** Retrying makes between one and [max_retries + 1] attempts and stops at
    the first success: it returns the value of the [k]-th attempt, the [k] before
    it having failed, or, when all attempts failed, the error of the last one. *)
Theorem retry_with_backoff_spec {W A} (operation : M W WalStoreError A) max_retries w :
  0 <= max_retries < u32_max ->
  match retry_with_backoff max_retries operation w with
  | (w', Ok a) => exists k wk ek, Z.of_nat k <= max_retries /\
                    failed_attempts k operation w None = Some (wk, ek) /\ operation wk = (w', Ok a)
  | (w', Err err) => failed_attempts (Z.to_nat (max_retries + 1)) operation w None = Some (w', Some err)
  end.
Proof.
  intros Hm. unfold retry_with_backoff. rewrite Z.min_l by lia.
  pose proof (retry_loop_spec operation (Z.to_nat (max_retries + 1)) None w) as Hs.
  destruct (retry_loop _ _ _ _) as [w' [a|err]].
  - destruct Hs as (k & wk & ek & Hk & Hf & Ho). exists k, wk, ek. split; [lia|done].
  - destruct Hs as (en & Hf & ->). rewrite Hf. f_equal. f_equal.
    destruct (Z.to_nat (max_retries + 1)) as [|n] eqn:En; [lia|]. clear En Hm.
    destruct en; [done|]. exfalso. cbn in Hf.
    destruct (operation w) as [w1 [a|e1]]; [done|].
    assert (forall n w e, failed_attempts n operation w (Some e) <> Some (w', None)) as Hne; [|by apply Hne in Hf].
    clear. intros n. induction n as [|n IH]; intros w e; cbn; [done|].
    destruct (operation w) as [w1 [a|e1]]; [done|]. apply IH.
Qed.

(** Succeeds from the third attempt on. *)
Definition flaky : M nat WalStoreError str :=
  fun n => (S n, if decide (2 <= n)%nat then Ok (lit "ok") else Err (S3 (lit "slow down"))).
Lemma retry_with_backoff_spec_witness :
  match retry_with_backoff 2 flaky 0%nat with
  | (w', Ok a) => exists k wk ek, Z.of_nat k <= 2 /\
                    failed_attempts k flaky 0%nat None = Some (wk, ek) /\ flaky wk = (w', Ok a)
  | (w', Err err) => failed_attempts (Z.to_nat (2 + 1)) flaky 0%nat None = Some (w', Some err)
  end.
Proof. apply (retry_with_backoff_spec flaky 2 0%nat). lia. Defined.

Example retry_succeeds_on_third : retry_with_backoff 2 flaky 0%nat = (3%nat, Ok (lit "ok")).
Proof. reflexivity. Qed.
