(* ===== verification/WalKeys.v ===== *)
(** * WAL object keys ([wal_store.rs])

    Models the key functions of [crates/wombatkv-store/src/wal_store.rs]: the
    node-id sanitiser, the canonical single-record and batch key builders, the
    parsers of canonical and legacy keys, the replay order of keys, the layout
    audit, and the sequence number a key contributes to recovery.

    The theorems show that parsing inverts building, that distinct coordinates
    get distinct keys, that the replay order is a strict total order which sorts
    canonical keys by sequence number and then by epoch, and that the audit
    classifies every key of the namespace exactly once. *)

From S2P Require Import Prelude Order Text.

Definition DEFAULT_NODE_ID : str := lit "node-local".

Inductive WalKeyLayout := CanonicalEpochPartitioned | LegacyFlat.
Inductive WalObjectKind := Single | Batch.
Record WalLayoutAuditCounts := mkWalLayoutAuditCounts {
  total_keys : Z; canonical_keys : Z; legacy_keys : Z; unknown_keys : Z
}.
Record ParsedWalObjectKey := mkParsedWalObjectKey {
  layout : WalKeyLayout; kind : WalObjectKind; start_seq : Z; end_seq : Z; node_id : str
}.

(** [ch.is_ascii_alphanumeric() || ch == '-'] on the UTF-8 bytes of a string: a
    multi-byte character contributes one [-], at its leading byte. *)
Fixpoint sanitize_chars (s : str) : str :=
  match s with
  | [] => []
  | c :: rest =>
      if decide (128 <= byte_to_Z c <= 191) then sanitize_chars rest
      else if is_ascii_alphanumeric c || bool_decide (c = "-"%byte) then c :: sanitize_chars rest
      else "-"%byte :: sanitize_chars rest
  end.
Definition sanitize_node_id (id : str) : str :=
  match sanitize_chars id with
  | [] => DEFAULT_NODE_ID
  | sanitized => sanitized
  end.

Definition build_canonical_wal_key (namespace_prefix id : str) (epoch_ms seq : Z) : str :=
  namespace_prefix ++ lit "/" ++ pad20 epoch_ms ++ lit "/chunk-" ++ id ++ lit "-" ++ pad20 seq ++ lit ".bin".
Definition build_canonical_wal_batch_key (namespace_prefix id : str) (epoch_ms start stop : Z) : str :=
  namespace_prefix ++ lit "/" ++ pad20 epoch_ms ++ lit "/batch-" ++ id ++ lit "-" ++ pad20 start
    ++ lit "-" ++ pad20 stop ++ lit ".bin".

Definition is_under_namespace (namespace_prefix key : str) : bool :=
  starts_with (namespace_prefix ++ lit "/") key.

Definition parse_node_seq_filename (filename : str) : option (str * Z) :=
  stem ← strip_prefix (lit "chunk-") filename;
  stem ← strip_suffix (lit ".bin") stem;
  '(candidate_node, seq_part) ← rsplit_once "-"%byte stem;
  if decide (candidate_node = []) then None
  else seq ← parse_u64 seq_part; Some (candidate_node, seq).

(** [stem.rsplitn(3, '-')]: the last two fields and what is left of them. *)
Definition parse_batch_seq_filename (filename : str) : option (str * Z * Z) :=
  stem ← strip_prefix (lit "batch-") filename;
  stem ← strip_suffix (lit ".bin") stem;
  '(rest, end_part) ← rsplit_once "-"%byte stem;
  stop ← parse_u64 end_part;
  '(id, start_part) ← rsplit_once "-"%byte rest;
  start ← parse_u64 start_part;
  if decide (id = []) then None else Some (id, start, stop).

Definition parse_filename_to_parsed_key (filename : str) (l : WalKeyLayout) : option ParsedWalObjectKey :=
  match parse_node_seq_filename filename with
  | Some (id, seq) => Some (mkParsedWalObjectKey l Single seq seq id)
  | None =>
      match parse_batch_seq_filename filename with
      | Some (id, start, stop) => Some (mkParsedWalObjectKey l Batch start stop id)
      | None => None
      end
  end.

Definition parse_canonical_tail (tail : str) : option (Z * ParsedWalObjectKey) :=
  '(epoch_part, filename) ← split_once "/"%byte tail;
  if decide (epoch_part = []) then None
  else if forallb is_ascii_digit epoch_part then
    epoch_ms ← parse_u64 epoch_part;
    parsed ← parse_filename_to_parsed_key filename CanonicalEpochPartitioned;
    Some (epoch_ms, parsed)
  else None.

Definition parse_legacy_default_filename (filename : str) : option Z :=
  stem ← strip_prefix (lit "chunk-") filename;
  stem ← strip_suffix (lit ".bin") stem;
  parse_u64 stem.

Definition parse_wal_object_key (namespace_prefix key : str) : option ParsedWalObjectKey :=
  tail ← strip_prefix (namespace_prefix ++ lit "/") key;
  match parse_canonical_tail tail with
  | Some (_, parsed) => Some parsed
  | None =>
      match parse_filename_to_parsed_key tail LegacyFlat with
      | Some parsed => Some parsed
      | None =>
          seq ← parse_legacy_default_filename tail;
          Some (mkParsedWalObjectKey LegacyFlat Single seq seq DEFAULT_NODE_ID)
      end
  end.

Definition compare_wal_object_keys (namespace_prefix left right : str) : comparison :=
  match parse_wal_object_key namespace_prefix left, parse_wal_object_key namespace_prefix right with
  | Some l, Some r => then_with (Z.compare (start_seq l) (start_seq r)) (bytes_cmp left right)
  | Some _, None => Lt
  | None, Some _ => Gt
  | None, None => bytes_cmp left right
  end.

(** One turn of the audit loop. *)
Definition audit_step (namespace_prefix : str) (c : WalLayoutAuditCounts) (key : str) : WalLayoutAuditCounts :=
  if is_under_namespace namespace_prefix key then
    let total := saturating_add (total_keys c) 1 in
    match parse_wal_object_key namespace_prefix key with
    | Some parsed =>
        match layout parsed with
        | CanonicalEpochPartitioned =>
            mkWalLayoutAuditCounts total (saturating_add (canonical_keys c) 1) (legacy_keys c) (unknown_keys c)
        | LegacyFlat =>
            mkWalLayoutAuditCounts total (canonical_keys c) (saturating_add (legacy_keys c) 1) (unknown_keys c)
        end
    | None => mkWalLayoutAuditCounts total (canonical_keys c) (legacy_keys c) (saturating_add (unknown_keys c) 1)
    end
  else c.
Definition audit_wal_layout_counts (namespace_prefix : str) (keys : list str) : WalLayoutAuditCounts :=
  foldl (audit_step namespace_prefix) (mkWalLayoutAuditCounts 0 0 0 0) keys.

Definition parse_seq_for_node (namespace_prefix id key : str) : option Z :=
  parsed ← parse_wal_object_key namespace_prefix key;
  if decide (node_id parsed = id) then Some (end_seq parsed) else None.

(** ** Parsing inverts building *)
Lemma pad20_no c z : is_ascii_digit c = false -> c ∉ pad20 z.
Proof. apply dec_fixed_no. Qed.

Lemma pad20_all_digits z : forallb is_ascii_digit (pad20 z) = true.
Proof.
  apply forallb_forall. intros c Hc%list_elem_of_In.
  pose proof (dec_fixed_digits 20 z) as Hd. rewrite Forall_forall in Hd. by apply Hd.
Qed.

Lemma sanitize_node_id_nonempty id : sanitize_node_id id <> [].
Proof. unfold sanitize_node_id. by destruct (sanitize_chars id). Qed.

Lemma parse_chunk_filename id seq :
  id <> [] -> in_u64 seq ->
  parse_node_seq_filename (lit "chunk-" ++ id ++ lit "-" ++ pad20 seq ++ lit ".bin") = Some (id, seq).
Proof.
  intros Hid Hs. unfold parse_node_seq_filename. rewrite strip_prefix_app. cbn [mbind option_bind].
  replace (id ++ lit "-" ++ pad20 seq ++ lit ".bin") with ((id ++ "-"%byte :: pad20 seq) ++ lit ".bin")
    by by rewrite <- app_assoc.
  rewrite strip_suffix_app. cbn [mbind option_bind]. rewrite rsplit_once_app by by apply pad20_no.
  cbn [mbind option_bind]. rewrite decide_False by done. by rewrite parse_pad20.
Qed.

Lemma parse_batch_filename id a b :
  id <> [] -> in_u64 a -> in_u64 b ->
  parse_batch_seq_filename (lit "batch-" ++ id ++ lit "-" ++ pad20 a ++ lit "-" ++ pad20 b ++ lit ".bin")
  = Some (id, a, b).
Proof.
  intros Hid Ha Hb. unfold parse_batch_seq_filename. rewrite strip_prefix_app. cbn [mbind option_bind].
  replace (id ++ lit "-" ++ pad20 a ++ lit "-" ++ pad20 b ++ lit ".bin")
    with (((id ++ "-"%byte :: pad20 a) ++ "-"%byte :: pad20 b) ++ lit ".bin")
    by by rewrite <- !app_assoc.
  rewrite strip_suffix_app. cbn [mbind option_bind]. rewrite rsplit_once_app by by apply pad20_no.
  cbn [mbind option_bind]. rewrite parse_pad20 by done. cbn [mbind option_bind].
  rewrite rsplit_once_app by by apply pad20_no. cbn [mbind option_bind].
  rewrite parse_pad20 by done. cbn [mbind option_bind]. by rewrite decide_False.
Qed.

(** The two file names, after the slash that closes the epoch. *)
Definition chunk_name (id : str) (seq : Z) : str := lit "chunk-" ++ id ++ lit "-" ++ pad20 seq ++ lit ".bin".
Definition batch_name (id : str) (a b : Z) : str :=
  lit "batch-" ++ id ++ lit "-" ++ pad20 a ++ lit "-" ++ pad20 b ++ lit ".bin".
Definition epoch_key (ns : str) (epoch : Z) (name : str) : str :=
  (ns ++ lit "/") ++ pad20 epoch ++ "/"%byte :: name.

Lemma build_key_epoch ns id e s : build_canonical_wal_key ns id e s = epoch_key ns e (chunk_name id s).
Proof. unfold build_canonical_wal_key, epoch_key, chunk_name. by rewrite <- !app_assoc. Qed.
Lemma build_batch_key_epoch ns id e a b :
  build_canonical_wal_batch_key ns id e a b = epoch_key ns e (batch_name id a b).
Proof. unfold build_canonical_wal_batch_key, epoch_key, batch_name. by rewrite <- !app_assoc. Qed.

Lemma parse_epoch_key ns e name p :
  in_u64 e -> parse_filename_to_parsed_key name CanonicalEpochPartitioned = Some p ->
  parse_canonical_tail (pad20 e ++ "/"%byte :: name) = Some (e, p) /\
  parse_wal_object_key ns (epoch_key ns e name) = Some p.
Proof.
  intros He Hp.
  assert (parse_canonical_tail (pad20 e ++ "/"%byte :: name) = Some (e, p)) as Ht.
  { unfold parse_canonical_tail. rewrite split_once_app by by apply pad20_no. cbn [mbind option_bind].
    rewrite decide_False by apply pad20_nonempty. rewrite pad20_all_digits, parse_pad20 by done.
    cbn [mbind option_bind]. by rewrite Hp. }
  split; [done|]. unfold parse_wal_object_key, epoch_key. rewrite strip_prefix_app. cbn [mbind option_bind].
  by rewrite Ht.
Qed.

Lemma parse_chunk_name id s l :
  id <> [] -> in_u64 s ->
  parse_filename_to_parsed_key (chunk_name id s) l = Some (mkParsedWalObjectKey l Single s s id).
Proof. intros. unfold parse_filename_to_parsed_key, chunk_name. by rewrite parse_chunk_filename. Qed.

Lemma parse_batch_name id a b l :
  id <> [] -> in_u64 a -> in_u64 b ->
  parse_filename_to_parsed_key (batch_name id a b) l = Some (mkParsedWalObjectKey l Batch a b id).
Proof.
  intros. unfold parse_filename_to_parsed_key, batch_name. rewrite parse_batch_filename by done.
  assert (parse_node_seq_filename (lit "batch-" ++ id ++ lit "-" ++ pad20 a ++ lit "-" ++ pad20 b ++ lit ".bin")
          = None) as -> by done.
  done.
Qed.

Lemma parse_chunk_key ns id e s :
  id <> [] -> in_u64 e -> in_u64 s ->
  parse_wal_object_key ns (build_canonical_wal_key ns id e s) =
  Some (mkParsedWalObjectKey CanonicalEpochPartitioned Single s s id).
Proof. intros. rewrite build_key_epoch. apply parse_epoch_key; [done|]. by apply parse_chunk_name. Qed.

Lemma parse_batch_key ns id e a b :
  id <> [] -> in_u64 e -> in_u64 a -> in_u64 b ->
  parse_wal_object_key ns (build_canonical_wal_batch_key ns id e a b) =
  Some (mkParsedWalObjectKey CanonicalEpochPartitioned Batch a b id).
Proof. intros. rewrite build_batch_key_epoch. apply parse_epoch_key; [done|]. by apply parse_batch_name. Qed.

Lemma epoch_key_inj ns e e' n n' :
  in_u64 e -> in_u64 e' -> epoch_key ns e n = epoch_key ns e' n' -> e = e' /\ n = n'.
Proof.
  intros He He' E. unfold epoch_key in E. apply app_inv_head in E.
  apply split_unique in E as [E ->]; [|by apply pad20_no..]. split; [by apply pad20_inj|done].
Qed.

(** Canonical keys parse back to the coordinates they were built from, for
    any namespace and any non-empty node id, dashes and slashes included, and so
    keys of distinct coordinates are distinct, single keys from batch keys too;
    sanitised node ids are never empty. *)
Theorem wal_keys_roundtrip ns id id' e e' s s' t t' :
  id <> [] -> id' <> [] -> in_u64 e -> in_u64 e' -> in_u64 s -> in_u64 s' -> in_u64 t -> in_u64 t' ->
  parse_wal_object_key ns (build_canonical_wal_key ns id e s) =
    Some (mkParsedWalObjectKey CanonicalEpochPartitioned Single s s id) /\
  parse_wal_object_key ns (build_canonical_wal_batch_key ns id e s t) =
    Some (mkParsedWalObjectKey CanonicalEpochPartitioned Batch s t id) /\
  (build_canonical_wal_key ns id e s = build_canonical_wal_key ns id' e' s' <->
   id = id' /\ e = e' /\ s = s') /\
  (build_canonical_wal_batch_key ns id e s t = build_canonical_wal_batch_key ns id' e' s' t' <->
   id = id' /\ e = e' /\ s = s' /\ t = t') /\
  build_canonical_wal_key ns id e s <> build_canonical_wal_batch_key ns id' e' s' t' /\
  sanitize_node_id id <> [].
Proof.
  intros Hi Hi' He He' Hs Hs' Ht Ht'.
  pose proof (parse_chunk_key ns id e s Hi He Hs) as P1.
  pose proof (parse_chunk_key ns id' e' s' Hi' He' Hs') as P1'.
  pose proof (parse_batch_key ns id e s t Hi He Hs Ht) as P2.
  pose proof (parse_batch_key ns id' e' s' t' Hi' He' Hs' Ht') as P2'.
  split; [done|]. split; [done|]. split; [|split; [|split; [|apply sanitize_node_id_nonempty]]].
  - split; [|by intros (-> & -> & ->)]. intros E. pose proof E as E'. rewrite !build_key_epoch in E'.
    apply epoch_key_inj in E' as [-> _]; [|done..]. rewrite E, P1' in P1. by simplify_eq.
  - split; [|by intros (-> & -> & -> & ->)]. intros E. pose proof E as E'. rewrite !build_batch_key_epoch in E'.
    apply epoch_key_inj in E' as [-> _]; [|done..]. rewrite E, P2' in P2. by simplify_eq.
  - intros E. rewrite E, P2' in P1. by simplify_eq.
Qed.

Lemma wal_keys_roundtrip_witness :
  let ns := lit "wal/tenant-a/fp" in let id := lit "node-7" in
  parse_wal_object_key ns (build_canonical_wal_key ns id 1700 42) =
    Some (mkParsedWalObjectKey CanonicalEpochPartitioned Single 42 42 id).
Proof.
  intros ns id.
  apply (wal_keys_roundtrip ns id id 1700 0 42 0 0 0); (discriminate || (unfold in_u64; lia)).
Defined.

(** ** The replay order *)
#[global] Instance compare_wal_object_keys_strict ns : StrictCmp (compare_wal_object_keys ns).
Proof.
  split; [split|].
  - intros x y. unfold compare_wal_object_keys.
    destruct (parse_wal_object_key ns x), (parse_wal_object_key ns y); try done.
    + rewrite (Z.compare_antisym (start_seq p) (start_seq p0)), (cmp_antisym bytes_cmp x y).
      by destruct (Z.compare _ _), (bytes_cmp x y).
    + apply (cmp_antisym bytes_cmp).
  - intros x y z. unfold compare_wal_object_keys.
    destruct (parse_wal_object_key ns x) as [p|], (parse_wal_object_key ns y) as [q|],
      (parse_wal_object_key ns z) as [r|]; try done.
    + pose proof (cmp_trans (pair_cmp Z.compare bytes_cmp) (start_seq p, x) (start_seq q, y) (start_seq r, z)) as H.
      unfold pair_cmp in H. cbn [fst snd] in H. exact H.
    + apply (cmp_trans bytes_cmp).
  - intros x y. unfold compare_wal_object_keys.
    destruct (parse_wal_object_key ns x), (parse_wal_object_key ns y); try done.
    + destruct (Z.compare _ _); cbn [then_with]; try done. apply (cmp_eq bytes_cmp).
    + apply (cmp_eq bytes_cmp).
Qed.

Lemma bytes_cmp_app p x y : bytes_cmp (p ++ x) (p ++ y) = bytes_cmp x y.
Proof.
  unfold bytes_cmp. rewrite list_cmp_app by done. by rewrite (cmp_refl (list_cmp byte_cmp)).
Qed.

(** Keys that parse order by first sequence number, then by epoch. *)
Lemma compare_epoch_keys ns e e' n n' p p' :
  in_u64 e -> in_u64 e' ->
  parse_wal_object_key ns (epoch_key ns e n) = Some p ->
  parse_wal_object_key ns (epoch_key ns e' n') = Some p' ->
  (start_seq p < start_seq p' \/ start_seq p = start_seq p' /\ e < e') ->
  compare_wal_object_keys ns (epoch_key ns e n) (epoch_key ns e' n') = Lt.
Proof.
  intros He He' Hp Hp' Hlt. unfold compare_wal_object_keys. rewrite Hp, Hp'.
  destruct Hlt as [Hlt|[Heq Hlt]].
  - by rewrite (proj2 (Z.compare_lt_iff _ _) Hlt).
  - rewrite Heq, Z.compare_refl. cbn [then_with]. unfold epoch_key. rewrite bytes_cmp_app. unfold bytes_cmp.
    rewrite list_cmp_app by (unfold pad20; by rewrite !length_dec_fixed). fold bytes_cmp.
    rewrite pad20_cmp by done. by rewrite (proj2 (Z.compare_lt_iff _ _) Hlt).
Qed.

(** ** The audit *)
Definition layout_count (ns : str) (P : option ParsedWalObjectKey -> bool) (keys : list str) : Z :=
  len (filter (fun k => is_under_namespace ns k = true /\ P (parse_wal_object_key ns k) = true) keys).
Definition is_canonical (p : option ParsedWalObjectKey) : bool :=
  match p with Some q => match layout q with CanonicalEpochPartitioned => true | _ => false end | None => false end.
Definition is_legacy (p : option ParsedWalObjectKey) : bool :=
  match p with Some q => match layout q with LegacyFlat => true | _ => false end | None => false end.
Definition is_unknown (p : option ParsedWalObjectKey) : bool := match p with Some _ => false | None => true end.

Lemma layout_count_snoc ns P keys k :
  layout_count ns P (keys ++ [k]) =
  layout_count ns P keys +
  (if is_under_namespace ns k && P (parse_wal_object_key ns k) then 1 else 0).
Proof.
  unfold layout_count. rewrite filter_app, len_app, filter_cons, filter_nil.
  destruct (is_under_namespace ns k), (P (parse_wal_object_key ns k)); cbn [andb];
    (case_decide as H; [|]); try (destruct H; congruence); try done; exfalso; apply H; done.
Qed.

(** The audit counts every key under the namespace exactly once, by its
    parsed layout: the total is the sum of canonical, legacy and unknown keys,
    and each counter is the number of keys of that layout. *)
Theorem audit_partitions_namespace ns keys :
  len keys <= u64_max ->
  let c := audit_wal_layout_counts ns keys in
  total_keys c = canonical_keys c + legacy_keys c + unknown_keys c /\
  total_keys c = len (filter (fun k => is_under_namespace ns k = true) keys) /\
  canonical_keys c = layout_count ns is_canonical keys /\
  legacy_keys c = layout_count ns is_legacy keys /\
  unknown_keys c = layout_count ns is_unknown keys.
Proof.
  intros Hl. cbv zeta.
  induction keys as [|k keys IH] using rev_ind; [done|].
  unfold audit_wal_layout_counts in *. rewrite foldl_app. cbn [foldl].
  rewrite !layout_count_snoc, filter_app, filter_cons, filter_nil, len_app.
  rewrite len_app, len_cons in Hl. pose proof (len_nonneg keys).
  destruct IH as (I1 & I2 & I3 & I4 & I5); [unfold len in *; cbn in *; lia|].
  pose proof (len_nonneg (filter (fun k => is_under_namespace ns k = true) keys)).
  assert (len (filter (fun k => is_under_namespace ns k = true) keys) <= len keys)
    by (unfold len; pose proof (length_filter (fun k => is_under_namespace ns k = true) keys); lia).
  set (c := foldl _ _ _) in *. unfold audit_step.
  destruct (is_under_namespace ns k); [rewrite decide_True by done|rewrite decide_False by done; cbn; unfold len in *; cbn; lia].
  unfold layout_count in *.
  assert (forall P, 0 <= len (filter (fun k => is_under_namespace ns k = true /\ P (parse_wal_object_key ns k) = true) keys))
    as Hnn by (intros; apply len_nonneg).
  pose proof (Hnn is_canonical). pose proof (Hnn is_legacy). pose proof (Hnn is_unknown).
  destruct (parse_wal_object_key ns k) as [[[] kd a b nd]|]; unfold saturating_add;
    cbn [is_canonical is_legacy is_unknown layout total_keys canonical_keys legacy_keys unknown_keys andb];
    rewrite len_cons; unfold len in *; cbn in *; lia.
Qed.

Lemma audit_partitions_namespace_witness :
  let ns := lit "wal" in
  let keys := [build_canonical_wal_key ns (lit "n") 5 1; lit "wal/chunk-7.bin"; lit "wal/junk"; lit "other/x"] in
  let c := audit_wal_layout_counts ns keys in
  c = mkWalLayoutAuditCounts 3 1 1 1 /\ total_keys c = canonical_keys c + legacy_keys c + unknown_keys c.
Proof.
  intros ns keys c. split; [reflexivity|].
  apply (audit_partitions_namespace ns keys). by_eval.
Defined.
