(* ===== verification/WalStore.v ===== *)
(** * The write-ahead log over an object store ([wal_store.rs])

    Models the WAL of [crates/wombatkv-store/src/wal_store.rs]: the batch
    payload codec, [WalStore] with its recovery, publish loop and replay.  The
    wall clock is an argument, a function from the readings an operation makes
    to their values.  The publish loop has fuel; [publish_record_total] shows
    that one more unit than the store has objects is always enough.

    The theorems show that a batch decodes to the records buffered, that
    publishing appends to the log or, on failure, leaves it as it was or appends
    without acknowledging, and that replay returns the log in order.  They are
    stated against the [ObjectStoreLaws] interface, for a store any of whose
    calls may fail. *)

From S2P Require Import Prelude Order Text Format ObjectStore WalKeys.

(** ** The batch payload *)
Definition WAL_BATCH_MAGIC : bytes := lit "WMBT_KV_WB01".
Definition WAL_BATCH_HEADER_SIZE : Z := 36.

(** [struct BufferedWalRecord] *)
Record BufferedWalRecord := mkBufferedWalRecord { seq : Z; encoded_record : bytes }.

(** The body loop of [encode_wal_batch_payload]. *)
Fixpoint encode_batch_body (records : list BufferedWalRecord) : result bytes WalStoreError :=
  match records with
  | [] => Ok []
  | r :: rest =>
      let? encoded_len := ok_or (u32_try_from (len (encoded_record r))) (CorruptWal FieldTooLarge) in
      let? body := encode_batch_body rest in
      Ok (le_bytes 4 encoded_len ++ encoded_record r ++ body)
  end.
Definition encode_wal_batch_payload (records : list BufferedWalRecord) : result bytes WalStoreError :=
  match records with
  | [] => Err (CorruptWal UnexpectedEof)
  | first :: _ =>
      let start := seq first in
      let stop := match last records with Some r => seq r | None => start end in
      let? record_count := ok_or (u32_try_from (len records)) (CorruptWal FieldTooLarge) in
      let? body := encode_batch_body records in
      let checksum := checksum32 body in
      Ok (WAL_BATCH_MAGIC ++ le_bytes 8 start ++ le_bytes 8 stop ++ le_bytes 4 record_count
            ++ le_bytes 4 checksum ++ body)
  end.

(** The [for _ in 0..record_count] loop, [cursor] into [body]. *)
Fixpoint decode_batch_loop (n : nat) (body : bytes) (cursor : Z) (out : list WalRecord)
  : result (Z * list WalRecord) WalStoreError :=
  match n with
  | O => Ok (cursor, out)
  | S n' =>
      if decide (saturating_sub (len body) cursor < 4) then Err (CorruptWal UnexpectedEof) else
      let encoded_len := le_at 4 cursor body in
      let cursor := saturating_add cursor 4 in
      if decide (saturating_sub (len body) cursor < encoded_len) then Err (CorruptWal UnexpectedEof) else
      let record_bytes := slice cursor (cursor + encoded_len) body in
      let cursor := saturating_add cursor encoded_len in
      let? r := map_err CorruptWal (decode_wal_record record_bytes) in
      decode_batch_loop n' body cursor (out ++ [r])
  end.
Definition decode_wal_batch_payload (payload : bytes) : result (list WalRecord) WalStoreError :=
  if decide (len payload < WAL_BATCH_HEADER_SIZE) then Err (CorruptWal UnexpectedEof) else
  if decide (slice 0 (len WAL_BATCH_MAGIC) payload <> WAL_BATCH_MAGIC) then Err (CorruptWal InvalidMagic) else
  let start := le_at 8 12 payload in
  let stop := le_at 8 20 payload in
  let record_count := le_at 4 28 payload in
  let checksum := le_at 4 32 payload in
  let body := slice WAL_BATCH_HEADER_SIZE (len payload) payload in
  if decide (checksum32 body <> checksum) then Err (CorruptWal ChecksumMismatch) else
  let expected_count := saturating_add (saturating_sub stop start) 1 in
  if decide (expected_count <> record_count) then Err (CorruptWal FieldTooLarge) else
  let? (cursor, out) := decode_batch_loop (Z.to_nat record_count) body 0 [] in
  if decide (cursor <> len body) then Err (CorruptWal UnexpectedEof) else Ok out.

Definition decode_wal_object_records (payload : bytes) : result (list WalRecord) WalStoreError :=
  if starts_with WAL_BATCH_MAGIC payload then decode_wal_batch_payload payload
  else let? r := map_err CorruptWal (decode_wal_record payload) in Ok [r].

(** Buffered records: encodings of [rs] with consecutive sequence numbers from [s]. *)
Definition buffers (s : Z) (records : list BufferedWalRecord) (rs : list WalRecord) : Prop :=
  Forall2 (fun b r => encode_wal_record r = Ok (encoded_record b)) records rs /\
  forall i b, records !! i = Some b -> seq b = s + Z.of_nat i.

Lemma len_WAL_BATCH_MAGIC : len WAL_BATCH_MAGIC = 12.
Proof. reflexivity. Qed.
#[export] Hint Rewrite len_WAL_BATCH_MAGIC : wmbt.

Lemma encode_decode_wal_record r enc : encode_wal_record r = Ok enc -> decode_wal_record enc = Ok r.
Proof.
  rewrite encode_wal_record_eq. case_decide as Hfit; [|done]. intros <-%Ok_inj.
  rewrite <- (app_nil_r (wal_record_layout r)). by apply decode_wal_record_layout.
Qed.

Lemma decode_single_object r enc : encode_wal_record r = Ok enc -> decode_wal_object_records enc = Ok [r].
Proof.
  intros He. unfold decode_wal_object_records. rewrite (encode_decode_wal_record r enc He).
  revert He. rewrite encode_wal_record_eq. case_decide; [|done]. by intros <-%Ok_inj.
Qed.

Lemma decode_batch_loop_encode records rs : forall body pre out,
  Forall2 (fun b r => encode_wal_record r = Ok (encoded_record b)) records rs ->
  encode_batch_body records = Ok body -> len (pre ++ body) <= u64_max ->
  decode_batch_loop (length records) (pre ++ body) (len pre) out = Ok (len (pre ++ body), out ++ rs).
Proof.
  intros body pre out HF. revert body pre out.
  induction HF as [|b r records rs Hr _ IH]; intros body pre out; cbn [encode_batch_body].
  { intros <-%Ok_inj _. cbn [length decode_batch_loop]. by rewrite !app_nil_r. }
  unfold u32_try_from. case_decide as Hl; run_res; [|done].
  destruct (encode_batch_body records) as [body'|]; run_res; [|done]. intros <-%Ok_inj Hmax.
  pose proof (len_nonneg pre). pose proof (len_nonneg body'). pose proof (len_nonneg (encoded_record b)).
  rewrite !len_app, len_le_bytes in Hmax. cbn [length decode_batch_loop].
  unfold saturating_sub, saturating_add. test_false by (rewrite !len_app, len_le_bytes; lia).
  assert (le_at 4 (len pre) (pre ++ le_bytes 4 (len (encoded_record b)) ++ encoded_record b ++ body')
          = len (encoded_record b)) as -> by (apply le_at_app; cbn; lia).
  cbv zeta. rewrite (Z.min_l (len pre + 4)) by lia. rewrite (Z.min_l (len pre + 4 + _)) by lia.
  test_false by (rewrite !len_app, len_le_bytes; lia).
  assert (slice (len pre + 4) (len pre + 4 + len (encoded_record b))
            (pre ++ le_bytes 4 (len (encoded_record b)) ++ encoded_record b ++ body') = encoded_record b) as ->.
  { rewrite (app_assoc pre). apply slice_app; rewrite len_app, len_le_bytes; lia. }
  rewrite (encode_decode_wal_record r _ Hr). run_res.
  replace (pre ++ le_bytes 4 (len (encoded_record b)) ++ encoded_record b ++ body')
    with ((pre ++ le_bytes 4 (len (encoded_record b)) ++ encoded_record b) ++ body') by by rewrite <- !app_assoc.
  replace (len pre + 4 + len (encoded_record b))
    with (len (pre ++ le_bytes 4 (len (encoded_record b)) ++ encoded_record b))
    by (rewrite !len_app, len_le_bytes; lia).
  rewrite IH; [by rewrite <- (app_assoc out)|done|]. rewrite !len_app, len_le_bytes. lia.
Qed.

Lemma encode_batch_body_ok records :
  Forall (fun b => len (encoded_record b) <= u32_max) records ->
  exists body, encode_batch_body records = Ok body.
Proof.
  induction 1 as [|b records Hb _ [body IH]]; cbn [encode_batch_body]; [by eexists|].
  unfold u32_try_from. rewrite decide_True by done. run_res. rewrite IH. by eexists.
Qed.

Lemma decode_batch_object s records rs payload :
  buffers s records rs -> 0 <= s -> s + len records <= u64_max + 1 -> len payload <= u64_max ->
  encode_wal_batch_payload records = Ok payload -> decode_wal_object_records payload = Ok rs.
Proof.
  intros [HF Hseq] Hs Hmax Hpl. unfold encode_wal_batch_payload.
  destruct records as [|first records]; [done|]. set (recs := first :: records) in *.
  assert (seq first = s) as -> by (rewrite (Hseq 0%nat first eq_refl); lia).
  assert (exists b, last recs = Some b /\ seq b = s + len recs - 1) as (b & Hb & Hbs).
  { destruct (last recs) as [b|] eqn:E; [|by apply last_None in E]. exists b. split; [done|].
    rewrite last_lookup in E. rewrite (Hseq _ _ E). unfold len, recs. cbn. lia. }
  rewrite Hb, Hbs. unfold u32_try_from. case_decide as Hn; run_res; [|done].
  destruct (encode_batch_body recs) as [body|] eqn:Eb; run_res; [|done]. intros <-%Ok_inj.
  pose proof (checksum32_range body). pose proof (len_nonneg body).
  assert (1 <= len recs) by (unfold recs; rewrite len_cons; pose proof (len_nonneg records); lia).
  unfold decode_wal_object_records. rewrite starts_with_app.
  unfold decode_wal_batch_payload, WAL_BATCH_HEADER_SIZE.
  test_false by solve_len.
  test_false by (rewrite slice_app_start by done; by intros []).
  cbv zeta.
  assert (slice 36 (len (WAL_BATCH_MAGIC ++ le_bytes 8 s ++ le_bytes 8 (s + len recs - 1)
            ++ le_bytes 4 (len recs) ++ le_bytes 4 (checksum32 body) ++ body))
            (WAL_BATCH_MAGIC ++ le_bytes 8 s ++ le_bytes 8 (s + len recs - 1)
            ++ le_bytes 4 (len recs) ++ le_bytes 4 (checksum32 body) ++ body) = body) as ->.
  { rewrite !app_assoc. apply slice_app_end; rewrite <- ?app_assoc; solve_len. }
  read_le. test_false by (intros []; done).
  read_le. read_le. read_le.
  unfold saturating_sub, saturating_add. test_false by lia.
  replace (Z.to_nat (len recs)) with (length recs) by (unfold len; lia).
  pose proof (decode_batch_loop_encode recs rs body [] [] HF Eb) as Hd. cbn [app] in Hd.
  rewrite len_nil in Hd. rewrite Hd; [|revert Hpl; solve_len]. run_res. by test_false by (intros []; done).
Qed.

Lemma wal_batch_encodes records :
  records <> [] -> len records <= u32_max -> Forall (fun b => len (encoded_record b) <= u32_max) records ->
  exists payload, encode_wal_batch_payload records = Ok payload.
Proof.
  intros Hne Hlen Hfit. unfold encode_wal_batch_payload. destruct records as [|first records]; [done|].
  unfold u32_try_from. rewrite decide_True by done. run_res.
  destruct (encode_batch_body_ok _ Hfit) as [body ->]. by eexists.
Qed.

(** A batch object decodes to the records that were buffered, in order: for
    a non-empty buffer of at most [u32::MAX] records with consecutive sequence
    numbers, each encoding at most [u32::MAX] bytes, encoding succeeds and
    decoding the object, dispatched on its magic, returns exactly those records;
    a single-record object decodes to its one record. *)
Theorem wal_batch_roundtrip s records rs :
  buffers s records rs -> 0 <= s -> s + len records <= u64_max + 1 ->
  records <> [] -> len records <= u32_max ->
  Forall (fun b => len (encoded_record b) <= u32_max) records ->
  exists payload, encode_wal_batch_payload records = Ok payload /\
    (len payload <= u64_max -> decode_wal_object_records payload = Ok rs) /\
    Forall2 (fun b r => decode_wal_object_records (encoded_record b) = Ok [r]) records rs.
Proof.
  intros Hb Hs Hmax Hne Hlen Hfit.
  destruct (wal_batch_encodes records Hne Hlen Hfit) as [payload Hp]. exists payload. split; [done|]. split.
  - intros Hpl. by apply (decode_batch_object s records rs payload).
  - destruct Hb as [HF _]. eapply Forall2_impl; [exact HF|]. cbn. intros b r. apply decode_single_object.
Qed.

Definition sample_record (p : string) : WalRecord := mkWalRecord (lit "k") (lit "m") (lit p).
Definition sample_buffered (s : Z) (p : string) : BufferedWalRecord :=
  mkBufferedWalRecord s (wal_record_layout (sample_record p)).

Lemma wal_batch_roundtrip_witness :
  exists payload,
    encode_wal_batch_payload [sample_buffered 7 "p1"; sample_buffered 8 "p2"] = Ok payload /\
    (len payload <= u64_max ->
     decode_wal_object_records payload = Ok [sample_record "p1"; sample_record "p2"]) /\
    Forall2 (fun b r => decode_wal_object_records (encoded_record b) = Ok [r])
      [sample_buffered 7 "p1"; sample_buffered 8 "p2"] [sample_record "p1"; sample_record "p2"].
Proof.
  apply (wal_batch_roundtrip 7).
  - split; [repeat constructor|]. intros [|[|i]] b; cbn; [intros [= <-]; reflexivity..|discriminate].
  - lia.
  - vm_compute. discriminate.
  - discriminate.
  - vm_compute. discriminate.
  - apply Forall_cons; split; [vm_compute; discriminate|].
    apply Forall_cons; split; [vm_compute; discriminate|constructor].
Defined.

(** ** The store *)
Section Wal.
Context {S : Type} `{!ObjectStore S}.

(** [struct WalStore] *)
Record WalStore := mkWalStore {
  namespace_prefix : str; ws_node_id : str; object_store : S; next_seq : Z
}.
Definition set_store (s : S) (ws : WalStore) : WalStore :=
  mkWalStore (namespace_prefix ws) (ws_node_id ws) s (next_seq ws).
(** [self.next_seq = self.next_seq.saturating_add(1)] *)
Definition bump_seq (ws : WalStore) : WalStore :=
  mkWalStore (namespace_prefix ws) (ws_node_id ws) (object_store ws) (saturating_add (next_seq ws) 1).

Definition recover_next_seq (ns id : str) : M S WalStoreError Z :=
  let! keys := list_prefix ns in
  let max := foldr Z.max 0 (omap (parse_seq_for_node ns id) keys) in
  st_ret (saturating_add max 1).

(** [WalStore::with_node_id] and [WalStore::new] *)
Definition with_node_id (ns id : str) (s : S) : WalStore :=
  let id := sanitize_node_id id in
  let (s, r) := recover_next_seq ns id s in
  mkWalStore ns id s (match r with Ok n => n | Err _ => 0 end).
Definition new (ns : str) (s : S) : WalStore := with_node_id ns DEFAULT_NODE_ID s.

(** The [loop] of [publish_record]; [clock] gives the successive readings of
    [current_epoch_ms].  [None] when the fuel is spent. *)
Fixpoint publish_loop (fuel : nat) (clock : nat -> Z) (data : bytes) (ws : WalStore)
  : option (WalStore * result str WalStoreError) :=
  match fuel with
  | O => None
  | Datatypes.S fuel' =>
      let clock' := fun n => clock (Datatypes.S n) in
      let candidate := build_canonical_wal_key (namespace_prefix ws) (ws_node_id ws) (clock 0%nat) (next_seq ws) in
      match head_object candidate (object_store ws) with
      | (s, Err e) => Some (set_store s ws, Err e)
      | (s, Ok true) => publish_loop fuel' clock' data (bump_seq (set_store s ws))
      | (s, Ok false) =>
          match put_object candidate data s with
          | (s, Err e) => Some (set_store s ws, Err e)
          | (s, Ok _) =>
              match get_object candidate s with
              | (s, Err e) => Some (set_store s ws, Err e)
              | (s, Ok stored) =>
                  if decide (stored = data) then Some (set_store s ws, Ok candidate)
                  else publish_loop fuel' clock' data (bump_seq (set_store s ws))
              end
          end
      end
  end.

(** [WalStore::publish_record]; [Ok] carries the [object_key]. *)
Definition publish_record (fuel : nat) (clock : nat -> Z) (record : WalRecord) (ws : WalStore)
  : option (WalStore * result str WalStoreError) :=
  match encode_wal_record record with
  | Err e => Some (ws, Err (CorruptWal e))
  | Ok data =>
      match publish_loop fuel clock data ws with
      | None => None
      | Some (ws, Err e) => Some (ws, Err e)
      | Some (ws, Ok object_key) =>
          let ws := bump_seq ws in
          let (s, r) := head_object object_key (object_store ws) in
          Some (set_store s ws,
                match r with
                | Err e => Err e
                | Ok true => Ok object_key
                | Ok false => Err (ObjectNotFound object_key)
                end)
      end
  end.

(** The [for key in keys] loop of [replay_records]. *)
Fixpoint replay_keys (keys : list str) (out : list WalRecord) : M S WalStoreError (list WalRecord) :=
  match keys with
  | [] => st_ret out
  | key :: rest =>
      let! data := get_object key in
      let! records := st_lift (decode_wal_object_records data) in
      replay_keys rest (out ++ records)
  end.
Definition replay_records (ws : WalStore) : WalStore * result (list WalRecord) WalStoreError :=
  let ns := namespace_prefix ws in
  let (s, r) :=
    (let! keys := list_prefix ns in
     replay_keys (sort_by (compare_wal_object_keys ns) keys) []) (object_store ws) in
  (set_store s ws, r).

(** ** The abstract log *)
Context `{!ObjectStoreLaws S}.

(** The objects of the namespace, in replay order, with the records they hold. *)
Record log_repr (ns : str) (m : gmap str bytes) (L : list (str * list WalRecord)) : Prop := mkLogRepr {
  lr_sorted : StronglySorted (cmp_lt (compare_wal_object_keys ns)) (map fst L);
  lr_keys k : starts_with ns k = true -> is_Some (m !! k) <-> k ∈ map fst L;
  lr_prefix : Forall (fun kr => starts_with ns (fst kr) = true) L;
  lr_decode : Forall (fun kr => exists b, m !! fst kr = Some b /\ decode_wal_object_records b = Ok (snd kr)) L
}.
Definition log_records (L : list (str * list WalRecord)) : list WalRecord := concat (map snd L).

(** What a listing of the namespace returns is the keys of the log. *)
Lemma listing_is_log ns m L ks :
  log_repr ns m L -> NoDup ks ->
  (forall k, k ∈ ks <-> is_Some (m !! k) /\ starts_with ns k = true) -> ks ≡ₚ map fst L.
Proof using.
  intros [Hs Hk Hp _] Hnd Hin.
  apply NoDup_Permutation; [done|by apply (sorted_lt_NoDup (compare_wal_object_keys ns))|].
  intros k. rewrite Hin. split; [intros [H1 H2]; by apply Hk|]. intros Hkl.
  assert (starts_with ns k = true) as Hpre; [|split; [by apply Hk|done]].
  apply list_elem_of_fmap in Hkl as (kr & -> & Hkr). rewrite Forall_forall in Hp. by apply Hp.
Qed.

Lemma replay_keys_spec L s out s' r :
  Forall (fun kr => exists b, contents s !! fst kr = Some b /\ decode_wal_object_records b = Ok (snd kr)) L ->
  replay_keys (map fst L) out s = (s', r) ->
  contents s' = contents s /\ forall rs, r = Ok rs -> rs = out ++ log_records L.
Proof.
  intros HL. revert s out HL. induction L as [|[k rs] L IH]; intros s out HL; cbn [map fst replay_keys].
  { intros [= <- <-]. split; [done|]. intros rs [= <-]. by rewrite app_nil_r. }
  apply Forall_cons in HL as [(b & Hb & Hd) HL]. cbn [fst snd] in *.
  unfold st_bind at 1. destruct (get_object k s) as [s1 [v|e]] eqn:Eg;
    apply get_object_law in Eg as [Ec Ev]; [|intros [= <- <-]; by split].
  rewrite Hb in Ev. simplify_eq. unfold st_bind, st_lift. rewrite Hd. intros Hr.
  rewrite <- Ec in HL. destruct (IH _ _ HL Hr) as [E1 E2]. split; [congruence|].
  intros rs' ->. rewrite (E2 rs' eq_refl). unfold log_records. cbn. by rewrite <- app_assoc.
Qed.

Lemma replay_records_spec ws L ws' r :
  log_repr (namespace_prefix ws) (contents (object_store ws)) L ->
  replay_records ws = (ws', r) ->
  contents (object_store ws') = contents (object_store ws) /\
  forall rs, r = Ok rs -> rs = log_records L.
Proof.
  intros Hl. unfold replay_records, st_bind.
  destruct (list_prefix (namespace_prefix ws) (object_store ws)) as [s1 [ks|e]] eqn:El;
    apply list_prefix_law in El as [Ec Eks]; [|intros [= <- <-]; by split].
  destruct (Eks ks eq_refl) as [Hnd Hin].
  rewrite (sort_by_unique (compare_wal_object_keys (namespace_prefix ws)) ks (map fst L));
    [|apply Hl|by apply (listing_is_log (namespace_prefix ws) (contents (object_store ws)))].
  destruct (replay_keys (map fst L) [] s1) as [s2 r2] eqn:Er. intros [= <- <-]. cbn [object_store set_store].
  pose proof (lr_decode _ _ _ Hl) as Hd. rewrite <- Ec in Hd.
  destruct (replay_keys_spec L s1 [] s2 r2 Hd Er) as [E1 E2]. split; [congruence|exact E2].
Qed.
(** ** Publishing appends *)
Lemma build_key_starts_with ns id e q : starts_with ns (build_canonical_wal_key ns id e q) = true.
Proof using. apply starts_with_app. Qed.
Lemma build_batch_key_starts_with ns id e a b : starts_with ns (build_canonical_wal_batch_key ns id e a b) = true.
Proof using. apply starts_with_app. Qed.

Lemma log_append ns m L k b rs :
  log_repr ns m L -> starts_with ns k = true ->
  Forall (fun kr => compare_wal_object_keys ns (fst kr) k = Lt) L ->
  decode_wal_object_records b = Ok rs ->
  log_repr ns (<[k := b]> m) (L ++ [(k, rs)]).
Proof using.
  intros [Hs Hk Hp Hd] Hpre Hlt Hb. rewrite Forall_forall in Hlt. split.
  - rewrite map_app. apply StronglySorted_app_2; [|done|by repeat constructor].
    intros x1 x2 H1 ->%list_elem_of_singleton. apply list_elem_of_fmap in H1 as (kr & -> & Hkr). by apply Hlt.
  - intros j Hj. rewrite map_app. cbn [map fst]. rewrite elem_of_app, list_elem_of_singleton, <- (Hk j Hj).
    destruct (decide (j = k)) as [->|Hne].
    + rewrite lookup_insert_eq. naive_solver.
    + rewrite lookup_insert_ne by done. naive_solver.
  - apply Forall_app. split; [done|]. by repeat constructor.
  - apply Forall_app. split.
    + rewrite !Forall_forall in *. intros kr Hkr. destruct (Hd kr Hkr) as (b' & Hb' & Hr').
      exists b'. split; [|done]. rewrite lookup_insert_ne; [done|]. intros ->.
      specialize (Hlt kr Hkr). by rewrite (cmp_refl (compare_wal_object_keys ns)) in Hlt.
    + repeat constructor. exists b. split; [|done]. apply lookup_insert_eq.
Qed.

(** The key [k] precedes what a node will publish from sequence number [b] on,
    no earlier than [t]: its first sequence number is smaller, or it is the key
    of a record published under [b] itself without acknowledgement. *)
Definition key_before (ns id : str) (b t : Z) (k : str) : Prop :=
  exists p, parse_wal_object_key ns k = Some p /\
    (start_seq p < b \/ exists e, in_u64 e /\ e <= t /\ k = build_canonical_wal_key ns id e b).

Lemma key_before_lt ns id b t k e :
  key_before ns id b t k -> id <> [] -> in_u64 b -> in_u64 e -> t <= e ->
  k <> build_canonical_wal_key ns id e b ->
  compare_wal_object_keys ns k (build_canonical_wal_key ns id e b) = Lt.
Proof using.
  intros (p & Hp & Hcase) Hid Hb He Ht Hne.
  pose proof (parse_chunk_key ns id e b Hid He Hb) as Hq. destruct Hcase as [Hlt|(e' & He' & Ht' & ->)].
  - unfold compare_wal_object_keys. rewrite Hp, Hq. cbn [start_seq].
    by rewrite (proj2 (Z.compare_lt_iff _ _) Hlt).
  - rewrite (parse_chunk_key ns id e' b) in Hp by done. simplify_eq.
    rewrite !build_key_epoch in *. eapply compare_epoch_keys; [done|done| | |].
    1,2: by apply parse_epoch_key, parse_chunk_name.
    right. split; [done|]. assert (e' <> e) by (intros ->; done). lia.
Qed.

Lemma key_before_bump ns id b t b' t' k :
  key_before ns id b t k -> id <> [] -> in_u64 b -> b < b' -> key_before ns id b' t' k.
Proof using.
  intros (p & Hp & Hcase) Hid Hb Hlt. exists p. split; [done|]. left.
  destruct Hcase as [?|(e & He & _ & ->)]; [lia|].
  rewrite (parse_chunk_key ns id e b) in Hp by done. simplify_eq. cbn. lia.
Qed.

Lemma key_before_later ns id b t t' k :
  key_before ns id b t k -> t <= t' -> key_before ns id b t' k.
Proof using.
  intros (p & Hp & Hcase) Ht. exists p. split; [done|].
  destruct Hcase as [?|(e & He & ? & ->)]; [by left|]. right. exists e. split; [done|]. split; [lia|done].
Qed.

(** The log [L] as the writer [ws] left it at time [t]. *)
Record writer_ok (ws : WalStore) (t : Z) (L : list (str * list WalRecord)) : Prop := mkWriterOk {
  wo_log : log_repr (namespace_prefix ws) (contents (object_store ws)) L;
  wo_before : Forall (fun kr => key_before (namespace_prefix ws) (ws_node_id ws) (next_seq ws) t (fst kr)) L;
  wo_node : ws_node_id ws <> [];
  wo_seq : 0 <= next_seq ws
}.

(** Readings of a clock that does not run backwards, from [t] on. *)
Definition clock_from (t : Z) (clock : nat -> Z) : Prop :=
  forall n, t <= clock n /\ clock n <= clock (Datatypes.S n) /\ in_u64 (clock n).

Lemma clock_from_tail t clock : clock_from t clock -> clock_from (clock 0%nat) (fun n => clock (Datatypes.S n)).
Proof using.
  intros Hc n. destruct (Hc (Datatypes.S n)) as (_ & H2 & H3). split; [|done].
  induction n as [|n IH]; [apply Hc|]. destruct (Hc (Datatypes.S n)) as (_ & ? & ?).
  specialize (IH ltac:(apply Hc) ltac:(apply Hc)). lia.
Qed.

Lemma writer_ok_read ws t t' L s :
  writer_ok ws t L -> contents s = contents (object_store ws) -> t <= t' -> writer_ok (set_store s ws) t' L.
Proof using.
  intros [Hl Hb Hn Hq] Hs Ht. split; cbn; [by rewrite Hs| |done|done].
  eapply Forall_impl; [exact Hb|]. intros kr Hk. by apply (key_before_later _ _ _ t).
Qed.

Lemma writer_ok_bump ws t t' L :
  writer_ok ws t L -> next_seq ws + 1 <= u64_max -> writer_ok (bump_seq ws) t' L.
Proof using.
  intros [Hl Hb Hn Hq] Hm. unfold bump_seq, saturating_add. rewrite Z.min_l by lia.
  split; cbn; [done| |done|lia]. eapply Forall_impl; [exact Hb|]. intros kr Hk.
  apply (key_before_bump _ _ (next_seq ws) t); [done|done|unfold in_u64; lia|lia].
Qed.

(** Writing a fresh candidate appends its record to the log. *)
Lemma writer_ok_write ws t L e s data record :
  writer_ok ws t L -> t <= e -> in_u64 e -> in_u64 (next_seq ws) ->
  encode_wal_record record = Ok data ->
  let k := build_canonical_wal_key (namespace_prefix ws) (ws_node_id ws) e (next_seq ws) in
  contents (object_store ws) !! k = None -> contents s = <[k := data]> (contents (object_store ws)) ->
  writer_ok (set_store s ws) e (L ++ [(k, [record])]).
Proof using.
  intros [Hl Hb Hn Hq] Ht He Hseq Henc k Hk Hs.
  assert (Forall (fun kr => compare_wal_object_keys (namespace_prefix ws) (fst kr) k = Lt) L) as Hlt.
  { rewrite Forall_forall in *. intros kr Hkr. apply (key_before_lt _ _ _ t); [by apply Hb|done..|].
    intros E. apply eq_None_not_Some in Hk as []. apply (lr_keys _ _ _ Hl); [apply build_key_starts_with|].
    unfold k. rewrite <- E. by apply list_elem_of_fmap_2. }
  split; cbn; [|apply Forall_app; split|done|done].
  - rewrite Hs. apply log_append; [done|apply build_key_starts_with|done|by apply decode_single_object].
  - eapply Forall_impl; [exact Hb|]. intros kr Hkr. by apply (key_before_later _ _ _ t).
  - repeat constructor. eexists. split; [by apply parse_chunk_key|]. right. by exists e.
Qed.

(** What a call of the publish loop leaves behind: the log, or the log and the
    record, which is there for sure when a key is returned. *)
Definition published (t' : Z) (L : list (str * list WalRecord)) (record : WalRecord)
    (ws ws' : WalStore) (r : result str WalStoreError) : Prop :=
  namespace_prefix ws' = namespace_prefix ws /\ ws_node_id ws' = ws_node_id ws /\
  match r with
  | Ok k => writer_ok ws' t' (L ++ [(k, [record])])
  | Err _ => writer_ok ws' t' L \/ exists k, writer_ok ws' t' (L ++ [(k, [record])])
  end.

Lemma publish_loop_spec fuel clock data record ws t L ws' r :
  writer_ok ws t L -> clock_from t clock -> encode_wal_record record = Ok data ->
  next_seq ws + Z.of_nat fuel <= u64_max ->
  publish_loop fuel clock data ws = Some (ws', r) ->
  next_seq ws <= next_seq ws' < next_seq ws + Z.of_nat fuel /\
  exists n, (n < fuel)%nat /\ published (clock n) L record ws ws' r.
Proof using.
  revert clock ws t. induction fuel as [|fuel IH]; intros clock ws t Hw Hc Henc Hmax; [done|].
  cbn [publish_loop]. set (k := build_canonical_wal_key _ _ _ _).
  destruct (Hc 0%nat) as (Hc1 & Hc2 & Hc3). pose proof (wo_seq _ _ _ Hw) as Hq.
  destruct (head_object k (object_store ws)) as [s1 [b|e]] eqn:Eh; apply head_object_law in Eh as [E1 Hb].
  2:{ intros [= <- <-]. split; [cbn; lia|]. exists 0%nat. split; [lia|]. split; [done|]. split; [done|].
      left. by apply (writer_ok_read ws t). }
  specialize (Hb b eq_refl). destruct b.
  { intros Hl. apply (IH _ _ (clock 0%nat)) in Hl.
    - cbn [next_seq bump_seq set_store] in Hl. unfold saturating_add in Hl. rewrite Z.min_l in Hl by lia.
      destruct Hl as [Hr (n & Hn & Hp)]. split; [lia|]. exists (Datatypes.S n). split; [lia|exact Hp].
    - apply (writer_ok_bump (set_store s1 ws) t); [|cbn; lia].
      by apply (writer_ok_read ws t).
    - by apply (clock_from_tail t).
    - done.
    - cbn. unfold saturating_add. lia. }
  symmetry in Hb. apply bool_decide_eq_false in Hb. rewrite <- eq_None_not_Some in Hb.
  destruct (put_object k data s1) as [s2 rp] eqn:Ep. apply put_object_law in Ep as [Hor Hok].
  rewrite E1 in Hor, Hok.
  assert (contents s2 = <[k := data]> (contents (object_store ws)) ->
          forall s, contents s = contents s2 -> writer_ok (set_store s ws) (clock 0%nat) (L ++ [(k, [record])])) as Hwr.
  { intros E2 s Es. apply (writer_ok_write ws t L (clock 0%nat) s data record); try done.
    - unfold in_u64. lia.
    - by rewrite Es, E2. }
  destruct rp as [[]|e].
  2:{ intros [= <- <-]. split; [cbn; lia|]. exists 0%nat. split; [lia|]. split; [done|]. split; [done|].
      destruct Hor as [Hs2|Hs2]; [left|right; exists k; by apply Hwr]. by apply (writer_ok_read ws t). }
  specialize (Hok eq_refl Hb). specialize (Hwr Hok).
  destruct (get_object k s2) as [s3 [v|e]] eqn:Eg; apply get_object_law in Eg as [E3 Hv].
  - rewrite Hok, lookup_insert_eq in Hv. injection Hv as <-. rewrite decide_True by done.
    intros [= <- <-]. split; [cbn; lia|]. exists 0%nat. split; [lia|]. split; [done|]. split; [done|].
    by apply Hwr.
  - intros [= <- <-]. split; [cbn; lia|]. exists 0%nat. split; [lia|]. split; [done|]. split; [done|].
    right. exists k. by apply Hwr.
Qed.

(** Each turn of the loop that goes on has met an object of its own. *)
Lemma publish_loop_exhausted fuel clock data ws :
  (forall n, in_u64 (clock n)) -> ws_node_id ws <> [] -> 0 <= next_seq ws ->
  next_seq ws + Z.of_nat fuel <= u64_max ->
  publish_loop fuel clock data ws = None ->
  exists X : gset str, X ⊆ dom (contents (object_store ws)) /\ size X = fuel /\
    forall k, k ∈ X -> exists e q, in_u64 e /\ in_u64 q /\ next_seq ws <= q /\
                     k = build_canonical_wal_key (namespace_prefix ws) (ws_node_id ws) e q.
Proof using.
  revert clock ws. induction fuel as [|fuel IH]; intros clock ws Hc Hn Hq Hmax.
  { exists ∅. set_solver. }
  cbn [publish_loop]. set (k := build_canonical_wal_key _ _ _ _).
  destruct (head_object k (object_store ws)) as [s1 [b|e]] eqn:Eh; [|done]. apply head_object_law in Eh as [E1 Hb].
  specialize (Hb b eq_refl). destruct b.
  - intros Hl. apply IH in Hl; [|intros n; apply Hc|done|cbn; unfold saturating_add; lia|cbn; unfold saturating_add; lia].
    cbn [object_store set_store bump_seq next_seq namespace_prefix ws_node_id] in Hl.
    unfold saturating_add in Hl. rewrite Z.min_l, E1 in Hl by lia. destruct Hl as (X & HX & Hs & Hk).
    assert (k ∉ X) as Hnk.
    { intros (e & q & He & Hq' & Hle & E)%Hk. unfold k in E.
      pose proof (parse_chunk_key (namespace_prefix ws) _ _ (next_seq ws) Hn (Hc 0%nat)
                    ltac:(unfold in_u64; lia)) as P1.
      rewrite E, (parse_chunk_key (namespace_prefix ws) _ _ _ Hn He Hq') in P1. simplify_eq. lia. }
    exists ({[k]} ∪ X). split; [|split].
    + symmetry in Hb. apply bool_decide_eq_true in Hb. apply elem_of_dom in Hb. set_solver.
    + rewrite size_union by set_solver. rewrite size_singleton. lia.
    + intros j [->%elem_of_singleton|Hj]%elem_of_union.
      * exists (clock 0%nat), (next_seq ws). unfold in_u64. split; [apply Hc|]. split; [lia|]. split; [lia|done].
      * destruct (Hk j Hj) as (e & q & He & Hq' & Hle & ->). exists e, q. split; [done|]. split; [done|]. split; [lia|done].
  - symmetry in Hb. apply bool_decide_eq_false in Hb. rewrite <- eq_None_not_Some in Hb.
    destruct (put_object k data s1) as [s2 [[]|e]] eqn:Ep; [|done]. apply put_object_law in Ep as [_ Hok].
    rewrite E1 in Hok. specialize (Hok eq_refl Hb).
    destruct (get_object k s2) as [s3 [v|e]] eqn:Eg; [|done]. apply get_object_law in Eg as [E3 Hv].
    rewrite Hok, lookup_insert_eq in Hv. injection Hv as <-. by rewrite decide_True.
Qed.

Lemma publish_loop_total fuel clock data ws :
  (forall n, in_u64 (clock n)) -> ws_node_id ws <> [] -> 0 <= next_seq ws ->
  next_seq ws + Z.of_nat fuel <= u64_max -> (size (contents (object_store ws)) < fuel)%nat ->
  is_Some (publish_loop fuel clock data ws).
Proof using.
  intros Hc Hn Hq Hmax Hfuel. destruct (publish_loop fuel clock data ws) as [r|] eqn:E; [by eexists|exfalso].
  apply publish_loop_exhausted in E as (X & HX & Hs & _); [|done..].
  apply subseteq_size in HX. rewrite size_dom in HX. lia.
Qed.

(** Publishing always returns, with one unit of fuel more than the store has
    objects, and appends: if it acknowledges a key, the log is the old log and the
    record under that key; if it fails, whichever call failed, the log is the old
    log, or the old log and the record, never anything else.  The clock must not
    run backwards across publishes that failed. *)
Theorem publish_record_appends clock record ws t L :
  writer_ok ws t L -> clock_from t clock ->
  next_seq ws + Z.of_nat (size (contents (object_store ws))) + 2 <= u64_max ->
  exists ws' r t',
    publish_record (Datatypes.S (size (contents (object_store ws)))) clock record ws = Some (ws', r) /\
    (t' = t \/ exists n, t' = clock n) /\
    match r with
    | Ok k => writer_ok ws' t' (L ++ [(k, [record])])
    | Err _ => writer_ok ws' t' L \/ exists k, writer_ok ws' t' (L ++ [(k, [record])])
    end.
Proof using.
  intros Hw Hc Hmax. unfold publish_record. set (fuel := Datatypes.S _).
  destruct (encode_wal_record record) as [data|e] eqn:Henc.
  2:{ exists ws, (Err (CorruptWal e)), t. split; [done|]. split; [by left|]. by left. }
  destruct (publish_loop_total fuel clock data ws) as [[ws1 r1] E];
    [intros n; apply Hc|apply Hw|apply Hw|unfold fuel; lia|unfold fuel; lia|].
  rewrite E. destruct (publish_loop_spec fuel clock data record ws t L ws1 r1) as [Hq (n & Hn & _ & _ & Hp)];
    [done..|unfold fuel; lia|done|].
  destruct r1 as [k|e].
  2:{ exists ws1, (Err e), (clock n). split; [done|]. split; [right; by exists n|done]. }
  destruct (head_object k (object_store (bump_seq ws1))) as [s2 r2] eqn:Eh.
  apply head_object_law in Eh as [E2 Hb]. eexists _, _, (clock n). split; [done|]. split; [right; by exists n|].
  assert (writer_ok (set_store s2 (bump_seq ws1)) (clock n) (L ++ [(k, [record])])) as Hw2.
  { apply (writer_ok_read (bump_seq ws1) (clock n)); [|done|lia].
    apply (writer_ok_bump ws1 (clock n)); [done|]. unfold fuel in *. lia. }
  destruct r2 as [[]|e]; [done|right; by exists k|right; by exists k].
Qed.

(** C8: replay returns the log: whenever it returns records at all they are those
    of the log in the order of publication, and it changes nothing. *)
Theorem replay_returns_log ws t L :
  writer_ok ws t L ->
  let (ws', r) := replay_records ws in
  writer_ok ws' t L /\ forall rs, r = Ok rs -> rs = log_records L.
Proof using.
  intros Hw. destruct (replay_records ws) as [ws' r] eqn:E.
  destruct (replay_records_spec ws L ws' r (wo_log _ _ _ Hw) E) as [Hs Hr]. split; [|done].
  unfold replay_records in E. destruct (st_bind _ _ _) as [s r'] in E. injection E as <- <-.
  by apply (writer_ok_read ws t); [done|exact Hs|lia].
Qed.

(** ** Recovery *)
Lemma foldr_max_ub (l : list Z) x : x ∈ l -> x <= foldr Z.max 0 l.
Proof using. induction l as [|y l IH]; [by intros ?%not_elem_of_nil|]. intros [->|?%IH]%elem_of_cons; cbn; lia. Qed.

Lemma foldr_max_le (l : list Z) b : 0 <= b -> Forall (fun x => x <= b) l -> 0 <= foldr Z.max 0 l <= b.
Proof using. intros Hb. induction 1; cbn; lia. Qed.

(** Recovery resumes after the log: a writer opened on a store whose
    namespace holds only objects of its own node, when the listing succeeds, gets
    a sequence number past every object's, so what it publishes is appended. *)
Theorem recovery_resumes_log ns id s L s' n :
  log_repr ns (contents s) L ->
  Forall (fun kr => exists p, parse_wal_object_key ns (fst kr) = Some p /\
            node_id p = sanitize_node_id id /\ start_seq p <= end_seq p < u64_max) L ->
  recover_next_seq ns (sanitize_node_id id) s = (s', Ok n) ->
  let ws := with_node_id ns id s in
  next_seq ws = n /\ 1 <= n <= u64_max /\ writer_ok ws (-1) L.
Proof using.
  intros Hl Hown Hrec ws. unfold ws, with_node_id. rewrite Hrec.
  revert Hrec. unfold recover_next_seq, st_bind, st_ret.
  destruct (list_prefix ns s) as [s1 [ks|e]] eqn:El; [|done]. intros [= <- <-].
  apply list_prefix_law in El as [Ec Hks]. destruct (Hks ks eq_refl) as [Hnd Hin].
  set (mx := foldr Z.max 0 _).
  assert (forall k, k ∈ ks <-> k ∈ map fst L) as Hsame.
  { intros k. by rewrite (listing_is_log ns (contents s) L ks Hl Hnd Hin). }
  rewrite Forall_forall in Hown.
  assert (0 <= mx <= u64_max - 1) as Hmx.
  { apply foldr_max_le; [lia|]. apply Forall_forall. intros x Hx.
    apply list_elem_of_omap in Hx as (k & Hk & Hx). apply Hsame, list_elem_of_fmap in Hk as (kr & -> & Hkr).
    destruct (Hown kr Hkr) as (p & Hp & Hn & Hle). unfold parse_seq_for_node in Hx. rewrite Hp in Hx.
    cbn in Hx. rewrite Hn, decide_True in Hx by done. simplify_eq. lia. }
  unfold saturating_add. rewrite Z.min_l by lia. cbn [next_seq]. split; [done|]. split; [lia|].
  split; cbn [namespace_prefix object_store ws_node_id next_seq]; [by rewrite Ec| |apply sanitize_node_id_nonempty|lia].
  apply Forall_forall. intros kr Hkr. destruct (Hown kr Hkr) as (p & Hp & Hn & Hle).
  exists p. split; [done|]. left.
  assert (end_seq p <= mx); [|lia]. apply foldr_max_ub, list_elem_of_omap. exists (fst kr).
  split; [by apply Hsame, list_elem_of_fmap_2|]. unfold parse_seq_for_node. rewrite Hp. cbn.
  by rewrite Hn, decide_True.
Qed.

(** ** On a store that does not fail *)

(** Publish one record after the other; the [i]-th publish reads [clock i]. *)
Fixpoint publish_all (clock : nat -> nat -> Z) (records : list WalRecord) (ws : WalStore)
  : option (WalStore * result (list str) WalStoreError) :=
  match records with
  | [] => Some (ws, Ok [])
  | r :: rest =>
      match publish_record (Datatypes.S (size (contents (object_store ws)))) (clock 0%nat) r ws with
      | None => None
      | Some (ws, Err e) => Some (ws, Err e)
      | Some (ws, Ok k) =>
          match publish_all (fun i => clock (Datatypes.S i)) rest ws with
          | Some (ws, Ok ks) => Some (ws, Ok (k :: ks))
          | other => other
          end
      end
  end.

Context `{!ReliableStore S}.

Lemma fresh_candidate ws L e :
  writer_ok ws (-1) L -> in_u64 (next_seq ws) -> in_u64 e ->
  contents (object_store ws) !!
    build_canonical_wal_key (namespace_prefix ws) (ws_node_id ws) e (next_seq ws) = None.
Proof using.
  intros [Hl Hb Hn Hq] Hs He. apply eq_None_not_Some. intros Hk.
  apply (lr_keys _ _ _ Hl) in Hk; [|apply build_key_starts_with].
  apply list_elem_of_fmap in Hk as (kr & E & Hkr). rewrite Forall_forall in Hb.
  destruct (Hb kr Hkr) as (p & Hp & [Hlt|(e' & [He' _] & Ht & _)]); [|lia].
  rewrite <- E, parse_chunk_key in Hp by done. simplify_eq. cbn in Hlt. lia.
Qed.

Lemma publish_record_reliable clock record data ws L :
  writer_ok ws (-1) L -> reliable (object_store ws) -> (forall n, in_u64 (clock n)) ->
  encode_wal_record record = Ok data -> next_seq ws < u64_max ->
  exists ws' k,
    publish_record (Datatypes.S (size (contents (object_store ws)))) clock record ws = Some (ws', Ok k) /\
    writer_ok ws' (-1) (L ++ [(k, [record])]) /\ reliable (object_store ws') /\
    next_seq ws' = next_seq ws + 1 /\ namespace_prefix ws' = namespace_prefix ws /\
    ws_node_id ws' = ws_node_id ws /\ k = build_canonical_wal_key (namespace_prefix ws) (ws_node_id ws) (clock 0%nat) (next_seq ws).
Proof using.
  intros Hw Hr Hc Henc Hmax. pose proof (wo_seq _ _ _ Hw) as Hq.
  pose proof (fresh_candidate ws L (clock 0%nat) Hw ltac:(unfold in_u64; lia) (Hc 0%nat)) as Hf.
  unfold publish_record. rewrite Henc. cbn [publish_loop]. set (k := build_canonical_wal_key _ _ _ _) in *.
  destruct (reliable_head k _ Hr) as (s1 & Eh & R1). rewrite Eh.
  rewrite bool_decide_eq_false_2 by (rewrite Hf; by intros [? ?]).
  apply head_object_law in Eh as [E1 _].
  destruct (reliable_put k data s1 R1) as (s2 & Ep & R2). rewrite Ep.
  apply put_object_law in Ep as [_ Hok]. specialize (Hok eq_refl). rewrite E1 in Hok. specialize (Hok Hf).
  destruct (reliable_get k s2 R2) as (s3 & Eg & R3). rewrite Eg. apply get_object_law in Eg as [E3 _].
  rewrite Hok, lookup_insert_eq. cbn [ok_or]. rewrite decide_True by done.
  destruct (reliable_head k s3 R3) as (s4 & Eh4 & R4).
  cbn [object_store bump_seq set_store]. rewrite Eh4. apply head_object_law in Eh4 as [E4 _].
  rewrite E3, Hok, lookup_insert_eq, bool_decide_eq_true_2 by by eexists.
  eexists _, k. split; [done|]. unfold bump_seq, saturating_add. cbn [namespace_prefix ws_node_id next_seq object_store set_store].
  rewrite Z.min_l by lia. split; [|done].
  destruct (writer_ok_write ws (-1) L (clock 0%nat) s4 data record) as [W1 W2 W3 W4];
    [done|destruct (Hc 0%nat); lia|apply Hc|unfold in_u64; lia|done|done|by rewrite E4, E3, Hok|].
  split; [exact W1| |exact W3|cbn; lia].
  eapply Forall_impl; [exact W2|]. intros kr Hkr.
  apply (key_before_bump _ _ (next_seq ws) (clock 0%nat)); [exact Hkr|done|unfold in_u64; lia|cbn; lia].
Qed.

Lemma publish_all_reliable records : forall clock ws L,
  writer_ok ws (-1) L -> reliable (object_store ws) -> (forall i n, in_u64 (clock i n)) ->
  Forall (fun r => is_ok (encode_wal_record r) = true) records ->
  next_seq ws + len records <= u64_max ->
  exists ws' ks,
    publish_all clock records ws = Some (ws', Ok ks) /\ length ks = length records /\
    writer_ok ws' (-1) (L ++ zip ks (map (fun r => [r]) records)) /\ reliable (object_store ws') /\
    namespace_prefix ws' = namespace_prefix ws.
Proof using.
  induction records as [|r records IH]; intros clock ws L Hw Hr Hc Henc Hmax; cbn [publish_all].
  { exists ws, []. by rewrite app_nil_r. }
  apply Forall_cons in Henc as [Hr1 Henc]. rewrite len_cons in Hmax. pose proof (len_nonneg records).
  destruct (encode_wal_record r) as [data|] eqn:Ed; [|done].
  destruct (publish_record_reliable (clock 0%nat) r data ws L) as (ws1 & k & E & Hw1 & Rw1 & Hq1 & Hn1 & _);
    [done|done|intros n; apply Hc|done|lia|]. rewrite E.
  destruct (IH (fun i => clock (Datatypes.S i)) ws1 (L ++ [(k, [r])])) as (ws2 & ks & E2 & Hlen & Hw2 & Rw2 & Hn2);
    [done|done|intros i n; apply Hc|done|lia|]. rewrite E2.
  exists ws2, (k :: ks). split; [done|]. split; [cbn; lia|]. split; [|split; [done|congruence]].
  rewrite <- app_assoc in Hw2. exact Hw2.
Qed.

Lemma replay_keys_reliable L : forall s out,
  reliable s ->
  Forall (fun kr => exists b, contents s !! fst kr = Some b /\ decode_wal_object_records b = Ok (snd kr)) L ->
  exists s', replay_keys (map fst L) out s = (s', Ok (out ++ log_records L)).
Proof using.
  induction L as [|[k rs] L IH]; intros s out Hr HL; cbn [map fst replay_keys].
  { exists s. unfold st_ret. by rewrite app_nil_r. }
  apply Forall_cons in HL as [(b & Hb & Hd) HL]. cbn [fst snd] in *.
  unfold st_bind at 1. destruct (reliable_get k s Hr) as (s1 & Eg & R1). rewrite Eg, Hb. cbn [ok_or].
  apply get_object_law in Eg as [Ec _]. unfold st_bind, st_lift. rewrite Hd.
  rewrite <- Ec in HL. destruct (IH s1 (out ++ rs) R1 HL) as [s' ->]. exists s'.
  unfold log_records. cbn. by rewrite <- app_assoc.
Qed.

Lemma replay_records_reliable ws L :
  log_repr (namespace_prefix ws) (contents (object_store ws)) L -> reliable (object_store ws) ->
  snd (replay_records ws) = Ok (log_records L).
Proof using.
  intros Hl Hr. destruct (replay_records ws) as [ws' r] eqn:E. cbn.
  enough (is_ok r = true) as Hok.
  { destruct r as [rs|]; [|done]. f_equal. by apply (replay_records_spec ws L ws' (Ok rs)). }
  revert E. unfold replay_records, st_bind.
  destruct (reliable_list (namespace_prefix ws) _ Hr) as (s1 & ks & E1 & R1). rewrite E1.
  apply list_prefix_law in E1 as [Ec Hks]. destruct (Hks ks eq_refl) as [Hnd Hin].
  pose proof (listing_is_log _ _ _ _ Hl Hnd Hin) as Hperm.
  rewrite (sort_by_unique (compare_wal_object_keys (namespace_prefix ws)) ks (map fst L)) by (apply Hl || done).
  pose proof (lr_decode _ _ _ Hl) as Hd. rewrite <- Ec in Hd.
  destruct (replay_keys_reliable L s1 [] R1 Hd) as [s' ->]. by intros [= <- <-].
Qed.

(** Opening a store with nothing under the namespace. *)
Lemma open_empty ns id s :
  reliable s -> (forall k, starts_with ns k = true -> contents s !! k = None) ->
  exists s1, with_node_id ns id s = mkWalStore ns (sanitize_node_id id) s1 1 /\ reliable s1 /\ log_repr ns (contents s1) [].
Proof using.
  intros Hr Hempty. destruct (reliable_list ns s Hr) as (s1 & ks0 & El & R1).
  assert (log_repr ns (contents s) []) as Hl.
  { split; [constructor| |constructor|constructor]. intros k Hk. rewrite (Hempty k Hk).
    split; [by intros [? ?]|by intros ?%not_elem_of_nil]. }
  pose proof (list_prefix_law _ _ _ _ El) as [Ec Hks]. destruct (Hks ks0 eq_refl) as [Hnd Hin].
  assert (ks0 = []) as -> by (apply Permutation_nil_r, (listing_is_log ns (contents s) []); done).
  exists s1. split; [|split; [done|by rewrite Ec]].
  unfold with_node_id, recover_next_seq, st_bind, st_ret. by rewrite El.
Qed.
(** A store opened by any node replays the log. *)
Lemma reopened_replays ns id s L :
  reliable s -> log_repr ns (contents s) L -> snd (replay_records (with_node_id ns id s)) = Ok (log_records L).
Proof using.
  intros Hr Hl. unfold with_node_id. destruct (recover_next_seq ns (sanitize_node_id id) s) as [s2 r2] eqn:E2.
  assert (contents s2 = contents s /\ reliable s2) as [Ec2 R2].
  { revert E2. unfold recover_next_seq, st_bind, st_ret.
    destruct (reliable_list ns s Hr) as (s3 & ks3 & E3 & R3). rewrite E3.
    intros [= <- <-]. split; [|done]. by apply list_prefix_law in E3 as [? _]. }
  apply replay_records_reliable; cbn [namespace_prefix object_store]; [by rewrite Ec2|done].
Qed.

(** C2: publish, restart, replay: on a store that does not fail and holds nothing
    under the namespace, publishing any records that encode, one after the other
    and whatever the clock reads, acknowledges each under a key of its own, and a
    store handle opened afterwards by any node replays exactly those records, in
    order. *)
Theorem publish_restart_replay ns id id' s clock records :
  reliable s -> (forall k, starts_with ns k = true -> contents s !! k = None) ->
  (forall i n, in_u64 (clock i n)) ->
  Forall (fun r => is_ok (encode_wal_record r) = true) records ->
  1 + len records <= u64_max ->
  exists ws ks,
    publish_all clock records (with_node_id ns id s) = Some (ws, Ok ks) /\
    length ks = length records /\ NoDup ks /\
    snd (replay_records (with_node_id ns id' (object_store ws))) = Ok records.
Proof using.
  intros Hr Hempty Hc Henc Hmax. destruct (open_empty ns id s Hr Hempty) as (s1 & -> & R1 & Hl).
  destruct (publish_all_reliable records clock (mkWalStore ns (sanitize_node_id id) s1 1) [])
    as (ws & ks & E & Hlen & Hw & Rw & Hn); [|done..|].
  { split; cbn; [done|constructor|apply sanitize_node_id_nonempty|lia]. }
  exists ws, ks. split; [done|]. split; [done|]. cbn [app] in Hw.
  pose proof (wo_log _ _ _ Hw) as Hlog. rewrite Hn in Hlog. cbn [namespace_prefix] in Hlog.
  assert (map fst (zip ks (map (fun r => [r]) records)) = ks) as Hfst
    by (apply fst_zip; rewrite length_map; lia).
  split.
  { rewrite <- Hfst. apply (sorted_lt_NoDup (compare_wal_object_keys ns)), Hlog. }
  rewrite (reopened_replays ns id' _ _ Rw Hlog).
  f_equal. unfold log_records. change (map snd) with (fmap (M := list) (snd (A := str) (B := list WalRecord))).
  rewrite snd_zip by (rewrite length_map; lia). clear. induction records; cbn; [done|by f_equal].
Qed.
End Wal.
Arguments WalStore : clear implicits.

(** ** Witnesses on the in-memory store *)
Definition sample_ns : str := lit "wal/tenant-a/fp".
Definition sample_wal : WalStore InMemoryObjectStore :=
  mkWalStore sample_ns (lit "node-1") in_memory_default 1.

Lemma empty_log ns : log_repr ns ∅ [].
Proof.
  split; [constructor| |constructor|constructor]. intros k _. rewrite lookup_empty.
  split; [by intros [? ?]|by intros ?%not_elem_of_nil].
Qed.

Lemma sample_wal_ok t : writer_ok sample_wal t [].
Proof. split; cbn; [apply empty_log|constructor|done|lia]. Qed.

Lemma publish_record_appends_witness :
  let clock := fun _ : nat => 1700 in let record := sample_record "p1" in
  exists ws' r t',
    publish_record (S (size (contents (object_store sample_wal)))) clock record sample_wal = Some (ws', r) /\
    (t' = 0 \/ exists n, t' = clock n) /\
    match r with
    | Ok k => writer_ok ws' t' ([] ++ [(k, [record])])
    | Err _ => writer_ok ws' t' [] \/ exists k, writer_ok ws' t' ([] ++ [(k, [record])])
    end.
Proof.
  intros clock record. apply (publish_record_appends clock record sample_wal 0 []).
  - apply sample_wal_ok.
  - intros n. unfold clock, in_u64. lia.
  - vm_compute. discriminate.
Defined.

(** A log of one object. *)
Definition one_key : str := build_canonical_wal_key sample_ns (lit "node-1") 1700 1.
Definition one_store : InMemoryObjectStore :=
  mkInMemoryObjectStore (<[one_key := wal_record_layout (sample_record "p1")]> ∅) false.

Lemma one_log : log_repr sample_ns (inner one_store) [(one_key, [sample_record "p1"])].
Proof.
  apply (log_append sample_ns ∅ []); [apply empty_log|apply build_key_starts_with|constructor|reflexivity].
Qed.

Lemma replay_returns_log_witness :
  let ws := mkWalStore sample_ns (lit "node-1") one_store 2 in
  let L := [(one_key, [sample_record "p1"])] in
  let (ws', r) := replay_records ws in
  writer_ok ws' 1700 L /\ forall rs, r = Ok rs -> rs = log_records L.
Proof.
  intros ws L. apply (replay_returns_log ws 1700 L).
  split; cbn [namespace_prefix object_store ws_node_id next_seq ws]; [apply one_log| |discriminate|lia].
  constructor; [|constructor]. eexists. split; [vm_compute; reflexivity|]. left. cbn. lia.
Defined.

Lemma recovery_resumes_log_witness :
  let ws := with_node_id sample_ns (lit "node-1") one_store in
  next_seq ws = 2 /\ 1 <= 2 <= u64_max /\ writer_ok ws (-1) [(one_key, [sample_record "p1"])].
Proof.
  apply (recovery_resumes_log sample_ns (lit "node-1") one_store [(one_key, [sample_record "p1"])] one_store 2).
  - apply one_log.
  - constructor; [|constructor]. eexists. split; [vm_compute; reflexivity|]. cbn. split; [reflexivity|lia].
  - apply injective_projections; [reflexivity|vm_compute; reflexivity].
Defined.

Lemma publish_restart_replay_witness :
  let records := [sample_record "p1"; sample_record "p2"] in
  exists ws ks,
    publish_all (fun i _ => 1700 - Z.of_nat (Nat.min i 1)) records
      (with_node_id sample_ns (lit "node-1") in_memory_default) = Some (ws, Ok ks) /\
    length ks = length records /\ NoDup ks /\
    snd (replay_records (with_node_id sample_ns (lit "other") (object_store ws))) = Ok records.
Proof.
  intros records.
  apply (publish_restart_replay sample_ns (lit "node-1") (lit "other") in_memory_default _ records).
  - reflexivity.
  - intros k _. reflexivity.
  - intros i n. unfold in_u64. lia.
  - repeat constructor.
  - vm_compute. discriminate.
Defined.
