(* ===== verification/GroupCommit.v ===== *)
(** * WAL group commit ([wal_store.rs])

    Models [WalGroupCommitStore] of [crates/wombatkv-store/src/wal_store.rs]: the
    batch policy, the buffer of encoded records with their sequence numbers, and
    the operations that buffer, flush on size or age, and write single or batch
    objects.  [clock] gives the readings of [current_epoch_ms] an operation
    makes.

    The theorems show that records move from the buffer to the durable log in
    order and without loss or duplication as long as calls succeed, that the
    buffer stays within the policy's bounds, that a failed batch flush keeps the
    buffer, and that a failed flush of a single record forgets it. *)

From S2P Require Import Prelude Order Text Format ObjectStore WalKeys WalStore.

(** [struct WalBatchPolicy] *)
Record WalBatchPolicy := mkWalBatchPolicy { flush_interval_ms : Z; max_records : Z; max_bytes : Z }.
Definition default_policy : WalBatchPolicy := mkWalBatchPolicy 250 32 (256 * 1024).
Definition single_record_fallback : WalBatchPolicy := mkWalBatchPolicy 0 1 0.
Definition is_single_record_mode (p : WalBatchPolicy) : bool :=
  bool_decide (max_records p <= 1) || bool_decide (max_bytes p <= 1).

(** [struct GroupCommitPublishResult] *)
Record GroupCommitPublishResult := mkGroupCommitPublishResult {
  flushed_object_keys : list str; buffered_records : Z; res_buffered_bytes : Z
}.
(** [record_flush], for the key a flush may have written. *)
Definition record_flush (r : GroupCommitPublishResult) (key : option str) : GroupCommitPublishResult :=
  match key with
  | Some k => mkGroupCommitPublishResult (flushed_object_keys r ++ [k]) (buffered_records r) (res_buffered_bytes r)
  | None => r
  end.

Definition sum_encoded (buffer : list BufferedWalRecord) : Z :=
  foldr (fun r n => len (encoded_record r) + n) 0 buffer.

Section Group.
Context {S : Type} `{!ObjectStore S}.

(** [struct WalGroupCommitStore] *)
Record WalGroupCommitStore := mkWalGroupCommitStore {
  wal_store : WalStore S; policy : WalBatchPolicy; buffer : list BufferedWalRecord;
  buffered_bytes : Z; first_buffered_at_ms : option Z
}.
Definition with_wal_store (ws : WalStore S) (p : WalBatchPolicy) : WalGroupCommitStore :=
  mkWalGroupCommitStore ws p [] 0 None.
Definition group_new (ns id : str) (s : S) (p : WalBatchPolicy) : WalGroupCommitStore :=
  with_wal_store (with_node_id ns id s) p.

Definition set_wal (ws : WalStore S) (gc : WalGroupCommitStore) : WalGroupCommitStore :=
  mkWalGroupCommitStore ws (policy gc) (buffer gc) (buffered_bytes gc) (first_buffered_at_ms gc).
Definition set_buffer (b : list BufferedWalRecord) (gc : WalGroupCommitStore) : WalGroupCommitStore :=
  mkWalGroupCommitStore (wal_store gc) (policy gc) b (buffered_bytes gc) (first_buffered_at_ms gc).

(** Put the payload under the candidate key and read it back: the body shared by
    [write_single_object_with_seq] and [write_batch_object]. *)
Definition put_and_verify (candidate : str) (payload : bytes) : M WalGroupCommitStore WalStoreError str :=
  fun gc =>
    let on s := set_wal (set_store s (wal_store gc)) gc in
    match put_object candidate payload (object_store (wal_store gc)) with
    | (s, Err e) => (on s, Err e)
    | (s, Ok _) =>
        match get_object candidate s with
        | (s, Err e) => (on s, Err e)
        | (s, Ok stored) =>
            (on s, if decide (stored <> payload) then Err (CorruptWal ChecksumMismatch) else Ok candidate)
        end
    end.
Definition write_single_object_with_seq (q : Z) (payload : bytes) (epoch_ms : Z)
  : M WalGroupCommitStore WalStoreError str :=
  fun gc => let ws := wal_store gc in
    put_and_verify (build_canonical_wal_key (namespace_prefix ws) (ws_node_id ws) epoch_ms q) payload gc.
Definition write_batch_object (start stop : Z) (payload : bytes) (epoch_ms : Z)
  : M WalGroupCommitStore WalStoreError str :=
  fun gc => let ws := wal_store gc in
    put_and_verify (build_canonical_wal_batch_key (namespace_prefix ws) (ws_node_id ws) epoch_ms start stop) payload gc.

(** The state after a successful flush: [buffer.clear()] and the counters reset. *)
Definition cleared (gc : WalGroupCommitStore) : WalGroupCommitStore :=
  mkWalGroupCommitStore (wal_store gc) (policy gc) [] 0 None.

(** [flush_buffer_as_object]; a buffer of one is emptied before the write. *)
Definition flush_buffer_as_object (clock_ms now_ms : Z) : M WalGroupCommitStore WalStoreError (option str) :=
  fun gc =>
    let epoch_ms := Z.max now_ms clock_ms in
    let finish (r : WalGroupCommitStore * result str WalStoreError) :=
      match r with
      | (gc, Ok object_key) => (cleared gc, Ok (Some object_key))
      | (gc, Err e) => (gc, Err e)
      end in
    match buffer gc with
    | [] => (gc, Ok None)
    | [r] => finish (write_single_object_with_seq (seq r) (encoded_record r) epoch_ms (set_buffer [] gc))
    | first :: _ =>
        let start := seq first in
        let stop := match last (buffer gc) with Some r => seq r | None => start end in
        match encode_wal_batch_payload (buffer gc) with
        | Err e => (gc, Err e)
        | Ok payload => finish (write_batch_object start stop payload epoch_ms gc)
        end
    end.

Definition flush_due (clock_ms now_ms : Z) : M WalGroupCommitStore WalStoreError (option str) :=
  fun gc =>
    if decide (buffer gc = [] \/ flush_interval_ms (policy gc) = 0) then (gc, Ok None)
    else match first_buffered_at_ms gc with
         | None => (gc, Ok None)
         | Some first =>
             if decide (saturating_sub now_ms first < flush_interval_ms (policy gc)) then (gc, Ok None)
             else flush_buffer_as_object clock_ms now_ms gc
         end.
Definition flush_now (clock_ms now_ms : Z) : M WalGroupCommitStore WalStoreError (option str) :=
  flush_buffer_as_object clock_ms now_ms.

Definition group_replay_records (gc : WalGroupCommitStore) : WalGroupCommitStore * result (list WalRecord) WalStoreError :=
  let (ws, r) := replay_records (wal_store gc) in (set_wal ws gc, r).

(** The buffering part of [publish_record]: take a sequence number and push. *)
Definition push_record (encoded : bytes) (now_ms : Z) (gc : WalGroupCommitStore) : WalGroupCommitStore :=
  let q := next_seq (wal_store gc) in
  let b := buffer gc ++ [mkBufferedWalRecord q encoded] in
  mkWalGroupCommitStore (bump_seq (wal_store gc)) (policy gc) b (sum_encoded b)
    (match first_buffered_at_ms gc with None => Some now_ms | t => t end).
Definition over_bytes (encoded : bytes) (gc : WalGroupCommitStore) : Prop :=
  max_bytes (policy gc) > 0 /\ buffer gc <> [] /\
  saturating_add (buffered_bytes gc) (len encoded) > max_bytes (policy gc).
Definition flush_wanted (gc : WalGroupCommitStore) : Prop :=
  (max_records (policy gc) > 0 /\ len (buffer gc) >= max_records (policy gc)) \/
  (max_bytes (policy gc) > 0 /\ buffered_bytes gc >= max_bytes (policy gc)).
#[global] Instance over_bytes_dec e gc : Decision (over_bytes e gc).
Proof using. unfold over_bytes. apply _. Defined.
#[global] Instance flush_wanted_dec gc : Decision (flush_wanted gc).
Proof using. unfold flush_wanted. apply _. Defined.

(** [if cond { if let Some(key) = flush()? { result.record_flush(key) } }] *)
Definition flush_if (cond : WalGroupCommitStore -> bool) (clock_ms now_ms : Z) (result : GroupCommitPublishResult)
  : M WalGroupCommitStore WalStoreError GroupCommitPublishResult :=
  fun gc => if cond gc
            then (let! key := flush_buffer_as_object clock_ms now_ms in st_ret (record_flush result key)) gc
            else (gc, Ok result).

(** [publish_record] when the policy batches. *)
Definition publish_batched (clock : nat -> Z) (record : WalRecord) (now_ms : Z)
  : M WalGroupCommitStore WalStoreError GroupCommitPublishResult :=
  fun gc =>
    match encode_wal_record record with
    | Err e => (gc, Err (CorruptWal e))
    | Ok encoded =>
        (let! result := flush_if (fun gc => bool_decide (over_bytes encoded gc)) (clock 0%nat) now_ms
                          (mkGroupCommitPublishResult [] (len (buffer gc)) (buffered_bytes gc)) in
         let! _ := (fun gc => (push_record encoded now_ms gc, Ok tt)) in
         let! result := flush_if (fun gc => bool_decide (flush_wanted gc)) (clock 1%nat) now_ms result in
         (fun gc => (gc, Ok (mkGroupCommitPublishResult (flushed_object_keys result)
                               (len (buffer gc)) (buffered_bytes gc))))) gc
    end.
(** [WalGroupCommitStore::publish_record]; [fuel] is for the publish loop of the
    single-record mode. *)
Definition group_publish_record (fuel : nat) (clock : nat -> Z) (record : WalRecord) (now_ms : Z)
    (gc : WalGroupCommitStore) : option (WalGroupCommitStore * result GroupCommitPublishResult WalStoreError) :=
  if is_single_record_mode (policy gc) then
    match publish_record fuel clock record (wal_store gc) with
    | None => None
    | Some (ws, r) =>
        Some (set_wal ws gc, let? key := r in Ok (mkGroupCommitPublishResult [key] 0 0))
    end
  else Some (publish_batched clock record now_ms gc).

(** ** The invariant *)
Context `{!ObjectStoreLaws S}.

(** The log [L] is durable and the records [B] are buffered after it. *)
Record gc_ok (gc : WalGroupCommitStore) (L : list (str * list WalRecord)) (B : list WalRecord) : Prop := mkGcOk {
  gc_log : log_repr (namespace_prefix (wal_store gc)) (contents (object_store (wal_store gc))) L;
  gc_below : Forall (fun kr => exists p, parse_wal_object_key (namespace_prefix (wal_store gc)) (fst kr) = Some p /\
               start_seq p < next_seq (wal_store gc) - len (buffer gc)) L;
  gc_buffers : buffers (next_seq (wal_store gc) - len (buffer gc)) (buffer gc) B;
  gc_bytes : buffered_bytes gc = sum_encoded (buffer gc);
  gc_node : ws_node_id (wal_store gc) <> [];
  gc_seq : 0 <= next_seq (wal_store gc) - len (buffer gc) /\ next_seq (wal_store gc) <= u64_max
}.
(** The flushed object is addressable. *)
Definition gc_fits (gc : WalGroupCommitStore) : Prop := sum_encoded (buffer gc) + 4 * len (buffer gc) + 36 <= u64_max.

Lemma sum_encoded_nonneg b : 0 <= sum_encoded b.
Proof using.
  unfold sum_encoded. induction b as [|r b IH]; cbn [foldr]; [lia|].
  pose proof (len_nonneg (encoded_record r)). lia.
Qed.
Lemma sum_encoded_app a b : sum_encoded (a ++ b) = sum_encoded a + sum_encoded b.
Proof using. unfold sum_encoded. induction a as [|r a IH]; cbn [app foldr]; lia. Qed.

Lemma len_encode_batch_body records body :
  encode_batch_body records = Ok body -> len body = sum_encoded records + 4 * len records.
Proof using.
  revert body. induction records as [|r records IH]; intros body; cbn [encode_batch_body].
  { by intros <-%Ok_inj. }
  unfold u32_try_from. case_decide; run_res; [|done].
  destruct (encode_batch_body records) as [b|]; run_res; [|done]. intros <-%Ok_inj.
  rewrite !len_app, len_le_bytes, len_cons, (IH b eq_refl).
  change (sum_encoded (r :: records)) with (len (encoded_record r) + sum_encoded records). lia.
Qed.

Lemma put_and_verify_spec gc k payload gc' r :
  put_and_verify k payload gc = (gc', r) ->
  exists s, gc' = set_wal (set_store s (wal_store gc)) gc /\
    (contents (object_store (wal_store gc)) !! k = None -> is_ok r = true ->
     r = Ok k /\ contents s = <[k := payload]> (contents (object_store (wal_store gc)))).
Proof using.
  unfold put_and_verify. destruct (put_object k payload _) as [s1 [[]|e]] eqn:Ep.
  2:{ intros [= <- <-]. by exists s1. }
  apply put_object_law in Ep as [_ Hok]. specialize (Hok eq_refl).
  destruct (get_object k s1) as [s2 [v|e]] eqn:Eg; apply get_object_law in Eg as [Ec Hv];
    intros [= <- <-]; exists s2; (split; [done|]); [|done].
  intros Hn. specialize (Hok Hn). rewrite Hok, lookup_insert_eq in Hv. injection Hv as <-.
  rewrite decide_False by (intros []; done). intros _. split; [done|congruence].
Qed.

(** A fresh object whose records continue the log is appended to it. *)
Lemma append_object ns m L k p b rs :
  log_repr ns m L -> starts_with ns k = true -> parse_wal_object_key ns k = Some p ->
  Forall (fun kr => exists q, parse_wal_object_key ns (fst kr) = Some q /\ start_seq q < start_seq p) L ->
  decode_wal_object_records b = Ok rs ->
  m !! k = None /\ log_repr ns (<[k := b]> m) (L ++ [(k, rs)]).
Proof using.
  intros Hl Hpre Hp Hlt Hd.
  assert (Forall (fun kr => compare_wal_object_keys ns (fst kr) k = Lt) L) as Hcmp.
  { eapply Forall_impl; [exact Hlt|]. intros kr (q & Hq & Hlt'). unfold compare_wal_object_keys.
    rewrite Hq, Hp. by rewrite (proj2 (Z.compare_lt_iff _ _) Hlt'). }
  split; [|by apply log_append]. apply eq_None_not_Some. intros Hk.
  apply (lr_keys _ _ _ Hl) in Hk; [|done]. apply list_elem_of_fmap in Hk as (kr & -> & Hkr).
  rewrite Forall_forall in Hcmp. specialize (Hcmp kr Hkr).
  by rewrite (cmp_refl (compare_wal_object_keys ns)) in Hcmp.
Qed.

Lemma buffers_nil q : buffers q [] [].
Proof using. split; [constructor|]. by intros [|i] b. Qed.

(** What a flush that succeeds does to log and buffer. *)
Lemma gc_flushed gc gc' L B k p payload :
  gc_ok gc L B -> starts_with (namespace_prefix (wal_store gc)) k = true ->
  parse_wal_object_key (namespace_prefix (wal_store gc)) k = Some p ->
  start_seq p = next_seq (wal_store gc) - len (buffer gc) -> buffer gc <> [] ->
  decode_wal_object_records payload = Ok B ->
  (exists s, gc' = cleared (set_wal (set_store s (wal_store gc)) gc) /\
     contents s = <[k := payload]> (contents (object_store (wal_store gc)))) ->
  gc_ok gc' (L ++ [(k, B)]) [].
Proof using.
  intros [Hl Hb Hbuf Hby Hn Hq] Hpre Hp Hst Hne Hd (s & -> & Hs).
  destruct (append_object _ _ L k p payload B Hl Hpre Hp) as [_ Hl']; [by rewrite Hst|done|].
  assert (1 <= len (buffer gc)) by (destruct (buffer gc); [done|rewrite len_cons; pose proof (len_nonneg l); lia]).
  split; cbn [wal_store namespace_prefix object_store set_wal set_store cleared buffer buffered_bytes ws_node_id next_seq];
    change (len (@nil BufferedWalRecord)) with 0.
  - by rewrite Hs.
  - apply Forall_app. split.
    + eapply Forall_impl; [exact Hb|]. intros kr (q & ? & ?). exists q. split; [done|lia].
    + constructor; [|constructor]. exists p. split; [done|]. cbn. lia.
  - apply buffers_nil.
  - done.
  - done.
  - lia.
Qed.

(** The common part of the two kinds of flush. *)
Lemma gc_write gc L B k p payload gc1 gc2 k' :
  gc_ok gc L B -> starts_with (namespace_prefix (wal_store gc)) k = true ->
  parse_wal_object_key (namespace_prefix (wal_store gc)) k = Some p ->
  start_seq p = next_seq (wal_store gc) - len (buffer gc) -> buffer gc <> [] ->
  decode_wal_object_records payload = Ok B ->
  wal_store gc1 = wal_store gc -> policy gc1 = policy gc ->
  put_and_verify k payload gc1 = (gc2, Ok k') ->
  buffer (cleared gc2) = [] /\ policy (cleared gc2) = policy gc /\
  next_seq (wal_store (cleared gc2)) = next_seq (wal_store gc) /\ gc_ok (cleared gc2) (L ++ [(k', B)]) [].
Proof using.
  intros Hok Hpre Hp Hst Hne Hd Hw Hpol Hput.
  destruct (append_object _ _ L k p payload B (gc_log _ _ _ Hok) Hpre Hp) as [Hnone _];
    [rewrite Hst; apply Hok|done|].
  apply put_and_verify_spec in Hput as (s & -> & Hs). rewrite Hw in Hs.
  destruct (Hs Hnone eq_refl) as [Hk Hs']. apply Ok_inj in Hk as ->.
  split; [done|]. split; [done|]. split; [cbn; by rewrite Hw|].
  apply (gc_flushed gc _ L B k p payload); try done. exists s. split; [|done].
  unfold cleared, set_wal. cbn. by rewrite Hw, Hpol.
Qed.

Lemma flush_single_spec e gc L B r gc1 k :
  gc_ok gc L B -> buffer gc = [r] -> in_u64 e ->
  write_single_object_with_seq (seq r) (encoded_record r) e (set_buffer [] gc) = (gc1, Ok k) ->
  buffer (cleared gc1) = [] /\ policy (cleared gc1) = policy gc /\
  next_seq (wal_store (cleared gc1)) = next_seq (wal_store gc) /\ gc_ok (cleared gc1) (L ++ [(k, B)]) [].
Proof using.
  intros Hok Ebuf He Hw. pose proof (gc_buffers _ _ _ Hok) as [HF Hseq]. pose proof (gc_seq _ _ _ Hok) as Hq.
  rewrite Ebuf in HF, Hseq, Hq. change (len [r]) with 1 in *.
  assert (seq r = next_seq (wal_store gc) - 1) as Hr by (rewrite (Hseq 0%nat r eq_refl); lia).
  apply Forall2_cons_inv_l in HF as (rec & B' & Henc & HF & ->). apply Forall2_nil_inv_l in HF as ->.
  eapply (gc_write gc L [rec] _ _ (encoded_record r) (set_buffer [] gc)); [done| | | | | |done|done|exact Hw].
  - apply build_key_starts_with.
  - apply parse_chunk_key; [apply Hok|done|]. rewrite Hr. unfold in_u64. lia.
  - cbn [start_seq]. rewrite Hr, Ebuf. done.
  - by rewrite Ebuf.
  - by apply decode_single_object.
Qed.

Lemma len_wal_batch_payload records payload :
  encode_wal_batch_payload records = Ok payload ->
  len payload = sum_encoded records + 4 * len records + 36.
Proof using.
  unfold encode_wal_batch_payload. destruct records as [|r records]; [done|].
  destruct (u32_try_from _); run_res; [|done].
  destruct (encode_batch_body (r :: records)) as [body|] eqn:Eb; run_res; [|done].
  intros <-%Ok_inj. apply len_encode_batch_body in Eb. solve_len.
Qed.

Lemma flush_batch_spec e gc L B first rest stop payload gc1 k :
  gc_ok gc L B -> gc_fits gc -> buffer gc = first :: rest -> in_u64 e -> in_u64 stop ->
  encode_wal_batch_payload (buffer gc) = Ok payload ->
  write_batch_object (seq first) stop payload e gc = (gc1, Ok k) ->
  buffer (cleared gc1) = [] /\ policy (cleared gc1) = policy gc /\
  next_seq (wal_store (cleared gc1)) = next_seq (wal_store gc) /\ gc_ok (cleared gc1) (L ++ [(k, B)]) [].
Proof using.
  intros Hok Hfit Ebuf He Hstop Hpl Hw. pose proof (gc_seq _ _ _ Hok) as Hq.
  assert (seq first = next_seq (wal_store gc) - len (buffer gc)) as Hr.
  { destruct (gc_buffers _ _ _ Hok) as [_ Hseq]. rewrite (Hseq 0%nat first) by by rewrite Ebuf. lia. }
  eapply (gc_write gc L B _ _ payload gc); [done| | | | | |done|done|exact Hw].
  - apply build_batch_key_starts_with.
  - apply parse_batch_key; [apply Hok|done| |done]. rewrite Hr. unfold in_u64.
    pose proof (len_nonneg (buffer gc)). lia.
  - exact Hr.
  - by rewrite Ebuf.
  - apply (decode_batch_object (next_seq (wal_store gc) - len (buffer gc)) (buffer gc));
      [apply Hok|lia|lia| |done].
    apply len_wal_batch_payload in Hpl. unfold gc_fits in Hfit. lia.
Qed.

Lemma flush_buffer_spec clock_ms now_ms gc L B gc' res :
  gc_ok gc L B -> gc_fits gc -> in_u64 (Z.max now_ms clock_ms) ->
  flush_buffer_as_object clock_ms now_ms gc = (gc', Ok res) ->
  match res with
  | None => B = [] /\ gc' = gc
  | Some k => buffer gc' = [] /\ policy gc' = policy gc /\
              next_seq (wal_store gc') = next_seq (wal_store gc) /\ gc_ok gc' (L ++ [(k, B)]) []
  end.
Proof using.
  intros Hok Hfit He. unfold flush_buffer_as_object. cbv zeta.
  destruct (buffer gc) as [|r1 [|r2 rest]] eqn:Ebuf.
  - intros [= <- <-]. split; [|done]. destruct (gc_buffers _ _ _ Hok) as [HF _]. rewrite Ebuf in HF. by inversion HF.
  - destruct (write_single_object_with_seq _ _ _ _) as [gc1 [k|e]] eqn:Ew; [|done]. intros [= <- <-].
    by apply (flush_single_spec (Z.max now_ms clock_ms) gc L B r1 gc1 k).
  - rewrite <- Ebuf. set (stop := match last (buffer gc) with Some r => seq r | None => seq r1 end).
    destruct (encode_wal_batch_payload (buffer gc)) as [payload|] eqn:Epl; [|done].
    destruct (write_batch_object _ _ _ _ _) as [gc1 [k|e]] eqn:Ew; [|done]. intros [= <- <-].
    apply (flush_batch_spec (Z.max now_ms clock_ms) gc L B r1 (r2 :: rest) stop payload gc1 k); try done.
    destruct (gc_buffers _ _ _ Hok) as [_ Hseq]. pose proof (gc_seq _ _ _ Hok) as Hq.
    unfold stop. destruct (last (buffer gc)) as [b|] eqn:El; [|apply last_None in El; congruence].
    rewrite last_lookup in El. pose proof (lookup_lt_Some _ _ _ El). rewrite (Hseq _ _ El).
    unfold in_u64, len in *. lia.
Qed.

(** ** Publishing *)
Lemma push_record_spec gc L B record encoded now_ms :
  gc_ok gc L B -> encode_wal_record record = Ok encoded -> next_seq (wal_store gc) < u64_max ->
  gc_ok (push_record encoded now_ms gc) L (B ++ [record]).
Proof using.
  intros [Hl Hb [HF Hseq] Hby Hn Hq] Henc Hmax. unfold push_record.
  split; cbn [wal_store bump_seq namespace_prefix object_store next_seq buffer buffered_bytes ws_node_id];
    unfold saturating_add; rewrite ?Z.min_l, ?len_app by lia;
    change (len [mkBufferedWalRecord (next_seq (wal_store gc)) encoded]) with 1;
    try replace (next_seq (wal_store gc) + 1 - (len (buffer gc) + 1)) with (next_seq (wal_store gc) - len (buffer gc)) by lia;
    try done.
  - split; [by apply Forall2_app; [|repeat constructor]|].
    intros i b. destruct (decide (i < length (buffer gc))%nat).
    + rewrite lookup_app_l by done. apply Hseq.
    + rewrite lookup_app_r by lia. intros Hi.
      destruct (i - length (buffer gc))%nat as [|j] eqn:Ej; [|by destruct j].
      cbn in Hi. injection Hi as <-. cbn [seq]. unfold len in *. lia.
  - lia.
Qed.

Lemma flush_if_spec cond clock_ms now_ms result gc L B gc' result' :
  gc_ok gc L B -> gc_fits gc -> in_u64 (Z.max now_ms clock_ms) ->
  flush_if cond clock_ms now_ms result gc = (gc', Ok result') ->
  (cond gc = true -> buffer gc' = []) /\ (cond gc = false -> gc' = gc) /\
  policy gc' = policy gc /\ next_seq (wal_store gc') = next_seq (wal_store gc) /\
  (gc' = gc \/ buffer gc' = []) /\
  exists L' B', gc_ok gc' (L ++ L') B' /\ log_records L' ++ B' = B /\
    flushed_object_keys result' = flushed_object_keys result ++ map fst L' /\
    (L' = [] \/ cond gc = true /\ exists k, L' = [(k, B)]).
Proof using.
  intros Hok Hfit He. unfold flush_if. destruct (cond gc).
  2:{ intros [= <- <-]. split; [done|]. split; [done|]. split; [done|]. split; [done|]. split; [by left|].
      exists [], B. rewrite !app_nil_r. auto. }
  unfold st_bind, st_ret. destruct (flush_buffer_as_object clock_ms now_ms gc) as [gc1 [key|e]] eqn:Ef; [|done].
  intros [= <- <-]. pose proof (flush_buffer_spec clock_ms now_ms gc L B gc1 key Hok Hfit He Ef) as Hs.
  destruct key as [k|]; cbn [record_flush].
  - destruct Hs as (H1 & H2 & H3 & H4). split; [done|]. split; [done|]. split; [done|]. split; [done|].
    split; [by right|]. exists [(k, B)], []. split; [done|].
    split; [unfold log_records; cbn; by rewrite !app_nil_r|]. split; [done|]. right. eauto.
  - destruct Hs as [-> ->]. split; [|].
    { intros _. destruct (gc_buffers _ _ _ Hok) as [HF _]. by inversion HF. }
    split; [done|]. split; [done|]. split; [done|]. split; [by left|]. exists [], []. rewrite !app_nil_r. auto.
Qed.

(** A publish under a batching policy that succeeds: what it flushes before and after
    it buffers the record, and what is left. *)
Lemma publish_batched_spec clock record now_ms gc L B gc' res :
  gc_ok gc L B -> is_single_record_mode (policy gc) = false ->
  in_u64 now_ms -> (forall n, in_u64 (clock n)) -> next_seq (wal_store gc) < u64_max ->
  (forall encoded, encode_wal_record record = Ok encoded -> gc_fits (push_record encoded now_ms gc)) ->
  publish_batched clock record now_ms gc = (gc', Ok res) ->
  exists encoded L1 B1 L2 B2, encode_wal_record record = Ok encoded /\
    gc_ok gc' (L ++ L1 ++ L2) B2 /\ log_records L1 ++ B1 = B /\ log_records L2 ++ B2 = B1 ++ [record] /\
    (L1 = [] \/ over_bytes encoded gc /\ exists k, L1 = [(k, B)]) /\
    (L2 = [] \/ exists k gc1, L2 = [(k, B1 ++ [record])] /\ policy gc1 = policy gc /\ gc_ok gc1 (L ++ L1) (B1 ++ [record]) /\ flush_wanted gc1) /\
    flushed_object_keys res = map fst (L1 ++ L2) /\ buffered_records res = len (buffer gc') /\
    policy gc' = policy gc /\ next_seq (wal_store gc') = next_seq (wal_store gc) + 1 /\
    len (buffer gc') < max_records (policy gc) /\ sum_encoded (buffer gc') < max_bytes (policy gc).
Proof using.
  intros Hok Hmode Hnow Hclock Hmax Hfit.
  unfold is_single_record_mode in Hmode. apply orb_false_iff in Hmode as [Hmr Hmb].
  apply bool_decide_eq_false in Hmr, Hmb. unfold publish_batched.
  destruct (encode_wal_record record) as [encoded|] eqn:Henc; [|done]. specialize (Hfit encoded eq_refl).
  assert (forall n, in_u64 (Z.max now_ms (clock n))) as He by (intros n; specialize (Hclock n); unfold in_u64 in *; lia).
  assert (gc_fits gc) as Hfit0.
  { unfold gc_fits, push_record in *. cbn [buffer] in Hfit. rewrite sum_encoded_app, len_app in Hfit.
    pose proof (sum_encoded_nonneg [mkBufferedWalRecord (next_seq (wal_store gc)) encoded]).
    unfold len in *. cbn in *. lia. }
  unfold st_bind at 1.
  destruct (flush_if _ (clock 0%nat) now_ms _ gc) as [gc1 [r1|e]] eqn:E1; [|done].
  apply (flush_if_spec _ _ _ _ _ L B) in E1 as (_ & _ & Hp1 & Hq1 & Hsame & L1 & B1 & Hok1 & HB1 & Hk1 & Hc1); [|done..].
  unfold st_bind at 1. unfold st_bind at 1.
  pose proof (push_record_spec gc1 (L ++ L1) B1 record encoded now_ms Hok1 Henc ltac:(lia)) as Hok2.
  assert (gc_fits (push_record encoded now_ms gc1)) as Hfit2.
  { destruct Hsame as [->|Hbuf]; [done|]. unfold gc_fits, push_record in *. cbn [buffer] in *.
    rewrite Hbuf. rewrite sum_encoded_app, len_app in Hfit. pose proof (sum_encoded_nonneg (buffer gc)).
    pose proof (len_nonneg (buffer gc)). unfold sum_encoded, len in *. cbn in *. lia. }
  destruct (flush_if _ (clock 1%nat) now_ms r1 _) as [gc3 [r3|e]] eqn:E3; [|done].
  apply (flush_if_spec _ _ _ _ _ (L ++ L1) (B1 ++ [record])) in E3
    as (Hyes & Hno & Hp3 & Hq3 & _ & L3 & B3 & Hok3 & HB3 & Hk3 & Hc3); [|done..].
  intros [= <- <-]. cbn [flushed_object_keys buffered_records].
  assert (policy gc3 = policy gc) as Hpol by (rewrite Hp3; cbn; done).
  exists encoded, L1, B1, L3, B3. split; [done|]. split; [by rewrite app_assoc|]. split; [done|]. split; [done|].
  split; [destruct Hc1 as [?|[Hb ?]]; [by left|right; by apply bool_decide_eq_true in Hb]|].
  split; [destruct Hc3 as [?|[Hb [k ?]]]; [by left|right]|].
  { apply bool_decide_eq_true in Hb. exists k, (push_record encoded now_ms gc1). by rewrite <- Hp1. }
  split; [by rewrite Hk3, Hk1, map_app|]. split; [done|]. split; [done|].
  split; [rewrite Hq3; cbn; unfold saturating_add; lia|].
  destruct (decide (flush_wanted (push_record encoded now_ms gc1))) as [Hw|Hw].
  - rewrite bool_decide_eq_true_2 in Hyes by done. rewrite (Hyes eq_refl). unfold sum_encoded, len. cbn. lia.
  - rewrite bool_decide_eq_false_2 in Hno by done. rewrite (Hno eq_refl) in *.
    rewrite <- (gc_bytes _ _ _ Hok2). unfold flush_wanted in Hw. rewrite Hpol in Hw. lia.
Qed.

(** C9: group commit loses, duplicates and reorders nothing: when a publish under
    a batching policy succeeds, the durable log followed by the buffer is what it
    was, followed by the new record; the log only grows, by the objects the call
    reports; and the buffer is left within the policy's limits on records and
    bytes. *)
Theorem group_publish_preserves_order fuel clock record now_ms gc L B gc' res :
  gc_ok gc L B -> is_single_record_mode (policy gc) = false ->
  in_u64 now_ms -> (forall n, in_u64 (clock n)) -> next_seq (wal_store gc) < u64_max ->
  (forall encoded, encode_wal_record record = Ok encoded -> gc_fits (push_record encoded now_ms gc)) ->
  group_publish_record fuel clock record now_ms gc = Some (gc', Ok res) ->
  (exists L' B', gc_ok gc' (L ++ L') B' /\ log_records L' ++ B' = B ++ [record] /\
     flushed_object_keys res = map fst L') /\
  buffered_records res = len (buffer gc') /\
  len (buffer gc') < max_records (policy gc') /\ sum_encoded (buffer gc') < max_bytes (policy gc').
Proof using.
  intros Hok Hmode Hnow Hclock Hmax Hfit. unfold group_publish_record. rewrite Hmode. intros [= Hpub].
  destruct (publish_batched_spec clock record now_ms gc L B gc' res Hok Hmode Hnow Hclock Hmax Hfit Hpub)
    as (encoded & L1 & B1 & L2 & B2 & _ & Hok' & HB1 & HB2 & _ & _ & Hk & Hb & Hp & _ & Hr & Hs).
  rewrite Hp. split; [|done]. exists (L1 ++ L2), B2. split; [done|]. split; [|done].
  unfold log_records in *. by rewrite map_app, concat_app, <- app_assoc, HB2, app_assoc, HB1.
Qed.

(** ** Failed flushes *)

(** A flush of two or more records that fails keeps them: buffer, byte count,
    age and sequence number are as before, and the store is as before or holds the
    batch object, so the flush can be tried again. *)
Theorem failed_batch_flush_keeps_buffer clock_ms now_ms gc gc' e :
  2 <= len (buffer gc) ->
  flush_buffer_as_object clock_ms now_ms gc = (gc', Err e) ->
  buffer gc' = buffer gc /\ buffered_bytes gc' = buffered_bytes gc /\
  first_buffered_at_ms gc' = first_buffered_at_ms gc /\
  next_seq (wal_store gc') = next_seq (wal_store gc) /\
  (contents (object_store (wal_store gc')) = contents (object_store (wal_store gc)) \/
   exists k payload, encode_wal_batch_payload (buffer gc) = Ok payload /\
     contents (object_store (wal_store gc')) = <[k := payload]> (contents (object_store (wal_store gc)))).
Proof using.
  intros Hlen. unfold flush_buffer_as_object. cbv zeta.
  destruct (buffer gc) as [|r1 [|r2 rest]] eqn:Ebuf; [done|by change (len [r1]) with 1 in Hlen|].
  rewrite <- Ebuf. destruct (encode_wal_batch_payload (buffer gc)) as [payload|e'] eqn:Epl.
  2:{ intros [= <- <-]. repeat (split; [done|]). by left. }
  unfold write_batch_object, put_and_verify. set (k := build_canonical_wal_batch_key _ _ _ _ _).
  destruct (put_object k payload _) as [s1 [[]|e1]] eqn:Ep; apply put_object_law in Ep as [Hor _].
  - destruct (get_object k s1) as [s2 [v|e2]] eqn:Eg; apply get_object_law in Eg as [Ec _]; [case_decide|];
      intros [= <- <-]; repeat (split; [done|]); cbn;
      (destruct Hor as [Hor|Hor]; [left; congruence|right; exists k, payload; split; [done|congruence]]).
  - intros [= <- <-]. repeat (split; [done|]). cbn.
    destruct Hor as [Hor|Hor]; [by left|right; by exists k, payload].
Qed.

(** A flush of a single record that fails forgets it: the record was removed
    from the buffer before the write, nothing puts it back, and the byte count
    and age still describe it. *)
Theorem failed_single_flush_drops_record clock_ms now_ms gc gc' e r :
  buffer gc = [r] -> flush_buffer_as_object clock_ms now_ms gc = (gc', Err e) ->
  buffer gc' = [] /\ buffered_bytes gc' = buffered_bytes gc /\
  first_buffered_at_ms gc' = first_buffered_at_ms gc.
Proof using.
  intros Ebuf. unfold flush_buffer_as_object. cbv zeta. rewrite Ebuf.
  unfold write_single_object_with_seq, put_and_verify.
  destruct (put_object _ _ _) as [s1 [[]|e1]]; [|by intros [= <- <-]].
  destruct (get_object _ _) as [s2 [v|e2]]; [case_decide|]; by intros [= <- <-].
Qed.
End Group.
Arguments WalGroupCommitStore : clear implicits.

(** ** Witnesses on the in-memory store *)
Definition sample_policy : WalBatchPolicy := mkWalBatchPolicy 250 2 1000.
Definition sample_group : WalGroupCommitStore InMemoryObjectStore :=
  mkWalGroupCommitStore (mkWalStore sample_ns (lit "node-1") in_memory_default 2) sample_policy
    [sample_buffered 1 "p1"] (sum_encoded [sample_buffered 1 "p1"]) (Some 10).

Lemma sample_group_ok : gc_ok sample_group [] [sample_record "p1"].
Proof.
  split; cbn [wal_store sample_group namespace_prefix object_store next_seq buffer buffered_bytes ws_node_id].
  - apply empty_log.
  - constructor.
  - split; [repeat constructor|]. intros [|[|i]] b; cbn; [by intros [= <-]|done|done].
  - done.
  - done.
  - change (len [sample_buffered 1 "p1"]) with 1. lia.
Qed.

(** The second record fills the batch, which is written. *)
Definition group_run : option (WalGroupCommitStore InMemoryObjectStore * result GroupCommitPublishResult WalStoreError) :=
  group_publish_record 1 (fun _ => 1700) (sample_record "p2") 20 sample_group.
Definition group_after : WalGroupCommitStore InMemoryObjectStore :=
  match group_run with Some (gc, _) => gc | None => sample_group end.
Definition group_result : GroupCommitPublishResult :=
  match group_run with Some (_, Ok r) => r | _ => mkGroupCommitPublishResult [] 0 0 end.

Lemma group_publish_preserves_order_witness :
  (exists L' B', gc_ok group_after ([] ++ L') B' /\
     log_records L' ++ B' = [sample_record "p1"] ++ [sample_record "p2"] /\
     flushed_object_keys group_result = map fst L') /\
  buffered_records group_result = len (buffer group_after) /\
  len (buffer group_after) < max_records (policy group_after) /\
  sum_encoded (buffer group_after) < max_bytes (policy group_after).
Proof.
  apply (group_publish_preserves_order 1 (fun _ => 1700) (sample_record "p2") 20 sample_group
           [] [sample_record "p1"]).
  - apply sample_group_ok.
  - reflexivity.
  - unfold in_u64. lia.
  - intros n. unfold in_u64. lia.
  - cbn. lia.
  - intros encoded. rewrite encode_wal_record_eq. case_decide; [|discriminate]. intros <-%Ok_inj.
    vm_compute. discriminate.
  - reflexivity.
Defined.

(** A store whose mutex is poisoned rejects the write. *)
Definition poisoned_store : InMemoryObjectStore := mkInMemoryObjectStore ∅ true.
Definition poisoned_group (b : list BufferedWalRecord) : WalGroupCommitStore InMemoryObjectStore :=
  mkWalGroupCommitStore (mkWalStore sample_ns (lit "node-1") poisoned_store 3) sample_policy
    b (sum_encoded b) (Some 10).

Lemma failed_batch_flush_keeps_buffer_witness :
  let b := [sample_buffered 1 "p1"; sample_buffered 2 "p2"] in
  let gc' := fst (flush_buffer_as_object 1700 20 (poisoned_group b)) in
  snd (flush_buffer_as_object 1700 20 (poisoned_group b)) = Err ObjectStorePoisoned /\ buffer gc' = b.
Proof.
  intros b gc'. split; [reflexivity|].
  apply (failed_batch_flush_keeps_buffer 1700 20 (poisoned_group b) gc' ObjectStorePoisoned);
    [vm_compute; discriminate|reflexivity].
Defined.

Lemma failed_single_flush_drops_record_witness :
  let b := [sample_buffered 1 "p1"] in
  let gc' := fst (flush_buffer_as_object 1700 20 (poisoned_group b)) in
  snd (flush_buffer_as_object 1700 20 (poisoned_group b)) = Err ObjectStorePoisoned /\
  buffer gc' = [] /\ buffered_bytes gc' = sum_encoded b.
Proof.
  intros b gc'. split; [reflexivity|].
  destruct (failed_single_flush_drops_record 1700 20 (poisoned_group b) gc' ObjectStorePoisoned
              (sample_buffered 1 "p1") ltac:(reflexivity) ltac:(reflexivity)) as (H1 & H2 & _).
  split; [exact H1|exact H2].
Defined.
