(* ===== verification/SegmentStore.v ===== *)
(** * Range reads over compacted segments ([segment_store.rs])

    Models [crates/wombatkv-store/src/segment_store.rs]: the payload window of a
    range read, the entries that point into it, and the copying read built on it.

    The theorem shows that a range read of an encoded segment returns exactly the
    blocks whose keys lie in the closed range, with their payloads and in segment
    order, in at most two round trips, for any store that meets
    [ObjectStoreLaws], and that it does return on a store that does not fail. *)

From S2P Require Import Prelude Order Format ObjectStore.

Inductive SegmentStoreError :=
| StoreErr (e : WalStoreError)
| FormatErr (e : FormatError)
| InvalidRange.

Record RangeReadResult := mkRangeReadResult { rr_entries : list (bytes * bytes); rr_round_trips : Z }.
Record WindowEntry := mkWindowEntry { we_key : bytes; window_offset : Z; we_payload_len : Z }.
Record RangeReadWindow := mkRangeReadWindow {
  payload_window : bytes; w_entries : list WindowEntry; round_trips : Z
}.

(** [RangeReadWindow::payload]: [None] when the entry or its range is missing. *)
Definition payload (w : RangeReadWindow) (index : nat) : option bytes :=
  entry ← w_entries w !! index;
  stop ← checked_add (window_offset entry) (we_payload_len entry);
  if decide (stop <= len (payload_window w)) then Some (slice (window_offset entry) stop (payload_window w))
  else None.

Definition round_trip_budget_bound : Z := 2.

Definition in_range (key_start key_end : bytes) (k : bytes) : Prop :=
  cmp_le bytes_cmp key_start k /\ cmp_le bytes_cmp k key_end.
#[global] Instance in_range_dec a b k : Decision (in_range a b k).
Proof. unfold in_range. apply _. Defined.

Definition entry_end (e : SegmentIndexEntry) : Z := saturating_add (payload_offset e) (payload_len e).
(** [iter().min()] and [iter().max()] *)
Definition list_min (l : list Z) : option Z :=
  match l with [] => None | x :: l' => Some (foldr Z.min x l') end.
Definition list_max (l : list Z) : option Z :=
  match l with [] => None | x :: l' => Some (foldr Z.max x l') end.

(** The loop that places the selected entries in the window. *)
Fixpoint window_entries (window_len min_offset : Z) (selected : list SegmentIndexEntry)
  : result (list WindowEntry) SegmentStoreError :=
  match selected with
  | [] => Ok []
  | entry :: rest =>
      let start := saturating_sub (payload_offset entry) min_offset in
      let stop := saturating_add start (payload_len entry) in
      if decide (stop > window_len) then Err (FormatErr UnexpectedEof)
      else let? out := window_entries window_len min_offset rest in
           Ok (mkWindowEntry (se_key entry) start (payload_len entry) :: out)
  end.

Section Segment.
Context {S : Type} `{!ObjectStore S}.

(** [r?] at the error type of this module. *)
Definition lift_store {A} (c : M S WalStoreError A) : M S SegmentStoreError A :=
  fun s => let (s, r) := c s in (s, map_err StoreErr r).

Definition range_read_window (object_key : str) (key_start key_end : bytes)
  : M S SegmentStoreError RangeReadWindow :=
  if decide (bytes_cmp key_start key_end = Gt) then st_fail InvalidRange else
  let! object := lift_store (get_object object_key) in
  let! index := st_lift (map_err FormatErr (decode_segment_index object)) in
  let selected := filter (fun e => in_range key_start key_end (se_key e)) index in
  match selected with
  | [] => st_ret (mkRangeReadWindow [] [] 1)
  | _ =>
      let! min_offset := st_lift (ok_or (list_min (map payload_offset selected)) (FormatErr UnexpectedEof)) in
      let! max_end := st_lift (ok_or (list_max (map entry_end selected)) (FormatErr UnexpectedEof)) in
      let! window := lift_store (get_object_range object_key min_offset max_end) in
      let! out := st_lift (window_entries (len window) min_offset selected) in
      st_ret (mkRangeReadWindow window out 2)
  end.

(** The copying loop of [range_read], from entry [idx] on. *)
Fixpoint copy_entries (w : RangeReadWindow) (idx : nat) (es : list WindowEntry)
  : result (list (bytes * bytes)) SegmentStoreError :=
  match es with
  | [] => Ok []
  | entry :: rest =>
      let? p := ok_or (payload w idx) (FormatErr UnexpectedEof) in
      let? out := copy_entries w (Datatypes.S idx) rest in
      Ok ((we_key entry, p) :: out)
  end.
Definition range_read (object_key : str) (key_start key_end : bytes) : M S SegmentStoreError RangeReadResult :=
  let! window := range_read_window object_key key_start key_end in
  let! es := st_lift (copy_entries window 0 (w_entries window)) in
  st_ret (mkRangeReadResult es (round_trips window)).
End Segment.

(** ** Windows *)
Lemma list_min_spec l m : list_min l = Some m -> m ∈ l /\ Forall (fun x => m <= x) l.
Proof.
  destruct l as [|x l]; cbn; [done|]. intros [= <-]. revert x. induction l as [|y l IH]; intros x; cbn.
  { split; [by left|]. repeat constructor. lia. }
  destruct (IH x) as [Hin Hall]. apply Forall_cons in Hall as [Hx Hall].
  destruct (Z.min_spec y (foldr Z.min x l)) as [[Hlt ->]|[Hle ->]].
  - split; [right; by left|]. repeat constructor; [lia|lia|]. eapply Forall_impl; [exact Hall|]. cbn. lia.
  - split; [|repeat constructor; [lia|lia|done]]. apply elem_of_cons in Hin as [->|Hin]; [by left|right; by right].
Qed.

Lemma list_max_spec l m : list_max l = Some m -> m ∈ l /\ Forall (fun x => x <= m) l.
Proof.
  destruct l as [|x l]; cbn; [done|]. intros [= <-]. revert x. induction l as [|y l IH]; intros x; cbn.
  { split; [by left|]. repeat constructor. lia. }
  destruct (IH x) as [Hin Hall]. apply Forall_cons in Hall as [Hx Hall].
  destruct (Z.max_spec y (foldr Z.max x l)) as [[Hlt ->]|[Hle ->]].
  - split; [|repeat constructor; [lia|lia|done]]. apply elem_of_cons in Hin as [->|Hin]; [by left|right; by right].
  - split; [right; by left|]. repeat constructor; [lia|lia|]. eapply Forall_impl; [exact Hall|]. cbn. lia.
Qed.

(** An entry of the window shows its block. *)
Definition window_shows (window : bytes) (b : bytes * bytes) (e : WindowEntry) : Prop :=
  we_key e = fst b /\ 0 <= window_offset e /\ we_payload_len e = len (snd b) /\
  window_offset e + we_payload_len e <= len window /\
  slice (window_offset e) (window_offset e + we_payload_len e) window = snd b.

Lemma filter_blocks (seg : bytes) (P : bytes -> Prop) `{!forall k, Decision (P k)} blocks es :
  Forall2 (block_indexed seg) blocks es ->
  Forall2 (block_indexed seg) (filter (fun b => P (fst b)) blocks) (filter (fun e => P (se_key e)) es).
Proof.
  induction 1 as [|b e blocks es Hb _ IH]; [constructor|]. rewrite !filter_cons.
  destruct Hb as (Hk & Hb). rewrite Hk. case_decide; [|done]. constructor; [by split|done].
Qed.

Lemma window_entries_spec seg window lo hi bs es :
  Forall2 (block_indexed seg) bs es -> 0 <= lo -> hi <= len seg -> len seg <= u64_max ->
  Forall (fun e => lo <= payload_offset e /\ payload_offset e + payload_len e <= hi) es ->
  window = slice lo hi seg -> lo <= hi ->
  exists out, window_entries (len window) lo es = Ok out /\ Forall2 (window_shows window) bs out.
Proof.
  intros HF Hlo Hhi Hmax Hin -> Hle.
  assert (len (slice lo hi seg) = hi - lo) as Hlen by (apply length_slice_le; lia).
  induction HF as [|b e bs es (Hk & Hl & Ho & He & Hs) _ IH]; cbn [window_entries]; [by eexists|].
  apply Forall_cons in Hin as [[H1 H2] Hin]. destruct (IH Hin) as (out & Eo & Hout).
  pose proof (len_nonneg (snd b)). unfold saturating_sub, saturating_add.
  rewrite Z.max_l, Z.min_l by lia. rewrite decide_False by lia. rewrite Eo. run_res.
  eexists. split; [done|]. constructor; [|done].
  split; [done|]. cbn [window_offset we_payload_len]. split; [lia|]. split; [done|]. split; [lia|].
  rewrite slice_slice by lia. rewrite <- Hs. f_equal; lia.
Qed.

Lemma copy_entries_spec w bs : forall pre es,
  w_entries w = pre ++ es -> Forall2 (window_shows (payload_window w)) bs es ->
  len (payload_window w) <= u64_max ->
  copy_entries w (length pre) es = Ok bs.
Proof.
  induction bs as [|b bs IH]; intros pre es Hw HF Hmax.
  { by apply Forall2_nil_inv_l in HF as ->. }
  apply Forall2_cons_inv_l in HF as (e & es' & (Hk & Ho & Hl & He & Hs) & HF & ->). cbn [copy_entries].
  unfold payload. rewrite Hw, list_lookup_middle by done. cbn [mbind option_bind].
  pose proof (len_nonneg (snd b)). unfold checked_add. rewrite decide_True by lia. cbn [mbind option_bind].
  rewrite decide_True, Hs by done. run_res.
  pose proof (IH (pre ++ [e]) es') as IH'. rewrite length_app, Nat.add_1_r in IH'.
  rewrite IH'; [|by rewrite <- app_assoc|done|done]. run_res. rewrite Hk. by destruct b.
Qed.

(** The window that covers the selected entries. *)
Lemma selection_bounds seg bs selected :
  Forall2 (block_indexed seg) bs selected -> selected <> [] -> len seg <= u64_max ->
  exists lo hi, list_min (map payload_offset selected) = Some lo /\ list_max (map entry_end selected) = Some hi /\
    0 <= lo /\ lo <= hi /\ hi <= len seg /\
    Forall (fun e => lo <= payload_offset e /\ payload_offset e + payload_len e <= hi) selected.
Proof.
  intros HF Hne Hmax.
  destruct (list_min (map payload_offset selected)) as [lo|] eqn:Elo; [|by destruct selected].
  destruct (list_max (map entry_end selected)) as [hi|] eqn:Ehi; [|by destruct selected].
  apply list_min_spec in Elo as [Hlo_in Hlo]. apply list_max_spec in Ehi as [Hhi_in Hhi].
  assert (Forall (fun e => 0 <= payload_offset e /\ 0 <= payload_len e /\
                           payload_offset e + payload_len e <= len seg) selected) as Hbd.
  { clear - HF. induction HF as [|kb e bs es' (?&?&?&?&?) _ IH]; constructor; [|done].
    pose proof (len_nonneg (snd kb)). lia. }
  assert (Forall (fun e => lo <= payload_offset e /\ payload_offset e + payload_len e <= hi) selected) as Hin.
  { rewrite !Forall_forall in *. intros e He. specialize (Hbd e He).
    assert (lo <= payload_offset e) by (apply Hlo; by apply list_elem_of_fmap_2).
    assert (entry_end e <= hi) as Hee by (apply Hhi; by apply list_elem_of_fmap_2).
    unfold entry_end, saturating_add in Hee. lia. }
  exists lo, hi. split; [done|]. split; [done|]. rewrite !Forall_forall in *.
  apply list_elem_of_fmap in Hlo_in as (e2 & -> & He2), Hhi_in as (e3 & -> & He3).
  pose proof (Hbd e2 He2). pose proof (Hbd e3 He3). pose proof (Hin e2 He2).
  unfold entry_end, saturating_add in *. split; [lia|]. split; [lia|]. split; [lia|done].
Qed.

(** What a range read within the object returns. *)
Lemma range_window_slice (m : gmap str bytes) k seg win lo hi :
  m !! k = Some seg -> 0 <= lo -> lo <= hi -> hi <= len seg ->
  (lo < hi -> exists bs, m !! k = Some bs /\ win = clamp_range bs lo hi) /\ (hi <= lo -> win = []) ->
  win = slice lo hi seg.
Proof.
  intros Hk Hlo Hle Hhi [Hw1 Hw2]. destruct (decide (lo < hi)) as [Hlt|Hge].
  - destruct (Hw1 Hlt) as (bs & Hbs & ->). rewrite Hk in Hbs. injection Hbs as <-.
    unfold clamp_range. rewrite decide_False by lia. by rewrite Z.min_l by lia.
  - rewrite (Hw2 ltac:(lia)). unfold slice. by replace (Z.to_nat (hi - lo)) with 0%nat by lia.
Qed.

Lemma range_read_window_spec {S} `{!ObjectStore S} `{!ObjectStoreLaws S} object_key a b seg blocks (s s' : S) w :
  contents s !! object_key = Some seg -> encode_segment_v1 blocks = Ok seg -> len seg <= u64_max ->
  range_read_window object_key a b s = (s', Ok w) ->
  contents s' = contents s /\ 1 <= round_trips w <= 2 /\ len (payload_window w) <= len seg /\
  Forall2 (window_shows (payload_window w)) (filter (fun kb => in_range a b (fst kb)) blocks) (w_entries w).
Proof.
  intros Hseg Henc Hmax. unfold range_read_window. case_decide; [done|].
  destruct (decode_encode_segment blocks seg Henc) as (es & Hdec & HF).
  unfold st_bind at 1, lift_store. destruct (get_object object_key s) as [s1 [obj|e]] eqn:Eg; [|done].
  apply get_object_law in Eg as [E1 Hobj]. rewrite Hseg in Hobj. injection Hobj as <-.
  cbn [map_err]. unfold st_bind at 1, st_lift. rewrite Hdec. cbn [map_err].
  apply (filter_blocks seg (in_range a b)) in HF.
  destruct (filter (fun e => in_range a b (se_key e)) es) as [|e1 sel] eqn:Esel.
  { intros [= <- <-]. cbn. apply Forall2_nil_inv_r in HF as ->. split; [done|]. split; [lia|].
    split; [apply len_nonneg|constructor]. }
  rewrite <- Esel in *. set (selected := filter _ es) in *.
  destruct (selection_bounds seg _ selected HF) as (lo & hi & -> & -> & Hlo0 & Hlohi & Hhi0 & Hin);
    [by rewrite Esel|done|].
  unfold st_bind. cbn [ok_or].
  destruct (get_object_range object_key lo hi s1) as [s2 [win|e]] eqn:Er; [|done].
  apply get_object_range_law in Er as [E2 Hwin]. specialize (Hwin win eq_refl). cbn [map_err].
  rewrite E1 in Hwin.
  assert (win = slice lo hi seg) as Hw by by apply (range_window_slice (contents s) object_key).
  destruct (window_entries_spec seg win lo hi _ _ HF) as (out & Eout & Hout); [lia|lia|lia|done|done|done|].
  rewrite Eout. intros [= <- <-]. cbn. split; [congruence|]. split; [lia|]. split; [|done].
  rewrite Hw, length_slice_le by lia. lia.
Qed.

Section RangeRead.
Context {S : Type} `{!ObjectStore S} `{!ObjectStoreLaws S}.

(** C38: a range read returns exactly the blocks of the segment whose keys lie in
    the closed range, with their payloads and in segment order, leaves the store's
    contents alone and makes at most two round trips; an inverted range is
    rejected before the store is asked. *)
Theorem range_read_exact object_key a b seg blocks (s s' : S) r :
  contents s !! object_key = Some seg -> encode_segment_v1 blocks = Ok seg -> len seg <= u64_max ->
  range_read object_key a b s = (s', r) ->
  contents s' = contents s /\
  (bytes_cmp a b = Gt -> s' = s /\ r = Err InvalidRange) /\
  (forall res, r = Ok res ->
     rr_entries res = filter (fun kb => in_range a b (fst kb)) blocks /\
     1 <= rr_round_trips res <= round_trip_budget_bound).
Proof.
  intros Hseg Henc Hmax. unfold range_read, st_bind at 1.
  destruct (range_read_window object_key a b s) as [s1 [w|e]] eqn:Ew.
  - pose proof (range_read_window_spec _ _ _ _ _ _ _ _ Hseg Henc Hmax Ew) as (E1 & Hrt & Hlen & HF).
    pose proof (copy_entries_spec w _ [] _ eq_refl HF ltac:(lia)) as Hcopy. cbn [length] in Hcopy.
    unfold st_bind, st_lift. rewrite Hcopy.
    intros [= <- <-]. split; [done|]. split; [|by intros res [= <-]].
    intros Hgt. unfold range_read_window in Ew. by rewrite decide_True in Ew.
  - intros [= <- <-]. split; [|split; [|done]].
    + revert Ew. unfold range_read_window. case_decide; [by intros [= <- _]|].
      unfold st_bind, lift_store, st_lift. destruct (get_object object_key s) as [s2 [v|e2]] eqn:Eg;
        apply get_object_law in Eg as [E2 _]; cbn [map_err]; [|by intros [= <- _]].
      destruct (decode_segment_index v) as [idx|]; cbn [map_err]; [|by intros [= <- _]].
      destruct (filter _ idx) as [|e1 sel]; [done|].
      destruct (list_min _); cbn [ok_or]; [|by intros [= <- _]].
      destruct (list_max _); cbn [ok_or]; [|by intros [= <- _]].
      destruct (get_object_range _ _ _ s2) as [s3 [v3|e3]] eqn:Er;
        apply get_object_range_law in Er as [E3 _]; cbn [map_err]; [|intros [= <- _]; congruence].
      destruct (window_entries _ _ _); [done|]. intros [= <- _]. congruence.
    + intros Hgt. unfold range_read_window in Ew. rewrite decide_True in Ew by done. by injection Ew as <- <-.
Qed.

Context `{!ReliableStore S}.

(** On a store that does not fail, a range read of an encoded segment with a
    range that is not inverted does return, with exactly the blocks in range. *)
Theorem range_read_returns object_key a b seg blocks (s : S) :
  reliable s -> contents s !! object_key = Some seg -> encode_segment_v1 blocks = Ok seg ->
  len seg <= u64_max -> bytes_cmp a b <> Gt ->
  exists s' n, range_read object_key a b s =
    (s', Ok (mkRangeReadResult (filter (fun kb => in_range a b (fst kb)) blocks) n)) /\ 1 <= n <= 2.
Proof.
  intros Hr Hseg Henc Hmax Hab.
  enough (is_ok (snd (range_read_window object_key a b s)) = true) as Hok.
  { unfold range_read, st_bind at 1. destruct (range_read_window object_key a b s) as [s1 [w|e]] eqn:Ew; [|done].
    pose proof (range_read_window_spec _ _ _ _ _ _ _ _ Hseg Henc Hmax Ew) as (E1 & Hrt & Hlen & HF).
    pose proof (copy_entries_spec w _ [] _ eq_refl HF ltac:(lia)) as Hcopy. cbn [length] in Hcopy.
    unfold st_bind, st_lift. rewrite Hcopy. by exists s1, (round_trips w). }
  unfold range_read_window. rewrite decide_False by done.
  destruct (decode_encode_segment blocks seg Henc) as (es & Hdec & HF).
  unfold st_bind at 1, lift_store. destruct (reliable_get object_key s Hr) as (s1 & Eg & R1).
  rewrite Eg, Hseg. cbn [ok_or map_err]. apply get_object_law in Eg as [E1 _].
  unfold st_bind at 1, st_lift. rewrite Hdec. cbn [map_err].
  apply (filter_blocks seg (in_range a b)) in HF.
  destruct (filter (fun e => in_range a b (se_key e)) es) as [|e1 sel] eqn:Esel; [done|].
  rewrite <- Esel in *. set (selected := filter _ es) in *.
  destruct (selection_bounds seg _ selected HF) as (lo & hi & -> & -> & Hlo0 & Hlohi & Hhi0 & Hin);
    [by rewrite Esel|done|].
  unfold st_bind. cbn [ok_or].
  destruct (reliable_range object_key lo hi s1 R1) as (s2 & win & Er & R2); [rewrite E1; by eexists|].
  rewrite Er. apply get_object_range_law in Er as [_ Hwin]. specialize (Hwin win eq_refl). cbn [map_err].
  rewrite E1 in Hwin.
  destruct (window_entries_spec seg win lo hi _ _ HF) as (out & -> & _); [lia|lia|lia|done| |done|done].
  by apply (range_window_slice (contents s) object_key).
Qed.
End RangeRead.

Definition sample_blocks : list (bytes * bytes) :=
  [(lit "a", lit "payload-a"); (lit "b", lit "payload-b"); (lit "c", lit "payload-c")].
Definition sample_segment : bytes := match encode_segment_v1 sample_blocks with Ok s => s | Err _ => [] end.
Definition sample_segment_store : InMemoryObjectStore :=
  mkInMemoryObjectStore {[ lit "seg-1" := sample_segment ]} false.

Example range_read_run :
  snd (range_read (lit "seg-1") (lit "b") (lit "c") sample_segment_store) =
  Ok (mkRangeReadResult [(lit "b", lit "payload-b"); (lit "c", lit "payload-c")] 2).
Proof. vm_compute. reflexivity. Qed.

Lemma range_read_exact_witness :
  let r := range_read (lit "seg-1") (lit "b") (lit "c") sample_segment_store in
  contents (fst r) = contents sample_segment_store /\
  (forall res, snd r = Ok res ->
     rr_entries res = filter (fun kb => in_range (lit "b") (lit "c") (fst kb)) sample_blocks /\
     1 <= rr_round_trips res <= round_trip_budget_bound).
Proof.
  intros r.
  destruct (range_read_exact (lit "seg-1") (lit "b") (lit "c") sample_segment sample_blocks
              sample_segment_store (fst r) (snd r) (lookup_singleton_eq _ _) ltac:(reflexivity)
              ltac:(vm_compute; discriminate) ltac:(apply surjective_pairing)) as (H1 & _ & H3).
  split; [exact H1|exact H3].
Defined.

Lemma range_read_returns_witness :
  exists s' n, range_read (lit "seg-1") (lit "b") (lit "c") sample_segment_store =
    (s', Ok (mkRangeReadResult (filter (fun kb => in_range (lit "b") (lit "c") (fst kb)) sample_blocks) n)) /\
    1 <= n <= 2.
Proof.
  apply (range_read_returns (lit "seg-1") (lit "b") (lit "c") sample_segment sample_blocks sample_segment_store).
  - reflexivity.
  - apply lookup_singleton_eq.
  - reflexivity.
  - vm_compute. discriminate.
  - vm_compute. discriminate.
Defined.
