(* ===== verification/Compression.v ===== *)
(** * Transparent block compression ([compression.rs])

    Models [crates/wombatkv-node/src/compression.rs]: the [WBZ1] envelope, its
    encoder, the lenient decoder of the read path and the policy read from the
    environment, with [encode_for_storage] of [embed.rs], the put path's entry
    to it.  The zstd codec is the parameter [Zstd]; [ZstdLaws] is its documented
    round trip: decompressing into the original length gives the data back.

    The theorems show that what is stored decodes to what was put, that blobs
    which do not carry the envelope are returned verbatim, and which raw blobs
    the decoder misreads. *)

From S2P Require Import Prelude Text.

Definition COMPRESS_MAGIC : bytes := lit "WBZ1".
Definition COMPRESS_HEADER_SIZE : Z := 10.

(** [enum CompressAlgo]; [Algo_None] is the source's [None]. *)
Inductive CompressAlgo := Algo_None | Algo_Zstd | Algo_Lz4.
#[global] Instance compress_algo_eq_dec : EqDecision CompressAlgo.
Proof. solve_decision. Defined.
Definition algo_u8 (a : CompressAlgo) : Z :=
  match a with Algo_None => 0 | Algo_Zstd => 1 | Algo_Lz4 => 2 end.
Definition from_u8 (raw : Z) : option CompressAlgo :=
  if decide (raw = 0) then Some Algo_None
  else if decide (raw = 1) then Some Algo_Zstd
  else if decide (raw = 2) then Some Algo_Lz4
  else None.

Record BlockCompressionConfig := mkCompression { algo : CompressAlgo; level : Z }.
Definition default_compression : BlockCompressionConfig := mkCompression Algo_Zstd 3.

(** [s.parse::<i32>().ok()]: a sign, then digits, within range. *)
Definition i32_checked (z : option Z) : option Z :=
  match z with
  | Some z => if decide (-2147483648 <= z <= 2147483647) then Some z else None
  | None => None
  end.
Definition parse_i32 (s : str) : option Z :=
  match s with
  | c :: d :: rest =>
      if decide (c = "-"%byte) then i32_checked (Z.opp <$> parse_digits 0 (d :: rest))
      else i32_checked (parse_u64 s)
  | _ => i32_checked (parse_u64 s)
  end.

(** [z.clamp(lo, hi)] *)
Definition clamp (lo hi z : Z) : Z := Z.max lo (Z.min z hi).

(** [from_env], [env] being the process environment. *)
Definition from_env (env : str -> option str) : BlockCompressionConfig :=
  let a :=
    match env (lit "WMBT_KV_BLOCK_COMPRESS") with
    | None => Algo_Zstd
    | Some v =>
        if decide (v = [] \/ v = lit "zstd") then Algo_Zstd
        else if decide (v = lit "lz4") then Algo_Lz4
        else if decide (v = lit "off" \/ v = lit "none" \/ v = lit "0") then Algo_None
        else Algo_Zstd
    end in
  let l :=
    clamp 1 22
      (default 3 (match env (lit "WMBT_KV_BLOCK_COMPRESS_LEVEL") with
                  | Some s => parse_i32 s
                  | None => None
                  end)) in
  mkCompression a l.
Definition is_enabled (cfg : BlockCompressionConfig) : bool :=
  match algo cfg with Algo_None => false | _ => true end.

Inductive CompressionError := PayloadTooLarge (n : Z) | Encode (msg : str).
(** [impl Display for CompressionError] *)
Definition compression_error_display (e : CompressionError) : str :=
  match e with
  | PayloadTooLarge n => lit "payload too large for u32 raw_len: " ++ dec n
  | Encode msg => lit "compression encode failed: " ++ msg
  end.

(** [zstd::bulk::compress] at a level, and [zstd::bulk::decompress] into a
    capacity. *)
Class Zstd := {
  zstd_compress (payload : bytes) (level : Z) : result bytes str;
  zstd_decompress (payload : bytes) (capacity : Z) : result bytes str
}.
Class ZstdLaws `{!Zstd} := {
  zstd_roundtrip payload level c :
    zstd_compress payload level = Ok c -> zstd_decompress c (len payload) = Ok payload
}.

(** [Cow<[u8]>] *)
Inductive Cow := Borrowed (b : bytes) | Owned (b : bytes).
Definition cow_bytes (c : Cow) : bytes := match c with Borrowed b => b | Owned b => b end.

Section Codec.
Context `{!Zstd}.

Definition encode_with_header (payload : bytes) (cfg : BlockCompressionConfig)
  : result bytes CompressionError :=
  match algo cfg with
  | Algo_None => Ok payload
  | Algo_Zstd =>
      let? raw_len := ok_or (u32_try_from (len payload)) (PayloadTooLarge (len payload)) in
      let? compressed := map_err (fun e => Encode (lit "zstd: " ++ e)) (zstd_compress payload (level cfg)) in
      Ok (COMPRESS_MAGIC ++ [byte_of_Z (algo_u8 Algo_Zstd)] ++ [byte_of_Z (clamp 0 255 (level cfg))]
            ++ le_bytes 4 raw_len ++ compressed)
  | Algo_Lz4 => Err (Encode (lit "lz4 not yet wired into block compression path"))
  end.

Definition decode_if_compressed (bs : bytes) : Cow :=
  if decide (len bs < COMPRESS_HEADER_SIZE \/ slice 0 4 bs <> COMPRESS_MAGIC) then Borrowed bs else
  match from_u8 (le_at 1 4 bs) with
  | None => Borrowed bs
  | Some a =>
      let raw_len := le_at 4 6 bs in
      let payload := slice COMPRESS_HEADER_SIZE (len bs) bs in
      match a with
      | Algo_None => Owned payload
      | Algo_Zstd =>
          match zstd_decompress payload raw_len with
          | Ok decoded => if decide (len decoded = raw_len) then Owned decoded else Borrowed bs
          | Err _ => Borrowed bs
          end
      | Algo_Lz4 => Borrowed bs
      end
  end.
End Codec.

Definition has_magic (bs : bytes) : bool :=
  bool_decide (len bs >= 4) && bool_decide (slice 0 4 bs = COMPRESS_MAGIC).

Arguments COMPRESS_MAGIC : simpl never.

Lemma len_COMPRESS_MAGIC : len COMPRESS_MAGIC = 4.
Proof. reflexivity. Qed.
#[export] Hint Rewrite len_COMPRESS_MAGIC : wmbt.

(** A header and a body, as both ends lay them out. *)
Definition envelope (a lvl : Z) (raw_len : Z) (body : bytes) : bytes :=
  COMPRESS_MAGIC ++ [byte_of_Z a] ++ [byte_of_Z lvl] ++ le_bytes 4 raw_len ++ body.
Arguments envelope : simpl never.

Lemma byte_le_at b i p q : len p = i -> le_at 1 i (p ++ [b] ++ q) = byte_to_Z b.
Proof.
  intros <-. unfold le_at. rewrite slice_app; [|done|solve_len].
  unfold le_val. lia.
Qed.

Lemma envelope_layout a lvl n body :
  0 <= a < 256 -> in_u32 n ->
  let e := envelope a lvl n body in
  len e = 10 + len body /\ slice 0 4 e = COMPRESS_MAGIC /\ le_at 1 4 e = a /\ le_at 4 6 e = n /\
  slice COMPRESS_HEADER_SIZE (len e) e = body.
Proof.
  intros Ha [??] e.
  assert (len e = 10 + len body) as Hl by (unfold e, envelope; solve_len).
  split; [done|]. split; [apply slice_app_start; solve_len|]. split; [|split].
  - unfold e, envelope. rewrite byte_le_at by solve_len. rewrite byte_to_of_Z. by apply Z.mod_small.
  - unfold e, envelope. read_le. done.
  - rewrite Hl. unfold e, envelope, COMPRESS_HEADER_SIZE. rewrite !app_assoc.
    apply slice_app_end; solve_len.
Qed.

Section Facts.
Context `{!Zstd}.

(** The decoder on a well-formed envelope. *)
Lemma decode_envelope a lvl n body :
  0 <= a < 256 -> in_u32 n ->
  decode_if_compressed (envelope a lvl n body) =
  match from_u8 a with
  | Some Algo_None => Owned body
  | Some Algo_Zstd =>
      match zstd_decompress body n with
      | Ok decoded => if decide (len decoded = n) then Owned decoded else Borrowed (envelope a lvl n body)
      | Err _ => Borrowed (envelope a lvl n body)
      end
  | _ => Borrowed (envelope a lvl n body)
  end.
Proof.
  intros Ha Hn. destruct (envelope_layout a lvl n body Ha Hn) as (Hl & Hm & Hal & Hr & Hp).
  unfold decode_if_compressed. pose proof (len_nonneg body).
  rewrite decide_False by (rewrite Hl, Hm; unfold COMPRESS_HEADER_SIZE; intros [?|?]; [lia|done]).
  rewrite Hal, Hr, Hp. by destruct (from_u8 a) as [[]|].
Qed.

(** Bytes without the magic are returned as they are, not copied. *)
Lemma decode_raw bs : has_magic bs = false -> decode_if_compressed bs = Borrowed bs.
Proof.
  intros Hm. unfold decode_if_compressed. rewrite decide_True; [done|].
  unfold has_magic in Hm. apply andb_false_iff in Hm as [Hm|Hm]; apply bool_decide_eq_false in Hm.
  - left. unfold COMPRESS_HEADER_SIZE. lia.
  - by right.
Qed.

Lemma has_magic_envelope a lvl n body : has_magic (envelope a lvl n body) = true.
Proof.
  unfold has_magic, envelope. pose proof (len_nonneg body).
  rewrite bool_decide_eq_true_2 by solve_len.
  by rewrite bool_decide_eq_true_2 by (apply slice_app_start; solve_len).
Qed.

(** A successful zstd encoding is an envelope of the compressed bytes. *)
Lemma encode_zstd_envelope payload lvl c :
  encode_with_header payload (mkCompression Algo_Zstd lvl) = Ok c ->
  in_u32 (len payload) /\
  exists z, zstd_compress payload lvl = Ok z /\ c = envelope 1 (clamp 0 255 lvl) (len payload) z.
Proof.
  unfold encode_with_header, u32_try_from. cbn [algo level].
  case_decide as Hl; run_res; [|done].
  destruct (zstd_compress payload lvl) as [z|e]; run_res; [|done]. intros <-%Ok_inj.
  split; [by split; [apply len_nonneg|]|]. by exists z.
Qed.
End Facts.

(** The level read from the environment is a level zstd accepts and the header
    can hold. *)
Lemma from_env_level env : 1 <= level (from_env env) <= 22.
Proof. unfold from_env, clamp. cbn [level]. lia. Qed.

(** The stored form of a payload decodes to it. *)
Lemma decode_encoded `{!Zstd} `{!ZstdLaws} payload cfg stored :
  (algo cfg = Algo_None -> has_magic payload = false) ->
  encode_with_header payload cfg = Ok stored -> cow_bytes (decode_if_compressed stored) = payload.
Proof.
  destruct cfg as [[] lvl]; cbn [algo].
  - intros Hm <-%Ok_inj. by rewrite decode_raw by auto.
  - intros _ Hc. destruct (encode_zstd_envelope payload lvl stored Hc) as (Hl & z & Hz & ->).
    rewrite decode_envelope by done. change (from_u8 1) with (Some Algo_Zstd). cbv iota.
    rewrite (zstd_roundtrip _ _ _ Hz). by rewrite decide_True.
  - done.
Qed.

(** What the put path stores reads back as what was put: a blob encoded with
    zstd decodes to the payload (and carries the magic), whatever the payload; a
    payload stored with compression off decodes to itself, uncopied, when it does
    not start with the magic.  A payload stored with compression off that is
    itself shaped like an envelope of codec 0 is misread: its header is stripped. *)
Theorem compression_roundtrip `{!Zstd} `{!ZstdLaws} payload cfg stored :
  encode_with_header payload cfg = Ok stored ->
  match algo cfg with
  | Algo_Zstd => has_magic stored = true /\ decode_if_compressed stored = Owned payload
  | Algo_None =>
      stored = payload /\
      (has_magic payload = false -> decode_if_compressed stored = Borrowed payload) /\
      (forall lvl n body, in_u32 n -> payload = envelope 0 lvl n body -> decode_if_compressed stored = Owned body)
  | Algo_Lz4 => False
  end.
Proof.
  destruct cfg as [[] lvl]; cbn [algo].
  - intros <-%Ok_inj. split; [done|]. split; [apply decode_raw|].
    intros lvl' n body Hn ->. by rewrite decode_envelope.
  - intros Hc. destruct (encode_zstd_envelope payload lvl stored Hc) as (Hl & z & Hz & ->).
    split; [apply has_magic_envelope|]. rewrite decode_envelope by done.
    cbn [from_u8]. change (from_u8 1) with (Some Algo_Zstd). cbv iota.
    rewrite (zstd_roundtrip _ _ _ Hz). by rewrite decide_True.
  - done.
Qed.

(** A codec that stores: it meets the law. *)
Definition store_codec : Zstd := {|
  zstd_compress p _ := Ok p;
  zstd_decompress c n := if decide (len c <= n) then Ok c else Err (lit "destination too small")
|}.
Definition store_codec_laws : @ZstdLaws store_codec.
Proof.
  constructor. intros p lvl c [= <-]. cbn. by rewrite decide_True by lia.
Defined.

Lemma compression_roundtrip_witness :
  let off := mkCompression Algo_None 3 in
  let inner := envelope 0 3 5 (lit "hello") in
  @decode_if_compressed store_codec (envelope 1 3 5 (lit "hello")) = Owned (lit "hello") /\
  @decode_if_compressed store_codec inner = Owned (lit "hello").
Proof.
  intros off inner. split.
  - apply (@compression_roundtrip store_codec store_codec_laws (lit "hello") default_compression
             (envelope 1 3 5 (lit "hello")) ltac:(reflexivity)).
  - apply (@compression_roundtrip store_codec store_codec_laws inner off inner ltac:(reflexivity)) with 3 5;
      [by_eval|reflexivity].
Defined.
