(* ===== verification/F64.v ===== *)
(** * Non-negative binary64 arithmetic

    The eviction worker computes its target as [(budget as f64 * 0.9) as u64], and the
    benchmarks their statistics.  This file models the part of IEEE binary64 that they
    use: a non-negative dyadic number [m * 2^e], rounding to 53 significant bits with
    ties to even, the conversions from and to [u64], the four operations and the
    comparison.  No value leaves the normal range, so exponents are unbounded integers.  The lemmas bound
    the relative rounding error by [2^-53]. *)

From S2P Require Import Prelude Order.

(** The number [mant * 2^expo]. *)
Record f64 := mkF64 { mant : Z; expo : Z }.

(** Round a non-negative integer to 53 significant bits, ties to even; [shift53]
    is the number of bits dropped. *)
Definition shift53 (m : Z) : Z := if decide (m < 2 ^ 53) then 0 else Z.log2 m - 52.
Definition round53 (m : Z) : Z :=
  let s := shift53 m in
  let q := m / 2 ^ s in
  let r := m mod 2 ^ s in
  if decide (2 * r > 2 ^ s \/ (2 * r = 2 ^ s /\ Z.odd q = true)) then q + 1 else q.

(** [z as f64] for a [u64] *)
Definition f64_of_u64 (z : Z) : f64 := mkF64 (round53 z) (shift53 z).
(** [x * y] *)
Definition f64_mul (x y : f64) : f64 :=
  let m := mant x * mant y in
  mkF64 (round53 m) (expo x + expo y + shift53 m).
(** [x as u64]: truncation, saturating. *)
Definition f64_to_u64 (x : f64) : Z :=
  Z.min u64_max (if decide (0 <= expo x) then mant x * 2 ^ expo x else mant x / 2 ^ (- expo x)).

Lemma shift53_nonneg m : 0 <= m -> 0 <= shift53 m.
Proof.
  intros. unfold shift53. case_decide; [lia|].
  assert (Z.log2 (2 ^ 53) <= Z.log2 m) by (apply Z.log2_le_mono; lia).
  rewrite Z.log2_pow2 in *; lia.
Qed.

(** The rounding error is at most half a unit in the last place, so at most the
    [2^53]-th part of the number. *)
Lemma round53_error m :
  0 <= m -> 2 ^ 53 * Z.abs (round53 m * 2 ^ shift53 m - m) <= m.
Proof.
  intros Hm. pose proof (shift53_nonneg m Hm) as Hs.
  assert (shift53 m = 0 \/ 2 ^ 52 * 2 ^ shift53 m <= m) as Hbig.
  { unfold shift53. case_decide; [by left|]. right.
    rewrite <- Z.pow_add_r by (pose proof (shift53_nonneg m Hm) as Hs'; unfold shift53 in Hs';
      rewrite decide_False in Hs' by done; lia).
    replace (52 + (Z.log2 m - 52)) with (Z.log2 m) by lia. apply Z.log2_spec. lia. }
  assert (0 < 2 ^ shift53 m) as Hpos by (by apply Z.pow_pos_nonneg).
  pose proof (Z.div_mod m (2 ^ shift53 m) ltac:(lia)) as Hd.
  pose proof (Z.mod_pos_bound m (2 ^ shift53 m) Hpos) as Hr.
  unfold round53. destruct Hbig as [E|Hbig].
  - rewrite E in *. change (2 ^ 0) with 1 in *.
    rewrite decide_False by lia. nia.
  - set (q := m / 2 ^ shift53 m) in *. set (r := m mod 2 ^ shift53 m) in *.
    set (p := 2 ^ shift53 m) in *. change (2 ^ 53) with (2 * 2 ^ 52).
    assert (2 * Z.abs ((if decide (2 * r > p \/ 2 * r = p /\ Z.odd q = true) then q + 1 else q) * p - m) <= p).
    { case_decide as Hc.
      - replace ((q + 1) * p - m) with (p - r) by lia. rewrite Z.abs_eq by lia. lia.
      - replace (q * p - m) with (- r) by lia. rewrite Z.abs_opp, Z.abs_eq by lia. lia. }
    lia.
Qed.

Lemma round53_nonneg m : 0 <= m -> 0 <= round53 m.
Proof.
  intros Hm. unfold round53.
  assert (0 <= m / 2 ^ shift53 m) by (apply Z.div_pos; [done|apply Z.pow_pos_nonneg; [lia|by apply shift53_nonneg]]).
  case_decide; lia.
Qed.

(** Truncation of a number with exponent [s - 53]. *)
Lemma f64_to_u64_scaled m s :
  0 <= s -> f64_to_u64 (mkF64 m (s - 53)) = Z.min u64_max (m * 2 ^ s / 2 ^ 53).
Proof.
  intros Hs. unfold f64_to_u64. cbn [mant expo]. f_equal. case_decide as He.
  - replace (2 ^ s) with (2 ^ (s - 53) * 2 ^ 53) by (rewrite <- Z.pow_add_r by lia; f_equal; lia).
    by rewrite Z.mul_assoc, Z.div_mul.
  - replace (2 ^ 53) with (2 ^ (- (s - 53)) * 2 ^ s) by (rewrite <- Z.pow_add_r by lia; f_equal; lia).
    rewrite Z.div_mul_cancel_r; [done|apply Z.pow_nonzero; lia..].
Qed.

(** Multiplying by a constant [k * 2^-53] rounds twice. *)
Lemma f64_scale_error z k :
  0 <= z -> 0 <= k ->
  exists a b, 2 ^ 53 * Z.abs (a - z) <= z /\ 2 ^ 53 * Z.abs (b - a * k) <= a * k /\
              f64_to_u64 (f64_mul (f64_of_u64 z) (mkF64 k (-53))) = Z.min u64_max (b / 2 ^ 53).
Proof.
  intros Hz Hk. pose proof (round53_error z Hz) as E1. pose proof (round53_nonneg z Hz) as P1.
  pose proof (shift53_nonneg z Hz) as S1. unfold f64_mul, f64_of_u64. cbn [mant expo].
  assert (0 <= round53 z * k) as P2 by lia.
  pose proof (round53_error _ P2) as E2. pose proof (shift53_nonneg _ P2) as S2.
  set (m1 := round53 z) in *. set (s1 := shift53 z) in *.
  set (m2 := round53 (m1 * k)) in *. set (s2 := shift53 (m1 * k)) in *.
  assert (0 < 2 ^ s1) by (by apply Z.pow_pos_nonneg).
  exists (m1 * 2 ^ s1), (m2 * 2 ^ (s1 + s2)). split; [done|]. split.
  - rewrite Z.pow_add_r by done.
    replace (m2 * (2 ^ s1 * 2 ^ s2) - m1 * 2 ^ s1 * k) with (2 ^ s1 * (m2 * 2 ^ s2 - m1 * k)) by lia.
    rewrite Z.abs_mul, (Z.abs_eq (2 ^ s1)) by lia. nia.
  - replace (s1 + -53 + s2) with (s1 + s2 - 53) by lia. apply f64_to_u64_scaled. lia.
Qed.

(** [x / y] for [y] positive: a quotient of more than 53 bits, with a last bit that
    tells whether it is exact, rounded once. *)
Definition f64_div (x y : f64) : f64 :=
  let k := Z.max 0 (56 + Z.log2 (mant y) - Z.log2 (mant x)) in
  let n := mant x * 2 ^ k in
  let m := 2 * (n / mant y) + (if decide (n mod mant y = 0) then 0 else 1) in
  mkF64 (round53 m) (expo x - expo y - k - 1 + shift53 m).
(** [x.ceil() as u64] and [x.round() as u64], saturating *)
Definition f64_ceil_u64 (x : f64) : Z :=
  Z.min u64_max (if decide (0 <= expo x) then mant x * 2 ^ expo x else - ((- mant x) / 2 ^ (- expo x))).
Definition f64_round_u64 (x : f64) : Z :=
  Z.min u64_max (if decide (0 <= expo x) then mant x * 2 ^ expo x else (2 * mant x + 2 ^ (- expo x)) / 2 ^ (1 - expo x)).

Lemma f64_ceil_scaled m s :
  0 <= s -> f64_ceil_u64 (mkF64 m (s - 53)) = Z.min u64_max (- ((- (m * 2 ^ s)) / 2 ^ 53)).
Proof.
  intros Hs. unfold f64_ceil_u64. cbn [mant expo]. f_equal. case_decide as He.
  - replace (2 ^ s) with (2 ^ (s - 53) * 2 ^ 53) by (rewrite <- Z.pow_add_r by lia; f_equal; lia).
    replace (- (m * (2 ^ (s - 53) * 2 ^ 53))) with (- (m * 2 ^ (s - 53)) * 2 ^ 53) by lia. rewrite Z.div_mul by done. lia.
  - replace (2 ^ 53) with (2 ^ (- (s - 53)) * 2 ^ s) by (rewrite <- Z.pow_add_r by lia; f_equal; lia).
    rewrite <- Z.mul_opp_l, Z.div_mul_cancel_r; [done|apply Z.pow_nonzero; lia..].
Qed.
(** A fraction of a count is at least one and no more than the count. *)
Lemma f64_ceil_fraction z k :
  0 < z <= u64_max -> 2 ^ 40 <= k <= 2 ^ 53 - 2 ^ 40 ->
  1 <= f64_ceil_u64 (f64_mul (f64_of_u64 z) (mkF64 k (-53))) <= z.
Proof.
  intros Hz Hk. pose proof (round53_error z ltac:(lia)) as E1. pose proof (round53_nonneg z ltac:(lia)) as P1.
  pose proof (shift53_nonneg z ltac:(lia)) as S1. unfold f64_mul, f64_of_u64. cbn [mant expo].
  assert (0 <= round53 z * k) as P2 by lia.
  pose proof (round53_error _ P2) as E2. pose proof (shift53_nonneg _ P2) as S2.
  set (m1 := round53 z) in *. set (s1 := shift53 z) in *. set (m2 := round53 (m1 * k)) in *. set (s2 := shift53 (m1 * k)) in *.
  assert (0 < 2 ^ s1) as Hp1 by (by apply Z.pow_pos_nonneg).
  assert (2 ^ 53 * Z.abs (m2 * 2 ^ (s1 + s2) - m1 * 2 ^ s1 * k) <= m1 * 2 ^ s1 * k) as E3.
  { rewrite Z.pow_add_r by done.
    replace (m2 * (2 ^ s1 * 2 ^ s2) - m1 * 2 ^ s1 * k) with (2 ^ s1 * (m2 * 2 ^ s2 - m1 * k)) by lia.
    rewrite Z.abs_mul, (Z.abs_eq (2 ^ s1)) by lia. nia. }
  replace (s1 + -53 + s2) with (s1 + s2 - 53) by lia. rewrite f64_ceil_scaled by lia.
  set (a := m1 * 2 ^ s1) in *. set (b := m2 * 2 ^ (s1 + s2)) in *. clearbody a b.
  change (2 ^ 53) with 9007199254740992 in *. change (2 ^ 40) with 1099511627776 in *.
  assert (0 < a) by lia. assert (9007199254740992 * a <= 9007199254740993 * z) by lia.
  assert (0 < a * k) by lia. assert (0 < b) by lia. assert (9007199254740992 * b <= 9007199254740993 * (a * k)) by lia.
  assert (a * k <= a * (9007199254740992 - 1099511627776)) by nia.
  assert (b <= 9007199254740992 * z) as Hb by lia.
  assert (- z <= (- b) / 9007199254740992) by (apply Z.div_le_lower_bound; lia).
  assert ((- b) / 9007199254740992 < 0) by (apply Z.div_lt_upper_bound; lia). lia.
Qed.

(** [x + y], [x - y] for [y <= x], and [x.partial_cmp(&y)]. *)
Definition f64_zero : f64 := mkF64 0 0.
Definition f64_align (x y : f64) : Z * Z * Z :=
  let e := Z.min (expo x) (expo y) in (mant x * 2 ^ (expo x - e), mant y * 2 ^ (expo y - e), e).
Definition f64_round (m e : Z) : f64 := mkF64 (round53 m) (e + shift53 m).
Definition f64_add (x y : f64) : f64 := let '(a, b, e) := f64_align x y in f64_round (a + b) e.
Definition f64_sub (x y : f64) : f64 := let '(a, b, e) := f64_align x y in f64_round (a - b) e.
Definition f64_cmp (x y : f64) : comparison := let '(a, b, _) := f64_align x y in (a ?= b)%Z.
(** [f64::max] *)
Definition f64_max (x y : f64) : f64 := match f64_cmp x y with Lt => y | _ => x end.

(** The comparison is that of the numbers, at any common exponent. *)
Lemma f64_cmp_at e x y : e <= expo x -> e <= expo y -> f64_cmp x y = (mant x * 2 ^ (expo x - e) ?= mant y * 2 ^ (expo y - e)).
Proof.
  intros Hx Hy. unfold f64_cmp, f64_align. set (e0 := Z.min (expo x) (expo y)).
  assert (forall z, e0 <= z -> 2 ^ (z - e) = 2 ^ (z - e0) * 2 ^ (e0 - e)) as Hp
    by (intros z Hz; rewrite <- Z.pow_add_r by lia; f_equal; lia).
  rewrite (Hp (expo x)), (Hp (expo y)), !Z.mul_assoc by lia. assert (0 < 2 ^ (e0 - e)) by (apply Z.pow_pos_nonneg; lia).
  destruct (Z.compare_spec (mant x * 2 ^ (expo x - e0)) (mant y * 2 ^ (expo y - e0))) as [E|E|E]; symmetry;
    [apply Z.compare_eq_iff|apply Z.compare_lt_iff|apply Z.compare_gt_iff]; nia.
Qed.
#[global] Instance f64_cmp_total : TotalCmp f64_cmp.
Proof.
  split.
  - intros x y. rewrite !(f64_cmp_at (Z.min (expo x) (expo y))) by lia. apply Z.compare_antisym.
  - intros x y z. set (e := Z.min (expo x) (Z.min (expo y) (expo z))). rewrite !(f64_cmp_at e) by lia. rewrite !Z.compare_le_iff. lia.
Qed.
(** A count times a fraction [k * 2^-s], rounded, is within half and a rounding error of
    the exact product, and no more than the count. *)
Lemma f64_round_scaled m t s :
  0 <= t -> 0 <= s -> f64_round_u64 (mkF64 m (t - s)) = Z.min u64_max ((2 * (m * 2 ^ t) + 2 ^ s) / 2 ^ (s + 1)).
Proof.
  intros Ht Hs. unfold f64_round_u64. cbn [mant expo]. f_equal. rewrite Z.pow_add_r by lia. change (2 ^ 1) with 2. case_decide as He.
  - replace (2 ^ t) with (2 ^ (t - s) * 2 ^ s) by (rewrite <- Z.pow_add_r by lia; f_equal; lia). set (p := 2 ^ s).
    assert (0 < p) by (by apply Z.pow_pos_nonneg). apply (Z.div_unique _ _ _ p); lia.
  - replace (1 - (t - s)) with (s - t + 1) by lia. replace (- (t - s)) with (s - t) by lia.
    replace (2 ^ s) with (2 ^ (s - t) * 2 ^ t) by (rewrite <- Z.pow_add_r by lia; f_equal; lia).
    rewrite (Z.pow_add_r 2 (s - t) 1) by lia. change (2 ^ 1) with 2.
    replace (2 * (m * 2 ^ t) + 2 ^ (s - t) * 2 ^ t) with ((2 * m + 2 ^ (s - t)) * 2 ^ t) by lia.
    replace (2 ^ (s - t) * 2 ^ t * 2) with (2 ^ (s - t) * 2 * 2 ^ t) by lia.
    rewrite Z.div_mul_cancel_r; [done|apply Z.neq_mul_0; split; [apply Z.pow_nonzero; lia|done]|apply Z.pow_nonzero; lia].
Qed.
Lemma f64_of_small z : 0 <= z < 2 ^ 53 -> f64_of_u64 z = mkF64 z 0.
Proof.
  intros Hz. assert (shift53 z = 0) as E by (unfold shift53; rewrite decide_True; [done|lia]).
  unfold f64_of_u64, round53. rewrite E. change (2 ^ 0) with 1. rewrite Z.div_1_r, Z.mod_1_r, decide_False; [done|lia].
Qed.
Lemma f64_round_fraction a k s :
  0 <= a < 2 ^ 52 -> 53 <= s -> 0 <= k <= 2 ^ s ->
  let i := f64_round_u64 (f64_mul (f64_of_u64 a) (mkF64 k (- s))) in
  0 <= i <= a /\ 2 ^ 53 * (2 * Z.abs (2 ^ s * i - a * k) - 2 ^ s) <= 2 * (a * k).
Proof.
  intros Ha Hs Hk. rewrite f64_of_small by lia. unfold f64_mul. cbn [mant expo].
  assert (0 <= a * k) as Hak by lia. pose proof (round53_error _ Hak) as E. pose proof (shift53_nonneg _ Hak) as S.
  pose proof (round53_nonneg _ Hak) as Hr. set (t := shift53 (a * k)) in *. replace (0 + - s + t) with (t - s) by lia.
  rewrite f64_round_scaled by lia. rewrite Z.pow_add_r by lia. change (2 ^ 1) with 2. set (b := round53 (a * k) * 2 ^ t) in *.
  assert (0 < 2 ^ t) by (by apply Z.pow_pos_nonneg). assert (0 <= b) as Hb by (unfold b; nia). clearbody b.
  assert (2 ^ 53 <= 2 ^ s) as Hps by (apply Z.pow_le_mono_r; lia). set (p := 2 ^ s) in *. clearbody p.
  change (2 ^ 53) with 9007199254740992 in *. change (2 ^ 52) with 4503599627370496 in *. assert (a * k <= a * p) as Hakp by nia.
  set (j := (2 * b + p) / (p * 2)). assert (p * 2 * j <= 2 * b + p < p * 2 * (j + 1)) as Hj.
  { pose proof (Z.div_mod (2 * b + p) (p * 2) ltac:(lia)) as Hd. pose proof (Z.mod_pos_bound (2 * b + p) (p * 2) ltac:(lia)). fold j in Hd. lia. }
  assert (9007199254740992 * b <= 9007199254740993 * (a * p)) as Hbp by lia.
  assert (j <= a) as Hja.
  { destruct (Z_le_gt_dec j a) as [Hle|Hgt]; [done|]. exfalso. assert (p * (a + 1) <= p * j) by nia. assert (2 * a * p <= 9007199254740990 * p) by nia. lia. }
  assert (0 <= j) as Hj0 by nia. rewrite Z.min_r by lia. split; [lia|]. lia.
Qed.
