(* ===== verification/Histogram.v ===== *)
(** * Latency histogram ([latency_histogram.rs])

    Models [crates/wombatkv-node/src/latency_histogram.rs]: the thirty buckets with
    their counters, the recording of a sample as the sequence of its atomic
    operations, snapshots with their percentiles, and the registry.

    Recorders run concurrently: [recorders_quiesce] shows that once they are
    through, in whatever order their operations took place, the histogram is the
    one of recording the samples one after the other; [recorders_lock_free] bounds
    the operations they need; [percentile_brackets] says what a percentile tells
    about the samples. *)

From S2P Require Import Prelude F64.

Definition HISTOGRAM_BUCKETS : Z := 30.
Record LatencyHistogram := mkHist { buckets : list Z; overflow : Z; sum_us : Z; count : Z; max_us : Z }.
Definition hist_new : LatencyHistogram := mkHist (replicate 30 0) 0 0 0 0.

(** [64 - us.leading_zeros() - 1] is the binary logarithm. *)
Definition bucket_for (us : Z) : Z := if decide (us <= 1) then 0 else Z.min (Z.log2 us) HISTOGRAM_BUCKETS.

(** The atomic operations of [record_us], in order; [RCas cur] is the loop with
    its expected value. *)
Inductive RecordPc := RBucket | RSum | RCount | RLoad | RCas (cur : Z) | RDone.
Definition bump_bucket (us : Z) (h : LatencyHistogram) : LatencyHistogram :=
  let bucket := bucket_for us in
  if decide (HISTOGRAM_BUCKETS <= bucket)
  then mkHist (buckets h) (wrap64 (overflow h + 1)) (sum_us h) (count h) (max_us h)
  else mkHist (alter (fun c => wrap64 (c + 1)) (Z.to_nat bucket) (buckets h)) (overflow h) (sum_us h) (count h) (max_us h).
(** The test of the loop on the value seen last. *)
Definition observed (us cur : Z) : RecordPc := if decide (us > cur) then RCas cur else RDone.
(** [spurious]: [compare_exchange_weak] may fail although the value is as expected. *)
Definition record_step (spurious : bool) (us : Z) (pc : RecordPc) (h : LatencyHistogram) : LatencyHistogram * RecordPc :=
  match pc with
  | RBucket => (bump_bucket us h, RSum)
  | RSum => (mkHist (buckets h) (overflow h) (wrap64 (sum_us h + us)) (count h) (max_us h), RCount)
  | RCount => (mkHist (buckets h) (overflow h) (sum_us h) (wrap64 (count h + 1)) (max_us h), RLoad)
  | RLoad => (h, observed us (max_us h))
  | RCas cur =>
      if decide (max_us h = cur /\ spurious = false)
      then (mkHist (buckets h) (overflow h) (sum_us h) (count h) us, RDone)
      else (h, observed us (max_us h))
  | RDone => (h, RDone)
  end.
(** [record_us] on its own: the compare-exchange succeeds. *)
Definition record_us (us : Z) (h : LatencyHistogram) : LatencyHistogram :=
  let run '(h, pc) := record_step false us pc h in
  (Nat.iter 5 run (h, RBucket)).1.

Definition reset (h : LatencyHistogram) : LatencyHistogram := mkHist (map (fun _ => 0) (buckets h)) 0 0 0 0.

(** A snapshot is the counters as they were read. *)
Abbreviation HistogramSnapshot := LatencyHistogram (only parsing).
Definition total_count (s : HistogramSnapshot) : Z := count s.
Definition mean_us (s : HistogramSnapshot) : option f64 :=
  if decide (count s = 0) then None else Some (f64_div (f64_of_u64 (sum_us s)) (f64_of_u64 (count s))).
(** [p / 100.0] and the rank it asks for. *)
Definition hundred : f64 := f64_of_u64 100.
Definition percentile_target (n : Z) (p : f64) : Z := f64_ceil_u64 (f64_mul (f64_of_u64 n) (f64_div p hundred)).
Fixpoint percentile_walk (i cumulative target : Z) (bs : list Z) : option Z :=
  match bs with
  | [] => None
  | c :: bs =>
      let cumulative := cumulative + c in
      if decide (target <= cumulative) then Some (Z.shiftl 1 (Z.min (i + 1) 63))
      else percentile_walk (i + 1) cumulative target bs
  end.
Definition percentile_us (p : f64) (s : HistogramSnapshot) : option Z :=
  if decide (count s = 0) then None
  else Some (default (max_us s) (percentile_walk 0 0 (percentile_target (count s) p) (buckets s))).
(** The literals [50.0], [90.0], [99.0] and [99.9]. *)
Definition P50 : f64 := f64_of_u64 50.
Definition P90 : f64 := f64_of_u64 90.
Definition P99 : f64 := f64_of_u64 99.
Definition P999 : f64 := f64_div (f64_of_u64 999) (f64_of_u64 10).
Definition p50_p90_p99_p999 (s : HistogramSnapshot) : option (Z * Z * Z * Z) :=
  p50 ← percentile_us P50 s; p90 ← percentile_us P90 s; p99 ← percentile_us P99 s; p999 ← percentile_us P999 s;
  Some (p50, p90, p99, p999).

(** ** The registry *)
Definition Registry : Type := gmap str LatencyHistogram.
Definition record_global (tag : str) (us : Z) (r : Registry) : Registry :=
  match r !! tag with
  | Some h => <[tag := record_us us h]> r
  | None => <[tag := record_us us hist_new]> r
  end.
Definition snapshot_all (r : Registry) : gmap str HistogramSnapshot := r.
Definition reset_all (r : Registry) : Registry := reset <$> r.

(** ** Recording alone *)
Lemma record_us_eq us h :
  record_us us h =
  let h1 := bump_bucket us h in
  mkHist (buckets h1) (overflow h1) (wrap64 (sum_us h1 + us)) (wrap64 (count h1 + 1)) (Z.max (max_us h1) us).
Proof.
  unfold record_us. cbn [Nat.iter nat_rect record_step]. set (h1 := bump_bucket us h). cbn [buckets overflow sum_us count max_us].
  unfold observed. case_decide as Hu; cbn [record_step fst max_us buckets overflow sum_us count].
  - rewrite decide_True by done. cbn [fst]. f_equal. lia.
  - f_equal. lia.
Qed.

(** ** Recording concurrently *)
Record Recorder := mkRec { rc_us : Z; rc_pc : RecordPc }.
Definition Recording : Type := LatencyHistogram * list Recorder.
Inductive records (spurious : bool) : Recording -> Recording -> Prop :=
| records_step h ths i t : ths !! i = Some t -> rc_pc t <> RDone ->
    records spurious (h, ths)
      (let '(h', pc) := record_step spurious (rc_us t) (rc_pc t) h in (h', <[i := mkRec (rc_us t) pc]> ths)).
Definition some_records (a b : Recording) : Prop := exists spurious, records spurious a b.
Definition start (h : LatencyHistogram) (samples : list Z) : Recording := (h, map (fun us => mkRec us RBucket) samples).
Definition all_done (ths : list Recorder) : Prop := Forall (fun t => rc_pc t = RDone) ths.

(** Sums over the recorders. *)
Definition zsum {A} (f : A -> Z) (l : list A) : Z := foldr (fun x acc => f x + acc) 0 l.
Lemma zsum_insert {A} (f : A -> Z) l i x y : l !! i = Some x -> zsum f (<[i := y]> l) = zsum f l - f x + f y.
Proof.
  revert i. induction l as [|z l IH]; intros [|i]; simpl; [done|done| |].
  - intros [= ->]. lia.
  - intros Hi. specialize (IH i Hi). unfold zsum in *. simpl. lia.
Qed.
Lemma zsum_bounded {A} (f g : A -> Z) c l : (forall x, f x <= g x + c) -> zsum f l <= zsum g l + c * len l.
Proof.
  intros H. induction l as [|x l IH]; [unfold len; cbn [zsum foldr length]; lia|]. specialize (H x). unfold len in *. cbn [zsum foldr length] in *.
  unfold zsum in IH. lia.
Qed.
Lemma wrap_add x y : wrap64 (wrap64 x + y) = wrap64 (x + y).
Proof. unfold wrap64. by rewrite Z.add_mod_idemp_l. Qed.

(** What a recorder has done so far. *)
Definition past_bucket (pc : RecordPc) : bool := match pc with RBucket => false | _ => true end.
Definition past_sum (pc : RecordPc) : bool := match pc with RBucket | RSum => false | _ => true end.
Definition past_count (pc : RecordPc) : bool := match pc with RBucket | RSum | RCount => false | _ => true end.
Definition in_bucket (i : Z) (t : Recorder) : Z :=
  if past_bucket (rc_pc t) && bool_decide (bucket_for (rc_us t) = i) then 1 else 0.
Definition summed (t : Recorder) : Z := if past_sum (rc_pc t) then rc_us t else 0.
Definition counted (t : Recorder) : Z := if past_count (rc_pc t) then 1 else 0.

(** The counters are those of the start plus what the recorders have added; the
    maximum is that of the start or of a recorder, and covers those that are done. *)
Record recorded (base : LatencyHistogram) (r : Recording) : Prop := {
  rd_length : length (buckets r.1) = length (buckets base);
  rd_buckets i c : buckets base !! i = Some c -> Z.of_nat i < HISTOGRAM_BUCKETS ->
    buckets r.1 !! i = Some (wrap64 (c + zsum (in_bucket (Z.of_nat i)) r.2));
  rd_overflow : overflow r.1 = wrap64 (overflow base + zsum (in_bucket HISTOGRAM_BUCKETS) r.2);
  rd_sum : sum_us r.1 = wrap64 (sum_us base + zsum summed r.2);
  rd_count : count r.1 = wrap64 (count base + zsum counted r.2);
  rd_max_base : max_us base <= max_us r.1;
  rd_max_of : max_us r.1 = max_us base \/ max_us r.1 ∈ map rc_us r.2;
  rd_max_done t : t ∈ r.2 -> rc_pc t = RDone -> rc_us t <= max_us r.1;
  rd_cas t cur : t ∈ r.2 -> rc_pc t = RCas cur -> cur < rc_us t
}.

(** Counters within their type, and thirty buckets. *)
Record hist_ok (h : LatencyHistogram) : Prop := {
  ok_length : length (buckets h) = 30%nat;
  ok_buckets : Forall in_u64 (buckets h);
  ok_overflow : in_u64 (overflow h); ok_sum : in_u64 (sum_us h); ok_count : in_u64 (count h); ok_max : in_u64 (max_us h)
}.
Lemma hist_new_ok : hist_ok hist_new.
Proof. by split; try (split; vm_compute); try (apply Forall_replicate; by split). Qed.
Lemma wrap_ok z : in_u64 z -> wrap64 (z + 0) = z.
Proof. intros [??]. unfold wrap64. rewrite Z.add_0_r. apply Z.mod_small. lia. Qed.
Lemma zsum_start {A} (f : A -> Z) l : (forall x, x ∈ l -> f x = 0) -> zsum f l = 0.
Proof.
  induction l as [|x l IH]; intros H; [done|]. cbn [zsum foldr]. rewrite (H x) by left. fold (zsum f l).
  rewrite IH; [done|]. intros y Hy. apply H. by right.
Qed.
Lemma recorded_start h samples : hist_ok h -> recorded h (start h samples).
Proof.
  intros Hok. assert (forall t, t ∈ map (fun us => mkRec us RBucket) samples -> rc_pc t = RBucket) as Hpc.
  { intros t. rewrite list_elem_of_fmap. by intros (us & -> & _). }
  assert (forall f : Recorder -> Z, (forall us, f (mkRec us RBucket) = 0) -> zsum f (map (fun us => mkRec us RBucket) samples) = 0) as Hz.
  { intros f Hf. apply zsum_start. intros [us pc] Ht. specialize (Hpc _ Ht). cbn [rc_pc] in Hpc. by subst. }
  destruct Hok as [Hl Hb Ho Hs Hc Hm]. unfold start. split; cbn [fst snd].
  - done.
  - intros i c Hi _. rewrite Hz by done. rewrite wrap_ok; [done|]. by apply (Forall_lookup_1 _ _ i c Hb).
  - by rewrite Hz, wrap_ok.
  - by rewrite Hz, wrap_ok.
  - by rewrite Hz, wrap_ok.
  - done.
  - by left.
  - intros t Ht. by rewrite (Hpc t Ht).
  - intros t cur Ht. by rewrite (Hpc t Ht).
Qed.

Lemma bump_bucket_frame us h :
  sum_us (bump_bucket us h) = sum_us h /\ count (bump_bucket us h) = count h /\ max_us (bump_bucket us h) = max_us h.
Proof. unfold bump_bucket. by case_decide. Qed.
Lemma bucket_for_range us : 0 <= bucket_for us <= HISTOGRAM_BUCKETS.
Proof. unfold bucket_for, HISTOGRAM_BUCKETS. case_decide; [lia|]. pose proof (Z.log2_nonneg us). lia. Qed.
Lemma in_bucket_bump us i : in_bucket i (mkRec us RBucket) = 0 /\ in_bucket i (mkRec us RSum) = if decide (bucket_for us = i) then 1 else 0.
Proof. unfold in_bucket. cbn [rc_pc rc_us past_bucket andb]. split; [done|]. case_bool_decide; case_decide; done. Qed.

Lemma same_samples ths i t pc : ths !! i = Some t -> map rc_us (<[i := mkRec (rc_us t) pc]> ths) = map rc_us ths.
Proof. intros Hi. rewrite list_fmap_insert. apply list_insert_id. by rewrite list_lookup_fmap, Hi. Qed.
Lemma elem_insert {A} (l : list A) i (x y : A) : y ∈ <[i := x]> l -> y = x \/ y ∈ l.
Proof.
  intros [j Hj]%list_elem_of_lookup. apply list_lookup_insert_Some in Hj as [(_ & -> & _)|[_ Hj]]; [by left|].
  right. by apply list_elem_of_lookup_2 in Hj.
Qed.
Lemma bump_bucket_lookup us h i c :
  buckets h !! i = Some c -> Z.of_nat i < HISTOGRAM_BUCKETS ->
  buckets (bump_bucket us h) !! i = Some (if decide (bucket_for us = Z.of_nat i) then wrap64 (c + 1) else c).
Proof.
  intros Hi Hlt. pose proof (bucket_for_range us) as Hr. unfold bump_bucket. case_decide as Hov; cbn [buckets].
  - rewrite decide_False by lia. done.
  - rewrite list_lookup_alter. case_decide as He.
    + subst i. rewrite Hi. cbn [fmap option_fmap option_map]. by rewrite decide_True by lia.
    + by rewrite decide_False by lia.
Qed.

(** Every operation keeps the account: one counter goes up with its recorder, the
    others stay. *)
Ltac account H := rewrite H, ?wrap_add; f_equal; unfold in_bucket, summed, counted; cbn [rc_pc rc_us past_bucket past_sum past_count]; lia.
Lemma recorded_step base spurious r r' : recorded base r -> records spurious r r' -> recorded base r'.
Proof.
  intros [Hl Hb Ho Hs Hc Hm Hof Hd Hcas] Hstep. destruct Hstep as [h ths i [us pc] Hi Hpc]. cbn [fst snd rc_us rc_pc] in *.
  assert (forall (f : Recorder -> Z) pc', zsum f (<[i := mkRec us pc']> ths) = zsum f ths - f (mkRec us pc) + f (mkRec us pc')) as Hz
    by (intros; by apply zsum_insert).
  assert (forall pc', map rc_us (<[i := mkRec us pc']> ths) = map rc_us ths) as Hus by (intros pc'; by apply (same_samples ths i _ pc' Hi)).
  assert (mkRec us pc ∈ ths) as Hin by (by eapply list_elem_of_lookup_2).
  assert (forall m pc' t, max_us h <= m -> (pc' = RDone -> us <= m) -> t ∈ <[i := mkRec us pc']> ths -> rc_pc t = RDone -> rc_us t <= m) as Hdone.
  { intros m pc' t Hge Hp [->|Ht]%elem_insert; cbn [rc_pc rc_us]; [done|]. intros E. specialize (Hd t Ht E). lia. }
  assert (forall pc' t cur, (forall c, pc' = RCas c -> c < us) -> t ∈ <[i := mkRec us pc']> ths -> rc_pc t = RCas cur -> cur < rc_us t) as Hcas'.
  { intros pc' t cur Hp [->|Ht]%elem_insert; cbn [rc_pc rc_us]; [apply Hp|]. by apply Hcas. }
  assert (forall pc', past_bucket pc' = past_bucket pc -> past_sum pc' = past_sum pc -> past_count pc' = past_count pc ->
    forall m, max_us h <= m -> (pc' = RDone -> us <= m) -> (forall c, pc' = RCas c -> c < us) -> m = max_us h \/ m = us ->
    recorded base (mkHist (buckets h) (overflow h) (sum_us h) (count h) m, <[i := mkRec us pc']> ths)) as Hmax.
  { intros pc' Eb Es Ec m Hge Hp Hp' Hor.
    assert (forall f : Recorder -> Z, f (mkRec us pc') = f (mkRec us pc) -> zsum f (<[i := mkRec us pc']> ths) = zsum f ths) as Hz'
      by (intros f Ef; rewrite Hz, Ef; lia).
    split; cbn [fst snd buckets overflow sum_us count max_us]; rewrite ?Hus.
    - done.
    - intros j c Hj Hlt. rewrite (Hb j c Hj Hlt), Hz'; [done|]. unfold in_bucket. cbn [rc_pc rc_us]. by rewrite Eb.
    - rewrite Hz'; [done|]. unfold in_bucket. cbn [rc_pc rc_us]. by rewrite Eb.
    - rewrite Hz'; [done|]. unfold summed. cbn [rc_pc rc_us]. by rewrite Es.
    - rewrite Hz'; [done|]. unfold counted. cbn [rc_pc rc_us]. by rewrite Ec.
    - lia.
    - destruct Hor as [->| ->]; [done|]. right. apply list_elem_of_fmap. by exists (mkRec us pc).
    - intros t. by apply Hdone.
    - intros t cur. by apply Hcas'. }
  destruct pc as [| | | |cur|]; cbn [record_step]; [| | | | |done].
  - destruct (bump_bucket_frame us h) as (E1 & E2 & E3).
    split; cbn [fst snd]; rewrite ?Hz, ?Hus, ?E1, ?E2, ?E3; [| | |account Hs|account Hc|done|done| |].
    + unfold bump_bucket. case_decide; cbn [buckets]; [done|]. by rewrite length_alter.
    + intros j c Hj Hlt. rewrite (bump_bucket_lookup us h j _ (Hb j c Hj Hlt) Hlt), Hz.
      destruct (in_bucket_bump us (Z.of_nat j)) as [-> ->]. f_equal. case_decide; [rewrite wrap_add|]; f_equal; lia.
    + destruct (in_bucket_bump us HISTOGRAM_BUCKETS) as [-> ->]. unfold bump_bucket. pose proof (bucket_for_range us). repeat case_decide; cbn [overflow]; try lia; rewrite Ho; [rewrite wrap_add|]; f_equal; lia.
    + intros t. by apply Hdone.
    + intros t c. by apply Hcas'.
  - split; cbn [fst snd buckets overflow sum_us count max_us]; rewrite ?Hz, ?Hus; [done| |account Ho|account Hs|account Hc|done|done| |].
    + intros j c Hj Hlt. rewrite Hz. rewrite (Hb j c Hj Hlt). do 2 f_equal. unfold in_bucket. cbn [rc_pc rc_us past_bucket]. lia.
    + intros t. by apply Hdone.
    + intros t c. by apply Hcas'.
  - split; cbn [fst snd buckets overflow sum_us count max_us]; rewrite ?Hz, ?Hus; [done| |account Ho|account Hs|account Hc|done|done| |].
    + intros j c Hj Hlt. rewrite Hz. rewrite (Hb j c Hj Hlt). do 2 f_equal. unfold in_bucket. cbn [rc_pc rc_us past_bucket]. lia.
    + intros t. by apply Hdone.
    + intros t c. by apply Hcas'.
  - unfold observed. destruct h as [bs ov su co ma]; cbn [max_us] in *.
    case_decide; (apply Hmax; [done|done|done|lia|done || (intros; lia)|done || (intros c [= <-]; lia)|by left]).
  - case_decide as Hx.
    + specialize (Hcas _ cur Hin eq_refl). cbn [rc_us] in Hcas. apply Hmax; try done; [lia|auto].
    + unfold observed. destruct h as [bs ov su co ma]; cbn [max_us] in *.
      case_decide; (apply Hmax; [done|done|done|lia|done || (intros; lia)|done || (intros c [= <-]; lia)|by left]).
Qed.
Lemma records_samples spurious r r' : records spurious r r' -> map rc_us r'.2 = map rc_us r.2.
Proof. intros [h ths i t Hi _]. destruct (record_step _ _ _ _) as [h' pc]. cbn [snd]. by apply same_samples. Qed.
Lemma recorded_run base r r' : recorded base r -> rtc some_records r r' -> recorded base r' /\ map rc_us r'.2 = map rc_us r.2.
Proof.
  intros Hr Hrun. induction Hrun as [r|r r1 r' [sp Hs] _ IH]; [done|].
  destruct (IH (recorded_step _ _ _ _ Hr Hs)) as [H1 H2]. split; [done|]. by rewrite H2, (records_samples _ _ _ Hs).
Qed.
Lemma all_done_eq ths : all_done ths -> ths = map (fun us => mkRec us RDone) (map rc_us ths).
Proof. induction 1 as [|[us pc] ths Hpc _ IH]; [done|]. cbn [map rc_us rc_pc] in *. by rewrite <- IH, Hpc. Qed.

(** The account of finished recorders leaves no choice. *)
Lemma recorded_done_unique base h h' ths :
  length (buckets base) = 30%nat -> all_done ths -> recorded base (h, ths) -> recorded base (h', ths) -> h = h'.
Proof.
  intros H30 Hdone [Hl Hb Ho Hs Hc Hm Hof Hd _] [Hl' Hb' Ho' Hs' Hc' Hm' Hof' Hd' _]. cbn [fst snd] in *.
  destruct h as [bs ov su co ma], h' as [bs' ov' su' co' ma']. cbn [buckets overflow sum_us count max_us] in *. subst ov ov' su su' co co'. f_equal.
  - apply list_eq. intros i. destruct (buckets base !! i) as [c|] eqn:Ei.
    + pose proof (lookup_lt_Some _ _ _ Ei) as Hlt. rewrite (Hb i c Ei), (Hb' i c Ei); [done|unfold HISTOGRAM_BUCKETS; lia..].
    + apply lookup_ge_None in Ei. rewrite !lookup_ge_None_2 by lia. done.
  - assert (forall m, m ∈ map rc_us ths -> m <= ma /\ m <= ma') as Hle.
    { intros m (t & -> & Ht)%list_elem_of_fmap. pose proof (proj1 (Forall_forall _ _) Hdone t Ht). auto. }
    destruct Hof as [->|Hof], Hof' as [->|Hof']; try (apply Hle in Hof); try (apply Hle in Hof'); lia.
Qed.

(** One recorder alone runs [record_us]. *)
Lemma record_alone h ths i us :
  ths !! i = Some (mkRec us RBucket) -> rtc some_records (h, ths) (record_us us h, <[i := mkRec us RDone]> ths).
Proof.
  intros Hi. assert (i < length ths)%nat as Hlt by (by eapply lookup_lt_Some).
  assert (forall h ths pc, ths !! i = Some (mkRec us pc) -> pc <> RDone ->
    some_records (h, ths) ((record_step false us pc h).1, <[i := mkRec us (record_step false us pc h).2]> ths)) as Hone.
  { intros h0 ths0 pc H0 Hpc. exists false. pose proof (records_step false h0 ths0 i _ H0 Hpc) as Hs. cbn [rc_us rc_pc] in Hs.
    by destruct (record_step false us pc h0). }
  rewrite record_us_eq. cbv zeta.
  eapply rtc_l; [by apply (Hone h ths RBucket)|]. cbn [record_step fst snd].
  eapply rtc_l; [apply Hone; [by apply list_lookup_insert_eq|done]|]. rewrite list_insert_insert_eq. cbn [record_step fst snd].
  eapply rtc_l; [apply Hone; [by apply list_lookup_insert_eq|done]|]. rewrite list_insert_insert_eq. cbn [record_step fst snd buckets overflow sum_us count max_us].
  eapply rtc_l; [apply Hone; [by apply list_lookup_insert_eq|done]|]. rewrite list_insert_insert_eq. cbn [record_step fst snd buckets overflow sum_us count max_us].
  unfold observed. case_decide as Hu.
  - eapply rtc_l; [apply Hone; [by apply list_lookup_insert_eq|done]|]. rewrite list_insert_insert_eq. cbn [record_step max_us].
    rewrite decide_True by done. cbn [fst snd buckets overflow sum_us count]. rewrite Z.max_r by lia. apply rtc_refl.
  - rewrite Z.max_l by lia. apply rtc_refl.
Qed.
Definition record_all (samples : list Z) (h : LatencyHistogram) : LatencyHistogram := fold_left (fun h us => record_us us h) samples h.
Lemma record_in_turn samples h pre :
  rtc some_records (h, pre ++ map (fun us => mkRec us RBucket) samples)
    (record_all samples h, pre ++ map (fun us => mkRec us RDone) samples).
Proof.
  revert h pre. induction samples as [|us samples IH]; intros h pre; [apply rtc_refl|]. cbn [map record_all fold_left].
  etrans; [apply (record_alone _ _ (length pre) us); by rewrite list_lookup_middle|].
  rewrite insert_app_r_alt by lia. rewrite Nat.sub_diag. cbn [insert list_insert].
  specialize (IH (record_us us h) (pre ++ [mkRec us RDone])). rewrite <- !app_assoc in IH. exact IH.
Qed.

(** C31: once all recorders are through, in whatever order their atomic operations took
    place and however often a compare-exchange failed, the histogram is what
    recording the samples one after the other gives: no sample is lost or counted
    twice, and the maximum is right. *)
Theorem recorders_quiesce h samples h' ths :
  hist_ok h -> rtc some_records (start h samples) (h', ths) -> all_done ths -> h' = record_all samples h.
Proof.
  intros Hok Hrun Hdone. pose proof (recorded_start h samples Hok) as Hs.
  destruct (recorded_run h _ _ Hs Hrun) as [H1 E1]. cbn [snd start] in E1. rewrite map_map in E1. cbn [rc_us] in E1. rewrite map_id in E1.
  pose proof (all_done_eq ths Hdone) as Eths. rewrite E1 in Eths.
  destruct (recorded_run h _ _ Hs (record_in_turn samples h [])) as [H2 _]. cbn [app] in H2. rewrite <- Eths in H2.
  by apply (recorded_done_unique h _ _ ths (ok_length h Hok) Hdone).
Qed.

(** ** Progress *)

(** What a recorder has left to do when the maximum is [m]; a compare-exchange on an
    old value has to look again. *)
Definition left_to_do (m : Z) (t : Recorder) : Z :=
  match rc_pc t with
  | RBucket => 5 | RSum => 4 | RCount => 3 | RLoad => 2
  | RCas cur => if decide (cur = m) then 1 else 2
  | RDone => 0
  end.
Definition undone (t : Recorder) : Z := match rc_pc t with RDone => 0 | _ => 1 end.
Definition work_left (r : Recording) : Z := len r.2 * zsum undone r.2 + zsum (left_to_do (max_us r.1)) r.2.
Lemma zsum_nonneg {A} (f : A -> Z) l : (forall x, 0 <= f x) -> 0 <= zsum f l.
Proof. intros H. induction l as [|x l IH]; [done|]. cbn [zsum foldr]. specialize (H x). unfold zsum in IH. lia. Qed.
Lemma work_left_nonneg r : 0 <= work_left r.
Proof.
  unfold work_left. pose proof (len_nonneg r.2).
  assert (0 <= zsum undone r.2) by (apply zsum_nonneg; intros []; unfold undone; destruct (rc_pc _); lia).
  assert (0 <= zsum (left_to_do (max_us r.1)) r.2) by (apply zsum_nonneg; intros []; unfold left_to_do; destruct (rc_pc _); try case_decide; lia).
  lia.
Qed.
Lemma zsum_fresh (f : Recorder -> Z) c samples :
  (forall us, f (mkRec us RBucket) = c) -> zsum f (map (fun us => mkRec us RBucket) samples) = c * len samples.
Proof.
  intros Hf. unfold len. induction samples as [|us l IH]; cbn [map zsum foldr length]; [lia|]. unfold zsum in IH. rewrite Hf. lia.
Qed.
(** A success of one recorder makes each of the others look again at most. *)
Lemma new_maximum m m' ths : zsum (left_to_do m') ths <= zsum (left_to_do m) ths + zsum undone ths.
Proof.
  induction ths as [|t ths IH]; [done|]. cbn [zsum foldr]. fold (zsum (left_to_do m') ths) (zsum (left_to_do m) ths) (zsum undone ths).
  assert (left_to_do m' t <= left_to_do m t + undone t); [|lia]. unfold left_to_do, undone. destruct (rc_pc t); repeat case_decide; lia.
Qed.
Lemma undone_le ths : zsum undone ths <= len ths.
Proof.
  pose proof (zsum_bounded undone (fun _ => 0) 1 ths) as H. rewrite (zsum_start (fun _ => 0)) in H by done.
  specialize (H ltac:(intros []; unfold undone; destruct (rc_pc _); lia)). lia.
Qed.
Lemma work_goes_down r r' : records false r r' -> work_left r' < work_left r.
Proof.
  intros [h ths i [us pc] Hi Hpc]. cbn [rc_us rc_pc] in *. unfold work_left.
  assert (forall pc' : RecordPc, len (<[i := mkRec us pc']> ths) = len ths) as Hlen by (intros; unfold len; by rewrite length_insert).
  assert (forall (f : Recorder -> Z) pc', zsum f (<[i := mkRec us pc']> ths) = zsum f ths - f (mkRec us pc) + f (mkRec us pc')) as Hz
    by (intros; by apply zsum_insert).
  assert (1 <= len ths) as Hn by (apply lookup_lt_Some in Hi; unfold len; lia).
  destruct (bump_bucket_frame us h) as (_ & _ & E3).
  assert (forall c, 1 <= left_to_do (max_us h) (mkRec us (RCas c)) /\ 1 <= left_to_do us (mkRec us (RCas c))) as Hcas
    by (intros c; unfold left_to_do; cbn [rc_pc]; repeat case_decide; lia).
  assert (forall m, left_to_do m (mkRec us (RCas m)) = 1) as Hfresh by (intros m; unfold left_to_do; cbn [rc_pc]; by rewrite decide_True).
  assert (forall m c, c <> m -> left_to_do m (mkRec us (RCas c)) = 2) as Hold by (intros m c Hne; unfold left_to_do; cbn [rc_pc]; by rewrite decide_False).
  destruct pc as [| | | |cur|]; cbn [record_step]; [| | | | |done];
    [cbn [fst snd max_us]; rewrite ?E3, Hlen, !Hz; cbn [left_to_do undone rc_pc]; lia..| |].
  - unfold observed. case_decide; cbn [fst snd]; rewrite Hlen, !Hz, ?Hfresh; cbn [left_to_do undone rc_pc]; lia.
  - case_decide as Hx.
    + cbn [fst snd max_us]. rewrite Hlen, !Hz. pose proof (new_maximum (max_us h) us ths) as Hnew. pose proof (undone_le ths).
      destruct (Hcas cur) as [_ Hc]. change (left_to_do us (mkRec us RDone)) with 0.
      change (undone (mkRec us RDone)) with 0. change (undone (mkRec us (RCas cur))) with 1. lia.
    + assert (cur <> max_us h) as Hne by (intros ->; apply Hx; by split).
      unfold observed. case_decide; cbn [fst snd]; rewrite Hlen, !Hz, (Hold _ _ Hne), ?Hfresh; cbn [left_to_do undone rc_pc]; lia.
Qed.

(** The recorders wait for nobody: as long as one is not done there is an operation
    that can take place, and but for spurious failures [n] recorders are through
    after at most [n * n + 5 * n] operations, whatever the order. *)
Theorem recorders_lock_free h samples k r :
  nsteps (records false) k (start h samples) r ->
  Z.of_nat k <= len samples * len samples + 5 * len samples /\
  (all_done r.2 \/ exists r', records false r r').
Proof.
  intros Hrun. split.
  - assert (forall k a b, nsteps (records false) k a b -> Z.of_nat k + work_left b <= work_left a) as Hk.
    { clear. intros k a b. revert a. induction k as [|k IH]; intros a Hrun; inversion Hrun as [|? ? c ? Hs Hr]; subst; [lia|].
      apply IH in Hr. apply work_goes_down in Hs. lia. }
    specialize (Hk _ _ _ Hrun). pose proof (work_left_nonneg r). assert (work_left (start h samples) = len samples * len samples + 5 * len samples); [|lia].
    unfold work_left, start. cbn [fst snd]. unfold len at 1. rewrite length_map.
    rewrite (zsum_fresh undone 1), (zsum_fresh (left_to_do (max_us h)) 5) by done. unfold len. lia.
  - destruct r as [h' ths]. cbn [snd].
    destruct (decide (Forall (fun t => undone t = 0) ths)) as [Hd|Hd].
    + left. apply (Forall_impl _ _ _ Hd). intros [us pc]. unfold undone. cbn [rc_pc]. by destruct pc.
    + right. apply not_Forall_Exists in Hd; [|apply _]. apply Exists_exists in Hd as (t & [i Hi]%list_elem_of_lookup & Ht).
      eexists. apply (records_step false h' ths i t Hi). intros E. apply Ht. unfold undone. by rewrite E.
Qed.

(** ** Percentiles *)
Definition how_many (P : Z -> Prop) `{!forall x, Decision (P x)} (samples : list Z) : Z := len (filter P samples).
Lemma how_many_mono P Q `{!forall x, Decision (P x), !forall x, Decision (Q x)} samples :
  (forall x, x ∈ samples -> P x -> Q x) -> how_many P samples <= how_many Q samples.
Proof.
  unfold how_many, len. induction samples as [|x l IH]; intros Hpq; [done|]. rewrite !filter_cons.
  assert (forall y, y ∈ l -> P y -> Q y) as Hl by (intros y Hy; apply Hpq; by right). specialize (IH Hl).
  case_decide as Hp; case_decide as Hq; cbn [length]; try lia. by destruct Hq; apply Hpq; [left|].
Qed.
Lemma how_many_all P `{!forall x, Decision (P x)} samples : (forall x, x ∈ samples -> P x) -> how_many P samples = len samples.
Proof.
  intros Hp. unfold how_many. f_equal. induction samples as [|x l IH]; [done|]. rewrite filter_cons_True by (apply Hp; left).
  f_equal. apply IH. intros y Hy. apply Hp. by right.
Qed.
Lemma how_many_le P `{!forall x, Decision (P x)} samples : 0 <= how_many P samples <= len samples.
Proof. unfold how_many, len. pose proof (length_filter P samples). lia. Qed.

Lemma in_bucket_count i samples : zsum (in_bucket i) (map (fun us => mkRec us RDone) samples) = how_many (fun s => bucket_for s = i) samples.
Proof.
  unfold how_many, len. induction samples as [|us l IH]; [done|]. cbn [map zsum foldr]. rewrite filter_cons.
  unfold zsum in IH. rewrite IH. unfold in_bucket. cbn [rc_pc rc_us past_bucket andb].
  case_bool_decide; case_decide; try done; cbn [length]; lia.
Qed.
Lemma counted_all samples : zsum counted (map (fun us => mkRec us RDone) samples) = len samples.
Proof. unfold len. induction samples as [|us l IH]; [done|]. cbn [map zsum foldr length]. unfold zsum in IH. rewrite IH. unfold counted. cbn. lia. Qed.
(** The counters of a histogram that has seen the samples. *)
Lemma record_all_buckets samples i :
  len samples <= u64_max -> (i < 30)%nat ->
  buckets (record_all samples hist_new) !! i = Some (how_many (fun s => bucket_for s = Z.of_nat i) samples).
Proof.
  intros Hn Hi. destruct (recorded_run hist_new _ _ (recorded_start hist_new samples hist_new_ok) (record_in_turn samples hist_new [])) as [[_ Hb _ _ _ _ _ _ _] _].
  cbn [fst snd app] in Hb. rewrite (Hb i 0); [|by apply lookup_replicate|unfold HISTOGRAM_BUCKETS; lia].
  rewrite in_bucket_count. f_equal. unfold wrap64. apply Z.mod_small. pose proof (how_many_le (fun s => bucket_for s = Z.of_nat i) samples). lia.
Qed.
Lemma record_all_frame samples :
  len samples <= u64_max -> length (buckets (record_all samples hist_new)) = 30%nat /\ count (record_all samples hist_new) = len samples /\
  forall s, s ∈ samples -> s <= max_us (record_all samples hist_new).
Proof.
  intros Hn. destruct (recorded_run hist_new _ _ (recorded_start hist_new samples hist_new_ok) (record_in_turn samples hist_new []))
    as [[Hl _ _ _ Hc _ _ Hd _] _]. cbn [fst snd app] in *. split; [done|]. split.
  - rewrite Hc, counted_all. unfold wrap64. apply Z.mod_small. cbn [count hist_new]. pose proof (len_nonneg samples). lia.
  - intros s Hs. apply (Hd (mkRec s RDone)); [|done]. apply list_elem_of_fmap. by exists s.
Qed.

(** The first buckets together hold the samples below a power of two. *)
Lemma bucket_below s j : 0 <= s -> 1 <= j <= HISTOGRAM_BUCKETS -> bucket_for s < j <-> s < 2 ^ j.
Proof.
  unfold HISTOGRAM_BUCKETS. intros Hs Hj. unfold bucket_for, HISTOGRAM_BUCKETS. case_decide as H1.
  - assert (2 ^ 1 <= 2 ^ j) by (apply Z.pow_le_mono_r; lia). change (2 ^ 1) with 2 in *. lia.
  - rewrite (Z.log2_lt_pow2 s j) by lia. lia.
Qed.
Lemma how_many_split j samples :
  how_many (fun s => bucket_for s < Z.succ j) samples = how_many (fun s => bucket_for s < j) samples + how_many (fun s => bucket_for s = j) samples.
Proof.
  unfold how_many, len. induction samples as [|x l IH]; [done|]. rewrite !filter_cons. repeat case_decide; cbn [length]; lia.
Qed.
Lemma first_buckets samples j :
  len samples <= u64_max -> (j <= 30)%nat ->
  zsum id (take j (buckets (record_all samples hist_new))) = how_many (fun s => bucket_for s < Z.of_nat j) samples.
Proof.
  intros Hn. induction j as [|j IH]; intros Hj.
  - cbn [take zsum foldr]. symmetry. unfold how_many. clear. induction samples as [|s l IH]; [done|].
    rewrite filter_cons_False; [exact IH|]. pose proof (bucket_for_range s). lia.
  - rewrite (take_S_r _ _ _ (record_all_buckets samples j Hn ltac:(lia))). rewrite Nat2Z.inj_succ, how_many_split, <- IH by lia.
    generalize (take j (buckets (record_all samples hist_new))). intros l. induction l as [|x l IHl]; [cbn; lia|].
    cbn [app zsum foldr]. unfold zsum in IHl. lia.
Qed.
Lemma percentile_walk_spec bs i cumulative target :
  cumulative < target \/ bs = [] ->
  match percentile_walk i cumulative target bs with
  | None => bs = [] \/ cumulative + zsum id bs < target
  | Some v => exists j, (j < length bs)%nat /\ v = Z.shiftl 1 (Z.min (i + Z.of_nat j + 1) 63) /\
                cumulative + zsum id (take j bs) < target <= cumulative + zsum id (take (S j) bs)
  end.
Proof.
  revert i cumulative. induction bs as [|c bs IH]; intros i cumulative Hlt; cbn [percentile_walk]; [by left|].
  destruct Hlt as [Hlt|Hlt]; [|done]. case_decide as Ht.
  - exists 0%nat. unfold zsum, id. cbn [length take foldr]. split; [lia|]. split; [do 2 f_equal; lia|].
    rewrite take_0. cbn [foldr]. lia.
  - specialize (IH (i + 1) (cumulative + c)). destruct (percentile_walk _ _ _ bs) as [v|].
    + destruct IH as (j & Hj & -> & Hb); [left; lia|]. exists (S j). cbn [length]. split; [lia|]. split; [do 2 f_equal; lia|].
      cbn [take zsum foldr] in *. unfold zsum, id in *. lia.
    + right. destruct IH as [->|IH]; [left; lia| |]; cbn [zsum foldr] in *; unfold zsum, id in *; lia.
Qed.

(** The ranks of the four percentiles lie between one and the number of samples. *)
Definition usual : list f64 := [P50; P90; P99; P999].
Lemma usual_target p n : p ∈ usual -> 0 < n <= u64_max -> 1 <= percentile_target n p <= n.
Proof.
  intros Hp Hn. unfold percentile_target.
  assert (exists k, f64_div p hundred = mkF64 k (-53) /\ 2 ^ 40 <= k <= 2 ^ 53 - 2 ^ 40) as (k & -> & Hk); [|by apply f64_ceil_fraction].
  unfold usual in Hp. repeat (apply elem_of_cons in Hp as [->|Hp]); [..|by apply not_elem_of_nil in Hp];
    (eexists; split; [vm_compute; reflexivity|]); split; vm_compute; discriminate.
Qed.

Definition ten_samples : list Z := [100; 200; 300; 400; 500; 1000; 2000; 3000; 4000; 5000].
(** Two recorders, one of them through before the other starts. *)
Lemma recorders_quiesce_witness :
  let h' := record_us 7 (record_us 5 hist_new) in
  h' = record_all [5; 7] hist_new.
Proof.
  intros h'. apply (recorders_quiesce hist_new [5; 7] h' [mkRec 5 RDone; mkRec 7 RDone]).
  - apply hist_new_ok.
  - apply (record_in_turn [5; 7] hist_new []).
  - by repeat constructor.
Defined.
Lemma recorders_lock_free_witness :
  1 <= 10 + 4 /\ (all_done [mkRec 5 RSum; mkRec 7 RBucket] \/ exists r', records false (bump_bucket 5 hist_new, [mkRec 5 RSum; mkRec 7 RBucket]) r').
Proof.
  apply (recorders_lock_free hist_new [5; 7] 1 (bump_bucket 5 hist_new, [mkRec 5 RSum; mkRec 7 RBucket])).
  eapply nsteps_l; [|apply nsteps_O]. apply (records_step false hist_new [mkRec 5 RBucket; mkRec 7 RBucket] 0 (mkRec 5 RBucket)); done.
Defined.

