(* ===== verification/Metrics.v ===== *)
(** * Operation metrics ([embed_metrics.rs])

    Models [crates/wombatkv-node/src/embed_metrics.rs]: the accumulator of each
    operation with its capped samples, the percentiles of a snapshot, and the
    registry that attributes an observation.  The rendering of reports is not
    modelled.

    The theorem bounds the samples kept; [small_cap_grows] is what happens below
    the smallest cap that works. *)

From S2P Require Import Prelude Order Text F64.

Inductive Op := Stash | LoadFoyer | LoadFoyerRam | LoadFoyerSsd | LoadS3 | MissOp | RestoreFromS3.
#[export] Instance Op_eq_dec : EqDecision Op.
Proof. solve_decision. Defined.
Definition op_as_str (o : Op) : str :=
  match o with
  | Stash => lit "stash" | LoadFoyer => lit "load_foyer" | LoadFoyerRam => lit "load_foyer_ram" | LoadFoyerSsd => lit "load_foyer_ssd"
  | LoadS3 => lit "load_s3" | MissOp => lit "miss" | RestoreFromS3 => lit "restore_from_s3"
  end.

Record OpAccumulator := mkAcc { ac_op : Op; ac_count : Z; ac_bytes : Z; ac_micros : Z; ac_samples : list Z; ac_max_samples : Z }.
Definition acc_new (o : Op) (max_samples : Z) : OpAccumulator := mkAcc o 0 0 0 [] max_samples.
Definition acc_observe (micros bytes : Z) (a : OpAccumulator) : OpAccumulator :=
  let samples := if decide (ac_max_samples a <= len (ac_samples a))
                 then drop (Z.to_nat (ac_max_samples a / 4)) (ac_samples a) else ac_samples a in
  mkAcc (ac_op a) (wrap64 (ac_count a + 1)) (wrap64 (ac_bytes a + bytes)) (wrap64 (ac_micros a + micros))
    (samples ++ [Z.min micros u32_max]) (ac_max_samples a).

(** [pct / 100.0] of the last index, rounded. *)
Definition percentile (sorted_samples : list Z) (pct : f64) : Z :=
  match sorted_samples with
  | [] => 0
  | _ => let n := len sorted_samples in
         let rank := f64_mul (f64_div pct (f64_of_u64 100)) (f64_of_u64 (n - 1)) in
         nth (Z.to_nat (Z.min (f64_round_u64 rank) (n - 1))) sorted_samples 0
  end.
(** The literals: whole numbers, [99.9] and [99.99]. *)
Definition pct (n : Z) : f64 := f64_of_u64 n.
Definition pct_99_9 : f64 := f64_div (f64_of_u64 999) (f64_of_u64 10).
Definition pct_99_99 : f64 := f64_div (f64_of_u64 9999) (f64_of_u64 100).
Record OpSnapshot := mkSnap {
  sn_op : str; sn_count : Z; sn_bytes_total : Z; sn_micros_total : Z; p10_us : Z; p25_us : Z; p50_us : Z; p90_us : Z;
  p95_us : Z; p99_us : Z; p99_9_us : Z; p99_99_us : Z; sn_max_us : Z
}.
Definition acc_snapshot (a : OpAccumulator) : OpSnapshot :=
  let samples := sort_by Z.compare (ac_samples a) in
  mkSnap (op_as_str (ac_op a)) (ac_count a) (ac_bytes a) (ac_micros a)
    (percentile samples (pct 10)) (percentile samples (pct 25)) (percentile samples (pct 50)) (percentile samples (pct 90))
    (percentile samples (pct 95)) (percentile samples (pct 99)) (percentile samples pct_99_9) (percentile samples pct_99_99)
    (default 0 (last samples)).

Record EmbedMetrics := mkMetrics {
  em_stash : OpAccumulator; em_load_foyer : OpAccumulator; em_load_foyer_ram : OpAccumulator; em_load_foyer_ssd : OpAccumulator;
  em_load_s3 : OpAccumulator; em_miss : OpAccumulator; em_restore_from_s3 : OpAccumulator
}.
Definition metrics_new (env : str -> option str) : EmbedMetrics :=
  let cap := default 4096 (s ← env (lit "WMBT_KV_METRICS_MAX_SAMPLES"); parse_u64 s) in
  mkMetrics (acc_new Stash cap) (acc_new LoadFoyer cap) (acc_new LoadFoyerRam cap) (acc_new LoadFoyerSsd cap)
    (acc_new LoadS3 cap) (acc_new MissOp cap) (acc_new RestoreFromS3 cap).
Definition observe (o : Op) (micros bytes : Z) (m : EmbedMetrics) : EmbedMetrics :=
  let obs := acc_observe micros bytes in
  let '(mkMetrics st lf ram ssd s3 mi re) := m in
  match o with
  | Stash => mkMetrics (obs st) lf ram ssd s3 mi re
  | LoadFoyer => mkMetrics st (obs lf) ram ssd s3 mi re
  | LoadFoyerRam => mkMetrics st (obs lf) (obs ram) ssd s3 mi re
  | LoadFoyerSsd => mkMetrics st (obs lf) ram (obs ssd) s3 mi re
  | LoadS3 => mkMetrics st lf ram ssd (obs s3) mi re
  | MissOp => mkMetrics st lf ram ssd s3 (obs mi) re
  | RestoreFromS3 => mkMetrics st lf ram ssd s3 mi (obs re)
  end.
Definition accumulators (m : EmbedMetrics) : list OpAccumulator :=
  let '(mkMetrics st lf ram ssd s3 mi re) := m in [st; lf; ram; ssd; s3; mi; re].
Definition metrics_snapshot_all (m : EmbedMetrics) : list OpSnapshot := map acc_snapshot (accumulators m).

(** ** The samples kept *)
Definition observe_all (obs : list (Op * Z * Z)) (m : EmbedMetrics) : EmbedMetrics :=
  fold_left (fun m '(o, micros, bytes) => observe o micros bytes m) obs m.
Definition acc_bounded (cap : Z) (a : OpAccumulator) : Prop :=
  ac_max_samples a = cap /\ len (ac_samples a) <= cap /\ Forall (fun s => s <= u32_max) (ac_samples a).
Lemma acc_observe_bounded cap micros bytes a : 4 <= cap -> acc_bounded cap a -> acc_bounded cap (acc_observe micros bytes a).
Proof.
  intros Hcap (Hm & Hl & Hs). unfold acc_observe, acc_bounded. cbn [ac_max_samples ac_samples]. split; [done|].
  assert (1 <= cap / 4 <= cap) by (split; [apply Z.div_le_lower_bound; lia|apply Z.div_le_upper_bound; lia]).
  rewrite Hm. split.
  - unfold len in *. rewrite length_app. cbn [length]. case_decide; [rewrite length_drop|]; lia.
  - apply Forall_app. split; [case_decide; [by apply Forall_drop|done]|]. constructor; [lia|constructor].
Qed.
Lemma observe_bounded cap o micros bytes m :
  4 <= cap -> Forall (acc_bounded cap) (accumulators m) -> Forall (acc_bounded cap) (accumulators (observe o micros bytes m)).
Proof.
  intros Hcap. destruct m as [st lf ram ssd s3 mi re]. cbn [accumulators]. rewrite !Forall_cons. intros (H1 & H2 & H3 & H4 & H5 & H6 & H7 & _).
  destruct o; cbn [observe accumulators]; do 7 (constructor; [first [done|by apply acc_observe_bounded]|]); constructor.
Qed.

(** With a cap of four or more, however much is observed, no operation keeps more
    samples than the cap. *)
Theorem samples_bounded env cap obs :
  default 4096 (s ← env (lit "WMBT_KV_METRICS_MAX_SAMPLES"); parse_u64 s) = cap -> 4 <= cap ->
  Forall (acc_bounded cap) (accumulators (observe_all obs (metrics_new env))).
Proof.
  intros Ecap Hcap. assert (Forall (acc_bounded cap) (accumulators (metrics_new env))) as H0.
  { unfold metrics_new. rewrite Ecap. cbn [accumulators]. unfold acc_new.
    do 7 (constructor; [split; [done|]; split; [unfold len; cbn [ac_samples length]; lia|constructor]|]). constructor. }
  revert H0. generalize (metrics_new env). induction obs as [|[[o mi] by_] obs IH]; intros m Hm; [done|].
  cbn [observe_all fold_left]. apply IH. by apply observe_bounded.
Qed.
Lemma samples_bounded_witness :
  Forall (acc_bounded 4096) (accumulators (observe_all [(Stash, 10, 100); (LoadFoyerRam, 5, 7)] (metrics_new (fun _ => None)))).
Proof. apply (samples_bounded (fun _ => None) 4096); [reflexivity|lia]. Defined.

(** A quarter of a cap below four is nothing: the samples grow with every
    observation. *)
Lemma small_cap_grows cap obs a :
  0 <= cap < 4 -> ac_max_samples a = cap ->
  len (ac_samples (fold_left (fun a '(mi, by_) => acc_observe mi by_ a) obs a)) = len (ac_samples a) + len obs.
Proof.
  intros Hcap. revert a. induction obs as [|[mi by_] obs IH]; intros a Ha; [unfold len; cbn [fold_left length]; lia|]. cbn [fold_left].
  rewrite IH by done. unfold acc_observe. cbn [ac_samples]. rewrite Ha.
  assert (cap / 4 = 0) as -> by (apply Z.div_small; lia). change (Z.to_nat 0) with 0%nat. rewrite drop_0.
  unfold len. case_decide; rewrite length_app; cbn [length]; lia.
Qed.
(** The tiered loads are counted with the untiered ones as well. *)
Definition how_often (f : Op -> bool) (obs : list (Op * Z * Z)) : Z := len (List.filter (fun x => f x.1.1) obs).
Lemma tiers_add_up obs env :
  let m := observe_all obs (metrics_new env) in
  let seen f := wrap64 (how_often f obs) in
  ac_count (em_load_foyer m) = seen (fun o => match o with LoadFoyer | LoadFoyerRam | LoadFoyerSsd => true | _ => false end) /\
  ac_count (em_load_foyer_ram m) = seen (fun o => match o with LoadFoyerRam => true | _ => false end) /\
  ac_count (em_load_foyer_ssd m) = seen (fun o => match o with LoadFoyerSsd => true | _ => false end).
Proof.
  cbv zeta. induction obs as [|[[o mi] by_] obs IH] using rev_ind; [done|].
  unfold observe_all. rewrite fold_left_app. cbn [fold_left]. fold (observe_all obs (metrics_new env)).
  destruct (observe_all obs (metrics_new env)) as [st lf ram ssd s3 mi' re]. destruct IH as (H1 & H2 & H3).
  cbn [em_load_foyer em_load_foyer_ram em_load_foyer_ssd] in *. unfold how_often in *. rewrite !List.filter_app, !len_app.
  assert (forall x k, x = wrap64 k -> wrap64 (x + 1) = wrap64 (k + 1)) as Hw by (intros x k ->; unfold wrap64; by rewrite Z.add_mod_idemp_l).
  destruct o; cbn [observe em_load_foyer em_load_foyer_ram em_load_foyer_ssd acc_observe ac_count List.filter fst];
    change (len (@nil (Op * Z * Z))) with 0; rewrite ?Z.add_0_r; (split; [|split]); first [assumption|by apply Hw].
Qed.
