(* ===== verification/Worker.v ===== *)
(** * Background workers

    Models the thread body shared by [spawn_worker] of
    [crates/wombatkv-node/src/lru.rs] and by [spawn_worker] and
    [spawn_worker_v2] of [block_prefetch.rs]: test the stop flag, run a cycle,
    sleep the interval in slices and test the flag before every slice.  A state
    is the thread's program point with the stop flag, the world a cycle acts on
    and the time slept; other threads may set the flag between any two steps
    ([signal_stop], [Drop]).

    The theorem shows that a worker that was told to stop runs no further cycle,
    sleeps at most the slice it is in, and exits. *)

From S2P Require Import Prelude.

(** The program points of the loop: before the test at the top, before the test
    of the sleep loop with [remaining] milliseconds left, and after the loop. *)
Inductive WorkerPoint := LoopTop | SleepTop (remaining : Z) | Exited.
#[global] Instance worker_point_eq_dec : EqDecision WorkerPoint.
Proof. solve_decision. Defined.

Record WorkerThread (W : Type) := mkWorkerThread {
  point : WorkerPoint; stop : bool; world : W; slept : Z; cycles : nat
}.
Arguments mkWorkerThread {W}. Arguments point {W}. Arguments stop {W}. Arguments world {W}.
Arguments slept {W}. Arguments cycles {W}.

Section Loop.
(** [cycle] runs one cycle; [false] when it panics, which ends the thread. *)
Context {W : Type} (cycle : W -> W * bool) (interval slice : Z).

(** One step of the thread: up to and including the next test of the stop flag
    and what follows it. *)
Definition worker_step (t : WorkerThread W) : WorkerThread W :=
  match point t with
  | LoopTop =>
      if stop t then mkWorkerThread Exited (stop t) (world t) (slept t) (cycles t)
      else
        let (w, returned) := cycle (world t) in
        mkWorkerThread (if returned then SleepTop interval else Exited) (stop t) w (slept t) (S (cycles t))
  | SleepTop remaining =>
      if decide (remaining > 0) then
        if stop t then mkWorkerThread LoopTop (stop t) (world t) (slept t) (cycles t)
        else
          let s := Z.min remaining slice in
          mkWorkerThread (SleepTop (saturating_sub remaining s)) (stop t) (world t) (slept t + s) (cycles t)
      else mkWorkerThread LoopTop (stop t) (world t) (slept t) (cycles t)
  | Exited => t
  end.
Definition spawn (w : W) : WorkerThread W := mkWorkerThread LoopTop false w 0 0.
(** [signal_stop], also the first half of [Drop]. *)
Definition signal_stop (t : WorkerThread W) : WorkerThread W :=
  mkWorkerThread (point t) true (world t) (slept t) (cycles t).
(** [is_running] *)
Definition is_running (t : WorkerThread W) : bool := bool_decide (point t <> Exited).

(** The thread's steps interleaved with requests to stop. *)
Inductive worker_run : WorkerThread W -> WorkerThread W -> Prop :=
| run_refl t : worker_run t t
| run_thread t t' : worker_run t t' -> worker_run t (worker_step t')
| run_signal t t' : worker_run t t' -> worker_run t (signal_stop t').

(** The sleep loop never leaves less than nothing, and a cycle is followed by the
    whole interval. *)
Definition worker_wf (t : WorkerThread W) : Prop :=
  match point t with
  | LoopTop => stop t = false -> slept t = Z.of_nat (cycles t) * interval
  | SleepTop r =>
      0 <= r <= interval /\ (0 < cycles t)%nat /\
      (stop t = false -> slept t + r = Z.of_nat (cycles t) * interval)
  | Exited => True
  end.

Lemma worker_step_wf t : 0 <= interval -> 0 < slice -> worker_wf t -> worker_wf (worker_step t).
Proof.
  intros Hi Hs. unfold worker_wf, worker_step. destruct t as [[|r|] b w z c];
    cbn [point stop world slept cycles].
  - destruct b; cbn; [done|]. intros Hz. destruct (cycle w) as [w' []]; cbn; [|done]. rewrite Nat2Z.inj_succ. lia.
  - intros (Hr & Hc & Hz). case_decide; [destruct b|]; cbn; [done| |].
    + unfold saturating_sub. split; [lia|]. split; [done|]. intros _. specialize (Hz eq_refl). lia.
    + intros ->. specialize (Hz eq_refl). lia.
  - done.
Qed.

Lemma worker_run_wf w t : 0 <= interval -> 0 < slice -> worker_run (spawn w) t -> worker_wf t.
Proof.
  intros Hi Hs. remember (spawn w) as t0 eqn:E0. induction 1 as [t|t t' _ IH|t t' _ IH].
  - subst. cbn. lia.
  - apply worker_step_wf; auto.
  - specialize (IH E0). revert IH. unfold worker_wf, signal_stop. destruct t' as [[|r|] b w' z c]; cbn; intuition congruence.
Qed.
End Loop.

(** In any interleaving of the worker's loop with requests to stop, while no
    stop was requested every cycle is followed by exactly the configured interval
    of sleep, never more than a slice of it between two tests of the flag; once a
    stop was requested the worker exits within two steps, without another cycle
    and without sleeping. *)
Theorem worker_stops_promptly {W} (cycle : W -> W * bool) interval slice w t :
  0 <= interval -> 0 < slice -> worker_run cycle interval slice (spawn w) t ->
  (stop t = false -> point t = LoopTop -> slept t = Z.of_nat (cycles t) * interval) /\
  slept (worker_step cycle interval slice t) - slept t <= slice /\
  (let t2 := worker_step cycle interval slice (worker_step cycle interval slice (signal_stop t)) in
   is_running t2 = false /\ world t2 = world t /\ cycles t2 = cycles t /\ slept t2 = slept t).
Proof.
  intros Hi Hs Hrun. pose proof (worker_run_wf cycle interval slice w t Hi Hs Hrun) as Hwf.
  destruct t as [[|r|] b w' z c]; unfold worker_wf in Hwf; cbn in Hwf.
  - split; [cbn; auto|]. split; [|by cbn].
    unfold worker_step. cbn. destruct b; [|destruct (cycle w')]; cbn; lia.
  - split; [done|]. split.
    + unfold worker_step. cbn. case_decide; [destruct b|]; cbn; lia.
    + unfold worker_step. cbn. by case_decide; cbn.
  - split; [done|]. split; [cbn; lia|]. by cbn.
Qed.

Definition sample_cycle (n : nat) : nat * bool := (S n, true).
Lemma worker_stops_promptly_witness :
  let t := worker_step sample_cycle 120 50 (worker_step sample_cycle 120 50 (spawn 0%nat)) in
  slept t = 50 /\ cycles t = 1%nat /\
  (let t2 := worker_step sample_cycle 120 50 (worker_step sample_cycle 120 50 (signal_stop t)) in
   is_running t2 = false /\ world t2 = world t /\ cycles t2 = cycles t /\ slept t2 = slept t).
Proof.
  intros t. split; [reflexivity|]. split; [reflexivity|].
  apply (worker_stops_promptly sample_cycle 120 50 0%nat t); [lia|lia|].
  apply run_thread, run_thread, run_refl.
Defined.
