(* ===== verification/Lru.v ===== *)
(** * The LRU eviction worker ([lru.rs])

    Models [crates/wombatkv-node/src/lru.rs]: the configuration read from the
    environment, the trait [EvictionDeleter] and one eviction cycle
    ([run_cycle]) over the in-memory metadata index, the optional SlateDB index
    and the deleter.  The loop that repeats the cycle is in [Worker].  Other
    threads use the index while a cycle runs: the cycle takes what they did to
    it before each compare-and-delete as an argument.

    The theorems show that an undisturbed cycle evicts exactly the shortest
    run of least recently used blocks that brings the namespace below the
    target, how the target relates to the budget, and that with other threads
    running a block they touched is kept. *)

From S2P Require Import Prelude Order Text Hex BlockMeta F64 Worker.

Record LruConfig := mkLruConfig { namespace_max_bytes : Z; interval_secs : Z; lru_namespace : str }.
Definition default_lru_config : LruConfig := mkLruConfig 0 30 [].

(** [LruConfig::from_env], [env] being the process environment. *)
Definition lru_from_env (env : str -> option str) (namespace : str) : option LruConfig :=
  match env (lit "WMBT_KV_NAMESPACE_MAX_BYTES") with
  | None => None
  | Some v =>
      match parse_u64 v with
      | None => None
      | Some max_bytes =>
          if decide (max_bytes = 0) then None else
          let secs :=
            default 30 (match env (lit "WMBT_KV_DAEMON_EVICTION_INTERVAL_SECS") with
                        | Some s => parse_u64 s
                        | None => None
                        end) in
          Some (mkLruConfig max_bytes (Z.max secs 1) namespace)
      end
  end.

Record EvictionCycleOutcome := mkEvictionCycleOutcome {
  scanned : Z; total_bytes_before : Z; over_budget : bool; blocks_freed : Z; bytes_freed : Z;
  skipped_changed : Z; delete_failures : Z
}.

(** The trait; [block_key_for_hash] has its default. *)
Class EvictionDeleter (D : Type) := {
  delete_block (namespace key : str) : M D str bool
}.

(** [(budget as f64 * (1.0 - HEADROOM_FRAC)) as u64]; the constant
    [1.0 - 0.10] is the double [8106479329266893 * 2^-53]. *)
Definition ONE_MINUS_HEADROOM : f64 := mkF64 8106479329266893 (-53).
Definition evict_target (budget : Z) : Z := f64_to_u64 (f64_mul (f64_of_u64 budget) ONE_MINUS_HEADROOM).

(** [iter().map(|(_, m)| m.payload_bytes).sum()] on [u64]. *)
Definition sum_bytes (l : list (bytes * BlockMeta)) : Z :=
  foldl (fun acc hm => wrap64 (acc + payload_bytes (snd hm))) 0 l.

Definition by_last_access : bytes * BlockMeta -> bytes * BlockMeta -> comparison :=
  cmp_on (fun hm => last_access_ns (snd hm)) Z.compare.
#[global] Instance by_last_access_total : TotalCmp by_last_access := cmp_on_total _ Z.compare.

Section Cycle.
Context {I : Type} `{!MetadataIndex I} {D : Type} `{!EvictionDeleter D}.

(** What a cycle works on: the in-memory index, the optional SlateDB index and
    the deleter. *)
Record EvictWorld := mkEvictWorld { ew_index : InMemoryMetadataIndex; ew_slatedb : option I; ew_deleter : D }.

(** The counters of the loop. *)
Record EvictCounts := mkEvictCounts { c_bytes : Z; c_blocks : Z; c_skipped : Z; c_failures : Z }.

(** [if let Some(idx) = slatedb { let _ = MetadataIndex::remove(idx, &hash); }]
    A panic inside the index ends the cycle. *)
Definition slatedb_remove (hash : bytes) (s : option I) : option I * result unit str :=
  match s with
  | None => (None, Ok tt)
  | Some idx =>
      let (idx, r) := idx_remove hash idx in
      (Some idx, match r with Ok _ => Ok tt | Err e => Err e end)
  end.

(** The eviction loop over the sorted snapshot.  [others n] is what other threads
    did to the index before the loop's [n]-th compare-and-delete. *)
Fixpoint evict_loop (others : nat -> InMemoryMetadataIndex -> InMemoryMetadataIndex) (n : nat)
    (namespace : str) (need_to_free : Z) (sorted : list (bytes * BlockMeta)) (c : EvictCounts)
  : M EvictWorld str EvictCounts :=
  match sorted with
  | [] => st_ret c
  | (hash, meta) :: rest => fun w =>
      if decide (c_bytes c >= need_to_free) then (w, Ok c) else
      let (index, removed) := InMem.remove_if_unchanged hash (last_access_ns meta) (others n (ew_index w)) in
      if removed then
        let (slatedb, r) := slatedb_remove hash (ew_slatedb w) in
        match r with
        | Err e => (mkEvictWorld index slatedb (ew_deleter w), Err e)
        | Ok _ =>
            let (deleter, r) := delete_block namespace (block_key_for_hash hash) (ew_deleter w) in
            let w := mkEvictWorld index slatedb deleter in
            let bytes_freed := saturating_add (c_bytes c) (payload_bytes meta) in
            match r with
            | Ok _ =>
                evict_loop others (S n) namespace need_to_free rest
                  (mkEvictCounts bytes_freed (c_blocks c + 1) (c_skipped c) (c_failures c)) w
            | Err _ =>
                evict_loop others (S n) namespace need_to_free rest
                  (mkEvictCounts bytes_freed (c_blocks c + 1) (c_skipped c) (c_failures c + 1)) w
            end
        end
      else
        evict_loop others (S n) namespace need_to_free rest
          (mkEvictCounts (c_bytes c) (c_blocks c) (c_skipped c + 1) (c_failures c))
          (mkEvictWorld index (ew_slatedb w) (ew_deleter w))
  end.

(** [run_cycle]; the elapsed time of the outcome is left out. *)
Definition run_cycle (others : nat -> InMemoryMetadataIndex -> InMemoryMetadataIndex) (config : LruConfig)
  : M EvictWorld str EvictionCycleOutcome :=
  fun w =>
    let snapshot := InMem.snapshot (ew_index w) in
    let scanned := len snapshot in
    let total := sum_bytes snapshot in
    let budget := namespace_max_bytes config in
    if decide (budget = 0 \/ total <= budget) then
      (w, Ok (mkEvictionCycleOutcome scanned total false 0 0 0 0))
    else
      let sorted := sort_by by_last_access snapshot in
      let target := evict_target budget in
      let need_to_free := saturating_sub total target in
      let (w, r) := evict_loop others 0 (lru_namespace config) need_to_free sorted (mkEvictCounts 0 0 0 0) w in
      (w, match r with
          | Ok c => Ok (mkEvictionCycleOutcome scanned total true (c_blocks c) (c_bytes c) (c_skipped c) (c_failures c))
          | Err e => Err e
          end).

(** [spawn_worker]: the cycle in a loop that sleeps the interval in slices of
    50 ms. *)
Definition lru_worker_step (others : nat -> InMemoryMetadataIndex -> InMemoryMetadataIndex) (config : LruConfig)
  : WorkerThread EvictWorld -> WorkerThread EvictWorld :=
  worker_step (fun w => let (w, r) := run_cycle others config w in (w, is_ok r)) (1000 * interval_secs config) 50.
End Cycle.
Arguments EvictWorld : clear implicits.
Arguments mkEvictWorld {I D}. Arguments ew_index {I D}. Arguments ew_slatedb {I D}. Arguments ew_deleter {I D}.

(** ** The target *)

(** The target leaves between nine and eleven percent of the budget free. *)
Lemma evict_target_bounds budget :
  0 <= budget <= u64_max -> 89 * budget - 100 <= 100 * evict_target budget <= 91 * budget.
Proof.
  intros [Hb0 Hb1]. unfold evict_target, ONE_MINUS_HEADROOM.
  destruct (f64_scale_error budget 8106479329266893) as (a & b & Ha & Hb & ->); [lia..|].
  change (2 ^ 53) with 9007199254740992 in *.
  pose proof (Z.div_mod b 9007199254740992 ltac:(lia)).
  pose proof (Z.mod_pos_bound b 9007199254740992 ltac:(lia)).
  lia.
Qed.

Example evict_target_100 : evict_target 100 = 90 /\ evict_target (10 ^ 15 + 7) = 900000000000006.
Proof. split; reflexivity. Qed.

(** ** An undisturbed cycle *)

(** The payload bytes of some entries. *)
Fixpoint bytes_of (l : list (bytes * BlockMeta)) : Z :=
  match l with [] => 0 | (_, m) :: l' => payload_bytes m + bytes_of l' end.

Lemma bytes_of_app l k : bytes_of (l ++ k) = bytes_of l + bytes_of k.
Proof. induction l as [|[h m] l IH]; cbn [bytes_of app]; [done|]. rewrite IH. lia. Qed.

Lemma bytes_of_perm l k : l ≡ₚ k -> bytes_of l = bytes_of k.
Proof.
  induction 1 as [|[h m] l k _ IH|[h m] [h' m'] l|l k j _ IH1 _ IH2]; cbn [bytes_of]; lia.
Qed.

Lemma bytes_of_nonneg l : Forall (fun hm => 0 <= payload_bytes (snd hm)) l -> 0 <= bytes_of l.
Proof. induction 1 as [|[h m] l Hm _ IH]; cbn [bytes_of snd] in *; lia. Qed.

Lemma sum_bytes_exact l :
  Forall (fun hm => 0 <= payload_bytes (snd hm)) l -> bytes_of l <= u64_max -> sum_bytes l = bytes_of l.
Proof.
  intros Hl Hb. unfold sum_bytes.
  assert (forall a, 0 <= a -> a + bytes_of l <= u64_max ->
            foldl (fun acc hm => wrap64 (acc + payload_bytes (snd hm))) a l = a + bytes_of l) as H.
  { clear Hb. induction Hl as [|[h m] l Hm Hl IH]; intros a Ha Hs; cbn [foldl bytes_of snd] in *; [lia|].
    pose proof (bytes_of_nonneg l Hl). unfold wrap64 at 2. rewrite Z.mod_small by lia.
    rewrite IH; lia. }
  rewrite H by lia. lia.
Qed.

(** The index is what is left of the snapshot. *)
Definition index_is (i : InMemoryMetadataIndex) (l : list (bytes * BlockMeta)) : Prop :=
  NoDup (map fst l) /\ entries i = list_to_map l.

Lemma snapshot_index_is i l : l ≡ₚ InMem.snapshot i -> index_is i l.
Proof.
  intros Hp. assert (l ≡ₚ map_to_list (entries i)) as Hp'.
  { rewrite Hp. apply btree_entries_perm. }
  split.
  - rewrite Hp'. apply NoDup_fst_map_to_list.
  - rewrite <- (list_to_map_to_list (entries i)). symmetry. apply list_to_map_proper; [|done].
    rewrite Hp'. apply NoDup_fst_map_to_list.
Qed.

Lemma index_is_snapshot i l : index_is i l -> InMem.snapshot i ≡ₚ l.
Proof.
  intros [Hn He]. unfold InMem.snapshot. rewrite btree_entries_perm, He. by apply map_to_list_to_map.
Qed.

(** Removing the head of the snapshot finds it unchanged. *)
Lemma remove_head i h m l :
  index_is i ((h, m) :: l) ->
  exists i', InMem.remove_if_unchanged h (last_access_ns m) i = (i', true) /\ index_is i' l.
Proof.
  intros [Hn He]. cbn in Hn, He. apply NoDup_cons in Hn as [Hh Hn].
  unfold InMem.remove_if_unchanged. rewrite He, lookup_insert_eq. rewrite decide_True by done.
  eexists. split; [done|]. split; [done|]. cbn.
  apply delete_insert_id. by apply not_elem_of_list_to_map_1.
Qed.

Section Undisturbed.
Context {I : Type} `{!MetadataIndex I} `{!MetadataIndexLaws I} {D : Type} `{!EvictionDeleter D}.

(** The SlateDB index, when there is one, holds [m]. *)
Definition slate_repr (s : option I) (m : gmap bytes BlockMeta) : Prop :=
  match s with None => True | Some i => idx_repr i m end.
Definition delete_all (hs : list bytes) (m : gmap bytes BlockMeta) : gmap bytes BlockMeta :=
  foldl (fun m h => delete h m) m hs.

Lemma slatedb_remove_ok s m h :
  slate_repr s m -> is_hash h ->
  exists s', slatedb_remove h s = (s', Ok tt) /\ slate_repr s' (delete h m).
Proof.
  destruct s as [i|]; cbn [slate_repr slatedb_remove]; [|by eexists].
  intros Hr Hh. destruct (law_remove i m h Hr Hh) as (i' & -> & Hr'). by eexists.
Qed.

Abbreviation alone := (fun (_ : nat) (i : InMemoryMetadataIndex) => i).

Lemma evict_loop_alone sorted n ns need c (w : EvictWorld I D) m :
  index_is (ew_index w) sorted -> slate_repr (ew_slatedb w) m ->
  Forall (fun hm => is_hash (fst hm) /\ 0 <= payload_bytes (snd hm)) sorted ->
  0 <= c_bytes c -> c_bytes c + bytes_of sorted <= u64_max ->
  exists k w' fails,
    evict_loop alone n ns need sorted c w =
      (w', Ok (mkEvictCounts (c_bytes c + bytes_of (take k sorted)) (c_blocks c + Z.of_nat k) (c_skipped c) fails)) /\
    (k <= length sorted)%nat /\
    index_is (ew_index w') (drop k sorted) /\
    slate_repr (ew_slatedb w') (delete_all (map fst (take k sorted)) m) /\
    (k = length sorted \/ c_bytes c + bytes_of (take k sorted) >= need) /\
    (forall j, (j < k)%nat -> c_bytes c + bytes_of (take j sorted) < need).
Proof.
  revert n c w m. induction sorted as [|[h meta] rest IH]; intros n c w m Hi Hs Hwf Hc Hsum.
  { exists 0%nat, w, (c_failures c). cbn. destruct c; cbn. rewrite !Z.add_0_r. split; [done|].
    repeat (split; [done|]). split; [by left|lia]. }
  apply Forall_cons in Hwf as [[Hh Hp] Hwf]. cbn [fst snd bytes_of] in *.
  cbn [evict_loop]. case_decide as Hd.
  { exists 0%nat, w, (c_failures c). cbn. destruct c; cbn in *. rewrite !Z.add_0_r. split; [done|].
    split; [lia|]. repeat (split; [done|]). split; [by right|lia]. }
  destruct (remove_head _ _ _ _ Hi) as (i' & -> & Hi').
  destruct (slatedb_remove_ok _ _ _ Hs Hh) as (s' & -> & Hs'). cbv beta iota.
  assert (0 <= bytes_of rest) as Hrest.
  { apply bytes_of_nonneg. eapply Forall_impl; [exact Hwf|]. by intros ? [? ?]. }
  destruct (delete_block _ _ _) as [d' r].
  assert (forall f, exists k w' fails,
    evict_loop alone (S n) ns need rest
      (mkEvictCounts (saturating_add (c_bytes c) (payload_bytes meta)) (c_blocks c + 1) (c_skipped c) f)
      (mkEvictWorld i' s' d') =
      (w', Ok (mkEvictCounts (c_bytes c + bytes_of (take k ((h, meta) :: rest))) (c_blocks c + Z.of_nat k) (c_skipped c) fails)) /\
    (k <= S (length rest))%nat /\
    index_is (ew_index w') (drop k ((h, meta) :: rest)) /\
    slate_repr (ew_slatedb w') (delete_all (map fst (take k ((h, meta) :: rest))) m) /\
    (k = S (length rest) \/ c_bytes c + bytes_of (take k ((h, meta) :: rest)) >= need) /\
    (forall j, (j < k)%nat -> c_bytes c + bytes_of (take j ((h, meta) :: rest)) < need)) as Hnext.
  { intros f.
    destruct (IH (S n) (mkEvictCounts (saturating_add (c_bytes c) (payload_bytes meta)) (c_blocks c + 1) (c_skipped c) f)
                (mkEvictWorld i' s' d') (delete h m) Hi' Hs' Hwf) as (k & w' & fails & E & Hk & Hix & Hsl & Hend & Hmin);
      cbn [c_bytes c_blocks c_skipped] in *; unfold saturating_add in *; [lia..|].
    rewrite Z.min_l in * by lia.
    exists (S k), w', fails. cbn [take drop bytes_of map fst]. rewrite E.
    split; [do 3 f_equal; lia|]. split; [lia|]. split; [done|]. split; [done|]. split.
    - destruct Hend as [->|Hend]; [by left|right; lia].
    - intros [|j] Hj; cbn [take bytes_of]; [lia|]. specialize (Hmin j ltac:(lia)). lia. }
  destruct r as [b|e]; apply Hnext.
Qed.
End Undisturbed.

Section CycleSpec.
Context {I : Type} `{!MetadataIndex I} `{!MetadataIndexLaws I} {D : Type} `{!EvictionDeleter D}.

(** What an undisturbed cycle achieves, [total] being the payload bytes in the
    index before it. *)
Definition evicted_oldest (config : LruConfig) (w w' : EvictWorld I D) (m : gmap bytes BlockMeta)
    (out : EvictionCycleOutcome) (victims survivors : list (bytes * BlockMeta)) : Prop :=
  let target := evict_target (namespace_max_bytes config) in
  victims ++ survivors ≡ₚ InMem.snapshot (ew_index w) /\
  InMem.snapshot (ew_index w') ≡ₚ survivors /\
  slate_repr (ew_slatedb w') (delete_all (map fst victims) m) /\
  bytes_of survivors <= target /\
  (forall vs v, victims = vs ++ [v] -> bytes_of survivors + payload_bytes (snd v) > target) /\
  (forall v s, v ∈ victims -> s ∈ survivors -> last_access_ns (snd v) <= last_access_ns (snd s)) /\
  over_budget out = true /\ skipped_changed out = 0 /\
  blocks_freed out = len victims /\ bytes_freed out = bytes_of victims.

(** C4: a cycle that no other thread disturbs does nothing when the payload
    bytes in the index are within the budget (or the budget is zero); otherwise
    it evicts the least recently used blocks, as few as bring the rest to or
    below the target, which leaves between nine and eleven percent of the budget
    free, removes exactly them from the in-memory and the SlateDB index, and
    reports their number and bytes. *)
Theorem lru_cycle_evicts_oldest config (w : EvictWorld I D) m :
  0 <= namespace_max_bytes config <= u64_max ->
  (forall h meta, entries (ew_index w) !! h = Some meta -> is_hash h /\ meta_wf meta) ->
  bytes_of (InMem.snapshot (ew_index w)) <= u64_max ->
  slate_repr (ew_slatedb w) m ->
  exists w' out, run_cycle (fun _ i => i) config w = (w', Ok out) /\
    scanned out = len (InMem.snapshot (ew_index w)) /\
    total_bytes_before out = bytes_of (InMem.snapshot (ew_index w)) /\
    100 * evict_target (namespace_max_bytes config) <= 91 * namespace_max_bytes config /\
    if decide (namespace_max_bytes config = 0 \/
               bytes_of (InMem.snapshot (ew_index w)) <= namespace_max_bytes config)
    then w' = w /\ over_budget out = false /\ blocks_freed out = 0
    else exists victims survivors, evicted_oldest config w w' m out victims survivors.
Proof.
  intros Hb Hwf Hsum Hs. pose proof (evict_target_bounds _ Hb) as [_ Ht].
  assert (Forall (fun hm => is_hash (fst hm) /\ 0 <= payload_bytes (snd hm)) (InMem.snapshot (ew_index w))) as Hall.
  { apply Forall_forall. intros [h meta] Hin%elem_of_btree_entries. apply Hwf in Hin as [? Hm].
    unfold meta_wf, in_u64 in Hm. cbn. split; [done|lia]. }
  unfold run_cycle. rewrite sum_bytes_exact; [|eapply Forall_impl; [exact Hall|by intros ? [? ?]]|done].
  case_decide as Hd; [by eexists _, _|].
  set (sorted := sort_by by_last_access (InMem.snapshot (ew_index w))).
  assert (sorted ≡ₚ InMem.snapshot (ew_index w)) as Hp by apply sort_by_perm.
  rewrite <- (bytes_of_perm _ _ Hp) in *.
  destruct (evict_loop_alone sorted 0 (lru_namespace config)
    (saturating_sub (bytes_of sorted) (evict_target (namespace_max_bytes config)))
    (mkEvictCounts 0 0 0 0) w m) as (k & w' & fails & -> & Hk & Hi & Hsl & Hend & Hmin);
    cbn [c_bytes c_blocks c_skipped]; [by apply snapshot_index_is|done| |lia|lia|].
  { by rewrite Hp. }
  exists w'. eexists. split; [reflexivity|]. cbn [scanned total_bytes_before].
  repeat (split; [done|]). exists (take k sorted), (drop k sorted).
  pose proof (bytes_of_app (take k sorted) (drop k sorted)) as Hsplit. rewrite take_drop in Hsplit.
  unfold saturating_sub in *. cbn [c_bytes] in Hend, Hmin.
  split; [by rewrite take_drop|]. split; [by apply index_is_snapshot|]. split; [done|]. split; [|split; [|split]].
  - destruct Hend as [->|Hend]; [|lia].
    rewrite drop_all. cbn [bytes_of]. pose proof (evict_target_bounds _ Hb). lia.
  - intros vs [h v] E. assert (length (take k sorted) = k) as Hlen by (rewrite length_take; lia).
    rewrite E, length_app in Hlen. cbn in Hlen.
    specialize (Hmin (length vs) ltac:(lia)).
    assert (take (length vs) sorted = vs) as Hvs.
    { rewrite <- (take_drop k sorted), E, <- app_assoc. apply take_app_length. }
    rewrite Hvs in Hmin. rewrite E, bytes_of_app in Hsplit. cbn [bytes_of snd] in *. lia.
  - intros v s Hv Hs'.
    assert (cmp_le by_last_access v s) as Hle.
    { eapply (sorted_app_le by_last_access (take k sorted) (drop k sorted)); [|done..].
      rewrite take_drop. apply (sort_by_sorted by_last_access). }
    exact Hle.
  - cbn. repeat (split; [done|]). split; [|lia]. unfold len. rewrite length_take. lia.
Qed.
End CycleSpec.

(** A deleter that records the keys it is asked to delete. *)
Definition LogDeleter := list str.
#[global] Instance log_deleter : EvictionDeleter LogDeleter := {|
  delete_block _ key d := (d ++ [key], Ok true)
|}.
Definition lru_sample : list (bytes * BlockMeta) :=
  [(replicate 32 x01, new_root 30 40 (replicate 24 x02) (replicate 16 x03));
   (replicate 32 x02, new_root 10 50 (replicate 24 x02) (replicate 16 x03));
   (replicate 32 x03, new_root 20 30 (replicate 24 x02) (replicate 16 x03))].
Definition lru_sample_world : EvictWorld InMemoryMetadataIndex LogDeleter :=
  mkEvictWorld (mkInMemoryMetadataIndex (list_to_map lru_sample)) None [].

Lemma lru_cycle_evicts_oldest_witness :
  exists w' out, run_cycle (fun _ i => i) (mkLruConfig 100 30 (lit "ns")) lru_sample_world = (w', Ok out) /\
    exists victims survivors,
      evicted_oldest (mkLruConfig 100 30 (lit "ns")) lru_sample_world w' ∅ out victims survivors.
Proof.
  destruct (lru_cycle_evicts_oldest (mkLruConfig 100 30 (lit "ns")) lru_sample_world ∅)
    as (w' & out & E & _ & _ & _ & Hout).
  - cbn. lia.
  - intros h meta Hm. change (entries (ew_index lru_sample_world)) with (list_to_map lru_sample : gmap bytes BlockMeta) in Hm.
    apply elem_of_list_to_map_2 in Hm. repeat (apply elem_of_cons in Hm as [[= -> ->]|Hm]; [by_eval|]).
    by apply elem_of_nil in Hm.
  - vm_compute. discriminate.
  - exact I.
  - exists w', out. split; [exact E|]. rewrite decide_False in Hout; [exact Hout|].
    intros [H|H]; revert H; vm_compute; [discriminate|]. intros H. by apply H.
Defined.

Example lru_evicts_block_two :
  ew_deleter (fst (run_cycle (fun _ i => i) (mkLruConfig 100 30 (lit "ns")) lru_sample_world))
  = [block_key_for_hash (replicate 32 x02)].
Proof. vm_compute. reflexivity. Qed.

(** ** A cycle among other threads *)

(** The index has the block with a stamp later than [t0]. *)
Definition fresh (t0 : Z) (h : bytes) (i : InMemoryMetadataIndex) : Prop :=
  exists m, entries i !! h = Some m /\ t0 < last_access_ns m.

Lemma remove_if_unchanged_fresh t0 h h' stamp i i' b :
  stamp <= t0 -> fresh t0 h i -> InMem.remove_if_unchanged h' stamp i = (i', b) ->
  fresh t0 h i' /\ (b = true -> h' <> h).
Proof.
  intros Hst (m & Hm & Hlt). unfold InMem.remove_if_unchanged.
  destruct (decide (h' = h)) as [->|Hne].
  - rewrite Hm. rewrite decide_False by lia. intros [= <- <-]. split; [by exists m|done].
  - destruct (entries i !! h') as [m'|]; [case_decide|]; intros [= <- <-]; (split; [|done]);
      exists m; (split; [|done]); cbn; by rewrite ?lookup_delete_ne.
Qed.

Lemma block_key_inj h h' : block_key_for_hash h = block_key_for_hash h' -> h = h'.
Proof. unfold block_key_for_hash. intros E%app_inv_head. by apply hex_lower_inj. Qed.

Section Disturbed.
Context {I : Type} `{!MetadataIndex I} {D : Type} `{!EvictionDeleter D}.

(** Whatever other threads do to the index while the cycle runs, a block
    that was touched after the snapshot (its stamp is later than every stamp of
    the snapshot) and that the other threads keep stays in the index to the end
    of the cycle, even when the cycle dies of a panic, and the deleter is never
    asked to delete its object: any property of the deleter's state that deleting
    other keys preserves still holds.  [n] and [rest] may be any point of the
    loop, so the touch may come at any time before the block's turn. *)
Theorem touched_block_survives (others : nat -> InMemoryMetadataIndex -> InMemoryMetadataIndex)
    n ns need rest c (w : EvictWorld I D) h t0 (P : D -> Prop) :
  Forall (fun hm => last_access_ns (snd hm) <= t0) rest ->
  (forall k i, fresh t0 h i -> fresh t0 h (others k i)) ->
  (forall key d, key <> block_key_for_hash h -> P d -> P (fst (delete_block ns key d))) ->
  fresh t0 h (ew_index w) -> P (ew_deleter w) ->
  let w' := fst (evict_loop others n ns need rest c w) in
  fresh t0 h (ew_index w') /\ P (ew_deleter w').
Proof.
  intros Hrest Ho HP. revert n c w. induction Hrest as [|[h' meta] rest Hst _ IH]; intros n c w Hf Hd.
  { done. }
  cbn [evict_loop snd] in *. case_decide; [done|].
  destruct (InMem.remove_if_unchanged h' (last_access_ns meta) (others n (ew_index w))) as [i' b] eqn:E.
  destruct (remove_if_unchanged_fresh t0 h h' _ _ _ _ Hst (Ho n _ Hf) E) as [Hf' Hne].
  destruct b; [|by apply IH].
  destruct (slatedb_remove h' (ew_slatedb w)) as [s' [[]|e]]; [|by cbn].
  specialize (HP (block_key_for_hash h') (ew_deleter w)).
  destruct (delete_block ns (block_key_for_hash h') (ew_deleter w)) as [d' r] eqn:Ed.
  assert (P d') as Hd'.
  { apply HP; [|done]. intros Hk%block_key_inj. by apply Hne. }
  destruct r; by apply IH.
Qed.
End Disturbed.

(** The second sample block is touched before the cycle's first delete. *)
Lemma touched_block_survives_witness :
  let h := replicate 32 x02 in
  let w := mkEvictWorld (I := InMemoryMetadataIndex) (D := LogDeleter)
             (fst (InMem.get_and_touch 99 h (ew_index lru_sample_world))) None [] in
  let w' := fst (evict_loop (fun _ i => i) 0 (lit "ns") 30 (sort_by by_last_access lru_sample)
                   (mkEvictCounts 0 0 0 0) w) in
  fresh 50 h (ew_index w') /\ block_key_for_hash h ∉ ew_deleter w'.
Proof.
  intros h w.
  apply (touched_block_survives (fun _ i => i) 0 (lit "ns") 30 (sort_by by_last_access lru_sample)
           (mkEvictCounts 0 0 0 0) w h 50 (fun d => block_key_for_hash h ∉ d)).
  - repeat (constructor; [vm_compute; discriminate|]). constructor.
  - auto.
  - intros key d Hk Hd. cbn. set_solver.
  - exists (touch 99 (new_root 10 50 (replicate 24 x02) (replicate 16 x03))).
    split; [vm_compute; reflexivity|reflexivity].
  - set_solver.
Defined.
