(* ===== verification/BlobCache.v ===== *)
(** * The flat-file blob cache ([kv_blob_cache.rs])

    Models [crates/wombatkv-node/src/kv_blob_cache.rs]: [FlatFileKvBlobCache]
    over its directory.  The file system may fail any call: the state carries a
    script of faults, one per call, and a failing write leaves a part of its
    data in the temporary file, a failing recursive removal some of the files.
    When the script is used up every call succeeds.

    The theorems show what a reader can see after a write, whatever fails, and
    which keys share a file. *)

From S2P Require Import Prelude Order Text.

(** The outcome of one file-system call: success, or failure after [n] units of
    work. *)
Abbreviation fault := (option nat).

(** [struct FlatFileKvBlobCache]: the files of [root] by name, whether the
    directory exists, and the faults to come.  A directory that does not exist has no files. *)
Record FlatFileKvBlobCache := mkFlat { files : gmap str bytes; root_present : bool; faults : list fault }.

Inductive KvBlobCacheError := CacheIo (msg : str) | CacheInvalidConfig (msg : str).
(** [impl Display for KvBlobCacheError] *)
Definition cache_error_display (e : KvBlobCacheError) : str :=
  match e with
  | CacheIo m => lit "WombatKV cache io error: " ++ m
  | CacheInvalidConfig m => lit "WombatKV cache invalid config: " ++ m
  end.

(** *** The calls of [std::fs] it uses *)
Definition next_fault (c : FlatFileKvBlobCache) : fault * FlatFileKvBlobCache :=
  match faults c with
  | [] => (None, c)
  | f :: rest => (f, mkFlat (files c) (root_present c) rest)
  end.
Definition fs_read (name : str) (c : FlatFileKvBlobCache) : FlatFileKvBlobCache * option bytes :=
  let (f, c) := next_fault c in
  (c, match f with None => files c !! name | Some _ => None end).
Definition fs_write (name : str) (data : bytes) (c : FlatFileKvBlobCache) : FlatFileKvBlobCache * bool :=
  let (f, c) := next_fault c in
  if root_present c then
    match f with
    | None => (mkFlat (<[name := data]> (files c)) true (faults c), true)
    | Some n => (mkFlat (<[name := take n data]> (files c)) true (faults c), false)
    end
  else (c, false).
Definition fs_rename (src dst : str) (c : FlatFileKvBlobCache) : FlatFileKvBlobCache * bool :=
  let (f, c) := next_fault c in
  match f, files c !! src with
  | None, Some data => (mkFlat (<[dst := data]> (delete src (files c))) (root_present c) (faults c), true)
  | _, _ => (c, false)
  end.
Definition fs_remove_file (name : str) (c : FlatFileKvBlobCache) : FlatFileKvBlobCache * bool :=
  let (f, c) := next_fault c in
  match f, files c !! name with
  | None, Some _ => (mkFlat (delete name (files c)) (root_present c) (faults c), true)
  | _, _ => (c, false)
  end.
Definition fs_exists (name : str) (c : FlatFileKvBlobCache) : FlatFileKvBlobCache * bool :=
  let (f, c) := next_fault c in
  (c, match f with None => bool_decide (is_Some (files c !! name)) | Some _ => false end).
Definition fs_remove_dir_all (c : FlatFileKvBlobCache) : FlatFileKvBlobCache :=
  let (f, c) := next_fault c in
  match f with
  | None => mkFlat ∅ false (faults c)
  | Some n => mkFlat (list_to_map (drop n (btree_entries bytes_cmp (files c)))) (root_present c) (faults c)
  end.
Definition fs_create_dir_all (c : FlatFileKvBlobCache) : FlatFileKvBlobCache :=
  let (f, c) := next_fault c in
  match f with
  | None => mkFlat (files c) true (faults c)
  | Some _ => c
  end.

(** *** The cache *)

(** One character of [path_for_key].  A character outside ASCII is one
    underscore, pushed for its leading byte. *)
Definition safe_char (ch : byte) : str :=
  if is_ascii_alphanumeric ch then [ch]
  else if decide (ch = "-"%byte \/ ch = "_"%byte \/ ch = "."%byte \/ ch = "="%byte) then [ch]
  else if decide (128 <= byte_to_Z ch < 192) then []
  else ["_"%byte].
Definition path_for_key (key : str) : str := (key ≫= safe_char) ++ lit ".kv".
(** [path.with_extension("kv.tmp")]; a name that is only [.kv] has no extension. *)
Definition tmp_path (path : str) : str :=
  if decide (path = lit ".kv") then lit ".kv.kv.tmp" else path ++ lit ".tmp".

Definition flat_get (key : str) (c : FlatFileKvBlobCache) : FlatFileKvBlobCache * option (bytes * str) :=
  let (c, r) := fs_read (path_for_key key) c in
  (c, (fun v => (v, lit "load_flat")) <$> r).
Definition flat_put (key : str) (payload : bytes) (c : FlatFileKvBlobCache) : FlatFileKvBlobCache :=
  let path := path_for_key key in
  let tmp := tmp_path path in
  let (c, ok) := fs_write tmp payload c in
  if negb ok then c else
  let (c, ok) := fs_rename tmp path c in
  if negb ok then fst (fs_remove_file tmp c) else c.
Definition flat_contains (key : str) (c : FlatFileKvBlobCache) : FlatFileKvBlobCache * bool :=
  fs_exists (path_for_key key) c.
Definition flat_clear (c : FlatFileKvBlobCache) : FlatFileKvBlobCache :=
  fs_create_dir_all (fs_remove_dir_all c).
Definition flat_remove (key : str) (c : FlatFileKvBlobCache) : FlatFileKvBlobCache * bool :=
  fs_remove_file (path_for_key key) c.
(** [open]: the parent directory, then the directory; the operating system's text
    is not part of the messages here. *)
Definition flat_open (c : FlatFileKvBlobCache) : result FlatFileKvBlobCache KvBlobCacheError :=
  let (f, c) := next_fault c in
  match f with
  | Some _ => Err (CacheIo (lit "create parent"))
  | None =>
      let (f, c) := next_fault c in
      match f with
      | Some _ => Err (CacheIo (lit "create root"))
      | None => Ok (mkFlat (files c) true (faults c))
      end
  end.

Arguments path_for_key : simpl never.

(** ** What readers see *)

(** The content of a key's file. *)
Definition visible (c : FlatFileKvBlobCache) (key : str) : option bytes :=
  files c !! path_for_key key.

Lemma ends_with_ne (p q : str) : p ++ lit ".kv" <> q ++ lit ".tmp".
Proof.
  intros E. apply (f_equal reverse) in E. rewrite !reverse_app in E. discriminate.
Qed.

(** No key's file is a temporary file. *)
Lemma path_not_tmp k k' : path_for_key k' <> tmp_path (path_for_key k).
Proof.
  unfold tmp_path. case_decide.
  - unfold path_for_key. change (lit ".kv.kv.tmp") with (lit ".kv.kv" ++ lit ".tmp"). apply ends_with_ne.
  - unfold path_for_key at 1. apply ends_with_ne.
Qed.

Lemma next_fault_visible c f c' k : next_fault c = (f, c') -> visible c' k = visible c k.
Proof. unfold next_fault. destruct (faults c); by intros [= <- <-]. Qed.

Lemma fs_write_tmp_visible k k' v c c' ok :
  fs_write (tmp_path (path_for_key k)) v c = (c', ok) ->
  visible c' k' = visible c k' /\
  (ok = true -> root_present c' = true /\ files c' !! tmp_path (path_for_key k) = Some v).
Proof.
  unfold fs_write. destruct (next_fault c) as [f c1] eqn:E.
  rewrite <- (next_fault_visible _ _ _ k' E). unfold visible.
  destruct (root_present c1) eqn:R; [destruct f|]; intros [= <- <-]; cbn; (split; [|try done]).
  - rewrite lookup_insert_ne; [done|apply not_eq_sym, path_not_tmp].
  - rewrite lookup_insert_ne; [done|apply not_eq_sym, path_not_tmp].
  - by rewrite lookup_insert_eq.
  - done.
Qed.

Lemma fs_rename_visible k k' v c c' ok :
  root_present c = true -> files c !! tmp_path (path_for_key k) = Some v ->
  fs_rename (tmp_path (path_for_key k)) (path_for_key k) c = (c', ok) ->
  if ok then visible c' k' = (if decide (path_for_key k' = path_for_key k) then Some v else visible c k')
  else visible c' k' = visible c k'.
Proof.
  unfold fs_rename, next_fault, visible. intros R Hv.
  destruct (faults c) as [|[n|] fs]; cbn [files root_present faults]; rewrite ?Hv; intros [= <- <-];
    cbn [files root_present faults]; try done;
  (case_decide as Hp; [rewrite Hp; by rewrite lookup_insert_eq|]);
  (rewrite lookup_insert_ne by done; rewrite lookup_delete_ne; [done|apply not_eq_sym, path_not_tmp]).
Qed.

Lemma fs_remove_visible name k' c :
  visible (fst (fs_remove_file name c)) k' =
  if decide (name = path_for_key k') then visible (fst (fs_remove_file name c)) k' else visible c k'.
Proof.
  case_decide as Hn; [done|]. unfold fs_remove_file. destruct (next_fault c) as [f c1] eqn:E.
  rewrite <- (next_fault_visible _ _ _ k' E).
  destruct f, (files c1 !! name); cbn; try done.
  unfold visible. cbn. by rewrite lookup_delete_ne.
Qed.

(** A put changes the file of its key to the whole payload, or nothing at all. *)
Lemma flat_put_visible k v c k' :
  visible (flat_put k v c) k' = visible c k' \/
  path_for_key k' = path_for_key k /\ visible (flat_put k v c) k' = Some v.
Proof.
  unfold flat_put. destruct (fs_write _ _ _) as [c1 ok1] eqn:E1.
  destruct (fs_write_tmp_visible k k' v c c1 ok1 E1) as [H1 H1'].
  destruct ok1; cbn [negb]; [|by left]. destruct (H1' eq_refl) as [R Hv].
  destruct (fs_rename _ _ _) as [c2 ok2] eqn:E2.
  pose proof (fs_rename_visible k k' v c1 c2 ok2 R Hv E2) as H2. destruct ok2; cbn [negb].
  - rewrite H2. case_decide; [by right|by left].
  - left. rewrite fs_remove_visible. rewrite decide_False; [congruence|].
    apply not_eq_sym, path_not_tmp.
Qed.

(** With no fault to come it does happen. *)
Lemma flat_put_no_fault k v c :
  faults c = [] -> root_present c = true ->
  faults (flat_put k v c) = [] /\ root_present (flat_put k v c) = true /\
  forall k', visible (flat_put k v c) k' = if decide (path_for_key k' = path_for_key k) then Some v else visible c k'.
Proof.
  intros Hf R. destruct c as [fs r f]. cbn in Hf, R. subst.
  unfold flat_put, fs_write, next_fault. cbn [faults root_present files negb].
  unfold fs_rename, next_fault. cbn [faults root_present files]. rewrite lookup_insert_eq.
  cbn [faults root_present files negb]. split; [done|]. split; [done|].
  intros k'. unfold visible. cbn [root_present files]. case_decide as Hp.
  - rewrite Hp. apply lookup_insert_eq.
  - rewrite lookup_insert_ne by done. rewrite lookup_delete_ne by (apply not_eq_sym, path_not_tmp).
    rewrite lookup_insert_ne by (apply not_eq_sym, path_not_tmp). done.
Qed.

Lemma flat_get_visible k c c' r :
  flat_get k c = (c', r) ->
  (forall k', visible c' k' = visible c k') /\ (forall v l, r = Some (v, l) -> visible c k = Some v) /\
  (faults c = [] -> faults c' = [] /\ root_present c' = root_present c /\
                    r = (fun v => (v, lit "load_flat")) <$> visible c k).
Proof.
  unfold flat_get, fs_read. destruct (next_fault c) as [f c1] eqn:E. intros [= <- <-].
  split; [intros k'; by apply (next_fault_visible _ _ _ _ E)|].
  rewrite <- (next_fault_visible _ _ _ k E). unfold visible. split.
  - destruct f; [done|]. intros v l. by destruct (files c1 !! _) as [w|]; intros [= <- <-].
  - intros Hf. unfold next_fault in E. rewrite Hf in E. injection E as <- <-. done.
Qed.

Lemma flat_remove_visible k c k' :
  visible (fst (flat_remove k c)) k' = visible c k' \/
  path_for_key k' = path_for_key k /\ visible (fst (flat_remove k c)) k' = None.
Proof.
  unfold flat_remove. rewrite fs_remove_visible. case_decide as Hp; [|by left].
  unfold fs_remove_file. destruct (next_fault c) as [f c1] eqn:E.
  pose proof (next_fault_visible _ _ _ k' E) as Hv.
  destruct f, (files c1 !! path_for_key k) as [w|]; cbn; try (by left).
  right. split; [done|]. unfold visible. cbn. by rewrite Hp, lookup_delete_eq.
Qed.


Lemma flat_contains_visible k c c' b :
  flat_contains k c = (c', b) ->
  (forall k', visible c' k' = visible c k') /\ (b = true -> is_Some (visible c k)) /\
  (faults c = [] -> c' = c /\ b = bool_decide (is_Some (visible c k))).
Proof.
  unfold flat_contains, fs_exists. destruct (next_fault c) as [f c1] eqn:E. intros [= <- <-].
  split; [intros k'; by apply (next_fault_visible _ _ _ _ E)|].
  rewrite <- (next_fault_visible _ _ _ k E). unfold visible. split.
  - destruct f; [done|]. by intros ?%bool_decide_eq_true.
  - intros Hf. unfold next_fault in E. rewrite Hf in E. by injection E as <- <-.
Qed.

Lemma drop_entries_lookup (m : gmap str bytes) n p :
  (list_to_map (drop n (btree_entries bytes_cmp m)) : gmap str bytes) !! p = None \/
  (list_to_map (drop n (btree_entries bytes_cmp m)) : gmap str bytes) !! p = m !! p.
Proof.
  destruct (list_to_map _ !! p) as [v|] eqn:Ep; [right|by left].
  apply elem_of_list_to_map_2 in Ep. symmetry. apply (elem_of_btree_entries bytes_cmp).
  rewrite <- (take_drop n (btree_entries bytes_cmp m)). set_solver.
Qed.

Lemma flat_clear_visible c k' :
  (visible (flat_clear c) k' = None \/ visible (flat_clear c) k' = visible c k') /\
  (faults c = [] -> visible (flat_clear c) k' = None /\ faults (flat_clear c) = [] /\
                    root_present (flat_clear c) = true).
Proof.
  unfold flat_clear, fs_remove_dir_all, fs_create_dir_all. split.
  - destruct (next_fault c) as [f c1] eqn:E.
    rewrite <- (next_fault_visible _ _ _ k' E). clear E. unfold visible.
    destruct f as [n|]; destruct (next_fault _) as [[m|] c2] eqn:E2; cbn [files];
      apply (next_fault_visible _ _ _ k') in E2; unfold visible in E2; rewrite E2; cbn [files];
      try apply drop_entries_lookup; left; apply lookup_empty.
  - intros Hf. unfold next_fault. rewrite Hf. cbn. by rewrite Hf.
Qed.

(** ** Which keys share a file *)

(** Characters kept as they are, underscore apart, and the separator. *)
Definition plain_char (c : byte) : bool :=
  (bool_decide (c <> "_"%byte) && bool_decide (safe_char c = [c])) || bool_decide (c = "/"%byte).

Lemma safe_char_slash : safe_char "/"%byte = ["_"%byte].
Proof. reflexivity. Qed.

Lemma plain_char_path c d :
  plain_char c = true -> plain_char d = true -> safe_char c = safe_char d -> c = d.
Proof.
  unfold plain_char. intros Hc Hd. repeat rewrite orb_true_iff, andb_true_iff, !bool_decide_eq_true in *.
  intros E. destruct Hc as [[Hc1 Hc2]| ->], Hd as [[Hd1 Hd2]| ->]; rewrite ?safe_char_slash in *; congruence.
Qed.

Lemma plain_char_singleton c : plain_char c = true -> exists d, safe_char c = [d].
Proof.
  unfold plain_char. rewrite orb_true_iff, andb_true_iff, !bool_decide_eq_true.
  intros [[_ ?]| ->]; by eexists.
Qed.

Lemma path_for_key_plain_inj k k' :
  Forall (fun c => plain_char c = true) k -> Forall (fun c => plain_char c = true) k' ->
  path_for_key k = path_for_key k' -> k = k'.
Proof.
  intros Hk Hk' E. unfold path_for_key in E. apply app_inv_tail in E. revert k' Hk' E.
  induction Hk as [|c k Hc _ IH]; intros k' Hk' E; destruct Hk' as [|d k' Hd Hk']; [done| | |].
  - destruct (plain_char_singleton d Hd) as [x Hx]. cbn in E. rewrite Hx in E. discriminate.
  - destruct (plain_char_singleton c Hc) as [x Hx]. cbn in E. rewrite Hx in E. discriminate.
  - cbn in E. destruct (plain_char_singleton c Hc) as [x Hx], (plain_char_singleton d Hd) as [y Hy].
    rewrite Hx, Hy in E. injection E as -> E. f_equal; [|by apply IH].
    apply plain_char_path; [done|done|congruence].
Qed.

(** Whatever file-system calls fail, a put is atomic for readers: afterwards
    each key reads as before or, if it shares the file of the key put, as the
    whole payload, never a part of it; when no call fails it reads as the payload.
    Keys of letters, digits, [-], [.], [=] and [/] share no file, but a key with a
    [/] shares the file of the key with an underscore in its place. *)
Theorem flat_put_is_atomic k v c :
  (forall k', snd (flat_get k' (flat_put k v c)) = None \/
              (fun w => (w, lit "load_flat")) <$> visible c k' = snd (flat_get k' (flat_put k v c)) \/
              path_for_key k' = path_for_key k /\
              snd (flat_get k' (flat_put k v c)) = Some (v, lit "load_flat")) /\
  (faults c = [] -> root_present c = true ->
   snd (flat_get k (flat_put k v c)) = Some (v, lit "load_flat")) /\
  (forall k1 k2, Forall (fun c => plain_char c = true) k1 -> Forall (fun c => plain_char c = true) k2 ->
                 path_for_key k1 = path_for_key k2 -> k1 = k2) /\
  (forall p q, path_for_key (p ++ lit "/" ++ q) = path_for_key (p ++ lit "_" ++ q)).
Proof.
  split; [|split; [|split]].
  - intros k'. destruct (flat_get k' (flat_put k v c)) as [c' r] eqn:E. cbn [snd].
    destruct r as [[w l]|]; [|by left]. right.
    assert (l = lit "load_flat") as ->.
    { revert E. unfold flat_get. destruct (fs_read _ _) as [? [?|]]; by intros [= _ _ <-]. }
    apply flat_get_visible in E as (_ & Hv & _). specialize (Hv w _ eq_refl).
    destruct (flat_put_visible k v c k') as [Hp|[Hp Hv']]; [left; by rewrite <- Hp, Hv|].
    right. split; [done|congruence].
  - intros Hf R. destruct (flat_put_no_fault k v c Hf R) as (Hf' & _ & Hv).
    destruct (flat_get k (flat_put k v c)) as [c' r] eqn:E. cbn [snd].
    apply flat_get_visible in E as (_ & _ & Hr). destruct (Hr Hf') as (_ & _ & ->).
    rewrite Hv. by rewrite decide_True.
  - apply path_for_key_plain_inj.
  - intros p q. unfold path_for_key. by rewrite !bind_app.
Qed.

Lemma flat_put_is_atomic_witness :
  let c := mkFlat ∅ true [] in
  snd (flat_get (lit "kv/ns/k") (flat_put (lit "kv/ns/k") (lit "payload") c))
  = Some (lit "payload", lit "load_flat").
Proof.
  intros c. apply (flat_put_is_atomic (lit "kv/ns/k") (lit "payload") c); reflexivity.
Defined.
