(* ===== verification/Foyer.v ===== *)
(** * The hybrid memory and disk cache ([foyer_cache.rs])

    Models [crates/wombatkv-node/src/foyer_cache.rs]: the wrapper
    [FoyerHybridCache] with its counters, the validation of its configuration
    and the configuration read from a lookup.  The foyer library itself is the
    parameter [HybridCache]; [HybridCacheLaws] says what a cache is: it may
    forget, but what it serves for a key is the last value inserted for it.

    The lemmas transfer that contract to the wrapper, the form [Embed] uses. *)

From S2P Require Import Prelude Text.

Inductive FoyerHitTier := Ram | Ssd.

Record FoyerCacheConfig := mkFoyerCacheConfig {
  ram_bytes : Z; ssd_dir : str; ssd_bytes : Z; block_size : Z; buffer_pool_size : Z; iouring : bool
}.
(** The default on Linux. *)
Definition default_foyer_config : FoyerCacheConfig :=
  mkFoyerCacheConfig (1024 * 1024 * 1024) (lit "/tmp/wombatkv-puffer") (8 * 1024 * 1024 * 1024)
    (64 * 1024 * 1024) (256 * 1024 * 1024) true.

Inductive FoyerCacheError :=
| FoyerIo (msg : str) | FoyerInvalidConfig (msg : str) | FoyerBuild (msg : str) | FoyerRuntimeInit (msg : str).

(** [impl Display for FoyerCacheError] *)
Definition foyer_error_display (e : FoyerCacheError) : str :=
  match e with
  | FoyerIo m => lit "WombatKV puffer io error: " ++ m
  | FoyerInvalidConfig m => lit "WombatKV puffer invalid config: " ++ m
  | FoyerBuild m => lit "WombatKV puffer build failed: " ++ m
  | FoyerRuntimeInit m => lit "WombatKV puffer runtime init failed: " ++ m
  end.

(** The library: [memory().get], the asynchronous [get], [contains], [insert],
    [clear], [close], and the builder run by [build_cache]. *)
Class HybridCache (H : Type) := {
  hc_build (config : FoyerCacheConfig) : result H str;
  hc_memory_get (key : str) : H -> H * option bytes;
  hc_get (key : str) : H -> H * result (option bytes) str;
  hc_contains (key : str) : H -> bool;
  hc_insert (key : str) (value : bytes) : H -> H;
  hc_clear : H -> H;
  hc_close : H -> H
}.
(** [hc_holds h m]: everything [h] can serve is in [m]. *)
Class HybridCacheLaws (H : Type) `{!HybridCache H} := {
  hc_holds : H -> gmap str bytes -> Prop;
  hc_memory_get_law k h m :
    hc_holds h m -> hc_holds (fst (hc_memory_get k h)) m /\
                    forall v, snd (hc_memory_get k h) = Some v -> m !! k = Some v;
  hc_get_law k h m :
    hc_holds h m -> hc_holds (fst (hc_get k h)) m /\ forall v, snd (hc_get k h) = Ok (Some v) -> m !! k = Some v;
  hc_contains_law k h m : hc_holds h m -> hc_contains k h = true -> is_Some (m !! k);
  hc_insert_law k v h m : hc_holds h m -> hc_holds (hc_insert k v h) (<[k := v]> m);
  hc_clear_law h m : hc_holds h m -> hc_holds (hc_clear h) m;
  hc_close_law h m : hc_holds h m -> hc_holds (hc_close h) m
}.

Section Wrapper.
Context {H : Type} `{!HybridCache H}.

(** [struct FoyerHybridCache] with its counters. *)
Record FoyerHybridCache := mkFoyer { hybrid : H; fh_ssd_dir : str; hits : Z; misses : Z; inserts : Z }.

(** [open_with_runtime] *)
Definition foyer_open_with_runtime (config : FoyerCacheConfig) : result FoyerHybridCache FoyerCacheError :=
  let? inner := map_err FoyerBuild (hc_build config) in
  Ok (mkFoyer inner (ssd_dir config) 0 0 0).

(** [open]; [parent], [dir] and [runtime] are the outcomes of creating the two
    directories and the runtime. *)
Definition foyer_open (config : FoyerCacheConfig) (parent dir runtime : result unit str)
  : result FoyerHybridCache FoyerCacheError :=
  if decide (ram_bytes config = 0) then Err (FoyerInvalidConfig (lit "ram_bytes must be > 0")) else
  if decide (ssd_bytes config = 0) then Err (FoyerInvalidConfig (lit "ssd_bytes must be > 0")) else
  if decide (block_size config = 0) then Err (FoyerInvalidConfig (lit "block_size must be > 0")) else
  if decide (buffer_pool_size config = 0) then Err (FoyerInvalidConfig (lit "buffer_pool_size must be > 0")) else
  let? _ := map_err FoyerIo parent in
  let? _ := map_err FoyerIo dir in
  let? _ := map_err FoyerRuntimeInit runtime in
  foyer_open_with_runtime config.

(** [fetch_add(1, Relaxed)] wraps. *)
Definition foyer_get_with_tier (key : str) (f : FoyerHybridCache)
  : FoyerHybridCache * option (bytes * FoyerHitTier) :=
  let (h, r) := hc_memory_get key (hybrid f) in
  match r with
  | Some v => (mkFoyer h (fh_ssd_dir f) (wrap64 (hits f + 1)) (misses f) (inserts f), Some (v, Ram))
  | None =>
      let (h, r) := hc_get key h in
      match r with
      | Ok (Some v) => (mkFoyer h (fh_ssd_dir f) (wrap64 (hits f + 1)) (misses f) (inserts f), Some (v, Ssd))
      | _ => (mkFoyer h (fh_ssd_dir f) (hits f) (wrap64 (misses f + 1)) (inserts f), None)
      end
  end.
Definition foyer_get (key : str) (f : FoyerHybridCache) : FoyerHybridCache * option bytes :=
  let (f, r) := foyer_get_with_tier key f in (f, fst <$> r).
Definition foyer_contains (key : str) (f : FoyerHybridCache) : bool := hc_contains key (hybrid f).
Definition foyer_put (key : str) (payload : bytes) (f : FoyerHybridCache) : FoyerHybridCache :=
  mkFoyer (hc_insert key payload (hybrid f)) (fh_ssd_dir f) (hits f) (misses f) (wrap64 (inserts f + 1)).
Definition foyer_clear (f : FoyerHybridCache) : FoyerHybridCache :=
  mkFoyer (hc_clear (hybrid f)) (fh_ssd_dir f) (hits f) (misses f) (inserts f).
Definition foyer_close (f : FoyerHybridCache) : FoyerHybridCache :=
  mkFoyer (hc_close (hybrid f)) (fh_ssd_dir f) (hits f) (misses f) (inserts f).
End Wrapper.
Arguments FoyerHybridCache : clear implicits.
Arguments mkFoyer {H}.

(** *** Configuration *)
Definition ascii_lower (c : byte) : byte :=
  if decide (65 <= byte_to_Z c <= 90) then byte_of_Z (byte_to_Z c + 32) else c.
Definition eq_ignore_ascii_case (a b : str) : bool := bool_decide (map ascii_lower a = map ascii_lower b).

(** [if let Some(value) = lookup(k) { if let Ok(parsed) = value.parse() { .. } }] *)
Definition parsed_or (lookup : str -> option str) (key : str) (old : Z) : Z :=
  match lookup key with Some value => default old (parse_u64 value) | None => old end.
Definition config_from_lookup (lookup : str -> option str) : FoyerCacheConfig :=
  let cfg := default_foyer_config in
  mkFoyerCacheConfig
    (parsed_or lookup (lit "WMBT_KV_PUFFER_RAM_BYTES") (ram_bytes cfg))
    (default (ssd_dir cfg) (lookup (lit "WMBT_KV_PUFFER_DIR")))
    (parsed_or lookup (lit "WMBT_KV_PUFFER_DISK_BYTES") (ssd_bytes cfg))
    (parsed_or lookup (lit "WMBT_KV_PUFFER_BLOCK_SIZE_BYTES") (block_size cfg))
    (parsed_or lookup (lit "WMBT_KV_PUFFER_BUFFER_POOL_BYTES") (buffer_pool_size cfg))
    match lookup (lit "WMBT_KV_PUFFER_IOURING") with
    | Some value => negb (bool_decide (value = lit "0") || eq_ignore_ascii_case value (lit "false"))
    | None => iouring cfg
    end.
Definition backend_selected_with (lookup : str -> option str) : bool :=
  match lookup (lit "WMBT_KV_PUFFER_BACKEND") with
  | Some value => eq_ignore_ascii_case value (lit "hybrid")
  | None => false
  end.

(** ** The wrapper meets the contract *)
Section WrapperLaws.
Context {H : Type} `{!HybridCache H} `{!HybridCacheLaws H}.

Definition foyer_holds (f : FoyerHybridCache H) (m : gmap str bytes) : Prop := hc_holds (hybrid f) m.

Lemma foyer_get_holds k f f' r m :
  foyer_holds f m -> foyer_get_with_tier k f = (f', r) ->
  foyer_holds f' m /\ (forall v t, r = Some (v, t) -> m !! k = Some v).
Proof.
  unfold foyer_holds, foyer_get_with_tier. intros Hm.
  destruct (hc_memory_get_law k _ _ Hm) as [Hm1 Hv1]. destruct (hc_memory_get k (hybrid f)) as [h1 r1]. cbn in *.
  destruct r1 as [v1|].
  { intros [= <- <-]. split; [done|]. intros v t [= <- <-]. by apply Hv1. }
  destruct (hc_get_law k _ _ Hm1) as [Hm2 Hv2]. destruct (hc_get k h1) as [h2 r2]. cbn in *.
  destruct r2 as [[v2|]|e]; intros [= <- <-]; (split; [done|]); try done.
  intros v t [= <- <-]. by apply Hv2.
Qed.

Lemma foyer_put_holds k v f m : foyer_holds f m -> foyer_holds (foyer_put k v f) (<[k := v]> m).
Proof. apply hc_insert_law. Qed.

(** A successful [open] has a valid configuration. *)
Lemma foyer_open_valid config parent dir runtime f :
  foyer_open config parent dir runtime = Ok f ->
  ram_bytes config <> 0 /\ ssd_bytes config <> 0 /\ block_size config <> 0 /\ buffer_pool_size config <> 0 /\
  fh_ssd_dir f = ssd_dir config /\ hc_build config = Ok (hybrid f).
Proof.
  unfold foyer_open, foyer_open_with_runtime. repeat case_decide; try done.
  destruct parent, dir, runtime, (hc_build config); run_res; try done. intros [= <-]. done.
Qed.
End WrapperLaws.

(** A cache that keeps everything in memory: it meets the laws. *)
Definition MapCache := gmap str bytes.
#[global] Instance map_cache : HybridCache MapCache := {|
  hc_build _ := Ok ∅;
  hc_memory_get k h := (h, h !! k);
  hc_get k h := (h, Ok (h !! k));
  hc_contains k h := bool_decide (is_Some (h !! k));
  hc_insert k v h := <[k := v]> h;
  hc_clear _ := ∅;
  hc_close h := h
|}.
#[global] Program Instance map_cache_laws : HybridCacheLaws MapCache := {| hc_holds h m := h ⊆ m |}.
Next Obligation. intros k h m Hm. split; [done|]. cbn. intros v Hv. by eapply lookup_weaken. Qed.
Next Obligation. intros k h m Hm. split; [done|]. cbn. intros v [= Hv]. by eapply lookup_weaken. Qed.
Next Obligation. intros k h m Hm Hc%bool_decide_eq_true. destruct Hc as [v Hv]. exists v. by eapply lookup_weaken. Qed.
Next Obligation. intros k v h m Hm. by apply insert_mono. Qed.
Next Obligation. intros h m _. apply map_empty_subseteq. Qed.
Next Obligation. done. Qed.
