(* ===== verification/Embed.v ===== *)
(** * The embeddable KV store ([embed.rs])

    Models [crates/wombatkv-node/src/embed.rs]: [WombatKVKvStore] over an object
    store, the flat-file cache, the foyer cache and the in-memory metadata index,
    with every operation: construction, synchronous and asynchronous puts, the
    tiered get, existence, listings, restore, deletion, clearing, the two
    bootstraps, and the adapters that bind the eviction and the prefetch worker
    to it.  Metrics and log lines are left out; the fault-injection sites of the
    [dst] feature are compiled out of a normal build.

    The theorems show that under content addressing every hit, from whichever
    tier and after whatever sequence of operations and failures, is the payload
    that was put; that a put written through survives the loss of both caches;
    what bootstrap puts in the index; and that a deleted blob may come back. *)

From S2P Require Import Prelude Order Text Format Radix Hex BlockMeta ObjectStore Compression BlobCache Foyer Lru.

Inductive EmbedError :=
| EFoyer (e : FoyerCacheError) | EObjectStore (e : WalStoreError) | EInvalidConfig (msg : str).
Inductive HitTier := TierFoyer | TierObjectStore.
Inductive GetOutcome := Hit (tier : HitTier) (payload : bytes) | Miss.

Record EmbedConfig := mkEmbedConfig {
  ec_s3_prefix : str; ec_foyer : FoyerCacheConfig; ec_write_through_s3 : bool;
  ec_compression : BlockCompressionConfig
}.
Definition default_embed_config : EmbedConfig :=
  mkEmbedConfig (lit "kv") default_foyer_config true default_compression.

(** [s.find(pat)]: the byte index of the first occurrence. *)
Fixpoint find (pat s : str) : option Z :=
  if starts_with pat s then Some 0
  else match s with [] => None | _ :: s' => Z.succ <$> find pat s' end.

Section Embed.
Context {S : Type} `{!ObjectStore S} {H : Type} `{!HybridCache H} `{!Zstd}.

Record WombatKVKvStore := mkKvStore {
  kv_foyer : FoyerHybridCache H; kv_flat : FlatFileKvBlobCache; kv_object_store : S; kv_s3_prefix : str;
  kv_write_through_s3 : bool; kv_compression : BlockCompressionConfig; kv_index : InMemoryMetadataIndex
}.
Definition set_foyer (f : FoyerHybridCache H) (k : WombatKVKvStore) : WombatKVKvStore :=
  mkKvStore f (kv_flat k) (kv_object_store k) (kv_s3_prefix k) (kv_write_through_s3 k) (kv_compression k) (kv_index k).
Definition set_flat (c : FlatFileKvBlobCache) (k : WombatKVKvStore) : WombatKVKvStore :=
  mkKvStore (kv_foyer k) c (kv_object_store k) (kv_s3_prefix k) (kv_write_through_s3 k) (kv_compression k) (kv_index k).
Definition set_store (s : S) (k : WombatKVKvStore) : WombatKVKvStore :=
  mkKvStore (kv_foyer k) (kv_flat k) s (kv_s3_prefix k) (kv_write_through_s3 k) (kv_compression k) (kv_index k).
Definition set_index (i : InMemoryMetadataIndex) (k : WombatKVKvStore) : WombatKVKvStore :=
  mkKvStore (kv_foyer k) (kv_flat k) (kv_object_store k) (kv_s3_prefix k) (kv_write_through_s3 k) (kv_compression k) i.

(** A call on the object store, its error converted by [From]. *)
Definition on_store {A} (c : M S WalStoreError A) : M WombatKVKvStore EmbedError A :=
  fun k => let (s, r) := c (kv_object_store k) in (set_store s k, map_err EObjectStore r).

(** [new]; [disk] is the flat directory as found, the other arguments the
    outcomes of the calls [FoyerHybridCache::open] makes. *)
Definition kv_new (config : EmbedConfig) (object_store : S) (disk : FlatFileKvBlobCache)
    (parent dir runtime : result unit str) : result WombatKVKvStore EmbedError :=
  if decide (ec_s3_prefix config = []) then Err (EInvalidConfig (lit "s3_prefix must be non-empty")) else
  let? flat := map_err (fun e => EInvalidConfig (lit "flat cache open: " ++ cache_error_display e)) (flat_open disk) in
  let? foyer := map_err EFoyer (foyer_open (ec_foyer config) parent dir runtime) in
  Ok (mkKvStore foyer flat object_store (ec_s3_prefix config) (ec_write_through_s3 config)
        (ec_compression config) InMem.new).

(** [with_foyer]: an open foyer cache is shared; the codec comes from the
    environment. *)
Definition kv_with_foyer (env : str -> option str) (foyer : FoyerHybridCache H) (object_store : S)
    (s3_prefix : str) (write_through_s3 : bool) (disk : FlatFileKvBlobCache) : result WombatKVKvStore EmbedError :=
  if decide (s3_prefix = []) then Err (EInvalidConfig (lit "s3_prefix must be non-empty")) else
  let? flat := map_err (fun e => EInvalidConfig (lit "flat cache open: " ++ cache_error_display e)) (flat_open disk) in
  Ok (mkKvStore foyer flat object_store s3_prefix write_through_s3 (from_env env) InMem.new).

Definition object_key (k : WombatKVKvStore) (namespace key : str) : str :=
  if decide (namespace = []) then kv_s3_prefix k ++ lit "/" ++ key
  else kv_s3_prefix k ++ lit "/" ++ namespace ++ lit "/" ++ key.
Definition cache_key (k : WombatKVKvStore) (namespace key : str) : str := object_key k namespace key.
(** The listing prefix of a namespace, computed alike in four functions. *)
Definition namespace_prefix (k : WombatKVKvStore) (namespace : str) : str :=
  if decide (namespace = []) then kv_s3_prefix k ++ lit "/"
  else kv_s3_prefix k ++ lit "/" ++ namespace ++ lit "/".

Definition encode_for_storage (payload : bytes) (cfg : BlockCompressionConfig) (key : str)
  : result bytes EmbedError :=
  if negb (is_enabled cfg) then Ok payload
  else map_err (fun e => EInvalidConfig (lit "compress " ++ key ++ lit ": " ++ compression_error_display e))
         (encode_with_header payload cfg).

Definition put_kv (namespace key : str) (payload : bytes) : M WombatKVKvStore EmbedError unit :=
  fun k =>
    let ck := cache_key k namespace key in
    let ok := object_key k namespace key in
    let k := set_flat (flat_put ck payload (kv_flat k)) k in
    let k := set_foyer (foyer_put ck payload (kv_foyer k)) k in
    match encode_for_storage payload (kv_compression k) key with
    | Err e => (k, Err e)
    | Ok on_wire =>
        if kv_write_through_s3 k then on_store (put_object ok on_wire) k
        else let (k, _) := on_store (put_object ok on_wire) k in (k, Ok tt)
    end.

(** [put_kv_async_s3]: the caller's part, which leaves a job when the thread
    could be spawned, and the detached thread's part. *)
Record AsyncPut := mkAsyncPut { ap_object_key : str; ap_key : str; ap_payload : bytes; ap_compression : BlockCompressionConfig }.
Definition put_kv_async_s3 (spawned : bool) (namespace key : str) (payload : bytes) (k : WombatKVKvStore)
  : WombatKVKvStore * option AsyncPut :=
  let ck := cache_key k namespace key in
  let ok := object_key k namespace key in
  let k := set_flat (flat_put ck payload (kv_flat k)) k in
  let k := set_foyer (foyer_put ck payload (kv_foyer k)) k in
  (k, if spawned then Some (mkAsyncPut ok key payload (kv_compression k)) else None).
Definition run_async_put (j : AsyncPut) (k : WombatKVKvStore) : WombatKVKvStore :=
  match encode_for_storage (ap_payload j) (ap_compression j) (ap_key j) with
  | Err _ => k
  | Ok on_wire => fst (on_store (put_object (ap_object_key j) on_wire) k)
  end.

Definition get_kv (namespace key : str) : M WombatKVKvStore EmbedError GetOutcome :=
  fun k =>
    let ck := cache_key k namespace key in
    let (flat, r) := flat_get ck (kv_flat k) in
    let k := set_flat flat k in
    match r with
    | Some (payload, _) => (k, Ok (Hit TierFoyer payload))
    | None =>
        let (foyer, r) := foyer_get_with_tier ck (kv_foyer k) in
        let k := set_foyer foyer k in
        match r with
        | Some (payload, _) => (set_flat (flat_put ck payload (kv_flat k)) k, Ok (Hit TierFoyer payload))
        | None =>
            let (s, r) := get_object (object_key k namespace key) (kv_object_store k) in
            let k := set_store s k in
            match r with
            | Ok payload =>
                let bs := cow_bytes (decode_if_compressed payload) in
                let k := set_flat (flat_put ck bs (kv_flat k)) k in
                let k := set_foyer (foyer_put ck bs (kv_foyer k)) k in
                (k, Ok (Hit TierObjectStore bs))
            | Err (ObjectNotFound _) => (k, Ok Miss)
            | Err other => (k, Err (EObjectStore other))
            end
        end
    end.

Definition exists_kv (namespace key : str) : M WombatKVKvStore EmbedError bool :=
  fun k =>
    if foyer_contains (cache_key k namespace key) (kv_foyer k) then (k, Ok true)
    else on_store (head_object (object_key k namespace key)) k.

Definition list_namespace (namespace : str) : M WombatKVKvStore EmbedError (list str) :=
  fun k => on_store (list_prefix (namespace_prefix k namespace)) k.
Definition list_kv_keys (namespace : str) : M WombatKVKvStore EmbedError (list str) :=
  fun k =>
    let prefix := namespace_prefix k namespace in
    let (k, r) := on_store (list_prefix prefix) k in
    (k, let? object_keys := r in Ok (omap (strip_prefix prefix) object_keys)).

(** The loop of [restore_from_s3]. *)
Fixpoint restore_loop (object_keys : list str) (restored : Z) : M WombatKVKvStore EmbedError Z :=
  match object_keys with
  | [] => st_ret restored
  | object_key :: rest => fun k =>
      let (s, r) := get_object object_key (kv_object_store k) in
      let k := set_store s k in
      match r with
      | Ok payload =>
          let bs := cow_bytes (decode_if_compressed payload) in
          restore_loop rest (restored + 1) (set_foyer (foyer_put object_key bs (kv_foyer k)) k)
      | Err (ObjectNotFound _) => restore_loop rest restored k
      | Err other => (k, Err (EObjectStore other))
      end
  end.
Definition restore_from_s3 (namespace : str) : M WombatKVKvStore EmbedError Z :=
  let! object_keys := list_namespace namespace in restore_loop object_keys 0.

Definition delete_kv (namespace key : str) : M WombatKVKvStore EmbedError bool :=
  fun k =>
    let ck := cache_key k namespace key in
    let ok := object_key k namespace key in
    let k := set_flat (fst (flat_remove ck (kv_flat k))) k in
    on_store (delete_object ok) k.

Definition clear_foyer (k : WombatKVKvStore) : WombatKVKvStore := set_foyer (foyer_clear (kv_foyer k)) k.
Definition clear_flat_cache (k : WombatKVKvStore) : WombatKVKvStore := set_flat (flat_clear (kv_flat k)) k.
End Embed.
Arguments WombatKVKvStore : clear implicits.

(** ** Bootstrap *)
Definition block_key_infix : str := lit "/" ++ BLOCK_KEY_PREFIX.
Definition sidecar_key_infix : str := lit "/" ++ SIDECAR_RAW_TAIL_KEY_PREFIX.

Section Bootstrap.
Context {S : Type} `{!ObjectStore S} {H : Type} `{!HybridCache H} `{!Zstd}.
Abbreviation KvStore := (WombatKVKvStore S H).

(** The block a listed key names: the hash after the infix, when it is one. *)
Definition key_block (key : str) : option (option bytes) :=
  match find block_key_infix key with
  | None => None
  | Some idx =>
      let hex := slice (idx + len block_key_infix) (len key) key in
      Some (if decide (len hex = 64) then decode_hex32 hex else None)
  end.

(** The classification loop of [bootstrap_world_knowledge]: the index, the blocks
    loaded, the sidecar keys and the count of other keys.  [now] is the clock. *)
Fixpoint index_keys (now : Z) (keys : list str) (i : InMemoryMetadataIndex) (blocks_loaded : Z)
    (sidecar_keys : list str) (skipped : Z) : InMemoryMetadataIndex * Z * list str * Z :=
  match keys with
  | [] => (i, blocks_loaded, sidecar_keys, skipped)
  | key :: rest =>
      match key_block key with
      | Some (Some hash) =>
          index_keys now rest (InMem.insert now hash (new_root now 0 (replicate 24 x00) (replicate 16 x00)) i)
            (blocks_loaded + 1) sidecar_keys skipped
      | Some None => index_keys now rest i blocks_loaded sidecar_keys skipped
      | None =>
          match find sidecar_key_infix key with
          | Some _ => index_keys now rest i blocks_loaded (sidecar_keys ++ [key]) skipped
          | None => index_keys now rest i blocks_loaded sidecar_keys (skipped + 1)
          end
      end
  end.

(** The prewarm loop: a get per sidecar, its outcome ignored. *)
Fixpoint prewarm (namespace : str) (sidecar_keys : list str) (k : KvStore) : KvStore :=
  match sidecar_keys with
  | [] => k
  | full_key :: rest =>
      let rel_idx := match find (lit "/wombatkv/v1/") full_key with Some i => i + 1 | None => 0 end in
      let rel_key := slice rel_idx (len full_key) full_key in
      prewarm namespace rest (fst (get_kv namespace rel_key k))
  end.

Definition bootstrap_world_knowledge (now : Z) (namespace : str) : M KvStore EmbedError Z :=
  fun k =>
    let prefix := namespace_prefix k namespace in
    let (k, r) := on_store (list_prefix prefix) k in
    match r with
    | Err e => (k, Err e)
    | Ok keys =>
        let '(i, blocks_loaded, sidecar_keys, _) := index_keys now keys (kv_index k) 0 [] 0 in
        (prewarm namespace sidecar_keys (set_index i k), Ok blocks_loaded)
    end.

(** [bootstrap_from_slatedb]: [entries()] may panic. *)
Definition bootstrap_from_slatedb {I} `{!MetadataIndex I} : M (KvStore * I) str Z :=
  fun '(k, slatedb) =>
    let (slatedb, r) := idx_entries slatedb in
    match r with
    | Err e => ((k, slatedb), Err e)
    | Ok es => ((set_index (InMem.bulk_load es (kv_index k)) k, slatedb), Ok (len es))
    end.

(** *** The adapters *)

(** [impl Display for EmbedError]; [debug] prints a [WalStoreError]. *)
Definition embed_error_display (debug : WalStoreError -> str) (e : EmbedError) : str :=
  match e with
  | EFoyer e => lit "WombatKV puffer error: " ++ foyer_error_display e
  | EObjectStore e => lit "object store error: " ++ debug e
  | EInvalidConfig m => lit "invalid config: " ++ m
  end.

(** [KvStoreEvictionDeleter::delete_block] *)
Definition kv_delete_block (debug : WalStoreError -> str) (namespace key : str) : M KvStore str bool :=
  fun k => let (k, r) := delete_kv namespace key k in (k, map_err (embed_error_display debug) r).

(** [KvStorePrefetchFetcher] *)
Definition kv_contains_flat (namespace key : str) (k : KvStore) : KvStore * bool :=
  let (c, b) := flat_contains (cache_key k namespace key) (kv_flat k) in (set_flat c k, b).
Definition kv_fetch_block (debug : WalStoreError -> str) (namespace key : str) : M KvStore str (option Z) :=
  fun k =>
    let (k, r) := get_kv namespace key k in
    (k, match r with
        | Ok (Hit _ payload) => Ok (Some (len payload))
        | Ok Miss => Ok None
        | Err e => Err (embed_error_display debug e)
        end).
End Bootstrap.
#[global] Instance kv_store_deleter {S H} `{!ObjectStore S, !HybridCache H, !Zstd} (debug : WalStoreError -> str) :
  EvictionDeleter (WombatKVKvStore S H) := {| delete_block := kv_delete_block debug |}.

(** ** Coherence of the tiers

    [content] assigns its payload to every key, as content addressing does; [K]
    is the set of keys in use, no two of which share a flat file. *)
Section Coherence.
Context {S : Type} `{!ObjectStore S} `{!ObjectStoreLaws S} {H : Type} `{!HybridCache H} `{!HybridCacheLaws H}
  `{!Zstd} `{!ZstdLaws}.
Abbreviation KvStore := (WombatKVKvStore S H).
Context (K : str -> Prop) (content : str -> option bytes).
Context (K_files : forall k k', K k -> K k' -> path_for_key k = path_for_key k' -> k = k').

Definition agrees (m : gmap str bytes) : Prop := forall k v, K k -> m !! k = Some v -> content k = Some v.
Definition flat_coherent (c : FlatFileKvBlobCache) : Prop :=
  forall k v, K k -> visible c k = Some v -> content k = Some v.
Definition foyer_coherent (f : FoyerHybridCache H) : Prop := exists m, foyer_holds f m /\ agrees m.
Definition store_coherent (s : S) : Prop :=
  forall k b, K k -> contents s !! k = Some b -> content k = Some (cow_bytes (decode_if_compressed b)).
Definition coherent (k : KvStore) : Prop :=
  flat_coherent (kv_flat k) /\ foyer_coherent (kv_foyer k) /\ store_coherent (kv_object_store k).

(** Payloads the configured codec stores faithfully. *)
Definition storable (cfg : BlockCompressionConfig) (payload : bytes) : Prop :=
  algo cfg = Algo_None -> has_magic payload = false.

Lemma flat_put_coherent c k v :
  K k -> content k = Some v -> flat_coherent c -> flat_coherent (flat_put k v c).
Proof.
  intros Hk Hv Hc k' v' Hk' Hv'. destruct (flat_put_visible k v c k') as [E|[Hp E]]; rewrite E in Hv'.
  - by apply Hc.
  - simplify_eq. by rewrite (K_files k' k).
Qed.

Lemma flat_get_coherent c c' k r :
  K k -> flat_coherent c -> flat_get k c = (c', r) ->
  flat_coherent c' /\ forall v l, r = Some (v, l) -> content k = Some v.
Proof.
  intros Hk Hc E. destruct (flat_get_visible k c c' r E) as (Hv & Hr & _). split.
  - intros k' v' Hk'. rewrite Hv. by apply Hc.
  - intros v l ?. apply (Hc k); [done|]. by apply (Hr v l).
Qed.

Lemma flat_remove_coherent c k : flat_coherent c -> flat_coherent (fst (flat_remove k c)).
Proof.
  intros Hc k' v' Hk'. destruct (flat_remove_visible k c k') as [->|[_ ->]]; [by apply Hc|done].
Qed.

Lemma flat_clear_coherent c : flat_coherent c -> flat_coherent (flat_clear c).
Proof.
  intros Hc k' v' Hk'. destruct (flat_clear_visible c k') as [[->| ->] _]; [done|by apply Hc].
Qed.

(** Inserting a key outside [K] is always coherent. *)
Lemma foyer_put_coherent f k v :
  (K k -> content k = Some v) -> foyer_coherent f -> foyer_coherent (foyer_put k v f).
Proof.
  intros Hv (m & Hm & Ha). exists (<[k := v]> m). split; [by apply foyer_put_holds|].
  intros k' v' Hk'. destruct (decide (k' = k)) as [->|Hne].
  - rewrite lookup_insert_eq. intros [= <-]. auto.
  - rewrite lookup_insert_ne by done. by apply Ha.
Qed.

Lemma foyer_get_coherent f f' k r :
  K k -> foyer_coherent f -> foyer_get_with_tier k f = (f', r) ->
  foyer_coherent f' /\ forall v t, r = Some (v, t) -> content k = Some v.
Proof.
  intros Hk (m & Hm & Ha) E. destruct (foyer_get_holds k f f' r m Hm E) as [Hm' Hv].
  split; [by exists m|]. intros v t ?. apply (Ha k); [done|]. by apply (Hv v t).
Qed.

Lemma foyer_clear_coherent f : foyer_coherent f -> foyer_coherent (foyer_clear f).
Proof. intros (m & Hm & Ha). exists m. split; [by apply hc_clear_law|done]. Qed.

Lemma encode_for_storage_decodes cfg payload key w :
  storable cfg payload -> encode_for_storage payload cfg key = Ok w ->
  cow_bytes (decode_if_compressed w) = payload.
Proof.
  unfold encode_for_storage, storable, is_enabled. intros Hm.
  destruct (algo cfg) eqn:Ea; cbn [negb].
  - intros <-%Ok_inj. by rewrite decode_raw by auto.
  - destruct (encode_with_header payload cfg) as [w'|e] eqn:E; [|done]. intros <-%Ok_inj.
    apply (decode_encoded payload cfg); [congruence|done].
  - destruct (encode_with_header payload cfg) as [w'|e] eqn:E; [|done]. intros <-%Ok_inj.
    apply (decode_encoded payload cfg); [congruence|done].
Qed.

Lemma put_object_coherent s s' k w v r :
  put_object k w s = (s', r) -> (K k -> content k = Some v) -> cow_bytes (decode_if_compressed w) = v ->
  store_coherent s -> store_coherent s'.
Proof.
  intros E Hv Hw Hs k' b Hk'. destruct (put_object_law k w s s' r E) as [[->| ->] _]; [by apply Hs|].
  destruct (decide (k' = k)) as [->|Hne].
  - rewrite lookup_insert_eq. intros [= <-]. rewrite Hw. auto.
  - rewrite lookup_insert_ne by done. by apply Hs.
Qed.

Lemma store_same_coherent s s' : contents s' = contents s -> store_coherent s -> store_coherent s'.
Proof. intros E Hs k b Hk. rewrite E. by apply Hs. Qed.

Lemma on_store_put_coherent (k : KvStore) key w v :
  (K key -> content key = Some v) -> cow_bytes (decode_if_compressed w) = v ->
  coherent k -> coherent (fst (on_store (put_object key w) k)).
Proof.
  intros Hv Hw (Hfl & Hfo & Hs). unfold on_store. destruct (put_object key w _) as [s' r] eqn:E.
  split; [done|]. split; [done|]. exact (put_object_coherent _ _ key w v r E Hv Hw Hs).
Qed.

(** The two cache writes at the head of both puts. *)
Lemma put_caches_coherent (k : KvStore) ck v :
  K ck -> content ck = Some v -> coherent k ->
  coherent (set_foyer (foyer_put ck v (kv_foyer k)) (set_flat (flat_put ck v (kv_flat k)) k)).
Proof.
  intros Hk Hv (Hfl & Hfo & Hs). split; [by apply flat_put_coherent|]. split; [by apply foyer_put_coherent|done].
Qed.

Lemma put_kv_coherent ns key v (k : KvStore) :
  K (cache_key k ns key) -> content (cache_key k ns key) = Some v -> storable (kv_compression k) v ->
  coherent k -> coherent (fst (put_kv ns key v k)).
Proof.
  intros Hk Hv Hst Hc. unfold put_kv.
  pose proof (put_caches_coherent k _ v Hk Hv Hc) as Hc'.
  destruct (encode_for_storage v _ key) as [w|e] eqn:E; [|done].
  apply encode_for_storage_decodes in E; [|done].
  pose proof (on_store_put_coherent _ (object_key k ns key) w v (fun _ => Hv) E Hc') as Hp.
  destruct (kv_write_through_s3 _); [done|].
  by destruct (on_store _ _) as [k' r].
Qed.

Definition job_ok (j : AsyncPut) : Prop :=
  (K (ap_object_key j) -> content (ap_object_key j) = Some (ap_payload j)) /\
  storable (ap_compression j) (ap_payload j).

Lemma put_kv_async_coherent sp ns key v (k k' : KvStore) j :
  K (cache_key k ns key) -> content (cache_key k ns key) = Some v -> storable (kv_compression k) v ->
  coherent k -> put_kv_async_s3 sp ns key v k = (k', j) ->
  coherent k' /\ forall job, j = Some job -> job_ok job.
Proof.
  intros Hk Hv Hst Hc. unfold put_kv_async_s3. intros [= <- <-]. split; [by apply put_caches_coherent|].
  intros job. destruct sp; [|done]. by intros [= <-].
Qed.

Lemma run_async_coherent j (k : KvStore) : job_ok j -> coherent k -> coherent (run_async_put j k).
Proof.
  intros [Hj Hst] Hc. unfold run_async_put.
  destruct (encode_for_storage _ _ _) as [w|e] eqn:E; [|done].
  apply encode_for_storage_decodes in E; [|done]. by apply (on_store_put_coherent _ _ _ (ap_payload j)).
Qed.

Lemma get_kv_coherent ns key (k k' : KvStore) r :
  K (cache_key k ns key) -> coherent k -> get_kv ns key k = (k', r) ->
  coherent k' /\ forall t v, r = Ok (Hit t v) -> content (cache_key k ns key) = Some v.
Proof.
  intros Hk (Hfl & Hfo & Hs). unfold get_kv.
  destruct (flat_get _ _) as [c1 r1] eqn:E1.
  destruct (flat_get_coherent _ _ _ _ Hk Hfl E1) as [Hfl1 Hv1].
  destruct r1 as [[v1 l1]|].
  { intros [= <- <-]. split; [done|]. intros t v [= <- <-]. by apply (Hv1 v1 l1). }
  cbn [kv_foyer set_flat]. destruct (foyer_get_with_tier _ _) as [f1 r2] eqn:E2.
  destruct (foyer_get_coherent _ _ _ _ Hk Hfo E2) as [Hfo1 Hv2].
  destruct r2 as [[v2 t2]|].
  { intros [= <- <-]. specialize (Hv2 v2 t2 eq_refl). split; [|by intros t v [= <- <-]].
    split; [by apply flat_put_coherent|done]. }
  cbn [kv_object_store set_foyer set_flat]. destruct (get_object _ _) as [s1 r3] eqn:E3.
  destruct (get_object_law _ _ _ _ E3) as [Hcs Hr3].
  pose proof (store_same_coherent _ _ Hcs Hs) as Hs1.
  destruct r3 as [b|e].
  - assert (content (cache_key k ns key) = Some (cow_bytes (decode_if_compressed b))) as Hb.
    { apply (Hs (cache_key k ns key)); [done|exact Hr3]. }
    intros [= <- <-]. split; [|by intros t v [= <- <-]].
    split; [by apply flat_put_coherent|]. split; [by apply foyer_put_coherent|done].
  - destruct e; intros [= <- <-]; by repeat split.
Qed.

(** A call that only reads the store. *)
Lemma on_store_read_coherent {A} (c : M S WalStoreError A) (k : KvStore) :
  (forall s s' r, c s = (s', r) -> contents s' = contents s) -> coherent k -> coherent (fst (on_store c k)).
Proof.
  intros Hc (Hfl & Hfo & Hs). unfold on_store. destruct (c _) as [s' r] eqn:E. split; [done|]. split; [done|].
  apply Hc in E. exact (store_same_coherent _ _ E Hs).
Qed.

Lemma exists_kv_coherent ns key (k : KvStore) : coherent k -> coherent (fst (exists_kv ns key k)).
Proof.
  intros Hc. unfold exists_kv. destruct (foyer_contains _ _); [done|].
  apply on_store_read_coherent; [|done]. by intros s s' r [? _]%head_object_law.
Qed.

Lemma delete_kv_coherent ns key (k : KvStore) : coherent k -> coherent (fst (delete_kv ns key k)).
Proof.
  intros (Hfl & Hfo & Hs). unfold delete_kv, on_store. cbn [kv_object_store set_flat].
  destruct (delete_object _ _) as [s' r] eqn:E. split; [by apply flat_remove_coherent|]. split; [done|].
  destruct (delete_object_law _ _ _ _ E) as [[E'|E'] _]; [by apply (store_same_coherent (kv_object_store k))|].
  intros k' b Hk'. cbn. rewrite E'. intros [_ Hb]%lookup_delete_Some. by apply (Hs k').
Qed.

Lemma restore_loop_coherent keys n (k : KvStore) : coherent k -> coherent (fst (restore_loop keys n k)).
Proof.
  revert n k. induction keys as [|key keys IH]; intros n k (Hfl & Hfo & Hs); [done|]. cbn [restore_loop].
  destruct (get_object key _) as [s1 r] eqn:E. destruct (get_object_law _ _ _ _ E) as [Hcs Hr].
  pose proof (store_same_coherent _ _ Hcs Hs) as Hs1.
  destruct r as [b|[]]; try done; apply IH; split; try done. split; [|done].
  apply foyer_put_coherent; [|done]. intros Hk. by apply (Hs key).
Qed.

Lemma restore_coherent ns (k : KvStore) : coherent k -> coherent (fst (restore_from_s3 ns k)).
Proof.
  intros Hc. unfold restore_from_s3, st_bind.
  assert (coherent (fst (list_namespace ns k))) as Hl.
  { apply on_store_read_coherent; [|done]. by intros s s' r [? _]%list_prefix_law. }
  destruct (list_namespace ns k) as [k1 [keys|e]]; [|done]. by apply restore_loop_coherent.
Qed.

(** The operations of a process, with the detached writes of earlier puts run at
    any time, in any order, or never. *)
Inductive kv_step : KvStore * list AsyncPut -> KvStore * list AsyncPut -> Prop :=
| step_put ns key v k jobs :
    K (cache_key k ns key) -> content (cache_key k ns key) = Some v -> storable (kv_compression k) v ->
    kv_step (k, jobs) (fst (put_kv ns key v k), jobs)
| step_put_async sp ns key v k jobs :
    K (cache_key k ns key) -> content (cache_key k ns key) = Some v -> storable (kv_compression k) v ->
    kv_step (k, jobs)
      (fst (put_kv_async_s3 sp ns key v k),
       jobs ++ match snd (put_kv_async_s3 sp ns key v k) with Some j => [j] | None => [] end)
| step_run_async k jobs1 j jobs2 : kv_step (k, jobs1 ++ j :: jobs2) (run_async_put j k, jobs1 ++ jobs2)
| step_get ns key k jobs : K (cache_key k ns key) -> kv_step (k, jobs) (fst (get_kv ns key k), jobs)
| step_exists ns key k jobs : kv_step (k, jobs) (fst (exists_kv ns key k), jobs)
| step_delete ns key k jobs : kv_step (k, jobs) (fst (delete_kv ns key k), jobs)
| step_restore ns k jobs : kv_step (k, jobs) (fst (restore_from_s3 ns k), jobs)
| step_clear_foyer k jobs : kv_step (k, jobs) (clear_foyer k, jobs)
| step_clear_flat k jobs : kv_step (k, jobs) (clear_flat_cache k, jobs).

Lemma kv_step_coherent k jobs k' jobs' :
  kv_step (k, jobs) (k', jobs') -> coherent k -> Forall job_ok jobs -> coherent k' /\ Forall job_ok jobs'.
Proof.
  intros Hstep Hc Hj. inversion Hstep; subst.
  - split; [by apply put_kv_coherent|done].
  - destruct (put_kv_async_s3 sp ns key v k) as [k1 j] eqn:E.
    destruct (put_kv_async_coherent sp ns key v k k1 j) as [Hc1 Hj1]; [done..|].
    injection E as <- <-. split; [done|]. apply Forall_app. split; [done|].
    destruct sp; [|constructor]. apply Forall_singleton. by apply Hj1.
  - apply Forall_app in Hj as [Hj1 Hj2]. apply Forall_cons in Hj2 as [Hj0 Hj2].
    split; [by apply run_async_coherent|by apply Forall_app].
  - split; [|done]. destruct (get_kv ns key k) as [k1 r] eqn:E. by eapply get_kv_coherent.
  - split; [by apply exists_kv_coherent|done].
  - split; [by apply delete_kv_coherent|done].
  - split; [by apply restore_coherent|done].
  - split; [|done]. destruct Hc as (? & ? & ?). split; [done|]. split; [by apply foyer_clear_coherent|done].
  - split; [|done]. destruct Hc as (? & ? & ?). split; [by apply flat_clear_coherent|done].
Qed.

Lemma kv_steps_coherent k0 k jobs :
  coherent k0 -> rtc kv_step (k0, []) (k, jobs) -> coherent k.
Proof.
  intros Hc Hsteps. remember (k0, []) as st0 eqn:E0. remember (k, jobs) as st eqn:E.
  assert (coherent (fst st0) /\ Forall job_ok (snd st0)) as Hst0 by (subst; by split; [|constructor]).
  assert (coherent (fst st) /\ Forall job_ok (snd st)) as [Hst _]; [|by subst].
  clear E0 E. induction Hsteps as [st|st1 st2 st3 H12 _ IH]; [done|]. apply IH.
  destruct st1 as [k1 j1], st2 as [k2 j2], Hst0. cbn in *. by apply (kv_step_coherent k1 j1).
Qed.

(** C1: under content addressing, after any sequence of puts, asynchronous puts
    with their background writes in any order, gets, existence checks, deletes,
    restores and cache clearings, with object-store calls and file-system calls
    failing at any point and the caches forgetting at will, a get that hits
    returns exactly the payload the key stands for, from whichever tier it came. *)
Theorem hits_return_what_was_put k0 k jobs ns key k' t v :
  coherent k0 -> rtc kv_step (k0, []) (k, jobs) -> K (cache_key k ns key) ->
  get_kv ns key k = (k', Ok (Hit t v)) -> content (cache_key k ns key) = Some v.
Proof.
  intros Hc Hsteps Hk Hg. pose proof (kv_steps_coherent k0 k jobs Hc Hsteps) as Hck.
  destruct (get_kv_coherent ns key k k' _ Hk Hck Hg) as [_ Hv]. by apply (Hv t).
Qed.

(** A get on a coherent store finds what the object store has. *)
Lemma get_kv_finds `{!ReliableStore S} ns key v b (k : KvStore) :
  coherent k -> K (cache_key k ns key) -> content (cache_key k ns key) = Some v ->
  reliable (kv_object_store k) -> contents (kv_object_store k) !! object_key k ns key = Some b ->
  exists k' t, get_kv ns key k = (k', Ok (Hit t v)).
Proof.
  intros Hc Hk Hv Hr Hb. destruct (get_kv ns key k) as [k' r] eqn:E.
  destruct (get_kv_coherent ns key k k' r Hk Hc E) as [_ Hhit].
  assert (exists t w, r = Ok (Hit t w)) as (t & w & ->).
  { revert E. unfold get_kv. destruct (flat_get _ _) as [c1 [[v1 l1]|]]; [intros [= _ <-]; by eexists _, _|].
    destruct (foyer_get_with_tier _ _) as [f1 [[v2 t2]|]]; [intros [= _ <-]; by eexists _, _|].
    cbn [kv_object_store set_foyer set_flat].
    destruct (reliable_get (object_key k ns key) _ Hr) as (s' & Hget & _).
    change (object_key (set_foyer f1 (set_flat c1 k)) ns key) with (object_key k ns key).
    rewrite Hget, Hb. run_res. intros [= _ <-]. by eexists _, _. }
  exists k', t. specialize (Hhit t w eq_refl). congruence.
Qed.

(** C7: a put that was written through and reported success is durable: whatever
    the flat-file and foyer caches retain, forget or were restarted with, a get
    of the key from the same object store hits and returns the payload. *)
Theorem put_survives_cache_loss `{!ReliableStore S} ns key v (k k1 : KvStore) flat' foyer' :
  coherent k -> K (cache_key k ns key) -> content (cache_key k ns key) = Some v ->
  storable (kv_compression k) v -> kv_write_through_s3 k = true ->
  put_kv ns key v k = (k1, Ok tt) ->
  flat_coherent flat' -> foyer_coherent foyer' -> reliable (kv_object_store k1) ->
  exists k2 t, get_kv ns key (set_foyer foyer' (set_flat flat' k1)) = (k2, Ok (Hit t v)).
Proof.
  intros Hc Hk Hv Hst Hwt Hput Hfl Hfo Hr.
  pose proof (put_kv_coherent ns key v k Hk Hv Hst Hc) as Hc1. rewrite Hput in Hc1. cbn [fst] in Hc1.
  assert (kv_s3_prefix k1 = kv_s3_prefix k /\ is_Some (contents (kv_object_store k1) !! object_key k ns key)) as [Hp [b Hb]].
  { revert Hput. unfold put_kv. destruct (encode_for_storage _ _ _) as [w|e]; [|done].
    cbn [kv_write_through_s3 set_foyer set_flat]. rewrite Hwt. unfold on_store.
    cbn [kv_object_store set_foyer set_flat].
    destruct (put_object _ w _) as [s' [[]|e]] eqn:E; run_res; [|done]. intros [= <-]. split; [done|].
    destruct (put_object_law _ _ _ _ _ E) as [Hor Hin]. cbn [kv_object_store set_store].
    destruct (contents (kv_object_store k) !! object_key k ns key) as [b|] eqn:Eb.
    - destruct Hor as [->| ->]; [by exists b|]. by rewrite lookup_insert_eq.
    - rewrite Hin by done. by rewrite lookup_insert_eq. }
  assert (object_key (set_foyer foyer' (set_flat flat' k1)) ns key = object_key k ns key) as Hok
    by (unfold object_key; cbn; by rewrite Hp).
  apply (get_kv_finds ns key v b); unfold cache_key; rewrite ?Hok; try done.
  destruct Hc1 as (_ & _ & Hs). done.
Qed.
End Coherence.

(** *** A concrete store *)
Definition sample_key : str := lit "kv/ns/k".
Definition sample_content (k : str) : option bytes := if decide (k = sample_key) then Some (lit "payload") else None.
Definition sample_store : WombatKVKvStore InMemoryObjectStore MapCache :=
  mkKvStore (mkFoyer ∅ (lit "/tmp/p") 0 0 0) (mkFlat ∅ true []) in_memory_default (lit "kv") true
    default_compression InMem.new.
Abbreviation sample_coherent := (@coherent InMemoryObjectStore _ _ MapCache _ _ store_codec
  (fun k => k = sample_key) sample_content).

Lemma sample_files k k' : k = sample_key -> k' = sample_key -> path_for_key k = path_for_key k' -> k = k'.
Proof. congruence. Defined.
Lemma empty_caches_coherent :
  flat_coherent (fun k => k = sample_key) sample_content (mkFlat ∅ true []) /\
  foyer_coherent (H := MapCache) (fun k => k = sample_key) sample_content (mkFoyer ∅ [] 0 0 0).
Proof.
  split.
  - intros k v _ Hv. unfold visible in Hv. cbn [files] in Hv. rewrite lookup_empty in Hv. discriminate.
  - exists ∅. split; [apply map_empty_subseteq|]. intros k v _ Hv. rewrite lookup_empty in Hv. discriminate.
Qed.
Lemma fresh_store_coherent K content : @coherent InMemoryObjectStore _ _ MapCache _ _ store_codec K content sample_store.
Proof.
  split; [|split].
  - intros k v _ Hv. unfold visible in Hv. cbn in Hv. rewrite lookup_empty in Hv. discriminate.
  - exists ∅. split; [apply map_empty_subseteq|]. intros k v _ Hv. rewrite lookup_empty in Hv. discriminate.
  - intros k b _ Hb. cbn in Hb. rewrite lookup_empty in Hb. discriminate.
Qed.
Lemma sample_store_coherent : sample_coherent sample_store.
Proof. apply fresh_store_coherent. Qed.

Lemma hits_return_what_was_put_witness :
  let k := fst (put_kv (H0 := store_codec) (lit "ns") (lit "k") (lit "payload") sample_store) in
  exists k' t v, get_kv (H0 := store_codec) (lit "ns") (lit "k") k = (k', Ok (Hit t v)) /\
                 sample_content sample_key = Some v.
Proof.
  intros k. eexists _, _, _. split; [reflexivity|].
  refine (@hits_return_what_was_put InMemoryObjectStore _ _ MapCache _ _ store_codec store_codec_laws
           (fun k => k = sample_key) sample_content sample_files sample_store k [] (lit "ns") (lit "k") _ _ _
           sample_store_coherent _ _ _).
  - apply rtc_once. unfold k. apply step_put; [vm_compute; reflexivity|vm_compute; reflexivity|discriminate].
  - vm_compute. reflexivity.
  - reflexivity.
Defined.

Lemma put_survives_cache_loss_witness :
  let k1 := fst (put_kv (H0 := store_codec) (lit "ns") (lit "k") (lit "payload") sample_store) in
  exists k2 t,
    get_kv (H0 := store_codec) (lit "ns") (lit "k") (set_foyer (mkFoyer ∅ [] 0 0 0) (set_flat (mkFlat ∅ true []) k1))
    = (k2, Ok (Hit t (lit "payload"))).
Proof.
  intros k1.
  refine (@put_survives_cache_loss InMemoryObjectStore _ _ MapCache _ _ store_codec store_codec_laws
           (fun k => k = sample_key) sample_content sample_files _ (lit "ns") (lit "k") (lit "payload")
           sample_store k1 (mkFlat ∅ true []) (mkFoyer ∅ [] 0 0 0)
           sample_store_coherent _ _ _ _ _ (proj1 empty_caches_coherent) (proj2 empty_caches_coherent) _);
    [vm_compute; reflexivity|vm_compute; reflexivity|discriminate|reflexivity| |reflexivity].
  apply injective_projections; reflexivity.
Defined.

(** ** Deletion *)

Lemma flat_remove_no_fault k c :
  faults c = [] -> faults (fst (flat_remove k c)) = [] /\ root_present (fst (flat_remove k c)) = root_present c /\
                   visible (fst (flat_remove k c)) k = None.
Proof.
  intros Hf. unfold flat_remove, fs_remove_file, next_fault, visible. rewrite Hf.
  destruct (files c !! path_for_key k) eqn:E; cbn; [|by rewrite Hf, E]. by rewrite lookup_delete_eq.
Qed.

(** Deleting a blob that foyer still holds does not make it unreadable: the
    object and the flat file are gone, but the next get is served from foyer and
    writes the flat file anew, so that later gets keep hitting. *)
Theorem deleted_blob_comes_back {S H} `{!ObjectStore S, !ObjectStoreLaws S, !HybridCache H, !Zstd}
    ns key (k k1 : WombatKVKvStore S H) f' v t b :
  faults (kv_flat k) = [] -> root_present (kv_flat k) = true ->
  foyer_get_with_tier (cache_key k ns key) (kv_foyer k) = (f', Some (v, t)) ->
  delete_kv ns key k = (k1, Ok b) ->
  contents (kv_object_store k1) !! object_key k ns key = None /\
  visible (kv_flat k1) (cache_key k ns key) = None /\
  exists k2, get_kv ns key k1 = (k2, Ok (Hit TierFoyer v)) /\
             contents (kv_object_store k2) !! object_key k ns key = None /\
             visible (kv_flat k2) (cache_key k ns key) = Some v.
Proof.
  intros Hf R Hg. unfold delete_kv, on_store. cbn [kv_object_store set_flat].
  destruct (delete_object _ _) as [s' [b'|e]] eqn:E; run_res; [|done]. intros [= <- <-].
  destruct (delete_object_law _ _ _ _ E) as [_ Hd]. specialize (Hd b' eq_refl).
  destruct (flat_remove_no_fault (cache_key k ns key) (kv_flat k) Hf) as (Hf1 & R1 & Hv1).
  cbn [kv_object_store kv_flat set_flat set_store]. split; [by rewrite Hd, lookup_delete_eq|]. split; [done|].
  unfold get_kv. cbn [kv_flat kv_foyer set_flat set_store].
  change (cache_key (set_store s' _) ns key) with (cache_key k ns key).
  destruct (flat_get (cache_key k ns key) _) as [c2 r2] eqn:E2.
  destruct (flat_get_visible _ _ _ _ E2) as (_ & _ & H2). destruct (H2 Hf1) as (Hf2 & R2 & ->).
  rewrite Hv1. cbn [fmap option_fmap option_map kv_foyer kv_flat set_flat set_store set_foyer]. rewrite Hg.
  eexists. split; [reflexivity|]. split; [by cbn; rewrite Hd, lookup_delete_eq|].
  cbn [kv_flat set_flat set_foyer]. destruct (flat_put_no_fault (cache_key k ns key) v c2) as (_ & _ & Hv3); [done|congruence|].
  rewrite Hv3. by rewrite decide_True.
Qed.

Lemma deleted_blob_comes_back_witness :
  let k := fst (put_kv (H0 := store_codec) (lit "ns") (lit "k") (lit "payload") sample_store) in
  let k1 := fst (delete_kv (lit "ns") (lit "k") k) in
  exists k2, get_kv (H0 := store_codec) (lit "ns") (lit "k") k1 = (k2, Ok (Hit TierFoyer (lit "payload"))) /\
             contents (kv_object_store k2) !! sample_key = None /\
             visible (kv_flat k2) sample_key = Some (lit "payload").
Proof.
  intros k k1.
  destruct (@deleted_blob_comes_back InMemoryObjectStore MapCache _ _ _ store_codec (lit "ns") (lit "k") k k1
              (mkFoyer (hybrid (kv_foyer k)) (lit "/tmp/p") 1 0 1) (lit "payload") Ram true) as (_ & _ & H);
    [reflexivity|reflexivity| |apply injective_projections; [reflexivity|vm_compute; reflexivity]|exact H].
  apply injective_projections; [reflexivity|vm_compute; reflexivity].
Defined.

(** ** What bootstrap puts in the index *)
Lemma index_keys_entries now keys i n sc sk h :
  let i' := fst (fst (fst (index_keys now keys i n sc sk))) in
  is_Some (entries i' !! h) <->
  is_Some (entries i !! h) \/ exists key, key ∈ keys /\ key_block key = Some (Some h).
Proof.
  revert i n sc sk. induction keys as [|key keys IH]; intros i n sc sk; cbn [index_keys].
  { cbn. set_solver. }
  destruct (key_block key) as [[h0|]|] eqn:E; [| |destruct (find sidecar_key_infix key)];
    cbv zeta in IH |- *; rewrite IH; clear IH; unfold InMem.insert; cbn [entries].
  - destruct (decide (h0 = h)) as [->|Hne].
    + rewrite lookup_insert_eq. split; [|naive_solver]. intros _. right. exists key. set_solver.
    + rewrite lookup_insert_ne by done. split; [set_solver|]. intros [?|(key' & Hin & Hk)]; [by left|].
      right. exists key'. apply elem_of_cons in Hin as [->|Hin]; [congruence|done].
  - split; [set_solver|]. intros [?|(key' & Hin & Hk)]; [by left|].
    right. exists key'. apply elem_of_cons in Hin as [->|Hin]; [congruence|done].
  - split; [set_solver|]. intros [?|(key' & Hin & Hk)]; [by left|].
    right. exists key'. apply elem_of_cons in Hin as [->|Hin]; [congruence|done].
  - split; [set_solver|]. intros [?|(key' & Hin & Hk)]; [by left|].
    right. exists key'. apply elem_of_cons in Hin as [->|Hin]; [congruence|done].
Qed.

Lemma index_keys_count now keys i n sc sk :
  snd (fst (fst (index_keys now keys i n sc sk))) = n + len (omap (fun key => mjoin (key_block key)) keys).
Proof.
  revert i n sc sk. induction keys as [|key keys IH]; intros i n sc sk; cbn [index_keys omap list_omap].
  { cbn. unfold len. cbn. lia. }
  destruct (key_block key) as [[h0|]|]; [| |destruct (find sidecar_key_infix key)]; cbn [mjoin option_join];
    rewrite IH; rewrite ?len_cons; lia.
Qed.

Lemma get_kv_index {S H} `{!ObjectStore S, !HybridCache H, !Zstd} ns key (k : WombatKVKvStore S H) :
  kv_index (fst (get_kv ns key k)) = kv_index k.
Proof.
  unfold get_kv. destruct (flat_get _ _) as [c1 [[v1 l1]|]]; [done|].
  destruct (foyer_get_with_tier _ _) as [f1 [[v2 t2]|]]; [done|].
  by destruct (get_object _ _) as [s1 [b|[]]].
Qed.

Lemma prewarm_index {S H} `{!ObjectStore S, !HybridCache H, !Zstd} ns keys (k : WombatKVKvStore S H) :
  kv_index (prewarm ns keys k) = kv_index k.
Proof. revert k. induction keys as [|key keys IH]; intros k; cbn [prewarm]; [done|]. by rewrite IH, get_kv_index. Qed.

Lemma decode_hex32_hex_lower h : is_hash h -> decode_hex32 (hex_lower h) = Some h.
Proof.
  intros Hh. assert (len (hex_lower h) = 64) as Hl by (unfold len; rewrite length_hex_lower, Hh; lia).
  unfold decode_hex32. rewrite decide_True by done. apply decode_pairs_hex_lower, hex_val_nibble.
Qed.

(** The key a block is stored under names the block, unless the infix already
    occurs in the namespace. *)
Lemma key_block_of_block {S H} `{!ObjectStore S, !HybridCache H} ns h (k : WombatKVKvStore S H) :
  is_hash h ->
  find block_key_infix (object_key k ns (block_key_for_hash h)) = Some (len (namespace_prefix k ns) - 1) ->
  key_block (object_key k ns (block_key_for_hash h)) = Some (Some h).
Proof.
  intros Hh Hf. unfold key_block. rewrite Hf.
  assert (object_key k ns (block_key_for_hash h) = (namespace_prefix k ns ++ BLOCK_KEY_PREFIX) ++ hex_lower h) as ->.
  { unfold object_key, namespace_prefix, block_key_for_hash. case_decide; by rewrite <- !app_assoc. }
  assert (len (hex_lower h) = 64) as Hl by (unfold len; rewrite length_hex_lower, Hh; lia).
  rewrite slice_app_end.
  - rewrite Hl, decide_True by done. by rewrite decode_hex32_hex_lower.
  - unfold block_key_infix. rewrite !len_app. change (len (lit "/")) with 1. lia.
  - rewrite len_app. done.
Qed.

(** After a bootstrap from the object store the index knows exactly the
    blocks it knew before and the blocks named by the keys listed under the
    namespace: every block stored under its canonical key is among them, and the
    number returned is the number of listed keys that name a block. *)
Theorem bootstrap_indexes_bucket {S H} `{!ObjectStore S, !ObjectStoreLaws S, !HybridCache H, !Zstd}
    now ns (k k' : WombatKVKvStore S H) n :
  bootstrap_world_knowledge now ns k = (k', Ok n) ->
  (forall h, is_Some (entries (kv_index k') !! h) <->
     is_Some (entries (kv_index k) !! h) \/
     exists key, is_Some (contents (kv_object_store k) !! key) /\
                 starts_with (namespace_prefix k ns) key = true /\ key_block key = Some (Some h)) /\
  (forall h, is_hash h ->
     find block_key_infix (object_key k ns (block_key_for_hash h)) = Some (len (namespace_prefix k ns) - 1) ->
     is_Some (contents (kv_object_store k) !! object_key k ns (block_key_for_hash h)) ->
     is_Some (entries (kv_index k') !! h)) /\
  (exists keys, NoDup keys /\
     (forall key, key ∈ keys <-> is_Some (contents (kv_object_store k) !! key) /\
                                 starts_with (namespace_prefix k ns) key = true) /\
     n = len (omap (fun key => mjoin (key_block key)) keys)).
Proof.
  unfold bootstrap_world_knowledge, on_store. destruct (list_prefix _ _) as [s' [keys|e]] eqn:E; run_res; [|done].
  destruct (list_prefix_law _ _ _ _ E) as [_ Hk]. destruct (Hk keys eq_refl) as [Hnd Hin].
  pose proof (index_keys_entries now keys (kv_index k) 0 [] 0) as He.
  pose proof (index_keys_count now keys (kv_index k) 0 [] 0) as Hc.
  cbn [kv_index set_store]. destruct (index_keys _ _ _ _ _ _) as [[[i b] sc] sk]. cbn [fst snd] in *.
  intros [= <- <-]. rewrite prewarm_index. cbn [kv_index set_index].
  assert (forall h, is_Some (entries i !! h) <->
     is_Some (entries (kv_index k) !! h) \/
     exists key, is_Some (contents (kv_object_store k) !! key) /\
                 starts_with (namespace_prefix k ns) key = true /\ key_block key = Some (Some h)) as Hiff.
  { intros h. rewrite He. setoid_rewrite Hin. naive_solver. }
  split; [done|]. split.
  - intros h Hh Hf Hs. apply Hiff. right. eexists. split; [done|]. split; [|by apply key_block_of_block].
    apply starts_with_spec. exists (block_key_for_hash h). unfold object_key, namespace_prefix.
    case_decide; by rewrite <- !app_assoc.
  - exists keys. split; [done|]. split; [done|lia].
Qed.

Lemma bootstrap_indexes_bucket_witness :
  let h := replicate 32 xab in
  let k := fst (put_kv (H0 := store_codec) (lit "ns") (block_key_for_hash h) (lit "payload") sample_store) in
  is_Some (entries (kv_index (fst (bootstrap_world_knowledge (H0 := store_codec) 5 (lit "ns") k))) !! h).
Proof.
  intros h k.
  refine (proj1 (proj2 (@bootstrap_indexes_bucket InMemoryObjectStore MapCache _ _ _ store_codec 5 (lit "ns") k
              (fst (bootstrap_world_knowledge (H0 := store_codec) 5 (lit "ns") k)) 1 _)) h _ _ _).
  - apply injective_projections; [reflexivity|vm_compute; reflexivity].
  - reflexivity.
  - vm_compute. reflexivity.
  - eexists. vm_compute. reflexivity.
Defined.

(** ** Listings and the bootstrap from SlateDB *)

(** The relative listing of a namespace: exactly the keys whose objects exist,
    each once. *)
Lemma list_kv_keys_exact {S H} `{!ObjectStore S, !ObjectStoreLaws S, !HybridCache H}
    ns (k k' : WombatKVKvStore S H) ks :
  list_kv_keys ns k = (k', Ok ks) ->
  forall key, key ∈ ks <-> is_Some (contents (kv_object_store k) !! (namespace_prefix k ns ++ key)).
Proof.
  unfold list_kv_keys, on_store. destruct (list_prefix _ _) as [s' [keys|e]] eqn:E; run_res; [|done].
  destruct (list_prefix_law _ _ _ _ E) as [_ Hk]. destruct (Hk keys eq_refl) as [_ Hin].
  intros [= <- <-] key. rewrite list_elem_of_omap. split.
  - intros (full & Hf & Hs%strip_prefix_Some). subst full. by apply Hin in Hf as [? _].
  - intros Hs. exists (namespace_prefix k ns ++ key). rewrite strip_prefix_app. split; [|done].
    apply Hin. split; [done|apply starts_with_app].
Qed.

(** What the SlateDB index holds is added to the in-memory index, whose own
    entries, with their access stamps, are kept. *)
Lemma bootstrap_from_slatedb_adds {S H I} `{!HybridCache H, !MetadataIndex I, !MetadataIndexLaws I}
    (k : WombatKVKvStore S H) (i : I) m :
  idx_repr i m ->
  exists i', bootstrap_from_slatedb (k, i) =
    ((set_index (mkInMemoryMetadataIndex (entries (kv_index k) ∪ m)) k, i'), Ok (Z.of_nat (size m))) /\ idx_repr i' m.
Proof.
  intros Hr. unfold bootstrap_from_slatedb. destruct (law_entries i m Hr) as (i' & l & -> & Hp & Hr').
  exists i'. split; [|done]. assert (list_to_map l = m) as Hl.
  { rewrite <- (list_to_map_to_list m). apply list_to_map_proper; [|done].
    rewrite Hp. apply NoDup_fst_map_to_list. }
  assert (InMem.bulk_load l (kv_index k) = mkInMemoryMetadataIndex (entries (kv_index k) ∪ m)) as ->.
  { rewrite <- Hl, <- bulk_load_entries. by destruct (InMem.bulk_load l (kv_index k)). }
  do 2 f_equal. unfold len. by rewrite Hp, length_map_to_list.
Qed.

(** ** What the operations leave alone

    The settings and the metadata index: only bootstrap changes the latter. *)
Section Frame.
Context {S : Type} `{!ObjectStore S} {H : Type} `{!HybridCache H} `{!Zstd}.
Abbreviation KvStore := (WombatKVKvStore S H).

Definition kv_meta (k : KvStore) : str * bool * BlockCompressionConfig * InMemoryMetadataIndex :=
  (kv_s3_prefix k, kv_write_through_s3 k, kv_compression k, kv_index k).

Lemma on_store_meta {A} (c : M S WalStoreError A) (k : KvStore) : kv_meta (fst (on_store c k)) = kv_meta k.
Proof. unfold on_store. by destruct (c _). Qed.
Lemma put_kv_meta ns key v (k : KvStore) : kv_meta (fst (put_kv ns key v k)) = kv_meta k.
Proof.
  unfold put_kv. destruct (encode_for_storage _ _ _) as [w|e]; [|done].
  destruct (kv_write_through_s3 _); [by rewrite on_store_meta|].
  pose proof (on_store_meta (put_object (object_key k ns key) w)
    (set_foyer (foyer_put (cache_key k ns key) v (kv_foyer k)) (set_flat (flat_put (cache_key k ns key) v (kv_flat k)) k))) as E.
  by destruct (on_store _ _) as [k' r].
Qed.
Lemma get_kv_meta ns key (k : KvStore) : kv_meta (fst (get_kv ns key k)) = kv_meta k.
Proof.
  unfold get_kv. destruct (flat_get _ _) as [c1 [[v1 l1]|]]; [done|].
  destruct (foyer_get_with_tier _ _) as [f1 [[v2 t2]|]]; [done|].
  by destruct (get_object _ _) as [s1 [b|[]]].
Qed.
Lemma exists_kv_meta ns key (k : KvStore) : kv_meta (fst (exists_kv ns key k)) = kv_meta k.
Proof. unfold exists_kv. destruct (foyer_contains _ _); [done|]. apply on_store_meta. Qed.
Lemma list_kv_keys_meta ns (k : KvStore) : kv_meta (fst (list_kv_keys ns k)) = kv_meta k.
Proof.
  unfold list_kv_keys. pose proof (on_store_meta (list_prefix (namespace_prefix k ns)) k) as E.
  by destruct (on_store _ _).
Qed.
Lemma restore_loop_meta keys n (k : KvStore) : kv_meta (fst (restore_loop keys n k)) = kv_meta k.
Proof.
  revert n k. induction keys as [|key keys IH]; intros n k; [done|]. cbn [restore_loop].
  destruct (get_object key _) as [s1 [b|[]]]; try done; by rewrite IH.
Qed.
Lemma restore_meta ns (k : KvStore) : kv_meta (fst (restore_from_s3 ns k)) = kv_meta k.
Proof.
  unfold restore_from_s3, st_bind, list_namespace.
  pose proof (on_store_meta (list_prefix (namespace_prefix k ns)) k) as E.
  destruct (on_store _ _) as [k1 [keys|e]]; [|done]. by rewrite restore_loop_meta.
Qed.
Lemma delete_kv_meta ns key (k : KvStore) : kv_meta (fst (delete_kv ns key k)) = kv_meta k.
Proof. unfold delete_kv. by rewrite on_store_meta. Qed.

Lemma meta_object_key (k k' : KvStore) ns key : kv_meta k' = kv_meta k -> object_key k' ns key = object_key k ns key.
Proof. intros [= E _ _ _]. unfold object_key. by rewrite E. Qed.
End Frame.
Create Rewrite HintDb frame.
#[export] Hint Rewrite @put_kv_meta @get_kv_meta @exists_kv_meta @list_kv_keys_meta @restore_meta @delete_kv_meta : frame.
