(* ===== verification/Durable.v ===== *)
(** * What stays in the object store

    A companion of [Embed]: no operation but a delete takes an object away, none
    makes a reliable store unreliable, and on a reliable store a put written
    through leaves its object behind. *)

From S2P Require Import Prelude Order Text ObjectStore Compression BlobCache Foyer BlockMeta Embed.

Section Durable.
Context {S : Type} `{!ObjectStore S, !ObjectStoreLaws S, !ReliableStore S} {H : Type} `{!HybridCache H} `{!Zstd}.
Abbreviation KvStore := (WombatKVKvStore S H).

(** Objects are kept, and so is reliability. *)
Definition objects_kept (k k' : KvStore) : Prop :=
  (forall x, is_Some (contents (kv_object_store k) !! x) -> is_Some (contents (kv_object_store k') !! x)) /\
  (reliable (kv_object_store k) -> reliable (kv_object_store k')).
#[export] Instance objects_kept_preorder : PreOrder objects_kept.
Proof. split; [by intros k|]. intros k1 k2 k3 [H1 R1] [H2 R2]. split; auto. Qed.
Lemma objects_kept_same (k k' : KvStore) : kv_object_store k' = kv_object_store k -> objects_kept k k'.
Proof. intros E. split; by rewrite E. Qed.

(** A read of the store. *)
Lemma read_kept {A} (c : M S WalStoreError A) s s' r :
  c s = (s', r) -> (forall s' r, c s = (s', r) -> contents s' = contents s) ->
  (reliable s -> exists s' r, c s = (s', r) /\ reliable s') ->
  (forall x, is_Some (contents s !! x) -> is_Some (contents s' !! x)) /\ (reliable s -> reliable s').
Proof.
  intros E Hc Hr. split; [intros x; by rewrite (Hc s' r E)|]. intros R. destruct (Hr R) as (s1 & r1 & E1 & R1). congruence.
Qed.
Lemma get_object_kept key s s' r :
  get_object key s = (s', r) ->
  (forall x, is_Some (contents s !! x) -> is_Some (contents s' !! x)) /\ (reliable s -> reliable s').
Proof.
  intros E. apply (read_kept (get_object key) s s' r E); [by intros ? ? [? _]%get_object_law|].
  intros (s1 & ? & ?)%(reliable_get key). eauto.
Qed.
Lemma on_store_kept {A} (c : M S WalStoreError A) (k : KvStore) :
  (forall s s' r, c s = (s', r) -> contents s' = contents s) ->
  (forall s, reliable s -> exists s' r, c s = (s', r) /\ reliable s') -> objects_kept k (fst (on_store c k)).
Proof.
  intros Hc Hr. unfold on_store. destruct (c (kv_object_store k)) as [s' r] eqn:E.
  destruct (read_kept c _ _ _ E) as [? ?]; [eauto..|]. by split.
Qed.

Lemma get_kv_kept ns key (k : KvStore) : objects_kept k (fst (get_kv ns key k)).
Proof.
  unfold get_kv. destruct (flat_get _ _) as [c1 [[v1 l1]|]]; [by apply objects_kept_same|].
  destruct (foyer_get_with_tier _ _) as [f1 [[v2 t2]|]]; [by apply objects_kept_same|].
  destruct (get_object _ _) as [s1 r1] eqn:E. apply get_object_kept in E.
  destruct r1 as [b|[]]; exact E.
Qed.
Lemma list_kept p (k : KvStore) : objects_kept k (fst (on_store (list_prefix p) k)).
Proof.
  apply on_store_kept; [by intros ? ? ? [? _]%list_prefix_law|]. intros s (s' & ks & ? & ?)%(reliable_list p). eauto.
Qed.
Lemma exists_kv_kept ns key (k : KvStore) : objects_kept k (fst (exists_kv ns key k)).
Proof.
  unfold exists_kv. destruct (foyer_contains _ _); [done|].
  apply on_store_kept; [by intros ? ? ? [? _]%head_object_law|]. intros s (s' & ? & ?)%(reliable_head (object_key k ns key)). eauto.
Qed.
Lemma list_kv_keys_kept ns (k : KvStore) : objects_kept k (fst (list_kv_keys ns k)).
Proof.
  unfold list_kv_keys. pose proof (list_kept (namespace_prefix k ns) k) as Hk. by destruct (on_store _ _).
Qed.
Lemma restore_loop_kept keys n (k : KvStore) : objects_kept k (fst (restore_loop keys n k)).
Proof.
  revert n k. induction keys as [|key keys IH]; intros n k; [done|]. cbn [restore_loop].
  destruct (get_object key _) as [s1 r1] eqn:E. apply get_object_kept in E.
  assert (objects_kept k (set_store s1 k)) as Hs by exact E.
  destruct r1 as [b|[]]; try done; (etransitivity; [exact Hs|]); (etransitivity; [|apply IH]); done.
Qed.
Lemma restore_kept ns (k : KvStore) : objects_kept k (fst (restore_from_s3 ns k)).
Proof.
  unfold restore_from_s3, st_bind, list_namespace. pose proof (list_kept (namespace_prefix k ns) k) as Hk.
  destruct (on_store _ _) as [k1 [keys|e]]; [|done]. etransitivity; [exact Hk|]. apply restore_loop_kept.
Qed.

(** What one write does. *)
Lemma put_object_kept ok w (k : KvStore) :
  objects_kept k (fst (on_store (put_object ok w) k)) /\
  (reliable (kv_object_store k) ->
   exists k', on_store (put_object ok w) k = (k', Ok tt) /\ is_Some (contents (kv_object_store k') !! ok)).
Proof.
  unfold on_store. destruct (put_object ok w (kv_object_store k)) as [s' r] eqn:E. cbn [fst].
  destruct (put_object_law _ _ _ _ _ E) as [Hor Hin].
  assert (reliable (kv_object_store k) -> r = Ok tt /\ reliable s') as Hr.
  { intros (s1 & E1 & R1)%(reliable_put ok w). rewrite E in E1. injection E1 as -> ->. done. }
  split.
  - split; [|intros R; by apply Hr]. intros x Hx. cbn [kv_object_store set_store].
    destruct Hor as [-> | ->]; [done|]. apply lookup_insert_is_Some'. by right.
  - intros R. destruct (Hr R) as [-> R']. eexists. split; [reflexivity|]. cbn [kv_object_store set_store].
    destruct (contents (kv_object_store k) !! ok) as [b|] eqn:Eb.
    + destruct Hor as [-> | ->]; [by exists b|]. rewrite lookup_insert_eq. eauto.
    + rewrite Hin by done. rewrite lookup_insert_eq. eauto.
Qed.

Lemma put_kv_kept ns key v (k : KvStore) : objects_kept k (fst (put_kv ns key v k)).
Proof.
  unfold put_kv. destruct (encode_for_storage _ _ _) as [w|e]; [|by apply objects_kept_same].
  set (k1 := set_foyer _ _). assert (objects_kept k k1) as H1 by (by apply objects_kept_same).
  pose proof (proj1 (put_object_kept (object_key k ns key) w k1)) as H2.
  destruct (kv_write_through_s3 k1); [by etransitivity|].
  destruct (on_store _ _) as [k2 r]. by etransitivity.
Qed.

(** On a reliable store a put of an encodable payload, written through, succeeds
    and leaves its object. *)
Lemma put_kv_durable ns key v (k : KvStore) :
  reliable (kv_object_store k) -> kv_write_through_s3 k = true ->
  is_ok (encode_for_storage v (kv_compression k) key) = true ->
  exists k', put_kv ns key v k = (k', Ok tt) /\ is_Some (contents (kv_object_store k') !! object_key k ns key).
Proof.
  intros Hr Hw He. unfold put_kv. cbn [kv_compression kv_write_through_s3 set_foyer set_flat].
  destruct (encode_for_storage _ _ _) as [w|e]; [|done]. rewrite Hw. by apply put_object_kept.
Qed.
End Durable.
