(* ===== verification/Prefetch.v ===== *)
(** * The block prefetcher ([block_prefetch.rs])

    Models [crates/wombatkv-node/src/block_prefetch.rs]: the scoring formula, the
    selection cycle [run_cycle], the fetching cycle [run_cycle_v2] and the trait
    [PrefetchFetcher]; the loops that repeat them are in [Worker].  Floating-point
    arithmetic is the parameter [F64Ops], with the order of non-NaN numbers as
    its law.  The clock, the values the stop flag is read with and the duration
    of each fetch are arguments.

    The theorems show that the [top_k] best-scored blocks are selected, that a
    more recently used block never loses to an older one of the same kind, that
    the counters account for every selected block, and that a completed cycle
    leaves every selected block that could be fetched in the flat tier. *)

From S2P Require Import Prelude Order Hex BlockMeta ObjectStore Compression BlobCache Foyer Worker Lru Embed.

Record PrefetchConfig := mkPrefetchConfig {
  pf_interval_ms : Z; top_k : nat; active_model : bytes; pf_namespace : str
}.
Definition default_prefetch_config : PrefetchConfig := mkPrefetchConfig 500 8 (replicate 24 x00) [].
(** Milliseconds. *)
Definition FETCH_WALLCLOCK_CAP : Z := 5000.

(** The operations on [f64] the score uses; [f_of_ratio a b] is the literal or
    quotient [a / b]. *)
Class F64Ops (F : Type) := {
  f_of_ratio (a b : Z) : F;
  f_ln2 : F;
  f_of_u64 (z : Z) : F;
  f_add (x y : F) : F;
  f_mul (x y : F) : F;
  f_div (x y : F) : F;
  f_neg (x : F) : F;
  f_exp (x : F) : F;
  f_cmp (x y : F) : option comparison;
  f_nan (x : F) : bool
}.
(** [partial_cmp] is a total order on numbers that are not NaN. *)
Class F64Order (F : Type) `{!F64Ops F} := {
  f_cmp_some x y : f_nan x = false -> f_nan y = false -> is_Some (f_cmp x y);
  f_cmp_antisym x y : f_cmp y x = CompOpp <$> f_cmp x y;
  f_cmp_trans x y z : f_nan y = false ->
    f_cmp x y <> Some Gt -> f_cmp y z <> Some Gt -> f_cmp x z <> Some Gt
}.
(** Rounded addition and multiplication and [exp] preserve order. *)
Class F64Monotone (F : Type) `{!F64Ops F} := {
  f_le (x y : F) : Prop := exists c, f_cmp x y = Some c /\ c <> Gt;
  f_of_u64_mono x y : 0 <= x <= y -> f_le (f_of_u64 x) (f_of_u64 y);
  f_decay_antitone x y : f_le x y ->
    f_le (f_mul (f_neg (f_div f_ln2 (f_of_ratio 600000000000 1))) y)
         (f_mul (f_neg (f_div f_ln2 (f_of_ratio 600000000000 1))) x);
  f_exp_mono x y : f_le x y -> f_le (f_exp x) (f_exp y);
  f_weight_mono x y : f_le x y -> f_le (f_mul (f_of_ratio 1 1) x) (f_mul (f_of_ratio 1 1) y);
  f_add_mono x y z : f_nan z = false -> f_le x y -> f_le (f_add x z) (f_add y z)
}.

Section Score.
Context {F : Type} `{!F64Ops F}.

Definition score_block (meta : BlockMeta) (now : Z) (model : bytes) : F :=
  let decay := f_div f_ln2 (f_of_ratio 600000000000 1) in
  let age_ns := f_of_u64 (saturating_sub now (last_access_ns meta)) in
  let recency := f_exp (f_mul (f_neg decay) age_ns) in
  let chain_bonus := if decide (block_seq meta = 0) then f_of_ratio 1 1 else f_of_ratio 0 1 in
  let model_bonus := if decide (model_digest meta = model) then f_of_ratio 1 1 else f_of_ratio 0 1 in
  f_add (f_add (f_mul (f_of_ratio 1 1) recency) (f_mul (f_of_ratio 3 10) chain_bonus))
        (f_mul (f_of_ratio 2 10) model_bonus).

Record PrefetchPlan := mkPrefetchPlan { scored : Z; selected : list (bytes * BlockMeta * F) }.

(** [b.2.partial_cmp(&a.2).unwrap_or(Equal)] *)
Definition score_cmp (a b : bytes * BlockMeta * F) : comparison := default Eq (f_cmp (snd b) (snd a)).

(** [run_cycle], a panic of the index apart; the elapsed time is left out. *)
Definition pf_run_cycle {I} `{!MetadataIndex I} (now : Z) (config : PrefetchConfig) : M I str PrefetchPlan :=
  fun i =>
    let (i, r) := idx_entries i in
    match r with
    | Err e => (i, Err e)
    | Ok snapshot =>
        let scored_entries := map (fun hm => (fst hm, snd hm, score_block (snd hm) now (active_model config))) snapshot in
        (i, Ok (mkPrefetchPlan (len snapshot) (take (top_k config) (sort_by score_cmp scored_entries))))
    end.

(** [spawn_worker]: the scoring cycle in a loop with slices of 25 ms; the world is
    the index and the plans emitted. *)
Definition prefetch_worker_step {I} `{!MetadataIndex I} (now : Z) (config : PrefetchConfig)
  : WorkerThread (I * list PrefetchPlan) -> WorkerThread (I * list PrefetchPlan) :=
  worker_step (fun '(i, emitted) =>
                 let (i, r) := pf_run_cycle now config i in
                 match r with Ok plan => ((i, emitted ++ [plan]), true) | Err _ => ((i, emitted), false) end)
    (pf_interval_ms config) 25.
End Score.
Arguments PrefetchPlan : clear implicits.

(** The trait. *)
Class PrefetchFetcher (D : Type) := {
  contains_flat (namespace key : str) : D -> D * bool;
  fetch_block (namespace key : str) : M D str (option Z)
}.

Record PrefetchFetchOutcome := mkPrefetchFetchOutcome {
  o_scored : Z; o_selected : Z; skipped_already_flat : Z; fetched : Z; failed : Z; bytes_materialized : Z
}.
(** The counters of the fetch loop. *)
Record FetchCounts := mkFetchCounts { n_skipped : Z; n_fetched : Z; n_failed : Z; n_bytes : Z }.

Section Fetch.
Context {F : Type} `{!F64Ops F} {D : Type} `{!PrefetchFetcher D}.

(** The fetch loop: [stop n] is what the [n]-th test of the stop flag reads and
    [cost n] the milliseconds the fetch of the [n]-th block takes. *)
Fixpoint fetch_loop (stop : nat -> bool) (cost : nat -> Z) (n : nat) (namespace : str)
    (todo : list (bytes * BlockMeta * F)) (c : FetchCounts) (d : D) : D * FetchCounts :=
  match todo with
  | [] => (d, c)
  | (hash, _, _) :: rest =>
      if stop n then (d, c) else
      let key := block_key_for_hash hash in
      let (d, flat) := contains_flat namespace key d in
      if flat then
        fetch_loop stop cost (S n) namespace rest
          (mkFetchCounts (n_skipped c + 1) (n_fetched c) (n_failed c) (n_bytes c)) d
      else
        let (d, r) := fetch_block namespace key d in
        match r with
        | Ok (Some bytes_len) =>
            let c := mkFetchCounts (n_skipped c) (n_fetched c + 1) (n_failed c) (saturating_add (n_bytes c) bytes_len) in
            if decide (cost n > FETCH_WALLCLOCK_CAP) then (d, c)
            else fetch_loop stop cost (S n) namespace rest c d
        | Ok None | Err _ =>
            fetch_loop stop cost (S n) namespace rest
              (mkFetchCounts (n_skipped c) (n_fetched c) (n_failed c + 1) (n_bytes c)) d
        end
  end.

Definition run_cycle_v2 {I} `{!MetadataIndex I} (now : Z) (stop : nat -> bool) (cost : nat -> Z)
    (config : PrefetchConfig) : M (I * D) str PrefetchFetchOutcome :=
  fun '(i, d) =>
    let (i, r) := pf_run_cycle (F := F) now config i in
    match r with
    | Err e => ((i, d), Err e)
    | Ok plan =>
        let (d, c) := fetch_loop stop cost 0 (pf_namespace config) (selected plan) (mkFetchCounts 0 0 0 0) d in
        ((i, d), Ok (mkPrefetchFetchOutcome (scored plan) (len (selected plan)) (n_skipped c) (n_fetched c)
                       (n_failed c) (n_bytes c)))
    end.

(** [spawn_worker_v2] *)
Definition prefetch_worker_v2_step {I} `{!MetadataIndex I} (now : Z) (stop : nat -> bool) (cost : nat -> Z)
    (config : PrefetchConfig)
  : WorkerThread (I * D * list PrefetchFetchOutcome) -> WorkerThread (I * D * list PrefetchFetchOutcome) :=
  worker_step (fun '(w, emitted) =>
                 let (w, r) := run_cycle_v2 now stop cost config w in
                 match r with Ok out => ((w, emitted ++ [out]), true) | Err _ => ((w, emitted), false) end)
    (pf_interval_ms config) 25.
End Fetch.

(** [dry_run_enabled] *)
Definition dry_run_enabled (env : str -> option str) : bool :=
  match env (lit "WMBT_KV_PREFETCH_DRY_RUN") with
  | Some v => bool_decide (v ∈ [lit "1"; lit "true"; lit "TRUE"; lit "yes"; lit "on"])
  | None => false
  end.

(** The store's fetcher. *)
#[global] Instance kv_store_fetcher {S H} `{!ObjectStore S, !HybridCache H, !Zstd} (debug : WalStoreError -> str) :
  PrefetchFetcher (WombatKVKvStore S H) := {|
  contains_flat := kv_contains_flat;
  fetch_block := kv_fetch_block debug
|}.

(** ** Selection *)

(** Sorting a list on which the comparison behaves. *)
Lemma sort_by_sorted_on {A} (cmp : A -> A -> comparison) (P : A -> Prop) l :
  (forall x y, P x -> P y -> cmp x y = Gt -> cmp_le cmp y x) ->
  (forall x y z, P x -> P y -> P z -> cmp_le cmp x y -> cmp_le cmp y z -> cmp_le cmp x z) ->
  Forall P l -> StronglySorted (cmp_le cmp) (sort_by cmp l).
Proof.
  intros Htot Htrans. induction 1 as [|x l Hx Hl IH]; cbn [sort_by foldr]; [constructor|].
  fold (sort_by cmp l). assert (Forall P (sort_by cmp l)) as Hs by (by rewrite sort_by_perm).
  revert IH. generalize dependent (sort_by cmp l). intros s Hs. clear l Hl.
  induction Hs as [|y s Hy Hs IHs]; intros Hsort; cbn [insert_by]; [repeat constructor|].
  inversion Hsort as [|? ? Hs' Hys]; subst. rewrite Forall_forall in Hs.
  destruct (cmp x y) eqn:E.
  - constructor; [done|]. rewrite Forall_forall in Hys. apply Forall_forall. intros z Hz.
    assert (cmp_le cmp x y) by (unfold cmp_le; by rewrite E).
    apply elem_of_cons in Hz as [->|Hz]; [done|]. apply (Htrans x y z); auto.
  - constructor; [done|]. rewrite Forall_forall in Hys. apply Forall_forall. intros z Hz.
    assert (cmp_le cmp x y) by (unfold cmp_le; by rewrite E).
    apply elem_of_cons in Hz as [->|Hz]; [done|]. apply (Htrans x y z); auto.
  - constructor; [by apply IHs|]. rewrite insert_by_perm. apply Forall_cons. split; [by apply Htot|done].
Qed.

Section Selection.
Context {F : Type} `{!F64Ops F} `{!F64Order F}.

Lemma score_cmp_sorted (l : list (bytes * BlockMeta * F)) :
  Forall (fun e => f_nan (snd e) = false) l -> StronglySorted (cmp_le score_cmp) (sort_by score_cmp l).
Proof.
  apply (sort_by_sorted_on score_cmp (fun e => f_nan (snd e) = false)); unfold cmp_le, score_cmp.
  - intros x y _ _. rewrite (f_cmp_antisym (snd x) (snd y)). by destruct (f_cmp (snd x) (snd y)) as [[]|].
  - intros x y z Hx Hy Hz H1 H2.
    assert (forall a b : F, default Eq (f_cmp a b) <> Gt <-> f_cmp a b <> Some Gt) as Hd.
    { intros a b. destruct (f_cmp a b) as [[]|]; naive_solver. }
    apply Hd in H1, H2. apply Hd. by apply (f_cmp_trans _ (snd y)).
Qed.

(** A scoring cycle over an index that meets the contract reads every entry
    once and selects the [top_k] best ones, or all of them when there are fewer:
    each selected entry is an entry of the index with its score, no entry is
    selected twice, and no entry left out scores higher than a selected one, as
    long as no score is NaN. *)
Theorem prefetch_selects_top_k {I} `{!MetadataIndex I} `{!MetadataIndexLaws I} now config (i : I) m :
  idx_repr i m ->
  (forall h meta, m !! h = Some meta -> f_nan (score_block (F := F) meta now (active_model config)) = false) ->
  exists i' plan, pf_run_cycle (F := F) now config i = (i', Ok plan) /\ idx_repr i' m /\
    scored plan = Z.of_nat (size m) /\
    length (selected plan) = Nat.min (top_k config) (size m) /\
    NoDup (map (fun e => fst (fst e)) (selected plan)) /\
    (forall h meta s, (h, meta, s) ∈ selected plan ->
       m !! h = Some meta /\ s = score_block meta now (active_model config) /\
       forall h' meta', m !! h' = Some meta' -> h' ∉ map (fun e => fst (fst e)) (selected plan) ->
         f_cmp (score_block meta' now (active_model config)) s <> Some Gt).
Proof.
  intros Hr Hnan. unfold pf_run_cycle. destruct (law_entries i m Hr) as (i' & l & -> & Hp & Hr').
  set (score := fun hm : bytes * BlockMeta => (fst hm, snd hm, score_block (F := F) (snd hm) now (active_model config))).
  set (sorted := sort_by score_cmp (map score l)).
  assert (sorted ≡ₚ map score l) as Hps by apply sort_by_perm.
  assert (length sorted = size m) as Hlen by (rewrite Hps, length_map, Hp; apply length_map_to_list).
  assert (NoDup (map (fun e => fst (fst e)) sorted)) as Hnd.
  { rewrite Hps, map_map. cbn. change (map (fun x => fst x) l) with (map fst l). rewrite Hp. apply NoDup_fst_map_to_list. }
  assert (forall h meta s, (h, meta, s) ∈ sorted <-> m !! h = Some meta /\ s = score_block meta now (active_model config)) as Hin.
  { intros h meta s. rewrite Hps, list_elem_of_fmap. unfold score. setoid_rewrite Hp. split.
    - intros ([h0 m0] & [= -> -> ->] & Hm%elem_of_map_to_list). done.
    - intros [Hm ->]. exists (h, meta). split; [done|]. by apply elem_of_map_to_list. }
  assert (StronglySorted (cmp_le score_cmp) sorted) as Hss.
  { apply score_cmp_sorted, Forall_forall. intros e (hm & -> & He)%list_elem_of_fmap.
    rewrite Hp in He. destruct hm as [h meta]. apply elem_of_map_to_list in He. by apply (Hnan h). }
  eexists i', _. split; [reflexivity|]. split; [done|]. cbn [scored selected].
  split; [unfold len; by rewrite Hp, length_map_to_list|]. split; [by rewrite length_take, Hlen|]. split.
  { rewrite <- (take_drop (top_k config) sorted), map_app in Hnd. by apply NoDup_app in Hnd as (? & _ & _). }
  intros h meta s Hsel. assert ((h, meta, s) ∈ sorted) as Hs by (rewrite <- (take_drop (top_k config) sorted); set_solver).
  apply Hin in Hs as [Hm ->]. split; [done|]. split; [done|]. intros h' meta' Hm' Hnot.
  assert ((h', meta', score_block meta' now (active_model config)) ∈ drop (top_k config) sorted) as Hd.
  { assert ((h', meta', score_block meta' now (active_model config)) ∈ sorted) as Hx by (by apply Hin).
    rewrite <- (take_drop (top_k config) sorted) in Hx. apply elem_of_app in Hx as [Hx|Hx]; [|done].
    destruct Hnot. apply list_elem_of_fmap. by eexists (_, _, _). }
  rewrite <- (take_drop (top_k config) sorted) in Hss.
  pose proof (sorted_app_le score_cmp _ _ _ _ Hss Hsel Hd) as Hle.
  unfold cmp_le, score_cmp in Hle. cbn [snd] in Hle. intros E. by rewrite E in Hle.
Qed.
End Selection.

(** A block used more recently than another of the same chain position and model
    does not score lower. *)
Lemma recent_scores_higher {F} `{!F64Ops F, !F64Monotone F} m1 m2 now model :
  last_access_ns m1 <= last_access_ns m2 <= now -> block_seq m1 = block_seq m2 -> model_digest m1 = model_digest m2 ->
  (forall z b : Z, f_nan (f_mul (f_of_ratio (F := F) z 10) (f_of_ratio b 1)) = false) ->
  f_le (score_block (F := F) m1 now model) (score_block m2 now model).
Proof.
  intros Ht Hs Hd Hn. unfold score_block. rewrite Hs, Hd.
  apply f_add_mono; [case_decide; apply Hn|]. apply f_add_mono; [case_decide; apply Hn|].
  apply f_weight_mono, f_exp_mono, f_decay_antitone, f_of_u64_mono. unfold saturating_sub. lia.
Qed.

(** ** Fetching *)

(** What the worker relies on: a test that says yes, and a fetch that returns a
    block, leave it in the flat tier, and neither takes a block out of it, as long
    as the tier's file system works ([fetcher_ok]). *)
Class PrefetchFetcherLaws (D : Type) `{!PrefetchFetcher D} := {
  fetcher_ok : D -> Prop;
  in_flat : str -> str -> D -> Prop;
  contains_flat_law ns key d d' b :
    fetcher_ok d -> contains_flat ns key d = (d', b) ->
    fetcher_ok d' /\ (forall ns' key', in_flat ns' key' d -> in_flat ns' key' d') /\ (b = true -> in_flat ns key d');
  fetch_block_law ns key d d' r :
    fetcher_ok d -> fetch_block ns key d = (d', r) ->
    fetcher_ok d' /\ (forall ns' key', in_flat ns' key' d -> in_flat ns' key' d') /\
    (forall n, r = Ok (Some n) -> in_flat ns key d')
}.

Section FetchSpec.
Context {F : Type} `{!F64Ops F} {D : Type} `{!PrefetchFetcher D} `{!PrefetchFetcherLaws D}.

(** The number of blocks the loop dealt with. *)
Definition handled (c : FetchCounts) : Z := n_skipped c + n_fetched c + n_failed c.

Lemma fetch_loop_spec stop cost n ns (todo : list (bytes * BlockMeta * F)) c d d' c' :
  fetcher_ok d -> fetch_loop stop cost n ns todo c d = (d', c') ->
  (forall ns' key', in_flat ns' key' d -> in_flat ns' key' d') /\
  exists p, (p <= length todo)%nat /\ handled c' = handled c + Z.of_nat p /\
    n_failed c <= n_failed c' /\
    ((forall j, stop j = false /\ cost j <= FETCH_WALLCLOCK_CAP) -> p = length todo) /\
    (n_failed c' = n_failed c ->
     forall h m s, (h, m, s) ∈ take p todo -> in_flat ns (block_key_for_hash h) d').
Proof.
  revert n c d. induction todo as [|[[h m] s] todo IH]; intros n c d Hok; cbn [fetch_loop].
  { intros [= <- <-]. split; [done|]. exists 0%nat. cbn. split; [lia|]. split; [lia|]. split; [lia|].
    split; [done|]. intros _ h m s Hin. by apply elem_of_nil in Hin. }
  destruct (stop n) eqn:Es.
  { intros [= <- <-]. split; [done|]. exists 0%nat. cbn. split; [lia|]. split; [lia|]. split; [lia|]. split.
    - intros Hg. destruct (Hg n). congruence.
    - intros _ h' m' s' Hin. by apply elem_of_nil in Hin. }
  destruct (contains_flat ns (block_key_for_hash h) d) as [d1 b] eqn:Ec.
  destruct (contains_flat_law _ _ _ _ _ Hok Ec) as (Hok1 & Hmono1 & Hb).
  assert (forall d2 c2 f, fetcher_ok d2 ->
    (forall ns' key', in_flat ns' key' d -> in_flat ns' key' d2) ->
    handled c2 = handled c + 1 -> n_failed c2 = n_failed c + f -> 0 <= f ->
    (f = 0 -> in_flat ns (block_key_for_hash h) d2) ->
    fetch_loop stop cost (S n) ns todo c2 d2 = (d', c') ->
    (forall ns' key', in_flat ns' key' d -> in_flat ns' key' d') /\
    exists p, (p <= S (length todo))%nat /\ handled c' = handled c + Z.of_nat p /\
      n_failed c <= n_failed c' /\
      ((forall j, stop j = false /\ cost j <= FETCH_WALLCLOCK_CAP) -> p = S (length todo)) /\
      (n_failed c' = n_failed c ->
       forall h' m' s', (h', m', s') ∈ take p ((h, m, s) :: todo) -> in_flat ns (block_key_for_hash h') d')) as Hrec.
  { intros d2 c2 f Hok2 Hmono2 Hh Hf Hf0 Hin E.
    destruct (IH _ _ _ Hok2 E) as (Hmono & p & Hp & Hhp & Hfl & Hfull & Hall). split; [auto|].
    exists (S p). split; [lia|]. split; [lia|]. split; [lia|]. split.
    - intros Hg. by rewrite Hfull.
    - intros Heq h' m' s' Hx. cbn [take] in Hx. apply elem_of_cons in Hx as [[= -> -> ->]|Hx].
      + apply Hmono, Hin. lia.
      + apply (Hall ltac:(lia) h' m' s' Hx). }
  destruct b.
  { apply (Hrec d1 _ 0 Hok1); [auto|unfold handled; cbn; lia|cbn; lia|lia|auto]. }
  destruct (fetch_block ns (block_key_for_hash h) d1) as [d2 r] eqn:Ef.
  destruct (fetch_block_law _ _ _ _ _ Hok1 Ef) as (Hok2 & Hmono2 & Hr).
  destruct r as [[sz|]|e].
  - case_decide as Hcost.
    + intros [= <- <-]. split; [auto|]. exists 1%nat. cbn [length handled n_skipped n_fetched n_failed].
      split; [lia|]. split; [unfold handled; cbn; lia|]. split; [lia|]. split.
      * intros Hg. destruct (Hg n). lia.
      * intros _ h' m' s' Hx. cbn in Hx. apply list_elem_of_singleton in Hx as [= -> -> ->]. by apply (Hr sz).
    + apply (Hrec d2 _ 0 Hok2); [auto|unfold handled; cbn; lia|cbn; lia|lia|intros _; by apply (Hr sz)].
  - apply (Hrec d2 _ 1 Hok2); [auto|unfold handled; cbn; lia|cbn; lia|lia|lia].
  - apply (Hrec d2 _ 1 Hok2); [auto|unfold handled; cbn; lia|cbn; lia|lia|lia].
Qed.

(** The counters of a fetching cycle account for the blocks it dealt with,
    never more than were selected; a cycle that is not stopped and meets no slow
    fetch deals with all of them; and when it reports no failure, every block it
    dealt with is in the flat tier afterwards, so that a following cycle would
    skip it. *)
Theorem prefetch_cycle_accounts {I} `{!MetadataIndex I} now stop cost config (i i' : I) (d d' : D) out :
  fetcher_ok d ->
  run_cycle_v2 (F := F) now stop cost config (i, d) = ((i', d'), Ok out) ->
  exists plan, snd (pf_run_cycle (F := F) now config i) = Ok plan /\
    o_selected out = len (selected plan) /\ o_scored out = scored plan /\
    let p := skipped_already_flat out + fetched out + failed out in
    0 <= p <= o_selected out /\
    ((forall j, stop j = false /\ cost j <= FETCH_WALLCLOCK_CAP) -> p = o_selected out) /\
    (failed out = 0 -> forall h m s, (h, m, s) ∈ take (Z.to_nat p) (selected plan) ->
       in_flat (pf_namespace config) (block_key_for_hash h) d').
Proof.
  intros Hok. unfold run_cycle_v2. destruct (pf_run_cycle now config i) as [i1 [plan|e]]; [|done].
  destruct (fetch_loop _ _ _ _ _ _ _) as [d1 c1] eqn:E. intros [= <- <- <-].
  destruct (fetch_loop_spec _ _ _ _ _ _ _ _ _ Hok E) as (_ & p & Hp & Hh & _ & Hfull & Hall).
  exists plan. cbn [snd o_selected o_scored skipped_already_flat fetched failed].
  split; [done|]. split; [done|]. split; [done|]. unfold handled in Hh. cbn in Hh. cbv zeta.
  rewrite Hh. unfold len. split; [lia|]. split.
  - intros Hg. rewrite Hfull by done. lia.
  - intros Hf. rewrite Z.add_0_l, Nat2Z.id. apply Hall. done.
Qed.
End FetchSpec.

(** ** The store meets the fetcher's contract *)
Section KvFetcher.
Context {S H : Type} `{!ObjectStore S, !HybridCache H, !Zstd} (debug : WalStoreError -> str).
Abbreviation KvStore := (WombatKVKvStore S H).

Definition flat_works (k : KvStore) : Prop := faults (kv_flat k) = [] /\ root_present (kv_flat k) = true.
Definition kv_in_flat (ns key : str) (k : KvStore) : Prop := is_Some (visible (kv_flat k) (cache_key k ns key)).

Lemma flat_put_keeps ck v c k' : is_Some (visible c k') -> is_Some (visible (flat_put ck v c) k').
Proof. intros Hv. by destruct (flat_put_visible ck v c k') as [->|[_ ->]]. Qed.

Lemma flat_put_in ck v c :
  faults c = [] -> root_present c = true -> is_Some (visible (flat_put ck v c) ck).
Proof. intros Hf R. destruct (flat_put_no_fault ck v c Hf R) as (_ & _ & Hv). rewrite Hv. by rewrite decide_True. Qed.

Lemma kv_contains_flat_ok ns key (k k' : KvStore) b :
  flat_works k -> kv_contains_flat ns key k = (k', b) ->
  flat_works k' /\ (forall ns' key', kv_in_flat ns' key' k -> kv_in_flat ns' key' k') /\ (b = true -> kv_in_flat ns key k').
Proof.
  intros [Hf R]. unfold kv_contains_flat. destruct (flat_contains _ _) as [c b'] eqn:E. intros [= <- <-].
  destruct (flat_contains_visible _ _ _ _ E) as (_ & Hb & Hc). destruct (Hc Hf) as [-> _].
  unfold flat_works, kv_in_flat. by cbn.
Qed.

Lemma kv_fetch_block_ok ns key (k k' : KvStore) r :
  flat_works k -> kv_fetch_block debug ns key k = (k', r) ->
  flat_works k' /\ (forall ns' key', kv_in_flat ns' key' k -> kv_in_flat ns' key' k') /\
  (forall n, r = Ok (Some n) -> kv_in_flat ns key k').
Proof.
  intros [Hf R]. unfold kv_fetch_block, get_kv, flat_works, kv_in_flat.
  destruct (flat_get _ _) as [c1 r1] eqn:E1.
  destruct (flat_get_visible _ _ _ _ E1) as (Hv1 & Hr1 & Hn1). destruct (Hn1 Hf) as (Hf1 & R1 & _).
  rewrite R in R1. destruct r1 as [[v1 l1]|].
  { intros [= <- <-]. cbn [kv_flat set_flat]. split; [done|]. split.
    - intros ns' key'. by rewrite Hv1.
    - intros n _. rewrite Hv1. exists v1. exact (Hr1 v1 l1 eq_refl). }
  cbn [kv_foyer set_flat]. destruct (foyer_get_with_tier _ _) as [f1 r2].
  assert (forall v, faults (flat_put (cache_key k ns key) v c1) = [] /\
                    root_present (flat_put (cache_key k ns key) v c1) = true) as Hput.
  { intros v. destruct (flat_put_no_fault (cache_key k ns key) v c1 Hf1 R1) as (? & ? & _). done. }
  assert (forall v k', is_Some (visible (kv_flat k) k') -> is_Some (visible (flat_put (cache_key k ns key) v c1) k')) as Hkeep.
  { intros v j Hj. apply flat_put_keeps. by rewrite Hv1. }
  destruct r2 as [[v2 t2]|].
  { intros [= <- <-]. cbn [kv_flat set_flat set_foyer]. split; [apply Hput|]. split; [intros; by apply Hkeep|].
    intros n _. by apply flat_put_in. }
  cbn [kv_object_store set_foyer set_flat]. destruct (get_object _ _) as [s1 [b|e]].
  - intros [= <- <-]. cbn [kv_flat set_flat set_foyer set_store]. split; [apply Hput|]. split; [intros; by apply Hkeep|].
    intros n _. by apply flat_put_in.
  - assert (forall ns' key', is_Some (visible (kv_flat k) (cache_key k ns' key')) ->
                             is_Some (visible c1 (cache_key k ns' key'))) as Hsame by (intros; by rewrite Hv1).
    destruct e; intros [= <- <-]; cbn [kv_flat set_flat set_foyer set_store]; by repeat split.
Qed.

#[global] Program Instance kv_store_fetcher_laws : @PrefetchFetcherLaws KvStore (kv_store_fetcher debug) := {|
  fetcher_ok := flat_works;
  in_flat := kv_in_flat
|}.
Next Obligation. exact kv_contains_flat_ok. Qed.
Next Obligation. exact kv_fetch_block_ok. Qed.
End KvFetcher.

(** *** Rational numbers in place of [f64], with the identity in place of [exp] *)
From Stdlib Require Import QArith.
Local Open Scope Z_scope.
#[global] Instance q_ops : F64Ops Q := {|
  f_of_ratio a b := (inject_Z a / inject_Z b)%Q; f_ln2 := (7 # 10)%Q; f_of_u64 := inject_Z;
  f_add := Qplus; f_mul := Qmult; f_div := Qdiv; f_neg := Qopp; f_exp x := x;
  f_cmp x y := Some (Qcompare x y); f_nan _ := false
|}.
#[global] Instance q_order : F64Order Q.
Proof.
  split.
  - intros x y _ _. by eexists.
  - intros x y. cbn. by rewrite <- (Qcompare_antisym x y).
  - intros x y z _ H1 H2. cbn in *.
    assert (forall a b : Q, (a <= b)%Q <-> Some (a ?= b)%Q <> Some Gt) as Hle.
    { intros a b. rewrite Qle_alt. split; congruence. }
    apply Hle in H1, H2. apply Hle. by apply (Qle_trans x y z).
Qed.

Definition pf_sample_index : InMemoryMetadataIndex := mkInMemoryMetadataIndex (list_to_map lru_sample).
Definition pf_sample_config : PrefetchConfig := mkPrefetchConfig 500 2 (replicate 24 x02) (lit "ns").

Lemma prefetch_selects_top_k_witness :
  exists i' plan, pf_run_cycle (F := Q) 100 pf_sample_config pf_sample_index = (i', Ok plan) /\
    idx_repr i' (entries pf_sample_index) /\ length (selected plan) = 2%nat.
Proof.
  destruct (prefetch_selects_top_k (F := Q) 100 pf_sample_config pf_sample_index (entries pf_sample_index))
    as (i' & plan & E & Hr & _ & Hl & _).
  - reflexivity.
  - reflexivity.
  - exists i', plan. split; [exact E|]. split; [exact Hr|]. rewrite Hl. vm_compute. reflexivity.
Defined.

(** Block 1, the most recently used, and block 3 are selected. *)
Example prefetch_sample_selection :
  match snd (pf_run_cycle (F := Q) 100 pf_sample_config pf_sample_index) with
  | Ok plan => map (fun e => fst (fst e)) (selected plan) = [replicate 32 x01; replicate 32 x03]
  | Err _ => False
  end.
Proof. vm_compute. reflexivity. Qed.

(** The store holds block 1 in the object store only; block 3 is unknown to it. *)
Definition pf_sample_store : WombatKVKvStore InMemoryObjectStore MapCache :=
  clear_foyer (clear_flat_cache
    (fst (put_kv (H0 := store_codec) (lit "ns") (block_key_for_hash (replicate 32 x01)) (lit "payload") sample_store))).
Definition pf_fetch_config : PrefetchConfig := mkPrefetchConfig 500 1 (replicate 24 x02) (lit "ns").
Definition pf_sample_cycle :=
  run_cycle_v2 (F := Q) (D := WombatKVKvStore InMemoryObjectStore MapCache)
    (PrefetchFetcher0 := kv_store_fetcher (H0 := store_codec) (fun _ => []))
    100 (fun _ => false) (fun _ => 3) pf_fetch_config (pf_sample_index, pf_sample_store).
Lemma pf_sample_outcome : snd pf_sample_cycle = Ok (mkPrefetchFetchOutcome 3 1 0 1 0 7).
Proof. vm_compute. reflexivity. Qed.
Lemma pf_sample_plan plan :
  snd (pf_run_cycle (F := Q) 100 pf_fetch_config pf_sample_index) = Ok plan ->
  exists m s, selected plan = [(replicate 32 x01, m, s)].
Proof. vm_compute. intros [= <-]. eexists _, _. reflexivity. Qed.

Lemma prefetch_cycle_accounts_witness :
  kv_in_flat (lit "ns") (block_key_for_hash (replicate 32 x01)) (snd (fst pf_sample_cycle)).
Proof.
  pose proof pf_sample_outcome as Hout. destruct pf_sample_cycle as [[i' d'] r] eqn:E. cbn [fst snd] in *. subst r.
  destruct (prefetch_cycle_accounts (F := Q) (D := WombatKVKvStore InMemoryObjectStore MapCache)
              (PrefetchFetcher0 := kv_store_fetcher (H0 := store_codec) (fun _ => []))
              (PrefetchFetcherLaws0 := kv_store_fetcher_laws (H0 := store_codec) (fun _ => []))
              100 (fun _ => false) (fun _ => 3) pf_fetch_config pf_sample_index i' pf_sample_store d'
              (mkPrefetchFetchOutcome 3 1 0 1 0 7)) as (plan & Hplan & _ & _ & _ & _ & Hall).
  - by split.
  - exact E.
  - destruct (pf_sample_plan plan Hplan) as (m & s & Hsel).
    apply (Hall eq_refl (replicate 32 x01) m s). rewrite Hsel. left.
Defined.
