(* ===== verification/Envelope.v ===== *)
(** * The wire envelope ([envelope.rs])

    Models [crates/wombatkv-daemon/src/envelope.rs]: the sixteen-byte header
    around every frame of the TCP and HTTP transports.  The CRC-32C of the crate
    [crc32c] is a parameter; all that is used of it is that it is a [u32].

    The theorem shows that the decoder accepts exactly the encoder's outputs and
    agrees with the two-step reading of streams. *)

From S2P Require Import Prelude.

Definition WIRE_ENVELOPE_MAGIC : bytes := lit "WMBT".
Definition WIRE_ENVELOPE_VERSION : Z := 1.
Definition WIRE_ENVELOPE_BYTES : Z := 16.

Inductive EnvelopeError :=
| TooShort (got need : Z)
| EnvBadMagic (got : bytes)
| BadVersion (got want : Z)
| BadLength (header_len actual_body_bytes : Z)
| BadCrc (header_crc computed_crc : Z).

Record EnvelopeHeader := mkEnvelopeHeader { crc : Z; env_len : Z }.

Class Crc32c := {
  crc32c (body : bytes) : Z;
  crc32c_range body : in_u32 (crc32c body)
}.

Section Envelope.
Context `{!Crc32c}.

(** [None] is the panic on a body of 4 GiB or more. *)
Definition encode_envelope (body : bytes) : option bytes :=
  match u32_try_from (len body) with
  | None => None
  | Some body_len =>
      Some (WIRE_ENVELOPE_MAGIC ++ le_bytes 4 WIRE_ENVELOPE_VERSION ++ le_bytes 4 (crc32c body)
              ++ le_bytes 4 body_len ++ body)
  end.

(** The argument is the first sixteen bytes. *)
Definition decode_envelope_header (header : bytes) : result EnvelopeHeader EnvelopeError :=
  let magic := slice 0 4 header in
  if decide (magic <> WIRE_ENVELOPE_MAGIC) then Err (EnvBadMagic magic) else
  let version := le_at 4 4 header in
  if decide (version <> WIRE_ENVELOPE_VERSION) then Err (BadVersion version WIRE_ENVELOPE_VERSION) else
  Ok (mkEnvelopeHeader (le_at 4 8 header) (le_at 4 12 header)).

Definition verify_envelope_crc (header : EnvelopeHeader) (body : bytes) : result unit EnvelopeError :=
  if decide (len body <> env_len header) then Err (BadLength (env_len header) (len body)) else
  let computed := crc32c body in
  if decide (computed <> crc header) then Err (BadCrc (crc header) computed) else Ok tt.

Definition decode_envelope (bs : bytes) : result bytes EnvelopeError :=
  if decide (len bs < WIRE_ENVELOPE_BYTES) then Err (TooShort (len bs) WIRE_ENVELOPE_BYTES) else
  let? header := decode_envelope_header (slice 0 WIRE_ENVELOPE_BYTES bs) in
  let? body_end := ok_or (checked_add WIRE_ENVELOPE_BYTES (env_len header))
                     (BadLength (env_len header) (saturating_sub (len bs) WIRE_ENVELOPE_BYTES)) in
  if decide (len bs <> body_end) then Err (BadLength (env_len header) (len bs - WIRE_ENVELOPE_BYTES)) else
  let body := slice WIRE_ENVELOPE_BYTES body_end bs in
  let? _ := verify_envelope_crc header body in
  Ok body.

Lemma len_envelope_magic : len WIRE_ENVELOPE_MAGIC = 4.
Proof. reflexivity. Qed.
#[local] Hint Rewrite len_envelope_magic : wmbt.

(** The header bytes of a body. *)
Definition envelope_header (version c n : Z) : bytes :=
  WIRE_ENVELOPE_MAGIC ++ le_bytes 4 version ++ le_bytes 4 c ++ le_bytes 4 n.

Lemma len_envelope_header v c n : len (envelope_header v c n) = 16.
Proof. unfold envelope_header. solve_len. Qed.

Lemma decode_header_layout c n :
  in_u32 c -> in_u32 n ->
  decode_envelope_header (envelope_header WIRE_ENVELOPE_VERSION c n) = Ok (mkEnvelopeHeader c n).
Proof.
  intros [??] [??]. unfold decode_envelope_header, envelope_header, WIRE_ENVELOPE_VERSION.
  rewrite slice_app_start by solve_len. rewrite decide_False by (intros Hx; by apply Hx).
  rewrite (le_at_skip 4 4) by solve_len. replace (4 - len WIRE_ENVELOPE_MAGIC) with 0 by solve_len.
  rewrite le_at_here by (cbn; lia). rewrite decide_False by (intros Hx; by apply Hx).
  f_equal. f_equal; read_le; done.
Qed.

(** A header that decodes has the layout. *)
Lemma decode_header_sound header h :
  len header = 16 -> decode_envelope_header header = Ok h ->
  in_u32 (crc h) /\ in_u32 (env_len h) /\ header = envelope_header WIRE_ENVELOPE_VERSION (crc h) (env_len h).
Proof.
  intros Hl. unfold decode_envelope_header. case_decide as Hm; [done|]. case_decide as Hv; [done|].
  intros <-%Ok_inj. cbn [crc env_len].
  assert (slice 0 4 header = WIRE_ENVELOPE_MAGIC) as Hm' by (destruct (decide (slice 0 4 header = WIRE_ENVELOPE_MAGIC)); [done|tauto]).
  assert (le_at 4 4 header = WIRE_ENVELOPE_VERSION) as Hv' by lia.
  pose proof (le_at_range 4 8 header ltac:(lia) ltac:(lia)) as H1.
  pose proof (le_at_range 4 12 header ltac:(lia) ltac:(lia)) as H2.
  split; [unfold in_u32; cbn in H1; lia|]. split; [unfold in_u32; cbn in H2; lia|].
  unfold envelope_header. rewrite <- Hm', <- Hv'. rewrite !le_bytes_at by lia. cbn [Z.of_nat Pos.of_succ_nat Pos.succ].
  rewrite !slice_slice_split by lia. symmetry. apply slice_all. done.
Qed.

Lemma encode_envelope_eq body :
  encode_envelope body =
  if decide (len body <= u32_max)
  then Some (envelope_header WIRE_ENVELOPE_VERSION (crc32c body) (len body) ++ body) else None.
Proof.
  unfold encode_envelope, u32_try_from, envelope_header. case_decide; [|done]. by rewrite <- !app_assoc.
Qed.

(** The decoder accepts exactly the encoder's outputs: [decode_envelope]
    returns a body from some bytes if and only if they are the body's envelope,
    nothing more and nothing less; and the streaming reading, header first and
    then a body of the announced length, accepts exactly the same frames. *)
Theorem envelope_codec_exact w body :
  (decode_envelope w = Ok body <-> encode_envelope body = Some w) /\
  (encode_envelope body = Some w <->
   exists h, len w = WIRE_ENVELOPE_BYTES + env_len h /\
     decode_envelope_header (slice 0 WIRE_ENVELOPE_BYTES w) = Ok h /\
     body = slice WIRE_ENVELOPE_BYTES (len w) w /\ verify_envelope_crc h body = Ok tt).
Proof.
  assert (encode_envelope body = Some w ->
    exists h, len w = WIRE_ENVELOPE_BYTES + env_len h /\
     decode_envelope_header (slice 0 WIRE_ENVELOPE_BYTES w) = Ok h /\
     body = slice WIRE_ENVELOPE_BYTES (len w) w /\ verify_envelope_crc h body = Ok tt) as Henc.
  { rewrite encode_envelope_eq. case_decide as Hl; [|done]. intros <-%(inj Some).
    pose proof (len_nonneg body). pose proof (crc32c_range body).
    exists (mkEnvelopeHeader (crc32c body) (len body)). unfold WIRE_ENVELOPE_BYTES.
    rewrite len_app, len_envelope_header. cbn [env_len]. split; [done|].
    split; [rewrite slice_app_start by (by rewrite len_envelope_header); by apply decode_header_layout|].
    split; [symmetry; apply slice_app_end; by rewrite len_envelope_header|].
    unfold verify_envelope_crc. cbn [env_len crc]. by rewrite !decide_False by lia. }
  assert (forall h, len w = WIRE_ENVELOPE_BYTES + env_len h ->
     decode_envelope_header (slice 0 WIRE_ENVELOPE_BYTES w) = Ok h ->
     body = slice WIRE_ENVELOPE_BYTES (len w) w -> verify_envelope_crc h body = Ok tt ->
     encode_envelope body = Some w /\ decode_envelope w = Ok body) as Hdec.
  { unfold WIRE_ENVELOPE_BYTES. intros h Hl Hh Hb Hv.
    assert (0 <= env_len h) as Hn.
    { unfold verify_envelope_crc in Hv. case_decide; [done|]. pose proof (len_nonneg body). lia. }
    destruct (decode_header_sound _ _ (eq_trans (length_slice_le 0 16 w ltac:(lia) ltac:(lia)) eq_refl) Hh) as (Hc & Hlen & Hhdr).
    split.
    - rewrite encode_envelope_eq. unfold verify_envelope_crc in Hv. case_decide as Hd1; [done|]. case_decide as Hd2; [done|].
      unfold in_u32 in Hlen. rewrite decide_True by lia. f_equal.
      replace (len body) with (env_len h) by lia. replace (crc32c body) with (crc h) by lia.
      rewrite <- Hhdr, Hb. rewrite slice_slice_split by lia. by apply slice_all.
    - unfold decode_envelope, WIRE_ENVELOPE_BYTES. rewrite decide_False by lia. rewrite Hh. run_res.
      unfold checked_add. unfold in_u32 in Hlen. rewrite decide_True by lia. run_res.
      rewrite decide_False by lia. rewrite <- Hl, <- Hb, Hv. done. }
  split; split.
  - unfold decode_envelope. case_decide; [done|].
    destruct (decode_envelope_header _) as [h|e] eqn:Hh; run_res; [|done].
    unfold checked_add. case_decide as Hc; run_res; [|done]. case_decide as Hl; [done|].
    destruct (verify_envelope_crc _ _) as [[]|e] eqn:Hv; run_res; [|done]. intros Hb%Ok_inj.
    apply (Hdec h); [lia|done| |by rewrite <- Hb].
    rewrite <- Hb. f_equal. lia.
  - intros E. destruct (Henc E) as (h & H1 & H2 & H3 & H4). by apply (Hdec h).
  - apply Henc.
  - intros (h & H1 & H2 & H3 & H4). by apply (Hdec h).
Qed.
End Envelope.

(** A checksum that meets the interface. *)
Definition sum_crc : Crc32c.
Proof.
  refine {| crc32c body := foldl (fun a b => wrap32 (a + byte_to_Z b)) 0 body |}.
  intros body. assert (0 <= 0 < 4294967296) as H by lia. revert H. generalize 0 at 2 3 4.
  induction body as [|b body IH]; intros z Hz; cbn [foldl]; [unfold in_u32; lia|].
  apply IH. unfold wrap32. apply Z.mod_pos_bound. lia.
Defined.
Example envelope_of_x :
  @encode_envelope sum_crc (lit "x") = Some (lit "WMBT" ++ le_bytes 4 1 ++ le_bytes 4 120 ++ le_bytes 4 1 ++ lit "x").
Proof. reflexivity. Qed.
