(* ===== verification/Wire.v ===== *)
(** * The daemon's payload codecs ([lib.rs] of [wombatkv-daemon])

    Models the codec part of [crates/wombatkv-daemon/src/lib.rs]: the key and
    bytes batches of the batched GET, the block-shaped request and response
    payloads (a magic and an rkyv body, rkyv being a parameter), the
    shared-memory segment names and their length budget, and the frame check.

    The theorems show that the batch decoders accept exactly the encoders'
    outputs, that block payloads round trip and are never taken for those of
    another operation, and which daemon prefixes are accepted. *)

From S2P Require Import Prelude.

Definition KEY_BATCH_MAGIC : bytes := lit "WMBT_KV_KEYS_V1" ++ [x00].
Definition BYTES_BATCH_MAGIC : bytes := lit "WMBT_KV_BYTES_V1" ++ [x00].
Definition pad4 : bytes := [x00; x00; x00; x00].
Definition LOOKUP_BLOCK_PREFIX_REQ_MAGIC : bytes := lit "WMBT_LBP_REQ" ++ pad4.
Definition LOOKUP_BLOCK_PREFIX_RESP_MAGIC : bytes := lit "WMBT_LBP_RES" ++ pad4.
Definition GET_KV_BLOCKS_BATCH_REQ_MAGIC : bytes := lit "WMBT_GBB_REQ" ++ pad4.
Definition GET_KV_BLOCKS_BATCH_RESP_MAGIC : bytes := lit "WMBT_GBB_RES" ++ pad4.
Definition PUT_KV_BLOCKS_BATCH_REQ_MAGIC : bytes := lit "WMBT_PBB_REQ" ++ pad4.
Definition PUT_KV_BLOCKS_BATCH_RESP_MAGIC : bytes := lit "WMBT_PBB_RES" ++ pad4.

(** [enum WireCodecError]; of the UTF-8 error the bytes that caused it are kept,
    of the rkyv error its text, of the segment-name message its parts. *)
Inductive WireCodecError :=
| Truncated (what : str) (needed at_ got : Z)
| BadMagic (op : str) (expected : bytes) (got_len : Z) (got : bytes)
| LengthOverflow (what : str)
| TrailingBytes (what : str) (extra : Z)
| BodyLengthMismatch (what : str) (claimed actual : Z)
| Utf8 (what : str) (source : bytes)
| Rkyv (op : str) (source : str)
| SegmentNameBudget (derived_name prefix : str) (max_prefix : Z).

(** [str::from_utf8(s).is_ok()]: the well-formed byte sequences of Unicode. *)
Definition between (lo hi : Z) (b : byte) : bool :=
  bool_decide (lo <= byte_to_Z b) && bool_decide (byte_to_Z b <= hi).
Fixpoint utf8_valid (s : bytes) : bool :=
  match s with
  | [] => true
  | a :: s1 =>
      if between 0 127 a then utf8_valid s1 else
      match s1 with
      | [] => false
      | b :: s2 =>
          if between 194 223 a then between 128 191 b && utf8_valid s2 else
          match s2 with
          | [] => false
          | c :: s3 =>
              if between 224 239 a then
                between (if decide (byte_to_Z a = 224) then 160 else 128)
                        (if decide (byte_to_Z a = 237) then 159 else 191) b
                && between 128 191 c && utf8_valid s3
              else
                match s3 with
                | [] => false
                | d :: s4 =>
                    between 240 244 a
                    && between (if decide (byte_to_Z a = 240) then 144 else 128)
                               (if decide (byte_to_Z a = 244) then 143 else 191) b
                    && between 128 191 c && between 128 191 d && utf8_valid s4
                end
          end
      end
  end.

(** [bad magic] with what was found in its place. *)
Definition bad_magic (op : str) (magic payload : bytes) : WireCodecError :=
  let got_len := Z.min (len magic) (len payload) in
  BadMagic op magic got_len (slice 0 got_len payload).

Definition read_u32 (payload : bytes) (cursor : Z) : result (Z * Z) WireCodecError :=
  let? stop := ok_or (checked_add cursor 4) (LengthOverflow (lit "u32_cursor")) in
  if decide (stop > len payload) then Err (Truncated (lit "u32") 4 cursor (len payload)) else
  Ok (le_at 4 cursor payload, stop).

(** *** Key batches *)
Definition encode_key (key : str) : bytes := le_bytes 4 (wrap32 (len key)) ++ key.
Definition encode_key_batch (keys : list str) : bytes :=
  KEY_BATCH_MAGIC ++ le_bytes 4 (wrap32 (len keys)) ++ concat (map encode_key keys).

(** The [for _ in 0..count] loop; every round consumes at least four bytes, so
    [S (length payload)] rounds are enough ([key_loop_total]). *)
Fixpoint key_loop (fuel : nat) (payload : bytes) (count cursor : Z) (keys : list str)
  : option (result (list str * Z) WireCodecError) :=
  if decide (count <= 0) then Some (Ok (keys, cursor)) else
  match fuel with
  | O => None
  | S fuel' =>
      match read_u32 payload cursor with
      | Err e => Some (Err e)
      | Ok (n, cursor) =>
          match checked_add cursor n with
          | None => Some (Err (LengthOverflow (lit "key_batch")))
          | Some stop =>
              if decide (stop > len payload)
              then Some (Err (Truncated (lit "key_batch") n cursor (len payload)))
              else if negb (utf8_valid (slice cursor stop payload)) then Some (Err (Utf8 (lit "key_batch") (slice cursor stop payload)))
              else key_loop fuel' payload (count - 1) stop (keys ++ [slice cursor stop payload])
          end
      end
  end.
Definition decode_key_batch (payload : bytes) : result (list str) WireCodecError :=
  if negb (starts_with KEY_BATCH_MAGIC payload) then Err (bad_magic (lit "key_batch") KEY_BATCH_MAGIC payload) else
  let? (count, cursor) := read_u32 payload (len KEY_BATCH_MAGIC) in
  match key_loop (S (length payload)) payload count cursor [] with
  | None => Err (LengthOverflow (lit "key_batch"))
  | Some r =>
      let? (keys, cursor) := r in
      if decide (cursor <> len payload) then Err (TrailingBytes (lit "key_batch") (len payload - cursor)) else Ok keys
  end.

(** *** Bytes batches *)
Definition encode_bytes_batch (items : list bytes) : bytes :=
  BYTES_BATCH_MAGIC ++ le_bytes 4 (wrap32 (len items)) ++ concat (map (fun item => le_bytes 4 (wrap32 (len item))) items)
    ++ concat items.

(** The loop that reads the lengths, with fuel likewise ([lengths_loop_total]). *)
Fixpoint lengths_loop (fuel : nat) (data : bytes) (count cursor : Z) (lengths : list Z)
  : option (result (list Z * Z) WireCodecError) :=
  if decide (count <= 0) then Some (Ok (lengths, cursor)) else
  match fuel with
  | O => None
  | S fuel' =>
      match read_u32 data cursor with
      | Err e => Some (Err e)
      | Ok (n, cursor) => lengths_loop fuel' data (count - 1) cursor (lengths ++ [n])
      end
  end.
(** [try_fold(0usize, checked_add)] *)
Fixpoint checked_sum (acc : Z) (l : list Z) : option Z :=
  match l with
  | [] => Some acc
  | n :: l' => match checked_add acc n with Some acc => checked_sum acc l' | None => None end
  end.
(** The slicing loop. *)
Fixpoint slice_items (batch : bytes) (offset : Z) (lengths : list Z) : list bytes :=
  match lengths with
  | [] => []
  | n :: rest => slice offset (offset + n) batch :: slice_items batch (offset + n) rest
  end.
Definition decode_bytes_batch (batch : bytes) : result (list bytes) WireCodecError :=
  if negb (starts_with BYTES_BATCH_MAGIC batch) then Err (bad_magic (lit "bytes_batch") BYTES_BATCH_MAGIC batch) else
  let? (count, cursor) := read_u32 batch (len BYTES_BATCH_MAGIC) in
  match lengths_loop (S (length batch)) batch count cursor [] with
  | None => Err (LengthOverflow (lit "bytes_batch"))
  | Some r =>
      let? (lengths, body_start) := r in
      let? body_len := ok_or (checked_sum 0 lengths) (LengthOverflow (lit "bytes_batch")) in
      let? body_end := ok_or (checked_add body_start body_len) (LengthOverflow (lit "bytes_batch")) in
      if decide (body_end <> len batch) then Err (BodyLengthMismatch (lit "bytes_batch") body_end (len batch)) else
      Ok (slice_items batch body_start lengths)
  end.

Arguments KEY_BATCH_MAGIC : simpl never.
Arguments BYTES_BATCH_MAGIC : simpl never.
Lemma len_KEY_BATCH_MAGIC : len KEY_BATCH_MAGIC = 16.
Proof. reflexivity. Qed.
Lemma len_BYTES_BATCH_MAGIC : len BYTES_BATCH_MAGIC = 17.
Proof. reflexivity. Qed.
#[export] Hint Rewrite len_KEY_BATCH_MAGIC len_BYTES_BATCH_MAGIC : wmbt.

(** ** Reading lengths *)
Lemma read_u32_Ok p c n c' :
  read_u32 p c = Ok (n, c') -> c' = c + 4 /\ c + 4 <= len p /\ n = le_at 4 c p.
Proof.
  unfold read_u32, checked_add. case_decide; run_res; [|done]. case_decide; [done|]. intros [= <- <-]. lia.
Qed.

Lemma read_u32_here p c :
  0 <= c -> c + 4 <= len p -> len p <= u64_max -> read_u32 p c = Ok (le_at 4 c p, c + 4).
Proof.
  intros. unfold read_u32, checked_add. rewrite decide_True by lia. run_res. by rewrite decide_False by lia.
Qed.

(** A length field in a known layout. *)
Lemma read_u32_layout pre n post :
  in_u32 n -> len (pre ++ le_bytes 4 n ++ post) <= u64_max ->
  read_u32 (pre ++ le_bytes 4 n ++ post) (len pre) = Ok (n, len pre + 4).
Proof.
  intros [? ?] Hl. pose proof (len_nonneg pre). pose proof (len_nonneg post).
  rewrite read_u32_here; [|done|solve_len|done]. f_equal. f_equal. apply le_at_app. cbn. lia.
Qed.

Lemma u32_at p c : 0 <= c -> c + 4 <= len p -> in_u32 (le_at 4 c p).
Proof. intros. pose proof (le_at_range 4 c p ltac:(lia) ltac:(cbn; lia)) as Hr. cbn in Hr. unfold in_u32. lia. Qed.

Lemma wrap32_small z : in_u32 z -> wrap32 z = z.
Proof. unfold in_u32, wrap32. intros. apply Z.mod_small. lia. Qed.

(** ** Key batches *)
Definition key_ok (k : str) : Prop := utf8_valid k = true /\ len k <= u32_max.

Lemma key_loop_total p fuel count c keys :
  0 <= c <= len p -> len p - c < Z.of_nat fuel -> key_loop fuel p count c keys <> None.
Proof.
  revert count c keys. induction fuel as [|fuel IH]; intros count c keys Hc Hf; cbn [key_loop]; (case_decide; [done|]).
  - lia.
  - destruct (read_u32 p c) as [[n c']|e] eqn:E; [|done]. apply read_u32_Ok in E as (-> & Hl & ->).
    pose proof (u32_at p c ltac:(lia) Hl) as [? ?].
    destruct (checked_add (c + 4) _) as [stop|] eqn:Ea; [|done].
    case_decide; [done|]. destruct (negb _); [done|].
    unfold checked_add in Ea. case_decide; [|done]. injection Ea as <-. apply IH; lia.
Qed.

Lemma key_loop_encoded keys : forall fuel pre post acc,
  Forall key_ok keys -> (length keys <= fuel)%nat ->
  let p := pre ++ concat (map encode_key keys) ++ post in
  len p <= u64_max ->
  key_loop fuel p (len keys) (len pre) acc
  = Some (Ok (acc ++ keys, len pre + len (concat (map encode_key keys)))).
Proof.
  induction keys as [|k keys IH]; intros fuel pre post acc Hok Hf p Hp.
  { change (len (concat (map encode_key []))) with 0. change (len (@nil str)) with 0.
    rewrite app_nil_r, Z.add_0_r. by destruct fuel. }
  apply Forall_cons in Hok as [[Hu Hk] Hok]. destruct fuel as [|fuel]; [cbn in Hf; lia|].
  cbn [key_loop]. rewrite len_cons. pose proof (len_nonneg keys). rewrite decide_False by lia.
  assert (in_u32 (len k)) as Hin by (split; [apply len_nonneg|done]).
  set (rest := concat (map encode_key keys) ++ post).
  assert (p = pre ++ le_bytes 4 (len k) ++ k ++ rest) as Ep.
  { unfold p, rest. cbn [map concat]. unfold encode_key at 1. rewrite wrap32_small by done. by rewrite <- !app_assoc. }
  assert (p = (pre ++ le_bytes 4 (len k)) ++ k ++ rest) as Ep2 by (rewrite Ep; by rewrite <- !app_assoc).
  assert (p = (pre ++ le_bytes 4 (len k) ++ k) ++ rest) as Ep3 by (rewrite Ep; by rewrite <- !app_assoc).
  assert (len (pre ++ le_bytes 4 (len k)) = len pre + 4) as Hl1 by solve_len.
  assert (len pre + 4 + len k <= len p) as Hle.
  { rewrite Ep2. autorewrite with wmbt. pose proof (len_nonneg rest). cbn. lia. }
  pose proof (len_nonneg pre). pose proof (len_nonneg k).
  rewrite Ep at 1. rewrite read_u32_layout by (by rewrite <- ?Ep).
  unfold checked_add. rewrite decide_True by lia. rewrite decide_False by lia.
  assert (slice (len pre + 4) (len pre + 4 + len k) p = k) as ->.
  { rewrite Ep2. apply slice_app; lia. }
  rewrite Hu. cbn [negb]. replace (1 + len keys - 1) with (len keys) by lia.
  replace (len pre + 4 + len k) with (len (pre ++ le_bytes 4 (len k) ++ k)) by solve_len.
  rewrite Ep3. unfold rest. rewrite (IH fuel (pre ++ le_bytes 4 (len k) ++ k) post (acc ++ [k])).
  - rewrite <- app_assoc. cbn [app]. do 3 f_equal. cbn [map concat]. unfold encode_key at 2.
    autorewrite with wmbt. lia.
  - done.
  - cbn in Hf. lia.
  - fold rest. by rewrite <- Ep3.
Qed.

Lemma key_loop_sound p fuel : forall count c acc ks c',
  0 <= count -> 0 <= c <= len p ->
  key_loop fuel p count c acc = Some (Ok (ks, c')) ->
  exists keys, ks = acc ++ keys /\ len keys = count /\ c <= c' <= len p /\
    slice c c' p = concat (map encode_key keys) /\ Forall key_ok keys.
Proof.
  induction fuel as [|fuel IH]; intros count c acc ks c' Hn Hc; cbn [key_loop].
  { case_decide; [|done]. intros [= <- <-]. exists []. rewrite app_nil_r. unfold slice. rewrite Z.sub_diag.
    change (len (@nil str)) with 0. repeat split; try lia; constructor. }
  case_decide.
  { intros [= <- <-]. exists []. rewrite app_nil_r. unfold slice. rewrite Z.sub_diag.
    change (len (@nil str)) with 0. repeat split; try lia; constructor. }
  destruct (read_u32 p c) as [[n c1]|e] eqn:E; [|done]. apply read_u32_Ok in E as (-> & Hl & ->).
  pose proof (u32_at p c ltac:(lia) Hl) as Hin. set (n := le_at 4 c p) in *. destruct Hin as [Hn0 Hn1].
  unfold checked_add. case_decide as Ha; [|done]. case_decide as Hs; [done|].
  destruct (utf8_valid _) eqn:Hu; cbn [negb]; [|done]. intros Hk.
  assert (len (slice (c + 4) (c + 4 + n) p) = n) as Hlen by (rewrite length_slice_le; lia).
  apply IH in Hk as (keys & -> & Hcount & Hc' & Hslice & Hok); [|lia..].
  exists (slice (c + 4) (c + 4 + n) p :: keys). split; [by rewrite <- app_assoc|].
  split; [rewrite len_cons; lia|]. split; [lia|]. split.
  - cbn [map concat]. rewrite <- Hslice. unfold encode_key. rewrite Hlen, wrap32_small by (by split).
    unfold n. rewrite le_bytes_at by (cbn; lia). cbn [Z.of_nat Pos.of_succ_nat Pos.succ].
    rewrite <- app_assoc. fold n. rewrite !slice_slice_split by lia. done.
  - constructor; [|done]. split; [done|]. rewrite Hlen. lia.
Qed.

(** A key batch decodes to a list of keys exactly when it is the encoding of
    that list and the list can be encoded: every key valid UTF-8, the lengths and
    the count within [u32]; in particular every truncated, extended or otherwise
    altered batch that is not itself an encoding is rejected. *)
Theorem key_batch_codec_exact payload keys :
  len payload <= u64_max ->
  decode_key_batch payload = Ok keys <->
  payload = encode_key_batch keys /\ len keys <= u32_max /\ Forall key_ok keys.
Proof.
  intros Hp. split.
  - unfold decode_key_batch. destruct (starts_with _ _) eqn:Hm; cbn [negb]; [|done].
    apply starts_with_spec in Hm as [q Hq].
    destruct (read_u32 payload _) as [[n c]|e] eqn:E; run_res; [|done].
    apply read_u32_Ok in E as (-> & Hl & ->). rewrite len_KEY_BATCH_MAGIC in *.
    pose proof (u32_at payload 16 ltac:(lia) Hl) as Hn. change (16 + 4) with 20 in *.
    destruct (key_loop _ _ _ _ _) as [[[ks c]|e]|] eqn:Ek; run_res; [|done..].
    case_decide as Hc; [done|]. intros ->%Ok_inj. unfold in_u32 in Hn.
    apply key_loop_sound in Ek as (keys' & -> & Hcount & Hc' & Hslice & Hok); [|lia..]. cbn [app].
    split; [|split; [lia|done]]. unfold encode_key_batch. rewrite Hcount, wrap32_small by (unfold in_u32; lia).
    rewrite <- Hslice. rewrite le_bytes_at by (cbn; lia).
    replace KEY_BATCH_MAGIC with (slice 0 16 payload) by (rewrite Hq; by apply slice_app_start).
    change (16 + Z.of_nat 4) with 20. rewrite !slice_slice_split by lia. symmetry. apply slice_all. lia.
  - intros (-> & Hn & Hok). unfold decode_key_batch, encode_key_batch in *.
    assert (in_u32 (len keys)) as Hin by (split; [apply len_nonneg|done]). rewrite wrap32_small in * by done.
    rewrite starts_with_app. cbn [negb]. rewrite read_u32_layout by done. run_res.
    rewrite len_KEY_BATCH_MAGIC. change (16 + 4) with 20.
    set (p := KEY_BATCH_MAGIC ++ _) in *.
    assert (p = (KEY_BATCH_MAGIC ++ le_bytes 4 (len keys)) ++ concat (map encode_key keys) ++ []) as Ep
      by (unfold p; by rewrite app_nil_r, <- app_assoc).
    assert (20 = len (KEY_BATCH_MAGIC ++ le_bytes 4 (len keys))) as E20 by solve_len.
    assert (Z.of_nat (length keys) <= len (concat (map encode_key keys))) as Hk.
    { clear. induction keys as [|k keys IH]; [done|]. cbn [map concat length]. unfold encode_key at 1.
      autorewrite with wmbt. pose proof (len_nonneg k). lia. }
    assert (len p = 20 + len (concat (map encode_key keys))) as Hlp by (rewrite Ep; autorewrite with wmbt; cbn; lia).
    rewrite E20 at 1. rewrite Ep at 2. rewrite key_loop_encoded; [|done| |by rewrite <- Ep].
    + run_res. rewrite <- E20. by rewrite decide_False by lia.
    + unfold len in *. lia.
Qed.

Lemma key_batch_codec_exact_witness :
  decode_key_batch (encode_key_batch [lit "a"; lit "nested/key"]) = Ok [lit "a"; lit "nested/key"].
Proof.
  apply key_batch_codec_exact; [vm_compute; discriminate|]. split; [reflexivity|]. split; [vm_compute; discriminate|].
  repeat constructor; vm_compute; discriminate.
Defined.

(** ** Bytes batches *)
Definition encode_lengths (ns : list Z) : bytes := concat (map (le_bytes 4) ns).

Lemma len_encode_lengths ns : len (encode_lengths ns) = 4 * len ns.
Proof.
  induction ns as [|n ns IH]; [done|]. unfold encode_lengths in *. cbn [map concat].
  rewrite len_app, len_le_bytes, len_cons, IH. lia.
Qed.

Lemma lengths_loop_encoded ns : forall fuel pre post acc,
  Forall in_u32 ns -> (length ns <= fuel)%nat ->
  len (pre ++ encode_lengths ns ++ post) <= u64_max ->
  lengths_loop fuel (pre ++ encode_lengths ns ++ post) (len ns) (len pre) acc
  = Some (Ok (acc ++ ns, len pre + 4 * len ns)).
Proof.
  induction ns as [|n ns IH]; intros fuel pre post acc Hok Hf Hp.
  { change (len (@nil Z)) with 0. rewrite app_nil_r, Z.mul_0_r, Z.add_0_r. by destruct fuel. }
  apply Forall_cons in Hok as [Hn Hok]. destruct fuel as [|fuel]; [cbn in Hf; lia|].
  cbn [lengths_loop]. rewrite len_cons. pose proof (len_nonneg ns). rewrite decide_False by lia.
  assert (pre ++ encode_lengths (n :: ns) ++ post = pre ++ le_bytes 4 n ++ encode_lengths ns ++ post) as Ep
    by (unfold encode_lengths; cbn [map concat]; by rewrite <- !app_assoc).
  rewrite Ep in *. rewrite read_u32_layout by done.
  replace (1 + len ns - 1) with (len ns) by lia. rewrite app_assoc in *.
  replace (len pre + 4) with (len (pre ++ le_bytes 4 n)) by solve_len.
  rewrite (IH fuel (pre ++ le_bytes 4 n) post (acc ++ [n])); [|done|cbn in Hf; lia|done].
  rewrite <- app_assoc. cbn [app]. do 3 f_equal. solve_len.
Qed.

Lemma lengths_loop_total p fuel count c lengths :
  0 <= c <= len p -> len p - c < Z.of_nat fuel -> lengths_loop fuel p count c lengths <> None.
Proof.
  revert count c lengths. induction fuel as [|fuel IH]; intros count c lengths Hc Hf; cbn [lengths_loop];
    (case_decide; [done|]).
  - lia.
  - destruct (read_u32 p c) as [[n c']|e] eqn:E; [|done]. apply read_u32_Ok in E as (-> & Hl & ->). apply IH; lia.
Qed.

Lemma lengths_loop_sound p fuel : forall count c acc ls c',
  0 <= count -> 0 <= c <= len p ->
  lengths_loop fuel p count c acc = Some (Ok (ls, c')) ->
  exists ns, ls = acc ++ ns /\ len ns = count /\ c' = c + 4 * count /\ c' <= len p /\
    slice c c' p = encode_lengths ns /\ Forall in_u32 ns.
Proof.
  induction fuel as [|fuel IH]; intros count c acc ls c' Hn Hc; cbn [lengths_loop]; case_decide; try done.
  { intros [= <- <-]. exists []. rewrite app_nil_r. unfold slice. rewrite Z.sub_diag.
    change (len (@nil Z)) with 0. repeat split; try lia; constructor. }
  { intros [= <- <-]. exists []. rewrite app_nil_r. unfold slice. rewrite Z.sub_diag.
    change (len (@nil Z)) with 0. repeat split; try lia; constructor. }
  destruct (read_u32 p c) as [[n c1]|e] eqn:E; [|done]. apply read_u32_Ok in E as (-> & Hl & ->).
  pose proof (u32_at p c ltac:(lia) Hl) as Hin. intros Hk.
  apply IH in Hk as (ns & -> & Hcount & -> & Hc' & Hslice & Hok); [|lia..].
  exists (le_at 4 c p :: ns). split; [by rewrite <- app_assoc|]. split; [rewrite len_cons; lia|].
  split; [lia|]. split; [done|]. split; [|by constructor].
  unfold encode_lengths. cbn [map concat]. fold (encode_lengths ns). rewrite <- Hslice.
  rewrite le_bytes_at by (cbn; lia). cbn [Z.of_nat Pos.of_succ_nat Pos.succ]. by rewrite slice_slice_split by lia.
Qed.

Definition total (ns : list Z) : Z := foldr Z.add 0 ns.
Lemma total_nonneg ns : Forall in_u32 ns -> 0 <= total ns.
Proof. induction 1 as [|n ns [? ?] _ IH]; cbn; [lia|]. fold (total ns). lia. Qed.

Lemma checked_sum_total ns acc :
  Forall in_u32 ns -> 0 <= acc -> acc + total ns <= u64_max -> checked_sum acc ns = Some (acc + total ns).
Proof.
  intros Hok. revert acc. induction Hok as [|n ns [? ?] Hok IH]; intros acc Ha Hd; cbn [checked_sum total foldr] in *.
  - by rewrite Z.add_0_r.
  - fold (total ns) in *. pose proof (total_nonneg ns Hok). unfold checked_add. rewrite decide_True by lia.
    rewrite IH by lia. f_equal. lia.
Qed.

Lemma checked_sum_Some ns acc s : checked_sum acc ns = Some s -> s = acc + total ns.
Proof.
  revert acc. induction ns as [|n ns IH]; intros acc; cbn [checked_sum total foldr].
  - intros [= <-]. lia.
  - fold (total ns). unfold checked_add. case_decide; [|done]. intros Hs%IH. lia.
Qed.

Lemma total_lengths (items : list bytes) : total (map len items) = len (concat items).
Proof.
  induction items as [|i items IH]; [done|]. cbn [map total foldr concat]. fold (total (map len items)).
  rewrite IH, len_app. done.
Qed.

Lemma slice_items_concat items : forall pre,
  slice_items (pre ++ concat items) (len pre) (map len items) = items.
Proof.
  induction items as [|i items IH]; intros pre; [done|]. cbn [map slice_items concat].
  f_equal.
  - apply slice_app; lia.
  - rewrite app_assoc. rewrite <- len_app. apply IH.
Qed.

Lemma slice_items_sound p ns : forall c,
  0 <= c -> Forall in_u32 ns -> c + total ns <= len p ->
  map len (slice_items p c ns) = ns /\ concat (slice_items p c ns) = slice c (c + total ns) p.
Proof.
  induction ns as [|n ns IH]; intros c Hc Hok Ht; cbn [slice_items map concat total foldr] in *.
  { unfold slice. replace (c + 0 - c) with 0 by lia. done. }
  fold (total ns) in *.
  apply Forall_cons in Hok as [[? ?] Hok]. pose proof (total_nonneg ns Hok).
  destruct (IH (c + n)) as [Hm Hc2]; [lia|done|lia|]. rewrite Hm, Hc2. split.
  - f_equal. rewrite length_slice_le by lia. lia.
  - rewrite slice_slice_split by lia. f_equal. lia.
Qed.

(** A bytes batch decodes to a list of payloads exactly when it is the
    encoding of that list and the count and every length fit [u32]; the payloads
    are cut out of the batch at the right places, empty ones included. *)
Theorem bytes_batch_codec_exact batch items :
  len batch <= u64_max ->
  decode_bytes_batch batch = Ok items <->
  batch = encode_bytes_batch items /\ len items <= u32_max /\ Forall (fun i => len i <= u32_max) items.
Proof.
  intros Hp. split.
  - unfold decode_bytes_batch. destruct (starts_with _ _) eqn:Hm; cbn [negb]; [|done].
    apply starts_with_spec in Hm as [q Hq].
    destruct (read_u32 batch _) as [[n c]|e] eqn:E; run_res; [|done].
    apply read_u32_Ok in E as (-> & Hl & ->). rewrite len_BYTES_BATCH_MAGIC in *.
    pose proof (u32_at batch 17 ltac:(lia) Hl) as Hn. change (17 + 4) with 21 in *. unfold in_u32 in Hn.
    destruct (lengths_loop _ _ _ _ _) as [[[ls c]|e]|] eqn:Ek; run_res; [|done..].
    apply lengths_loop_sound in Ek as (ns & -> & Hcount & -> & Hc' & Hslice & Hok); [|lia..]. cbn [app].
    destruct (checked_sum 0 ns) as [s|] eqn:Es; run_res; [|done]. apply checked_sum_Some in Es.
    unfold checked_add. case_decide; run_res; [|done]. case_decide as Hend; [done|].
    pose proof (slice_items_sound batch ns (21 + 4 * le_at 4 17 batch)) as Hit.
    destruct Hit as [Hlens Hcat]; [lia|done|lia|]. intros <-%Ok_inj.
    split; [|split].
    + unfold encode_bytes_batch. rewrite Hcat.
      assert (len (slice_items batch (21 + 4 * le_at 4 17 batch) ns) = le_at 4 17 batch) as Hlen.
      { apply (f_equal length) in Hlens. rewrite length_map in Hlens. unfold len in *. congruence. }
      rewrite Hlen, wrap32_small by (unfold in_u32; lia).
      assert (concat (map (fun item : bytes => le_bytes 4 (wrap32 (len item)))
                (slice_items batch (21 + 4 * le_at 4 17 batch) ns)) = encode_lengths ns) as ->.
      { transitivity (encode_lengths (map len (slice_items batch (21 + 4 * le_at 4 17 batch) ns))); [|by rewrite Hlens].
        unfold encode_lengths. rewrite map_map. f_equal. apply map_ext_in. intros item Hitem.
        rewrite wrap32_small; [done|]. rewrite Forall_forall in Hok. apply Hok. rewrite <- Hlens.
        apply list_elem_of_In. by apply in_map. }
      rewrite <- Hslice. rewrite le_bytes_at by (cbn; lia).
      replace BYTES_BATCH_MAGIC with (slice 0 17 batch) by (rewrite Hq; by apply slice_app_start).
      change (17 + Z.of_nat 4) with 21. rewrite !slice_slice_split by lia. symmetry. apply slice_all. lia.
    + unfold len at 1. rewrite <- (length_map len), Hlens. fold (len ns). lia.
    + rewrite <- Hlens, Forall_map in Hok. eapply Forall_impl; [exact Hok|]. by intros i [? ?].
  - intros (-> & Hn & Hok). unfold decode_bytes_batch, encode_bytes_batch in *.
    assert (in_u32 (len items)) as Hin by (split; [apply len_nonneg|done]).
    assert (Forall in_u32 (map len items)) as Hls.
    { apply Forall_map. eapply Forall_impl; [exact Hok|]. intros i Hi. split; [apply len_nonneg|done]. }
    assert (concat (map (fun item : bytes => le_bytes 4 (wrap32 (len item))) items) = encode_lengths (map len items)) as Elen.
    { unfold encode_lengths. rewrite map_map. f_equal. apply map_ext_in. intros item Hitem%list_elem_of_In.
      rewrite wrap32_small; [done|]. split; [apply len_nonneg|]. rewrite Forall_forall in Hok. by apply Hok. }
    rewrite Elen, wrap32_small in * by done. rewrite starts_with_app. cbn [negb]. rewrite read_u32_layout by done. run_res.
    rewrite len_BYTES_BATCH_MAGIC. change (17 + 4) with 21.
    assert (21 = len (BYTES_BATCH_MAGIC ++ le_bytes 4 (len items))) as E21 by solve_len.
    set (p := BYTES_BATCH_MAGIC ++ _) in *.
    assert (p = (BYTES_BATCH_MAGIC ++ le_bytes 4 (len items)) ++ encode_lengths (map len items) ++ concat items) as Ep
      by (unfold p; by rewrite <- app_assoc).
    assert (len (map len items) = len items) as Em by (unfold len; by rewrite length_map).
    assert (len p = 21 + 4 * len items + len (concat items)) as Hlp.
    { rewrite Ep. rewrite !len_app, len_encode_lengths, Em, len_BYTES_BATCH_MAGIC, len_le_bytes. cbn. lia. }
    pose proof (len_nonneg (concat items)). pose proof (len_nonneg items).
    rewrite <- Em at 1. rewrite E21 at 1. rewrite Ep at 2. rewrite lengths_loop_encoded; [|done| |by rewrite <- Ep].
    + run_res. cbn [app]. rewrite <- E21, Em. rewrite checked_sum_total; [|done|lia|rewrite total_lengths; lia]. run_res.
      rewrite total_lengths. unfold checked_add. rewrite decide_True by lia. run_res. rewrite decide_False by lia.
      f_equal. rewrite Ep, app_assoc.
      replace (21 + 4 * len items) with (len ((BYTES_BATCH_MAGIC ++ le_bytes 4 (len items)) ++ encode_lengths (map len items))).
      * apply slice_items_concat.
      * rewrite len_app, <- E21, len_encode_lengths, Em. done.
    + rewrite length_map. unfold len in *. lia.
Qed.

Lemma bytes_batch_codec_exact_witness :
  decode_bytes_batch (encode_bytes_batch [lit "alpha"; []; lit "gamma"]) = Ok [lit "alpha"; []; lit "gamma"].
Proof.
  apply bytes_batch_codec_exact; [vm_compute; discriminate|]. split; [reflexivity|]. split; [vm_compute; discriminate|].
  repeat constructor; vm_compute; discriminate.
Defined.

(** ** Block-shaped payloads *)

(** [rkyv::to_bytes] and [rkyv::from_bytes] at a type. *)
Class RkyvCodec (T : Type) := {
  rkyv_to_bytes (v : T) : result bytes str;
  rkyv_from_bytes (b : bytes) : result T str
}.
Class RkyvCodecLaws (T : Type) `{!RkyvCodec T} := {
  rkyv_roundtrip (v : T) b : rkyv_to_bytes v = Ok b -> rkyv_from_bytes b = Ok v
}.

Definition expect_magic (payload magic : bytes) (op_name : str) : result bytes WireCodecError :=
  match strip_prefix magic payload with
  | Some body => Ok body
  | None => Err (bad_magic op_name magic payload)
  end.
Definition rkyv_encode_with_magic {T} `{!RkyvCodec T} (magic : bytes) (op_name : str) (value : T)
  : result bytes WireCodecError :=
  let? body := map_err (Rkyv op_name) (rkyv_to_bytes value) in Ok (magic ++ body).
Definition rkyv_decode_with_magic {T} `{!RkyvCodec T} (payload magic : bytes) (op_name : str)
  : result T WireCodecError :=
  let? body := expect_magic payload magic op_name in
  map_err (Rkyv op_name) (rkyv_from_bytes body).

Record LookupBlockPrefixReq := mkLookupBlockPrefixReq { lbp_namespace : str; lbp_hashes : list str }.
Record LookupBlockPrefixResp := mkLookupBlockPrefixResp { matched_count : Z; lbp_error : option str }.
Record GetKvBlocksBatchReq := mkGetKvBlocksBatchReq { gbb_namespace : str; gbb_hashes : list str }.
Record GetKvBlocksBatchResp := mkGetKvBlocksBatchResp { gbb_payloads : option (list bytes); gbb_error : option str }.
Record PutKvBlocksBatchReq := mkPutKvBlocksBatchReq {
  pbb_namespace : str; pbb_hashes : list str; pbb_payloads : list bytes
}.
Record PutKvBlocksBatchResp := mkPutKvBlocksBatchResp { total_bytes : Z; pbb_error : option str }.

Section Blocks.
Context `{!RkyvCodec LookupBlockPrefixReq, !RkyvCodec LookupBlockPrefixResp, !RkyvCodec GetKvBlocksBatchReq,
          !RkyvCodec GetKvBlocksBatchResp, !RkyvCodec PutKvBlocksBatchReq, !RkyvCodec PutKvBlocksBatchResp}.

Definition encode_lookup_block_prefix_req (req : LookupBlockPrefixReq) :=
  rkyv_encode_with_magic LOOKUP_BLOCK_PREFIX_REQ_MAGIC (lit "lookup_block_prefix_req") req.
Definition decode_lookup_block_prefix_req (b : bytes) : result LookupBlockPrefixReq WireCodecError :=
  rkyv_decode_with_magic b LOOKUP_BLOCK_PREFIX_REQ_MAGIC (lit "lookup_block_prefix_req").
Definition encode_lookup_block_prefix_resp (resp : LookupBlockPrefixResp) :=
  rkyv_encode_with_magic LOOKUP_BLOCK_PREFIX_RESP_MAGIC (lit "lookup_block_prefix_resp") resp.
Definition decode_lookup_block_prefix_resp (b : bytes) : result LookupBlockPrefixResp WireCodecError :=
  rkyv_decode_with_magic b LOOKUP_BLOCK_PREFIX_RESP_MAGIC (lit "lookup_block_prefix_resp").
Definition encode_get_kv_blocks_batch_req (req : GetKvBlocksBatchReq) :=
  rkyv_encode_with_magic GET_KV_BLOCKS_BATCH_REQ_MAGIC (lit "get_kv_blocks_batch_req") req.
Definition decode_get_kv_blocks_batch_req (b : bytes) : result GetKvBlocksBatchReq WireCodecError :=
  rkyv_decode_with_magic b GET_KV_BLOCKS_BATCH_REQ_MAGIC (lit "get_kv_blocks_batch_req").
Definition encode_get_kv_blocks_batch_resp (resp : GetKvBlocksBatchResp) :=
  rkyv_encode_with_magic GET_KV_BLOCKS_BATCH_RESP_MAGIC (lit "get_kv_blocks_batch_resp") resp.
Definition decode_get_kv_blocks_batch_resp (b : bytes) : result GetKvBlocksBatchResp WireCodecError :=
  rkyv_decode_with_magic b GET_KV_BLOCKS_BATCH_RESP_MAGIC (lit "get_kv_blocks_batch_resp").
Definition encode_put_kv_blocks_batch_req (req : PutKvBlocksBatchReq) : result bytes WireCodecError :=
  if decide (length (pbb_hashes req) <> length (pbb_payloads req))
  then Err (BodyLengthMismatch (lit "put_kv_blocks_batch_req") (len (pbb_hashes req)) (len (pbb_payloads req)))
  else rkyv_encode_with_magic PUT_KV_BLOCKS_BATCH_REQ_MAGIC (lit "put_kv_blocks_batch_req") req.
Definition decode_put_kv_blocks_batch_req (b : bytes) : result PutKvBlocksBatchReq WireCodecError :=
  rkyv_decode_with_magic b PUT_KV_BLOCKS_BATCH_REQ_MAGIC (lit "put_kv_blocks_batch_req").
Definition encode_put_kv_blocks_batch_resp (resp : PutKvBlocksBatchResp) :=
  rkyv_encode_with_magic PUT_KV_BLOCKS_BATCH_RESP_MAGIC (lit "put_kv_blocks_batch_resp") resp.
Definition decode_put_kv_blocks_batch_resp (b : bytes) : result PutKvBlocksBatchResp WireCodecError :=
  rkyv_decode_with_magic b PUT_KV_BLOCKS_BATCH_RESP_MAGIC (lit "put_kv_blocks_batch_resp").
End Blocks.

Lemma rkyv_magic_roundtrip {T} `{!RkyvCodec T, !RkyvCodecLaws T} magic op (v : T) b :
  rkyv_encode_with_magic magic op v = Ok b -> rkyv_decode_with_magic b magic op = Ok v.
Proof.
  unfold rkyv_encode_with_magic, rkyv_decode_with_magic, expect_magic.
  destruct (rkyv_to_bytes v) as [body|e] eqn:E; run_res; [|done]. intros <-%Ok_inj.
  rewrite strip_prefix_app. run_res. by rewrite (rkyv_roundtrip v body E).
Qed.

(** Bytes that start with one magic do not start with a different one of the same
    length. *)
Lemma rkyv_other_magic {T U} `{!RkyvCodec T, !RkyvCodec U} magic magic' op op' (v : T) b :
  length magic = length magic' -> magic <> magic' ->
  rkyv_encode_with_magic magic op v = Ok b ->
  rkyv_decode_with_magic (T := U) b magic' op' = Err (bad_magic op' magic' b).
Proof.
  unfold rkyv_encode_with_magic, rkyv_decode_with_magic, expect_magic. intros Hl Hne.
  destruct (rkyv_to_bytes v) as [body|e]; run_res; [|done]. intros <-%Ok_inj.
  destruct (strip_prefix magic' _) as [r|] eqn:E; [|done].
  apply strip_prefix_Some in E. apply app_inj_1 in E as [? _]; [done|by rewrite Hl].
Qed.

(** ** Segment names and frames *)
Definition SHM_PREFIX : str := lit "wk".
Definition ROLE_REQ : str := lit "r".
Definition ROLE_RESP : str := lit "s".
Definition MAX_DISRUPTOR_INTERNAL_SUFFIX_LEN : Z := 13.
Definition SHM_SEGMENT_NAME_MAX_LEN_MACOS : Z := 30.
Definition FRAME_DATA_BYTES : Z := 4 * 1024 * 1024 - 16.

Definition segment_names (prefix : str) : str * str :=
  (SHM_PREFIX ++ prefix ++ ROLE_REQ, SHM_PREFIX ++ prefix ++ ROLE_RESP).
(** One round of the loop over the two names. *)
Definition check_segment_name (prefix base : str) : result unit WireCodecError :=
  let derived_len := len base + MAX_DISRUPTOR_INTERNAL_SUFFIX_LEN in
  if decide (derived_len > SHM_SEGMENT_NAME_MAX_LEN_MACOS) then
    let fixed := len SHM_PREFIX + 1 + MAX_DISRUPTOR_INTERNAL_SUFFIX_LEN in
    Err (SegmentNameBudget (base ++ lit "_producer_seq") prefix (saturating_sub SHM_SEGMENT_NAME_MAX_LEN_MACOS fixed))
  else Ok tt.
Definition validate_segment_name_budget (prefix : str) : result unit WireCodecError :=
  let (req, resp) := segment_names prefix in
  let? _ := check_segment_name prefix req in
  check_segment_name prefix resp.
Definition fits_one_frame (n : Z) : bool := bool_decide (saturating_add n 256 <= FRAME_DATA_BYTES).

(** A prefix is accepted exactly up to fourteen bytes, the limit the error names;
    then the longest derived name is within the budget, and the two rings and the
    rings of different prefixes have different names. *)
Lemma segment_name_budget prefix :
  (validate_segment_name_budget prefix = Ok tt <-> len prefix <= 14) /\
  (forall n p m, validate_segment_name_budget prefix = Err (SegmentNameBudget n p m) -> m = 14 /\ len n > 30) /\
  fst (segment_names prefix) <> snd (segment_names prefix) /\
  (forall prefix', fst (segment_names prefix) = fst (segment_names prefix') -> prefix = prefix').
Proof.
  assert (len SHM_PREFIX = 2) as H2 by reflexivity. assert (len ROLE_REQ = 1) as Hq by reflexivity.
  assert (len ROLE_RESP = 1) as Hs by reflexivity. assert (len (lit "_producer_seq") = 13) as H13 by reflexivity.
  unfold validate_segment_name_budget, segment_names, check_segment_name, SHM_SEGMENT_NAME_MAX_LEN_MACOS,
    MAX_DISRUPTOR_INTERNAL_SUFFIX_LEN. cbn [fst snd].
  rewrite !len_app, H2, Hq, Hs. split; [|split; [|split]].
  - split; [repeat case_decide; run_res; [done..|lia]|]. intros. by repeat (rewrite decide_False by lia; run_res).
  - intros n p m. case_decide; run_res; [|done]. intros E.
    assert (n = (SHM_PREFIX ++ prefix ++ ROLE_REQ) ++ lit "_producer_seq") as -> by congruence.
    assert (m = saturating_sub 30 (2 + 1 + 13)) as -> by congruence.
    rewrite !len_app, Hq, H2, H13. unfold saturating_sub. lia.
  - intros E%app_inv_head%app_inv_head. discriminate.
  - intros prefix' E%app_inv_head%app_inv_tail. done.
Qed.
