(* ===== verification/Dst.v ===== *)
(** * The simulation's faults ([wombatkv-dst])

    Models [dst_rng.rs], [fault.rs], [dst_plan.rs], [dst_buggify.rs] and
    [dst_assertions.rs] of [crates/wombatkv-dst/src]: the seeded generator, the
    expansion of a seed and a failure class into a plan, the plan consulted at each
    operation, the rolls of chaos sites and the scope that switches them on, and the
    log of assertions.  Process-wide state is an argument; the logarithm and the
    exponential of [log_uniform] are parameters.  [Simulate] has plans in files.

    The theorems say what plans hold, for every seed, and which of their faults the
    plan lookup can ever deliver. *)

From S2P Require Import Prelude Order Text Strings Hex F64.

(** ** The generator *)
Definition XorShift64 : Type := Z.
Definition rng_new (seed : Z) : XorShift64 := if decide (seed = 0) then 16045690984503098046 else seed.
Definition rng_phase (seed phase : Z) : XorShift64 := rng_new (Z.lxor seed (wrap64 (phase * 11400714819323198485))).
Definition shl64 (x n : Z) : Z := wrap64 (Z.shiftl x n).
Definition next_u64 (state : XorShift64) : Z * XorShift64 :=
  let x := Z.lxor state (shl64 state 13) in
  let x := Z.lxor x (Z.shiftr x 7) in
  let x := Z.lxor x (shl64 x 17) in
  (x, x).
Definition next_u32 (bound : Z) (state : XorShift64) : Z * XorShift64 :=
  if decide (bound = 0) then (0, state) else let (x, state) := next_u64 state in (x mod bound, state).
(** [between], for [lo < hi]. *)
Definition rng_between (lo hi : Z) (state : XorShift64) : Z * XorShift64 :=
  let (x, state) := next_u64 state in (lo + x mod (hi - lo), state).
(** [log_uniform], for [0 < lo]; [None] is the panic of [clamp].  [ln] and [exp] are the
    platform's; [ln] does not decrease, so the difference below is not negative. *)
Section LogUniform.
Context (ln exp : f64 -> f64).
Definition log_uniform (lo hi : Z) (state : XorShift64) : option (Z * XorShift64) :=
  let lo_log := ln (f64_of_u64 lo) in
  let hi_log := ln (f64_of_u64 hi) in
  let (x, state) := next_u64 state in
  let frac := f64_div (f64_of_u64 x) (f64_of_u64 u64_max) in
  let v := exp (f64_add lo_log (f64_mul frac (f64_sub hi_log lo_log))) in
  if decide (lo <= hi) then Some (Z.max lo (Z.min (f64_to_u64 v) hi), state) else None.
End LogUniform.

(** ** Faults *)
Inductive S3ErrorKind := NotFoundKind | InternalError | ServiceUnavail | Throttling | NetworkTimeout.
Definition is_retryable (k : S3ErrorKind) : bool := match k with NotFoundKind => false | _ => true end.
Inductive WireEnvelopeBadKind := BadMagicKind | BadVersionKind | BadCRCKind | OversizedLen | TruncatedBody.
Inductive OldVersionKind := SidecarV3 | BlockV1.
Inductive SlateDbFaultKind := WriteFailure | StaleSnapshot | CorruptManifest.
Inductive WombatKvFaultEvent :=
| S3GetLatency (ms : Z) | S3GetFailure (error_kind : S3ErrorKind) | S3GetCorrupt | S3PutLatency (ms : Z)
| S3PutFailure (error_kind : S3ErrorKind) | KillBeforeChainHead | KillBeforeSidecar | EvictBlockMidLease (block_hash_prefix : str)
| DaemonRestart (after_n_ops : Z) | TransportConnectionDrop | TransportPartialRead (return_n : Z) | TransportSlowWrite (ms : Z)
| WireBadEnvelope (kind : WireEnvelopeBadKind) | OldVersionInBucket (which : OldVersionKind) | SlateDbFault (kind : SlateDbFaultKind)
| MultiEnginePrefixConflict | DaemonTpcOnlyNoShmClient | ResourceFdLimitTighten (soft_limit : Z)
| ResourceMemoryPressure (fail_every_nth_alloc : Z) | ResourceDiskFull (fail_after_bytes : Z) | PlatformShmHidden
| PlatformIoUringJitter (p99_us : Z) | PlatformKqueueOnly.
Inductive FaultTrigger := AfterKvOp (n : Z) | AfterS3Get (n : Z) | AfterS3Put (n : Z) | AfterBootstrapMs (ms : Z).
Record ScheduledFault := mkFault { trigger : FaultTrigger; event : WombatKvFaultEvent }.
(** [WombatKvFailureClass] *)
Module FailureClass.
Inductive t :=
| TransientS3Failure | CorruptBlockBytes | PartialChainSave | ConcurrentSameKeySave | DaemonRestartMidLookup | SidecarDriftAfterChain
| FoyerEvictionMidGet | TransportConnectionDropMidRPC | TransportPartialReadOnHeader | TransportSlowWrite | WireEnvelopeCorruption
| OldSidecarV3InBucket | OldBlockV1InBucket | SlateDbWriteFailure | SlateDbManifestCorruption | MultiEnginePrefixConflict
| DaemonTpcOnlyNoShmClient | ResourceFdExhaustion | ResourceMemoryPressure | ResourceDiskFull | PlatformShmHidden
| PlatformIoUringJitter | PlatformKqueueOnly.
Definition all : list t :=
  [TransientS3Failure; CorruptBlockBytes; PartialChainSave; ConcurrentSameKeySave; DaemonRestartMidLookup; SidecarDriftAfterChain;
   FoyerEvictionMidGet; TransportConnectionDropMidRPC; TransportPartialReadOnHeader; TransportSlowWrite; WireEnvelopeCorruption;
   OldSidecarV3InBucket; OldBlockV1InBucket; SlateDbWriteFailure; SlateDbManifestCorruption; MultiEnginePrefixConflict;
   DaemonTpcOnlyNoShmClient; ResourceFdExhaustion; ResourceMemoryPressure; ResourceDiskFull; PlatformShmHidden;
   PlatformIoUringJitter; PlatformKqueueOnly].
End FailureClass.
Record FaultPlan := mkPlan { plan_seed : Z; plan_class : option FailureClass.t; plan_events : list ScheduledFault }.

(** [format!("{v:016x}")] *)
Definition hex_016 (v : Z) : str := hex_lower (reverse (le_bytes 8 v)).
Definition envelope_kinds : list WireEnvelopeBadKind := [BadMagicKind; BadVersionKind; BadCRCKind; OversizedLen; TruncatedBody].
(** [schedule_for_class]; the draws are made in the order of the code, and all of
    them fit a [u32]. *)
Definition one (trigger : FaultTrigger) (event : WombatKvFaultEvent) : list ScheduledFault := [mkFault trigger event].
Definition schedule_events (rng : XorShift64) (class : FailureClass.t) : list ScheduledFault :=
  match class with
  | FailureClass.TransientS3Failure => one (AfterS3Get (rng_between 1 20 rng).1) (S3GetFailure ServiceUnavail)
  | FailureClass.CorruptBlockBytes => one (AfterS3Get (rng_between 1 10 rng).1) S3GetCorrupt
  | FailureClass.PartialChainSave => one (AfterS3Put (rng_between 1 8 rng).1) KillBeforeChainHead
  | FailureClass.ConcurrentSameKeySave =>
      let (n1, rng) := rng_between 1 5 rng in
      let (ms1, rng) := rng_between 50 200 rng in
      let (n2, rng) := rng_between 1 5 rng in
      let (ms2, rng) := rng_between 50 200 rng in
      [mkFault (AfterKvOp n1) (S3PutLatency ms1); mkFault (AfterKvOp n2) (S3PutLatency ms2)]
  | FailureClass.DaemonRestartMidLookup =>
      let (n, rng) := rng_between 5 30 rng in one (AfterKvOp n) (DaemonRestart (rng_between 1 5 rng).1)
  | FailureClass.SidecarDriftAfterChain => one (AfterS3Put (rng_between 2 8 rng).1) KillBeforeSidecar
  | FailureClass.FoyerEvictionMidGet =>
      let (prefix_seed, rng) := next_u64 rng in
      one (AfterKvOp (rng_between 3 15 rng).1) (EvictBlockMidLease (hex_016 prefix_seed))
  | FailureClass.TransportConnectionDropMidRPC => one (AfterKvOp (rng_between 1 10 rng).1) TransportConnectionDrop
  | FailureClass.TransportPartialReadOnHeader =>
      let (n, rng) := rng_between 1 10 rng in one (AfterKvOp n) (TransportPartialRead (rng_between 1 8 rng).1)
  | FailureClass.TransportSlowWrite =>
      let (n, rng) := rng_between 1 10 rng in one (AfterKvOp n) (TransportSlowWrite (rng_between 10 100 rng).1)
  | FailureClass.WireEnvelopeCorruption =>
      let (idx, rng) := rng_between 0 (len envelope_kinds - 1) rng in
      one (AfterKvOp (rng_between 1 10 rng).1) (WireBadEnvelope (nth (Z.to_nat idx) envelope_kinds BadMagicKind))
  | FailureClass.OldSidecarV3InBucket => one (AfterBootstrapMs (rng_between 0 50 rng).1) (OldVersionInBucket SidecarV3)
  | FailureClass.OldBlockV1InBucket => one (AfterBootstrapMs (rng_between 0 50 rng).1) (OldVersionInBucket BlockV1)
  | FailureClass.SlateDbWriteFailure => one (AfterKvOp (rng_between 1 12 rng).1) (SlateDbFault WriteFailure)
  | FailureClass.SlateDbManifestCorruption => one (AfterBootstrapMs 0) (SlateDbFault CorruptManifest)
  | FailureClass.MultiEnginePrefixConflict => one (AfterKvOp (rng_between 0 5 rng).1) MultiEnginePrefixConflict
  | FailureClass.DaemonTpcOnlyNoShmClient => one (AfterBootstrapMs 0) DaemonTpcOnlyNoShmClient
  | FailureClass.ResourceFdExhaustion => one (AfterBootstrapMs 0) (ResourceFdLimitTighten (rng_between 64 256 rng).1)
  | FailureClass.ResourceMemoryPressure =>
      let (n, rng) := rng_between 1 10 rng in one (AfterKvOp n) (ResourceMemoryPressure (rng_between 50 500 rng).1)
  | FailureClass.ResourceDiskFull =>
      let (n, rng) := rng_between 1 5 rng in
      one (AfterS3Put n) (ResourceDiskFull (rng_between (Z.shiftl 1 20) (Z.shiftl 100 20) rng).1)
  | FailureClass.PlatformShmHidden => one (AfterBootstrapMs 0) PlatformShmHidden
  | FailureClass.PlatformIoUringJitter =>
      let (n, rng) := rng_between 1 10 rng in one (AfterKvOp n) (PlatformIoUringJitter (rng_between 50 500 rng).1)
  | FailureClass.PlatformKqueueOnly => one (AfterBootstrapMs 0) PlatformKqueueOnly
  end.
Definition schedule_for_class (master_seed : Z) (class : FailureClass.t) : FaultPlan :=
  mkPlan master_seed (Some class) (schedule_events (rng_phase master_seed 1) class).

(** ** The plan in use *)
Record PlanState := mkPlanState { ps_plan : option FaultPlan; ps_op_counter : Z }.
Definition set_plan (plan : FaultPlan) (s : PlanState) : PlanState := mkPlanState (Some plan) 0.
Definition clear (s : PlanState) : PlanState := mkPlanState None 0.
Definition advance_op (s : PlanState) : PlanState := mkPlanState (ps_plan s) (Z.min (ps_op_counter s + 1) u32_max).
Definition current_op (s : PlanState) : Z := ps_op_counter s.
Fixpoint first_due (n : Z) (events : list ScheduledFault) : option WombatKvFaultEvent :=
  match events with
  | [] => None
  | sched :: rest =>
      match trigger sched with
      | AfterKvOp k => if decide (k = n) then Some (event sched) else first_due n rest
      | _ => first_due n rest
      end
  end.
(** The counter is one short of its greatest value at most: [op_n + 1] does not
    overflow there. *)
Definition fire_for_current_op (s : PlanState) : option WombatKvFaultEvent :=
  plan ← ps_plan s; first_due (ps_op_counter s + 1) (plan_events plan).
Definition is_put_suppressed (s : PlanState) : bool :=
  match fire_for_current_op s with
  | Some (S3PutFailure _ | S3PutLatency _ | KillBeforeChainHead | KillBeforeSidecar) => true
  | _ => false
  end.

(** ** Chaos sites *)
Record BuggifyConfig := mkBuggify { bg_seed : Z; activation_percent : Z; fire_percent : Z }.
Definition buggify_from_env (env : str -> option str) : option BuggifyConfig :=
  enabled ← env (lit "WMBT_KV_DST_BUGGIFY");
  if bool_decide (enabled = lit "0") || eq_ignore_ascii_case enabled (lit "false") then None else
  Some (mkBuggify (default 1 (raw ← env (lit "WMBT_KV_DST_BUGGIFY_SEED"); parse_u64 raw))
          (default 25 (raw ← env (lit "WMBT_KV_DST_BUGGIFY_ACTIVATION_PERCENT"); parse_bounded 255 raw))
          (default 25 (raw ← env (lit "WMBT_KV_DST_BUGGIFY_FIRE_PERCENT"); parse_bounded 255 raw))).
Definition mix (x : Z) : Z :=
  let x := Z.lxor x (Z.shiftr x 33) in
  let x := wrap64 (x * 18397679294719823053) in
  let x := Z.lxor x (Z.shiftr x 33) in
  let x := wrap64 (x * 14181476777654086739) in
  Z.lxor x (Z.shiftr x 33).
Definition rotate_left (x n : Z) : Z := Z.lor (shl64 x n) (Z.shiftr x (64 - n)).
Definition callsite_hash (seed : Z) (file : str) (line ordinal : Z) : Z :=
  let hash := fold_left (fun hash b => wrap64 (Z.lxor (rotate_left hash 5) (byte_to_Z b) * 5871781006564002453)) file
                (Z.lxor seed (wrap64 (line * 11400714819323198485))) in
  mix (Z.lxor hash (wrap64 (ordinal * 10723151780598845931))).
Definition Counters : Type := gmap (str * Z) Z.
Definition buggify (env : str -> option str) (file : str) (line : Z) (c : Counters) : Counters * bool :=
  match buggify_from_env env with
  | None => (c, false)
  | Some config =>
      if decide (activation_percent config <= callsite_hash (bg_seed config) file line 0 mod 100) then (c, false) else
      let ordinal := default 0 (c !! (file, line)) in
      (<[(file, line) := ordinal + 1]> c,
       bool_decide (callsite_hash (Z.lxor (bg_seed config) 11936045733521432862) file line ordinal mod 100 < fire_percent config))
  end.
Definition reset (c : Counters) : Counters := ∅.
(** [ScopedBuggify]: the environment of the process is a map here. *)
Record ScopedBuggify := mkScoped {
  previous_enabled : option str; previous_seed : option str; previous_activation_percent : option str; previous_fire_percent : option str
}.
Definition scoped_new (seed : Z) (w : gmap str str * Counters) : ScopedBuggify * (gmap str str * Counters) :=
  let (env, c) := w in
  (mkScoped (env !! lit "WMBT_KV_DST_BUGGIFY") (env !! lit "WMBT_KV_DST_BUGGIFY_SEED")
     (env !! lit "WMBT_KV_DST_BUGGIFY_ACTIVATION_PERCENT") (env !! lit "WMBT_KV_DST_BUGGIFY_FIRE_PERCENT"),
   (<[lit "WMBT_KV_DST_BUGGIFY_SEED" := dec seed]> (<[lit "WMBT_KV_DST_BUGGIFY" := lit "1"]> env), reset c)).
Definition restore_var (name : str) (previous : option str) (env : gmap str str) : gmap str str :=
  match previous with Some value => <[name := value]> env | None => delete name env end.
Definition scoped_drop (g : ScopedBuggify) (w : gmap str str * Counters) : gmap str str * Counters :=
  let (env, c) := w in
  let env := restore_var (lit "WMBT_KV_DST_BUGGIFY") (previous_enabled g) env in
  let env := restore_var (lit "WMBT_KV_DST_BUGGIFY_SEED") (previous_seed g) env in
  let env := restore_var (lit "WMBT_KV_DST_BUGGIFY_ACTIVATION_PERCENT") (previous_activation_percent g) env in
  let env := restore_var (lit "WMBT_KV_DST_BUGGIFY_FIRE_PERCENT") (previous_fire_percent g) env in
  (env, reset c).

(** ** Assertions *)
Inductive AssertionKind := Always | Sometimes | Reachable | Unreachable.
Record AssertionViolation := mkViolation { vi_kind : AssertionKind; vi_message : str; vi_details : str }.
Record AssertionLog := mkLog {
  always_violations : list AssertionViolation; unreachable_violations : list AssertionViolation;
  sometimes : gmap str bool; reachable : gset str
}.
Definition empty_log : AssertionLog := mkLog [] [] ∅ ∅.
Definition assert_always (condition : bool) (message details : str) (l : AssertionLog) : AssertionLog :=
  if condition then l
  else mkLog (always_violations l ++ [mkViolation Always message details]) (unreachable_violations l) (sometimes l) (reachable l).
Definition assert_sometimes (condition : bool) (message details : str) (l : AssertionLog) : AssertionLog :=
  mkLog (always_violations l) (unreachable_violations l)
    (<[message := default false (sometimes l !! message) || condition]> (sometimes l)) (reachable l).
Definition assert_reachable (message : str) (l : AssertionLog) : AssertionLog :=
  mkLog (always_violations l) (unreachable_violations l) (sometimes l) ({[message]} ∪ reachable l).
Definition assert_unreachable (message details : str) (l : AssertionLog) : AssertionLog :=
  mkLog (always_violations l) (unreachable_violations l ++ [mkViolation Unreachable message details]) (sometimes l) (reachable l).
Definition sometimes_satisfied (message : str) (l : AssertionLog) : bool := default false (sometimes l !! message).
(** The log of the process; nothing that runs under its lock panics. *)
Definition with_global_log {R : Type} (f : AssertionLog -> R * AssertionLog) (global : AssertionLog) : R * AssertionLog := f global.
Definition reset_global_assertions (global : AssertionLog) : AssertionLog := (with_global_log (fun _ => (tt, empty_log)) global).2.
Definition snapshot_global_assertions (global : AssertionLog) : AssertionLog * AssertionLog := with_global_log (fun l => (l, l)) global.
Definition global_assert_always (condition : bool) (message details : str) (global : AssertionLog) : AssertionLog :=
  (with_global_log (fun l => (tt, assert_always condition message details l)) global).2.
Definition global_assert_sometimes (condition : bool) (message details : str) (global : AssertionLog) : AssertionLog :=
  (with_global_log (fun l => (tt, assert_sometimes condition message details l)) global).2.
Definition global_assert_reachable (message : str) (global : AssertionLog) : AssertionLog :=
  (with_global_log (fun l => (tt, assert_reachable message l)) global).2.
Definition global_assert_unreachable (message details : str) (global : AssertionLog) : AssertionLog :=
  (with_global_log (fun l => (tt, assert_unreachable message details l)) global).2.

(** ** The generator never stops *)
Lemma lxor_range a b : 0 <= a < 2 ^ 64 -> 0 <= b < 2 ^ 64 -> 0 <= Z.lxor a b < 2 ^ 64.
Proof.
  intros Ha Hb. split; [apply Z.lxor_nonneg; lia|]. destruct (decide (Z.lxor a b = 0)) as [->|Hne]; [done|].
  apply Z.log2_lt_pow2; [pose proof (proj2 (Z.lxor_nonneg a b) ltac:(lia)); lia|].
  eapply Z.le_lt_trans; [apply Z.log2_lxor; lia|]. apply Z.max_lub_lt.
  - destruct (decide (a = 0)) as [->|]; [done|]. apply Z.log2_lt_pow2; lia.
  - destruct (decide (b = 0)) as [->|]; [done|]. apply Z.log2_lt_pow2; lia.
Qed.
Lemma shl64_range x n : 0 <= shl64 x n < 2 ^ 64.
Proof. unfold shl64, wrap64. apply Z.mod_pos_bound. done. Qed.
Lemma xor_shl_nonzero x k : 0 < x < 2 ^ 64 -> 0 <= k -> Z.gcd (2 ^ 64) (2 ^ k - 1) = 1 -> Z.lxor x (shl64 x k) <> 0.
Proof.
  intros Hx Hk Hg E%Z.lxor_eq. unfold shl64, wrap64 in E. rewrite Z.shiftl_mul_pow2 in E by done.
  assert (Z.divide (2 ^ 64) ((2 ^ k - 1) * x)) as Hd.
  { exists (x * 2 ^ k / 2 ^ 64). change 18446744073709551616 with (2 ^ 64) in E.
    pose proof (Z.div_mod (x * 2 ^ k) (2 ^ 64) ltac:(done)). lia. }
  apply Z.gauss in Hd; [|done]. apply Z.divide_pos_le in Hd; lia.
Qed.
Lemma xor_shr_nonzero x k : 0 < x -> 0 < k -> Z.lxor x (Z.shiftr x k) <> 0.
Proof.
  intros Hx Hk E%Z.lxor_eq. rewrite Z.shiftr_div_pow2 in E by lia.
  assert (x / 2 ^ k < x); [|lia]. apply Z.div_lt; [done|]. apply Z.pow_gt_1; lia.
Qed.
(** The state zero, from which the generator would not get away, is never met. *)
Lemma next_u64_state s : 0 < s < 2 ^ 64 -> 0 < (next_u64 s).2 < 2 ^ 64.
Proof.
  intros Hs. unfold next_u64. cbn [snd].
  assert (forall x k, 0 < x < 2 ^ 64 -> 0 <= k -> Z.gcd (2 ^ 64) (2 ^ k - 1) = 1 -> 0 < Z.lxor x (shl64 x k) < 2 ^ 64) as Hl.
  { intros x k Hx Hk Hg. pose proof (lxor_range x (shl64 x k) ltac:(lia) (shl64_range x k)). pose proof (xor_shl_nonzero x k Hx Hk Hg). lia. }
  apply Hl; [|lia|reflexivity]. set (x := Z.lxor s (shl64 s 13)). assert (0 < x < 2 ^ 64) as Hx by (apply Hl; [done|lia|reflexivity]).
  pose proof (xor_shr_nonzero x 7 ltac:(lia) ltac:(lia)). rewrite Z.shiftr_div_pow2 in * by lia.
  assert (0 <= x / 2 ^ 7 < 2 ^ 64) as Hd.
  { split; [apply Z.div_pos; lia|]. apply Z.div_lt_upper_bound; [done|]. change (2 ^ 7) with 128. lia. }
  pose proof (lxor_range x (x / 2 ^ 7) ltac:(lia) Hd). lia.
Qed.
Lemma rng_new_state seed : 0 <= seed < 2 ^ 64 -> 0 < rng_new seed < 2 ^ 64.
Proof. intros H. unfold rng_new. case_decide; [by split; vm_compute|lia]. Qed.

(** ** What plans deliver *)
Lemma between_range lo hi s : lo < hi -> lo <= (rng_between lo hi s).1 < hi.
Proof.
  intros H. unfold rng_between. destruct (next_u64 s) as [x s']. cbn [fst]. pose proof (Z.mod_pos_bound x (hi - lo) ltac:(lia)). lia.
Qed.
(** The operation each fault of a plan waits for, if it waits for one. *)
Definition kv_op (f : ScheduledFault) : option Z := match trigger f with AfterKvOp n => Some n | _ => None end.
Definition kv_classes : list FailureClass.t :=
  [FailureClass.ConcurrentSameKeySave; FailureClass.DaemonRestartMidLookup; FailureClass.FoyerEvictionMidGet;
   FailureClass.TransportConnectionDropMidRPC; FailureClass.TransportPartialReadOnHeader; FailureClass.TransportSlowWrite;
   FailureClass.WireEnvelopeCorruption; FailureClass.SlateDbWriteFailure; FailureClass.MultiEnginePrefixConflict;
   FailureClass.ResourceMemoryPressure; FailureClass.PlatformIoUringJitter].
#[export] Instance class_eq_dec : EqDecision FailureClass.t.
Proof. solve_decision. Defined.
Definition suppresses (ev : WombatKvFaultEvent) : bool :=
  match ev with S3PutFailure _ | S3PutLatency _ | KillBeforeChainHead | KillBeforeSidecar => true | _ => false end.
Ltac draws := repeat match goal with
  | |- context [let (_, _) := rng_between ?lo ?hi ?s in _] =>
      let Hr := fresh in pose proof (between_range lo hi s ltac:(vm_compute; reflexivity)) as Hr; destruct (rng_between lo hi s); cbn [fst] in Hr
  | |- context [(rng_between ?lo ?hi ?s).1] =>
      let Hr := fresh in pose proof (between_range lo hi s ltac:(vm_compute; reflexivity)) as Hr; destruct (rng_between lo hi s); cbn [fst] in *
  | |- context [let (_, _) := next_u64 ?s in _] => destruct (next_u64 s)
  end.
(** A plan of an operation-triggered class has an event at one of the operations 1
    to 29, but for the class whose draw may be 0; the other classes have none. *)
Lemma schedule_kv rng class :
  (class ∉ kv_classes -> Forall (fun f => kv_op f = None) (schedule_events rng class)) /\
  (class ∈ kv_classes -> class <> FailureClass.MultiEnginePrefixConflict ->
   exists f n, f ∈ schedule_events rng class /\ kv_op f = Some n /\ 1 <= n < 30) /\
  Forall (fun f => forall n, kv_op f = Some n -> n < 30 /\ (suppresses (event f) = true -> class = FailureClass.ConcurrentSameKeySave /\ n < 5))
    (schedule_events rng class).
Proof.
  split; [|split].
  - destruct class; intros Hc; try (destruct Hc; by_eval); cbn [schedule_events]; draws; by repeat constructor.
  - destruct class; intros Hc Hne; try (by exfalso; revert Hc; by_eval || (intros Hc; apply (bool_decide_unpack _) in Hc)); try done;
      cbn [schedule_events]; draws; (eexists _, _; split; [left|]; split; [reflexivity|lia]).
  - destruct class; cbn [schedule_events]; draws; unfold one;
      repeat first [apply Forall_nil_2 | apply Forall_cons_2;
        [intros m Hm; cbv [kv_op trigger] in Hm; cbn [event suppresses];
         first [discriminate Hm|injection Hm as <-; split; [lia|]; first [done|intros _; split; [done|lia]]]|]].
Qed.

(** The state of a run of [k] operations under a plan. *)
Definition after_ops (k : nat) (plan : FaultPlan) (s : PlanState) : PlanState := Nat.iter k advance_op (set_plan plan s).
Lemma after_ops_eq k plan s : after_ops k plan s = mkPlanState (Some plan) (Z.min (Z.of_nat k) u32_max).
Proof.
  unfold after_ops. induction k as [|k IH]; [done|]. rewrite Nat.iter_succ, IH. unfold advance_op. cbn [ps_plan ps_op_counter]. f_equal. lia.
Qed.
Lemma first_due_Some n events ev : first_due n events = Some ev -> exists f, f ∈ events /\ kv_op f = Some n /\ event f = ev.
Proof.
  induction events as [|f events IH]; cbn [first_due]; [done|]. unfold kv_op.
  destruct (trigger f) as [k|k|k|k] eqn:Et; [case_decide; [intros <-%(inj Some); subst; exists f; rewrite Et; by split; [left|]|]|..];
    intros Hev; destruct (IH Hev) as (g & Hg & ? & ?); exists g; (split; [by right|done]).
Qed.
Lemma first_due_is_Some n events f : f ∈ events -> kv_op f = Some n -> is_Some (first_due n events).
Proof.
  induction events as [|g events IH]; [by intros ?%not_elem_of_nil|]. intros [->|Hf]%elem_of_cons Hk; cbn [first_due].
  - unfold kv_op in Hk. destruct (trigger g); try done. injection Hk as ->. by rewrite decide_True.
  - destruct (trigger g); [case_decide; [done|]|..]; by apply IH.
Qed.

(** For every seed, the plan lookup delivers the fault of a class triggered by
    operations within the first thirty operations (but for the class whose draw may
    be operation 0), and of the other classes nothing, ever; and the only class
    whose plans suppress a put is that of concurrent saves, within the first four
    operations. *)
Theorem plans_deliver seed class s :
  let plan := schedule_for_class seed class in
  (class ∉ kv_classes -> forall k, fire_for_current_op (after_ops k plan s) = None) /\
  (class ∈ kv_classes -> class <> FailureClass.MultiEnginePrefixConflict ->
   exists k, (k < 29)%nat /\ is_Some (fire_for_current_op (after_ops k plan s))) /\
  (forall k, is_put_suppressed (after_ops k plan s) = true -> class = FailureClass.ConcurrentSameKeySave /\ (k < 4)%nat).
Proof.
  intros plan. destruct (schedule_kv (rng_phase seed 1) class) as (Hno & Hyes & Hsup). fold (plan_events plan) in Hno, Hyes, Hsup.
  assert (forall k, fire_for_current_op (after_ops k plan s) = first_due (Z.min (Z.of_nat k) u32_max + 1) (plan_events plan)) as Hfire
    by (intros k; by rewrite after_ops_eq).
  split; [|split].
  - intros Hc k. rewrite Hfire. destruct (first_due _ _) as [ev|] eqn:Ed; [|done].
    apply first_due_Some in Ed as (f & Hf & Hk & _). by rewrite (proj1 (Forall_forall _ _) (Hno Hc) f Hf) in Hk.
  - intros Hc Hne. destruct (Hyes Hc Hne) as (f & n & Hf & Hk & Hn). exists (Z.to_nat (n - 1)). split; [lia|]. rewrite Hfire.
    apply (first_due_is_Some _ _ f Hf). rewrite Hk. f_equal. lia.
  - intros k. unfold is_put_suppressed. rewrite Hfire. destruct (first_due _ _) as [ev|] eqn:Ed; [|done].
    apply first_due_Some in Ed as (f & Hf & Hk & <-). destruct (proj1 (Forall_forall _ _) Hsup f Hf _ Hk) as [_ Hs].
    intros Hev. assert (suppresses (event f) = true) as He by (by destruct (event f)). destruct (Hs He) as [-> Hlt]. split; [done|lia].
Qed.

(** The last kind of broken envelope is never drawn. *)
Lemma truncated_body_never_drawn seed f :
  f ∈ plan_events (schedule_for_class seed FailureClass.WireEnvelopeCorruption) -> event f <> WireBadEnvelope TruncatedBody.
Proof.
  cbn [schedule_for_class plan_events schedule_events]. draws. unfold one. intros ->%list_elem_of_singleton. cbn [event].
  change (len envelope_kinds - 1) with 4 in *. assert (z = 0 \/ z = 1 \/ z = 2 \/ z = 3) as [->|[->|[->| ->]]] by lia; done.
Qed.
(** A conflict drawn at operation 0 is never delivered. *)
Lemma conflict_at_zero_never_fires seed s k :
  plan_events (schedule_for_class seed FailureClass.MultiEnginePrefixConflict) = one (AfterKvOp 0) MultiEnginePrefixConflict ->
  fire_for_current_op (after_ops k (schedule_for_class seed FailureClass.MultiEnginePrefixConflict) s) = None.
Proof.
  intros E. rewrite after_ops_eq. unfold fire_for_current_op. cbn [ps_plan mbind option_bind ps_op_counter]. rewrite E.
  unfold one. cbn [first_due trigger]. by rewrite decide_False by lia.
Qed.
(** Chaos sites are inert unless asked for, and a roll depends on nothing but the
    seed, the place and how often it was met. *)
Lemma buggify_inert env file line c : env (lit "WMBT_KV_DST_BUGGIFY") = None -> buggify env file line c = (c, false).
Proof. intros E. unfold buggify, buggify_from_env. by rewrite E. Qed.
Lemma sometimes_sticks message cond details l :
  sometimes_satisfied message l = true -> sometimes_satisfied message (assert_sometimes cond message details l) = true.
Proof. unfold sometimes_satisfied, assert_sometimes. cbn [sometimes]. rewrite lookup_insert_eq. intros ->. by destruct cond. Qed.

(** A draw of [log_uniform] is in its range, whatever the platform's functions return,
    and takes one step of the generator. *)
Lemma log_uniform_bounds ln exp lo hi s :
  lo <= hi -> exists v, log_uniform ln exp lo hi s = Some (v, (next_u64 s).2) /\ lo <= v <= hi.
Proof.
  intros H. unfold log_uniform. destruct (next_u64 s) as [x s']. rewrite decide_True by done. eexists. split; [done|]. lia.
Qed.

(** ** Scopes

    Whatever runs inside a scope, and whatever it does to the environment, dropping the
    guard gives the four variables the values they had and leaves the others alone; and
    the rolls inside a scope do not depend on the sites met before it. *)
Lemma lookup_restore_var (name : str) (previous : option str) (env : gmap str str) (k : str) :
  restore_var name previous env !! k = if decide (k = name) then previous else env !! k.
Proof.
  unfold restore_var. destruct previous as [v|]; case_decide as E; [subst k| |subst k|].
  - by rewrite lookup_insert_eq.
  - by rewrite lookup_insert_ne by congruence.
  - by rewrite lookup_delete_eq.
  - by rewrite lookup_delete_ne by congruence.
Qed.
Definition buggify_vars : list str :=
  [lit "WMBT_KV_DST_BUGGIFY"; lit "WMBT_KV_DST_BUGGIFY_SEED"; lit "WMBT_KV_DST_BUGGIFY_ACTIVATION_PERCENT"; lit "WMBT_KV_DST_BUGGIFY_FIRE_PERCENT"].
Lemma scope_restores (seed : Z) (env env' : gmap str str) (c c' : Counters) (k : str) :
  let g := (scoped_new seed (env, c)).1 in
  (scoped_drop g (env', c')).1 !! k = (if decide (k ∈ buggify_vars) then env else env') !! k /\ (scoped_drop g (env', c')).2 = ∅.
Proof.
  split; [|done]. unfold scoped_drop. cbn [fst]. rewrite !lookup_restore_var. cbn [previous_enabled previous_seed previous_activation_percent previous_fire_percent scoped_new fst].
  unfold buggify_vars. repeat case_decide; subst; try done; try set_solver.
Qed.
Lemma scope_rolls_alike (seed : Z) (env : gmap str str) (c c' : Counters) (file : str) (line : Z) :
  let inside (w : gmap str str * Counters) := let '(env, c) := w in buggify (fun k => env !! k) file line c in
  inside (scoped_new seed (env, c)).2 = inside (scoped_new seed (env, c')).2.
Proof. reflexivity. Qed.
