(* ===== verification/Oracle.v ===== *)
(** * The reference oracle ([oracle.rs] of [wombatkv-dst])

    Models [crates/wombatkv-dst/src/oracle.rs]: the in-memory model of the KV
    surface the simulation runner compares the real store with, and its verdict.

    The refinement theorem drives the oracle and the store of [Embed] with the
    same operations and shows that no verdict is a divergence: the store
    implements the oracle for content-addressed keys.  It also shows where it
    does not: a slash moved from key to namespace names the same object. *)

From S2P Require Import Prelude Order Text ObjectStore Compression BlobCache Foyer Embed Durable.

Inductive OracleGetOutcome := OracleHit (payload : bytes) | OracleMiss.
#[global] Instance oracle_outcome_eq_dec : EqDecision OracleGetOutcome.
Proof. solve_decision. Defined.

Record WombatKvOracle := mkOracle { oracle_store : gmap str bytes; ops_observed : Z }.
Definition oracle_new : WombatKvOracle := mkOracle ∅ 0.

Definition composite_key (namespace key : str) : str := namespace ++ [x01] ++ key.
Definition oracle_put_kv (namespace key : str) (payload : bytes) (o : WombatKvOracle) : WombatKvOracle :=
  mkOracle (<[composite_key namespace key := payload]> (oracle_store o)) (saturating_add (ops_observed o) 1).
Definition oracle_put_kv_failed (namespace key : str) (o : WombatKvOracle) : WombatKvOracle :=
  mkOracle (oracle_store o) (saturating_add (ops_observed o) 1).
Definition oracle_get_kv (namespace key : str) (o : WombatKvOracle) : OracleGetOutcome :=
  match oracle_store o !! composite_key namespace key with
  | Some b => OracleHit b
  | None => OracleMiss
  end.
(** [keys], in the order of the [BTreeMap]. *)
Definition oracle_keys (o : WombatKvOracle) : list (str * str) :=
  map (fun composite => match split_once x01 composite with Some nk => nk | None => ([], composite) end)
    (btree_keys bytes_cmp (oracle_store o)).
Definition oracle_len (o : WombatKvOracle) : Z := Z.of_nat (size (oracle_store o)).
Definition oracle_is_empty (o : WombatKvOracle) : bool := bool_decide (oracle_store o = ∅).

Inductive Verdict :=
| Match
| Divergence (namespace key : str) (expected observed : OracleGetOutcome).
Definition check_get (oracle : WombatKvOracle) (namespace key : str) (observed : OracleGetOutcome) : Verdict :=
  let expected := oracle_get_kv namespace key oracle in
  if decide (expected = observed) then Match else Divergence namespace key expected observed.

(** ** The oracle and the store, side by side *)

(** An operation of a simulated run.  [Faulted] is a put that an injected fault
    suppresses before it does anything. *)
Inductive SimOp :=
| SimPut (namespace key : str) (payload : bytes)
| SimFaulted (namespace key : str)
| SimGet (namespace key : str)
| SimClearFoyer
| SimClearFlat.

Section Run.
Context {S : Type} `{!ObjectStore S} {H : Type} `{!HybridCache H} `{!Zstd}.
Abbreviation KvStore := (WombatKVKvStore S H).

(** What a get observed, for comparison; an error is no observation. *)
Definition observed (r : result GetOutcome EmbedError) : option OracleGetOutcome :=
  match r with
  | Ok (Hit _ payload) => Some (OracleHit payload)
  | Ok Miss => Some OracleMiss
  | Err _ => None
  end.

(** One operation on both; a get yields its verdict, [None] when it failed. *)
Definition sim_op (op : SimOp) (st : WombatKvOracle * KvStore)
  : (WombatKvOracle * KvStore) * list (option Verdict) :=
  let (o, k) := st in
  match op with
  | SimPut ns key payload =>
      let (k, r) := put_kv ns key payload k in
      ((match r with Ok _ => oracle_put_kv ns key payload o | Err _ => oracle_put_kv_failed ns key o end, k), [])
  | SimFaulted ns key => ((oracle_put_kv_failed ns key o, k), [])
  | SimGet ns key =>
      let (k, r) := get_kv ns key k in
      ((o, k), [(fun x => check_get o ns key x) <$> observed r])
  | SimClearFoyer => ((o, clear_foyer k), [])
  | SimClearFlat => ((o, clear_flat_cache k), [])
  end.
Fixpoint sim_run (ops : list SimOp) (st : WombatKvOracle * KvStore)
  : (WombatKvOracle * KvStore) * list (option Verdict) :=
  match ops with
  | [] => (st, [])
  | op :: rest =>
      let (st, v) := sim_op op st in
      let (st, vs) := sim_run rest st in
      (st, v ++ vs)
  end.
End Run.

(** ** Well-formed names *)

(** A namespace and a key that no other pair of names can be confused with. *)
Definition plain (s : str) : Prop := Forall (fun c => plain_char c = true) s.
Definition good_names (ns key : str) : Prop := ns <> [] /\ plain ns /\ ("/"%byte ∉ ns) /\ plain key.

Lemma plain_no_sep s : plain s -> x01 ∉ s.
Proof.
  intros Hs Hin. unfold plain in Hs. rewrite Forall_forall in Hs. specialize (Hs x01 Hin). vm_compute in Hs. discriminate.
Qed.

Lemma composite_key_inj ns key ns' key' :
  good_names ns key -> good_names ns' key' -> composite_key ns key = composite_key ns' key' -> ns = ns' /\ key = key'.
Proof.
  intros (_ & Hp & _) (_ & Hp' & _) E. by apply (split_unique x01 ns ns' key key'); [apply plain_no_sep..|].
Qed.

Section Names.
Context {S H : Type} `{!HybridCache H} (k : WombatKVKvStore S H).

Lemma object_key_good ns key :
  ns <> [] -> object_key k ns key = kv_s3_prefix k ++ "/"%byte :: ns ++ "/"%byte :: key.
Proof. intros Hn. unfold object_key. by rewrite decide_False. Qed.

Lemma object_key_inj ns key ns' key' :
  good_names ns key -> good_names ns' key' -> object_key k ns key = object_key k ns' key' -> ns = ns' /\ key = key'.
Proof.
  intros (Hn & _ & Hs & _) (Hn' & _ & Hs' & _). rewrite !object_key_good by done.
  intros E%app_inv_head. injection E as E. by apply (split_unique "/"%byte).
Qed.

Lemma object_key_plain ns key : plain (kv_s3_prefix k) -> good_names ns key -> plain (object_key k ns key).
Proof.
  intros Hp (Hn & Hns & _ & Hk). rewrite object_key_good by done. unfold plain.
  repeat (apply Forall_app; split; [done|]; apply Forall_cons; split; [reflexivity|]). done.
Qed.

(** The names are confused when a slash may move between them. *)
Lemma object_key_confusable a b c :
  a <> [] -> object_key k a (b ++ lit "/" ++ c) = object_key k (a ++ lit "/" ++ b) c.
Proof.
  intros Ha. rewrite !object_key_good; [|by destruct a|done]. rewrite <- !app_assoc. done.
Qed.
End Names.

(** ** The store implements the oracle *)
Section Refinement.
Context {S : Type} `{!ObjectStore S} `{!ObjectStoreLaws S} `{!ReliableStore S}
  {H : Type} `{!HybridCache H} `{!HybridCacheLaws H} `{!Zstd} `{!ZstdLaws}.
Abbreviation KvStore := (WombatKVKvStore S H).
(** The payload each pair of names stands for, and the store at the start. *)
Context (c : str -> str -> bytes) (k0 : KvStore).
Context (Hprefix : plain (kv_s3_prefix k0)).

(** The keys of well-formed names. *)
Definition named (x : str) : Prop := exists ns key, good_names ns key /\ x = object_key k0 ns key.
(** The operations of a content-addressed run: a put carries the payload of its
    names, which the codec accepts and stores faithfully. *)
Definition op_ok (op : SimOp) : Prop :=
  match op with
  | SimPut ns key v =>
      good_names ns key /\ v = c ns key /\ storable (kv_compression k0) v /\
      is_ok (encode_for_storage v (kv_compression k0) key) = true
  | SimFaulted ns key | SimGet ns key => good_names ns key
  | SimClearFoyer | SimClearFlat => True
  end.

Lemma named_files x y : named x -> named y -> path_for_key x = path_for_key y -> x = y.
Proof.
  intros (ns & key & Hg & ->) (ns' & key' & Hg' & ->). apply path_for_key_plain_inj; by apply object_key_plain.
Qed.

(** The settings an operation leaves alone. *)
Definition same_settings (k : KvStore) : Prop :=
  kv_s3_prefix k = kv_s3_prefix k0 /\ kv_compression k = kv_compression k0 /\
  kv_write_through_s3 k = kv_write_through_s3 k0.
Lemma same_object_key k ns key : same_settings k -> object_key k ns key = object_key k0 ns key.
Proof. intros (E & _). unfold object_key. by rewrite E. Qed.

Lemma coherent_mono A A' (k : KvStore) :
  (forall x v, named x -> A x = Some v -> A' x = Some v) -> coherent named A k -> coherent named A' k.
Proof.
  intros Hm (Hfl & (m & Hh & Ha) & Hs). split; [intros x v Hx Hv; eauto|]. split; [|intros x b Hx Hb; eauto].
  exists m. split; [done|]. intros x v Hx Hv. eauto.
Qed.

(** On a reliable store a get does not fail, and changes the caches only. *)
Lemma get_kv_reliable ns key (k k' : KvStore) r :
  reliable (kv_object_store k) -> same_settings k -> get_kv ns key k = (k', r) ->
  (exists g, r = Ok g) /\ reliable (kv_object_store k') /\ same_settings k' /\
  contents (kv_object_store k') = contents (kv_object_store k).
Proof.
  intros Hr Hk. unfold get_kv. destruct (flat_get _ _) as [c1 [[v1 l1]|]]; [intros [= <- <-]; eauto|].
  destruct (foyer_get_with_tier _ _) as [f1 [[v2 t2]|]]; [intros [= <- <-]; eauto|].
  cbn [kv_object_store set_foyer set_flat].
  destruct (reliable_get (object_key (set_foyer f1 (set_flat c1 k)) ns key) _ Hr) as (s' & Hget & Hr').
  rewrite Hget. destruct (get_object_law _ _ _ _ Hget) as [Hc _].
  destruct (contents _ !! _) as [b|]; run_res; intros [= <- <-]; eauto.
Qed.

(** On a reliable store a put of an encodable payload succeeds; its object is
    there afterwards, and no object is gone. *)
Lemma put_kv_reliable ns key v (k : KvStore) :
  reliable (kv_object_store k) -> same_settings k -> kv_write_through_s3 k0 = true ->
  is_ok (encode_for_storage v (kv_compression k0) key) = true ->
  exists k', put_kv ns key v k = (k', Ok tt) /\ reliable (kv_object_store k') /\ same_settings k' /\
    forall x, is_Some (contents (kv_object_store k) !! x) \/ x = object_key k0 ns key ->
              is_Some (contents (kv_object_store k') !! x).
Proof.
  intros Hr Hk Hw He. pose proof Hk as (_ & Ec & Ew).
  destruct (put_kv_durable ns key v k Hr) as (k' & E & Hx); [congruence|by rewrite Ec|].
  pose proof (put_kv_kept ns key v k) as [Hkept Hrel]. pose proof (put_kv_meta ns key v k) as Em.
  rewrite E in *. cbn [fst] in *. injection Em as E1 E2 E3 _. exists k'. split; [done|]. split; [auto|].
  split; [destruct Hk as (? & ? & ?); repeat split; congruence|].
  intros x [?| ->]; [auto|]. by rewrite <- (same_object_key k).
Qed.

(** The relation between the two: [A] is what has been put, by object key. *)
Definition sim_rel (o : WombatKvOracle) (k : KvStore) : Prop :=
  exists A : gmap str bytes,
    coherent named (fun x => A !! x) k /\
    (forall ns key, good_names ns key -> oracle_store o !! composite_key ns key = A !! object_key k0 ns key) /\
    (forall ns key v, good_names ns key -> A !! object_key k0 ns key = Some v -> v = c ns key) /\
    (forall x, is_Some (A !! x) -> is_Some (contents (kv_object_store k) !! x)) /\
    reliable (kv_object_store k) /\ same_settings k.

Lemma sim_put ns key v o k :
  kv_write_through_s3 k0 = true -> op_ok (SimPut ns key v) -> sim_rel o k ->
  exists k', put_kv ns key v k = (k', Ok tt) /\ sim_rel (oracle_put_kv ns key v o) k'.
Proof.
  intros Hw (Hg & Hv & Hst & He) (A & Hc & Ho & Hd & Hs & Hr & Hk).
  destruct (put_kv_reliable ns key v k Hr Hk Hw He) as (k' & Hput & Hr' & Hk' & Hx).
  exists k'. split; [done|]. exists (<[object_key k0 ns key := v]> A).
  assert (forall x w, named x -> A !! x = Some w -> <[object_key k0 ns key := v]> A !! x = Some w) as Hm.
  { intros x w _ Hxw. destruct (decide (x = object_key k0 ns key)) as [->|Hne].
    - rewrite lookup_insert_eq. f_equal. rewrite Hv. symmetry. by apply Hd.
    - by rewrite lookup_insert_ne. }
  split.
  { replace k' with (fst (put_kv ns key v k)) by by rewrite Hput.
    apply put_kv_coherent; unfold cache_key; rewrite ?(same_object_key k) by done.
    - apply named_files.
    - by exists ns, key.
    - by rewrite lookup_insert_eq.
    - by destruct Hk as (_ & -> & _).
    - exact (coherent_mono _ _ _ Hm Hc). }
  split.
  { intros ns' key' Hg'. cbn [oracle_store oracle_put_kv].
    destruct (decide (composite_key ns' key' = composite_key ns key)) as [E|Hne].
    - destruct (composite_key_inj _ _ _ _ Hg' Hg E) as [-> ->]. by rewrite !lookup_insert_eq.
    - rewrite !lookup_insert_ne; [by apply Ho| |done].
      intros E. symmetry in E. apply object_key_inj in E as [-> ->]; done. }
  split.
  { intros ns' key' w Hg'. destruct (decide (object_key k0 ns' key' = object_key k0 ns key)) as [E|Hne].
    - pose proof E as E'. apply object_key_inj in E' as [-> ->]; [|done..]. rewrite lookup_insert_eq. congruence.
    - rewrite lookup_insert_ne by done. by apply Hd. }
  split; [|done]. intros x [E|E]%lookup_insert_is_Some'; apply Hx; [by right|by left; apply Hs].
Qed.

Lemma sim_get ns key o k k' r :
  good_names ns key -> sim_rel o k -> get_kv ns key k = (k', r) ->
  sim_rel o k' /\ observed r = Some (oracle_get_kv ns key o).
Proof.
  intros Hg (A & Hc & Ho & Hd & Hs & Hr & Hk) E.
  assert (cache_key k ns key = object_key k0 ns key) as Ek by by apply same_object_key.
  assert (named (cache_key k ns key)) as Hn by (rewrite Ek; by exists ns, key).
  destruct (get_kv_coherent named (fun x => A !! x) named_files ns key k k' r Hn Hc E) as [Hc' Hhit].
  destruct (get_kv_reliable ns key k k' r Hr Hk E) as ((g & ->) & Hr' & Hk' & Ecs). split.
  { exists A. by rewrite Ecs. }
  unfold oracle_get_kv. rewrite Ho by done. rewrite Ek in Hhit.
  destruct g as [t v|]; cbn [observed].
  - by rewrite (Hhit t v eq_refl).
  - destruct (A !! object_key k0 ns key) as [v|] eqn:Ea; [|done]. exfalso.
    destruct (Hs (object_key k0 ns key)) as [b Hb]; [eauto|].
    destruct (get_kv_finds named (fun x => A !! x) named_files ns key v b k) as (k2 & t & E2);
      rewrite ?Ek; try done; [by rewrite <- Ek|by rewrite (same_object_key k)|]. congruence.
Qed.

Lemma sim_rel_faulted ns key o k : sim_rel o k -> sim_rel (oracle_put_kv_failed ns key o) k.
Proof. done. Qed.
Lemma sim_rel_clear_foyer o k : sim_rel o k -> sim_rel o (clear_foyer k).
Proof.
  intros (A & (Hfl & Hfo & Hst) & Hrest). exists A. split; [|done].
  split; [done|]. split; [by apply foyer_clear_coherent|done].
Qed.
Lemma sim_rel_clear_flat o k : sim_rel o k -> sim_rel o (clear_flat_cache k).
Proof.
  intros (A & (Hfl & Hfo & Hst) & Hrest). exists A. split; [|done]. split; [by apply flat_clear_coherent|done].
Qed.

Lemma sim_run_matches ops o k :
  kv_write_through_s3 k0 = true -> Forall op_ok ops -> sim_rel o k ->
  Forall (fun v => v = Some Match) (snd (sim_run ops (o, k))).
Proof.
  intros Hw Hops. revert o k. induction Hops as [|op ops Hop _ IH]; intros o k Hrel; [constructor|].
  cbn [sim_run sim_op]. destruct op as [ns key v|ns key|ns key| |].
  - destruct (sim_put ns key v o k Hw Hop Hrel) as (k' & -> & Hrel').
    specialize (IH _ _ Hrel'). by destruct (sim_run ops _).
  - specialize (IH _ _ (sim_rel_faulted ns key o k Hrel)). by destruct (sim_run ops _).
  - destruct (get_kv ns key k) as [k' r] eqn:E. destruct (sim_get ns key o k k' r Hop Hrel E) as [Hrel' ->].
    specialize (IH _ _ Hrel'). destruct (sim_run ops _). cbn [snd] in *.
    apply Forall_cons. split; [|done]. cbn. unfold check_get. by rewrite decide_True.
  - specialize (IH _ _ (sim_rel_clear_foyer o k Hrel)). by destruct (sim_run ops _).
  - specialize (IH _ _ (sim_rel_clear_flat o k Hrel)). by destruct (sim_run ops _).
Qed.

(** C34: the store implements the reference oracle.  From a fresh oracle and a
    store whose bucket and caches hold nothing under well-formed names, any
    sequence of written-through, content-addressed puts, suppressed puts, gets
    and cache clearings, with file-system calls of the flat cache failing and
    the foyer cache forgetting at will, yields no divergence: every get is
    answered, hit or miss, with what the oracle predicts. *)
Theorem oracle_never_diverges ops :
  kv_write_through_s3 k0 = true -> reliable (kv_object_store k0) ->
  coherent named (fun _ => None) k0 -> Forall op_ok ops ->
  Forall (fun v => v = Some Match) (snd (sim_run ops (oracle_new, k0))).
Proof.
  intros Hw Hr Hc Hops. apply sim_run_matches; [done..|]. exists ∅.
  split; [by apply (coherent_mono (fun _ => None))|]. split; [done|]. split; [|split; [|done]].
  - intros ns key v _ E. by rewrite lookup_empty in E.
  - intros x [v E]. by rewrite lookup_empty in E.
Qed.
End Refinement.

(** *** A run *)
Definition sample_ops : list SimOp :=
  [SimGet (lit "ns") (lit "k"); SimPut (lit "ns") (lit "k") (lit "payload"); SimClearFlat; SimClearFoyer;
   SimFaulted (lit "ns") (lit "j"); SimGet (lit "ns") (lit "k"); SimGet (lit "ns") (lit "j")].

Lemma oracle_never_diverges_witness :
  Forall (fun v => v = Some Match) (snd (sim_run (H0 := store_codec) sample_ops (oracle_new, sample_store))) /\
  len (snd (sim_run (H0 := store_codec) sample_ops (oracle_new, sample_store))) = 3.
Proof.
  split; [|vm_compute; reflexivity].
  refine (@oracle_never_diverges InMemoryObjectStore _ _ _ MapCache _ _ store_codec store_codec_laws
            (fun _ _ => lit "payload") sample_store _ sample_ops eq_refl _ _ _).
  - repeat constructor.
  - reflexivity.
  - split; [|split].
    + intros k v _ Hv. unfold visible in Hv. cbn in Hv. rewrite lookup_empty in Hv. discriminate.
    + exists ∅. split; [apply map_empty_subseteq|]. intros k v _ Hv. rewrite lookup_empty in Hv. discriminate.
    + intros k b _ Hb. cbn in Hb. rewrite lookup_empty in Hb. discriminate.
  - assert (good_names (lit "ns") (lit "k") /\ good_names (lit "ns") (lit "j")) as [Hk Hj].
    { split; (split; [discriminate|]; split; [repeat constructor|]; split; [vm_compute; set_solver|repeat constructor]). }
    repeat (apply Forall_cons; split; [cbn; auto|]); [|constructor].
    split; [done|]. split; [done|]. split; [discriminate|reflexivity].
Defined.

(** ** Where the two part *)

(** A put whose write to the object store fails has already filled the caches:
    the next get hits, where the oracle of a failed put predicts a miss. *)
Lemma failed_put_still_hits {S H} `{!ObjectStore S, !HybridCache H, !Zstd} ns key v (k k1 : WombatKVKvStore S H) e :
  faults (kv_flat k) = [] -> root_present (kv_flat k) = true -> put_kv ns key v k = (k1, Err e) ->
  observed (snd (get_kv ns key k1)) = Some (OracleHit v).
Proof.
  intros Hf R Hput.
  destruct (flat_put_no_fault (cache_key k ns key) v (kv_flat k) Hf R) as (Hf1 & R1 & Hv).
  assert (kv_flat k1 = flat_put (cache_key k ns key) v (kv_flat k) /\ cache_key k1 ns key = cache_key k ns key)
    as [Efl Eck].
  { revert Hput. unfold put_kv, on_store. destruct (encode_for_storage _ _ _); [|by intros [= <- _]].
    destruct (put_object _ _ _). destruct (kv_write_through_s3 _); [by intros [= <- _]|done]. }
  unfold get_kv. rewrite Eck, Efl. destruct (flat_get _ _) as [c r] eqn:E.
  destruct (flat_get_visible _ _ _ _ E) as (_ & _ & Hr). destruct (Hr Hf1) as (_ & _ & ->).
  rewrite Hv. by rewrite decide_True.
Qed.
