(* ===== verification/Arena.v ===== *)
(** * The shared-memory arena ([arena.rs])

    Models [crates/wombatkv-daemon/src/arena.rs]: a file mapped by the daemon,
    which bump-allocates payloads in it and wraps around at its end, and by
    clients, which read a payload by offset and length.  The first 64 bytes hold
    the next offset and the number of wraps.  [None] is a panic; arithmetic is
    that of a release build.  A reader sees the file as it is when it reads.

    The theorem shows that the writer never panics, keeps its header sound, and
    how long a payload stays intact: until the wrapped allocator reaches it. *)

From S2P Require Import Prelude Text.

Definition ARENA_HEADER_BYTES : Z := 64.
Definition DEFAULT_ARENA_BYTES : Z := 1024 * 1024 * 1024.
Definition NEXT_OFFSET_AT : Z := 0.
Definition WRAP_EPOCH_AT : Z := 8.

Inductive ArenaError :=
| ArenaIo (e : str)
| PayloadTooLarge (payload max_slab : Z)
| OutOfBounds (offset n arena : Z).

(** [Display for ArenaError] *)
Definition arena_error_display (e : ArenaError) : str :=
  match e with
  | ArenaIo e => lit "arena io: " ++ e
  | PayloadTooLarge payload max_slab => lit "arena payload " ++ dec payload ++ lit " > max_slab " ++ dec max_slab
  | OutOfBounds offset n arena =>
      lit "arena read out of bounds: offset=" ++ dec offset ++ lit " len=" ++ dec n ++ lit " arena_size=" ++ dec arena
  end.

Record ArenaWriter := mkArenaWriter { mmap : bytes; arena_size : Z }.
(** The mapping of a reader is the file itself, an argument of its reads. *)
Record ArenaReader := mkArenaReader { reader_size : Z }.

(** [m[i..j]] and [m[i..i + bs.len()].copy_from_slice(bs)]: a range that is not
    one of [m] panics. *)
Definition index_range (i j : Z) (m : bytes) : option bytes :=
  if decide (i <= j <= len m) then Some (slice i j m) else None.
Definition copy_at (i : Z) (bs m : bytes) : option bytes :=
  if decide (i + len bs <= len m) then Some (slice 0 i m ++ bs ++ slice (i + len bs) (len m) m) else None.

(** [create]: the outcomes of the system calls are arguments; the truncated file
    extended to its size is all zeros. *)
Definition arena_create (opened sized mapped : result unit str) (size_bytes : Z)
  : option (result ArenaWriter ArenaError) :=
  if negb (bool_decide (ARENA_HEADER_BYTES < size_bytes)) then None else
  match opened, sized, mapped with
  | Ok _, Ok _, Ok _ =>
      let file := replicate (Z.to_nat size_bytes) x00 in
      header ← copy_at 0 (replicate (Z.to_nat ARENA_HEADER_BYTES) x00) file;
      m ← copy_at NEXT_OFFSET_AT (le_bytes 8 ARENA_HEADER_BYTES) header;
      Some (Ok (mkArenaWriter m size_bytes))
  | Err e, _, _ | _, Err e, _ | _, _, Err e => Some (Err (ArenaIo e))
  end.

Definition write_payload (bs : bytes) (w : ArenaWriter) : option (ArenaWriter * result (Z * Z) ArenaError) :=
  let n := len bs in
  let max_slab := wrap64 (arena_size w - ARENA_HEADER_BYTES) in
  if decide (max_slab < n) then Some (w, Err (PayloadTooLarge n max_slab)) else
  next_bytes ← index_range NEXT_OFFSET_AT (NEXT_OFFSET_AT + 8) (mmap w);
  let next_off := le_val next_bytes in
  let '(slab_off, new_next, did_wrap) :=
    if decide (arena_size w < wrap64 (next_off + n))
    then (ARENA_HEADER_BYTES, wrap64 (ARENA_HEADER_BYTES + n), true)
    else (next_off, wrap64 (next_off + n), false) in
  m ← copy_at slab_off bs (mmap w);
  m ← copy_at NEXT_OFFSET_AT (le_bytes 8 new_next) m;
  m ← (if did_wrap then
         prev ← index_range WRAP_EPOCH_AT (WRAP_EPOCH_AT + 8) m;
         copy_at WRAP_EPOCH_AT (le_bytes 8 (wrap64 (le_val prev + 1))) m
       else Some m);
  Some (mkArenaWriter m (arena_size w), Ok (slab_off, wrap32 n)).

Definition next_offset (w : ArenaWriter) : option Z :=
  le_val <$> index_range NEXT_OFFSET_AT (NEXT_OFFSET_AT + 8) (mmap w).
Definition wrap_epoch (file : bytes) : option Z :=
  le_val <$> index_range WRAP_EPOCH_AT (WRAP_EPOCH_AT + 8) file.

(** [open] on a file of the given contents. *)
Definition arena_open (opened : result bytes str) (mapped : result unit str) : result ArenaReader ArenaError :=
  let? file := map_err ArenaIo opened in
  let? _ := map_err ArenaIo mapped in
  Ok (mkArenaReader (len file)).
Definition read_payload (file : bytes) (offset n : Z) (r : ArenaReader) : option (result bytes ArenaError) :=
  let stop := wrap64 (offset + n) in
  if bool_decide (reader_size r < stop) || bool_decide (offset < ARENA_HEADER_BYTES)
  then Some (Err (OutOfBounds offset n (reader_size r)))
  else Ok <$> index_range offset stop file.

Definition arena_path (prefix : str) : str := lit "/tmp/wombatkv-arena-" ++ prefix ++ lit ".bin".

(** Payloads written one after the other, their outcomes dropped. *)
Fixpoint write_all (payloads : list bytes) (w : ArenaWriter) : option ArenaWriter :=
  match payloads with
  | [] => Some w
  | p :: rest => '(w, _) ← write_payload p w; write_all rest w
  end.

(** ** Copies *)
Lemma copy_at_ok i bs m :
  0 <= i -> i + len bs <= len m ->
  exists m', copy_at i bs m = Some m' /\ len m' = len m /\ slice i (i + len bs) m' = bs /\
    forall a b, 0 <= a <= b -> b <= len m -> b <= i \/ i + len bs <= a -> slice a b m' = slice a b m.
Proof.
  intros Hi Hm. unfold copy_at. rewrite decide_True by done. eexists. split; [reflexivity|].
  pose proof (len_nonneg bs). assert (len (slice 0 i m) = i) as Hl by (rewrite length_slice_le; lia).
  split; [rewrite !len_app, Hl, length_slice_le; lia|]. split; [apply slice_app; lia|].
  intros a b Hab Hb [Hd|Hd].
  - rewrite slice_app_l by lia. rewrite slice_slice by lia. f_equal; lia.
  - rewrite app_assoc, slice_skip by (rewrite len_app; lia). rewrite len_app, Hl, slice_slice by lia. f_equal; lia.
Qed.

Lemma index_range_ok i j m : i <= j <= len m -> index_range i j m = Some (slice i j m).
Proof. intros. unfold index_range. by rewrite decide_True. Qed.

(** ** The writer *)

(** A mapping of the right size, no larger than a mapping can be, whose next
    offset lies in the payload area or at its end. *)
Definition next_of (m : bytes) : Z := le_at 8 0 m.
Definition epoch_of (m : bytes) : Z := le_at 8 8 m.
Record arena_inv (w : ArenaWriter) : Prop := {
  inv_len : len (mmap w) = arena_size w;
  inv_size : 64 < arena_size w < 2 ^ 63;
  inv_next : 64 <= next_of (mmap w) <= arena_size w
}.

Lemma header_u64 m i : 0 <= i -> i + 8 <= len m -> 0 <= le_at 8 i m < 2 ^ 64.
Proof. intros. by apply (le_at_range 8). Qed.

(** Writing one of the two header fields. *)
Lemma put_header i z m :
  0 <= i -> i + 8 <= len m -> 0 <= z < 2 ^ 64 ->
  exists m', copy_at i (le_bytes 8 z) m = Some m' /\ len m' = len m /\ le_at 8 i m' = z /\
    forall a b, 0 <= a <= b -> b <= len m -> b <= i \/ i + 8 <= a -> slice a b m' = slice a b m.
Proof.
  intros Hi Hm Hz. destruct (copy_at_ok i (le_bytes 8 z) m) as (m' & E & Hl & Hs & Hd);
    rewrite ?len_le_bytes in *; try done.
  exists m'. split; [done|]. split; [done|]. split; [|done].
  unfold le_at. change (Z.of_nat 8) with 8 in *. rewrite Hs. by apply (le_val_bytes_small 8).
Qed.

(** Whether a payload of [n] bytes makes the allocator wrap. *)
Definition wraps (n : Z) (w : ArenaWriter) : bool := bool_decide (arena_size w < next_of (mmap w) + n).
Definition slab_of (n : Z) (w : ArenaWriter) : Z := if wraps n w then 64 else next_of (mmap w).

Lemma write_payload_ok bs w :
  arena_inv w -> len bs <= arena_size w - 64 ->
  let n := len bs in let off := slab_of n w in
  exists w', write_payload bs w = Some (w', Ok (off, wrap32 n)) /\
    arena_inv w' /\ arena_size w' = arena_size w /\ next_of (mmap w') = off + n /\ 64 <= off /\
    epoch_of (mmap w') = wrap64 (epoch_of (mmap w) + Z.b2z (wraps n w)) /\
    slice off (off + n) (mmap w') = bs /\
    forall a b, 64 <= a <= b -> b <= arena_size w -> b <= off \/ off + n <= a ->
                slice a b (mmap w') = slice a b (mmap w).
Proof.
  intros [Hl Hs Hn] Hb n off. pose proof (len_nonneg bs : 0 <= n). pose proof (header_u64 (mmap w) 8) as He.
  assert (64 <= off /\ off + n <= arena_size w) as [Ho Ho'].
  { unfold off, slab_of, wraps. case_bool_decide; lia. }
  unfold write_payload. fold n. unfold ARENA_HEADER_BYTES, wrap64.
  rewrite (Z.mod_small (arena_size w - 64)) by lia. rewrite decide_False by lia.
  unfold NEXT_OFFSET_AT, WRAP_EPOCH_AT. rewrite index_range_ok by lia. cbn [mbind option_bind].
  change (le_val (slice 0 (0 + 8) (mmap w))) with (next_of (mmap w)).
  rewrite (Z.mod_small (64 + n)), (Z.mod_small (next_of (mmap w) + n)) by lia.
  assert ((if decide (arena_size w < next_of (mmap w) + n) then (64, 64 + n, true)
           else (next_of (mmap w), next_of (mmap w) + n, false)) = (off, off + n, wraps n w)) as ->.
  { unfold off, slab_of, wraps. case_bool_decide; [by rewrite decide_True|by rewrite decide_False]. }
  destruct (copy_at_ok off bs (mmap w)) as (m1 & -> & Hl1 & Hs1 & Hd1); [lia|fold n; lia|]. fold n in Hs1, Hd1.
  cbn [mbind option_bind].
  destruct (put_header 0 (off + n) m1) as (m2 & -> & Hl2 & Hs2 & Hd2); [lia..|]. cbn [mbind option_bind].
  assert (epoch_of m2 = epoch_of (mmap w)) as Ep.
  { unfold epoch_of, le_at. rewrite Hd2, Hd1 by lia. done. }
  fold (epoch_of (mmap w)) in He.
  assert (exists m3, (if wraps n w then
            prev ← index_range 8 (8 + 8) m2; copy_at 8 (le_bytes 8 ((le_val prev + 1) mod 2 ^ 64)) m2
          else Some m2) = Some m3 /\ len m3 = len m2 /\
          epoch_of m3 = (epoch_of (mmap w) + Z.b2z (wraps n w)) mod 2 ^ 64 /\
          forall a b, 0 <= a <= b -> b <= len m2 -> b <= 8 \/ 16 <= a -> slice a b m3 = slice a b m2)
    as (m3 & E3 & Hl3 & Hs3 & Hd3).
  { destruct (wraps n w); cbn [Z.b2z].
    - rewrite index_range_ok by lia. cbn [mbind option_bind].
      change (le_val (slice 8 (8 + 8) m2)) with (epoch_of m2). rewrite Ep.
      apply put_header; [lia..|]. apply Z.mod_pos_bound. lia.
    - exists m2. rewrite Z.add_0_r, Z.mod_small by lia. by rewrite Ep. }
  change 18446744073709551616 with (2 ^ 64). rewrite E3. cbn [mbind option_bind].
  eexists. split; [reflexivity|]. cbn [mmap arena_size].
  assert (next_of m3 = off + n) as Hnx by (unfold next_of, le_at in *; rewrite Hd3 by lia; exact Hs2).
  split; [split; cbn [mmap arena_size]; rewrite ?Hnx; lia|]. split; [done|]. split; [done|]. split; [done|].
  split; [done|]. split; [rewrite Hd3, Hd2 by lia; exact Hs1|].
  intros a b Ha Hb' Hdis. rewrite Hd3, Hd2, Hd1 by lia. done.
Qed.

Lemma write_payload_too_large bs w :
  arena_inv w -> arena_size w - 64 < len bs ->
  write_payload bs w = Some (w, Err (PayloadTooLarge (len bs) (arena_size w - 64))).
Proof.
  intros [Hl Hs Hn] Hb. unfold write_payload, ARENA_HEADER_BYTES, wrap64. rewrite Z.mod_small by lia.
  by rewrite decide_True.
Qed.

Lemma arena_create_inv size :
  64 < size < 2 ^ 63 ->
  exists w, arena_create (Ok tt) (Ok tt) (Ok tt) size = Some (Ok w) /\ arena_inv w /\
            arena_size w = size /\ next_of (mmap w) = 64 /\ epoch_of (mmap w) = 0.
Proof.
  intros Hs. unfold arena_create, ARENA_HEADER_BYTES, NEXT_OFFSET_AT. rewrite bool_decide_eq_true_2 by lia. cbn [negb].
  assert (len (replicate (Z.to_nat size) x00) = size) as Hl by (unfold len; rewrite length_replicate; lia).
  destruct (copy_at_ok 0 (replicate (Z.to_nat 64) x00) (replicate (Z.to_nat size) x00)) as (m1 & -> & Hl1 & Hz & _);
    [lia|rewrite Hl; change (len (replicate (Z.to_nat 64) x00)) with 64; lia|]. cbn [mbind option_bind].
  destruct (put_header 0 64 m1) as (m2 & -> & Hl2 & Hn2 & Hk); [lia..|]. cbn [mbind option_bind].
  eexists. split; [reflexivity|]. cbn [mmap arena_size].
  split; [split; cbn [mmap arena_size]; [lia|lia|unfold next_of; rewrite Hn2; lia]|]. do 2 (split; [done|]).
  unfold epoch_of, le_at. rewrite Hk by lia. change (0 + len (replicate (Z.to_nat 64) x00)) with 64 in Hz.
  replace (slice 8 (8 + Z.of_nat 8) m1) with (slice 8 16 (slice 0 64 m1)) by (rewrite slice_slice by lia; done). by rewrite Hz.
Qed.

(** ** The reader *)
Lemma read_payload_ok file off n :
  64 <= off -> 0 <= n -> off + n <= len file -> len file < 2 ^ 63 ->
  read_payload file off n (mkArenaReader (len file)) = Some (Ok (slice off (off + n) file)).
Proof.
  intros. unfold read_payload, wrap64, ARENA_HEADER_BYTES. cbn [reader_size]. rewrite Z.mod_small by lia.
  rewrite !bool_decide_eq_false_2 by lia. cbn [orb]. by rewrite index_range_ok by lia.
Qed.

(** A read outside the arena is refused, unless the end overflows to a value
    within the arena: then the slice panics. *)
Lemma read_payload_outside file off n :
  0 <= off < 2 ^ 64 -> 0 <= n -> off < 64 \/ len file < off + n < 2 ^ 64 ->
  read_payload file off n (mkArenaReader (len file)) = Some (Err (OutOfBounds off n (len file))).
Proof.
  intros Ho Hn Hout. unfold read_payload, wrap64, ARENA_HEADER_BYTES. cbn [reader_size].
  destruct Hout as [Hout|Hout].
  - rewrite (bool_decide_eq_true_2 (off < 64)) by lia. by rewrite orb_true_r.
  - rewrite Z.mod_small by lia. by rewrite bool_decide_eq_true_2 by lia.
Qed.
Lemma read_payload_overflow_panics file off n :
  64 <= off < 2 ^ 64 -> 0 <= n <= u32_max -> 2 ^ 64 <= off + n -> off + n - 2 ^ 64 <= len file ->
  read_payload file off n (mkArenaReader (len file)) = None.
Proof.
  intros Ho Hn Hov Hfit. unfold read_payload, wrap64, ARENA_HEADER_BYTES. cbn [reader_size].
  assert ((off + n) mod 18446744073709551616 = off + n - 2 ^ 64) as -> by (symmetry; apply (Z.mod_unique _ _ 1); lia).
  rewrite !bool_decide_eq_false_2 by lia. cbn [orb]. unfold index_range. by rewrite decide_False by lia.
Qed.

(** ** How long a payload stays *)

Lemma mod_add_same a x y n : 0 <= x < n -> 0 <= y < n -> (a + x) mod n = (a + y) mod n -> x = y.
Proof.
  intros Hx Hy E. rewrite <- (Z.mod_small x n), <- (Z.mod_small y n) by lia.
  replace x with ((a + x) - a) by lia. replace y with ((a + y) - a) by lia.
  rewrite Zminus_mod, E, <- Zminus_mod. done.
Qed.

(** The payload at [off] as seen [c] wraps later. *)
Definition slab_kept (bs : bytes) (off c : Z) (w : ArenaWriter) : Prop :=
  (c = 0 -> off + len bs <= next_of (mmap w)) /\
  (c = 0 \/ c = 1 /\ next_of (mmap w) <= off -> slice off (off + len bs) (mmap w) = bs).

Lemma write_payload_kept bs off c w p w' r :
  0 <= c -> arena_inv w -> 64 <= off -> off + len bs <= arena_size w -> slab_kept bs off c w ->
  write_payload p w = Some (w', r) ->
  exists d, (d = 0 \/ d = 1) /\ arena_inv w' /\ arena_size w' = arena_size w /\ slab_kept bs off (c + d) w' /\
            epoch_of (mmap w') = wrap64 (epoch_of (mmap w) + d).
Proof.
  intros Hc Hw Ho Hfit [Hk0 Hk] E. pose proof (len_nonneg bs). pose proof (len_nonneg p).
  destruct (Z_le_dec (len p) (arena_size w - 64)) as [Hp|Hp].
  2: { rewrite write_payload_too_large in E by (done || lia). injection E as <- _. exists 0. rewrite !Z.add_0_r.
       split; [by left|]. do 2 (split; [done|]). split; [by split|].
       pose proof (header_u64 (mmap w) 8) as He. destruct Hw as [Hl Hs _]. unfold wrap64, epoch_of.
       rewrite Z.mod_small; lia. }
  destruct (write_payload_ok p w Hw Hp) as (w1 & E1 & Hw1 & Hs1 & Hn1 & Ho1 & He1 & _ & Hd1).
  rewrite E1 in E. injection E as <- _. exists (Z.b2z (wraps (len p) w)).
  split; [destruct (wraps _ _); auto|]. do 2 (split; [done|]). split; [|done].
  destruct Hw as [_ _ Hn]. unfold slab_of, slab_kept in *. rewrite Hn1. destruct (wraps (len p) w); cbn [Z.b2z] in *.
  - split; [lia|]. intros [?|[Hc1 Hle]]; [lia|]. rewrite Hd1 by lia. apply Hk. lia.
  - rewrite Z.add_0_r. split; [lia|]. intros Hcase. rewrite Hd1 by lia. apply Hk. lia.
Qed.

Lemma write_payload_total bs w : arena_inv w -> exists w' r, write_payload bs w = Some (w', r).
Proof.
  intros Hw. destruct (Z_le_dec (len bs) (arena_size w - 64)) as [Hp|Hp].
  - destruct (write_payload_ok bs w Hw Hp) as (w1 & E1 & _). eauto.
  - rewrite write_payload_too_large by (done || lia). eauto.
Qed.

Lemma write_all_kept payloads bs off c w :
  0 <= c -> arena_inv w -> 64 <= off -> off + len bs <= arena_size w -> slab_kept bs off c w ->
  exists w' d, write_all payloads w = Some w' /\ 0 <= d <= len payloads /\ arena_inv w' /\
    arena_size w' = arena_size w /\ slab_kept bs off (c + d) w' /\
    epoch_of (mmap w') = wrap64 (epoch_of (mmap w) + d).
Proof.
  revert c w. induction payloads as [|p rest IH]; intros c w Hc Hw Ho Hfit Hk; cbn [write_all].
  - exists w, 0. rewrite !Z.add_0_r. change (len (@nil bytes)) with 0. split; [done|]. split; [lia|].
    do 3 (split; [done|]). pose proof (header_u64 (mmap w) 8) as He. destruct Hw as [Hl Hs _].
    unfold wrap64, epoch_of. rewrite Z.mod_small; lia.
  - destruct (write_payload_total p w Hw) as (w1 & r & E). rewrite E. cbn [mbind option_bind].
    destruct (write_payload_kept bs off c w p w1 r Hc Hw Ho Hfit Hk E) as (d & Hd & Hw1 & Hs1 & Hk1 & He1).
    destruct (IH (c + d) w1) as (w2 & d' & -> & Hd' & Hw2 & Hs2 & Hk2 & He2); [lia|done|done|lia|done|].
    exists w2, (d + d'). rewrite len_cons. split; [done|]. split; [lia|]. split; [done|]. split; [lia|].
    split; [by rewrite Z.add_assoc|]. rewrite He2, He1. unfold wrap64. rewrite Zplus_mod_idemp_l. f_equal. lia.
Qed.

(** C39: the arena keeps what it was given, for as long as the header says so.
    A payload that fits is written; whatever is written afterwards (fewer than
    2^64 payloads, too large ones among them), no write panics, and a reader of
    the file gets the payload back, byte for byte, as long as the wrap epoch is
    the one the payload was written in, or the next one and the next offset has
    not come past the payload's start.  The header stays sound throughout. *)
Theorem arena_slab_intact bs payloads w :
  arena_inv w -> len bs <= arena_size w - ARENA_HEADER_BYTES -> len bs <= u32_max -> len payloads < 2 ^ 64 ->
  exists w1 off w2,
    write_payload bs w = Some (w1, Ok (off, len bs)) /\ write_all payloads w1 = Some w2 /\ arena_inv w2 /\
    (wrap_epoch (mmap w2) = wrap_epoch (mmap w1) \/
     (wrap_epoch (mmap w2) = (fun e => wrap64 (e + 1)) <$> wrap_epoch (mmap w1) /\
      exists next, next_offset w2 = Some next /\ next <= off) ->
     read_payload (mmap w2) off (len bs) (mkArenaReader (arena_size w2)) = Some (Ok bs)).
Proof.
  intros Hw Hfit H32 Hcount. pose proof (len_nonneg bs).
  destruct (write_payload_ok bs w Hw Hfit) as (w1 & E1 & Hw1 & Hs1 & Hn1 & Ho1 & _ & Hbs & _).
  unfold wrap32 in E1. rewrite Z.mod_small in E1 by lia. set (off := slab_of (len bs) w) in *.
  destruct (write_all_kept payloads bs off 0 w1) as (w2 & d & E2 & Hd & Hw2 & Hs2 & Hk & He); [lia|done|done| | |].
  { destruct Hw1 as [_ _ Hn]. lia. }
  { split; [lia|done]. }
  exists w1, off, w2. do 3 (split; [done|]). pose proof (header_u64 (mmap w1) 8) as Hr. fold (epoch_of (mmap w1)) in Hr.
  pose proof Hw1 as [Hl1 Hz1 Hx1]. pose proof Hw2 as [Hl2 Hz2 Hx2].
  unfold wrap_epoch, next_offset, WRAP_EPOCH_AT, NEXT_OFFSET_AT. rewrite !index_range_ok by lia. cbn [fmap option_fmap option_map].
  change (le_val (slice 8 (8 + 8) ?m)) with (epoch_of m). change (le_val (slice 0 (0 + 8) (mmap w2))) with (next_of (mmap w2)).
  rewrite He. intros Hcase. rewrite <- Hl2, read_payload_ok by lia. do 2 f_equal. apply Hk. unfold wrap64 in Hcase.
  destruct Hcase as [[= Hcase]|[[= Hcase] (nx & [= <-] & Hle)]].
  - left. apply (mod_add_same (epoch_of (mmap w1)) d 0 (2 ^ 64)); [lia..|]. rewrite Z.add_0_r.
    rewrite (Z.mod_small (epoch_of (mmap w1))) by lia. exact Hcase.
  - right. split; [|done]. apply (mod_add_same (epoch_of (mmap w1)) d 1 (2 ^ 64)); [lia..|exact Hcase].
Qed.

(** *** A small arena *)
Definition sample_arena : ArenaWriter :=
  match arena_create (Ok tt) (Ok tt) (Ok tt) 80 with Some (Ok w) => w | _ => mkArenaWriter [] 0 end.
Lemma sample_arena_inv : arena_inv sample_arena.
Proof. split; [reflexivity|vm_compute; split; reflexivity|vm_compute; split; discriminate]. Qed.

(** "abcd" survives a second payload and one that does not fit; at the end of the
    arena it survives a wrap. *)
Lemma arena_slab_intact_witness :
  exists w1 off w2, write_payload (lit "abcd") sample_arena = Some (w1, Ok (off, 4)) /\
    write_all [lit "efgh"; replicate 17 x00] w1 = Some w2 /\
    read_payload (mmap w2) off 4 (mkArenaReader (arena_size w2)) = Some (Ok (lit "abcd")).
Proof.
  destruct (arena_slab_intact (lit "abcd") [lit "efgh"; replicate 17 x00] sample_arena) as (w1 & off & w2 & E1 & E2 & _ & Hr);
    [exact sample_arena_inv|vm_compute; discriminate|vm_compute; discriminate|reflexivity|].
  exists w1, off, w2. split; [exact E1|]. split; [exact E2|]. apply Hr. left.
  vm_compute in E1. injection E1 as <- <-. vm_compute in E2. injection E2 as <-. vm_compute. reflexivity.
Defined.
Example slab_survives_wrap :
  (fun w => (wrap_epoch (mmap w), next_offset w, read_payload (mmap w) 76 4 (mkArenaReader 80)))
    <$> write_all [replicate 12 x00; lit "abcd"; lit "xy"] sample_arena
  = Some (Some 1, Some 66, Some (Ok (lit "abcd"))).
Proof. vm_compute. reflexivity. Qed.
