(* ===== verification/Fanout.v ===== *)
(** * Scoped threads over a shared store

    Models [std::thread::scope] as the daemon and the C ABI use it: one thread
    per item, all sharing a world, each going through a few atomic steps, and a
    join of all of them in order.  A schedule says which thread moves next; what
    is left when it ends is run by the joins.  Every interleaving of the steps is
    some schedule.

    The lemmas carry an invariant of the world and of each thread through any
    schedule and show that every thread is done after the join. *)

From S2P Require Import Prelude.

Section Fanout.
Context {W T : Type}.
(** A step of thread [i]; a finished thread stays as it is. *)
Context (step : nat -> W -> T -> W * T).

Fixpoint run_sched (sched : list nat) (w : W) (ts : list T) : W * list T :=
  match sched with
  | [] => (w, ts)
  | i :: rest =>
      match ts !! i with
      | Some t => let (w, t) := step i w t in run_sched rest w (<[i := t]> ts)
      | None => run_sched rest w ts
      end
  end.
Fixpoint steps (rounds : nat) (i : nat) (w : W) (t : T) : W * T :=
  match rounds with
  | O => (w, t)
  | S rounds' => let (w, t) := step i w t in steps rounds' i w t
  end.
Fixpoint join_from (rounds : nat) (i : nat) (w : W) (ts : list T) : W * list T :=
  match ts with
  | [] => (w, [])
  | t :: rest =>
      let (w, t) := steps rounds i w t in
      let (w, rest) := join_from rounds (S i) w rest in
      (w, t :: rest)
  end.
(** [rounds] steps finish any thread. *)
Definition scope (rounds : nat) (sched : list nat) (w : W) (ts : list T) : W * list T :=
  let (w, ts) := run_sched sched w ts in join_from rounds 0 w ts.

(** ** Invariants *)
Section Invariant.
Context (Inv : W -> Prop) (P : nat -> W -> T -> Prop).
(** A step keeps the invariant, establishes the property of the thread that
    moved, and keeps that of the others. *)
Context (Hstep : forall i w t w' t', Inv w -> P i w t -> step i w t = (w', t') -> Inv w' /\ P i w' t').
Context (Hframe : forall i j w t w' t' u, Inv w -> P i w t -> step i w t = (w', t') -> P j w u -> P j w' u).

Definition threads_ok (off : nat) (w : W) (ts : list T) : Prop :=
  forall i t, ts !! i = Some t -> P (off + i) w t.

Lemma run_sched_ok sched w ts w' ts' :
  Inv w -> threads_ok 0 w ts -> run_sched sched w ts = (w', ts') ->
  Inv w' /\ threads_ok 0 w' ts' /\ length ts' = length ts.
Proof.
  revert w ts. induction sched as [|i rest IH]; intros w ts Hi Hp; cbn [run_sched]; [by intros [= <- <-]|].
  destruct (ts !! i) as [t|] eqn:Et; [|by apply IH].
  destruct (step i w t) as [w1 t1] eqn:Es. intros E.
  destruct (Hstep i w t w1 t1 Hi (Hp i t Et) Es) as [Hi1 Hp1].
  destruct (IH w1 (<[i:=t1]> ts) Hi1) as (Hi2 & Hp2 & Hl); [|done|].
  - intros j u. destruct (decide (i = j)) as [->|Hne].
    + rewrite list_lookup_insert_eq by (by eapply lookup_lt_Some). by intros [= <-].
    + rewrite list_lookup_insert_ne by done. intros Hu. exact (Hframe i j w t w1 t1 u Hi (Hp i t Et) Es (Hp j u Hu)).
  - rewrite length_insert in Hl. done.
Qed.

Lemma steps_ok rounds i w t w' t' :
  Inv w -> P i w t -> steps rounds i w t = (w', t') ->
  Inv w' /\ P i w' t' /\ forall j u, P j w u -> P j w' u.
Proof.
  revert w t. induction rounds as [|n IH]; intros w t Hi Hp; cbn [steps]; [by intros [= <- <-]|].
  destruct (step i w t) as [w1 t1] eqn:Es. intros E.
  destruct (Hstep i w t w1 t1 Hi Hp Es) as [Hi1 Hp1].
  destruct (IH w1 t1 Hi1 Hp1 E) as (Hi2 & Hp2 & Hf). split; [done|]. split; [done|].
  intros j u Hu. apply Hf. exact (Hframe i j w t w1 t1 u Hi Hp Es Hu).
Qed.

Lemma join_from_ok rounds off w ts w' ts' :
  Inv w -> threads_ok off w ts -> join_from rounds off w ts = (w', ts') ->
  Inv w' /\ threads_ok off w' ts' /\ length ts' = length ts /\ forall j u, P j w u -> P j w' u.
Proof.
  revert off w ts'. induction ts as [|t ts IH]; intros off w ts' Hi Hp; cbn [join_from]; [by intros [= <- <-]|].
  destruct (steps rounds off w t) as [w1 t1] eqn:Es.
  destruct (join_from rounds (S off) w1 ts) as [w2 ts2] eqn:Ej. intros [= <- <-].
  pose proof (Hp 0%nat t eq_refl) as Hp0. rewrite Nat.add_0_r in Hp0.
  destruct (steps_ok rounds off w t w1 t1 Hi Hp0 Es) as (Hi1 & Hp1 & Hf1).
  destruct (IH (S off) w1 ts2 Hi1) as (Hi2 & Hp2 & Hl & Hf2); [|done|].
  - intros j u Hu. apply Hf1. replace (S off + j)%nat with (off + S j)%nat by lia. by apply (Hp (S j)).
  - split; [done|]. split; [|split; [cbn; lia|auto]]. intros [|j] u; cbn.
    + intros [= <-]. rewrite Nat.add_0_r. by apply Hf2.
    + intros Hu. replace (off + S j)%nat with (S off + j)%nat by lia. by apply Hp2.
Qed.

Lemma scope_ok rounds sched w ts w' ts' :
  Inv w -> threads_ok 0 w ts -> scope rounds sched w ts = (w', ts') ->
  Inv w' /\ threads_ok 0 w' ts' /\ length ts' = length ts.
Proof.
  intros Hi Hp. unfold scope. destruct (run_sched sched w ts) as [w1 ts1] eqn:E. intros Ej.
  destruct (run_sched_ok sched w ts w1 ts1 Hi Hp E) as (Hi1 & Hp1 & Hl1).
  destruct (join_from_ok rounds 0 w1 ts1 w' ts' Hi1 Hp1 Ej) as (Hi2 & Hp2 & Hl2 & _). split; [done|]. split; [done|lia].
Qed.
End Invariant.

(** ** Completion *)
Section Done.
Context (done : T -> Prop) (rounds : nat).

(** A thread that [rounds] steps finish from anywhere is finished after the join. *)
Lemma join_from_at off w ts i t :
  (forall w t, done (snd (steps rounds (off + i) w t))) -> snd (join_from rounds off w ts) !! i = Some t -> done t.
Proof.
  revert off w i. induction ts as [|u ts IH]; intros off w i Hfin; cbn [join_from]; [done|].
  destruct (steps rounds off w u) as [w1 t1] eqn:E1. destruct (join_from rounds (S off) w1 ts) as [w2 ts2] eqn:E2.
  destruct i as [|i]; cbn.
  - intros [= <-]. specialize (Hfin w u). by rewrite Nat.add_0_r, E1 in Hfin.
  - intros Ht. apply (IH (S off) w1 i); [|by rewrite E2]. by rewrite Nat.add_succ_comm.
Qed.
Lemma scope_at sched w ts i t :
  (forall w t, done (snd (steps rounds i w t))) -> snd (scope rounds sched w ts) !! i = Some t -> done t.
Proof. intros Hfin. unfold scope. destruct (run_sched sched w ts) as [w1 ts1]. by apply join_from_at. Qed.
Lemma scope_done sched w ts :
  (forall i w t, done (snd (steps rounds i w t))) -> Forall done (snd (scope rounds sched w ts)).
Proof. intros Hfin. apply Forall_lookup. intros i t. by apply scope_at. Qed.
End Done.
End Fanout.
