(* ===== verification/Rpc.v ===== *)
(** * Requests and responses of the daemon ([lib.rs] of [wombatkv-daemon])

    Models the rest of [crates/wombatkv-daemon/src/lib.rs] that is not a call into
    the shared-memory library: operation and status codes, the request and
    response records with their rkyv codec, the text of the codec errors, and the
    attach timeout.  The large-payload manifest, which the daemon and its client
    write and read alike, is here too.

    The theorem shows that a manifest is read back as it was written, that
    manifests are told from other payloads by their first line, and that chunk
    keys are distinct. *)

From S2P Require Import Prelude Order Text Strings ObjectStore Wire.

(** ** Codes *)
Module op.
Definition PING : Z := 1.
Definition PUT : Z := 2.
Definition GET : Z := 3.
Definition EXISTS : Z := 4.
Definition STATS : Z := 5.
Definition CLEAR : Z := 6.
Definition RESTORE : Z := 7.
Definition CLOSE : Z := 8.
Definition GET_MANY : Z := 9.
Definition LIST : Z := 10.
Definition LOOKUP_BLOCK_PREFIX : Z := 11.
Definition GET_KV_BLOCKS_BATCH : Z := 12.
Definition PUT_KV_BLOCKS_BATCH : Z := 13.
End op.
Definition op_name (code : Z) : str :=
  match code with
  | 1 => lit "ping" | 2 => lit "put" | 3 => lit "get" | 4 => lit "exists" | 5 => lit "stats"
  | 6 => lit "clear" | 7 => lit "restore" | 8 => lit "close" | 9 => lit "get_many" | 10 => lit "list"
  | 11 => lit "lookup_block_prefix" | 12 => lit "get_kv_blocks_batch" | 13 => lit "put_kv_blocks_batch"
  | _ => lit "unknown"
  end.
Module status.
Definition OK : Z := 0.
Definition MISS : Z := 1.
Definition TOO_LARGE : Z := 2.
Definition ERROR : Z := 3.
End status.

(** ** Records *)
Record WireRequest := mkReq { rq_id : Z; rq_op : Z; rq_namespace : str; rq_key : str; rq_payload : bytes }.
Record WireResponse := mkResp { rs_id : Z; rs_status : Z; rs_op : Z; rs_payload : bytes; rs_message : str }.

(** [impl Codec for WireRequest] and [for WireResponse] are rkyv's. *)
Section Codec.
Context `{!RkyvCodec WireRequest, !RkyvCodec WireResponse}.
Definition encode_request (r : WireRequest) : result bytes str := rkyv_to_bytes r.
Definition decode_request (b : bytes) : result WireRequest str := rkyv_from_bytes b.
Definition encode_response (r : WireResponse) : result bytes str := rkyv_to_bytes r.
Definition decode_response (b : bytes) : result WireResponse str := rkyv_from_bytes b.

Context `{!RkyvCodecLaws WireRequest, !RkyvCodecLaws WireResponse}.
Lemma encoded_request req b : encode_request req = Ok b -> decode_request b = Ok req.
Proof. apply rkyv_roundtrip. Qed.
Lemma encoded_response resp b : encode_response resp = Ok b -> decode_response b = Ok resp.
Proof. apply rkyv_roundtrip. Qed.
End Codec.

(** ** Error texts

    What the libraries print: the derived [{:?}] of a store error, the [{:?}] of
    a string (it depends on the Unicode tables), the text of a UTF-8 error, and
    the portable name length the transport library recommends. *)
Class Texts := {
  wal_error_debug (e : WalStoreError) : str;
  str_debug (s : str) : str;
  utf8_error_text (bad : bytes) : str;
  PORTABLE_SHM_SEGMENT_NAME_MAX_LEN : Z
}.

(** [Display for WireCodecError]; the budget message is that of
    [validate_segment_name_budget]. *)
Definition wire_error_display `{!Texts} (e : WireCodecError) : str :=
  match e with
  | Truncated what needed at_ got =>
      what ++ lit " truncated: need " ++ dec needed ++ lit " bytes at offset " ++ dec at_ ++ lit ", payload is " ++ dec got
  | BadMagic op expected got_len got =>
      op ++ lit ": bad magic; expected " ++ bytes_debug expected ++ lit " got first " ++ dec got_len ++ lit " bytes "
        ++ bytes_debug got
  | LengthOverflow what => what ++ lit ": length overflow"
  | TrailingBytes what extra => what ++ lit ": trailing bytes (" ++ dec extra ++ lit " unread)"
  | BodyLengthMismatch what claimed actual =>
      what ++ lit ": body length mismatch (claimed=" ++ dec claimed ++ lit ", actual=" ++ dec actual ++ lit ")"
  | Utf8 what source => what ++ lit ": utf8: " ++ utf8_error_text source
  | Rkyv op source => op ++ lit ": rkyv: " ++ source
  | SegmentNameBudget derived_name prefix max_prefix =>
      lit "wombatkv: SHM segment '" ++ derived_name ++ lit "' (" ++ dec (len derived_name)
      ++ lit " chars) exceeds the macOS POSIX-SHM budget of " ++ dec SHM_SEGMENT_NAME_MAX_LEN_MACOS
      ++ lit " chars. Shorten the daemon prefix '" ++ prefix ++ lit "' (" ++ dec (len prefix)
      ++ lit " chars) to at most " ++ dec max_prefix
      ++ lit " chars. The internal disruptor-mp segments add up to " ++ dec MAX_DISRUPTOR_INTERNAL_SUFFIX_LEN
      ++ lit " chars of suffix ('_producer_seq' is the longest); the wombatkv wrapper adds '" ++ SHM_PREFIX
      ++ lit "' + 1-char role. For strict cross-platform portability (Linux, FreeBSD), see `myelon::portable_shm_segment_name`, recommends total name ≤ "
      ++ dec PORTABLE_SHM_SEGMENT_NAME_MAX_LEN ++ lit " chars."
  end.

(** ** Attaching *)
Definition ATTACH_TIMEOUT : Z := 30.
(** A number of seconds from the environment, at least one. *)
Definition env_at_least_one (env : str -> option str) (name : str) : option Z :=
  n ← (s ← env name; parse_u64 s); if decide (1 <= n) then Some n else None.
Definition effective_attach_timeout (env : str -> option str) : Z :=
  default ATTACH_TIMEOUT (env_at_least_one env (lit "WMBT_KV_DAEMON_SHM_ATTACH_TIMEOUT_SECS")).

(** ** Large payloads ([client.rs] and the daemon binary) *)
Definition LARGE_MANIFEST_MAGIC : str := lit "WMBT_KV_SHM_LARGE_V1".
Definition LARGE_CHUNK_KEY_PREFIX : str := lit "__wmbt_kv_shm_large".
Definition LARGE_CHUNK_BYTES : Z := FRAME_DATA_BYTES - 4096.

Record LargeManifest := mkManifest { lm_id : str; total_len : Z; chunk_count : Z }.

Definition large_chunk_key (id : str) (idx : Z) : str :=
  LARGE_CHUNK_KEY_PREFIX ++ lit "/" ++ id ++ lit "/" ++ dec_pad 8 idx.
Definition large_manifest (id : str) (total chunks : Z) : str :=
  LARGE_MANIFEST_MAGIC ++ [LF] ++ id ++ [LF] ++ dec total ++ [LF] ++ dec chunks ++ [LF].
Definition parse_large_manifest (payload : bytes) : option LargeManifest :=
  if negb (utf8_valid payload) then None else
  match lines payload with
  | magic :: rest =>
      if decide (magic = LARGE_MANIFEST_MAGIC) then
        match rest with
        | id :: total :: chunks :: _ =>
            total_len ← parse_u64 total;
            chunk_count ← parse_u64 chunks;
            Some (mkManifest id total_len chunk_count)
        | _ => None
        end
      else None
  | [] => None
  end.

(** *** The manifest round trip *)
Lemma utf8_valid_ascii s : Forall (fun c => between 0 127 c = true) s -> utf8_valid s = true.
Proof. induction 1 as [|c s Hc _ IH]; [done|]. cbn [utf8_valid]. by rewrite Hc. Qed.

Lemma digits_ascii s : Forall (fun c => is_ascii_digit c = true) s -> Forall (fun c => between 0 127 c = true) s.
Proof.
  intros Hs. eapply Forall_impl; [exact Hs|]. intros c. unfold is_ascii_digit, between. rewrite !andb_true_iff, !bool_decide_eq_true. lia.
Qed.

(** An identifier as [blake3] prints it: ASCII, without line ends. *)
Definition plain_id (id : str) : Prop := Forall (fun c => between 32 127 c = true) id.
Lemma plain_id_no c id : plain_id id -> byte_to_Z c < 32 -> c ∉ id.
Proof.
  intros Hid Hc Hin. unfold plain_id in Hid. rewrite Forall_forall in Hid. specialize (Hid c Hin).
  unfold between in Hid. apply andb_true_iff in Hid as [Hid _]. apply bool_decide_eq_true in Hid. lia.
Qed.

Lemma parse_large_manifest_roundtrip id total chunks :
  plain_id id -> in_u64 total -> in_u64 chunks ->
  parse_large_manifest (large_manifest id total chunks) = Some (mkManifest id total chunks).
Proof.
  intros Hid Ht Hc. unfold parse_large_manifest, large_manifest.
  assert (utf8_valid (LARGE_MANIFEST_MAGIC ++ [LF] ++ id ++ [LF] ++ dec total ++ [LF] ++ dec chunks ++ [LF]) = true) as ->.
  { apply utf8_valid_ascii. repeat (apply Forall_app; split); try (repeat constructor);
      try (apply digits_ascii, dec_digits).
    eapply Forall_impl; [exact Hid|]. intros c. unfold between. rewrite !andb_true_iff, !bool_decide_eq_true. lia. }
  cbn [negb app]. rewrite (lines_cons LARGE_MANIFEST_MAGIC); [|by_eval|by_eval].
  rewrite decide_True by done.
  rewrite (lines_cons id); [|by apply plain_id_no|by apply plain_id_no].
  rewrite (lines_cons (dec total)); [|by apply dec_no|by apply dec_no].
  rewrite (lines_cons (dec chunks) []); [|by apply dec_no|by apply dec_no].
  rewrite !parse_dec by done. done.
Qed.

(** A manifest starts with its magic line. *)
Lemma parse_large_manifest_magic payload m :
  parse_large_manifest payload = Some m -> exists rest, lines payload = LARGE_MANIFEST_MAGIC :: rest.
Proof.
  unfold parse_large_manifest. destruct (negb _); [done|]. destruct (lines payload) as [|l rest]; [done|].
  case_decide; [|done]. subst. eauto.
Qed.

Lemma large_chunk_key_inj id idx idx' :
  0 <= idx < 100000000 -> 0 <= idx' < 100000000 -> large_chunk_key id idx = large_chunk_key id idx' -> idx = idx'.
Proof.
  intros Hi Hi' E. unfold large_chunk_key, dec_pad in E. rewrite !decide_True in E by (cbn; lia).
  do 4 apply app_inv_head in E. by apply dec_fixed_inj in E.
Qed.

(** *** Concrete codecs

    A codec for every countable type: the binary digits of a value's code. *)
Fixpoint pos_digits (p : positive) : bytes :=
  match p with xH => [] | xO p => x00 :: pos_digits p | xI p => x01 :: pos_digits p end.
Fixpoint digits_pos (b : bytes) : option positive :=
  match b with
  | [] => Some xH
  | x00 :: b => xO <$> digits_pos b
  | x01 :: b => xI <$> digits_pos b
  | _ => None
  end.
Lemma digits_pos_digits p : digits_pos (pos_digits p) = Some p.
Proof. induction p as [p IH|p IH|]; cbn; [by rewrite IH..|done]. Qed.
Definition countable_codec {T} `{Countable T} : RkyvCodec T := {|
  rkyv_to_bytes v := Ok (pos_digits (encode v));
  rkyv_from_bytes b :=
    match digits_pos b ≫= decode with Some v => Ok v | None => Err (lit "bad archive") end
|}.
Lemma countable_codec_laws {T} `{Countable T} : @RkyvCodecLaws T countable_codec.
Proof.
  constructor. intros v b Hv%Ok_inj. subst b. cbn [rkyv_from_bytes countable_codec].
  rewrite digits_pos_digits. cbn [mbind option_bind]. by rewrite decode_encode.
Qed.
#[global] Instance WireRequest_eq_dec : EqDecision WireRequest.
Proof. solve_decision. Defined.
#[global] Program Instance WireRequest_countable : Countable WireRequest :=
  inj_countable' (fun r => (rq_id r, rq_op r, rq_namespace r, rq_key r, rq_payload r))
                 (fun '(a, b, c, d, e) => mkReq a b c d e) _.
Next Obligation. by intros []. Qed.
#[global] Instance WireResponse_eq_dec : EqDecision WireResponse.
Proof. solve_decision. Defined.
#[global] Program Instance WireResponse_countable : Countable WireResponse :=
  inj_countable' (fun r => (rs_id r, rs_status r, rs_op r, rs_payload r, rs_message r))
                 (fun '(a, b, c, d, e) => mkResp a b c d e) _.
Next Obligation. by intros []. Qed.
#[global] Instance LookupBlockPrefixReq_eq_dec : EqDecision LookupBlockPrefixReq.
Proof. solve_decision. Defined.
#[global] Program Instance LookupBlockPrefixReq_countable : Countable LookupBlockPrefixReq :=
  inj_countable' (fun r => (lbp_namespace r, lbp_hashes r)) (fun '(a, b) => mkLookupBlockPrefixReq a b) _.
Next Obligation. by intros []. Qed.
#[global] Instance LookupBlockPrefixResp_eq_dec : EqDecision LookupBlockPrefixResp.
Proof. solve_decision. Defined.
#[global] Program Instance LookupBlockPrefixResp_countable : Countable LookupBlockPrefixResp :=
  inj_countable' (fun r => (matched_count r, lbp_error r)) (fun '(a, b) => mkLookupBlockPrefixResp a b) _.
Next Obligation. by intros []. Qed.
#[global] Instance GetKvBlocksBatchReq_eq_dec : EqDecision GetKvBlocksBatchReq.
Proof. solve_decision. Defined.
#[global] Program Instance GetKvBlocksBatchReq_countable : Countable GetKvBlocksBatchReq :=
  inj_countable' (fun r => (gbb_namespace r, gbb_hashes r)) (fun '(a, b) => mkGetKvBlocksBatchReq a b) _.
Next Obligation. by intros []. Qed.
#[global] Instance GetKvBlocksBatchResp_eq_dec : EqDecision GetKvBlocksBatchResp.
Proof. solve_decision. Defined.
#[global] Program Instance GetKvBlocksBatchResp_countable : Countable GetKvBlocksBatchResp :=
  inj_countable' (fun r => (gbb_payloads r, gbb_error r)) (fun '(a, b) => mkGetKvBlocksBatchResp a b) _.
Next Obligation. by intros []. Qed.
#[global] Instance PutKvBlocksBatchReq_eq_dec : EqDecision PutKvBlocksBatchReq.
Proof. solve_decision. Defined.
#[global] Program Instance PutKvBlocksBatchReq_countable : Countable PutKvBlocksBatchReq :=
  inj_countable' (fun r => (pbb_namespace r, pbb_hashes r, pbb_payloads r)) (fun '(a, b, c) => mkPutKvBlocksBatchReq a b c) _.
Next Obligation. by intros []. Qed.
#[global] Instance PutKvBlocksBatchResp_eq_dec : EqDecision PutKvBlocksBatchResp.
Proof. solve_decision. Defined.
#[global] Program Instance PutKvBlocksBatchResp_countable : Countable PutKvBlocksBatchResp :=
  inj_countable' (fun r => (total_bytes r, pbb_error r)) (fun '(a, b) => mkPutKvBlocksBatchResp a b) _.
Next Obligation. by intros []. Qed.
Definition plain_texts : Texts := {|
  wal_error_debug _ := lit "store error"; str_debug s := s; utf8_error_text _ := lit "invalid utf-8";
  PORTABLE_SHM_SEGMENT_NAME_MAX_LEN := 30
|}.
