(* ===== verification/Daemon.v ===== *)
(** * The daemon's request handlers ([bin/wombatkv-daemon.rs])

    Models the request side of [crates/wombatkv-daemon/src/bin/wombatkv-daemon.rs]:
    [dispatch] with all its operations, the arena of large payloads shared by the
    workers, the reassembly of chunked payloads, the block handlers with their
    threads, and the detached writes of asynchronous puts.  The store is that of
    [Embed], the arena that of [Arena], the indexes those of [BlockMeta].

    [None] is a panic of the worker thread.  What the environment decides (whether
    a thread can be spawned, how threads are scheduled, the clock, the metrics
    text) is an argument. *)

From S2P Require Import Prelude Order Text Strings Radix Hex BlockMeta ObjectStore Compression BlobCache Foyer Embed.
From S2P Require Import Envelope Wire Arena Fanout Rpc.

Definition ARENA_PATH_ENV : str := lit "WMBT_KV_DAEMON_SHM_ARENA_PATH".
Definition ARENA_BYTES_ENV : str := lit "WMBT_KV_DAEMON_SHM_ARENA_BYTES".
Definition ARENA_MIN_BYTES_ENV : str := lit "WMBT_KV_DAEMON_SHM_ARENA_MIN_BYTES".
Definition DEFAULT_ARENA_MIN_BYTES : Z := 1024 * 1024.
Definition ASYNC_PUT_ENV : str := lit "WMBT_KV_DAEMON_SHM_ASYNC_PUT".
(** The text of a poisoned lock, and the largest allocation. *)
Definition POISONED : str := lit "arena lock poisoned: poisoned lock: another task failed inside".
Definition isize_max : Z := 9223372036854775807.

(** ** The shared arena *)
Record ArenaSlab := mkSlab { slab_offset : Z; slab_len : Z; slab_tier : Z }.
(** [struct ArenaShared] behind its mutex. *)
Record ArenaShared := mkShared {
  ar_writer : ArenaWriter; ar_slabs : gmap str ArenaSlab; ar_min_bytes : Z; ar_poisoned : bool
}.

Definition arena_key (namespace key : str) : str := namespace ++ [x00] ++ key.

Definition lookup_arena_slab (namespace key : str) (a : ArenaShared) : option ArenaSlab :=
  if ar_poisoned a then None else ar_slabs a !! arena_key namespace key.

Definition write_arena_payload (bs : bytes) (tier : Z) (a : ArenaShared)
  : option (ArenaShared * result (option ArenaSlab) str) :=
  if ar_poisoned a then Some (a, Err POISONED) else
  if decide (len bs < ar_min_bytes a) then Some (a, Ok None) else
  prev_epoch ← wrap_epoch (mmap (ar_writer a));
  '(w, r) ← write_payload bs (ar_writer a);
  match r with
  | Err e => Some (mkShared w (ar_slabs a) (ar_min_bytes a) false, Err (lit "arena write_payload: " ++ arena_error_display e))
  | Ok (offset, n) =>
      epoch ← wrap_epoch (mmap w);
      let slabs := if decide (epoch <> prev_epoch) then ∅ else ar_slabs a in
      Some (mkShared w slabs (ar_min_bytes a) false, Ok (Some (mkSlab offset n tier)))
  end.

(** The second critical section of [remember_arena_slab]. *)
Definition insert_slab (namespace key : str) (slab : ArenaSlab) (a : ArenaShared)
  : ArenaShared * result (option ArenaSlab) str :=
  if ar_poisoned a then (a, Err POISONED)
  else (mkShared (ar_writer a) (<[arena_key namespace key := slab]> (ar_slabs a)) (ar_min_bytes a) false, Ok (Some slab)).
Definition remember_arena_slab (namespace key : str) (bs : bytes) (tier : Z) (a : ArenaShared)
  : option (ArenaShared * result (option ArenaSlab) str) :=
  '(a, r) ← write_arena_payload bs tier a;
  Some match r with
       | Err e => (a, Err e)
       | Ok None => (a, Ok None)
       | Ok (Some slab) => insert_slab namespace key slab a
       end.

Definition build_arena `{!Texts} (env : str -> option str) (opened sized mapped : result unit str)
  : option (result (option ArenaShared) str) :=
  match env ARENA_PATH_ENV with
  | None => Some (Ok None)
  | Some path =>
      if decide (path = []) then Some (Ok None) else
      let size := default DEFAULT_ARENA_BYTES (v ← env ARENA_BYTES_ENV; parse_u64 v) in
      let min_bytes := default DEFAULT_ARENA_MIN_BYTES (v ← env ARENA_MIN_BYTES_ENV; parse_u64 v) in
      r ← arena_create opened sized mapped size;
      Some match r with
           | Ok writer => Ok (Some (mkShared writer ∅ min_bytes false))
           | Err e => Err (lit "ArenaWriter::create(path=" ++ str_debug path ++ lit ", size=" ++ dec size ++ lit "): " ++ arena_error_display e)
           end
  end.

(** ** Hashes and responses *)
Definition block_key_from_hex (hex : str) : str := BLOCK_KEY_PREFIX ++ hex.
Definition hex_error_text `{!Texts} (hex : str) (e : HexError) : str :=
  match e with
  | Hex.BadLength n => lit "block hash hex must be 64 chars; got " ++ dec n ++ lit " for " ++ str_debug hex
  | BadChar pos => lit "bad hex char at pos " ++ dec pos ++ lit " in " ++ str_debug hex
  end.
Fixpoint parse_hash_list_from `{!Texts} (i : Z) (hex_list : list str) : result (list bytes) str :=
  match hex_list with
  | [] => Ok []
  | hex :: rest =>
      let? h := map_err (fun e => lit "hash[" ++ dec i ++ lit "]: " ++ hex_error_text hex e) (parse_block_hash_hex hex) in
      let? hs := parse_hash_list_from (i + 1) rest in
      Ok (h :: hs)
  end.
Definition parse_block_hash_list `{!Texts} (hex_list : list str) : result (list bytes) str :=
  parse_hash_list_from 0 hex_list.

Definition err_response (id opc : Z) (message : str) : WireResponse := mkResp id status.ERROR opc [] message.
Definition ok_response (id opc : Z) (payload : bytes) (message : str) : WireResponse :=
  mkResp id status.OK opc payload message.
Definition arena_response (id opc : Z) (slab : ArenaSlab) : WireResponse :=
  mkResp id status.OK opc []
    (lit "tier:" ++ dec (slab_tier slab) ++ lit ";arena:" ++ dec (slab_offset slab) ++ lit ":" ++ dec (slab_len slab)).
Definition encode_block_resp_or_err (id opc success_status : Z) (success_message : str) (encoded : result bytes str)
  : WireResponse :=
  match encoded with
  | Ok payload => mkResp id success_status opc payload success_message
  | Err err => err_response id opc (lit "block-payload encode: " ++ err)
  end.
Definition tier_byte (t : HitTier) : Z := match t with TierFoyer => 1 | TierObjectStore => 2 end.

Definition async_put_enabled (env : str -> option str) : bool :=
  match env ASYNC_PUT_ENV with
  | Some v => bool_decide (v ∈ [lit "1"; lit "true"; lit "yes"; lit "on"])
  | None => false
  end.

(** What the environment decides during one request. *)
Record Ambient := mkAmbient {
  am_env : str -> option str; am_spawned : bool; am_sched : list nat; am_clock : nat -> Z; am_stats : str
}.

Section Daemon.
Context {S : Type} `{!ObjectStore S} {H : Type} `{!HybridCache H} `{!Zstd} {I : Type} `{!MetadataIndex I} `{!Texts}.
Context `{!RkyvCodec LookupBlockPrefixReq, !RkyvCodec LookupBlockPrefixResp, !RkyvCodec GetKvBlocksBatchReq,
          !RkyvCodec GetKvBlocksBatchResp, !RkyvCodec PutKvBlocksBatchReq, !RkyvCodec PutKvBlocksBatchResp}.
Abbreviation KvStore := (WombatKVKvStore S H).

(** A detached thread of an asynchronous put. *)
Record PutJob := mkPutJob { pj_namespace : str; pj_key : str; pj_payload : bytes }.
(** The state the workers share. *)
Record Daemon := mkDaemon {
  dm_store : KvStore; dm_arena : option ArenaShared; dm_slatedb : option I;
  async_put_inflight : Z; dm_jobs : list PutJob
}.
Definition set_kv (k : KvStore) (d : Daemon) : Daemon :=
  mkDaemon k (dm_arena d) (dm_slatedb d) (async_put_inflight d) (dm_jobs d).
Definition set_arena (a : ArenaShared) (d : Daemon) : Daemon :=
  mkDaemon (dm_store d) (Some a) (dm_slatedb d) (async_put_inflight d) (dm_jobs d).

Definition embed_text (e : EmbedError) : str := embed_error_display wal_error_debug e.

(** ** Chunked payloads *)

(** The loop of [load_large_payload] over the chunks from [idx] on. *)
Fixpoint load_chunks (namespace id : str) (n : nat) (idx : Z) (out : bytes) (k : KvStore) : KvStore * result bytes str :=
  match n with
  | O => (k, Ok out)
  | Datatypes.S n' =>
      let (k, r) := get_kv namespace (large_chunk_key id idx) k in
      match r with
      | Err e => (k, Err (lit "get chunk " ++ dec idx ++ lit ": " ++ embed_text e))
      | Ok (Hit _ payload) => load_chunks namespace id n' (idx + 1) (out ++ payload) k
      | Ok Miss => (k, Err (lit "missing large-payload chunk " ++ dec idx ++ lit " for " ++ id))
      end
  end.
(** [Vec::with_capacity] panics on more than [isize::MAX] bytes. *)
Definition load_large_payload (namespace : str) (manifest : LargeManifest) (k : KvStore)
  : option (KvStore * result bytes str) :=
  if decide (isize_max < total_len manifest) then None else
  let (k, r) := load_chunks namespace (lm_id manifest) (Z.to_nat (chunk_count manifest)) 0 [] k in
  Some (k, let? out := r in
           if decide (len out <> total_len manifest)
           then Err (lit "large-payload length mismatch: expected " ++ dec (total_len manifest) ++ lit " got " ++ dec (len out))
           else Ok out).
Definition resolve_large_payload (namespace : str) (payload : bytes) (k : KvStore)
  : option (KvStore * result bytes str) :=
  match parse_large_manifest payload with
  | None => Some (k, Ok payload)
  | Some manifest => load_large_payload namespace manifest k
  end.

Definition materialize_large_payload (namespace key : str) (payload : bytes) (tier : Z) (k : KvStore) (a : ArenaShared)
  : option (KvStore * ArenaShared * result (option ArenaSlab) str) :=
  match parse_large_manifest payload with
  | None => '(a, r) ← remember_arena_slab namespace key payload tier a; Some (k, a, r)
  | Some manifest =>
      if ar_poisoned a then Some (k, a, Err POISONED) else
      if decide (total_len manifest < ar_min_bytes a) then Some (k, a, Ok None) else
      '(k, r) ← load_large_payload namespace manifest k;
      match r with
      | Err e => Some (k, a, Err e)
      | Ok out => '(a, r) ← remember_arena_slab namespace key out tier a; Some (k, a, r)
      end
  end.
(** The call sites: nothing is done without an arena. *)
Definition materialize (namespace key : str) (payload : bytes) (tier : Z) (d : Daemon)
  : option (Daemon * result (option ArenaSlab) str) :=
  match dm_arena d with
  | None => Some (d, Ok None)
  | Some a =>
      '(k, a, r) ← materialize_large_payload namespace key payload tier (dm_store d) a;
      Some (set_arena a (set_kv k d), r)
  end.

(** ** Puts and gets *)
Definition sync_put (id : Z) (req : WireRequest) (d : Daemon) : option (Daemon * WireResponse) :=
  let (k, r) := put_kv (rq_namespace req) (rq_key req) (rq_payload req) (dm_store d) in
  let d := set_kv k d in
  match r with
  | Ok _ =>
      '(d, _) ← materialize (rq_namespace req) (rq_key req) (rq_payload req) 1 d;
      Some (d, ok_response id op.PUT [] [])
  | Err e => Some (d, err_response id op.PUT (lit "put: " ++ embed_text e))
  end.
(** A failed spawn takes its increment of the counter back. *)
Definition dispatch_put (x : Ambient) (id : Z) (req : WireRequest) (d : Daemon) : option (Daemon * WireResponse) :=
  if async_put_enabled (am_env x) && am_spawned x then
    Some (mkDaemon (dm_store d) (dm_arena d) (dm_slatedb d) (async_put_inflight d + 1)
            (dm_jobs d ++ [mkPutJob (rq_namespace req) (rq_key req) (rq_payload req)]),
          ok_response id op.PUT [] [])
  else sync_put id req d.
(** The body of the detached thread, the guard's decrement included. *)
Definition run_put_job (j : PutJob) (d : Daemon) : option Daemon :=
  let (k, r) := put_kv (pj_namespace j) (pj_key j) (pj_payload j) (dm_store d) in
  let d := mkDaemon k (dm_arena d) (dm_slatedb d) (async_put_inflight d - 1) (dm_jobs d) in
  match r with
  | Ok _ => '(d, _) ← materialize (pj_namespace j) (pj_key j) (pj_payload j) 1 d; Some d
  | Err _ => Some d
  end.

Definition dispatch_get (id : Z) (req : WireRequest) (d : Daemon) : option (Daemon * WireResponse) :=
  match a ← dm_arena d; lookup_arena_slab (rq_namespace req) (rq_key req) a with
  | Some slab => Some (d, arena_response id op.GET slab)
  | None =>
      let (k, r) := get_kv (rq_namespace req) (rq_key req) (dm_store d) in
      let d := set_kv k d in
      match r with
      | Ok (Hit tier payload) =>
          '(d, m) ← materialize (rq_namespace req) (rq_key req) payload (tier_byte tier) d;
          Some (d, match m with
                   | Ok (Some slab) => arena_response id op.GET slab
                   | _ => ok_response id op.GET payload (lit "tier:" ++ dec (tier_byte tier))
                   end)
      | Ok Miss => Some (d, mkResp id status.MISS op.GET [] [])
      | Err e => Some (d, err_response id op.GET (lit "get: " ++ embed_text e))
      end
  end.

(** The loop of [GET_MANY]: the items and the tier, or the early response. *)
Fixpoint get_many_loop (id : Z) (namespace : str) (keys : list str) (items : list bytes) (tier : Z) (k : KvStore)
  : option (KvStore * (list bytes * Z + WireResponse)) :=
  match keys with
  | [] => Some (k, inl (items, tier))
  | key :: rest =>
      let (k, r) := get_kv namespace key k in
      match r with
      | Ok (Hit t payload) =>
          let tier := match t with TierObjectStore => 2 | TierFoyer => tier end in
          '(k, r) ← resolve_large_payload namespace payload k;
          match r with
          | Ok payload => get_many_loop id namespace rest (items ++ [payload]) tier k
          | Err err => Some (k, inr (err_response id op.GET_MANY (lit "get_many large payload: " ++ err)))
          end
      | Ok Miss => Some (k, inr (mkResp id status.MISS op.GET_MANY [] key))
      | Err e => Some (k, inr (err_response id op.GET_MANY (lit "get_many: " ++ embed_text e)))
      end
  end.
Definition get_many_inline (id tier : Z) (batch : bytes) : WireResponse :=
  if fits_one_frame (len batch)
  then ok_response id op.GET_MANY batch (lit "tier:" ++ dec tier)
  else mkResp id status.TOO_LARGE op.GET_MANY []
         (lit "get_many response " ++ dec (len batch) ++ lit " bytes requires " ++ ARENA_PATH_ENV ++ lit " or smaller batch").
Definition dispatch_get_many (id : Z) (req : WireRequest) (d : Daemon) : option (Daemon * WireResponse) :=
  match decode_key_batch (rq_payload req) with
  | Err e => Some (d, err_response id op.GET_MANY (wire_error_display e))
  | Ok keys =>
      '(k, r) ← get_many_loop id (rq_namespace req) keys [] 1 (dm_store d);
      let d := set_kv k d in
      match r with
      | inr resp => Some (d, resp)
      | inl (items, tier) =>
          let batch := encode_bytes_batch items in
          match dm_arena d with
          | None => Some (d, get_many_inline id tier batch)
          | Some a =>
              '(a, r) ← write_arena_payload batch tier a;
              Some (set_arena a d, match r with
                                   | Ok (Some slab) => arena_response id op.GET_MANY slab
                                   | _ => get_many_inline id tier batch
                                   end)
          end
      end
  end.

(** ** The small operations *)
Definition dispatch_exists (id : Z) (req : WireRequest) (d : Daemon) : Daemon * WireResponse :=
  let (k, r) := exists_kv (rq_namespace req) (rq_key req) (dm_store d) in
  (set_kv k d, match r with
               | Ok true => ok_response id op.EXISTS [] []
               | Ok false => mkResp id status.MISS op.EXISTS [] []
               | Err e => err_response id op.EXISTS (lit "exists: " ++ embed_text e)
               end).
Definition dispatch_list (id : Z) (req : WireRequest) (d : Daemon) : Daemon * WireResponse :=
  let (k, r) := list_kv_keys (rq_namespace req) (dm_store d) in
  (set_kv k d, match r with
               | Ok keys => ok_response id op.LIST (encode_key_batch keys) (dec (len keys))
               | Err e => err_response id op.LIST (lit "list: " ++ embed_text e)
               end).
Definition dispatch_clear (id : Z) (d : Daemon) : Daemon * WireResponse :=
  let d := set_kv (clear_foyer (dm_store d)) d in
  (match dm_arena d with
   | Some a => if ar_poisoned a then d else set_arena (mkShared (ar_writer a) ∅ (ar_min_bytes a) false) d
   | None => d
   end, ok_response id op.CLEAR [] []).
Definition dispatch_restore (id : Z) (req : WireRequest) (d : Daemon) : Daemon * WireResponse :=
  let (k, r) := restore_from_s3 (rq_namespace req) (dm_store d) in
  (set_kv k d, match r with
               | Ok count => ok_response id op.RESTORE [] (dec count)
               | Err e => err_response id op.RESTORE (lit "restore: " ++ embed_text e)
               end).

(** ** The block operations *)
Definition dispatch_lookup_block_prefix (id : Z) (req : WireRequest) (d : Daemon) : Daemon * WireResponse :=
  match decode_lookup_block_prefix_req (rq_payload req) with
  | Err e => (d, err_response id op.LOOKUP_BLOCK_PREFIX (lit "decode lookup_block_prefix req: " ++ wire_error_display e))
  | Ok lookup_req =>
      let respond st msg resp :=
        (d, encode_block_resp_or_err id op.LOOKUP_BLOCK_PREFIX st msg
              (map_err wire_error_display (encode_lookup_block_prefix_resp resp))) in
      match parse_block_hash_list (lbp_hashes lookup_req) with
      | Err err => respond status.ERROR err (mkLookupBlockPrefixResp 0 (Some err))
      | Ok hashes =>
          let matched := InMem.longest_prefix hashes (kv_index (dm_store d)) in
          respond status.OK [] (mkLookupBlockPrefixResp (default u32_max (u32_try_from matched)) None)
      end
  end.

(** A fetching thread: before its look at the flag, before its get, done. *)
Inductive FetchThread := FStart | FChecked | FDone (r : result (option bytes) str).
Definition get_step (namespace : str) (key_of : nat -> str) (text : str -> EmbedError -> str) (i : nat)
    (w : KvStore * bool) (t : FetchThread) : (KvStore * bool) * FetchThread :=
  let (k, saw_miss) := w in
  match t with
  | FStart => if saw_miss then (w, FDone (Ok None)) else (w, FChecked)
  | FChecked =>
      let key := key_of i in
      let (k, r) := get_kv namespace key k in
      match r with
      | Ok (Hit _ payload) => ((k, saw_miss), FDone (Ok (Some payload)))
      | Ok Miss => ((k, true), FDone (Ok None))
      | Err e => ((k, saw_miss), FDone (Err (text key e)))
      end
  | FDone _ => (w, t)
  end.
Definition fetch_step (namespace : str) (hexes : list str) : nat -> KvStore * bool -> FetchThread -> (KvStore * bool) * FetchThread :=
  get_step namespace (fun i => block_key_from_hex (nth i hexes []))
    (fun key e => lit "get_kv " ++ key ++ lit ": " ++ embed_text e).
(** The results are read in order; the first that is no payload decides. *)
Fixpoint collect_items (ts : list FetchThread) (items : list bytes) : result (option (list bytes)) str :=
  match ts with
  | [] => Ok (Some items)
  | FDone (Ok (Some payload)) :: rest => collect_items rest (items ++ [payload])
  | FDone (Ok None) :: _ => Ok None
  | FDone (Err err) :: _ => Err err
  | _ :: rest => collect_items rest items
  end.
Definition fetch_blocks (sched : list nat) (namespace : str) (hexes : list str) (k : KvStore)
  : KvStore * result (option (list bytes)) str :=
  let '((k, _), ts) := scope (fetch_step namespace hexes) 2 sched (k, false) (map (fun _ => FStart) hexes) in
  (k, collect_items ts []).
Definition dispatch_get_kv_blocks_batch (x : Ambient) (id : Z) (req : WireRequest) (d : Daemon) : Daemon * WireResponse :=
  match decode_get_kv_blocks_batch_req (rq_payload req) with
  | Err e => (d, err_response id op.GET_KV_BLOCKS_BATCH (lit "decode get_kv_blocks_batch req: " ++ wire_error_display e))
  | Ok get_req =>
      let respond st msg resp :=
        encode_block_resp_or_err id op.GET_KV_BLOCKS_BATCH st msg
          (map_err wire_error_display (encode_get_kv_blocks_batch_resp resp)) in
      match parse_block_hash_list (gbb_hashes get_req) with
      | Err err => (d, respond status.ERROR err (mkGetKvBlocksBatchResp None (Some err)))
      | Ok _ =>
          let (k, r) := fetch_blocks (am_sched x) (gbb_namespace get_req) (gbb_hashes get_req) (dm_store d) in
          (set_kv k d, match r with
                       | Ok payloads => respond status.OK [] (mkGetKvBlocksBatchResp payloads None)
                       | Err err => respond status.ERROR err (mkGetKvBlocksBatchResp None (Some err))
                       end)
      end
  end.

(** A putting thread: one call. *)
Definition put_step (namespace : str) (items : list (str * bytes)) (i : nat) (k : KvStore) (t : option (result unit str))
  : KvStore * option (result unit str) :=
  match t, items !! i with
  | None, Some (key, payload) =>
      let (k, r) := put_kv namespace key payload k in
      (k, Some (map_err (fun e => lit "put_kv " ++ key ++ lit ": " ++ embed_text e) r))
  | _, _ => (k, t)
  end.
Fixpoint first_error (ts : list (option (result unit str))) : option str :=
  match ts with
  | [] => None
  | Some (Err err) :: _ => Some err
  | _ :: rest => first_error rest
  end.
Definition put_blocks (sched : list nat) (namespace : str) (items : list (str * bytes)) (k : KvStore)
  : KvStore * option str :=
  let (k, ts) := scope (put_step namespace items) 1 sched k (map (fun _ => None) items) in
  (k, first_error ts).
(** The index loop: the in-memory index, then SlateDB, whose insert may panic. *)
Fixpoint index_blocks (clock : nat -> Z) (n : nat) (blocks : list (bytes * bytes)) (total : Z)
    (idx : InMemoryMetadataIndex) (slate : option I) : option (InMemoryMetadataIndex * option I * Z) :=
  match blocks with
  | [] => Some (idx, slate, total)
  | (hash, payload) :: rest =>
      let meta := new_root (clock n) (len payload) (replicate 24 x00) (replicate 16 x00) in
      let idx := InMem.insert (clock (n + 1)%nat) hash meta idx in
      slate ← (match slate with
               | None => Some None
               | Some s => match idx_insert (clock (n + 2)%nat) hash meta s with
                           | (s, Ok _) => Some (Some s)
                           | (_, Err _) => None
                           end
               end);
      index_blocks clock (n + 3) rest (saturating_add total (len payload)) idx slate
  end.
Definition dispatch_put_kv_blocks_batch (x : Ambient) (id : Z) (req : WireRequest) (d : Daemon)
  : option (Daemon * WireResponse) :=
  match decode_put_kv_blocks_batch_req (rq_payload req) with
  | Err e =>
      Some (d, err_response id op.PUT_KV_BLOCKS_BATCH (lit "decode put_kv_blocks_batch req: " ++ wire_error_display e))
  | Ok put_req =>
      let respond st msg resp :=
        encode_block_resp_or_err id op.PUT_KV_BLOCKS_BATCH st msg
          (map_err wire_error_display (encode_put_kv_blocks_batch_resp resp)) in
      let failed msg := respond status.ERROR msg (mkPutKvBlocksBatchResp 0 (Some msg)) in
      if decide (length (pbb_hashes put_req) <> length (pbb_payloads put_req)) then
        Some (d, failed (lit "put_kv_blocks_batch length mismatch: " ++ dec (len (pbb_hashes put_req)) ++ lit " hashes vs "
                           ++ dec (len (pbb_payloads put_req)) ++ lit " payloads"))
      else
      match parse_block_hash_list (pbb_hashes put_req) with
      | Err err => Some (d, failed err)
      | Ok hashes =>
          let items := zip (map block_key_from_hex (pbb_hashes put_req)) (pbb_payloads put_req) in
          let (k, r) := put_blocks (am_sched x) (pbb_namespace put_req) items (dm_store d) in
          let d := set_kv k d in
          match r with
          | Some err => Some (d, failed err)
          | None =>
              '(idx, slate, total) ←
                index_blocks (am_clock x) 0 (zip hashes (pbb_payloads put_req)) 0 (kv_index k) (dm_slatedb d);
              Some (mkDaemon (set_index idx k) (dm_arena d) slate (async_put_inflight d) (dm_jobs d),
                    respond status.OK [] (mkPutKvBlocksBatchResp total None))
          end
      end
  end.

(** ** Dispatch *)
Definition dispatch (x : Ambient) (id : Z) (req : WireRequest) (d : Daemon) : option (Daemon * WireResponse) :=
  let o := rq_op req in
  if decide (o = op.PING) then Some (d, ok_response id op.PING [] [])
  else if decide (o = op.PUT) then dispatch_put x id req d
  else if decide (o = op.GET) then dispatch_get id req d
  else if decide (o = op.GET_MANY) then dispatch_get_many id req d
  else if decide (o = op.EXISTS) then Some (dispatch_exists id req d)
  else if decide (o = op.LIST) then Some (dispatch_list id req d)
  else if decide (o = op.STATS) then Some (d, ok_response id op.STATS [] (am_stats x))
  else if decide (o = op.CLEAR) then Some (dispatch_clear id d)
  else if decide (o = op.RESTORE) then Some (dispatch_restore id req d)
  else if decide (o = op.CLOSE) then Some (d, ok_response id op.CLOSE [] [])
  else if decide (o = op.LOOKUP_BLOCK_PREFIX) then Some (dispatch_lookup_block_prefix id req d)
  else if decide (o = op.GET_KV_BLOCKS_BATCH) then Some (dispatch_get_kv_blocks_batch x id req d)
  else if decide (o = op.PUT_KV_BLOCKS_BATCH) then dispatch_put_kv_blocks_batch x id req d
  else Some (d, err_response id o (lit "unknown op " ++ dec o)).
End Daemon.
Arguments Daemon : clear implicits.
