(* ===== verification/DaemonSpec.v ===== *)
(** * What the daemon promises

    Theorems on [Daemon].  Under content addressing the daemon keeps an
    invariant through every request, detached write and eviction: the tiers of
    its store are coherent and every remembered slab of the arena holds the
    payload its key stands for.  So it never panics, and what it answers to a get
    is that payload, inline or in the arena.  The block operations are all or
    nothing, whatever the order its threads run in. *)

From S2P Require Import Prelude Order Text Strings Radix Hex BlockMeta ObjectStore Compression BlobCache Foyer Embed.
From S2P Require Import Envelope Wire Arena Fanout Rpc Daemon.

(** ** The arena *)

(** A slab holds a payload: its bytes are there, below the next offset. *)
Definition slab_holds (s : ArenaSlab) (b : bytes) (w : ArenaWriter) : Prop :=
  slab_len s = len b /\ 64 <= slab_offset s /\ slab_offset s + len b <= next_of (mmap w) /\
  slice (slab_offset s) (slab_offset s + len b) (mmap w) = b.

Lemma epoch_of_range w : arena_inv w -> 0 <= epoch_of (mmap w) < 2 ^ 64.
Proof. intros [Hl Hs _]. apply header_u64; lia. Qed.
Lemma wrap_epoch_of w : arena_inv w -> wrap_epoch (mmap w) = Some (epoch_of (mmap w)).
Proof. intros [Hl Hs _]. unfold wrap_epoch, WRAP_EPOCH_AT. by rewrite index_range_ok by lia. Qed.

(** Remembered slabs either stay intact or are forgotten. *)
Definition slabs_kept (a a' : ArenaShared) : Prop :=
  forall k s, ar_slabs a' !! k = Some s ->
    ar_slabs a !! k = Some s /\ forall b, slab_holds s b (ar_writer a) -> slab_holds s b (ar_writer a').

Lemma slabs_kept_refl a : slabs_kept a a.
Proof. by intros k s Hk. Qed.

Lemma write_arena_ok bs tier a :
  arena_inv (ar_writer a) ->
  exists a' r, write_arena_payload bs tier a = Some (a', r) /\ arena_inv (ar_writer a') /\
    arena_size (ar_writer a') = arena_size (ar_writer a) /\ slabs_kept a a' /\
    (forall s, r = Ok (Some s) -> len bs <= u32_max -> slab_holds s bs (ar_writer a')).
Proof.
  intros Hw. unfold write_arena_payload. destruct (ar_poisoned a) eqn:Ep.
  { exists a, (Err POISONED). do 3 (split; [done|]). split; [apply slabs_kept_refl|done]. }
  case_decide as Hmin.
  { exists a, (Ok None). do 3 (split; [done|]). split; [apply slabs_kept_refl|done]. }
  rewrite wrap_epoch_of by done. cbn [mbind option_bind]. pose proof Hw as [Hl Hsz Hnx].
  destruct (Z_le_dec (len bs) (arena_size (ar_writer a) - 64)) as [Hp|Hp].
  2: { rewrite write_payload_too_large by (done || lia). cbn [mbind option_bind].
       eexists _, _. split; [reflexivity|]. do 2 (split; [done|]). split; [by intros k s Hk|done]. }
  destruct (write_payload_ok bs (ar_writer a) Hw Hp) as (w & -> & Hw' & Hs' & Hn' & Ho' & He' & Hbs & Hd).
  cbn [mbind option_bind]. rewrite wrap_epoch_of by done. cbn [mbind option_bind].
  eexists _, _. split; [reflexivity|]. cbn [ar_writer ar_min_bytes ar_poisoned ar_slabs].
  split; [done|]. split; [done|]. split.
  - intros k s. cbn [ar_slabs ar_writer]. case_decide as Hep; [by rewrite lookup_empty|]. intros Hk. split; [done|]. intros b (Hb1 & Hb2 & Hb3 & Hb4).
    pose proof (epoch_of_range _ Hw) as Her. cbn [ar_slabs ar_writer].
    assert (wraps (len bs) (ar_writer a) = false) as Hwr.
    { destruct (wraps _ _); [|done]. exfalso. cbn [Z.b2z] in He'. unfold wrap64 in He'.
      destruct (decide (epoch_of (mmap (ar_writer a)) = 2 ^ 64 - 1)) as [E|E].
      - rewrite E in He'. change ((2 ^ 64 - 1 + 1) mod 18446744073709551616) with 0 in He'. lia.
      - rewrite Z.mod_small in He' by lia. lia. }
    unfold slab_of in *. rewrite Hwr in *. pose proof (len_nonneg bs). pose proof (len_nonneg b).
    split; [done|]. split; [done|]. split; [lia|]. rewrite Hd by lia. done.
  - intros s [= <-] H32. split; [|split; [done|split; [cbn; lia|done]]]. cbn [slab_len]. unfold wrap32.
    pose proof (len_nonneg bs). apply Z.mod_small. lia.
Qed.

Lemma remember_ok ns key bs tier a :
  arena_inv (ar_writer a) ->
  exists a' r, remember_arena_slab ns key bs tier a = Some (a', r) /\ arena_inv (ar_writer a') /\
    arena_size (ar_writer a') = arena_size (ar_writer a) /\
    (forall s, r = Ok (Some s) -> len bs <= u32_max -> slab_holds s bs (ar_writer a')) /\
    forall k s, ar_slabs a' !! k = Some s ->
      (k = arena_key ns key /\ r = Ok (Some s)) \/
      (ar_slabs a !! k = Some s /\ forall b, slab_holds s b (ar_writer a) -> slab_holds s b (ar_writer a')).
Proof.
  intros Hw. unfold remember_arena_slab.
  destruct (write_arena_ok bs tier a Hw) as (a1 & r & -> & Hw1 & Hz1 & Hk1 & Hs1). cbn [mbind option_bind].
  destruct r as [[s|]|e]; 
    [|eexists _, _; split; [reflexivity|]; do 3 (split; [done|]); intros k s Hk; right; by apply Hk1..].
  unfold insert_slab. destruct (ar_poisoned a1) eqn:Ep.
  { eexists _, _. split; [reflexivity|]. do 3 (split; [done|]). intros k s' Hk. right. by apply Hk1. }
  eexists _, _. split; [reflexivity|]. cbn [ar_writer ar_min_bytes ar_poisoned ar_slabs].
  do 2 (split; [done|]). split; [by intros s' [= <-]; apply Hs1|].
  intros k s'. destruct (decide (k = arena_key ns key)) as [->|Hne].
  - rewrite lookup_insert_eq. intros [= <-]. by left.
  - rewrite lookup_insert_ne by done. intros Hk. right. by apply Hk1.
Qed.

Lemma arena_key_inj ns ns' key key' :
  x00 ∉ ns -> x00 ∉ ns' -> arena_key ns key = arena_key ns' key' -> ns = ns' /\ key = key'.
Proof. intros Hn Hn' E. by apply (split_unique x00). Qed.

(** ** The invariant *)
Section Invariant.
Context {S : Type} `{!ObjectStore S} `{!ObjectStoreLaws S} {H : Type} `{!HybridCache H} `{!HybridCacheLaws H}
  `{!Zstd} `{!ZstdLaws} {I : Type} `{!MetadataIndex I} `{!MetadataIndexLaws I} `{!Texts}.
Context `{!RkyvCodec LookupBlockPrefixReq, !RkyvCodec LookupBlockPrefixResp, !RkyvCodec GetKvBlocksBatchReq,
          !RkyvCodec GetKvBlocksBatchResp, !RkyvCodec PutKvBlocksBatchReq, !RkyvCodec PutKvBlocksBatchResp}.
Abbreviation KvStore := (WombatKVKvStore S H).
Abbreviation Dm := (Daemon S H I).

(** The names in use, the payload each object key stands for, and a store with
    the daemon's settings. *)
Context (N : str -> str -> Prop) (content : str -> option bytes) (k0 : KvStore).
Definition okey (ns key : str) : str := object_key k0 ns key.
Definition K (x : str) : Prop := exists ns key, N ns key /\ x = okey ns key.

(** The payload a manifest stands for, and a name: a manifest is followed. *)
Fixpoint chunk_content (ns id : str) (n : nat) (idx : Z) (out : bytes) : option bytes :=
  match n with
  | O => Some out
  | Datatypes.S n' => p ← content (okey ns (large_chunk_key id idx)); chunk_content ns id n' (idx + 1) (out ++ p)
  end.
Definition manifest_content (ns : str) (m : LargeManifest) : option bytes :=
  out ← chunk_content ns (lm_id m) (Z.to_nat (chunk_count m)) 0 [];
  if decide (len out <> total_len m) then None else Some out.
Definition resolved_payload (ns : str) (v : bytes) : option bytes :=
  match parse_large_manifest v with None => Some v | Some m => manifest_content ns m end.
Definition resolved (ns key : str) : option bytes := v ← content (okey ns key); resolved_payload ns v.

(** The names are well behaved: no two share a flat file, no namespace has a
    NUL, the chunks of a manifest are names, and payloads fit the arena's
    32-bit lengths and the address space. *)
Context (K_files : forall x y, K x -> K y -> path_for_key x = path_for_key y -> x = y).
Context (N_nul : forall ns key, N ns key -> x00 ∉ ns).
Context (N_chunks : forall ns key v m i, N ns key -> content (okey ns key) = Some v -> parse_large_manifest v = Some m ->
  0 <= i < chunk_count m -> N ns (large_chunk_key (lm_id m) i)).
Context (N_sizes : forall ns key v m, N ns key -> content (okey ns key) = Some v -> parse_large_manifest v = Some m ->
  total_len m <= isize_max).
Context (content_len : forall x v, content x = Some v -> len v <= u64_max).
Context (N_small : forall ns key b, N ns key -> resolved ns key = Some b -> len b <= u32_max).

(** A write of a name's payload. *)
Definition put_ok (ns key : str) (v : bytes) : Prop :=
  N ns key /\ content (okey ns key) = Some v /\ storable (kv_compression k0) v.
(** The calls the daemon makes on its store. *)
Inductive kv_call : KvStore -> KvStore -> Prop :=
| call_get ns key k : kv_call k (fst (get_kv ns key k))
| call_put ns key v k : put_ok ns key v -> kv_call k (fst (put_kv ns key v k))
| call_exists ns key k : kv_call k (fst (exists_kv ns key k))
| call_list ns k : kv_call k (fst (list_kv_keys ns k))
| call_restore ns k : kv_call k (fst (restore_from_s3 ns k))
| call_clear k : kv_call k (clear_foyer k)
| call_index i k : kv_call k (set_index i k).
(** A property of the store that these calls keep, and names that a store with
    it finds. *)
Context (G : KvStore -> Prop) (found : str -> str -> Prop).
Context (G_kept : forall k k', kv_call k k' -> G k -> G k').

Definition store_ok (k : KvStore) : Prop :=
  coherent K content k /\ kv_s3_prefix k = kv_s3_prefix k0 /\ kv_compression k = kv_compression k0 /\ G k.
Context (G_found : forall ns key k, store_ok k -> N ns key -> found ns key -> exists k' t v, get_kv ns key k = (k', Ok (Hit t v))).
(** The arena has the size its readers see. *)
Context (asize : Z).
Definition arena_ok (a : ArenaShared) : Prop :=
  arena_inv (ar_writer a) /\ arena_size (ar_writer a) = asize /\
  forall ns key s, N ns key -> ar_slabs a !! arena_key ns key = Some s ->
    exists b, resolved ns key = Some b /\ slab_holds s b (ar_writer a).
Definition job_good (j : PutJob) : Prop := put_ok (pj_namespace j) (pj_key j) (pj_payload j).
Definition slate_ok (i : option I) : Prop := forall s, i = Some s -> exists m, idx_repr s m.
Definition daemon_ok (d : Dm) : Prop :=
  store_ok (dm_store d) /\ (forall a, dm_arena d = Some a -> arena_ok a) /\ slate_ok (dm_slatedb d) /\
  Forall job_good (dm_jobs d).

Lemma store_ok_key k ns key : store_ok k -> cache_key k ns key = okey ns key.
Proof. intros (_ & E & _ & _). unfold cache_key, okey, object_key. by rewrite E. Qed.
Lemma K_name ns key : N ns key -> K (okey ns key).
Proof. intros Hn. by exists ns, key. Qed.

(** An operation that keeps coherence and settings keeps [store_ok]. *)
Lemma store_ok_step k k' : store_ok k -> coherent K content k' -> kv_meta k' = kv_meta k -> G k' -> store_ok k'.
Proof. intros (_ & Ep & Ec & _) Hc [= E1 _ E3 _] Hg. split; [done|]. split; [congruence|]. split; [congruence|done]. Qed.

Lemma store_ok_get ns key k k' r :
  N ns key -> store_ok k -> get_kv ns key k = (k', r) ->
  store_ok k' /\ kv_meta k' = kv_meta k /\ forall t v, r = Ok (Hit t v) -> content (okey ns key) = Some v.
Proof.
  intros Hn Hk E. pose proof (store_ok_key k ns key Hk) as Ek.
  assert (K (cache_key k ns key)) as HK by (rewrite Ek; by apply K_name).
  destruct (get_kv_coherent K content K_files ns key k k' r HK (proj1 Hk) E) as [Hc Hv].
  pose proof (get_kv_meta ns key k) as Em. rewrite E in Em. cbn [fst] in Em.
  assert (G k') as Hg by (pose proof (G_kept _ _ (call_get ns key k)) as Hg; rewrite E in Hg; apply Hg, Hk).
  split; [by apply (store_ok_step k)|]. split; [done|]. rewrite Ek in Hv. exact Hv.
Qed.

Lemma store_ok_put ns key v k :
  put_ok ns key v -> store_ok k -> store_ok (fst (put_kv ns key v k)) /\ kv_meta (fst (put_kv ns key v k)) = kv_meta k.
Proof.
  intros (Hn & Hv & Hst) Hk. pose proof (store_ok_key k ns key Hk) as Ek. pose proof Hk as (Hc & _ & Ec & Hg).
  split; [|apply put_kv_meta]. apply (store_ok_step k); [done| |apply put_kv_meta|by eapply G_kept; [constructor|]].
  apply (put_kv_coherent K content K_files); [rewrite Ek; by apply K_name|by rewrite Ek|by rewrite Ec|done].
Qed.

(** *** Chunked payloads *)
Lemma load_chunks_ok ns id n idx out k k' r :
  (forall i, idx <= i < idx + Z.of_nat n -> N ns (large_chunk_key id i)) -> store_ok k ->
  load_chunks ns id n idx out k = (k', r) ->
  store_ok k' /\ kv_meta k' = kv_meta k /\ forall b, r = Ok b -> chunk_content ns id n idx out = Some b.
Proof.
  revert idx out k. induction n as [|n IH]; intros idx out k Hn Hk; cbn [load_chunks chunk_content].
  { intros [= <- <-]. split; [done|]. split; [done|]. by intros b [= <-]. }
  destruct (get_kv ns (large_chunk_key id idx) k) as [k1 r1] eqn:E.
  destruct (store_ok_get ns (large_chunk_key id idx) k k1 r1) as (Hk1 & Em1 & Hv1); [apply Hn; lia|done|done|].
  destruct r1 as [[t p|]|e]; 
    [|intros [<- <-]%pair_inj; split; [done|]; split; [done|]; by intros b ?%Err_Ok..].
  rewrite (Hv1 t p eq_refl). cbn [mbind option_bind]. intros E2.
  destruct (IH (idx + 1) (out ++ p) k1) as (Hk2 & Em2 & Hv2); [intros i Hi; apply Hn; lia|done|done|].
  split; [done|]. split; [congruence|done].
Qed.

Lemma load_large_ok ns m k :
  (forall i, 0 <= i < chunk_count m -> N ns (large_chunk_key (lm_id m) i)) -> total_len m <= isize_max -> store_ok k ->
  exists k' r, load_large_payload ns m k = Some (k', r) /\ store_ok k' /\ kv_meta k' = kv_meta k /\
               forall b, r = Ok b -> manifest_content ns m = Some b.
Proof.
  intros Hn Hs Hk. unfold load_large_payload, manifest_content. rewrite decide_False by lia.
  destruct (load_chunks _ _ _ _ _ _) as [k' r] eqn:E.
  destruct (load_chunks_ok ns (lm_id m) (Z.to_nat (chunk_count m)) 0 [] k k' r) as (Hk' & Em & Hv); [|done|done|].
  { intros i Hi. apply Hn. lia. }
  eexists _, _. split; [reflexivity|]. split; [done|]. split; [done|]. intros b.
  destruct r as [out|e]; run_res; [|done]. rewrite (Hv out eq_refl). cbn [mbind option_bind].
  case_decide; [done|]. by intros <-%Ok_inj.
Qed.

Lemma resolve_ok ns key v k :
  N ns key -> content (okey ns key) = Some v -> store_ok k ->
  exists k' r, resolve_large_payload ns v k = Some (k', r) /\ store_ok k' /\ kv_meta k' = kv_meta k /\
               forall b, r = Ok b -> resolved ns key = Some b.
Proof.
  intros Hn Hv Hk. unfold resolve_large_payload, resolved, resolved_payload. rewrite Hv. cbn [mbind option_bind].
  destruct (parse_large_manifest v) as [m|] eqn:Em.
  - apply load_large_ok; [|by eapply N_sizes|done]. intros i Hi. by eapply N_chunks.
  - eexists _, _. split; [reflexivity|]. split; [done|]. split; [done|]. by intros b <-%Ok_inj.
Qed.

(** *** Materialisation *)
Lemma remember_arena_ok ns key b tier a :
  N ns key -> resolved ns key = Some b -> arena_ok a ->
  exists a' r, remember_arena_slab ns key b tier a = Some (a', r) /\ arena_ok a' /\
               forall s, r = Ok (Some s) -> slab_holds s b (ar_writer a').
Proof.
  intros Hn Hb (Hw & Hz & Hs).
  destruct (remember_ok ns key b tier a Hw) as (a' & r & -> & Hw' & Hz' & Hr & Hk).
  eexists _, _. split; [reflexivity|].
  assert (forall s, r = Ok (Some s) -> slab_holds s b (ar_writer a')) as Hnew.
  { intros s Er. apply Hr; [done|]. by apply (N_small ns key). }
  split; [|done]. split; [done|]. split; [congruence|]. intros ns' key' s Hn' Hl.
  destruct (Hk _ _ Hl) as [[E Er]|[Hl' Hkeep]].
  - apply arena_key_inj in E as [-> ->]; [|by eapply N_nul..]. exists b. auto.
  - destruct (Hs ns' key' s Hn' Hl') as (b' & Hb' & Hh). exists b'. auto.
Qed.

Lemma daemon_ok_set k a (d : Dm) : daemon_ok d -> store_ok k -> arena_ok a -> daemon_ok (set_arena a (set_kv k d)).
Proof. intros (_ & _ & Hi & Hj) Hk Ha. split; [done|]. split; [|done]. by intros ? [= <-]. Qed.

Lemma materialize_ok ns key v tier (d : Dm) :
  N ns key -> content (okey ns key) = Some v -> daemon_ok d ->
  exists d' r, materialize ns key v tier d = Some (d', r) /\ daemon_ok d' /\
    kv_meta (dm_store d') = kv_meta (dm_store d) /\ async_put_inflight d' = async_put_inflight d /\
    dm_jobs d' = dm_jobs d /\
    forall s, r = Ok (Some s) ->
      exists a b, dm_arena d' = Some a /\ resolved ns key = Some b /\ slab_holds s b (ar_writer a).
Proof.
  intros Hn Hv Hd. pose proof Hd as (Hk & Ha & Hi & Hj). unfold materialize.
  destruct (dm_arena d) as [a|] eqn:Ea; [|eexists _, _; split; [reflexivity|]; by do 4 (split; [done|])].
  specialize (Ha a eq_refl). unfold materialize_large_payload.
  destruct (parse_large_manifest v) as [m|] eqn:Em.
  - destruct (ar_poisoned a) eqn:Ep.
    { eexists _, _. split; [reflexivity|]. split; [by apply daemon_ok_set|by do 3 (split; [done|])]. }
    case_decide. { eexists _, _. split; [reflexivity|]. split; [by apply daemon_ok_set|by do 3 (split; [done|])]. }
    destruct (load_large_ok ns m (dm_store d)) as (k' & r & -> & Hk' & Emeta & Hr);
      [intros i Hrange; by eapply N_chunks|by eapply N_sizes|done|]. cbn [mbind option_bind].
    destruct r as [out|e]; cbn [mbind option_bind].
    2: { eexists _, _. split; [reflexivity|]. split; [by apply daemon_ok_set|by do 3 (split; [done|])]. }
    assert (resolved ns key = Some out) as Hres.
    { unfold resolved, resolved_payload. rewrite Hv. cbn [mbind option_bind]. rewrite Em. by apply Hr. }
    destruct (remember_arena_ok ns key out tier a Hn Hres Ha) as (a' & r & -> & Ha' & Hs). cbn [mbind option_bind].
    eexists _, _. split; [reflexivity|]. split; [by apply daemon_ok_set|]. do 3 (split; [done|]).
    intros s Er. exists a', out. auto.
  - assert (resolved ns key = Some v) as Hres.
    { unfold resolved, resolved_payload. rewrite Hv. cbn [mbind option_bind]. by rewrite Em. }
    destruct (remember_arena_ok ns key v tier a Hn Hres Ha) as (a' & r & -> & Ha' & Hs). cbn [mbind option_bind].
    eexists _, _. split; [reflexivity|]. split; [by apply daemon_ok_set|]. do 3 (split; [done|]).
    intros s Er. exists a', v. auto.
Qed.

(** *** The handlers *)
Lemma daemon_ok_kv k (d : Dm) : daemon_ok d -> store_ok k -> daemon_ok (set_kv k d).
Proof. intros (_ & Ha & Hi & Hj) Hk. by do 3 (split; [done|]). Qed.

Lemma sync_put_written id req (d : Dm) :
  put_ok (rq_namespace req) (rq_key req) (rq_payload req) ->
  daemon_ok (set_kv (fst (put_kv (rq_namespace req) (rq_key req) (rq_payload req) (dm_store d))) d) ->
  exists d' resp, sync_put id req d = Some (d', resp) /\ daemon_ok d' /\ rs_id resp = id /\ rs_op resp = op.PUT /\
    (rs_status resp = status.OK <-> is_ok (snd (put_kv (rq_namespace req) (rq_key req) (rq_payload req) (dm_store d))) = true).
Proof.
  intros Hp Hd. unfold sync_put. destruct (put_kv _ _ _ _) as [k r]. cbn [fst snd] in *. destruct Hp as (Hn & Hv & _).
  destruct r as [[]|e].
  - destruct (materialize_ok (rq_namespace req) (rq_key req) (rq_payload req) 1 (set_kv k d) Hn Hv Hd)
      as (d' & r & -> & Hd' & _). cbn [mbind option_bind].
    eexists _, _. split; [reflexivity|]. by do 3 (split; [done|]).
  - eexists _, _. split; [reflexivity|]. split; [done|]. do 2 (split; [done|]).
    split; [discriminate|]. discriminate.
Qed.
Lemma sync_put_ok id req (d : Dm) :
  put_ok (rq_namespace req) (rq_key req) (rq_payload req) -> daemon_ok d ->
  exists d' resp, sync_put id req d = Some (d', resp) /\ daemon_ok d' /\ rs_id resp = id /\ rs_op resp = op.PUT /\
    (rs_status resp = status.OK <-> is_ok (snd (put_kv (rq_namespace req) (rq_key req) (rq_payload req) (dm_store d))) = true).
Proof. intros Hp Hd. apply sync_put_written; [done|]. apply daemon_ok_kv; [done|]. by apply store_ok_put, Hd. Qed.

(** A detached write keeps the invariant. *)
Lemma run_put_job_ok j (d : Dm) :
  job_good j -> daemon_ok d -> exists d', run_put_job j d = Some d' /\ daemon_ok d'.
Proof.
  intros Hp Hd. unfold run_put_job. destruct (store_ok_put _ _ _ _ Hp (proj1 Hd)) as [Hk Em].
  destruct (put_kv _ _ _ _) as [k r]. cbn [fst snd] in *. destruct Hp as (Hn & Hv & _).
  assert (daemon_ok (mkDaemon k (dm_arena d) (dm_slatedb d) (async_put_inflight d - 1) (dm_jobs d))) as Hd1
    by (destruct Hd as (_ & ? & ? & ?); by do 3 (split; [done|])).
  destruct r as [[]|e]; [|by eexists].
  destruct (materialize_ok (pj_namespace j) (pj_key j) (pj_payload j) 1 _ Hn Hv Hd1) as (d' & r & -> & Hd' & _).
  cbn [mbind option_bind]. by eexists.
Qed.

(** What a get answers. *)
Inductive get_answer (id : Z) (ns key : str) (d : Dm) : WireResponse -> Prop :=
| answer_arena a s b :
    dm_arena d = Some a -> resolved ns key = Some b -> slab_holds s b (ar_writer a) ->
    get_answer id ns key d (arena_response id op.GET s)
| answer_inline v t : content (okey ns key) = Some v ->
    get_answer id ns key d (ok_response id op.GET v (lit "tier:" ++ dec (tier_byte t)))
| answer_miss : ~ found ns key -> get_answer id ns key d (mkResp id status.MISS op.GET [] [])
| answer_error msg : ~ found ns key -> get_answer id ns key d (err_response id op.GET msg).

Lemma dispatch_get_ok id req (d : Dm) :
  N (rq_namespace req) (rq_key req) -> daemon_ok d ->
  exists d' resp, dispatch_get id req d = Some (d', resp) /\ daemon_ok d' /\
                  get_answer id (rq_namespace req) (rq_key req) d' resp.
Proof.
  intros Hn Hd. unfold dispatch_get.
  destruct (dm_arena d ≫= lookup_arena_slab (rq_namespace req) (rq_key req)) as [s|] eqn:El.
  { destruct (dm_arena d) as [a|] eqn:Ea; [|done]. cbn [mbind option_bind] in El. unfold lookup_arena_slab in El.
    destruct (ar_poisoned a); [done|]. destruct Hd as (Hk & Ha & Hrest). destruct (Ha a Ea) as (Hw & Hz & Hs).
    destruct (Hs _ _ _ Hn El) as (b & Hb & Hh).
    eexists _, _. split; [reflexivity|]. split; [done|]. by eapply answer_arena. }
  destruct (get_kv _ _ _) as [k r] eqn:E. destruct (store_ok_get _ _ _ _ _ Hn (proj1 Hd) E) as (Hk & Em & Hv).
  pose proof (daemon_ok_kv k d Hd Hk) as Hd1.
  assert (found (rq_namespace req) (rq_key req) -> exists t v, r = Ok (Hit t v)) as Hf.
  { intros Hf. destruct (G_found _ _ _ (proj1 Hd) Hn Hf) as (k1 & t & v & E1). rewrite E in E1. injection E1 as _ ->. eauto. }
  destruct r as [[t v|]|e];
    [|eexists _, _; split; [reflexivity|]; split; [done|]; constructor; intros (? & ? & ?)%Hf; discriminate..].
  specialize (Hv t v eq_refl).
  destruct (materialize_ok _ _ v (tier_byte t) _ Hn Hv Hd1) as (d' & r & -> & Hd' & _ & _ & _ & Hs).
  cbn [mbind option_bind]. eexists _, _. split; [reflexivity|]. split; [done|].
  destruct r as [[s|]|e]; [|by constructor..].
  destruct (Hs s eq_refl) as (a & b & Ea & Hb & Hh). by eapply answer_arena.
Qed.

(** *** Batched gets *)
Lemma get_many_loop_ok id ns keys items tier k :
  Forall (N ns) keys -> store_ok k ->
  exists k' r, get_many_loop id ns keys items tier k = Some (k', r) /\ store_ok k' /\ kv_meta k' = kv_meta k /\
    match r with
    | inl (items', _) => exists new, items' = items ++ new /\ Forall2 (fun key b => resolved ns key = Some b) keys new
    | inr resp => rs_id resp = id /\ rs_op resp = op.GET_MANY /\ rs_status resp <> status.OK
    end.
Proof.
  intros HN. revert items tier k. induction HN as [|key keys Hn HN IH]; intros items tier k Hk; cbn [get_many_loop].
  { eexists _, _. split; [reflexivity|]. do 2 (split; [done|]). exists []. by rewrite app_nil_r. }
  destruct (get_kv ns key k) as [k1 r1] eqn:E. destruct (store_ok_get ns key k k1 r1 Hn Hk E) as (Hk1 & Em1 & Hv1).
  destruct r1 as [[t v|]|e]; [|eexists _, _; split; [reflexivity|]; by do 4 (split; [done|])..].
  destruct (resolve_ok ns key v k1 Hn (Hv1 t v eq_refl) Hk1) as (k2 & r2 & -> & Hk2 & Em2 & Hr2). cbn [mbind option_bind].
  destruct r2 as [b|e]; [|eexists _, _; split; [reflexivity|]; split; [done|]; split; [congruence|]; by split].
  destruct (IH (items ++ [b]) (match t with TierFoyer => tier | TierObjectStore => 2 end) k2 Hk2)
    as (k3 & r3 & -> & Hk3 & Em3 & Hr3).
  eexists _, _. split; [reflexivity|]. split; [done|]. split; [congruence|].
  destruct r3 as [[items' tier']|resp]; [|done]. destruct Hr3 as (new & -> & HF). exists (b :: new).
  rewrite <- app_assoc. split; [done|]. constructor; auto.
Qed.

Lemma write_arena_payload_ok bs tier a :
  arena_ok a -> exists a' r, write_arena_payload bs tier a = Some (a', r) /\ arena_ok a' /\
    forall s, r = Ok (Some s) -> len bs <= u32_max -> slab_holds s bs (ar_writer a').
Proof.
  intros (Hw & Hz & Hs). destruct (write_arena_ok bs tier a Hw) as (a' & r & -> & Hw' & Hz' & Hk & Hr).
  eexists _, _. split; [reflexivity|]. split; [|done]. split; [done|]. split; [congruence|]. intros ns key s Hn Hl.
  destruct (Hk _ _ Hl) as [Hl' Hkeep]. destruct (Hs ns key s Hn Hl') as (b & Hb & Hh). eauto.
Qed.

(** What a batched get answers when it succeeds: the payloads of the keys, in
    order, encoded inline or in the arena. *)
Definition get_many_answer (id : Z) (ns : str) (keys : list str) (d : Dm) (resp : WireResponse) : Prop :=
  rs_status resp = status.OK ->
  exists items, Forall2 (fun key b => resolved ns key = Some b) keys items /\
    let batch := encode_bytes_batch items in
    (exists tier, resp = ok_response id op.GET_MANY batch (lit "tier:" ++ dec tier)) \/
    exists a s, dm_arena d = Some a /\ resp = arena_response id op.GET_MANY s /\
                (len batch <= u32_max -> slab_holds s batch (ar_writer a)).

Lemma get_many_inline_answer id tier batch :
  rs_status (get_many_inline id tier batch) = status.OK ->
  get_many_inline id tier batch = ok_response id op.GET_MANY batch (lit "tier:" ++ dec tier).
Proof. unfold get_many_inline. by destruct (fits_one_frame _). Qed.
Lemma get_many_inline_id id tier batch :
  rs_id (get_many_inline id tier batch) = id /\ rs_op (get_many_inline id tier batch) = op.GET_MANY.
Proof. unfold get_many_inline. by destruct (fits_one_frame _). Qed.

Lemma dispatch_get_many_ok id req (d : Dm) :
  (forall keys, decode_key_batch (rq_payload req) = Ok keys -> Forall (N (rq_namespace req)) keys) -> daemon_ok d ->
  exists d' resp, dispatch_get_many id req d = Some (d', resp) /\ daemon_ok d' /\ rs_id resp = id /\
    rs_op resp = op.GET_MANY /\
    forall keys, decode_key_batch (rq_payload req) = Ok keys -> get_many_answer id (rq_namespace req) keys d' resp.
Proof.
  intros HN Hd. unfold dispatch_get_many. destruct (decode_key_batch (rq_payload req)) as [keys|e] eqn:Ek.
  2: { eexists _, _. split; [reflexivity|]. do 3 (split; [done|]). by intros keys ?%Err_Ok. }
  destruct (get_many_loop_ok id (rq_namespace req) keys [] 1 (dm_store d) (HN keys eq_refl) (proj1 Hd))
    as (k & r & -> & Hk & Em & Hr). cbn [mbind option_bind]. pose proof (daemon_ok_kv k d Hd Hk) as Hd1.
  destruct r as [[items tier]|resp].
  2: { destruct Hr as (Hid & Hop & Hst). eexists _, _. split; [reflexivity|]. do 3 (split; [done|]). by intros ? _ ?. }
  destruct Hr as (new & -> & HF). cbn [app]. set (batch := encode_bytes_batch new).
  assert (forall (d1 : Dm) keys', @Ok _ WireCodecError keys = Ok keys' ->
            get_many_answer id (rq_namespace req) keys' d1 (get_many_inline id tier batch)) as Hinl.
  { intros d1 keys' <-%Ok_inj Hst. exists new. split; [done|]. left. exists tier. by apply get_many_inline_answer. }
  destruct (get_many_inline_id id tier batch) as [Hid Hop].
  cbn [dm_arena set_kv]. destruct (dm_arena d) as [a|] eqn:Ea.
  2: { eexists _, _. split; [reflexivity|]. split; [done|]. split; [done|]. split; [done|]. auto. }
  destruct (write_arena_payload_ok batch tier a) as (a' & r & -> & Ha' & Hs).
  { destruct Hd as (_ & Ha & _). by apply Ha. }
  cbn [mbind option_bind]. eexists _, _. split; [reflexivity|].
  split; [by apply daemon_ok_set|].
  destruct r as [[s|]|e]; [|split; [done|]; split; [done|]; apply Hinl..].
  split; [done|]. split; [done|]. intros keys' <-%Ok_inj _. exists new. split; [done|]. right. exists a', s. auto.
Qed.

(** *** The small operations *)
Lemma dispatch_exists_ok id req (d : Dm) :
  daemon_ok d -> daemon_ok (fst (dispatch_exists id req d)).
Proof.
  intros Hd. unfold dispatch_exists. pose proof (exists_kv_meta (rq_namespace req) (rq_key req) (dm_store d)) as Em.
  pose proof (exists_kv_coherent K content (rq_namespace req) (rq_key req) (dm_store d) (proj1 (proj1 Hd))) as Hc.
  pose proof (G_kept _ _ (call_exists (rq_namespace req) (rq_key req) (dm_store d)) (proj2 (proj2 (proj2 (proj1 Hd))))) as Hg.
  destruct (exists_kv _ _ _) as [k r]. apply daemon_ok_kv; [done|]. by apply (store_ok_step (dm_store d)); [apply Hd|..].
Qed.
Lemma dispatch_list_ok id req (d : Dm) : daemon_ok d -> daemon_ok (fst (dispatch_list id req d)).
Proof.
  intros Hd. unfold dispatch_list. pose proof (list_kv_keys_meta (rq_namespace req) (dm_store d)) as Em.
  assert (coherent K content (fst (list_kv_keys (rq_namespace req) (dm_store d)))) as Hc.
  { unfold list_kv_keys.
    pose proof (on_store_read_coherent K content (list_prefix (namespace_prefix (dm_store d) (rq_namespace req))) (dm_store d)) as Hr.
    destruct (on_store _ _). apply Hr; [|apply Hd]. by intros ? ? ? [? _]%list_prefix_law. }
  pose proof (G_kept _ _ (call_list (rq_namespace req) (dm_store d)) (proj2 (proj2 (proj2 (proj1 Hd))))) as Hg.
  destruct (list_kv_keys _ _) as [k r]. apply daemon_ok_kv; [done|]. by apply (store_ok_step (dm_store d)); [apply Hd|..].
Qed.
Lemma dispatch_restore_ok id req (d : Dm) : daemon_ok d -> daemon_ok (fst (dispatch_restore id req d)).
Proof.
  intros Hd. unfold dispatch_restore. pose proof (restore_meta (rq_namespace req) (dm_store d)) as Em.
  pose proof (restore_coherent K content (rq_namespace req) (dm_store d) (proj1 (proj1 Hd))) as Hc.
  pose proof (G_kept _ _ (call_restore (rq_namespace req) (dm_store d)) (proj2 (proj2 (proj2 (proj1 Hd))))) as Hg.
  destruct (restore_from_s3 _ _) as [k r]. apply daemon_ok_kv; [done|]. by apply (store_ok_step (dm_store d)); [apply Hd|..].
Qed.
Lemma dispatch_clear_ok id (d : Dm) : daemon_ok d -> daemon_ok (fst (dispatch_clear id d)).
Proof.
  intros Hd. unfold dispatch_clear. cbn [fst].
  assert (store_ok (clear_foyer (dm_store d))) as Hk.
  { destruct Hd as (((Hfl & Hfo & Hs) & Hp & Hc & Hg) & _).
    split; [|do 2 (split; [done|]); by eapply G_kept; [constructor|]].
    split; [done|]. split; [by apply foyer_clear_coherent|done]. }
  pose proof (daemon_ok_kv _ d Hd Hk) as Hd1. cbn [dm_arena set_kv]. destruct (dm_arena d) as [a|] eqn:Ea; [|done].
  destruct (ar_poisoned a); [done|]. apply daemon_ok_set; [done|done|].
  destruct Hd as (_ & Ha & _). destruct (Ha a Ea) as (Hw & Hz & _). split; [done|].
  split; [done|]. intros ns key s _. cbn [ar_slabs]. by rewrite lookup_empty.
Qed.

(** *** Fetching blocks *)
Definition block_content (ns hex : str) : option bytes := content (okey ns (block_key_from_hex hex)).

Lemma collect_items_ok ts items l :
  Forall (fun t => exists r, t = FDone r) ts -> collect_items ts items = Ok (Some l) ->
  exists new, l = items ++ new /\ ts = map (fun b => FDone (Ok (Some b))) new.
Proof.
  intros HF. revert items. induction HF as [|t ts [r ->] _ IH]; intros items; cbn [collect_items].
  { intros [= <-]. exists []. by rewrite app_nil_r. }
  destruct r as [[b|]|e]; [|done..]. intros E. destruct (IH _ E) as (new & -> & ->). exists (b :: new).
  by rewrite <- app_assoc.
Qed.

Lemma get_step_done ns key_of text i w t :
  exists r, snd (steps (get_step (S := S) (H := H) ns key_of text) 2 i w t) = FDone r.
Proof.
  destruct w as [k m], t; cbn [steps get_step].
  - destruct m; cbn; [eauto|]. destruct (get_kv _ _ _) as [k1 [[t v|]|e]]; cbn; eauto.
  - destruct (get_kv _ _ _) as [k1 [[t v|]|e]]; cbn; eauto.
  - cbn. eauto.
Qed.

(** The payload a finished thread brought is that of its key. *)
Definition fetched_ok (ns : str) (key_of : nat -> str) (i : nat) (t : FetchThread) : Prop :=
  match t with
  | FDone (Ok (Some b)) => content (okey ns (key_of i)) = Some b
  | _ => True
  end.

Lemma get_step_ok ns key_of text meta i (w : KvStore * bool) t w' t' :
  N ns (key_of i) -> store_ok (fst w) /\ kv_meta (fst w) = meta -> fetched_ok ns key_of i t ->
  get_step ns key_of text i w t = (w', t') ->
  (store_ok (fst w') /\ kv_meta (fst w') = meta) /\ fetched_ok ns key_of i t'.
Proof.
  intros Hn [Hk Em] Ht. destruct w as [k m]. unfold get_step. destruct t.
  - destruct m; intros [<- <-]%pair_inj; done.
  - destruct (get_kv _ _ k) as [k1 r] eqn:E. destruct (store_ok_get _ _ _ _ _ Hn Hk E) as (Hk1 & Em1 & Hv).
    cbn [fst] in *. destruct r as [[t v|]|e]; intros [<- <-]%pair_inj; cbn [fst]; (split; [split; [done|congruence]|]); [|done..].
    cbn. by apply (Hv t).
  - by intros [<- <-]%pair_inj.
Qed.

(** One thread per key: when all bring a payload, each brings that of its key. *)
Lemma get_scope_ok {A} (xs : list A) sched ns key_of text k k' m' ts :
  (forall i, (i < length xs)%nat -> N ns (key_of i)) -> store_ok k ->
  scope (get_step ns key_of text) 2 sched (k, false) (map (fun _ => FStart) xs) = ((k', m'), ts) ->
  store_ok k' /\ kv_meta k' = kv_meta k /\
  forall items, collect_items ts [] = Ok (Some items) ->
    length items = length xs /\ forall i b, items !! i = Some b -> content (okey ns (key_of i)) = Some b.
Proof.
  intros HN Hk E.
  pose proof (scope_ok (get_step ns key_of text) (fun w => store_ok (fst w) /\ kv_meta (fst w) = kv_meta k)
    (fun i w t => (i < length xs)%nat /\ fetched_ok ns key_of i t)) as Hs.
  destruct (Hs) with (rounds := 2%nat) (sched := sched) (w := (k, false)) (ts := map (fun _ : A => FStart) xs)
    (w' := (k', m')) (ts' := ts) as ([Hk1 Em1] & Hts & Hlen); [| |done| |exact E|].
  - intros i w t w' t' Hi [Hlt Ht] Es. destruct (get_step_ok ns key_of text (kv_meta k) i w t w' t' (HN i Hlt) Hi Ht Es). auto.
  - auto.
  - intros i t Ht. rewrite list_lookup_fmap in Ht. cbn. destruct (xs !! i) eqn:Ei; [|done]. injection Ht as <-.
    split; [by eapply lookup_lt_Some|done].
  - split; [done|]. split; [done|]. intros items Er.
    pose proof (scope_done (get_step (S := S) (H := H) ns key_of text) (fun t => exists r, t = FDone r) 2
      sched (k, false) (map (fun _ : A => FStart) xs) (get_step_done ns key_of text)) as Hdone.
    rewrite E in Hdone. cbn [snd] in Hdone.
    destruct (collect_items_ok ts [] items Hdone Er) as (new & -> & ->). cbn [app].
    rewrite !length_map in Hlen. split; [done|]. intros i b Eb.
    destruct (Hts i (FDone (Ok (Some b)))) as [_ Hb]; [by rewrite list_lookup_fmap, Eb|]. exact Hb.
Qed.

Lemma fetch_blocks_ok sched ns hexes k k' r :
  Forall (fun hex => N ns (block_key_from_hex hex)) hexes -> store_ok k ->
  fetch_blocks sched ns hexes k = (k', r) ->
  store_ok k' /\ kv_meta k' = kv_meta k /\
  forall items, r = Ok (Some items) -> Forall2 (fun hex b => block_content ns hex = Some b) hexes items.
Proof.
  intros HN Hk. unfold fetch_blocks.
  destruct (scope _ _ _ _ _) as [[k1 m1] ts] eqn:E. intros [<- <-]%pair_inj.
  eapply (get_scope_ok hexes sched) in E as (Hk1 & Em1 & Hi); [| |done].
  2: { intros i Hi. rewrite Forall_forall in HN. apply HN, list_elem_of_In, nth_In. lia. }
  split; [done|]. split; [done|]. intros items Er. destruct (Hi items Er) as [Hlen Hb].
  apply Forall2_same_length_lookup_2; [done|]. intros i hex b Eh Eb. specialize (Hb i b Eb).
  cbn in Hb. by rewrite (nth_lookup_Some hexes i [] hex Eh) in Hb.
Qed.

(** *** Putting blocks *)
Definition items_ok (ns : str) (items : list (str * bytes)) : Prop :=
  forall i key p, items !! i = Some (key, p) -> put_ok ns key p.

Lemma put_blocks_ok sched ns items k k' r :
  items_ok ns items -> store_ok k -> put_blocks sched ns items k = (k', r) ->
  store_ok k' /\ kv_meta k' = kv_meta k.
Proof.
  intros HN Hk. unfold put_blocks. destruct (scope _ _ _ _ _) as [k1 ts] eqn:E. intros [<- <-]%pair_inj.
  pose proof (scope_ok (put_step ns items) (fun k1 => store_ok k1 /\ kv_meta k1 = kv_meta k) (fun _ _ _ => True)) as Hs.
  destruct (Hs) with (rounds := 1%nat) (sched := sched) (w := k) (ts := map (fun _ : str * bytes => @None (result unit str)) items)
    (w' := k1) (ts' := ts) as (Hinv & _ & _); [|done|done|done|exact E|done].
  intros i w t w' t' [Hw Em] _. unfold put_step. destruct t; [by intros [<- <-]%pair_inj|].
  destruct (items !! i) as [[key p]|] eqn:Ei; [|by intros [<- <-]%pair_inj].
  destruct (store_ok_put ns key p w (HN i key p Ei) Hw) as [Hw1 Em1].
  destruct (put_kv ns key p w) as [w1 r1]. cbn [fst] in *. intros [<- <-]%pair_inj. split; [|done]. split; congruence.
Qed.

(** The domain of a metadata index grows by the hashes of the batch. *)
Lemma index_blocks_ok clock n blocks total idx slate :
  (forall i, in_u64 (clock i)) -> Forall (fun b => is_hash (fst b) /\ len (snd b) <= u64_max) blocks -> slate_ok slate ->
  exists idx' slate' total', index_blocks clock n blocks total idx slate = Some (idx', slate', total') /\
    slate_ok slate' /\ dom (entries idx') = dom (entries idx) ∪ list_to_set (map fst blocks) /\
    (forall s m, slate = Some s -> idx_repr s m ->
       exists s' m', slate' = Some s' /\ idx_repr s' m' /\ dom m' = dom m ∪ list_to_set (map fst blocks)) /\
    (slate = None -> slate' = None).
Proof.
  intros Hclock HF. revert n total idx slate. induction HF as [|[h p] blocks [Hh Hp] _ IH]; intros n total idx slate Hsl;
    cbn [index_blocks map list_to_set fst snd] in *.
  { eexists _, _, _. split; [reflexivity|]. split; [done|]. split; [set_solver|]. split; [|done].
    intros s m -> Hr. exists s, m. split; [done|]. split; [done|set_solver]. }
  assert (meta_wf (new_root (clock n) (len p) (replicate 24 x00) (replicate 16 x00))) as Hwf.
  { unfold meta_wf, is_hash. cbn. pose proof (len_nonneg p). repeat split; try done; try (apply Hclock); lia. }
  set (meta := new_root (clock n) (len p) (replicate 24 x00) (replicate 16 x00)) in *.
  set (idx1 := InMem.insert (clock (n + 1)%nat) h meta idx).
  assert (dom (entries idx1) = dom (entries idx) ∪ {[h]}) as Hdom1.
  { unfold idx1, InMem.insert. cbn [entries]. rewrite dom_insert_L. set_solver. }
  destruct slate as [s|].
  - destruct (Hsl s eq_refl) as (m & Hm).
    destruct (law_insert s m (clock (n + 2)%nat) h meta Hm (Hclock _) Hh Hwf) as (s1 & Es & Hm1). rewrite Es.
    cbn [mbind option_bind].
    destruct (IH (n + 3)%nat (saturating_add total (len p)) idx1 (Some s1)) as (idx' & slate' & total' & -> & Hsl' & Hd & Hs & _).
    { intros ? [= <-]. eauto. }
    eexists _, _, _. split; [reflexivity|]. split; [done|]. split; [rewrite Hd, Hdom1; set_solver|]. split; [|done].
    intros ? m0 [= <-] Hm0.
    destruct (law_insert s m0 (clock (n + 2)%nat) h meta Hm0 (Hclock _) Hh Hwf) as (s1' & Es' & Hm1').
    rewrite Es in Es'. injection Es' as <-. destruct (Hs s1 _ eq_refl Hm1') as (s' & m' & -> & Hm' & Hd').
    exists s', m'. split; [done|]. split; [done|]. rewrite Hd', dom_insert_L. set_solver.
  - cbn [mbind option_bind].
    destruct (IH (n + 3)%nat (saturating_add total (len p)) idx1 None) as (idx' & slate' & total' & -> & Hsl' & Hd & _ & Hnone).
    { done. }
    eexists _, _, _. split; [reflexivity|]. split; [done|]. split; [rewrite Hd, Hdom1; set_solver|]. split; [done|]. done.
Qed.

Lemma parse_pairs_length pos s h : parse_pairs pos s = Ok h -> (length s = 2 * length h \/ length s = 2 * length h + 1)%nat.
Proof.
  revert pos h. induction s as [| |a b s IH] using pairs_ind; intros pos h; cbn [parse_pairs].
  - intros <-%Ok_inj. by left.
  - intros <-%Ok_inj. by right.
  - destruct (decode_hex_nibble a); run_res; [|done]. destruct (decode_hex_nibble b); run_res; [|done].
    destruct (parse_pairs (pos + 2) s) as [out|e] eqn:E; run_res; [|done]. intros <-%Ok_inj.
    apply IH in E. cbn [length]. lia.
Qed.
Lemma parse_block_hash_is_hash s h : parse_block_hash_hex s = Ok h -> is_hash h.
Proof.
  unfold parse_block_hash_hex. case_decide as Hl; [|done]. intros E%parse_pairs_length. unfold len in Hl. unfold is_hash. lia.
Qed.
Lemma parse_hash_list_ok i hexes hs :
  parse_hash_list_from i hexes = Ok hs -> Forall2 (fun hex h => parse_block_hash_hex hex = Ok h) hexes hs.
Proof.
  revert i hs. induction hexes as [|hex hexes IH]; intros i hs; cbn [parse_hash_list_from].
  { intros <-%Ok_inj. constructor. }
  destruct (parse_block_hash_hex hex) as [h|e] eqn:Eh; run_res; [|by intros ?%Err_Ok].
  destruct (parse_hash_list_from (i + 1) hexes) as [hs'|e] eqn:E; run_res; [|by intros ?%Err_Ok].
  intros <-%Ok_inj. constructor; eauto.
Qed.

Lemma encode_block_resp_id id o st msg enc :
  rs_id (encode_block_resp_or_err id o st msg enc) = id /\ rs_op (encode_block_resp_or_err id o st msg enc) = o.
Proof. by destruct enc. Qed.

(** What a block get answers: when the decoded response has payloads, they are
    those of the blocks, in order. *)
Definition blocks_answer (id : Z) (r : GetKvBlocksBatchReq) (resp : WireResponse) : Prop :=
  (exists msg, resp = err_response id op.GET_KV_BLOCKS_BATCH msg) \/
  exists st msg r', resp = encode_block_resp_or_err id op.GET_KV_BLOCKS_BATCH st msg
                      (map_err wire_error_display (encode_get_kv_blocks_batch_resp r')) /\
    (st = status.OK -> gbb_error r' = None) /\
    forall items, gbb_payloads r' = Some items ->
      Forall2 (fun hex b => block_content (gbb_namespace r) hex = Some b) (gbb_hashes r) items.

Lemma dispatch_get_blocks_ok x id req (d : Dm) :
  (forall r, decode_get_kv_blocks_batch_req (rq_payload req) = Ok r ->
     Forall (fun hex => N (gbb_namespace r) (block_key_from_hex hex)) (gbb_hashes r)) ->
  daemon_ok d -> forall d' resp, dispatch_get_kv_blocks_batch x id req d = (d', resp) ->
  daemon_ok d' /\ rs_id resp = id /\ rs_op resp = op.GET_KV_BLOCKS_BATCH /\
  forall r, decode_get_kv_blocks_batch_req (rq_payload req) = Ok r -> blocks_answer id r resp.
Proof.
  intros HN Hd d' resp. unfold dispatch_get_kv_blocks_batch.
  destruct (decode_get_kv_blocks_batch_req (rq_payload req)) as [r|e] eqn:Er.
  2: { intros [<- <-]%pair_inj. do 3 (split; [done|]). by intros r ?%Err_Ok. }
  destruct (parse_block_hash_list (gbb_hashes r)) as [hs|e] eqn:Eh.
  2: { intros [<- <-]%pair_inj. split; [done|]. do 2 (split; [apply encode_block_resp_id|]).
       intros r' <-%Ok_inj. right. eexists _, _, _. split; [reflexivity|]. by split. }
  destruct (fetch_blocks _ _ _ _) as [k res] eqn:Ef.
  destruct (fetch_blocks_ok _ _ _ _ _ _ (HN r eq_refl) (proj1 Hd) Ef) as (Hk & Em & Hitems).
  intros [<- <-]%pair_inj. split; [by apply daemon_ok_kv|].
  destruct res as [payloads|e]; (do 2 (split; [apply encode_block_resp_id|]));
    intros r' <-%Ok_inj; right; eexists _, _, _; (split; [reflexivity|]); cbn; (split; [done|]); [|done].
  intros items ->. by apply Hitems.
Qed.

(** What a block put does: nothing to the indexes unless every block was
    written; then both know the blocks. *)
Definition index_grown (d d' : Dm) (hashes : list bytes) : Prop :=
  dom (entries (kv_index (dm_store d'))) = dom (entries (kv_index (dm_store d))) ∪ list_to_set hashes /\
  forall s m, dm_slatedb d = Some s -> idx_repr s m ->
    exists s' m', dm_slatedb d' = Some s' /\ idx_repr s' m' /\ dom m' = dom m ∪ list_to_set hashes.
Definition index_same (d d' : Dm) : Prop :=
  kv_index (dm_store d') = kv_index (dm_store d) /\ dm_slatedb d' = dm_slatedb d.

Definition put_blocks_answer (x : Ambient) (id : Z) (r : PutKvBlocksBatchReq) (d d' : Dm) (resp : WireResponse) : Prop :=
  (rs_status resp = status.ERROR /\ index_same d d') \/
  exists hashes total,
    parse_block_hash_list (pbb_hashes r) = Ok hashes /\ length hashes = length (pbb_payloads r) /\
    snd (put_blocks (am_sched x) (pbb_namespace r)
           (zip (map block_key_from_hex (pbb_hashes r)) (pbb_payloads r)) (dm_store d)) = None /\
    index_grown d d' hashes /\
    resp = encode_block_resp_or_err id op.PUT_KV_BLOCKS_BATCH status.OK []
             (map_err wire_error_display (encode_put_kv_blocks_batch_resp (mkPutKvBlocksBatchResp total None))).

Lemma zip_items_ok ns hexes hs payloads :
  items_ok ns (zip (map block_key_from_hex hexes) payloads) ->
  Forall2 (fun hex h => parse_block_hash_hex hex = Ok h) hexes hs ->
  Forall (fun b => is_hash (fst b) /\ len (snd b) <= u64_max) (zip hs payloads).
Proof.
  intros Hi HF. apply Forall_lookup. intros i [h p] Hz. apply lookup_zip_with_Some in Hz as (h' & p' & [= -> ->] & Hh & Hp).
  destruct (Forall2_lookup_r _ _ _ _ _ HF Hh) as (hex & Hx & Hparse). cbn. split; [by eapply parse_block_hash_is_hash|].
  destruct (Hi i (block_key_from_hex hex) p') as (_ & Hc & _); [|by eapply content_len].
  apply lookup_zip_with_Some. exists (block_key_from_hex hex), p'. split; [done|]. split; [|done].
  rewrite list_lookup_fmap, Hx. done.
Qed.

Lemma error_response_status id o msg enc : rs_status (encode_block_resp_or_err id o status.ERROR msg enc) = status.ERROR.
Proof. by destruct enc. Qed.

Lemma dispatch_put_blocks_ok x id req (d : Dm) :
  (forall i, in_u64 (am_clock x i)) ->
  (forall r, decode_put_kv_blocks_batch_req (rq_payload req) = Ok r ->
     items_ok (pbb_namespace r) (zip (map block_key_from_hex (pbb_hashes r)) (pbb_payloads r))) ->
  daemon_ok d ->
  exists d' resp, dispatch_put_kv_blocks_batch x id req d = Some (d', resp) /\ daemon_ok d' /\
    rs_id resp = id /\ rs_op resp = op.PUT_KV_BLOCKS_BATCH /\
    forall r, decode_put_kv_blocks_batch_req (rq_payload req) = Ok r -> put_blocks_answer x id r d d' resp.
Proof.
  intros Hclock HN Hd. unfold dispatch_put_kv_blocks_batch.
  destruct (decode_put_kv_blocks_batch_req (rq_payload req)) as [r|e] eqn:Er.
  2: { eexists _, _. split; [reflexivity|]. do 3 (split; [done|]). by intros r ?%Err_Ok. }
  specialize (HN r eq_refl).
  assert (forall msg enc (d1 : Dm) r', Ok (E := WireCodecError) r = Ok r' -> index_same d d1 ->
            put_blocks_answer x id r' d d1 (encode_block_resp_or_err id op.PUT_KV_BLOCKS_BATCH status.ERROR msg enc)) as Herr.
  { intros msg enc d1 r' _ Hsame. left. split; [apply error_response_status|done]. }
  case_decide as Hlen.
  { eexists _, _. split; [reflexivity|]. split; [done|]. do 2 (split; [apply encode_block_resp_id|]).
    intros r' E. by apply Herr. }
  destruct (parse_block_hash_list (pbb_hashes r)) as [hs|e] eqn:Eh.
  2: { eexists _, _. split; [reflexivity|]. split; [done|]. do 2 (split; [apply encode_block_resp_id|]).
       intros r' E. by apply Herr. }
  destruct (put_blocks _ _ _ _) as [k res] eqn:Ep.
  destruct (put_blocks_ok _ _ _ _ _ _ HN (proj1 Hd) Ep) as [Hk Em].
  assert (index_same d (set_kv k d)) as Hsame by (split; [by injection Em|done]).
  destruct res as [err|].
  { eexists _, _. split; [reflexivity|]. split; [by apply daemon_ok_kv|]. do 2 (split; [apply encode_block_resp_id|]).
    intros r' E. by apply Herr. }
  pose proof (parse_hash_list_ok 0 (pbb_hashes r) hs Eh) as HF.
  pose proof (zip_items_ok _ _ _ _ HN HF) as Hz. pose proof (Forall2_length _ _ _ HF) as Hl.
  destruct (index_blocks_ok (am_clock x) 0 (zip hs (pbb_payloads r)) 0 (kv_index k) (dm_slatedb (set_kv k d)) Hclock Hz)
    as (idx & slate & total & -> & Hsl & Hdom & Hslate & _); [apply Hd|]. cbn [mbind option_bind].
  assert (map fst (zip hs (pbb_payloads r)) = hs) as Hfst by (apply (fst_zip (A := bytes)); lia).
  rewrite Hfst in *. eexists _, _. split; [reflexivity|].
  split. { destruct Hd as (_ & Ha & _ & Hj). destruct Hk as (Hc & Hp & Hcfg & Hg).
           split; [do 3 (split; [done|]); by eapply G_kept; [constructor|]|]. by do 2 (split; [done|]). }
  do 2 (split; [apply encode_block_resp_id|]). intros r' <-%Ok_inj. right. exists hs, total.
  split; [done|]. split; [lia|]. split; [by rewrite Ep|]. split; [|done].
  destruct Hsame as [Eidx _]. cbn [dm_store set_kv] in Eidx. split; [|exact Hslate].
  cbn. rewrite Hdom. by rewrite Eidx.
Qed.

(** *** Every request *)

(** What a request must respect: it names names, and writes a name's payload. *)
Definition request_ok (req : WireRequest) : Prop :=
  (rq_op req = op.PUT -> put_ok (rq_namespace req) (rq_key req) (rq_payload req)) /\
  (rq_op req = op.GET -> N (rq_namespace req) (rq_key req)) /\
  (rq_op req = op.GET_MANY ->
     forall keys, decode_key_batch (rq_payload req) = Ok keys -> Forall (N (rq_namespace req)) keys) /\
  (rq_op req = op.GET_KV_BLOCKS_BATCH ->
     forall r, decode_get_kv_blocks_batch_req (rq_payload req) = Ok r ->
       Forall (fun hex => N (gbb_namespace r) (block_key_from_hex hex)) (gbb_hashes r)) /\
  (rq_op req = op.PUT_KV_BLOCKS_BATCH ->
     forall r, decode_put_kv_blocks_batch_req (rq_payload req) = Ok r ->
       items_ok (pbb_namespace r) (zip (map block_key_from_hex (pbb_hashes r)) (pbb_payloads r))).

(** A put is acknowledged when it is queued, or when the store took it. *)
Definition put_answer (id : Z) (req : WireRequest) (d d' : Dm) (resp : WireResponse) : Prop :=
  (resp = ok_response id op.PUT [] [] /\ dm_store d' = dm_store d /\
   dm_jobs d' = dm_jobs d ++ [mkPutJob (rq_namespace req) (rq_key req) (rq_payload req)]) \/
  (dm_jobs d' = dm_jobs d /\
   (rs_status resp = status.OK <->
    is_ok (snd (put_kv (rq_namespace req) (rq_key req) (rq_payload req) (dm_store d))) = true)).

(** What an answer promises. *)
Definition answer_ok (x : Ambient) (id : Z) (req : WireRequest) (d d' : Dm) (resp : WireResponse) : Prop :=
  (rq_op req = op.PUT -> put_answer id req d d' resp) /\
  (rq_op req = op.GET -> get_answer id (rq_namespace req) (rq_key req) d' resp) /\
  (rq_op req = op.GET_MANY -> forall keys, decode_key_batch (rq_payload req) = Ok keys ->
     get_many_answer id (rq_namespace req) keys d' resp) /\
  (rq_op req = op.GET_KV_BLOCKS_BATCH -> forall r, decode_get_kv_blocks_batch_req (rq_payload req) = Ok r ->
     blocks_answer id r resp) /\
  (rq_op req = op.PUT_KV_BLOCKS_BATCH -> forall r, decode_put_kv_blocks_batch_req (rq_payload req) = Ok r ->
     put_blocks_answer x id r d d' resp).
Definition clock_ok (x : Ambient) : Prop := forall i, in_u64 (am_clock x i).

(** The counter of detached writes counts them. *)
Definition counted (d : Dm) : Prop := async_put_inflight d = len (dm_jobs d).
Definition inv (d : Dm) : Prop := daemon_ok d /\ counted d.

(** Only a queued put changes the detached writes. *)
Definition jobs_of (d : Dm) : Z * list PutJob := (async_put_inflight d, dm_jobs d).
Lemma materialize_jobs ns key v tier (d d' : Dm) r : materialize ns key v tier d = Some (d', r) -> jobs_of d' = jobs_of d.
Proof.
  unfold materialize. destruct (dm_arena d) as [a|]; [|by intros [<- _]%Some_pair_inj].
  destruct (materialize_large_payload _ _ _ _ _ _) as [[[k a'] r']|]; cbn [mbind option_bind]; [|done].
  by intros [<- _]%Some_pair_inj.
Qed.
Lemma sync_put_jobs id req (d d' : Dm) resp : sync_put id req d = Some (d', resp) -> jobs_of d' = jobs_of d.
Proof.
  unfold sync_put. destruct (put_kv _ _ _ _) as [k [[]|e]]; [|by intros [<- _]%Some_pair_inj].
  destruct (materialize _ _ _ _ _) as [[d1 r1]|] eqn:E; cbn [mbind option_bind]; [|done].
  intros [<- _]%Some_pair_inj. by rewrite (materialize_jobs _ _ _ _ _ _ _ E).
Qed.
Lemma dispatch_get_jobs id req (d d' : Dm) resp : dispatch_get id req d = Some (d', resp) -> jobs_of d' = jobs_of d.
Proof.
  unfold dispatch_get. destruct (dm_arena d ≫= _); [by intros [<- _]%Some_pair_inj|].
  destruct (get_kv _ _ _) as [k [[t v|]|e]]; [|by intros [<- _]%Some_pair_inj..].
  destruct (materialize _ _ _ _ _) as [[d1 r1]|] eqn:E; cbn [mbind option_bind]; [|done].
  intros [<- _]%Some_pair_inj. by rewrite (materialize_jobs _ _ _ _ _ _ _ E).
Qed.
Lemma dispatch_get_many_jobs id req (d d' : Dm) resp : dispatch_get_many id req d = Some (d', resp) -> jobs_of d' = jobs_of d.
Proof.
  unfold dispatch_get_many. destruct (decode_key_batch _) as [keys|e]; [|by intros [<- _]%Some_pair_inj].
  destruct (get_many_loop _ _ _ _ _ _) as [[k [[items tier]|resp']]|]; cbn [mbind option_bind]; [|by intros [<- _]%Some_pair_inj|done].
  destruct (dm_arena _) as [a0|]; [|by intros [<- _]%Some_pair_inj].
  destruct (write_arena_payload _ _ _) as [[a r]|]; cbn [mbind option_bind]; [|done]. by intros [<- _]%Some_pair_inj.
Qed.
Lemma dispatch_get_blocks_jobs x id req (d : Dm) : jobs_of (fst (dispatch_get_kv_blocks_batch x id req d)) = jobs_of d.
Proof.
  unfold dispatch_get_kv_blocks_batch. destruct (decode_get_kv_blocks_batch_req _); [|done].
  destruct (parse_block_hash_list _); [|done]. by destruct (fetch_blocks _ _ _ _).
Qed.
Lemma dispatch_put_blocks_jobs x id req (d d' : Dm) resp :
  dispatch_put_kv_blocks_batch x id req d = Some (d', resp) -> jobs_of d' = jobs_of d.
Proof.
  unfold dispatch_put_kv_blocks_batch. destruct (decode_put_kv_blocks_batch_req _); [|by intros [<- _]%Some_pair_inj].
  case_decide; [by intros [<- _]%Some_pair_inj|].
  destruct (parse_block_hash_list _); [|by intros [<- _]%Some_pair_inj].
  destruct (put_blocks _ _ _ _) as [k [err|]]; [by intros [<- _]%Some_pair_inj|].
  destruct (index_blocks _ _ _ _ _ _) as [[[idx sl] tot]|]; cbn [mbind option_bind]; [|done].
  by intros [<- _]%Some_pair_inj.
Qed.
Lemma small_ops_jobs id req (d : Dm) :
  jobs_of (fst (dispatch_exists id req d)) = jobs_of d /\ jobs_of (fst (dispatch_list id req d)) = jobs_of d /\
  jobs_of (fst (dispatch_clear id d)) = jobs_of d /\ jobs_of (fst (dispatch_restore id req d)) = jobs_of d /\
  jobs_of (fst (dispatch_lookup_block_prefix id req d)) = jobs_of d.
Proof.
  split; [unfold dispatch_exists; by destruct (exists_kv _ _ _)|].
  split; [unfold dispatch_list; by destruct (list_kv_keys _ _)|].
  split; [unfold dispatch_clear; cbn [fst dm_arena set_kv]; destruct (dm_arena d) as [a|]; [by destruct (ar_poisoned a)|done]|].
  split; [unfold dispatch_restore; by destruct (restore_from_s3 _ _)|].
  unfold dispatch_lookup_block_prefix. destruct (decode_lookup_block_prefix_req _); [|done]. by destruct (parse_block_hash_list _).
Qed.

(** One handler: it answers, keeps the invariant and meets [Q]. *)
Definition handled (id o : Z) (d : Dm) (out : option (Dm * WireResponse)) (Q : Dm -> WireResponse -> Prop) : Prop :=
  exists d' resp, out = Some (d', resp) /\ inv d' /\ rs_id resp = id /\ rs_op resp = o /\ Q d' resp.
Lemma counted_same (d d' : Dm) : counted d -> jobs_of d' = jobs_of d -> counted d'.
Proof. unfold counted, jobs_of. intros Hc [= -> ->]. done. Qed.
Lemma handled_mono id o (d : Dm) out (Q Q' : Dm -> WireResponse -> Prop) :
  (forall d' resp, Q d' resp -> Q' d' resp) -> handled id o d out Q -> handled id o d out Q'.
Proof. intros HQ (d' & resp & ? & ? & ? & ? & ?). exists d', resp. by do 4 (split; [done|]); apply HQ. Qed.

Lemma small_ops_head id req (d : Dm) :
  let head (r : WireResponse) o := rs_id r = id /\ rs_op r = o in
  head (snd (dispatch_exists id req d)) op.EXISTS /\ head (snd (dispatch_list id req d)) op.LIST /\
  head (snd (dispatch_clear id d)) op.CLEAR /\ head (snd (dispatch_restore id req d)) op.RESTORE /\
  head (snd (dispatch_lookup_block_prefix id req d)) op.LOOKUP_BLOCK_PREFIX.
Proof.
  intros head. subst head. cbv beta.
  split; [unfold dispatch_exists; by destruct (exists_kv _ _ _) as [k [[]|e]]|].
  split; [unfold dispatch_list; by destruct (list_kv_keys _ _) as [k [l|e]]|].
  split; [done|].
  split; [unfold dispatch_restore; by destruct (restore_from_s3 _ _) as [k [n|e]]|].
  unfold dispatch_lookup_block_prefix. destruct (decode_lookup_block_prefix_req _); [|done].
  destruct (parse_block_hash_list _); apply encode_block_resp_id.
Qed.

Lemma handled_pair id o (d : Dm) (out : Dm * WireResponse) :
  counted d -> daemon_ok (fst out) -> jobs_of (fst out) = jobs_of d -> rs_id (snd out) = id /\ rs_op (snd out) = o ->
  handled id o d (Some out) (fun _ _ => True).
Proof.
  intros Hc Hd Hj [Hi Ho]. destruct out as [d' resp]. exists d', resp. split; [done|].
  split; [by split; [|by eapply counted_same]|done].
Qed.

Lemma dispatch_put_ok x id req (d : Dm) :
  put_ok (rq_namespace req) (rq_key req) (rq_payload req) -> inv d ->
  handled id op.PUT d (dispatch_put x id req d) (put_answer id req d).
Proof.
  intros Hp [Hd Hc]. unfold dispatch_put. destruct (_ && _) eqn:Ea.
  - eexists _, _. split; [reflexivity|]. split.
    + split; [|unfold counted in *; cbn [async_put_inflight dm_jobs]; rewrite Hc, len_app; done].
      destruct Hd as (Hk & Har & Hs & Hj). do 3 (split; [done|]). cbn [dm_jobs]. apply Forall_app. by split; [|apply Forall_singleton].
    + do 2 (split; [done|]). left. done.
  - destruct (sync_put_ok id req d Hp Hd) as (d' & resp & E & Hd' & Hi & Ho & Hst). exists d', resp. split; [done|].
    pose proof (sync_put_jobs _ _ _ _ _ E) as Hj.
    split; [by split; [|by eapply counted_same]|]. do 2 (split; [done|]). right. split; [by injection Hj|done].
Qed.

Lemma dispatch_ok x id req (d : Dm) :
  request_ok req -> clock_ok x -> inv d ->
  handled id (rq_op req) d (dispatch x id req d) (answer_ok x id req d).
Proof.
  intros (Rp & Rg & Rm & Rgb & Rpb) Hclock [Hd Hc].
  destruct (small_ops_jobs id req d) as (Je & Jl & Jc & Jr & Jp).
  destruct (small_ops_head id req d) as (He & Hl & Hcl & Hr & Hp).
  unfold dispatch, answer_ok.
  assert (forall o resp Q, rq_op req = o -> rs_id resp = id -> rs_op resp = o -> (forall d' r, Q d' r) ->
            handled id o d (Some (d, resp)) Q) as Hnop.
  { intros o resp Q Eo Hi Ho HQ. exists d, resp. by do 4 (split; [done|]). }
  case_decide as E1; [rewrite E1; by apply Hnop|]. case_decide as E2.
  { rewrite E2. eapply handled_mono; [|by apply dispatch_put_ok; [apply Rp|split]]. intros d' resp Ha. by split. }
  case_decide as E3.
  { rewrite E3. destruct (dispatch_get_ok id req d (Rg E3) Hd) as (d' & resp & E & Hd' & Ha). exists d', resp.
    split; [done|]. split; [split; [done|]; by eapply counted_same, dispatch_get_jobs|].
    split; [by destruct Ha|]. split; [by destruct Ha|]. by do 2 (split; [done|]). }
  case_decide as E4.
  { rewrite E4. destruct (dispatch_get_many_ok id req d (Rm E4) Hd) as (d' & resp & E & Hd' & Hi & Ho & Ha). exists d', resp.
    split; [done|]. split; [split; [done|]; by eapply counted_same, dispatch_get_many_jobs|].
    do 2 (split; [done|]). by do 3 (split; [done|]). }
  assert (forall o out, rq_op req = o -> handled id o d (Some out) (fun _ _ => True) ->
            o <> op.PUT -> o <> op.GET -> o <> op.GET_MANY -> o <> op.GET_KV_BLOCKS_BATCH -> o <> op.PUT_KV_BLOCKS_BATCH ->
            handled id o d (Some out) (fun d' resp => answer_ok x id req d d' resp)) as Hsmall.
  { intros o out <- Hh ? ? ? ? ?. eapply handled_mono; [|exact Hh]. intros d' resp _. by do 4 (split; [done|]). }
  case_decide as E5; [rewrite E5 at 1; apply Hsmall; [done| |done..]; by apply handled_pair; [|apply dispatch_exists_ok|..]|].
  case_decide as E6; [rewrite E6 at 1; apply Hsmall; [done| |done..]; by apply handled_pair; [|apply dispatch_list_ok|..]|].
  case_decide as E7; [rewrite E7; by apply Hnop|].
  case_decide as E8; [rewrite E8 at 1; apply Hsmall; [done| |done..]; by apply handled_pair; [|apply dispatch_clear_ok|..]|].
  case_decide as E9; [rewrite E9 at 1; apply Hsmall; [done| |done..]; by apply handled_pair; [|apply dispatch_restore_ok|..]|].
  case_decide as E10; [rewrite E10; by apply Hnop|].
  case_decide as E11.
  { rewrite E11 at 1; apply Hsmall; [done| |done..]. apply handled_pair; [done| |done..].
    unfold dispatch_lookup_block_prefix. destruct (decode_lookup_block_prefix_req _); [|done]. by destruct (parse_block_hash_list _). }
  case_decide as E12.
  { rewrite E12. destruct (dispatch_get_kv_blocks_batch x id req d) as [d' resp] eqn:E.
    destruct (dispatch_get_blocks_ok x id req d (Rgb E12) Hd d' resp E) as (Hd' & Hi & Ho & Ha). exists d', resp.
    pose proof (dispatch_get_blocks_jobs x id req d) as Hj. rewrite E in Hj.
    split; [done|]. split; [split; [done|]; by eapply counted_same|]. do 2 (split; [done|]). by do 4 (split; [done|]). }
  case_decide as E13.
  { rewrite E13. destruct (dispatch_put_blocks_ok x id req d Hclock (Rpb E13) Hd) as (d' & resp & E & Hd' & Hi & Ho & Ha).
    exists d', resp. split; [done|]. split; [split; [done|]; by eapply counted_same, dispatch_put_blocks_jobs|].
    do 2 (split; [done|]). by do 4 (split; [done|]). }
  apply Hnop; [done..|]. intros d' r. by do 4 (split; [done|]).
Qed.

(** *** Histories

    The daemon handles requests, its detached writes finish in any order, and
    evictions take blobs away. *)
Inductive daemon_step : Dm -> Dm -> Prop :=
| step_request x id req d d' resp :
    request_ok req -> clock_ok x -> dispatch x id req d = Some (d', resp) -> daemon_step d d'
| step_put_job before j after d d' :
    dm_jobs d = before ++ j :: after ->
    run_put_job j (mkDaemon (dm_store d) (dm_arena d) (dm_slatedb d) (async_put_inflight d) (before ++ after)) = Some d' ->
    daemon_step d d'
| step_evict ns key d :
    G (fst (delete_kv ns key (dm_store d))) -> daemon_step d (set_kv (fst (delete_kv ns key (dm_store d))) d).

Lemma run_put_job_jobs j (d d' : Dm) :
  run_put_job j d = Some d' -> jobs_of d' = (async_put_inflight d - 1, dm_jobs d).
Proof.
  unfold run_put_job. destruct (put_kv _ _ _ _) as [k [[]|e]]; [|by intros [= <-]].
  destruct (materialize _ _ _ _ _) as [[d1 r]|] eqn:E; cbn [mbind option_bind]; [|done].
  intros [= <-]. by rewrite (materialize_jobs _ _ _ _ _ _ _ E).
Qed.

Lemma daemon_step_inv d d' : inv d -> daemon_step d d' -> inv d'.
Proof.
  intros Hi Hs. destruct Hs as [x id req d d' resp Hr Hc E|before j after d d' Ej E|ns key d Hg].
  - destruct (dispatch_ok x id req d Hr Hc Hi) as (d1 & r1 & E1 & Hd1 & _). rewrite E in E1.
    injection E1 as -> _. done.
  - destruct Hi as [(Hk & Ha & Hsl & Hj) Hc]. rewrite Ej in Hj. apply Forall_app in Hj as [Hj1 [Hj0 Hj2]%Forall_cons].
    set (d0 := mkDaemon _ _ _ _ _) in E.
    assert (daemon_ok d0) as Hd0 by (do 3 (split; [done|]); by apply Forall_app).
    destruct (run_put_job_ok j d0 Hj0 Hd0) as (d1 & E1 & Hd1). rewrite E in E1. injection E1 as <-. split; [done|].
    apply run_put_job_jobs in E as [= E1 E2]. unfold counted in *. rewrite E1, E2. cbn [dm_jobs d0 async_put_inflight].
    rewrite Hc, Ej, !len_app, len_cons. lia.
  - destruct Hi as [Hd Hc]. split; [|done]. apply daemon_ok_kv; [done|].
    apply (store_ok_step (dm_store d)); [apply Hd|apply delete_kv_coherent, Hd|apply delete_kv_meta|done].
Qed.

Lemma daemon_steps_inv d d' : inv d -> rtc daemon_step d d' -> inv d'.
Proof. intros Hi Hs. induction Hs; [done|]; eauto using daemon_step_inv. Qed.

End Invariant.

(** ** A concrete daemon *)
Module Sample.
#[export] Existing Instance plain_texts.
#[export] Existing Instance countable_codec.
#[export] Existing Instance store_codec.
#[export] Existing Instance store_codec_laws.
Definition names (ns key : str) : Prop := ns = lit "ns" /\ key = lit "k".
Definition arena : ArenaShared := mkShared sample_arena ∅ 4 false.
Abbreviation Dm := (Daemon InMemoryObjectStore MapCache InMemoryMetadataIndex).
Definition daemon : Dm := mkDaemon sample_store (Some arena) (Some InMem.new) 0 [].
Definition world : Ambient := mkAmbient (fun _ => None) true [] (fun _ => 7) [].
Definition put_req : WireRequest := mkReq 1 op.PUT (lit "ns") (lit "k") (lit "payload").
Definition get_req : WireRequest := mkReq 2 op.GET (lit "ns") (lit "k") [].
Definition after_put : option (Dm * WireResponse) := dispatch world 1 put_req daemon.
End Sample.
Import Sample.

Lemma sample_resolved ns key b : names ns key -> resolved sample_content sample_store ns key = Some b -> b = lit "payload".
Proof. intros [-> ->] E. vm_compute in E. injection E as <-. reflexivity. Qed.
Lemma sample_K x : K names sample_store x -> x = sample_key.
Proof. by intros (ns & key & [-> ->] & ->). Qed.
Definition anything (k : WombatKVKvStore InMemoryObjectStore MapCache) : Prop := True.
Definition nothing (ns key : str) : Prop := False.
Lemma sample_inv : inv (I := InMemoryMetadataIndex) names sample_content sample_store anything 80 daemon.
Proof.
  split; [|done]. split; [|split; [|split; [|constructor]]].
  - split; [|done]. apply fresh_store_coherent.
  - intros a [= <-]. split; [apply sample_arena_inv|]. split; [done|]. intros ns key s _. cbn [ar_slabs arena]. by rewrite lookup_empty.
  - intros s [= <-]. exists ∅. done.
Qed.
Lemma sample_put_ok : request_ok names sample_content sample_store put_req.
Proof.
  split; [|by do 3 (split; [done|])]. intros _. split; [done|]. split; [by vm_compute|]. discriminate.
Qed.


(** ** Outside the invariant *)

(** The response to the last of a list of requests. *)
Fixpoint run_requests (d : Dm) (reqs : list WireRequest) : option (list WireResponse) :=
  match reqs with
  | [] => Some []
  | req :: rest =>
      '(d, resp) ← dispatch world (rq_id req) req d;
      resps ← run_requests d rest;
      Some (resp :: resps)
  end.

(** A key written twice, the second time with a payload too small for the arena,
    is still answered with the slab of the first. *)
Lemma stale_slab_after_small_put :
  run_requests daemon [mkReq 1 op.PUT (lit "ns") (lit "k") (lit "payload"); mkReq 2 op.PUT (lit "ns") (lit "k") (lit "new");
                       get_req]
  = Some [ok_response 1 op.PUT [] []; ok_response 2 op.PUT [] []; arena_response 2 op.GET (mkSlab 64 7 1)].
Proof. vm_compute. reflexivity. Qed.

(** A payload that parses as a manifest longer than the address space makes the
    thread that handles its put panic. *)
Lemma crafted_manifest_panics :
  run_requests daemon [mkReq 1 op.PUT (lit "ns") (lit "k") (large_manifest (lit "x") (isize_max + 1) 0)] = None.
Proof. vm_compute. reflexivity. Qed.

(** A block put under its hash in upper case is found by the prefix lookup and
    missed by a get under the hash in lower case. *)
Definition hash_upper : str := concat (replicate 32 (lit "AB")).
Definition hash_lower : str := concat (replicate 32 (lit "ab")).
Definition payload_of {T} (r : result bytes T) : bytes := match r with Ok b => b | Err _ => [] end.
Lemma upper_case_block_is_lost :
  let put := mkPutKvBlocksBatchReq (lit "ns") [hash_upper] [lit "payload"] in
  let look := mkLookupBlockPrefixReq (lit "ns") [hash_lower] in
  let get := mkGetKvBlocksBatchReq (lit "ns") [hash_lower] in
  map rs_payload <$> run_requests daemon
    [mkReq 1 op.PUT_KV_BLOCKS_BATCH [] [] (payload_of (encode_put_kv_blocks_batch_req put));
     mkReq 2 op.LOOKUP_BLOCK_PREFIX [] [] (payload_of (encode_lookup_block_prefix_req look));
     mkReq 3 op.GET_KV_BLOCKS_BATCH [] [] (payload_of (encode_get_kv_blocks_batch_req get))]
  = Some [payload_of (encode_put_kv_blocks_batch_resp (mkPutKvBlocksBatchResp 7 None));
          payload_of (encode_lookup_block_prefix_resp (mkLookupBlockPrefixResp 1 None));
          payload_of (encode_get_kv_blocks_batch_resp (mkGetKvBlocksBatchResp None None))].
Proof. vm_compute. reflexivity. Qed.
