(* ===== verification/Client.v ===== *)
(** * The daemon's client ([client.rs])

    Models [crates/wombatkv-daemon/src/client.rs]: the client over the
    shared-memory rings, its worker thread with one handler per command, the
    timeout that makes a client dead, large payloads cut into chunks under a
    manifest, and payloads read in place from the arena.

    The rings are the transport library's: publishing may fail, a response takes
    some time or never comes.  What the client reads of the arena is the mapping
    at the time it reads.  [None] is a panic of the calling thread. *)

From S2P Require Import Prelude Order Text Strings Hex Wire Arena Rpc Daemon.

Definition semicolon : byte := x3b.
Definition colon : byte := x3a.
Definition ARENA_MESSAGE_PREFIX : str := lit "arena:".
(** Times are in milliseconds. *)
Definition DEFAULT_CALL_TIMEOUT : Z := 30 * 1000.
Definition DEFAULT_RING_DEPTH : Z := 16.

Inductive RemoteHitTier := RemoteFoyer | RemoteObjectStore.
(** [Bytes]: owned, or a view of the arena ([ArenaOwnedBytes]). *)
Inductive RemoteBytes := Owned (b : bytes) | ArenaOwnedBytes (reader : ArenaReader) (offset n : Z).
Inductive RemoteGetOutcome := RemoteHit (tier : RemoteHitTier) (payload : RemoteBytes) | RemoteMiss.
Inductive RemoteError :=
| Connect (m : str) | WorkerGone | Transport (m : str) | DaemonStatus (st : Z) (message : str)
| Timeout (d : Z) | BackendUnavailable.
(** [Display]; [duration_debug] is the standard library's [{:?}] of a duration. *)
Definition remote_error_display (duration_debug : Z -> str) (e : RemoteError) : str :=
  match e with
  | Connect m => lit "remote connect: " ++ m
  | WorkerGone => lit "remote worker thread gone"
  | Transport m => lit "remote transport: " ++ m
  | DaemonStatus st message => lit "daemon status " ++ dec st ++ lit ": " ++ message
  | Timeout d => lit "remote call timed out after " ++ duration_debug d
  | BackendUnavailable => lit "remote backend unavailable (client in dead state)"
  end.
Record ClientOptions := mkOptions { op_call_timeout : Z; op_depth : Z }.
Definition default_options : ClientOptions := mkOptions DEFAULT_CALL_TIMEOUT DEFAULT_RING_DEPTH.

(** ** Reading responses *)
Definition parse_tier (message : str) : RemoteHitTier :=
  if existsb (fun part => bool_decide (part = lit "tier:1")) (split_on semicolon message)
  then RemoteFoyer else RemoteObjectStore.
Fixpoint find_map {A B} (f : A -> option B) (l : list A) : option B :=
  match l with [] => None | x :: l => match f x with Some y => Some y | None => find_map f l end end.
Definition parse_arena_ref (message : str) : option (Z * Z) :=
  encoded ← find_map (strip_prefix ARENA_MESSAGE_PREFIX) (split_on semicolon message);
  match split_on colon encoded with
  | [o; l] => offset ← parse_u64 o; n ← parse_u32 l; Some (offset, n)
  | _ => None
  end.

(** ** The rings *)

(** [publish] and [recv_owned] of the transport library, and the arena file as
    it is mapped.  [None] is a receive that never returns; otherwise the time it
    took comes with the outcome. *)
Class Ring (R : Type) := {
  ring_publish (req : WireRequest) (r : R) : R * result unit str;
  ring_recv (r : R) : R * option (Z * result WireResponse str);
  ring_arena (r : R) : bytes
}.

Section Client.
Context {R : Type} `{!Ring R} `{!Texts} (blake3 : bytes -> bytes).
Context `{!RkyvCodec LookupBlockPrefixReq, !RkyvCodec LookupBlockPrefixResp, !RkyvCodec GetKvBlocksBatchReq,
          !RkyvCodec GetKvBlocksBatchResp, !RkyvCodec PutKvBlocksBatchReq, !RkyvCodec PutKvBlocksBatchResp}.

(** [RemoteKvStoreClient] with the locals of its worker thread. *)
Record Client := mkClient {
  cl_ring : R; cl_next_id : Z; cl_arena : option ArenaReader;
  cl_worker : bool; cl_dead : bool; cl_call_timeout : Z
}.
Definition set_ring (r : R) (next_id : Z) (c : Client) : Client :=
  mkClient r next_id (cl_arena c) (cl_worker c) (cl_dead c) (cl_call_timeout c).
Definition mark_dead (c : Client) : Client :=
  mkClient (cl_ring c) (cl_next_id c) (cl_arena c) (cl_worker c) true (cl_call_timeout c).
Definition lose_worker (c : Client) : Client :=
  mkClient (cl_ring c) (cl_next_id c) (cl_arena c) false (cl_dead c) (cl_call_timeout c).

(** [AsRef for ArenaOwnedBytes]: what the bytes are now. *)
Definition as_ref (c : Client) (b : RemoteBytes) : option bytes :=
  match b with
  | Owned b => Some b
  | ArenaOwnedBytes reader offset n =>
      match read_payload (ring_arena (cl_ring c)) offset n reader with
      | Some (Ok b) => Some b
      | _ => None
      end
  end.

Definition take_id (next : Z) : Z * Z := (next, wrap64 (next + 1)).

(** ** The worker

    What a command yields: nothing ever, or after some time a reply, or after
    some time a panic of the worker ([None]). *)
Definition Reply (A : Type) : Type := option (Z * option (result A RemoteError)).

Definition round_trip (req : WireRequest) (r : R) : R * option (Z * result WireResponse RemoteError) :=
  let (r, published) := ring_publish req r in
  match published with
  | Err err => (r, Some (0, Err (Transport (lit "publish: " ++ err))))
  | Ok _ =>
      let (r, got) := ring_recv r in
      (r, match got with
          | None => None
          | Some (t, Err err) => Some (t, Err (Transport (lit "recv: " ++ err)))
          | Some (t, Ok resp) =>
              Some (t, if decide (rs_id resp <> rq_id req)
                       then Err (Transport (lit "response id mismatch: req=" ++ dec (rq_id req) ++ lit " resp=" ++ dec (rs_id resp)))
                       else Ok resp)
          end)
  end.
(** A command: a fresh id, a request, one round trip, and a look at the response. *)
Definition command {A} (request : Z -> WireRequest) (read : Client -> WireResponse -> option (result A RemoteError))
    (c : Client) : Client * Reply A :=
  let (id, next) := take_id (cl_next_id c) in
  let (r, got) := round_trip (request id) (cl_ring c) in
  let c := set_ring r next c in
  (c, match got with
      | None => None
      | Some (t, Err e) => Some (t, Some (Err e))
      | Some (t, Ok resp) => Some (t, read c resp)
      end).
(** A command whose request cannot be encoded uses up its id. *)
Definition command_encoded {A} (encoded : result bytes WireCodecError) (request : bytes -> Z -> WireRequest)
    (read : Client -> WireResponse -> option (result A RemoteError)) (c : Client) : Client * Reply A :=
  match encoded with
  | Ok payload => command (request payload) read c
  | Err err =>
      (set_ring (cl_ring c) (snd (take_id (cl_next_id c))) c, Some (0, Some (Err (Transport (wire_error_display err)))))
  end.

Definition bad_status {A} (resp : WireResponse) : result A RemoteError := Err (DaemonStatus (rs_status resp) (rs_message resp)).
Definition when_ok {A} (f : Client -> WireResponse -> option (result A RemoteError)) (c : Client) (resp : WireResponse)
  : option (result A RemoteError) :=
  if decide (rs_status resp = status.OK) then f c resp else Some (bad_status resp).
(** The payload of a response: in the arena, or inline. *)
Definition response_bytes (c : Client) (resp : WireResponse) : option (result RemoteBytes RemoteError) :=
  match parse_arena_ref (rs_message resp) with
  | None => Some (Ok (Owned (rs_payload resp)))
  | Some (offset, n) =>
      match cl_arena c with
      | None => Some (Err (Transport (lit "daemon returned arena ref but " ++ ARENA_PATH_ENV ++ lit " is unset")))
      | Some reader =>
          match read_payload (ring_arena (cl_ring c)) offset n reader with
          | None => None
          | Some (Err e) =>
              Some (Err (Transport (lit "arena read offset=" ++ dec offset ++ lit " len=" ++ dec n ++ lit ": " ++ arena_error_display e)))
          | Some (Ok _) => Some (Ok (ArenaOwnedBytes reader offset n))
          end
      end
  end.

Definition worker_put (ns key : str) (payload : bytes) : Client -> Client * Reply unit :=
  command (fun id => mkReq id op.PUT ns key payload) (when_ok (fun _ _ => Some (Ok tt))).
Definition worker_get (ns key : str) : Client -> Client * Reply RemoteGetOutcome :=
  command (fun id => mkReq id op.GET ns key [])
    (fun c resp =>
       if decide (rs_status resp = status.MISS) then Some (Ok RemoteMiss) else
       when_ok (fun c resp => r ← response_bytes c resp;
                              Some (let? payload := r in Ok (RemoteHit (parse_tier (rs_message resp)) payload))) c resp).
Definition worker_get_many (ns : str) (keys : list str) : Client -> Client * Reply (option RemoteBytes) :=
  command (fun id => mkReq id op.GET_MANY ns [] (encode_key_batch keys))
    (fun c resp =>
       if decide (rs_status resp = status.MISS) then Some (Ok None) else
       when_ok (fun c resp =>
         r ← response_bytes c resp;
         match r with
         | Err e => Some (Err e)
         | Ok batch =>
             b ← as_ref c batch;
             Some (let? _ := map_err (fun err => Transport (lit "decode get_many batch: " ++ wire_error_display err)) (decode_bytes_batch b) in
                   Ok (Some batch))
         end) c resp).
Definition worker_exists (ns key : str) : Client -> Client * Reply bool :=
  command (fun id => mkReq id op.EXISTS ns key [])
    (fun c resp => if decide (rs_status resp = status.MISS) then Some (Ok false)
                   else when_ok (fun _ _ => Some (Ok true)) c resp).
Definition worker_list (ns : str) : Client -> Client * Reply RemoteBytes :=
  command (fun id => mkReq id op.LIST ns [] []) (when_ok (fun _ resp => Some (Ok (Owned (rs_payload resp))))).
(** The text of a failed [parse::<usize>] is the standard library's. *)
Definition worker_restore (parse_error : str -> str) (ns : str) : Client -> Client * Reply Z :=
  command (fun id => mkReq id op.RESTORE ns [] [])
    (when_ok (fun _ resp =>
       Some (ok_or (parse_u64 (rs_message resp))
               (Transport (lit "restore count parse: " ++ parse_error (rs_message resp) ++ lit " (msg="
                           ++ str_debug (rs_message resp) ++ lit ")"))))).
Definition worker_clear : Client -> Client * Reply unit :=
  command (fun id => mkReq id op.CLEAR [] [] []) (when_ok (fun _ _ => Some (Ok tt))).
Definition worker_ping : Client -> Client * Reply unit :=
  command (fun id => mkReq id op.PING [] [] []) (when_ok (fun _ _ => Some (Ok tt))).
Definition worker_stats : Client -> Client * Reply str :=
  command (fun id => mkReq id op.STATS [] [] []) (when_ok (fun _ resp => Some (Ok (rs_message resp)))).
(** A block response carries an error of its own. *)
Definition block_response {T A} (what : str) (decoded : result T WireCodecError) (error : T -> option str) (value : T -> A)
  : result A RemoteError :=
  let? d := map_err (fun err => Transport (lit "decode " ++ what ++ lit " resp: " ++ wire_error_display err)) decoded in
  match error d with
  | Some err => Err (DaemonStatus status.ERROR err)
  | None => Ok (value d)
  end.
Definition worker_lookup_block_prefix (ns : str) (hashes : list str) : Client -> Client * Reply Z :=
  command_encoded (encode_lookup_block_prefix_req (mkLookupBlockPrefixReq ns hashes))
    (fun payload id => mkReq id op.LOOKUP_BLOCK_PREFIX ns [] payload)
    (when_ok (fun _ resp =>
       Some (block_response (lit "lookup_block_prefix") (decode_lookup_block_prefix_resp (rs_payload resp)) lbp_error matched_count))).
Definition worker_get_kv_blocks_batch (ns : str) (hashes : list str) : Client -> Client * Reply (option (list bytes)) :=
  command_encoded (encode_get_kv_blocks_batch_req (mkGetKvBlocksBatchReq ns hashes))
    (fun payload id => mkReq id op.GET_KV_BLOCKS_BATCH ns [] payload)
    (when_ok (fun _ resp =>
       Some (block_response (lit "get_kv_blocks_batch") (decode_get_kv_blocks_batch_resp (rs_payload resp)) gbb_error gbb_payloads))).
Definition worker_put_kv_blocks_batch (ns : str) (hashes : list str) (payloads : list bytes) : Client -> Client * Reply Z :=
  command_encoded (encode_put_kv_blocks_batch_req (mkPutKvBlocksBatchReq ns hashes payloads))
    (fun payload id => mkReq id op.PUT_KV_BLOCKS_BATCH ns [] payload)
    (when_ok (fun _ resp =>
       Some (block_response (lit "put_kv_blocks_batch") (decode_put_kv_blocks_batch_resp (rs_payload resp)) pbb_error total_bytes))).

(** ** Calls

    [None] is a panic of the caller. *)
Definition Call (A : Type) : Type := Client -> option (Client * result A RemoteError).
Definition call_ret {A} (r : result A RemoteError) : Call A := fun c => Some (c, r).
(** [?] on the result of a call. *)
Definition call_bind {A B} (m : Call A) (f : A -> Call B) : Call B :=
  fun c => '(c, r) ← m c; match r with Ok a => f a c | Err e => Some (c, Err e) end.

Definition is_dead (c : Client) : bool := cl_dead c.
Definition check_alive (c : Client) : result unit RemoteError := if is_dead c then Err BackendUnavailable else Ok tt.
(** [dispatch] under a deadline: a worker that is gone drops the reply channel. *)
Definition client_dispatch {A} (timeout : Z) (handler : Client -> Client * Reply A) (c : Client) : Client * result A RemoteError :=
  match check_alive c with
  | Err e => (c, Err e)
  | Ok _ =>
      if negb (cl_worker c) then (c, Err WorkerGone) else
      let (c, reply) := handler c in
      match reply with
      | None => (mark_dead c, Err (Timeout timeout))
      | Some (t, r) =>
          let c := match r with Some _ => c | None => lose_worker c end in
          if decide (timeout < t) then (mark_dead c, Err (Timeout timeout))
          else (c, match r with Some r => r | None => Err WorkerGone end)
      end
  end.
Definition call {A} (handler : Client -> Client * Reply A) : Call A :=
  fun c => Some (client_dispatch (cl_call_timeout c) handler c).
Definition ping_with_timeout (timeout : Z) : Call unit := fun c => Some (client_dispatch timeout worker_ping c).

(** *** Single blobs *)
Definition large_payload_id (ns key : str) (payload : bytes) : str :=
  hex_lower (blake3 (lit "wombatkv-shm-large-v1" ++ [x00] ++ ns ++ [x00] ++ key ++ [x00] ++ le_bytes 8 (len payload) ++ payload)).
(** [slice::chunks]; [fuel] of the length is enough. *)
Fixpoint chunks_fuel (fuel : nat) (size : Z) (b : bytes) : list bytes :=
  match fuel, b with
  | S fuel, _ :: _ => take (Z.to_nat size) b :: chunks_fuel fuel size (drop (Z.to_nat size) b)
  | _, _ => []
  end.
Definition chunks (size : Z) (b : bytes) : list bytes := chunks_fuel (length b) size b.
Definition div_ceil (a b : Z) : Z := if decide (a mod b = 0) then a / b else a / b + 1.

Definition put_small_kv (ns key : str) (payload : bytes) : Call unit := call (worker_put ns key payload).
Fixpoint put_chunks (ns id : str) (idx : Z) (cs : list bytes) : Call unit :=
  match cs with
  | [] => call_ret (Ok tt)
  | chunk :: rest => call_bind (put_small_kv ns (large_chunk_key id idx) chunk) (fun _ => put_chunks ns id (idx + 1) rest)
  end.
Definition put_large_kv (ns key : str) (payload : bytes) : Call unit :=
  let id := large_payload_id ns key payload in
  let chunk_count := div_ceil (len payload) LARGE_CHUNK_BYTES in
  call_bind (put_chunks ns id 0 (chunks LARGE_CHUNK_BYTES payload))
    (fun _ => put_small_kv ns key (large_manifest id (len payload) chunk_count)).
Definition remote_put_kv (ns key : str) (payload : bytes) : Call unit :=
  if negb (fits_one_frame (len payload)) then put_large_kv ns key payload else put_small_kv ns key payload.

Definition get_small_kv (ns key : str) : Call RemoteGetOutcome := call (worker_get ns key).
Fixpoint get_chunks (ns id : str) (n : nat) (idx : Z) (out : bytes) : Call bytes :=
  match n with
  | O => call_ret (Ok out)
  | S n' =>
      call_bind (get_small_kv ns (large_chunk_key id idx))
        (fun outcome c =>
           match outcome with
           | RemoteHit _ payload => b ← as_ref c payload; get_chunks ns id n' (idx + 1) (out ++ b) c
           | RemoteMiss =>
               Some (c, Err (DaemonStatus status.MISS (lit "missing large-payload chunk " ++ dec idx ++ lit " for " ++ id)))
           end)
  end.
(** [Vec::with_capacity] panics on more than [isize::MAX] bytes. *)
Definition get_large_kv (ns : str) (tier : RemoteHitTier) (m : LargeManifest) : Call RemoteGetOutcome :=
  fun c =>
  if decide (isize_max < total_len m) then None else
  call_bind (get_chunks ns (lm_id m) (Z.to_nat (chunk_count m)) 0 [])
    (fun out c =>
       Some (c, if decide (len out <> total_len m)
                then Err (Transport (lit "large-payload length mismatch: expected " ++ dec (total_len m) ++ lit " got " ++ dec (len out)))
                else Ok (RemoteHit tier (Owned out)))) c.
Definition remote_get_kv (ns key : str) : Call RemoteGetOutcome :=
  call_bind (get_small_kv ns key)
    (fun outcome c =>
       match outcome with
       | RemoteHit tier payload =>
           b ← as_ref c payload;
           match parse_large_manifest b with
           | Some m => get_large_kv ns tier m c
           | None => Some (c, Ok (RemoteHit tier payload))
           end
       | RemoteMiss => Some (c, Ok RemoteMiss)
       end).

(** *** Batches and the other calls *)
(** The serial loop; the payloads are read when the batch is encoded. *)
Fixpoint get_serial (ns : str) (keys : list str) (items : list RemoteBytes) : Call (option RemoteBytes) :=
  match keys with
  | [] => fun c => bs ← mapM (as_ref c) items; Some (c, Ok (Some (Owned (encode_bytes_batch bs))))
  | key :: rest =>
      call_bind (remote_get_kv ns key)
        (fun outcome => match outcome with
                        | RemoteHit _ payload => get_serial ns rest (items ++ [payload])
                        | RemoteMiss => call_ret (Ok None)
                        end)
  end.
Definition get_many_kv_batch (ns : str) (keys : list str) : Call (option RemoteBytes) :=
  fun c => '(c, r) ← call (worker_get_many ns keys) c;
  match r with
  | Err (DaemonStatus st _) => if decide (st = status.TOO_LARGE) then get_serial ns keys [] c else Some (c, r)
  | other => Some (c, other)
  end.
Definition remote_exists (ns key : str) : Call bool := call (worker_exists ns key).
Definition list_keys_batch (ns : str) : Call RemoteBytes := call (worker_list ns).
Definition remote_restore_from_s3 (parse_error : str -> str) (ns : str) : Call Z := call (worker_restore parse_error ns).
Definition remote_clear_foyer : Call unit := call worker_clear.
Definition ping : Call unit := call worker_ping.
Definition stats : Call str := call worker_stats.
Definition lookup_block_prefix (ns : str) (hashes : list str) : Call Z := call (worker_lookup_block_prefix ns hashes).
Definition get_kv_blocks_batch (ns : str) (hashes : list str) : Call (option (list bytes)) :=
  call (worker_get_kv_blocks_batch ns hashes).
Definition put_kv_blocks_batch (ns : str) (hashes : list str) (payloads : list bytes) : Call Z :=
  if decide (length hashes <> length payloads)
  then call_ret (Err (Transport (lit "put_kv_blocks_batch length mismatch: " ++ dec (len hashes) ++ lit " hashes vs "
                                 ++ dec (len payloads) ++ lit " payloads")))
  else call (worker_put_kv_blocks_batch ns hashes payloads).

(** ** Connecting and closing *)

(** [wait_open_client]: attempts with the clock after each failure; [None] is
    still waiting. *)
Fixpoint wait_open {A} (deadline : Z) (attempts : list (result A str * Z)) : option (result A str) :=
  match attempts with
  | [] => None
  | (Ok rings, _) :: _ => Some (Ok rings)
  | (Err err, now) :: rest => if decide (deadline <= now) then Some (Err err) else wait_open deadline rest
  end.
Definition arena_reader_from_env (env : str -> option str) (opened : str -> result ArenaReader ArenaError)
  : result (option ArenaReader) RemoteError :=
  match env ARENA_PATH_ENV with
  | None => Ok None
  | Some path =>
      if decide (path = []) then Ok None else
      match opened path with
      | Ok reader => Ok (Some reader)
      | Err e => Err (Connect (lit "open " ++ ARENA_PATH_ENV ++ lit ": " ++ arena_error_display e))
      end
  end.
(** What the worker meets while it attaches, in its order: the heartbeat, the
    rings, the arena, the daemon's consumer.  The heartbeat and the rings are
    taken as outcomes; a worker that gets no further reports the first error. *)
Definition connect_with_options (opts : ClientOptions) (env : str -> option str) (prefix : str)
    (spawned : result unit str) (heartbeat : result unit str) (attempts : list (result R str * Z)) (now : Z)
    (opened : str -> result ArenaReader ArenaError) (discovered : bool) : option (result Client RemoteError) :=
  match validate_segment_name_budget prefix with
  | Err e => Some (Err (Connect (wire_error_display e)))
  | Ok _ =>
      match spawned with
      | Err err => Some (Err (Connect (lit "spawn worker: " ++ err)))
      | Ok _ =>
          match heartbeat with
          | Err err => Some (Err (Connect err))
          | Ok _ =>
              rings ← wait_open (now + effective_attach_timeout env * 1000) attempts;
              Some match rings with
                   | Err err => Err (Connect err)
                   | Ok ring =>
                       let? arena := arena_reader_from_env env opened in
                       if negb discovered then Err (Connect (lit "client could not discover daemon consumer"))
                       else Ok (mkClient ring 0 arena true false (op_call_timeout opts))
                   end
          end
      end
  end.
(** [Drop]: the worker says goodbye to the daemon; it is joined unless the client
    is dead: then it is left behind, and its goodbye, if it ever gets to it, is
    not shown here.  The result says whether the drop waits for the worker. *)
Definition client_drop (c : Client) : Client * bool :=
  let c' := if cl_worker c && negb (is_dead c)
            then fst (command (A := unit) (fun id => mkReq id op.CLOSE [] [] []) (fun _ _ => Some (Ok tt)) c) else c in
  (lose_worker c', negb (is_dead c)).
End Client.
Arguments Client : clear implicits.

(** ** What responses say *)
Lemma tier_part_no c t : is_ascii_digit c = false -> c ∉ lit "tier:" -> c ∉ lit "tier:" ++ dec t.
Proof. intros Hd Hc. rewrite elem_of_app. intros [?|?]; [done|]. by apply (dec_no c t). Qed.
Lemma tier_part_no_arena t : strip_prefix ARENA_MESSAGE_PREFIX (lit "tier:" ++ dec t) = None.
Proof. reflexivity. Qed.

Lemma parse_arena_ref_inline t : parse_arena_ref (lit "tier:" ++ dec t) = None.
Proof.
  unfold parse_arena_ref. rewrite split_on_absent by (apply tier_part_no; [done|by_eval]).
  cbn [find_map]. by rewrite tier_part_no_arena.
Qed.

Lemma parse_arena_ref_slab id o s :
  in_u64 (slab_offset s) -> in_u32 (slab_len s) ->
  parse_arena_ref (rs_message (arena_response id o s)) = Some (slab_offset s, slab_len s).
Proof.
  intros Ho Hl. unfold parse_arena_ref, arena_response. cbn [rs_message].
  set (tail := dec (slab_offset s) ++ lit ":" ++ dec (slab_len s)).
  assert (lit "tier:" ++ dec (slab_tier s) ++ lit ";arena:" ++ tail
          = (lit "tier:" ++ dec (slab_tier s)) ++ semicolon :: ARENA_MESSAGE_PREFIX ++ tail) as E by (by rewrite <- app_assoc).
  rewrite E, split_on_cons by (apply tier_part_no; [done|by_eval]).
  rewrite split_on_absent.
  - cbn [find_map]. rewrite tier_part_no_arena, strip_prefix_app. cbn [mbind option_bind]. unfold tail.
    change (lit ":" ++ dec (slab_len s)) with (colon :: dec (slab_len s)).
    rewrite split_on_cons by (by apply dec_no). rewrite split_on_absent by (by apply dec_no).
    rewrite parse_dec by done. cbn [mbind option_bind]. unfold parse_u32. rewrite parse_bounded_dec; [done|apply Hl|lia].
  - unfold tail. rewrite !elem_of_app. intros [H|[H|[H|H]]].
    + revert H. by_eval.
    + by apply (dec_no semicolon (slab_offset s)) in H.
    + revert H. by_eval.
    + by apply (dec_no semicolon (slab_len s)) in H.
Qed.

(** ** Chunks *)
Lemma chunks_fuel_concat fuel size b :
  0 < size -> (length b <= fuel)%nat -> concat (chunks_fuel fuel size b) = b.
Proof.
  intros Hs. revert b. induction fuel as [|n IH]; intros b Hb; cbn [chunks_fuel].
  { by destruct b; cbn in Hb; [|lia]. }
  destruct b as [|x b']; [done|]. cbn [concat]. rewrite IH; [apply take_drop|]. rewrite length_drop. cbn [length] in *. lia.
Qed.
Lemma chunks_concat size b : 0 < size -> concat (chunks size b) = b.
Proof. intros Hs. by apply chunks_fuel_concat. Qed.

Lemma chunks_fuel_count fuel size b :
  0 < size -> (length b <= fuel)%nat -> len (chunks_fuel fuel size b) = div_ceil (len b) size.
Proof.
  intros Hs. revert b. induction fuel as [|n IH]; intros b Hb; cbn [chunks_fuel].
  { destruct b; cbn in Hb; [|lia]. unfold div_ceil. change (len (@nil byte)) with 0. by rewrite Z.mod_0_l, Z.div_0_l by lia. }
  destruct b as [|x b']. { unfold div_ceil. change (len (@nil byte)) with 0. by rewrite Z.mod_0_l, Z.div_0_l by lia. }
  set (b := x :: b') in *. rewrite len_cons, IH by (rewrite length_drop; cbn [length] in *; lia).
  assert (0 < len b) as Hp by (unfold b; rewrite len_cons; pose proof (len_nonneg b'); lia).
  assert (len (drop (Z.to_nat size) b) = Z.max 0 (len b - size)) as -> by (unfold len; rewrite length_drop; lia).
  unfold div_ceil.
  destruct (Z_lt_le_dec (len b) size) as [Hlt|Hge].
  - rewrite Z.max_l by lia.
    rewrite Z.mod_0_l, Z.div_0_l, decide_True by lia. rewrite (Z.mod_small (len b)), (Z.div_small (len b)) by lia.
    rewrite decide_False by lia. done.
  - rewrite Z.max_r by lia. generalize (len b). intros n0. assert (n0 mod size = (n0 - size) mod size /\ n0 / size = (n0 - size) / size + 1) as [-> ->].
    { replace n0 with ((n0 - size) + 1 * size) at 1 3 by lia. rewrite Z.mod_add, Z.div_add by lia. lia. }
    case_decide; lia.
Qed.
Lemma chunks_count size b : 0 < size -> len (chunks size b) = div_ceil (len b) size.
Proof. intros Hs. by apply chunks_fuel_count. Qed.
Lemma chunks_fuel_small fuel size b : 0 <= size -> Forall (fun c => len c <= size) (chunks_fuel fuel size b).
Proof.
  intros Hs. revert b. induction fuel as [|n IH]; intros b; cbn [chunks_fuel]; [constructor|]. destruct b as [|x b']; constructor; [|done].
  unfold len. rewrite length_take. lia.
Qed.

(** An identifier in hexadecimal is plain. *)
Lemma hex_pair_plain c : forallb (between 32 127) (hex_pair c) = true.
Proof. by destruct c. Qed.
Lemma hex_plain b : plain_id (hex_lower b).
Proof.
  induction b as [|c b IH]; [constructor|]. cbn [hex_lower]. apply Forall_app. split; [|done].
  apply List.Forall_forall. apply forallb_forall, hex_pair_plain.
Qed.
