(* ===== verification/ClientSpec.v ===== *)
(** * Client and daemon together

    The rings of [Client] with the daemon of [Daemon] at their other end, as the
    loop of [serve_prefix] serves them: a request is decoded, dispatched and its
    response published, while other requests, detached writes and evictions
    happen in between, and messages get lost or late.

    A get through the client that hits returns the payload its name stands for,
    whether it came inline, in chunks or in the arena; and a put that reported
    success is found by a later get when the rings and the object store work. *)

From S2P Require Import Prelude Order Text Strings Radix Hex BlockMeta ObjectStore Compression BlobCache Foyer Embed.
From S2P Require Import Durable Envelope Wire Arena Fanout Rpc Daemon DaemonSpec Client.

Section Link.
Context {S : Type} `{!ObjectStore S} {H : Type} `{!HybridCache H} `{!Zstd} {I : Type} `{!MetadataIndex I} `{!Texts}.
Context `{!RkyvCodec LookupBlockPrefixReq, !RkyvCodec LookupBlockPrefixResp, !RkyvCodec GetKvBlocksBatchReq,
          !RkyvCodec GetKvBlocksBatchResp, !RkyvCodec PutKvBlocksBatchReq, !RkyvCodec PutKvBlocksBatchResp,
          !RkyvCodec WireRequest, !RkyvCodec WireResponse}.
Abbreviation Dm := (Daemon S H I).

(** What else the daemon does. *)
Inductive DaemonEvent :=
| EvRequest (x : Ambient) (id : Z) (req : WireRequest) | EvPutJob (n : nat) | EvEvict (ns key : str).
Definition run_event (d : Dm) (e : DaemonEvent) : Dm :=
  match e with
  | EvRequest x id req => match dispatch x id req d with Some (d', _) => d' | None => d end
  | EvPutJob n =>
      match dm_jobs d !! n with
      | None => d
      | Some j =>
          default d (run_put_job j (mkDaemon (dm_store d) (dm_arena d) (dm_slatedb d) (async_put_inflight d)
                                      (take n (dm_jobs d) ++ drop (Datatypes.S n) (dm_jobs d))))
      end
  | EvEvict ns key => set_kv (fst (delete_kv ns key (dm_store d))) d
  end.

(** The fate of one exchange: how publishing went, what the daemon does first,
    its ambient, how long the response takes, how receiving goes. *)
Record Exchange := mkExchange {
  ex_publish : result unit str; ex_before : list DaemonEvent; ex_ambient : Ambient;
  ex_latency : option Z; ex_receive : result unit str
}.
Record Link := mkLink { lk_daemon : Dm; lk_wire : option bytes; lk_fate : nat -> Exchange; lk_time : nat }.

(** The body of the loop in [serve_prefix]: the response as published. *)
Definition serve_request (x : Ambient) (b : bytes) (d : Dm) : Dm * option bytes :=
  match decode_request b with
  | Err _ => (d, None)
  | Ok req =>
      match dispatch x (rq_id req) req d with
      | None => (d, None)
      | Some (d, resp) => (d, match encode_response resp with Ok b => Some b | Err _ => None end)
      end
  end.
Definition link_publish (req : WireRequest) (l : Link) : Link * result unit str :=
  let failed e := (mkLink (lk_daemon l) None (lk_fate l) (Datatypes.S (lk_time l)), Err e) in
  match ex_publish (lk_fate l (lk_time l)) with
  | Err e => failed e
  | Ok _ =>
      match encode_request req with
      | Err e => failed e
      | Ok b => (mkLink (lk_daemon l) (Some b) (lk_fate l) (lk_time l), Ok tt)
      end
  end.
Definition link_recv (l : Link) : Link * option (Z * result WireResponse str) :=
  match lk_wire l with
  | None => (l, None)
  | Some b =>
      let ex := lk_fate l (lk_time l) in
      let (d, out) := serve_request (ex_ambient ex) b (foldl run_event (lk_daemon l) (ex_before ex)) in
      (mkLink d None (lk_fate l) (Datatypes.S (lk_time l)),
       b' ← out; t ← ex_latency ex;
       Some (t, match ex_receive ex with Err e => Err e | Ok _ => decode_response b' end))
  end.
#[export] Instance link_ring : Ring Link := {|
  ring_publish := link_publish; ring_recv := link_recv;
  ring_arena l := match dm_arena (lk_daemon l) with Some a => mmap (ar_writer a) | None => [] end
|}.
End Link.
Arguments Link : clear implicits.

Section EndToEnd.
Context {S : Type} `{!ObjectStore S} `{!ObjectStoreLaws S} {H : Type} `{!HybridCache H} `{!HybridCacheLaws H}
  `{!Zstd} `{!ZstdLaws} {I : Type} `{!MetadataIndex I} `{!MetadataIndexLaws I} `{!Texts} (blake3 : bytes -> bytes).
Context `{!RkyvCodec LookupBlockPrefixReq, !RkyvCodec LookupBlockPrefixResp, !RkyvCodec GetKvBlocksBatchReq,
          !RkyvCodec GetKvBlocksBatchResp, !RkyvCodec PutKvBlocksBatchReq, !RkyvCodec PutKvBlocksBatchResp,
          !RkyvCodec WireRequest, !RkyvCodec WireResponse, !RkyvCodecLaws WireRequest, !RkyvCodecLaws WireResponse}.
Abbreviation KvStore := (WombatKVKvStore S H).
Abbreviation Dm := (Daemon S H I).
Abbreviation Lk := (Link S H I).
Abbreviation Cl := (Client Lk).

(** The names, as in [DaemonSpec]. *)
Context (N : str -> str -> Prop) (content : str -> option bytes) (k0 : KvStore).
Abbreviation okey := (okey k0).
Abbreviation resolved := (resolved content k0).
Context (K_files : forall x y, K N k0 x -> K N k0 y -> path_for_key x = path_for_key y -> x = y).
Context (N_nul : forall ns key, N ns key -> x00 ∉ ns).
Context (N_chunks : forall ns key v m i, N ns key -> content (okey ns key) = Some v -> parse_large_manifest v = Some m ->
  0 <= i < chunk_count m -> N ns (large_chunk_key (lm_id m) i)).
Context (N_sizes : forall ns key v m, N ns key -> content (okey ns key) = Some v -> parse_large_manifest v = Some m ->
  total_len m <= isize_max).
Context (content_len : forall x v, content x = Some v -> len v <= u64_max).
Context (N_small : forall ns key b, N ns key -> resolved ns key = Some b -> len b <= u32_max).
(** Neither a payload nor a chunk reads as a manifest. *)
Context (N_plain : forall ns key b, N ns key -> resolved ns key = Some b -> parse_large_manifest b = None).
Context (N_flat : forall ns key v m i p, N ns key -> content (okey ns key) = Some v -> parse_large_manifest v = Some m ->
  0 <= i < chunk_count m -> content (okey ns (large_chunk_key (lm_id m) i)) = Some p -> parse_large_manifest p = None).

Section Hits.
Context (G : KvStore -> Prop) (found : str -> str -> Prop) (asize : Z).
Context (G_kept : forall k k', kv_call N content k0 k k' -> G k -> G k').
Context (G_found : forall ns key k, store_ok N content k0 G k -> N ns key -> found ns key ->
  exists k' t v, get_kv ns key k = (k', Ok (Hit t v))).
Abbreviation dm_inv := (DaemonSpec.inv (I := I) N content k0 G asize).
Abbreviation req_ok := (request_ok N content k0).

(** What the daemon does in between respects the names. *)
Definition event_ok (e : DaemonEvent) : Prop :=
  match e with
  | EvRequest x id req => req_ok req /\ clock_ok x
  | EvPutJob _ => True
  | EvEvict ns key => forall k, G k -> G (fst (delete_kv ns key k))
  end.
Definition fate_ok (ex : Exchange) : Prop := Forall event_ok (ex_before ex) /\ clock_ok (ex_ambient ex).
Definition link_ok (l : Lk) : Prop := dm_inv (lk_daemon l) /\ forall n, fate_ok (lk_fate l n).

Lemma run_event_step d e : dm_inv d -> event_ok e -> rtc (daemon_step N content k0 G) d (run_event d e).
Proof.
  intros Hd. destruct e as [x id req|n|ns key]; cbn [event_ok run_event].
  - intros [Hr Hc]. destruct (dispatch x id req d) as [[d' resp]|] eqn:E; [|done].
    apply rtc_once. by eapply step_request.
  - intros _. destruct (dm_jobs d !! n) as [j|] eqn:Ej; [|done].
    destruct (run_put_job j _) as [d'|] eqn:E; [|done]. apply rtc_once. eapply step_put_job; [|exact E].
    symmetry. by apply take_drop_middle.
  - intros Hg. apply rtc_once, step_evict, Hg, Hd.
Qed.
Lemma run_events_inv es d : dm_inv d -> Forall event_ok es -> dm_inv (foldl run_event d es).
Proof.
  intros Hd Hes. revert d Hd. induction Hes as [|e es He _ IH]; intros d Hd; cbn [foldl]; [done|]. apply IH.
  eapply daemon_steps_inv; [done..|]. by apply run_event_step.
Qed.

Lemma run_event_found d e : dm_inv d -> event_ok e -> dm_inv (run_event d e).
Proof. intros Hd He. eapply daemon_steps_inv; [done..|]. by apply run_event_step. Qed.

(** *** One exchange *)
(** A response answers its request. *)
Definition answers (req : WireRequest) (l' : Lk) (resp : WireResponse) : Prop :=
  exists n d, let x := ex_ambient (lk_fate l' n) in
    dm_inv d /\ dispatch x (rq_id req) req d = Some (lk_daemon l', resp) /\ rs_id resp = rq_id req /\
    answer_ok content k0 found x (rq_id req) req d (lk_daemon l') resp.

Lemma serve_request_ok req b (ex : Exchange) (d : Dm) :
  encode_request req = Ok b -> req_ok req -> fate_ok ex -> dm_inv d ->
  exists d1 d' resp, serve_request (ex_ambient ex) b (foldl run_event d (ex_before ex))
      = (d', match encode_response resp with Ok b => Some b | Err _ => None end) /\
    dm_inv d' /\ dm_inv d1 /\ dispatch (ex_ambient ex) (rq_id req) req d1 = Some (d', resp) /\ rs_id resp = rq_id req /\
    answer_ok content k0 found (ex_ambient ex) (rq_id req) req d1 d' resp.
Proof.
  intros Eb Hr [Hbefore Hclock] Hd. pose proof (run_events_inv (ex_before ex) d Hd Hbefore) as Hd1.
  unfold serve_request. rewrite (encoded_request _ _ Eb).
  destruct (dispatch_ok (I := I) N content k0) with (G := G) (found := found) (asize := asize) (x := ex_ambient ex)
    (id := rq_id req) (req := req) (d := foldl run_event d (ex_before ex))
    as (d' & resp & Ed & Hd' & Hid & Hop & Ha); [done..|].
  rewrite Ed. by exists (foldl run_event d (ex_before ex)), d', resp.
Qed.

Lemma round_trip_ok req (l l' : Lk) out :
  req_ok req -> link_ok l -> round_trip req l = (l', out) ->
  link_ok l' /\ lk_fate l' = lk_fate l /\ forall t resp, out = Some (t, Ok resp) -> answers req l' resp.
Proof.
  intros Hr [Hd Hf] E. unfold round_trip in E. cbn [ring_publish link_ring] in E. unfold link_publish in E.
  destruct (ex_publish _) as [[]|e];
    [|apply pair_inj in E as [<- <-]; split; [done|]; split; [done|]; by intros t resp [_ ?%Err_Ok]%Some_pair_inj].
  destruct (encode_request req) as [b|e] eqn:Eb;
    [|apply pair_inj in E as [<- <-]; split; [done|]; split; [done|]; by intros t resp [_ ?%Err_Ok]%Some_pair_inj].
  cbn [ring_recv link_ring] in E. unfold link_recv in E. cbn [lk_wire lk_daemon lk_fate lk_time] in E.
  set (ex := lk_fate l (lk_time l)) in *.
  destruct (serve_request_ok req b ex (lk_daemon l) Eb Hr (Hf _) Hd) as (d1 & d' & resp & Es & Hd' & Hd1 & Ed & Hid & Ha).
  rewrite Es in E. apply pair_inj in E as [<- <-]. cbn [lk_daemon lk_fate]. split; [done|]. split; [done|].
  intros t resp0. destruct (encode_response resp) as [b'|e] eqn:Er; cbn [mbind option_bind]; [|done].
  destruct (ex_latency ex) as [t0|]; cbn [mbind option_bind]; [|done].
  destruct (ex_receive ex) as [[]|e]; [|by intros [_ ?%Err_Ok]%Some_pair_inj].
  rewrite (encoded_response _ _ Er). case_decide; [by intros [_ ?%Err_Ok]%Some_pair_inj|].
  intros [_ <-%Ok_inj]%Some_pair_inj. by exists (lk_time l), d1.
Qed.

(** *** Commands *)
Definition client_ok (c : Cl) : Prop :=
  link_ok (cl_ring c) /\ forall rd, cl_arena c = Some rd -> reader_size rd = asize.
(** What a call leaves as it is. *)
Definition same_client (c c' : Cl) : Prop :=
  lk_fate (cl_ring c') = lk_fate (cl_ring c) /\ cl_arena c' = cl_arena c /\ cl_call_timeout c' = cl_call_timeout c.

Lemma command_ok {A} request (read : Cl -> WireResponse -> option (result A RemoteError)) (c c' : Cl) reply :
  (forall id, req_ok (request id)) -> client_ok c -> command request read c = (c', reply) ->
  client_ok c' /\ same_client c c' /\ cl_worker c' = cl_worker c /\ cl_dead c' = cl_dead c /\
  forall t r, reply = Some (t, r) ->
    (exists e, r = Some (Err e)) \/
    exists id resp, answers (request id) (cl_ring c') resp /\ read c' resp = r.
Proof.
  intros Hr [Hl Ha]. unfold command, take_id. destruct (round_trip _ _) as [l out] eqn:E.
  destruct (round_trip_ok _ _ _ _ (Hr _) Hl E) as (Hl' & Hf & Hout). intros [<- <-]%pair_inj.
  split; [by split|]. split; [by split|]. split; [done|]. split; [done|]. intros t r.
  destruct out as [[t0 [resp|e]]|]; [|intros [_ <-]%Some_pair_inj; left; by eexists|done].
  intros [_ <-]%Some_pair_inj. right. exists (cl_next_id c), resp. split; [by eapply Hout|done].
Qed.

Lemma dispatch_client_ok {A} timeout (handler : Cl -> Cl * Reply A) (c c' : Cl) r (P : Cl -> A -> Prop) :
  (forall c1 reply, handler c = (c1, reply) ->
     client_ok c1 /\ same_client c c1 /\ forall t a, reply = Some (t, Some (Ok a)) -> P c1 a) ->
  client_ok c -> client_dispatch timeout handler c = (c', r) ->
  client_ok c' /\ same_client c c' /\ forall a, r = Ok a -> P c' a.
Proof.
  intros Hh Hc. assert (forall e : RemoteError, client_ok c /\ same_client c c /\ forall a, Err e = Ok a -> P c a) as Herr
    by (intros e; split; [done|]; split; [done|]; by intros a ?%Err_Ok).
  unfold client_dispatch. destruct (check_alive c) as [[]|e0]; [|by intros [<- <-]%pair_inj].
  destruct (negb _); [by intros [<- <-]%pair_inj|]. destruct (handler c) as [c1 reply].
  destruct (Hh c1 reply eq_refl) as (Hc1 & Hs1 & Hp). clear Herr.
  assert (forall (e : RemoteError) c2, cl_ring c2 = cl_ring c1 -> cl_arena c2 = cl_arena c1 -> cl_call_timeout c2 = cl_call_timeout c1 ->
            client_ok c2 /\ same_client c c2 /\ forall a, Err e = Ok a -> P c2 a) as Herr.
  { intros e c2 E1 E2 E3. unfold client_ok, same_client in *. rewrite E1, E2, E3. split; [done|]. split; [done|].
    by intros a ?%Err_Ok. }
  destruct reply as [[t [r0|]]|]; cbv zeta; [| |by intros [<- <-]%pair_inj; apply Herr].
  - case_decide; intros [<- <-]%pair_inj; [by apply Herr|]. split; [done|]. split; [done|].
    intros a ->. by eapply Hp.
  - case_decide; intros [<- <-]%pair_inj; by apply Herr.
Qed.

(** *** Gets *)
Lemma slab_read a s b rd :
  arena_ok N content k0 asize a -> slab_holds s b (ar_writer a) -> reader_size rd = asize ->
  read_payload (mmap (ar_writer a)) (slab_offset s) (slab_len s) rd = Some (Ok b).
Proof.
  intros (Hw & Hz & _) (Hl & Ho & Hn & Hb) Hr. destruct rd as [n]. cbn [reader_size] in Hr. subst n.
  pose proof Hw as [Hlen Hsz Hnx]. pose proof (len_nonneg b). rewrite Hl.
  assert (asize = len (mmap (ar_writer a))) as -> by congruence. etransitivity; [apply read_payload_ok; lia|]. by rewrite Hb.
Qed.

(** What a get brings: the payload a name stands for, or what is stored under it. *)
Definition got (c : Cl) (ns key : str) (o : RemoteGetOutcome) : Prop :=
  match o with
  | RemoteHit _ p => exists b, as_ref c p = Some b /\ (content (okey ns key) = Some b \/ resolved ns key = Some b)
  | RemoteMiss => ~ found ns key
  end.

Lemma response_bytes_inline (c : Cl) id v t :
  response_bytes c (ok_response id op.GET v (lit "tier:" ++ dec (tier_byte t))) = Some (Ok (Owned v)).
Proof. unfold response_bytes. cbn [rs_message ok_response]. by rewrite parse_arena_ref_inline. Qed.

Lemma response_bytes_slab (c : Cl) id o a s b :
  client_ok c -> dm_arena (lk_daemon (cl_ring c)) = Some a -> slab_holds s b (ar_writer a) -> len b <= u32_max ->
  (exists rd, response_bytes c (arena_response id o s) = Some (Ok (ArenaOwnedBytes rd (slab_offset s) (slab_len s))) /\
              as_ref c (ArenaOwnedBytes rd (slab_offset s) (slab_len s)) = Some b) \/
  (cl_arena c = None /\ exists e, response_bytes c (arena_response id o s) = Some (Err e)).
Proof.
  intros [[Hd _] Hrd] Ea Hs Hb. destruct Hd as [(_ & Ha & _) _]. specialize (Ha a Ea).
  pose proof Hs as (Hl & Ho & Hn & _). pose proof Ha as ([Hlen Hsz Hnx] & Hz & _). pose proof (len_nonneg b).
  unfold response_bytes. rewrite parse_arena_ref_slab; [|unfold in_u64; lia|unfold in_u32; lia].
  destruct (cl_arena c) as [rd|] eqn:Er; [|right; eauto]. left. exists rd.
  cbn [as_ref ring_arena link_ring]. rewrite Ea. by rewrite (slab_read a s b rd Ha Hs (Hrd rd eq_refl)).
Qed.

Lemma worker_get_ok ns key (c c1 : Cl) reply :
  N ns key -> client_ok c -> worker_get ns key c = (c1, reply) ->
  client_ok c1 /\ same_client c c1 /\ cl_worker c1 = cl_worker c /\ cl_dead c1 = cl_dead c /\
  forall t a, reply = Some (t, Some (Ok a)) -> got c1 ns key a.
Proof.
  intros Hn Hc E. unfold worker_get in E.
  assert (forall id, req_ok (mkReq id op.GET ns key [])) as Hreq by (intros id; by do 4 (split; [done|])).
  destruct (command_ok _ _ _ _ _ Hreq Hc E) as (Hc1 & Hs1 & Hw & Hdd & Hr).
  do 4 (split; [done|]). intros t a Er. destruct (Hr _ _ Er) as [(e & Ee)|(id & resp & (x & d & _ & _ & _ & Ha) & Hread)];
    [congruence|].
  destruct Ha as (_ & Hget & _). specialize (Hget eq_refl). cbn [rq_id rq_namespace rq_key] in Hget.
  destruct Hget as [aa s b Ea Hb Hh|v t0 Hv|Hnf|msg Hnf].
  - rewrite decide_False in Hread by done. unfold when_ok in Hread. rewrite decide_True in Hread by done.
    destruct (response_bytes_slab c1 id op.GET aa s b Hc1 Ea Hh) as [(rd & E1 & E2)|(_ & e & E1)];
      [by apply (N_small ns key)| |]; rewrite E1 in Hread; cbn [mbind option_bind] in Hread; run_res.
    + apply Some_Ok_inj in Hread as <-. exists b. split; [done|by right].
    + by apply Some_Err_Ok in Hread.
  - rewrite decide_False in Hread by done. unfold when_ok in Hread. rewrite decide_True in Hread by done.
    rewrite response_bytes_inline in Hread. cbn [mbind option_bind] in Hread. apply Some_Ok_inj in Hread as <-. exists v. split; [done|by left].
  - rewrite decide_True in Hread by done. by apply Some_Ok_inj in Hread as <-.
  - rewrite decide_False in Hread by done. unfold when_ok in Hread. rewrite decide_False in Hread by done.
    by apply Some_Err_Ok in Hread.
Qed.

Lemma get_small_ok ns key (c : Cl) :
  N ns key -> client_ok c ->
  exists c' r, get_small_kv ns key c = Some (c', r) /\ client_ok c' /\ same_client c c' /\
               forall o, r = Ok o -> got c' ns key o.
Proof.
  intros Hn Hc. unfold get_small_kv, call. destruct (client_dispatch _ _ _) as [c' r] eqn:E. exists c', r. split; [done|].
  eapply (dispatch_client_ok _ _ _ _ _ (fun c o => got c ns key o)); [|exact Hc|exact E]. intros c1 reply E1.
  destruct (worker_get_ok ns key c c1 reply Hn Hc E1) as (? & ? & _ & _ & ?). auto.
Qed.

(** Under a name that is no manifest both readings agree. *)
Lemma got_content ns key b :
  content (okey ns key) = Some b \/ resolved ns key = Some b ->
  (forall v, content (okey ns key) = Some v -> parse_large_manifest v = None) -> content (okey ns key) = Some b.
Proof.
  intros [?|Hr] Hp; [done|]. revert Hr. unfold DaemonSpec.resolved, resolved_payload.
  destruct (content (okey ns key)) as [w|] eqn:E; cbn [mbind option_bind]; [|done]. by rewrite (Hp w eq_refl).
Qed.

Lemma same_client_trans (c c1 c2 : Cl) : same_client c c1 -> same_client c1 c2 -> same_client c c2.
Proof. unfold same_client. intros (-> & -> & ->). done. Qed.

Lemma get_chunks_ok ns id n idx out (c : Cl) :
  (forall i, idx <= i < idx + Z.of_nat n ->
     N ns (large_chunk_key id i) /\
     forall v, content (okey ns (large_chunk_key id i)) = Some v -> parse_large_manifest v = None) ->
  client_ok c ->
  exists c' r, get_chunks ns id n idx out c = Some (c', r) /\ client_ok c' /\ same_client c c' /\
               forall b, r = Ok b -> chunk_content content k0 ns id n idx out = Some b.
Proof.
  revert idx out c. induction n as [|n IH]; intros idx out c Hn Hc; cbn [get_chunks chunk_content].
  { eexists _, _. split; [reflexivity|]. do 2 (split; [done|]). by intros b <-%Ok_inj. }
  destruct (Hn idx) as [Hname Hflat]; [lia|]. unfold call_bind.
  destruct (get_small_ok ns _ c Hname Hc) as (c1 & r1 & -> & Hc1 & Hs1 & Hg). cbn [mbind option_bind].
  destruct r1 as [[t p|]|e];
    [|eexists _, _; split; [reflexivity|]; do 2 (split; [done|]); by intros b ?%Err_Ok..].
  destruct (Hg _ eq_refl) as (b & Hb & Hv). rewrite Hb. cbn [mbind option_bind].
  apply got_content in Hv; [|done]. rewrite Hv. cbn [mbind option_bind].
  destruct (IH (idx + 1) (out ++ b) c1) as (c2 & r2 & -> & Hc2 & Hs2 & Hr2); [intros i Hi; apply Hn; lia|done|].
  eexists _, _. split; [reflexivity|]. split; [done|]. split; [by eapply same_client_trans|done].
Qed.

Lemma remote_get_ok ns key (c : Cl) :
  N ns key -> client_ok c ->
  exists c' r, remote_get_kv ns key c = Some (c', r) /\ client_ok c' /\ same_client c c' /\
    forall t p, r = Ok (RemoteHit t p) -> exists b, as_ref c' p = Some b /\ resolved ns key = Some b.
Proof.
  intros Hn Hc. unfold remote_get_kv, call_bind.
  destruct (get_small_ok ns key c Hn Hc) as (c1 & r1 & -> & Hc1 & Hs1 & Hg). cbn [mbind option_bind].
  destruct r1 as [[t p|]|e]; [|eexists _, _; split; [reflexivity|]; by do 2 (split; [done|])..].
  destruct (Hg _ eq_refl) as (b & Hb & Hv). rewrite Hb. cbn [mbind option_bind].
  destruct (parse_large_manifest b) as [m|] eqn:Em.
  2: { eexists _, _. split; [reflexivity|]. do 2 (split; [done|]). intros t' p' E%Ok_inj.
       assert (p' = p) as -> by congruence. exists b. split; [done|]. destruct Hv as [Hv|Hv]; [|done].
       unfold DaemonSpec.resolved, resolved_payload. rewrite Hv. cbn [mbind option_bind]. by rewrite Em. }
  destruct Hv as [Hv|Hv]; [|by rewrite (N_plain ns key b Hn Hv) in Em].
  unfold get_large_kv, call_bind. rewrite decide_False by (pose proof (N_sizes ns key b m Hn Hv Em); lia).
  destruct (get_chunks_ok ns (lm_id m) (Z.to_nat (chunk_count m)) 0 [] c1) as (c2 & r2 & -> & Hc2 & Hs2 & Hr2);
    [intros i Hi; split; [eapply N_chunks; eauto with lia|intros v; eapply N_flat; eauto with lia]|done|].
  cbn [mbind option_bind]. pose proof (same_client_trans _ _ _ Hs1 Hs2) as Hs.
  destruct r2 as [out|e]; [|eexists _, _; split; [reflexivity|]; by do 2 (split; [done|])].
  eexists _, _. split; [reflexivity|]. do 2 (split; [done|]). intros t' p'. case_decide as El; [by intros ?%Err_Ok|].
  intros E%Ok_inj. assert (p' = Owned out) as -> by congruence. exists out. split; [done|].
  unfold DaemonSpec.resolved, resolved_payload. rewrite Hv. cbn [mbind option_bind]. rewrite Em. unfold manifest_content.
  rewrite (Hr2 out eq_refl). cbn [mbind option_bind]. by rewrite decide_False by lia.
Qed.

(** *** Puts and the other calls *)
Lemma call_keeps {A} request (read : Cl -> WireResponse -> option (result A RemoteError)) (c c' : Cl) r :
  (forall id, req_ok (request id)) -> client_ok c -> call (command request read) c = Some (c', r) ->
  client_ok c' /\ same_client c c'.
Proof.
  intros Hr Hc E. unfold call in E. apply (inj Some) in E.
  assert (client_ok c' /\ same_client c c' /\ forall a, r = Ok a -> True) as (? & ? & _); [|done].
  eapply (dispatch_client_ok _ _ _ _ _ (fun _ _ => True)); [|exact Hc|exact E].
  intros c1 reply E1. by destruct (command_ok _ _ _ _ _ Hr Hc E1) as (? & ? & _).
Qed.

(** What a client may write under a name: its payload, or chunks and manifest. *)
Definition large_ok (ns key : str) (P : bytes) : Prop :=
  let id := large_payload_id blake3 ns key P in
  put_ok N content k0 ns key (large_manifest id (len P) (div_ceil (len P) LARGE_CHUNK_BYTES)) /\
  forall i chunk, chunks LARGE_CHUNK_BYTES P !! i = Some chunk ->
    put_ok N content k0 ns (large_chunk_key id (Z.of_nat i)) chunk.
Definition payload_ok (ns key : str) (P : bytes) : Prop :=
  if fits_one_frame (len P) then put_ok N content k0 ns key P else large_ok ns key P.

Lemma put_req_ok ns key P id : put_ok N content k0 ns key P -> req_ok (mkReq id op.PUT ns key P).
Proof. intros Hp. by do 4 (split; [done|]). Qed.
Lemma put_small_ok ns key P (c : Cl) :
  put_ok N content k0 ns key P -> client_ok c ->
  exists c' r, put_small_kv ns key P c = Some (c', r) /\ client_ok c' /\ same_client c c'.
Proof.
  intros Hp Hc. destruct (put_small_kv ns key P c) as [[c' r]|] eqn:E; [|done]. exists c', r. split; [done|].
  eapply call_keeps; [|exact Hc|exact E]. intros id. by apply put_req_ok.
Qed.
Lemma put_chunks_ok ns id idx cs (c : Cl) :
  (forall i chunk, cs !! i = Some chunk -> put_ok N content k0 ns (large_chunk_key id (idx + Z.of_nat i)) chunk) ->
  client_ok c -> exists c' r, put_chunks ns id idx cs c = Some (c', r) /\ client_ok c' /\ same_client c c'.
Proof.
  revert idx c. induction cs as [|chunk cs IH]; intros idx c Hp Hc; cbn [put_chunks].
  { eexists _, _. split; [reflexivity|]. done. }
  unfold call_bind. destruct (put_small_ok ns (large_chunk_key id idx) chunk c) as (c1 & r1 & -> & Hc1 & Hs1); [|done|].
  { rewrite <- (Z.add_0_r idx). by apply (Hp 0%nat). }
  cbn [mbind option_bind]. destruct r1 as [[]|e]; [|eauto].
  destruct (IH (idx + 1) c1) as (c2 & r2 & -> & Hc2 & Hs2); [|done|].
  - intros i ch Hi. replace (idx + 1 + Z.of_nat i) with (idx + Z.of_nat (Datatypes.S i)) by lia. by apply Hp.
  - exists c2, r2. split; [done|]. split; [done|]. by eapply same_client_trans.
Qed.
Lemma remote_put_ok ns key P (c : Cl) :
  payload_ok ns key P -> client_ok c ->
  exists c' r, remote_put_kv blake3 ns key P c = Some (c', r) /\ client_ok c' /\ same_client c c'.
Proof.
  unfold payload_ok, remote_put_kv. destruct (fits_one_frame _); cbn [negb]; [apply put_small_ok|].
  intros [Hm Hch] Hc. unfold put_large_kv, call_bind.
  destruct (put_chunks_ok ns (large_payload_id blake3 ns key P) 0 (chunks LARGE_CHUNK_BYTES P) c) as (c1 & r1 & -> & Hc1 & Hs1);
    [done..|].
  cbn [mbind option_bind]. destruct r1 as [[]|e]; [|eauto].
  destruct (put_small_ok ns key _ c1 Hm Hc1) as (c2 & r2 & -> & Hc2 & Hs2).
  exists c2, r2. split; [done|]. split; [done|]. by eapply same_client_trans.
Qed.

(** What a client does with its daemon. *)
Inductive client_step : Cl -> Cl -> Prop :=
| cs_put ns key P c c' r : payload_ok ns key P -> remote_put_kv blake3 ns key P c = Some (c', r) -> client_step c c'
| cs_get ns key c c' r : N ns key -> remote_get_kv ns key c = Some (c', r) -> client_step c c'
| cs_exists ns key c c' r : remote_exists ns key c = Some (c', r) -> client_step c c'
| cs_list ns c c' r : list_keys_batch ns c = Some (c', r) -> client_step c c'
| cs_clear c c' r : remote_clear_foyer c = Some (c', r) -> client_step c c'
| cs_ping c c' r : ping c = Some (c', r) -> client_step c c'
| cs_restore ns err c c' r : remote_restore_from_s3 err ns c = Some (c', r) -> client_step c c'.

Lemma plain_request_ok id o ns key b :
  o <> op.PUT -> o <> op.GET -> o <> op.GET_MANY -> o <> op.GET_KV_BLOCKS_BATCH -> o <> op.PUT_KV_BLOCKS_BATCH ->
  req_ok (mkReq id o ns key b).
Proof. intros. by do 4 (split; [done|]). Qed.
Lemma client_step_ok c c' : client_ok c -> client_step c c' -> client_ok c'.
Proof.
  intros Hc Hs. destruct Hs as [ns key P c c' r Hp E|ns key c c' r Hn E|? ? ? ? ? E|? ? ? ? E|? ? ? E|? ? ? E|? ? ? ? ? E].
  1: { destruct (remote_put_ok ns key P c Hp Hc) as (? & ? & E' & ? & _). rewrite E in E'. by apply Some_pair_inj in E' as [-> _]. }
  1: { destruct (remote_get_ok ns key c Hn Hc) as (? & ? & E' & ? & _). rewrite E in E'. by apply Some_pair_inj in E' as [-> _]. }
  all: eapply call_keeps; [|exact Hc|exact E]; intros id; by apply plain_request_ok.
Qed.


(** *** When the rings work *)
Section Live.
Context (T : Z).
Context (total_req : forall r : WireRequest, exists b, encode_request r = Ok b).
Context (total_resp : forall r : WireResponse, exists b, encode_response r = Ok b).

(** Messages arrive, in time. *)
Definition benign (ex : Exchange) : Prop :=
  ex_publish ex = Ok tt /\ (exists t, ex_latency ex = Some t /\ t <= T) /\ ex_receive ex = Ok tt.
(** A client that can be served: its worker runs, and it maps the arena if the
    daemon has one. *)
Definition live (c : Cl) : Prop :=
  cl_worker c = true /\ cl_dead c = false /\ cl_call_timeout c = T /\ (forall n, benign (lk_fate (cl_ring c) n)) /\
  (is_Some (cl_arena c) \/ asize <= 0).

Lemma round_trip_live req (l : Lk) :
  req_ok req -> link_ok l -> (forall n, benign (lk_fate l n)) ->
  exists l' t resp, round_trip req l = (l', Some (t, Ok resp)) /\ t <= T.
Proof.
  intros Hr [Hd Hf] Hb. destruct (Hb (lk_time l)) as (Ep & (t & Et & Ht) & Ev). destruct (total_req req) as [b Eb].
  unfold round_trip. cbn [ring_publish link_ring]. unfold link_publish. rewrite Ep, Eb.
  cbn [ring_recv link_ring]. unfold link_recv. cbn [lk_wire lk_daemon lk_fate lk_time].
  destruct (serve_request_ok req b (lk_fate l (lk_time l)) (lk_daemon l) Eb Hr (Hf _) Hd)
    as (d1 & d' & resp & -> & _ & _ & _ & Hid & _). destruct (total_resp resp) as [b' Eb'].
  rewrite Eb'. cbn [mbind option_bind]. rewrite Et, Ev. cbn [mbind option_bind]. rewrite (encoded_response _ _ Eb').
  rewrite decide_False by (by intros []). by eexists _, t, resp.
Qed.

Lemma call_live {A} request (read : Cl -> WireResponse -> option (result A RemoteError)) (c : Cl) :
  (forall id, req_ok (request id)) -> client_ok c -> live c ->
  exists c1 id resp, client_ok c1 /\ same_client c c1 /\ live c1 /\ answers (request id) (cl_ring c1) resp /\
    forall r, read c1 resp = Some r -> call (command request read) c = Some (c1, r).
Proof.
  intros Hr [Hl Ha] (Hw & Hdd & HT & Hb & Hm).
  destruct (round_trip_live (request (cl_next_id c)) (cl_ring c) (Hr _) Hl Hb) as (l' & t & resp & E & Ht).
  destruct (round_trip_ok _ _ _ _ (Hr _) Hl E) as (Hl' & Hf & Hout).
  exists (set_ring l' (wrap64 (cl_next_id c + 1)) c), (cl_next_id c), resp.
  split; [by split|]. split; [by split|]. split; [|split; [by eapply Hout|]].
  - unfold live. cbn [cl_worker cl_dead cl_call_timeout cl_ring cl_arena set_ring]. by rewrite Hf.
  - intros r Er. unfold call, client_dispatch, check_alive, is_dead. rewrite Hdd, Hw, HT. cbn [negb].
    unfold command, take_id. rewrite E, Er. rewrite decide_False by lia. done.
Qed.

Lemma get_small_live ns key (c : Cl) :
  N ns key -> found ns key -> client_ok c -> live c ->
  exists c1 t p, get_small_kv ns key c = Some (c1, Ok (RemoteHit t p)) /\ client_ok c1 /\ live c1.
Proof.
  intros Hn Hfd Hc Hl.
  assert (forall id, req_ok (mkReq id op.GET ns key [])) as Hreq by (intros id; by do 4 (split; [done|])).
  destruct (call_live (fun id => mkReq id op.GET ns key [])
    (fun c resp =>
       if decide (rs_status resp = status.MISS) then Some (Ok RemoteMiss) else
       when_ok (fun c resp => r ← response_bytes c resp;
                              Some (let? payload := r in Ok (RemoteHit (parse_tier (rs_message resp)) payload))) c resp)
    c Hreq Hc Hl) as (c1 & id & resp & Hc1 & Hs1 & Hl1 & (n & d & _ & _ & _ & Ha) & Hcall).
  destruct Ha as (_ & Hget & _). specialize (Hget eq_refl). cbn [rq_id rq_namespace rq_key] in Hget.
  assert (exists p, response_bytes c1 resp = Some (Ok p) /\ rs_status resp = status.OK) as (p & Ep & Est).
  { destruct Hget as [aa s b Ea Hb Hh|v t0 Hv|Hnf|msg Hnf]; [| |done..].
    - destruct (response_bytes_slab c1 id op.GET aa s b Hc1 Ea Hh) as [(rd & E1 & E2)|(Enone & e & E1)];
        [by apply (N_small ns key)|by eexists|]. exfalso.
      destruct Hl1 as (_ & _ & _ & _ & [[rd Erd]|Hz]); [congruence|].
      destruct Hc1 as [[[(_ & Har & _) _] _] _]. destruct (Har aa Ea) as ([_ Hsz _] & Hz' & _). lia.
    - exists (Owned v). split; [apply response_bytes_inline|done]. }
  exists c1, (parse_tier (rs_message resp)), p. split; [|done]. apply Hcall.
  rewrite decide_False by (by rewrite Est). unfold when_ok. rewrite decide_True by done. by rewrite Ep.
Qed.

Lemma get_chunks_live ns id n idx out (c : Cl) :
  (forall i, idx <= i < idx + Z.of_nat n ->
     N ns (large_chunk_key id i) /\ found ns (large_chunk_key id i)) ->
  client_ok c -> live c ->
  exists c' b, get_chunks ns id n idx out c = Some (c', Ok b) /\ client_ok c' /\ live c'.
Proof.
  revert idx out c. induction n as [|n IH]; intros idx out c Hn Hc Hl; cbn [get_chunks].
  { by eexists _, _. }
  destruct (Hn idx) as [Hname Hfd]; [lia|]. unfold call_bind.
  destruct (get_small_live ns _ c Hname Hfd Hc Hl) as (c1 & t & p & E & Hc1 & Hl1).
  destruct (get_small_ok ns _ c Hname Hc) as (c1' & r1 & E' & _ & _ & Hg). rewrite E in E'.
  apply Some_pair_inj in E' as [<- <-]. destruct (Hg _ eq_refl) as (b & Hb & _).
  rewrite E. cbn [mbind option_bind]. rewrite Hb. cbn [mbind option_bind].
  apply IH; [|done..]. intros i Hi. apply Hn. lia.
Qed.

(** A name that its store finds, with its chunks when it has some, is got. *)
Lemma remote_get_live ns key v P (c : Cl) :
  N ns key -> found ns key -> content (okey ns key) = Some v -> resolved ns key = Some P ->
  (forall m i, parse_large_manifest v = Some m -> 0 <= i < chunk_count m -> found ns (large_chunk_key (lm_id m) i)) ->
  client_ok c -> live c ->
  exists c' t p, remote_get_kv ns key c = Some (c', Ok (RemoteHit t p)) /\ as_ref c' p = Some P /\
    client_ok c' /\ live c' /\ same_client c c'.
Proof.
  intros Hn Hfd Hv HP Hchunks Hc Hl.
  assert (exists c' t p, remote_get_kv ns key c = Some (c', Ok (RemoteHit t p)) /\ live c') as (c' & t & p & E & Hl').
  { unfold remote_get_kv, call_bind. destruct (get_small_live ns key c Hn Hfd Hc Hl) as (c1 & t & p & E & Hc1 & Hl1).
    destruct (get_small_ok ns key c Hn Hc) as (c1' & r1 & E' & _ & _ & Hg). rewrite E in E'.
    apply Some_pair_inj in E' as [<- <-]. destruct (Hg _ eq_refl) as (b & Hb & Hbv).
    rewrite E. cbn [mbind option_bind]. rewrite Hb. cbn [mbind option_bind].
    destruct (parse_large_manifest b) as [m|] eqn:Em; [|eexists _, _, _; by split].
    destruct Hbv as [Hbv|Hbv]; [|by rewrite (N_plain ns key b Hn Hbv) in Em].
    rewrite Hv in Hbv. injection Hbv as <-. unfold get_large_kv, call_bind.
    rewrite decide_False by (pose proof (N_sizes ns key v m Hn Hv Em); lia).
    assert (forall i, 0 <= i < 0 + Z.of_nat (Z.to_nat (chunk_count m)) ->
              N ns (large_chunk_key (lm_id m) i) /\ found ns (large_chunk_key (lm_id m) i)) as Hnames.
    { intros i Hi. split; [eapply N_chunks; eauto with lia|]. apply Hchunks; [done|lia]. }
    destruct (get_chunks_live ns (lm_id m) (Z.to_nat (chunk_count m)) 0 [] c1 Hnames Hc1 Hl1) as (c2 & out & E2 & Hc2 & Hl2).
    destruct (get_chunks_ok ns (lm_id m) (Z.to_nat (chunk_count m)) 0 [] c1) as (c2' & r2 & E2' & _ & _ & Hr2);
      [intros i Hi; split; [by apply Hnames|intros w; eapply N_flat; eauto with lia]|done|].
    rewrite E2 in E2'. apply Some_pair_inj in E2' as [<- <-]. rewrite E2. cbn [mbind option_bind].
    rewrite decide_False; [eexists _, _, _; by split|]. revert HP. unfold DaemonSpec.resolved, resolved_payload. rewrite Hv.
    cbn [mbind option_bind]. rewrite Em. unfold manifest_content. rewrite (Hr2 out eq_refl). cbn [mbind option_bind].
    destruct (decide (len out <> total_len m)) as [?|Hne]; [done|]. intros _. exact Hne. }
  destruct (remote_get_ok ns key c Hn Hc) as (c'' & r & E' & Hc' & Hs' & Hhit). rewrite E in E'.
  apply Some_pair_inj in E' as [<- <-]. destruct (Hhit t p eq_refl) as (b & Hb & Hbr).
  exists c', t, p. split; [done|]. split; [congruence|]. done.
Qed.
End Live.
End Hits.

(** ** What was put is got

    On a reliable object store, with puts written before they are acknowledged
    and nothing evicted. *)
Section Durable.
Context `{!ReliableStore S} (asize T : Z).
Context (total_req : forall r : WireRequest, exists b, encode_request r = Ok b).
Context (total_resp : forall r : WireResponse, exists b, encode_response r = Ok b).

(** The store works and has the objects of the names of [D]. *)
Definition has_objects (D : list (str * str)) (k : KvStore) : Prop :=
  reliable (kv_object_store k) /\ kv_write_through_s3 k = true /\
  forall ns key, (ns, key) ∈ D -> is_Some (contents (kv_object_store k) !! okey ns key).
Definition found_in (D : list (str * str)) (ns key : str) : Prop := (ns, key) ∈ D /\ is_Some (content (okey ns key)).

Lemma has_objects_step D k k' :
  objects_kept k k' -> kv_write_through_s3 k' = kv_write_through_s3 k -> has_objects D k -> has_objects D k'.
Proof. intros [Hk Hr] Ew (R & W & HD). split; [auto|]. split; [congruence|]. eauto. Qed.
Lemma has_objects_kept D k k' : kv_call N content k0 k k' -> has_objects D k -> has_objects D k'.
Proof.
  intros Hc. apply has_objects_step.
  - destruct Hc; [apply get_kv_kept|apply put_kv_kept|apply exists_kv_kept|apply list_kv_keys_kept|apply restore_kept|..];
      by apply objects_kept_same.
  - assert (forall k1 k2 : KvStore, kv_meta k2 = kv_meta k1 -> kv_write_through_s3 k2 = kv_write_through_s3 k1) as Hw
      by (intros k1 k2 E; by injection E).
    destruct Hc; try (apply Hw; by autorewrite with frame); done.
Qed.
Lemma has_objects_found D ns key k :
  store_ok N content k0 (has_objects D) k -> N ns key -> found_in D ns key ->
  exists k' t v, get_kv ns key k = (k', Ok (Hit t v)).
Proof.
  intros Hk Hn [HD [v Hv]]. pose proof (store_ok_key _ _ _ _ k ns key Hk) as Ek. destruct Hk as (Hc & Ep & _ & R & _ & Ho).
  destruct (Ho ns key HD) as [b Hb].
  destruct (get_kv_finds (K N k0) content K_files ns key v b k) as (k' & t & E); [done| | |done| |eauto].
  - rewrite Ek. by eapply K_name.
  - by rewrite Ek.
  - unfold cache_key in Ek. by rewrite Ek.
Qed.

Abbreviation ok D := (client_ok (has_objects D) asize).
(** Puts are written before they are acknowledged; nothing is evicted. *)
Definition steady (ex : Exchange) : Prop :=
  async_put_enabled (am_env (ex_ambient ex)) = false /\ forall ns key, EvEvict ns key ∉ ex_before ex.
Definition ready (c : Cl) : Prop := live asize T c /\ forall n, steady (lk_fate (cl_ring c) n).
Definition encodable (key : str) (P : bytes) : Prop := is_ok (encode_for_storage P (kv_compression k0) key) = true.

Lemma fate_ok_steady D D' ex :
  steady ex -> fate_ok (has_objects D) ex -> fate_ok (has_objects D') ex.
Proof.
  intros [_ He] [Hf Hc]. split; [|done]. rewrite Forall_forall in *. intros e Hin. specialize (Hf e Hin).
  destruct e; [done..|]. exfalso. by eapply He.
Qed.

Abbreviation dm_has D := (DaemonSpec.inv (I := I) N content k0 (has_objects D) asize).
(** The daemon writes a put before it acknowledges it. *)
Lemma daemon_put_durable D x id rid ns key P (d : Dm) :
  put_ok N content k0 ns key P -> encodable key P -> async_put_enabled (am_env x) = false -> dm_has D d ->
  exists d', dispatch x id (mkReq rid op.PUT ns key P) d = Some (d', ok_response id op.PUT [] []) /\ dm_has ((ns, key) :: D) d'.
Proof.
  intros Hp He Hasync [Hdok Hcount]. pose proof Hdok as (Hk & Har & Hsl & Hj). set (req := mkReq rid op.PUT ns key P).
  change (dispatch x id req d) with (dispatch_put x id req d). unfold dispatch_put. rewrite Hasync. cbn [andb].
  destruct (store_ok_put N content k0 K_files (has_objects D)) with (ns := ns) (key := key) (v := P) (k := dm_store d)
    as [Hk1 _]; [apply has_objects_kept|done|done|].
  destruct Hk as (Hcoh & Epre & Ecomp & R & W & Ho).
  destruct (put_kv_durable ns key P (dm_store d) R W) as (k' & Eput & Hobj); [by rewrite Ecomp|].
  destruct (sync_put_written (I := I) N content k0) with (G := has_objects ((ns, key) :: D)) (asize := asize)
    (id := id) (req := req) (d := d) as (d' & resp' & E' & Hd' & _ & _ & Hok); try done; [apply has_objects_kept| |].
  { cbn [rq_namespace rq_key rq_payload req]. rewrite Eput in *. cbn [fst] in *.
    split; [|by do 2 (split; [done|])]. destruct Hk1 as (Hcoh1 & Epre1 & Ecomp1 & R1 & W1 & Ho1).
    do 3 (split; [done|]). do 2 (split; [done|]). intros ns' key' Hin%elem_of_cons.
    destruct Hin as [[= -> ->]|Hin]; [|by apply Ho1]. unfold DaemonSpec.okey.
    assert (object_key k0 ns key = object_key (dm_store d) ns key) as -> by (unfold object_key; by rewrite Epre). done. }
  exists d'. split; [|split; [done|]; by eapply counted_same, sync_put_jobs]. revert E' Hok. unfold sync_put.
  cbn [rq_namespace rq_key rq_payload req]. rewrite Eput. destruct (materialize _ _ _ _ _) as [[d1 r]|]; [|done].
  cbn [mbind option_bind]. by intros [<- <-]%Some_pair_inj _.
Qed.
Lemma put_small_durable D ns key P (c : Cl) :
  put_ok N content k0 ns key P -> encodable key P -> ok D c -> ready c ->
  exists c1, put_small_kv ns key P c = Some (c1, Ok tt) /\ ok ((ns, key) :: D) c1 /\ ready c1.
Proof.
  intros Hp He Hc [Hl Hst].
  assert (forall id, request_ok N content k0 (mkReq id op.PUT ns key P)) as Hreq by (intros id; by do 4 (split; [done|])).
  destruct call_live with (G := has_objects D) (found := found_in D) (asize := asize) (T := T) (c := c)
    (request := fun id => mkReq id op.PUT ns key P)
    (read := when_ok (R := Lk) (fun _ _ => Some (@Ok unit RemoteError tt)))
    as (c1 & id & resp & Hc1 & Hs1 & Hl1 & (n & d & Hd & Hdisp & _ & _) & Hcall);
    try done; [apply has_objects_kept|apply has_objects_found|].
  assert (forall n, steady (lk_fate (cl_ring c1) n)) as Hst1 by (destruct Hs1 as (-> & _); done).
  destruct (daemon_put_durable D (ex_ambient (lk_fate (cl_ring c1) n)) id id ns key P d Hp He (proj1 (Hst1 n)) Hd) as (d' & E' & Hd').
  cbn [rq_id] in Hdisp. rewrite Hdisp in E'. apply Some_pair_inj in E' as [<- ->]. exists c1. split; [by apply Hcall|]. split; [|by split].
  destruct Hc1 as [[_ Hf1] Ha1]. split; [|done]. split; [done|]. intros m. by apply (fate_ok_steady D).
Qed.

(** A payload for a name; all the client writes for it can be encoded. *)
Definition blob_ok (ns key : str) (P : bytes) : Prop :=
  payload_ok ns key P /\ parse_large_manifest P = None /\ len P <= u64_max /\
  forall key' v, put_ok N content k0 ns key' v -> encodable key' v.

Lemma put_chunks_durable ns id idx cs D (c : Cl) :
  (forall i chunk, cs !! i = Some chunk -> put_ok N content k0 ns (large_chunk_key id (idx + Z.of_nat i)) chunk) ->
  (forall key' v, put_ok N content k0 ns key' v -> encodable key' v) -> ok D c -> ready c ->
  exists c' D', put_chunks ns id idx cs c = Some (c', Ok tt) /\ ok D' c' /\ ready c' /\ D ⊆ D' /\
    forall i, (i < length cs)%nat -> (ns, large_chunk_key id (idx + Z.of_nat i)) ∈ D'.
Proof.
  revert idx D c. induction cs as [|chunk cs IH]; intros idx D c Hp He Hc Hr; cbn [put_chunks].
  { exists c, D. do 4 (split; [done|]). cbn. lia. }
  unfold call_bind. pose proof (Hp 0%nat chunk eq_refl) as Hput. rewrite Z.add_0_r in Hput.
  destruct (put_small_durable D ns (large_chunk_key id idx) chunk c Hput (He _ _ Hput) Hc Hr) as (c1 & E & Hc1 & Hr1).
  rewrite E. cbn [mbind option_bind].
  destruct (IH (idx + 1) ((ns, large_chunk_key id idx) :: D) c1) as (c2 & D2 & E2 & Hc2 & Hr2 & Hsub & Hin); [|done..|].
  { intros i ch Hi. replace (idx + 1 + Z.of_nat i) with (idx + Z.of_nat (Datatypes.S i)) by lia. by apply Hp. }
  exists c2, D2. split; [done|]. split; [done|]. split; [done|]. split; [set_solver|]. intros [|i] Hi.
  - rewrite Z.add_0_r. set_solver.
  - replace (idx + Z.of_nat (Datatypes.S i)) with (idx + 1 + Z.of_nat i) by lia. apply Hin. cbn in Hi. lia.
Qed.

Lemma chunk_content_concat ns id cs idx out :
  (forall i chunk, cs !! i = Some chunk -> content (okey ns (large_chunk_key id (idx + Z.of_nat i))) = Some chunk) ->
  chunk_content content k0 ns id (length cs) idx out = Some (out ++ concat cs).
Proof.
  revert idx out. induction cs as [|chunk cs IH]; intros idx out Hc; cbn [chunk_content length concat]; [by rewrite app_nil_r|].
  pose proof (Hc 0%nat chunk eq_refl) as H0'. rewrite Z.add_0_r in H0'. rewrite H0'. cbn [mbind option_bind].
  rewrite IH; [by rewrite app_assoc|]. intros i ch Hi.
  replace (idx + 1 + Z.of_nat i) with (idx + Z.of_nat (Datatypes.S i)) by lia. by apply Hc.
Qed.

Lemma large_chunk_pos : 0 < LARGE_CHUNK_BYTES.
Proof. by vm_compute. Qed.
Lemma div_ceil_range n : 0 <= n -> 0 <= div_ceil n LARGE_CHUNK_BYTES <= n.
Proof.
  intros Hn. pose proof large_chunk_pos as Hp. unfold div_ceil. generalize dependent LARGE_CHUNK_BYTES. intros B Hp.
  pose proof (Z.div_pos n B Hn Hp). pose proof (Z.div_mod n B ltac:(lia)). pose proof (Z.mod_pos_bound n B Hp).
  case_decide; nia.
Qed.

(** The manifest of a large payload stands for it. *)
Lemma large_resolved ns key P :
  large_ok ns key P -> len P <= u64_max ->
  let m := mkManifest (large_payload_id blake3 ns key P) (len P) (div_ceil (len P) LARGE_CHUNK_BYTES) in
  exists v, content (okey ns key) = Some v /\ parse_large_manifest v = Some m /\ resolved ns key = Some P.
Proof.
  intros [(Hn & Hv & _) Hch] Hlen m. eexists. split; [exact Hv|]. pose proof (len_nonneg P) as Hp.
  pose proof (div_ceil_range (len P) Hp) as Hd.
  assert (parse_large_manifest (large_manifest (large_payload_id blake3 ns key P) (len P) (div_ceil (len P) LARGE_CHUNK_BYTES))
          = Some m) as Em.
  { apply parse_large_manifest_roundtrip; [apply hex_plain|unfold in_u64; lia|unfold in_u64; lia]. }
  split; [done|]. unfold DaemonSpec.resolved, resolved_payload. rewrite Hv. cbn [mbind option_bind]. rewrite Em.
  unfold manifest_content, m. cbn [lm_id total_len chunk_count].
  rewrite <- (chunks_count LARGE_CHUNK_BYTES P large_chunk_pos).
  replace (Z.to_nat (len (chunks LARGE_CHUNK_BYTES P))) with (length (chunks LARGE_CHUNK_BYTES P)) by (unfold len; lia).
  rewrite chunk_content_concat; [|intros i ch Hi; by apply Hch].
  cbn [mbind option_bind app]. rewrite chunks_concat by apply large_chunk_pos. by rewrite decide_False by lia.
Qed.

(** A name that can be got: its object and those of its chunks are there. *)
Definition gettable (D : list (str * str)) (ns key : str) (P : bytes) : Prop :=
  N ns key /\ (ns, key) ∈ D /\ resolved ns key = Some P /\ exists v, content (okey ns key) = Some v /\
    forall m i, parse_large_manifest v = Some m -> 0 <= i < chunk_count m -> found_in D ns (large_chunk_key (lm_id m) i).
Lemma gettable_mono D D' ns key P : D ⊆ D' -> gettable D ns key P -> gettable D' ns key P.
Proof.
  intros Hs (Hn & Hin & Hr & v & Hv & Hch). split; [done|]. split; [set_solver|]. split; [done|]. exists v. split; [done|].
  intros m i Hm Hi. destruct (Hch m i Hm Hi). split; [set_solver|done].
Qed.
Lemma remote_get_durable D ns key P (c : Cl) :
  gettable D ns key P -> ok D c -> ready c ->
  exists c' t p, remote_get_kv ns key c = Some (c', Ok (RemoteHit t p)) /\ as_ref c' p = Some P /\ ok D c' /\ ready c'.
Proof.
  intros (Hn & Hin & Hr & v & Hv & Hch) Hc [Hl Hst]. assert (found_in D ns key) as Hfd by (split; [done|by eexists]).
  destruct (remote_get_live (has_objects D) (found_in D) asize (has_objects_kept D) (has_objects_found D) T total_req total_resp
             ns key v P c Hn Hfd Hv Hr Hch Hc Hl) as (c' & t & p & E & Hp & Hc' & Hl' & (Ef & _)).
  exists c', t, p. do 3 (split; [done|]). split; [done|]. by rewrite Ef.
Qed.
Lemma remote_put_durable D ns key P (c : Cl) :
  blob_ok ns key P -> ok D c -> ready c ->
  exists c1 D1, remote_put_kv blake3 ns key P c = Some (c1, Ok tt) /\ ok D1 c1 /\ ready c1 /\ D ⊆ D1 /\ gettable D1 ns key P.
Proof.
  intros (HP & Hplain & Hlen & He) Hc Hr. unfold payload_ok in HP. unfold remote_put_kv.
  destruct (fits_one_frame (len P)); cbn [negb].
  - destruct (put_small_durable D ns key P c HP (He key P HP) Hc Hr) as (c1 & E & Hc1 & Hr1).
    exists c1, ((ns, key) :: D). do 3 (split; [done|]). split; [set_solver|]. destruct HP as (Hn & Hv & _). split; [done|]. split; [set_solver|].
    split; [|exists P; split; [done|]; intros m i Hm; congruence].
    unfold DaemonSpec.resolved, resolved_payload. rewrite Hv. cbn [mbind option_bind]. by rewrite Hplain.
  - unfold put_large_kv, call_bind. pose proof HP as [Hm Hch]. set (id := large_payload_id blake3 ns key P) in *.
    destruct (put_chunks_durable ns id 0 (chunks LARGE_CHUNK_BYTES P) D c) as (c1 & D1 & E1 & Hc1 & Hr1 & Hsub & Hin);
      [done..|]. rewrite E1. cbn [mbind option_bind].
    destruct (put_small_durable D1 ns key _ c1 Hm (He key _ Hm) Hc1 Hr1) as (c2 & E2 & Hc2 & Hr2).
    exists c2, ((ns, key) :: D1). do 3 (split; [done|]). split; [set_solver|].
    destruct (large_resolved ns key P HP Hlen) as (v & Hv & Em & HrP). pose proof Hm as (Hn & _).
    split; [done|]. split; [set_solver|]. split; [done|]. exists v. split; [done|].
    intros m i Em' Hi. rewrite Em in Em'. injection Em' as <-. cbn [lm_id chunk_count] in *. fold id.
    rewrite <- (chunks_count LARGE_CHUNK_BYTES P large_chunk_pos) in Hi. unfold len in Hi.
    assert (Z.to_nat i < length (chunks LARGE_CHUNK_BYTES P))%nat as Hlt by lia.
    specialize (Hin _ Hlt). destruct (lookup_lt_is_Some_2 _ _ Hlt) as [ch Hchunk].
    destruct (Hch _ _ Hchunk) as (_ & Hcc & _). rewrite Z2Nat.id in Hin, Hcc by lia. split; [set_solver|]. by eexists.
Qed.

Lemma ping_durable D (c : Cl) : ok D c -> ready c -> exists c', ping c = Some (c', Ok tt) /\ ok D c' /\ ready c'.
Proof.
  intros Hc [Hl Hst]. assert (forall id, request_ok N content k0 (mkReq id op.PING [] [] [])) as Hreq by (intros id; by do 4 (split; [done|])).
  destruct call_live with (G := has_objects D) (found := found_in D) (asize := asize) (T := T) (c := c)
    (request := fun id => mkReq id op.PING [] [] []) (read := when_ok (R := Lk) (fun _ _ => Some (@Ok unit RemoteError tt)))
    as (c1 & id & resp & Hc1 & (Ef & Hs1) & Hl1 & (n & d & Hd & Hdisp & _ & _) & Hcall);
    try done; [apply has_objects_kept|apply has_objects_found|].
  exists c1. cbn in Hdisp. apply Some_pair_inj in Hdisp as [_ <-]. split; [by apply Hcall|]. split; [done|]. split; [done|]. by rewrite Ef.
Qed.

(** C12: a put through the client of a payload of any size reports success, and a get
    after it returns that payload, in one piece, in chunks or from the arena. *)
Theorem remote_put_then_get D ns key P (c : Cl) :
  blob_ok ns key P -> ok D c -> ready c ->
  exists c1 c2 t p, remote_put_kv blake3 ns key P c = Some (c1, Ok tt) /\
    remote_get_kv ns key c1 = Some (c2, Ok (RemoteHit t p)) /\ as_ref c2 p = Some P.
Proof.
  intros HP Hc Hr. destruct (remote_put_durable D ns key P c HP Hc Hr) as (c1 & D1 & E1 & Hc1 & Hr1 & _ & Hg).
  destruct (remote_get_durable D1 ns key P c1 Hg Hc1 Hr1) as (c2 & t & p & E2 & Hp & _). by exists c1, c2, t, p.
Qed.
End Durable.
End EndToEnd.

(** ** A concrete client *)
Import DaemonSpec.Sample.
Module SampleClient.
Definition hash32 (b : bytes) : bytes := take 32 b.
Definition exchange : Exchange := mkExchange (Ok tt) [] world (Some 1) (Ok tt).
Definition link : Link InMemoryObjectStore MapCache InMemoryMetadataIndex := mkLink daemon None (fun _ => exchange) 0.
Definition client : Client (Link InMemoryObjectStore MapCache InMemoryMetadataIndex) :=
  mkClient link 0 (Some (mkArenaReader 80)) true false DEFAULT_CALL_TIMEOUT.
#[export] Instance request_laws : RkyvCodecLaws WireRequest := countable_codec_laws.
#[export] Instance response_laws : RkyvCodecLaws WireResponse := countable_codec_laws.
End SampleClient.
Import SampleClient.

Lemma sample_names_files x y : K names sample_store x -> K names sample_store y -> path_for_key x = path_for_key y -> x = y.
Proof. by intros ->%sample_K ->%sample_K. Qed.
Lemma sample_names_nul ns key : names ns key -> x00 ∉ ns.
Proof. intros [-> ->]. by_eval. Qed.
Lemma sample_no_manifest ns key v m :
  names ns key -> sample_content (okey sample_store ns key) = Some v -> parse_large_manifest v = Some m -> False.
Proof. intros [-> ->] Hv Hm. vm_compute in Hv. injection Hv as <-. vm_compute in Hm. discriminate. Qed.
Lemma sample_content_len x v : sample_content x = Some v -> len v <= u64_max.
Proof. unfold sample_content. case_decide; [|discriminate]. intros [= <-]. vm_compute. discriminate. Qed.
Lemma sample_small ns key b : names ns key -> resolved sample_content sample_store ns key = Some b -> len b <= u32_max.
Proof. intros Hn ->%sample_resolved; [|done]. vm_compute. discriminate. Qed.
Lemma sample_plain ns key b :
  names ns key -> resolved sample_content sample_store ns key = Some b -> parse_large_manifest b = None.
Proof. intros Hn ->%sample_resolved; [|done]. vm_compute. reflexivity. Qed.
Lemma sample_daemon_ok G : G sample_store -> inv (I := InMemoryMetadataIndex) names sample_content sample_store G 80 daemon.
Proof.
  intros Hg. destruct sample_inv as [((Hc & Hp & Hcfg & _) & Hrest) Hcount]. split; [|done].
  split; [by do 3 (split; [done|])|done].
Qed.
Lemma sample_client_ok G : G sample_store -> client_ok (I := InMemoryMetadataIndex) names sample_content sample_store G 80 client.
Proof.
  intros Hg. split; [|by intros rd [= <-]]. split; [by apply sample_daemon_ok|].
  intros n. split; [constructor|]. intros i. by vm_compute.
Qed.
Lemma sample_put : put_ok names sample_content sample_store (lit "ns") (lit "k") (lit "payload").
Proof. split; [done|]. split; [vm_compute; reflexivity|discriminate]. Qed.


Lemma remote_put_then_get_witness :
  exists c1 c2 t p, remote_put_kv hash32 (lit "ns") (lit "k") (lit "payload") client = Some (c1, Ok tt) /\
    remote_get_kv (lit "ns") (lit "k") c1 = Some (c2, Ok (RemoteHit t p)) /\ as_ref c2 p = Some (lit "payload").
Proof.
  apply (remote_put_then_get hash32 names sample_content sample_store) with (ReliableStore0 := in_memory_object_store_reliable) (asize := 80) (T := DEFAULT_CALL_TIMEOUT) (D := []);
    [exact sample_names_files|exact sample_names_nul| | |exact sample_content_len|exact sample_small|exact sample_plain| | | | |
    |].
  - intros ns key v m i Hn Hv Hm. destruct (sample_no_manifest ns key v m Hn Hv Hm).
  - intros ns key v m Hn Hv Hm. destruct (sample_no_manifest ns key v m Hn Hv Hm).
  - intros ns key v m i p Hn Hv Hm. destruct (sample_no_manifest ns key v m Hn Hv Hm).
  - intros r. by eexists.
  - intros r. by eexists.
  - split; [exact sample_put|]. split; [vm_compute; reflexivity|]. split; [vm_compute; discriminate|].
    intros key' v ([_ ->] & Hv & _). vm_compute in Hv. injection Hv as <-. vm_compute. reflexivity.
  - apply sample_client_ok. split; [done|]. split; [done|]. by intros ns key ?%elem_of_nil.
  - split; [|intros n; split; [done|]; by intros ns key ?%elem_of_nil].
    do 3 (split; [done|]). split; [|left; by eexists]. intros n. split; [done|]. split; [|done].
    exists 1. split; [done|]. vm_compute. discriminate.
Defined.

(** ** Boundary behaviour *)

(** After a timeout every call fails at once and sends nothing. *)
Lemma timeout_is_final {R A B} (timeout timeout' : Z) (h : Client R -> Client R * Reply A) (h' : Client R -> Client R * Reply B) c c' d :
  cl_dead c = false -> client_dispatch timeout h c = (c', Err (Timeout d)) ->
  (forall c1 t e, h c = (c1, Some (t, Some (Err e))) -> forall d, e <> Timeout d) ->
  client_dispatch timeout' h' c' = (c', Err BackendUnavailable).
Proof.
  intros Hd E Hh. assert (cl_dead c' = true) as Hdead; [|unfold client_dispatch, check_alive, is_dead; by rewrite Hdead].
  revert E. unfold client_dispatch, check_alive, is_dead. rewrite Hd.
  destruct (negb _); [done|]. destruct (h c) as [c1 reply] eqn:Eh.
  destruct reply as [[t [r|]]|]; cbv zeta; [| |by intros [<- _]%pair_inj].
  - case_decide; [by intros [<- _]%pair_inj|]. intros [_ ->]%pair_inj.
    destruct (Hh c1 t (Timeout d) eq_refl d eq_refl).
  - case_decide; [by intros [<- _]%pair_inj|]. by intros [_ ?]%pair_inj.
Qed.

(** A payload that reads as a manifest is not given back: the get follows it. *)
Lemma manifest_like_payload_is_followed :
  let P := large_manifest (lit "x") 5 0 in
  parse_large_manifest P = Some (mkManifest (lit "x") 5 0) /\
  (snd <$> ('(c, _) ← remote_put_kv hash32 (lit "ns") (lit "k") P client; remote_get_kv (lit "ns") (lit "k") c))
  = Some (Err (Transport (lit "large-payload length mismatch: expected 5 got 0"))).
Proof. split; vm_compute; reflexivity. Qed.
