(* ===== verification/Tcp.v ===== *)
(** * The TCP transport ([tcp_transport.rs])

    Models [crates/wombatkv-daemon/src/tcp_transport.rs]: the pool of dispatch
    workers, the connection handler of the server, and the client.  The handler
    and the client read from a byte stream with [read_exact] and write with
    [write_all]; calls of the network fail as the stream says.  Accepting
    connections, the runtimes and the shards are not modelled.

    The theorems show which requests a connection serves, whatever bytes arrive,
    and that a client and a server on one connection stay in step. *)

From S2P Require Import Prelude Order Text Strings Hex Envelope Wire Rpc.

Definition MAX_FRAME_BYTES : Z := 256 * 1024 * 1024.

(** [std::io::Error]: the kinds the code tells apart, and the text. *)
Inductive ErrorKind := UnexpectedEof | ConnectionReset | ConnectionAborted | BrokenPipe | NotConnected | OtherKind.
Record IoError := mkIo { io_kind : ErrorKind; io_text : str }.
Definition is_peer_disconnect (e : IoError) : bool := match io_kind e with OtherKind => false | _ => true end.

Definition envelope_error_display (e : EnvelopeError) : str :=
  match e with
  | TooShort got need => lit "envelope too short: got " ++ dec got ++ lit " bytes, need at least " ++ dec need
  | EnvBadMagic got => lit "envelope bad magic: got " ++ bytes_debug got ++ lit ", expected " ++ bytes_debug WIRE_ENVELOPE_MAGIC
  | BadVersion got want =>
      lit "envelope unsupported version " ++ dec got ++ lit " (want " ++ dec want
      ++ lit "); pre-launch breaking-window applies, daemons and clients must upgrade together"
  | Envelope.BadLength header_len actual =>
      lit "envelope length mismatch: header says " ++ dec header_len ++ lit " body bytes, actually got " ++ dec actual
  | BadCrc header_crc computed_crc =>
      lit "envelope CRC32C mismatch: header=" ++ hex_08 header_crc ++ lit " computed=" ++ hex_08 computed_crc
  end.

Inductive TcpServerError := SrvIo (e : IoError) | SrvDecode (m : str) | SrvEncode (m : str).
Definition tcp_server_error_display (e : TcpServerError) : str :=
  match e with
  | SrvIo e => lit "tcp io: " ++ io_text e
  | SrvDecode m => lit "tcp decode: " ++ m
  | SrvEncode m => lit "tcp encode: " ++ m
  end.
Definition server_from_envelope (e : EnvelopeError) : TcpServerError := SrvDecode (lit "envelope: " ++ envelope_error_display e).

(** ** Streams

    What arrives, what happens after it ([None]: nothing, the reader waits), what
    was written, and the fate of the writes to come: a failed write delivers some
    bytes. *)
Record Stream := mkStream {
  st_in : bytes; st_end : option IoError; st_out : bytes; st_fate : list (option (nat * IoError))
}.
(** [read_exact]: [None] while it waits. *)
Definition read_exact (n : Z) (s : Stream) : option (Stream * result bytes IoError) :=
  if decide (n <= len (st_in s))
  then Some (mkStream (drop (Z.to_nat n) (st_in s)) (st_end s) (st_out s) (st_fate s), Ok (take (Z.to_nat n) (st_in s)))
  else match st_end s with
       | None => None
       | Some e => Some (mkStream [] (st_end s) (st_out s) (st_fate s), Err e)
       end.
Definition write_all (b : bytes) (s : Stream) : Stream * result unit IoError :=
  match st_fate s with
  | Some (k, e) :: rest => (mkStream (st_in s) (st_end s) (st_out s ++ take k b) rest, Err e)
  | None :: rest => (mkStream (st_in s) (st_end s) (st_out s ++ b) rest, Ok tt)
  | [] => (mkStream (st_in s) (st_end s) (st_out s ++ b) [], Ok tt)
  end.

(** ** The dispatch pool *)
Section Server.
Context `{!Crc32c} `{!RkyvCodec WireRequest, !RkyvCodec WireResponse} {St : Type}.
(** The dispatch closure; [None] is a panic of the worker. *)
Context (dispatch : Z -> WireRequest -> St -> option (St * WireResponse)).

(** The shared state and the workers left: one that panics is gone. *)
Record Pool := mkPool { pl_state : St; pl_workers : nat }.
Definition spawn_dispatch_workers (worker_count : Z) (s : St) : Pool := mkPool s (Z.to_nat (Z.max worker_count 1)).
Definition queue_depth (worker_count : Z) : Z := Z.max (Z.max worker_count 1 * 4) 8.
Definition dispatch_async (client_id : Z) (req : WireRequest) (p : Pool) : Pool * result WireResponse TcpServerError :=
  match pl_workers p with
  | O => (p, Err (SrvDecode (lit "dispatch pool sender closed")))
  | S w =>
      match dispatch client_id req (pl_state p) with
      | None => (mkPool (pl_state p) w, Err (SrvDecode (lit "dispatch worker dropped response")))
      | Some (s, resp) => (mkPool s (pl_workers p), Ok resp)
      end
  end.

(** ** A connection *)

(** How a turn of the loop ends: wait for bytes, turn again, return, or panic. *)
Inductive Turn := Waits | Again | Returns (r : result unit TcpServerError) | Panics.
(** A failed read or write ends the connection; a peer that left is no error. *)
Definition io_end (e : IoError) : Turn := if is_peer_disconnect e then Returns (Ok tt) else Returns (Err (SrvIo e)).

(** The response to one request. *)
Definition answer (conn_id : Z) (req : WireRequest) (p : Pool) (s : Stream) : Pool * Stream * Turn :=
  let (p, r) := dispatch_async conn_id req p in
  match r with
  | Err e => (p, s, Returns (Err e))
  | Ok response =>
      match encode_response response with
      | Err e => (p, s, Returns (Err (SrvEncode (lit "WireResponse: " ++ e))))
      | Ok resp_bytes =>
          match encode_envelope resp_bytes with
          | None => (p, s, Panics)
          | Some wire => let (s, r) := write_all wire s in
                         (p, s, match r with Ok _ => Again | Err e => io_end e end)
          end
      end
  end.
(** What the bytes of a frame are: a request, or the error that ends the
    connection. *)
Definition read_request (header : EnvelopeHeader) (body : bytes) : result WireRequest TcpServerError :=
  let? _ := map_err server_from_envelope (verify_envelope_crc header body) in
  map_err (fun e => SrvDecode (lit "WireRequest: " ++ e)) (decode_request body).
Definition frame_length (env_buf : bytes) : result EnvelopeHeader TcpServerError :=
  let? header := map_err server_from_envelope (decode_envelope_header env_buf) in
  if decide (MAX_FRAME_BYTES < env_len header)
  then Err (SrvDecode (lit "envelope body_len " ++ dec (env_len header) ++ lit " exceeds MAX_FRAME_BYTES " ++ dec MAX_FRAME_BYTES))
  else Ok header.

(** The reading part of the loop of [handle_compio_connection_bridge]: a request
    with what follows it, or how the turn ends.  A turn that waits leaves the
    stream as it was: it resumes when more has arrived. *)
Definition take_request (s : Stream) : (Stream * WireRequest) + (Stream * Turn) :=
  match read_exact WIRE_ENVELOPE_BYTES s with
  | None => inr (s, Waits)
  | Some (s1, Err e) => inr (s1, io_end e)
  | Some (s1, Ok env_buf) =>
      match frame_length env_buf with
      | Err e => inr (s1, Returns (Err e))
      | Ok header =>
          match read_exact (env_len header) s1 with
          | None => inr (s, Waits)
          | Some (s2, Err e) => inr (s2, io_end e)
          | Some (s2, Ok body) =>
              match read_request header body with
              | Err e => inr (s2, Returns (Err e))
              | Ok req => inl (s2, req)
              end
          end
      end
  end.
Definition connection_turn (conn_id : Z) (p : Pool) (s : Stream) : Pool * Stream * Turn :=
  match take_request s with
  | inl (s, req) => answer conn_id req p s
  | inr (s, t) => (p, s, t)
  end.
(** The loop; a turn takes a header, so the length of the input is fuel enough. *)
Fixpoint connection_loop (fuel : nat) (conn_id : Z) (p : Pool) (s : Stream) : Pool * Stream * Turn :=
  match fuel with
  | O => (p, s, Again)
  | S fuel =>
      let '(p, s, t) := connection_turn conn_id p s in
      match t with
      | Again => connection_loop fuel conn_id p s
      | _ => (p, s, t)
      end
  end.
Definition handle_connection (conn_id : Z) (p : Pool) (s : Stream) : Pool * Stream * Turn :=
  connection_loop (S (length (st_in s))) conn_id p s.
End Server.
Arguments Pool : clear implicits.

(** ** The client *)
Inductive TcpGetOutcome := TcpHit (payload : bytes) | TcpMiss.
Inductive TcpClientError := CliIo (e : IoError) | CliCodec (m : str) | CliStatus (code : Z) (message : str).
Definition tcp_client_error_display `{!Texts} (e : TcpClientError) : str :=
  match e with
  | CliIo e => lit "tcp client io: " ++ io_text e
  | CliCodec m => lit "tcp client codec: " ++ m
  | CliStatus code message => lit "tcp client server status code=" ++ dec code ++ lit " msg=" ++ str_debug message
  end.
Definition client_from_envelope (e : EnvelopeError) : TcpClientError := CliCodec (lit "envelope: " ++ envelope_error_display e).

(** The other end of a connection: writing, and reading, which may wait for ever
    ([None]). *)
Class Peer (P : Type) := {
  peer_write (b : bytes) (p : P) : P * result unit IoError;
  peer_read (n : Z) (p : P) : option (P * result bytes IoError)
}.

Section Client.
Context `{!Crc32c} `{!Texts} `{!RkyvCodec WireRequest, !RkyvCodec WireResponse} {P : Type} `{!Peer P}.
Context `{!RkyvCodec LookupBlockPrefixReq, !RkyvCodec LookupBlockPrefixResp, !RkyvCodec GetKvBlocksBatchReq,
          !RkyvCodec GetKvBlocksBatchResp, !RkyvCodec PutKvBlocksBatchReq, !RkyvCodec PutKvBlocksBatchResp}.
Record TcpKvClient := mkTcp { tc_stream : P; tc_next_id : Z }.

(** What a call yields: it waits for ever or panics ([None]), or returns. *)
Definition TcpCall (A : Type) : Type := TcpKvClient -> option (TcpKvClient * result A TcpClientError).

(** [connect_with_timeout]: the resolved addresses with the outcome of each
    attempt, and of [set_nodelay]. *)
Fixpoint connect_any (attempts : list (result P IoError * result unit IoError)) (last_err : option IoError)
  : result TcpKvClient TcpClientError :=
  match attempts with
  | [] => Err (CliIo (default (mkIo OtherKind (lit "connect failed")) last_err))
  | (Ok stream, nodelay) :: _ => match nodelay with Err e => Err (CliIo e) | Ok _ => Ok (mkTcp stream 1) end
  | (Err e, _) :: rest => connect_any rest (Some e)
  end.
Definition connect_with_timeout (resolved : result (list (result P IoError * result unit IoError)) IoError)
  : result TcpKvClient TcpClientError :=
  match resolved with
  | Err e => Err (CliIo e)
  | Ok [] => Err (CliIo (mkIo OtherKind (lit "no socket addresses resolved")))
  | Ok attempts => connect_any attempts None
  end.

(** The reading half of [roundtrip]. *)
Definition read_response (p : P) : option (P * result WireResponse TcpClientError) :=
  '(p, r) ← peer_read WIRE_ENVELOPE_BYTES p;
  match r with
  | Err e => Some (p, Err (CliIo e))
  | Ok env_buf =>
      match map_err client_from_envelope (decode_envelope_header env_buf) with
      | Err e => Some (p, Err e)
      | Ok header =>
          let n := env_len header in
          if decide (MAX_FRAME_BYTES < n)
          then Some (p, Err (CliCodec (lit "resp envelope.len " ++ dec n ++ lit " too large"))) else
          '(p, r) ← peer_read n p;
          Some (p, match r with
                   | Err e => Err (CliIo e)
                   | Ok body =>
                       let? _ := map_err client_from_envelope (verify_envelope_crc header body) in
                       map_err (fun e => CliCodec (lit "decode resp: " ++ e)) (decode_response body)
                   end)
      end
  end.
Definition exchange (req : WireRequest) (p : P) : option (P * result WireResponse TcpClientError) :=
  match encode_request req with
  | Err e => Some (p, Err (CliCodec (lit "encode req: " ++ e)))
  | Ok req_bytes =>
      wire ← encode_envelope req_bytes;
      let (p, r) := peer_write wire p in
      match r with
      | Err e => Some (p, Err (CliIo e))
      | Ok _ => read_response p
      end
  end.
(** [next_id], then [roundtrip]. *)
Definition roundtrip (req : Z -> WireRequest) : TcpCall WireResponse :=
  fun c => '(p, r) ← exchange (req (tc_next_id c)) (tc_stream c);
           Some (mkTcp p (wrap64 (tc_next_id c + 1)), r).
Definition on_response {A} (req : Z -> WireRequest) (f : WireResponse -> result A TcpClientError) : TcpCall A :=
  fun c => '(c, r) ← roundtrip req c; Some (c, let? resp := r in f resp).
Definition status_error {A} (resp : WireResponse) : result A TcpClientError := Err (CliStatus (rs_status resp) (rs_message resp)).
(** A block request that cannot be encoded is not sent. *)
Definition on_block_response {A} (encoded : result bytes WireCodecError) (req : bytes -> Z -> WireRequest)
    (f : WireResponse -> result A TcpClientError) : TcpCall A :=
  match encoded with
  | Err e => fun c => Some (c, Err (CliCodec (wire_error_display e)))
  | Ok payload => on_response (req payload) (fun resp => if decide (rs_status resp <> status.OK) then status_error resp else f resp)
  end.
Definition decoded_value {T A} (decoded : result T WireCodecError) (error : T -> option str) (value : T -> A)
  : result A TcpClientError :=
  let? d := map_err (fun e => CliCodec (wire_error_display e)) decoded in
  match error d with Some err => Err (CliStatus status.ERROR err) | None => Ok (value d) end.

Definition tcp_put_kv (ns key : str) (payload : bytes) : TcpCall unit :=
  on_response (fun id => mkReq id op.PUT ns key payload)
    (fun resp => if decide (rs_status resp = status.OK) then Ok tt else status_error resp).
Definition tcp_get_kv (ns key : str) : TcpCall TcpGetOutcome :=
  on_response (fun id => mkReq id op.GET ns key [])
    (fun resp => if decide (rs_status resp = status.OK) then Ok (TcpHit (rs_payload resp))
                 else if decide (rs_status resp = status.MISS) then Ok TcpMiss else status_error resp).
Definition tcp_ping : TcpCall unit :=
  on_response (fun id => mkReq id op.PING [] [] [])
    (fun resp => if decide (rs_status resp = status.OK) then Ok tt else status_error resp).
Definition tcp_lookup_block_prefix (ns : str) (hashes : list str) : TcpCall Z :=
  on_block_response (encode_lookup_block_prefix_req (mkLookupBlockPrefixReq ns hashes))
    (fun payload id => mkReq id op.LOOKUP_BLOCK_PREFIX ns [] payload)
    (fun resp => decoded_value (decode_lookup_block_prefix_resp (rs_payload resp)) lbp_error matched_count).
Definition tcp_get_kv_blocks_batch (ns : str) (hashes : list str) : TcpCall (option (list bytes)) :=
  on_block_response (encode_get_kv_blocks_batch_req (mkGetKvBlocksBatchReq ns hashes))
    (fun payload id => mkReq id op.GET_KV_BLOCKS_BATCH ns [] payload)
    (fun resp => decoded_value (decode_get_kv_blocks_batch_resp (rs_payload resp)) gbb_error gbb_payloads).
Definition tcp_put_kv_blocks_batch (ns : str) (hashes : list str) (payloads : list bytes) : TcpCall Z :=
  if decide (length hashes <> length payloads)
  then fun c => Some (c, Err (CliCodec (lit "put_kv_blocks_batch length mismatch: " ++ dec (len hashes) ++ lit " hashes vs "
                                        ++ dec (len payloads) ++ lit " payloads")))
  else on_block_response (encode_put_kv_blocks_batch_req (mkPutKvBlocksBatchReq ns hashes payloads))
         (fun payload id => mkReq id op.PUT_KV_BLOCKS_BATCH ns [] payload)
         (fun resp => decoded_value (decode_put_kv_blocks_batch_resp (rs_payload resp)) pbb_error total_bytes).
End Client.
Arguments TcpKvClient : clear implicits.

(** ** What a connection serves *)
Section Serves.
Context `{!Crc32c} `{!RkyvCodec WireRequest, !RkyvCodec WireResponse} {St : Type}.
Context (dispatch : Z -> WireRequest -> St -> option (St * WireResponse)) (conn_id : Z).

(** A frame, and when it holds a request. *)
Definition framed (body : bytes) : bytes :=
  envelope_header WIRE_ENVELOPE_VERSION (crc32c body) (len body) ++ body.
Definition request_frame (body : bytes) (req : WireRequest) : Prop :=
  len body <= MAX_FRAME_BYTES /\ decode_request body = Ok req.
(** The requests answered one after the other, until one cannot be. *)
Fixpoint serve_all (reqs : list WireRequest) (p : Pool St) (s : Stream) : Pool St * Stream * Turn :=
  match reqs with
  | [] => (p, s, Again)
  | req :: rest =>
      let '(p, s, t) := answer dispatch conn_id req p s in
      match t with Again => serve_all rest p s | _ => (p, s, t) end
  end.

Definition set_in (b : bytes) (s : Stream) : Stream := mkStream b (st_end s) (st_out s) (st_fate s).
Lemma answer_in req p s b :
  answer dispatch conn_id req p (set_in b s) =
  let '(p', s', t) := answer dispatch conn_id req p s in (p', set_in b s', t).
Proof.
  unfold answer. destruct (dispatch_async _ _ _ _) as [p' [resp|e]]; [|done].
  destruct (encode_response resp) as [rb|e]; [|done]. destruct (encode_envelope rb) as [w|]; [|done].
  unfold write_all. cbn [st_fate set_in]. by destruct (st_fate s) as [|[[k e]|] rest].
Qed.
Lemma answer_keeps_in req p s p' s' t : answer dispatch conn_id req p s = (p', s', t) -> st_in s' = st_in s.
Proof.
  unfold answer. destruct (dispatch_async _ _ _ _) as [p1 [resp|e]]; [|by intros [[_ <-]%pair_inj _]%pair_inj].
  destruct (encode_response resp) as [rb|e]; [|by intros [[_ <-]%pair_inj _]%pair_inj].
  destruct (encode_envelope rb) as [w|]; [|by intros [[_ <-]%pair_inj _]%pair_inj].
  unfold write_all. destruct (st_fate s) as [|[[k e]|] rest]; by intros [[_ <-]%pair_inj _]%pair_inj.
Qed.

Lemma len_framed body : len (framed body) = 16 + len body.
Proof. unfold framed. by rewrite len_app, len_envelope_header. Qed.
Lemma read_exact_app a b s :
  st_in s = a ++ b -> read_exact (len a) s = Some (set_in b s, Ok a).
Proof.
  intros E. unfold read_exact. rewrite E, decide_True by (rewrite len_app; pose proof (len_nonneg b); lia).
  unfold len. rewrite Nat2Z.id. by rewrite drop_app_length, take_app_length.
Qed.

(** A request is taken exactly when its frame is at the head of the input. *)
Lemma take_request_frame body req rest s :
  st_in s = framed body ++ rest -> request_frame body req -> take_request s = inl (set_in rest s, req).
Proof.
  intros E [Hl Hd]. unfold framed in E. rewrite <- app_assoc in E. unfold take_request.
  set (hd := envelope_header _ _ _) in E. assert (len hd = 16) as Hhd by apply len_envelope_header.
  change WIRE_ENVELOPE_BYTES with 16. rewrite <- Hhd, (read_exact_app _ _ _ E).
  pose proof (len_nonneg body) as Hn. unfold frame_length, hd.
  assert (in_u32 (len body)) as Hin by (unfold in_u32; change MAX_FRAME_BYTES with 268435456 in Hl; lia).
  rewrite decode_header_layout by (done || apply crc32c_range). cbn [map_err]. run_res. cbn [env_len].
  rewrite decide_False by lia. rewrite (read_exact_app body rest) by done.
  unfold read_request, verify_envelope_crc. cbn [env_len crc]. rewrite !decide_False by (intros Hx; by apply Hx).
  cbn [map_err]. run_res. by rewrite Hd.
Qed.

Lemma read_exact_Ok n s s' b :
  0 <= n -> read_exact n s = Some (s', Ok b) -> len b = n /\ st_in s = b ++ st_in s' /\ s' = set_in (st_in s') s.
Proof.
  intros Hn. unfold read_exact. case_decide.
  - intros [<- <-%Ok_inj]%Some_pair_inj. cbn [st_in]. rewrite take_drop. split; [|done].
    unfold len in *. rewrite length_take. lia.
  - destruct (st_end s); [|done]. by intros [_ ?%Err_Ok]%Some_pair_inj.
Qed.
Lemma read_exact_Err n s s' e : read_exact n s = Some (s', Err e) -> st_out s' = st_out s.
Proof.
  unfold read_exact. case_decide; [by intros [_ ?]%Some_pair_inj|]. destruct (st_end s); [|done]. by intros [<- _]%Some_pair_inj.
Qed.
Lemma io_end_not_again e : io_end e <> Again.
Proof. unfold io_end. by destruct (is_peer_disconnect e). Qed.

Lemma take_request_sound s :
  match take_request s with
  | inl (s', req) => exists body, st_in s = framed body ++ st_in s' /\ request_frame body req /\ s' = set_in (st_in s') s
  | inr (s', t) => t <> Again /\ st_out s' = st_out s
  end.
Proof.
  unfold take_request. destruct (read_exact WIRE_ENVELOPE_BYTES s) as [[s1 [hd|e]]|] eqn:E1; [| |done].
  2: { split; [apply io_end_not_again|by eapply read_exact_Err]. }
  destruct (read_exact_Ok WIRE_ENVELOPE_BYTES s s1 hd ltac:(done) E1) as (Hl & Ein & Es1). assert (st_out s1 = st_out s) as Eo by (by rewrite Es1).
  unfold frame_length. destruct (decode_envelope_header hd) as [h|e] eqn:Eh; cbn [map_err]; run_res; [|done].
  case_decide as Hmax; [done|]. destruct (decode_header_sound hd h Hl Eh) as (_ & Hu & Ehd).
  destruct (read_exact (env_len h) s1) as [[s2 [body|e]]|] eqn:E2; [| |done].
  2: { split; [apply io_end_not_again|]. rewrite <- Eo. by eapply read_exact_Err. }
  destruct (read_exact_Ok _ _ _ _ (proj1 Hu) E2) as (Hlb & Ein2 & Es2). assert (st_out s2 = st_out s) as Eo2 by (by rewrite Es2).
  unfold read_request. destruct (verify_envelope_crc h body) as [[]|e] eqn:Ev; cbn [map_err]; run_res; [|done].
  destruct (decode_request body) as [req|e] eqn:Ed; cbn [map_err]; [|done].
  exists body. revert Ev. unfold verify_envelope_crc. case_decide as Hlen; [by intros ?|]. case_decide as Hcrc; [by intros ?|].
  intros _. assert (crc32c body = crc h) as Ecrc by lia. split; [|split; [split; [lia|done]|]].
  - unfold framed. by rewrite Hlb, Ecrc, <- Ehd, <- app_assoc, <- Ein2.
  - by rewrite Es2, Es1.
Qed.

Lemma serve_all_in reqs p s b :
  serve_all reqs p (set_in b s) = let '(p', s', t) := serve_all reqs p s in (p', set_in b s', t).
Proof.
  revert p s. induction reqs as [|r reqs IH]; intros p s; cbn [serve_all]; [done|]. rewrite answer_in.
  destruct (answer _ _ _ _ _) as [[p1 s1] []]; [done|apply IH|done|done].
Qed.

Lemma loop_serves fuel p s :
  (length (st_in s) < fuel)%nat ->
  let '(p', s', t) := connection_loop dispatch fuel conn_id p s in
  t <> Again /\
  exists bodies reqs rest, st_in s = concat (map framed bodies) ++ rest /\ Forall2 request_frame bodies reqs /\
    exists s1 t1, serve_all reqs p s = (p', s1, t1) /\ st_out s' = st_out s1 /\
      (t1 = t \/
       t1 = Again /\ forall body req rest', rest = framed body ++ rest' -> ~ request_frame body req).
Proof.
  revert p s. induction fuel as [|fuel IH]; intros p s Hf; [lia|]. cbn [connection_loop]. unfold connection_turn.
  pose proof (take_request_sound s) as Ht. destruct (take_request s) as [[s0 req]|[s0 t]] eqn:Etake.
  - destruct Ht as (body & E & Hreq & ->). cbn [st_in set_in] in *. set (rest := st_in s0) in *. rewrite answer_in.
    destruct (answer dispatch conn_id req p s) as [[p1 s1] t1] eqn:Ea.
    assert (forall t, t1 = t -> t <> Again -> t <> Again /\
      exists bodies reqs rest', st_in s = concat (map framed bodies) ++ rest' /\ Forall2 request_frame bodies reqs /\
      exists s2 t2, serve_all reqs p s = (p1, s2, t2) /\ st_out (set_in rest s1) = st_out s2 /\
        (t2 = t \/ t2 = Again /\ forall body req rest0, rest' = framed body ++ rest0 -> ~ request_frame body req)) as Hone.
    { intros t <- Hne. split; [done|]. exists [body], [req], rest. cbn [map concat serve_all]. rewrite app_nil_r, Ea.
      split; [done|]. split; [constructor; [done|constructor]|]. exists s1, t1. split; [by destruct t1|]. split; [done|by left]. }
    destruct t1; [by apply Hone| |by apply Hone..].
    specialize (IH p1 (set_in rest s1)). cbn [st_in set_in] in IH.
    pose proof (len_framed body) as Hlb. pose proof (len_nonneg body).
    destruct (connection_loop _ _ _ _ _) as [[p2 s2] t2].
    destruct IH as (Hne & bodies & reqs & rest' & E2 & HF & s3 & t3 & Es & Eo & Hend).
    { rewrite E, length_app in Hf. unfold len in *. lia. }
    split; [done|]. exists (body :: bodies), (req :: reqs), rest'. cbn [map concat]. rewrite E, E2, app_assoc.
    split; [done|]. split; [by constructor|]. cbn [serve_all]. rewrite Ea. rewrite serve_all_in in Es.
    destruct (serve_all reqs p1 s1) as [[p4 s4] t4]. injection Es as <- <- <-. by exists s4, t4.
  - destruct Ht as [Hne Ho]. destruct t; try done; (split; [done|]); exists [], [], (st_in s); cbn [map concat serve_all app];
      (split; [done|]); (split; [constructor|]); eexists _, _; (split; [reflexivity|]); (split; [done|]); right;
      (split; [done|]); intros body req rest' E Hreq; by rewrite (take_request_frame body req rest' s E Hreq) in Etake.
Qed.

(** Whatever bytes arrive, the connection serves exactly the requests whose
    frames make up the head of the input: they are dispatched in order, each
    answered before the next is looked at, until one of them cannot be answered
    or what follows starts with no request's frame.  Nothing else reaches the
    dispatcher, and the loop stops. *)
Theorem connection_serves_frames p s :
  let '(p', s', t) := handle_connection dispatch conn_id p s in
  t <> Again /\
  exists bodies reqs rest, st_in s = concat (map framed bodies) ++ rest /\ Forall2 request_frame bodies reqs /\
    exists s1 t1, serve_all reqs p s = (p', s1, t1) /\ st_out s' = st_out s1 /\
      (t1 = t \/
       t1 = Again /\ forall body req rest', rest = framed body ++ rest' -> ~ request_frame body req).
Proof. apply loop_serves. lia. Qed.
End Serves.

(** ** A client and a server on one connection *)
Section Session.
Context `{!Crc32c} `{!RkyvCodec WireRequest, !RkyvCodec WireResponse, !RkyvCodecLaws WireRequest, !RkyvCodecLaws WireResponse}.
Context {St : Type} (dispatch : Z -> WireRequest -> St -> option (St * WireResponse)) (conn_id : Z).

(** The server's end of the connection: what it has not read, and what the client
    has not; it runs whenever bytes arrive, and is over when its loop returned. *)
Record Session := mkSession { se_pool : Pool St; se_stream : Stream; se_over : bool }.
Definition session_write (b : bytes) (se : Session) : Session * result unit IoError :=
  if se_over se then (se, Err (mkIo BrokenPipe (lit "broken pipe"))) else
  let s := se_stream se in
  let '(p, s, t) := handle_connection dispatch conn_id (se_pool se) (set_in (st_in s ++ b) s) in
  (mkSession p s (match t with Waits => false | _ => true end), Ok tt).
Definition session_read (n : Z) (se : Session) : option (Session * result bytes IoError) :=
  let s := se_stream se in
  if decide (n <= len (st_out s))
  then Some (mkSession (se_pool se) (mkStream (st_in s) (st_end s) (drop (Z.to_nat n) (st_out s)) (st_fate s)) (se_over se),
             Ok (take (Z.to_nat n) (st_out s)))
  else if se_over se then Some (se, Err (mkIo UnexpectedEof (lit "failed to fill whole buffer"))) else None.
#[export] Instance session_peer : Peer Session := {| peer_write := session_write; peer_read := session_read |}.

(** An open connection with nothing on the way, and a pool with workers. *)
Definition quiet_stream : Stream := mkStream [] None [] [].
Definition in_step (w : nat) (s : St) (se : Session) : Prop := se = mkSession (mkPool s (S w)) quiet_stream false.
(** Messages within the frame limit. *)
Definition request_fits (req : WireRequest) : Prop :=
  exists b, encode_request req = Ok b /\ len b <= MAX_FRAME_BYTES.
Definition response_fits (resp : WireResponse) : Prop :=
  exists b, encode_response resp = Ok b /\ len b <= MAX_FRAME_BYTES.

Lemma encode_envelope_framed b : len b <= MAX_FRAME_BYTES -> encode_envelope b = Some (framed b).
Proof.
  intros Hb. rewrite encode_envelope_eq. rewrite decide_True; [done|]. change MAX_FRAME_BYTES with 268435456 in Hb. lia.
Qed.

(** The server answers one frame and waits. *)
Lemma serve_one req b w s s' resp rb :
  encode_request req = Ok b -> len b <= MAX_FRAME_BYTES -> dispatch conn_id req s = Some (s', resp) ->
  encode_response resp = Ok rb -> len rb <= MAX_FRAME_BYTES ->
  handle_connection dispatch conn_id (mkPool s (S w)) (set_in (framed b) quiet_stream)
  = (mkPool s' (S w), mkStream [] None (framed rb) [], Waits).
Proof.
  intros Eb Hb Ed Er Hr. unfold handle_connection. cbn [set_in st_in].
  assert (exists n, length (framed b) = S n) as [n ->].
  { pose proof (len_framed b) as Hl. pose proof (len_nonneg b). unfold len in *. exists (length (framed b) - 1)%nat. lia. }
  assert (request_frame b req) as Hreq by (split; [done|]; by apply rkyv_roundtrip).
  cbn [connection_loop]. unfold connection_turn at 1.
  rewrite (take_request_frame b req []); [|by rewrite app_nil_r|done].
  unfold answer, dispatch_async. cbn [pl_workers pl_state]. rewrite Ed, Er, (encode_envelope_framed rb Hr).
  unfold write_all. cbn [set_in st_fate quiet_stream st_in st_end st_out app]. reflexivity.
Qed.

(** The client reads back one frame. *)
Lemma session_read_app n a b p i e f over :
  n = len a -> session_read n (mkSession p (mkStream i e (a ++ b) f) over) = Some (mkSession p (mkStream i e b f) over, Ok a).
Proof.
  intros ->. unfold session_read. cbn [se_stream st_out st_in st_end st_fate se_pool se_over].
  rewrite decide_True by (rewrite len_app; pose proof (len_nonneg b); lia).
  unfold len. rewrite Nat2Z.id. by rewrite drop_app_length, take_app_length.
Qed.
Lemma read_framed rb resp p over :
  encode_response resp = Ok rb -> len rb <= MAX_FRAME_BYTES ->
  read_response (mkSession p (mkStream [] None (framed rb) []) over)
  = Some (mkSession p quiet_stream over, Ok resp).
Proof.
  intros Er Hr. unfold read_response. cbn [peer_read session_peer]. unfold framed.
  rewrite session_read_app by (by rewrite len_envelope_header). cbn [mbind option_bind].
  assert (in_u32 (len rb)) as Hin by (unfold in_u32; change MAX_FRAME_BYTES with 268435456 in Hr; pose proof (len_nonneg rb); lia).
  rewrite decode_header_layout by (done || apply crc32c_range). cbn [map_err env_len].
  rewrite decide_False by lia.
  pose proof (session_read_app (len rb) rb [] p [] None [] over eq_refl) as Hread. rewrite app_nil_r in Hread.
  rewrite Hread. cbn [mbind option_bind].
  unfold verify_envelope_crc. cbn [env_len crc]. rewrite !decide_False by (intros Hx; by apply Hx).
  cbn [map_err]. run_res. by rewrite (encoded_response resp rb Er).
Qed.

Lemma exchange_in_step req w s s' resp se :
  in_step w s se -> request_fits req -> dispatch conn_id req s = Some (s', resp) -> response_fits resp ->
  exists se', exchange req se = Some (se', Ok resp) /\ in_step w s' se'.
Proof.
  intros -> (b & Eb & Hb) Ed (rb & Er & Hr). eexists. split; [|reflexivity].
  unfold exchange. rewrite Eb, (encode_envelope_framed b Hb). cbn [mbind option_bind peer_write session_peer].
  unfold session_write. cbn [se_over se_stream se_pool st_in quiet_stream app].
  rewrite (serve_one req b w s s' resp rb) by done. by apply read_framed.
Qed.

(** A conversation, and what it should be: each request dispatched in turn. *)
Fixpoint talk (reqs : list WireRequest) (se : Session) : option (Session * list (result WireResponse TcpClientError)) :=
  match reqs with
  | [] => Some (se, [])
  | req :: rest => '(se, r) ← exchange req se; '(se, rs) ← talk rest se; Some (se, r :: rs)
  end.
Fixpoint dispatched (reqs : list WireRequest) (s : St) : option (St * list WireResponse) :=
  match reqs with
  | [] => Some (s, [])
  | req :: rest => '(s, resp) ← dispatch conn_id req s; '(s, resps) ← dispatched rest s; Some (s, resp :: resps)
  end.

(** The transport is transparent: on a working connection a client that sends
    requests one after the other gets the responses the dispatcher gives to them
    in that order, as long as the messages fit a frame; neither side waits for
    ever or falls out of step. *)
Theorem tcp_transparent reqs w s s' resps se :
  in_step w s se -> Forall request_fits reqs -> dispatched reqs s = Some (s', resps) -> Forall response_fits resps ->
  exists se', talk reqs se = Some (se', map Ok resps) /\ in_step w s' se'.
Proof.
  intros Hse Hreqs. revert s resps se Hse. induction Hreqs as [|req reqs Hreq _ IH]; intros s resps se Hse; cbn [dispatched talk].
  { intros [<- <-]%Some_pair_inj _. by exists se. }
  destruct (dispatch conn_id req s) as [[s1 resp]|] eqn:Ed; cbn [mbind option_bind]; [|done].
  destruct (dispatched reqs s1) as [[s2 resps2]|] eqn:Er; cbn [mbind option_bind]; [|done].
  intros [<- <-]%Some_pair_inj [Hresp Hresps]%Forall_cons.
  destruct (exchange_in_step req w s s1 resp se Hse Hreq Ed Hresp) as (se1 & -> & Hse1). cbn [mbind option_bind].
  destruct (IH s1 resps2 se1 Hse1 Er Hresps) as (se2 & -> & Hse2). by exists se2.
Qed.

(** Every request that panics takes a worker with it; once they are gone the
    pool, which all connections share, answers nobody. *)
Lemma panics_exhaust_pool req w s :
  (forall s, dispatch conn_id req s = None) ->
  let p := Nat.iter w (fun p => fst (dispatch_async dispatch conn_id req p)) (mkPool s w) in
  forall id req', dispatch_async dispatch id req' p = (p, Err (SrvDecode (lit "dispatch pool sender closed"))).
Proof.
  intros Hd. assert (forall n k, Nat.iter n (fun p => fst (dispatch_async dispatch conn_id req p)) (mkPool s (n + k)) = mkPool s k) as Hi.
  { intros n. induction n as [|n IH]; intros k; [done|]. rewrite Nat.iter_succ. replace (S n + k)%nat with (n + S k)%nat by lia.
    rewrite IH. unfold dispatch_async. cbn [pl_workers pl_state]. by rewrite Hd. }
  intros p id req'. unfold p. specialize (Hi w 0%nat). rewrite Nat.add_0_r in Hi. rewrite Hi. reflexivity.
Qed.
End Session.

(** A dispatcher that counts the requests and answers each with its payload. *)
Definition echo (conn_id : Z) (req : WireRequest) (seen : nat) : option (nat * WireResponse) :=
  Some (S seen, mkResp (rq_id req) status.OK (rq_op req) (rq_payload req) []).
Definition ping_and_put : list WireRequest :=
  [mkReq 1 op.PING [] [] []; mkReq 2 op.PUT (lit "ns") (lit "k") (lit "payload")].
Lemma tcp_transparent_witness :
  let H := sum_crc in let H0 := countable_codec in let H1 := countable_codec in
  exists se' : Session,
    @talk H H0 H1 nat echo 7 ping_and_put (mkSession (mkPool 0%nat 2) quiet_stream false)
    = Some (se', [Ok (mkResp 1 status.OK op.PING [] []); Ok (mkResp 2 status.OK op.PUT (lit "payload") [])]) /\
    in_step 1 2%nat se'.
Proof.
  intros H H0 H1.
  apply (@tcp_transparent H H0 H1 countable_codec_laws countable_codec_laws nat echo 7 ping_and_put 1 0%nat 2%nat
           [mkResp 1 status.OK op.PING [] []; mkResp 2 status.OK op.PUT (lit "payload") []]).
  - reflexivity.
  - constructor; [|constructor; [|constructor]]; (eexists; split; [reflexivity|]); vm_compute; discriminate.
  - reflexivity.
  - constructor; [|constructor; [|constructor]]; (eexists; split; [reflexivity|]); vm_compute; discriminate.
Defined.
