(* ===== verification/Http.v ===== *)
(** * The HTTP transport ([http_transport.rs])

    Models [crates/wombatkv-daemon/src/http_transport.rs]: the connection handler
    of the server with its accumulator, the parsing of request and response heads,
    and the client.  Reads return what the network has delivered, in the pieces it
    delivered it; each loop that reads until it has enough is [fill].  Accepting
    connections, the runtimes and the shards are not modelled.

    [HttpSpec] relates the handler to a reference that sees the input as one
    piece. *)

From S2P Require Import Prelude Order Text Strings Hex Envelope Wire Rpc Tcp.

Definition RPC_PATH : str := lit "/wmbt/v1/rpc".
Definition PING_PATH : str := lit "/wmbt/v1/ping".
Definition CONTENT_TYPE : str := lit "application/x-wombatkv-rkyv".
Definition MAX_BODY_BYTES : Z := 256 * 1024 * 1024.
Definition MAX_HEAD_BYTES : Z := 16 * 1024.
Definition CRLF : str := [CR; LF].

Inductive HttpServerError := HIo (e : IoError) | HBadRequest (m : str) | HDecode (m : str) | HEncode (m : str).
Definition http_server_error_display (e : HttpServerError) : str :=
  match e with
  | HIo e => lit "http io: " ++ io_text e
  | HBadRequest m => lit "http bad request: " ++ m
  | HDecode m => lit "http decode: " ++ m
  | HEncode m => lit "http encode: " ++ m
  end.

(** ** Text *)

(** [s.split("\r\n")] *)
Fixpoint split_crlf (s : str) : list str :=
  match s with
  | [] => [[]]
  | a :: s1 =>
      let more := match split_crlf s1 with p :: ps => (a :: p) :: ps | [] => [[a]] end in
      match s1 with
      | b :: s2 => if decide (a = CR /\ b = LF) then [] :: split_crlf s2 else more
      | [] => more
      end
  end.
(** The text of the [ParseIntError] of a failed parse: the digits are read one
    after the other, a bad one before an overflow at it. *)
Fixpoint digits_error (max acc : Z) (s : str) : str :=
  match s with
  | [] => []
  | c :: s' =>
      if is_ascii_digit c then
        let acc' := acc * 10 + (byte_to_Z c - 48) in
        if decide (acc' <= max) then digits_error max acc' s' else lit "number too large to fit in target type"
      else lit "invalid digit found in string"
  end.
Definition parse_int_error (max : Z) (s : str) : str :=
  match s with
  | [] => lit "cannot parse integer from empty string"
  | [c] => if is_ascii_digit c then [] else lit "invalid digit found in string"
  | c :: s' => if decide (c = "+"%byte) then digits_error max 0 s' else digits_error max 0 s
  end.
(** [s.trim_end_matches(['\r', '\n'])] *)
Fixpoint drop_eol (rev : str) : str :=
  match rev with
  | c :: s => if decide (c = CR \/ c = LF) then drop_eol s else rev
  | [] => []
  end.
Definition trim_eol (s : str) : str := reverse (drop_eol (reverse s)).

(** [String::from_utf8_lossy]: a maximal prefix of a sequence that is not
    completed becomes one replacement character. *)
Definition REPLACEMENT : str := [xef; xbf; xbd].
Definition is_cont (b : byte) : bool := between 128 191 b.
Definition second3 (a b : byte) : bool :=
  if byte_is 224 a then between 160 191 b else if byte_is 237 a then between 128 159 b else is_cont b.
Definition second4 (a b : byte) : bool :=
  if byte_is 240 a then between 144 191 b else if byte_is 244 a then between 128 143 b else is_cont b.
Fixpoint from_utf8_lossy (s : bytes) : str :=
  match s with
  | [] => []
  | a :: s1 =>
      if between 0 127 a then a :: from_utf8_lossy s1
      else if between 194 223 a then
        match s1 with
        | b :: s2 => if is_cont b then a :: b :: from_utf8_lossy s2 else REPLACEMENT ++ from_utf8_lossy s1
        | [] => REPLACEMENT
        end
      else if between 224 239 a then
        match s1 with
        | b :: s2 =>
            if second3 a b then
              match s2 with
              | c :: s3 => if is_cont c then a :: b :: c :: from_utf8_lossy s3 else REPLACEMENT ++ from_utf8_lossy s2
              | [] => REPLACEMENT
              end
            else REPLACEMENT ++ from_utf8_lossy s1
        | [] => REPLACEMENT
        end
      else if between 240 244 a then
        match s1 with
        | b :: s2 =>
            if second4 a b then
              match s2 with
              | c :: s3 =>
                  if is_cont c then
                    match s3 with
                    | d :: s4 => if is_cont d then a :: b :: c :: d :: from_utf8_lossy s4 else REPLACEMENT ++ from_utf8_lossy s3
                    | [] => REPLACEMENT
                    end
                  else REPLACEMENT ++ from_utf8_lossy s2
              | [] => REPLACEMENT
              end
            else REPLACEMENT ++ from_utf8_lossy s1
        | [] => REPLACEMENT
        end
      else REPLACEMENT ++ from_utf8_lossy s1
  end.

(** ** Reading what the network delivers *)

(** The pieces on their way, and what comes after them: nothing yet, the end of
    the stream, or an error. *)
Inductive Ending := Closed | Failed (e : IoError).
Record Inbox := mkInbox { ib_pieces : list bytes; ib_end : option Ending }.
Definition arrived (ib : Inbox) : bytes := concat (ib_pieces ib).
(** [read] into a buffer of [n] bytes: [None] while nothing has arrived; no bytes
    at the end of the stream. *)
Fixpoint next_piece (n : nat) (pieces : list bytes) : option (bytes * list bytes) :=
  match pieces with
  | [] => None
  | [] :: rest => next_piece n rest
  | piece :: rest => Some (take n piece, drop n piece :: rest)
  end.
Definition read (n : Z) (ib : Inbox) : option (Inbox * result bytes IoError) :=
  match next_piece (Z.to_nat n) (ib_pieces ib) with
  | Some (b, rest) => Some (mkInbox rest (ib_end ib), Ok b)
  | None => match ib_end ib with
            | None => None
            | Some Closed => Some (mkInbox [] (ib_end ib), Ok [])
            | Some (Failed e) => Some (mkInbox [] (ib_end ib), Err e)
            end
  end.

(** Read until the buffer is enough: [step] says with what the loop is done, or
    how much the next read asks for.  The loop waits ([None]), is done, or meets
    the end of the stream or an error. *)
Section Fill.
Context {A : Type} (step : bytes -> A + Z).
Fixpoint fill_from (fuel : nat) (buf : bytes) (ib : Inbox) : option (bytes * Inbox * (A + Ending)) :=
  match step buf with
  | inl a => Some (buf, ib, inl a)
  | inr n =>
      match fuel with
      | O => None
      | S fuel =>
          '(ib, r) ← read n ib;
          match r with
          | Err e => Some (buf, ib, inr (Failed e))
          | Ok [] => Some (buf, ib, inr Closed)
          | Ok chunk => fill_from fuel (buf ++ chunk) ib
          end
      end
  end.
(** A read that goes on takes a byte at least. *)
Definition fill (buf : bytes) (ib : Inbox) : option (bytes * Inbox * (A + Ending)) :=
  fill_from (S (length (arrived ib))) buf ib.
End Fill.

(** What was written, and the fate of the writes to come. *)
Record Sink := mkSink { sk_out : bytes; sk_fate : list (option (nat * IoError)) }.
Definition send (b : bytes) (k : Sink) : Sink * result unit IoError :=
  match sk_fate k with
  | Some (n, e) :: rest => (mkSink (sk_out k ++ take n b) rest, Err e)
  | None :: rest => (mkSink (sk_out k ++ b) rest, Ok tt)
  | [] => (mkSink (sk_out k ++ b) [], Ok tt)
  end.

(** ** Heads *)
Definition find_double_crlf_here (s : bytes) : bool := bool_decide (take 4 s = CRLF ++ CRLF).
Fixpoint find_double_crlf (buf : bytes) : option Z :=
  match buf with
  | [] => None
  | _ :: rest => if find_double_crlf_here buf then Some 0 else Z.succ <$> find_double_crlf rest
  end.

Record RequestHead := mkHead { hd_method : str; hd_path : str; hd_content_length : option Z; hd_keep_alive : bool }.
Section Heads.
Context `{!Texts}.
(** One header line, as both the server and the client read it: [err] is the
    error a text becomes and [what] the start of the message on a line with no
    colon. *)
Definition header_line {E} (err : str -> E) (what : str) (line : str) (h : option Z * option str)
  : result (option Z * option str) E :=
  match split_once ":"%byte line with
  | None => Err (err (what ++ str_debug line))
  | Some (name, value) =>
      let name := to_ascii_lowercase (trim name) in
      let value := trim value in
      if decide (name = lit "content-length") then
        match parse_u64 value with
        | Some n => Ok (Some n, h.2)
        | None => Err (err (lit "bad Content-Length " ++ str_debug value ++ lit ": " ++ parse_int_error u64_max value))
        end
      else if decide (name = lit "connection") then Ok (h.1, Some (to_ascii_lowercase value))
      else Ok h
  end.
Definition keep_alive_of (connection : option str) (http_version : str) : bool :=
  if decide (connection = Some (lit "close")) then false
  else if decide (connection = Some (lit "keep-alive")) then true
  else eq_ignore_ascii_case http_version (lit "HTTP/1.1").

Fixpoint header_lines (lines : list str) (h : option Z * option str) : result (option Z * option str) HttpServerError :=
  match lines with
  | [] => Ok h
  | [] :: rest => header_lines rest h
  | line :: rest => let? h := header_line HBadRequest (lit "malformed header: ") line h in header_lines rest h
  end.
Definition parse_http_head_from_buf (head_bytes : bytes) : result RequestHead HttpServerError :=
  if negb (utf8_valid head_bytes)
  then Err (HBadRequest (lit "head not utf-8: " ++ utf8_error_text head_bytes)) else
  match split_crlf head_bytes with
  | [] => Err (HBadRequest (lit "missing request line"))
  | request_line :: lines =>
      match split_whitespace request_line with
      | method :: path :: http_version :: _ =>
          let? h := header_lines lines (None, None) in
          Ok (mkHead method path h.1 (keep_alive_of h.2 http_version))
      | _ => Err (HBadRequest (lit "malformed request line: " ++ str_debug request_line))
      end
  end.
End Heads.

Definition response_head (status : Z) (reason content_type : str) (body_len : Z) (keep_alive : bool) : str :=
  lit "HTTP/1.1 " ++ dec status ++ lit " " ++ reason ++ CRLF
  ++ lit "Content-Type: " ++ content_type ++ CRLF
  ++ lit "Content-Length: " ++ dec body_len ++ CRLF
  ++ lit "Connection: " ++ (if keep_alive then lit "keep-alive" else lit "close") ++ CRLF ++ CRLF.
Definition write_compio_response (status : Z) (reason content_type : str) (body : bytes) (keep_alive : bool) (k : Sink)
  : Sink * result unit HttpServerError :=
  let (k, r) := send (response_head status reason content_type (len body) keep_alive) k in
  match r with
  | Err e => (k, Err (HIo e))
  | Ok _ => match body with
            | [] => (k, Ok tt)
            | _ => let (k, r) := send body k in (k, map_err HIo r)
            end
  end.

(** ** The server *)
Section Server.
Context `{!Crc32c} `{!Texts} `{!RkyvCodec WireRequest, !RkyvCodec WireResponse} {St : Type}.
Context (dispatch : Z -> WireRequest -> St -> option (St * WireResponse)).

(** [CompioRouteOutcome], with the ways a turn can also end: waiting for bytes, or
    a panic. *)
Inductive RouteOutcome := ContinueKeepAlive | CloseConnection | RouteError (e : HttpServerError) | RouteWaits | RoutePanics.
Record Conn := mkConn { cn_buf : bytes; cn_inbox : Inbox; cn_sink : Sink }.

Definition read_compio_until_double_crlf : bytes -> Inbox -> option (bytes * Inbox * (result Z HttpServerError + Ending)) :=
  fill (fun buf =>
    match find_double_crlf buf with
    | Some pos => inl (Ok (pos + 4))
    | None => if decide (MAX_HEAD_BYTES < len buf)
              then inl (Err (HBadRequest (lit "header section exceeds " ++ dec MAX_HEAD_BYTES ++ lit " bytes")))
              else inr 4096
    end).
Definition head_ending (e : Ending) : RouteOutcome :=
  let e := match e with Closed => mkIo UnexpectedEof (lit "peer closed before head terminator") | Failed e => e end in
  if is_peer_disconnect e then CloseConnection else RouteError (HIo e).
Definition read_body (n : Z) : bytes -> Inbox -> option (bytes * Inbox * (unit + Ending)) :=
  fill (fun buf => if decide (len buf < n) then inr (Z.min (n - len buf) 4096) else inl tt).
Definition body_ending (e : Ending) : RouteOutcome :=
  match e with
  | Closed => RouteError (HIo (mkIo UnexpectedEof (lit "peer closed mid-body")))
  | Failed e => if is_peer_disconnect e then CloseConnection else RouteError (HIo e)
  end.

(** What follows a written response. *)
Definition responded (keep_alive : bool) (r : result unit HttpServerError) : RouteOutcome :=
  match r with
  | Err e => RouteError e
  | Ok _ => if keep_alive then ContinueKeepAlive else CloseConnection
  end.
(** The body is a request, which is dispatched and answered. *)
Definition http_answer (conn_id : Z) (keep_alive : bool) (body : bytes) (p : Pool St) (k : Sink)
  : Pool St * Sink * RouteOutcome :=
  match decode_envelope body with
  | Err e => (p, k, RouteError (HDecode (lit "envelope: " ++ envelope_error_display e)))
  | Ok req_bytes =>
      match decode_request req_bytes with
      | Err e => (p, k, RouteError (HDecode (lit "WireRequest: " ++ e)))
      | Ok req =>
          let (p, r) := dispatch_async dispatch conn_id req p in
          match r with
          | Err e => (p, k, RouteError (HDecode (lit "dispatch_async: " ++ tcp_server_error_display e)))
          | Ok response =>
              match encode_response response with
              | Err e => (p, k, RouteError (HEncode (lit "WireResponse: " ++ e)))
              | Ok resp_bytes =>
                  match encode_envelope resp_bytes with
                  | None => (p, k, RoutePanics)
                  | Some wire =>
                      let (k, r) := write_compio_response 200 (lit "OK") CONTENT_TYPE wire keep_alive k in
                      (p, k, responded keep_alive r)
                  end
              end
          end
      end
  end.

(** The replies that need no body: a ping, an unknown route, and a length that is
    missing or too great.  [Ok] is the length of the body to read.  (The buffer is
    the connection's own: what is left in it when the connection closes is lost.) *)
Definition route (h : RequestHead) : result Z (Sink -> Sink * RouteOutcome) :=
  let reply status reason body keep (then_ : result unit HttpServerError -> RouteOutcome) : Sink -> Sink * RouteOutcome :=
    fun k => let (k, r) := write_compio_response status reason (lit "text/plain") body keep k in (k, then_ r) in
  if decide (hd_method h = lit "GET" /\ hd_path h = PING_PATH)
  then Err (reply 200 (lit "OK") [] (hd_keep_alive h) (responded (hd_keep_alive h)))
  else if decide (~ (hd_method h = lit "POST" /\ hd_path h = RPC_PATH))
  then Err (reply 404 (lit "Not Found") (lit "unknown route") (hd_keep_alive h) (responded (hd_keep_alive h)))
  else match hd_content_length h with
       | None => Err (reply 411 (lit "Length Required") (lit "missing Content-Length") false (fun _ => CloseConnection))
       | Some n =>
           if decide (MAX_BODY_BYTES < n)
           then Err (reply 413 (lit "Payload Too Large")
                       (lit "body " ++ dec n ++ lit " > MAX_BODY_BYTES " ++ dec MAX_BODY_BYTES) false (fun _ => CloseConnection))
           else Ok n
       end.
Definition process_compio_http_route (conn_id : Z) (h : RequestHead) (body_start : Z) (p : Pool St) (c : Conn)
  : Pool St * Conn * RouteOutcome :=
  let buf := drop (Z.to_nat body_start) (cn_buf c) in
  match route h with
  | Err reply => let (k, out) := reply (cn_sink c) in (p, mkConn buf (cn_inbox c) k, out)
  | Ok n =>
      match read_body n buf (cn_inbox c) with
      | None => (p, c, RouteWaits)
      | Some (buf, ib, inr e) => (p, mkConn buf ib (cn_sink c), body_ending e)
      | Some (buf, ib, inl _) =>
          let '(p, k, out) := http_answer conn_id (hd_keep_alive h) (take (Z.to_nat n) buf) p (cn_sink c) in
          (p, mkConn (drop (Z.to_nat n) buf) ib k, out)
      end
  end.

(** One turn of the loop of [handle_compio_http_connection_bridge]; a turn that
    waits leaves the connection as it was and resumes when more has arrived. *)
Definition http_turn (conn_id : Z) (p : Pool St) (c : Conn) : Pool St * Conn * RouteOutcome :=
  match read_compio_until_double_crlf (cn_buf c) (cn_inbox c) with
  | None => (p, c, RouteWaits)
  | Some (buf, ib, inr e) => (p, mkConn buf ib (cn_sink c), head_ending e)
  | Some (buf, ib, inl (Err e)) => (p, mkConn buf ib (cn_sink c), RouteError e)
  | Some (buf, ib, inl (Ok body_start)) =>
      match parse_http_head_from_buf (take (Z.to_nat (body_start - 4)) buf) with
      | Err e => (p, mkConn buf ib (cn_sink c), RouteError e)
      | Ok head =>
          let '(p', c', out) := process_compio_http_route conn_id head body_start p (mkConn buf ib (cn_sink c)) in
          match out with RouteWaits => (p, c, RouteWaits) | _ => (p', c', out) end
      end
  end.
Fixpoint http_loop (fuel : nat) (conn_id : Z) (p : Pool St) (c : Conn) : Pool St * Conn * RouteOutcome :=
  match fuel with
  | O => (p, c, ContinueKeepAlive)
  | S fuel =>
      let '(p, c, out) := http_turn conn_id p c in
      match out with
      | ContinueKeepAlive => http_loop fuel conn_id p c
      | _ => (p, c, out)
      end
  end.
(** A turn takes a head, so the bytes at hand are fuel enough. *)
Definition handle_http_connection (conn_id : Z) (p : Pool St) (c : Conn) : Pool St * Conn * RouteOutcome :=
  http_loop (S (length (cn_buf c ++ arrived (cn_inbox c)))) conn_id p c.
End Server.

(** ** The client *)
Inductive HttpGetOutcome := HttpHit (payload : bytes) | HttpMiss.
Inductive HttpClientError :=
| HcIo (e : IoError) | HcCodec (m : str) | HcHttp (status : Z) (message : str) | HcStatus (code : Z) (message : str).
Definition http_client_error_display `{!Texts} (e : HttpClientError) : str :=
  match e with
  | HcIo e => lit "http client io: " ++ io_text e
  | HcCodec m => lit "http client codec: " ++ m
  | HcHttp status message => lit "http client http status=" ++ dec status ++ lit " msg=" ++ str_debug message
  | HcStatus code message => lit "http client server status code=" ++ dec code ++ lit " msg=" ++ str_debug message
  end.
Definition http_client_from_envelope (e : EnvelopeError) : HttpClientError := HcCodec (lit "envelope: " ++ envelope_error_display e).

(** The client's end of a connection: writing, what will have arrived before the
    next write, and whether the stream can be cloned. *)
Class Endpoint (P : Type) := {
  ep_write (b : bytes) (p : P) : P * result unit IoError;
  ep_try_clone (p : P) : result unit IoError;
  ep_inbox (p : P) : Inbox;
  ep_set_inbox (ib : Inbox) (p : P) : P
}.

(** [BufReader]: its buffer and the stream behind it, read 8 KiB at a time.
    [None] waits for ever. *)
Definition BUF_READER_CAPACITY : Z := 8 * 1024.
Definition Reader : Type := bytes * Inbox.
Abbreviation reading A := (option (Reader * result A HttpClientError)).
Definition INVALID_UTF8 : IoError := mkIo OtherKind (lit "stream did not contain valid UTF-8").
Definition read_line (rd : Reader) : reading str :=
  let checked line rest ib := Some ((rest, ib), if utf8_valid line then Ok line else Err (HcIo INVALID_UTF8)) in
  '(buf, ib, r) ← fill (fun buf => match split_once LF buf with Some l => inl l | None => inr BUF_READER_CAPACITY end) rd.1 rd.2;
  match r with
  | inl (line, rest) => checked (line ++ [LF]) rest ib
  | inr Closed => checked buf [] ib
  | inr (Failed e) => Some (([], ib), Err (HcIo e))
  end.
Definition reader_read_exact (n : Z) (rd : Reader) : reading bytes :=
  '(buf, ib, r) ← fill (fun buf => if decide (len buf < n)
                                   then inr (Z.max (n - len buf) BUF_READER_CAPACITY) else inl tt) rd.1 rd.2;
  Some (match r with
        | inl _ => ((drop (Z.to_nat n) buf, ib), Ok (take (Z.to_nat n) buf))
        | inr Closed => (([], ib), Err (HcIo (mkIo UnexpectedEof (lit "failed to fill whole buffer"))))
        | inr (Failed e) => (([], ib), Err (HcIo e))
        end).

Section ResponseHead.
Context `{!Texts}.
(** The header lines of a response; a line is a byte at least, so the limit on the
    head bounds the rounds. *)
Fixpoint response_headers (fuel : nat) (head_bytes : Z) (h : option Z * option str) (rd : Reader)
  : reading (option Z * option str) :=
  match fuel with
  | O => None
  | S fuel =>
      '(rd, r) ← read_line rd;
      match r with
      | Err e => Some (rd, Err e)
      | Ok [] => Some (rd, Err (HcIo (mkIo UnexpectedEof (lit "peer closed mid-response-headers"))))
      | Ok line =>
          let head_bytes := head_bytes + len line in
          if decide (MAX_HEAD_BYTES < head_bytes)
          then Some (rd, Err (HcCodec (lit "response head exceeds " ++ dec MAX_HEAD_BYTES ++ lit " bytes"))) else
          match trim_eol line with
          | [] => Some (rd, Ok h)
          | trimmed =>
              match header_line HcCodec (lit "malformed response header: ") trimmed h with
              | Err e => Some (rd, Err e)
              | Ok h => response_headers fuel head_bytes h rd
              end
          end
      end
  end.
(** [splitn(3, ' ')] of the status line: the version and the code, if there are two
    parts. *)
Definition status_parts (status_line : str) : option (str * str) :=
  '(http_version, rest) ← split_once " "%byte status_line;
  Some (http_version, match split_once " "%byte rest with Some (code, _) => code | None => rest end).
Definition read_response_head (rd : Reader) : reading (Z * Z * bool) :=
  '(rd, r) ← read_line rd;
  match r with
  | Err e => Some (rd, Err e)
  | Ok [] => Some (rd, Err (HcIo (mkIo UnexpectedEof (lit "peer closed before response"))))
  | Ok status_line =>
      match status_parts status_line with
      | None => Some (rd, Err (HcCodec (lit "malformed status line: " ++ str_debug (trim status_line))))
      | Some (http_version, code) =>
          match parse_u16 code with
          | None => Some (rd, Err (HcCodec (lit "bad status code " ++ str_debug code ++ lit ": " ++ parse_int_error u16_max code)))
          | Some status =>
              '(rd, r) ← response_headers (S (Z.to_nat MAX_HEAD_BYTES)) (len status_line) (None, None) rd;
              Some (rd, let? h := r in
                        let? n := ok_or h.1 (HcCodec (lit "response missing Content-Length")) in
                        if decide (MAX_BODY_BYTES < n)
                        then Err (HcCodec (lit "response Content-Length " ++ dec n ++ lit " > MAX_BODY_BYTES " ++ dec MAX_BODY_BYTES))
                        else Ok (status, n, keep_alive_of h.2 http_version))
          end
      end
  end.
End ResponseHead.

Definition request_head (host : str) (body_len : Z) : str :=
  lit "POST " ++ RPC_PATH ++ lit " HTTP/1.1" ++ CRLF
  ++ lit "Host: " ++ host ++ CRLF
  ++ lit "Content-Type: " ++ CONTENT_TYPE ++ CRLF
  ++ lit "Content-Length: " ++ dec body_len ++ CRLF
  ++ lit "Connection: keep-alive" ++ CRLF ++ CRLF.

Section Client.
Context `{!Crc32c} `{!Texts} `{!RkyvCodec WireRequest, !RkyvCodec WireResponse} {P : Type} `{!Endpoint P}.
Context `{!RkyvCodec LookupBlockPrefixReq, !RkyvCodec LookupBlockPrefixResp, !RkyvCodec GetKvBlocksBatchReq,
          !RkyvCodec GetKvBlocksBatchResp, !RkyvCodec PutKvBlocksBatchReq, !RkyvCodec PutKvBlocksBatchResp}.
Record HttpKvClient := mkHttp { hc_stream : P; hc_host_header : str; hc_next_id : Z }.
Definition HttpCall (A : Type) : Type := HttpKvClient -> option (HttpKvClient * result A HttpClientError).

(** [connect_with_timeout], as for TCP. *)
Definition http_from_tcp_error (e : TcpClientError) : HttpClientError :=
  match e with CliIo e => HcIo e | CliCodec m => HcCodec m | CliStatus c m => HcStatus c m end.
Definition http_connect_with_timeout (addr : str)
    (resolved : result (list (result P IoError * result unit IoError)) IoError) : result HttpKvClient HttpClientError :=
  match connect_with_timeout resolved with
  | Err e => Err (http_from_tcp_error e)
  | Ok c => Ok (mkHttp (tc_stream c) addr (tc_next_id c))
  end.

(** The reading half of [roundtrip]; what the reader has buffered beyond the
    response goes with it. *)
Definition http_read_response (p : P) : option (P * result WireResponse HttpClientError) :=
  '(rd, r) ← read_response_head ([], ep_inbox p);
  match r with
  | Err e => Some (ep_set_inbox rd.2 p, Err e)
  | Ok (status, content_length, _) =>
      '(rd, r) ← reader_read_exact content_length rd;
      Some (ep_set_inbox rd.2 p,
            let? resp_body := r in
            if decide (status <> 200) then Err (HcHttp status (from_utf8_lossy resp_body)) else
            let? resp_bytes := map_err http_client_from_envelope (decode_envelope resp_body) in
            map_err (fun e => HcCodec (lit "decode resp: " ++ e)) (decode_response resp_bytes))
  end.
Definition http_exchange (host : str) (req : WireRequest) (p : P) : option (P * result WireResponse HttpClientError) :=
  match encode_request req with
  | Err e => Some (p, Err (HcCodec (lit "encode req: " ++ e)))
  | Ok req_bytes =>
      wire ← encode_envelope req_bytes;
      let (p, r) := ep_write (request_head host (len wire)) p in
      match r with
      | Err e => Some (p, Err (HcIo e))
      | Ok _ =>
          let (p, r) := ep_write wire p in
          match r with
          | Err e => Some (p, Err (HcIo e))
          | Ok _ => match ep_try_clone p with
                    | Err e => Some (p, Err (HcIo e))
                    | Ok _ => http_read_response p
                    end
          end
      end
  end.
(** [next_id], then [roundtrip]. *)
Definition http_roundtrip (req : Z -> WireRequest) : HttpCall WireResponse :=
  fun c => '(p, r) ← http_exchange (hc_host_header c) (req (hc_next_id c)) (hc_stream c);
           Some (mkHttp p (hc_host_header c) (wrap64 (hc_next_id c + 1)), r).
Definition http_on_response {A} (req : Z -> WireRequest) (f : WireResponse -> result A HttpClientError) : HttpCall A :=
  fun c => '(c, r) ← http_roundtrip req c; Some (c, let? resp := r in f resp).
Definition http_status_error {A} (resp : WireResponse) : result A HttpClientError := Err (HcStatus (rs_status resp) (rs_message resp)).
Definition http_on_block_response {A} (encoded : result bytes WireCodecError) (req : bytes -> Z -> WireRequest)
    (f : WireResponse -> result A HttpClientError) : HttpCall A :=
  match encoded with
  | Err e => fun c => Some (c, Err (HcCodec (wire_error_display e)))
  | Ok payload => http_on_response (req payload)
                    (fun resp => if decide (rs_status resp <> status.OK) then http_status_error resp else f resp)
  end.
Definition http_decoded_value {T A} (decoded : result T WireCodecError) (error : T -> option str) (value : T -> A)
  : result A HttpClientError :=
  let? d := map_err (fun e => HcCodec (wire_error_display e)) decoded in
  match error d with Some err => Err (HcStatus status.ERROR err) | None => Ok (value d) end.

Definition http_put_kv (ns key : str) (payload : bytes) : HttpCall unit :=
  http_on_response (fun id => mkReq id op.PUT ns key payload)
    (fun resp => if decide (rs_status resp = status.OK) then Ok tt else http_status_error resp).
Definition http_get_kv (ns key : str) : HttpCall HttpGetOutcome :=
  http_on_response (fun id => mkReq id op.GET ns key [])
    (fun resp => if decide (rs_status resp = status.OK) then Ok (HttpHit (rs_payload resp))
                 else if decide (rs_status resp = status.MISS) then Ok HttpMiss else http_status_error resp).
Definition http_ping : HttpCall unit :=
  http_on_response (fun id => mkReq id op.PING [] [] [])
    (fun resp => if decide (rs_status resp = status.OK) then Ok tt else http_status_error resp).
Definition http_lookup_block_prefix (ns : str) (hashes : list str) : HttpCall Z :=
  http_on_block_response (encode_lookup_block_prefix_req (mkLookupBlockPrefixReq ns hashes))
    (fun payload id => mkReq id op.LOOKUP_BLOCK_PREFIX ns [] payload)
    (fun resp => http_decoded_value (decode_lookup_block_prefix_resp (rs_payload resp)) lbp_error matched_count).
Definition http_get_kv_blocks_batch (ns : str) (hashes : list str) : HttpCall (option (list bytes)) :=
  http_on_block_response (encode_get_kv_blocks_batch_req (mkGetKvBlocksBatchReq ns hashes))
    (fun payload id => mkReq id op.GET_KV_BLOCKS_BATCH ns [] payload)
    (fun resp => http_decoded_value (decode_get_kv_blocks_batch_resp (rs_payload resp)) gbb_error gbb_payloads).
Definition http_put_kv_blocks_batch (ns : str) (hashes : list str) (payloads : list bytes) : HttpCall Z :=
  if decide (length hashes <> length payloads)
  then fun c => Some (c, Err (HcCodec (lit "put_kv_blocks_batch length mismatch: " ++ dec (len hashes) ++ lit " hashes vs "
                                       ++ dec (len payloads) ++ lit " payloads")))
  else http_on_block_response (encode_put_kv_blocks_batch_req (mkPutKvBlocksBatchReq ns hashes payloads))
         (fun payload id => mkReq id op.PUT_KV_BLOCKS_BATCH ns [] payload)
         (fun resp => http_decoded_value (decode_put_kv_blocks_batch_resp (rs_payload resp)) pbb_error total_bytes).
End Client.
Arguments HttpKvClient : clear implicits.
