(* ===== verification/HttpSpec.v ===== *)
(** * What the HTTP transport does

    A reference of the connection handler that sees the whole input as one piece,
    without a buffer; [http_pieces_irrelevant] shows that the handler does the same
    however the network cuts the input.  [http_transparent] puts a client and a
    server on one connection: the conversation is the one of the dispatcher.
    [misrouted_body_is_dispatched] is what an unconsumed body leads to. *)

From S2P Require Import Prelude Order Text Strings Hex Envelope Wire Rpc Tcp Http.

(** ** Reading *)
Lemma next_piece_spec n pieces :
  (0 < n)%nat ->
  match next_piece n pieces with
  | None => concat pieces = []
  | Some (b, rest) => b <> [] /\ concat pieces = b ++ concat rest
  end.
Proof.
  intros Hn. induction pieces as [|[|x piece] pieces IH]; cbn [next_piece concat]; [done|exact IH|].
  destruct n as [|n]; [lia|]. cbn [take drop concat app]. split; [done|]. by rewrite app_assoc, take_drop.
Qed.
Lemma read_spec n ib :
  0 < n ->
  match read n ib with
  | None => arrived ib = [] /\ ib_end ib = None
  | Some (ib', Ok []) => arrived ib = [] /\ ib_end ib = Some Closed /\ ib' = mkInbox [] (ib_end ib)
  | Some (ib', Ok b) => arrived ib = b ++ arrived ib' /\ ib_end ib' = ib_end ib
  | Some (ib', Err e) => arrived ib = [] /\ ib_end ib = Some (Failed e) /\ ib' = mkInbox [] (ib_end ib)
  end.
Proof.
  intros Hn. unfold read, arrived. pose proof (next_piece_spec (Z.to_nat n) (ib_pieces ib) ltac:(lia)) as H.
  destruct (next_piece _ _) as [[b rest]|]; [|by destruct (ib_end ib) as [[|e]|]].
  destruct H as [Hb E]. by destruct b.
Qed.

Section FillSpec.
Context {A : Type} (step : bytes -> A + Z) (step_pos : forall buf n, step buf = inr n -> 0 < n).
(** The loop stops on a prefix that is enough, or has read all there is. *)
Lemma fill_from_spec fuel buf ib :
  (length (arrived ib) < fuel)%nat ->
  match fill_from step fuel buf ib with
  | None => ib_end ib = None /\ exists n, step (buf ++ arrived ib) = inr n
  | Some (buf', ib', inl a) => step buf' = inl a /\ buf ++ arrived ib = buf' ++ arrived ib' /\ ib_end ib' = ib_end ib
  | Some (buf', ib', inr e) => buf' = buf ++ arrived ib /\ ib_end ib = Some e /\ exists n, step buf' = inr n
  end.
Proof.
  revert buf ib. induction fuel as [|fuel IH]; intros buf ib Hf; [lia|]. cbn [fill_from].
  destruct (step buf) as [a|n] eqn:Es; [done|]. pose proof (read_spec n ib (step_pos _ _ Es)) as Hr.
  destruct (read n ib) as [[ib' [[|x b]|e]]|]; cbn [mbind option_bind].
  - destruct Hr as (Ha & He & ->). rewrite Ha, app_nil_r. eauto.
  - destruct Hr as [Ha He]. specialize (IH (buf ++ x :: b) ib').
    rewrite Ha, app_assoc in *. rewrite <- He. apply IH. rewrite length_app in Hf. cbn [length] in Hf. lia.
  - destruct Hr as (Ha & He & ->). rewrite Ha, app_nil_r. eauto.
  - destruct Hr as [Ha He]. rewrite Ha, app_nil_r. eauto.
Qed.
Lemma fill_spec buf ib :
  match fill step buf ib with
  | None => ib_end ib = None /\ exists n, step (buf ++ arrived ib) = inr n
  | Some (buf', ib', inl a) => step buf' = inl a /\ buf ++ arrived ib = buf' ++ arrived ib' /\ ib_end ib' = ib_end ib
  | Some (buf', ib', inr e) => buf' = buf ++ arrived ib /\ ib_end ib = Some e /\ exists n, step buf' = inr n
  end.
Proof. apply fill_from_spec. lia. Qed.
End FillSpec.

(** ** The end of the head *)
Lemma find_double_crlf_bound bs pos : find_double_crlf bs = Some pos -> 0 <= pos /\ pos + 4 <= len bs.
Proof.
  revert pos. induction bs as [|x bs IH]; intros pos; cbn [find_double_crlf]; [done|].
  destruct (find_double_crlf_here (x :: bs)) eqn:Eh.
  - intros <-%(inj Some). apply bool_decide_eq_true_1 in Eh. apply (f_equal length) in Eh.
    rewrite length_take in Eh. cbn [length CRLF app] in Eh. unfold len. cbn [length]. lia.
  - destruct (find_double_crlf bs) as [q|]; cbn [fmap option_fmap option_map]; [|done]. intros <-%(inj Some).
    destruct (IH q eq_refl). unfold len in *. cbn [length]. lia.
Qed.
Lemma find_here_app a b : (4 <= length a)%nat -> find_double_crlf_here (a ++ b) = find_double_crlf_here a.
Proof. intros H. unfold find_double_crlf_here. by rewrite take_app_le. Qed.
Lemma find_here_short a : (length a < 4)%nat -> find_double_crlf_here a = false.
Proof.
  intros H. apply bool_decide_eq_false_2. intros E. apply (f_equal length) in E. rewrite length_take in E. cbn [length CRLF app] in E. lia.
Qed.
(** The terminator is found in a prefix exactly when it lies in it. *)
Lemma find_double_crlf_app a b :
  find_double_crlf a =
  match find_double_crlf (a ++ b) with
  | Some pos => if decide (pos + 4 <= len a) then Some pos else None
  | None => None
  end.
Proof.
  induction a as [|x a IH].
  { cbn [find_double_crlf app]. destruct (find_double_crlf b) as [pos|] eqn:E; [|done].
    apply find_double_crlf_bound in E. rewrite decide_False; [done|]. unfold len. cbn [length]. lia. }
  cbn [app find_double_crlf]. change (x :: a ++ b) with ((x :: a) ++ b).
  destruct (decide (4 <= length (x :: a))%nat) as [Hl|Hl].
  - rewrite find_here_app by done. destruct (find_double_crlf_here (x :: a)) eqn:Eh.
    + rewrite decide_True; [done|]. unfold len. lia.
    + rewrite IH. clear IH. destruct (find_double_crlf (a ++ b)) as [q|]; cbn [fmap option_fmap option_map]; [|done].
      unfold len. cbn [length]. do 2 case_decide; cbn [fmap option_fmap option_map]; done || lia.
  - rewrite (find_here_short (x :: a)) by lia. rewrite IH.
    assert (forall q, 0 <= q -> ~ q + 4 <= len (x :: a)) as Hno by (intros q ?; unfold len; lia).
    destruct (find_double_crlf_here ((x :: a) ++ b)); cbn [option_map].
    + rewrite (decide_False (P := 0 + 4 <= _)) by (by apply Hno).
      destruct (find_double_crlf (a ++ b)) as [q|] eqn:Eq; cbn [fmap option_fmap option_map]; [|done].
      apply find_double_crlf_bound in Eq. rewrite decide_False; [done|]. unfold len. cbn [length] in Hl. lia.
    + destruct (find_double_crlf (a ++ b)) as [q|] eqn:Eq; cbn [fmap option_fmap option_map]; [|done].
      apply find_double_crlf_bound in Eq. rewrite !decide_False; [done|apply Hno; lia|]. unfold len. cbn [length] in Hl. lia.
Qed.

(** ** The handler without its buffer *)
Section Reference.
Context `{!Crc32c} `{!Texts} `{!RkyvCodec WireRequest, !RkyvCodec WireResponse} {St : Type}.
Context (dispatch : Z -> WireRequest -> St -> option (St * WireResponse)) (conn_id : Z).

Definition head_too_long : HttpServerError :=
  HBadRequest (lit "header section exceeds " ++ dec MAX_HEAD_BYTES ++ lit " bytes").
(** A turn on the whole input: the head that ends at the first blank line, the
    body of the announced length, the answer.  A head just over the limit is let
    through or not as it happens to arrive: [None]. *)
Definition flat_turn (p : Pool St) (bs : bytes) (e : option Ending) (k : Sink)
  : option (Pool St * bytes * Sink * RouteOutcome) :=
  match find_double_crlf bs with
  | None => Some (p, bs, k, if decide (MAX_HEAD_BYTES < len bs) then RouteError head_too_long
                            else match e with None => RouteWaits | Some e => head_ending e end)
  | Some pos =>
      if decide (MAX_HEAD_BYTES + 1 < pos + 4) then None else
      match parse_http_head_from_buf (take (Z.to_nat pos) bs) with
      | Err e => Some (p, bs, k, RouteError e)
      | Ok h =>
          let rest := drop (Z.to_nat (pos + 4)) bs in
          match route h with
          | Err reply => let (k, out) := reply k in Some (p, rest, k, out)
          | Ok n =>
              if decide (len rest < n)
              then Some (p, bs, k, match e with None => RouteWaits | Some e => body_ending e end)
              else let '(p, k, out) := http_answer dispatch conn_id (hd_keep_alive h) (take (Z.to_nat n) rest) p k in
                   Some (p, drop (Z.to_nat n) rest, k, out)
          end
      end
  end.
Fixpoint flat_loop (fuel : nat) (p : Pool St) (bs : bytes) (e : option Ending) (k : Sink)
  : option (Pool St * bytes * Sink * RouteOutcome) :=
  match fuel with
  | O => Some (p, bs, k, ContinueKeepAlive)
  | S fuel =>
      '(p, bs, k, out) ← flat_turn p bs e k;
      match out with
      | ContinueKeepAlive => flat_loop fuel p bs e k
      | _ => Some (p, bs, k, out)
      end
  end.
Definition flat_connection (p : Pool St) (bs : bytes) (e : option Ending) (k : Sink) := flat_loop (S (length bs)) p bs e k.

Definition all_input (c : Conn) : bytes := cn_buf c ++ arrived (cn_inbox c).
(** What the reference and the handler agree on: the input that is left matters
    only while the connection goes on. *)
Definition agrees (e : option Ending) (r : Pool St * bytes * Sink * RouteOutcome) (r' : Pool St * Conn * RouteOutcome) : Prop :=
  let '(p, bs, k, out) := r in
  exists c, r' = (p, c, out) /\ cn_sink c = k /\
    (out = ContinueKeepAlive \/ out = RouteWaits -> all_input c = bs /\ ib_end (cn_inbox c) = e).

Lemma head_read c :
  match find_double_crlf (all_input c) with
  | Some pos => pos + 4 <= MAX_HEAD_BYTES + 1 ->
      exists buf ib, read_compio_until_double_crlf (cn_buf c) (cn_inbox c) = Some (buf, ib, inl (Ok (pos + 4))) /\
        buf ++ arrived ib = all_input c /\ pos + 4 <= len buf /\ ib_end ib = ib_end (cn_inbox c)
  | None =>
      if decide (MAX_HEAD_BYTES < len (all_input c))
      then exists buf ib, read_compio_until_double_crlf (cn_buf c) (cn_inbox c) = Some (buf, ib, inl (Err head_too_long))
      else match ib_end (cn_inbox c) with
           | None => read_compio_until_double_crlf (cn_buf c) (cn_inbox c) = None
           | Some e => exists buf ib, read_compio_until_double_crlf (cn_buf c) (cn_inbox c) = Some (buf, ib, inr e)
           end
  end.
Proof.
  unfold read_compio_until_double_crlf, all_input. set (step := fun buf => _).
  pose proof (fill_spec step) as Hf. specialize (Hf ltac:(intros b n; unfold step; destruct (find_double_crlf b); [done|]; case_decide; [done|]; intros [= <-]; lia) (cn_buf c) (cn_inbox c)).
  destruct (fill step (cn_buf c) (cn_inbox c)) as [[[buf ib] [[pos|err]|e]]|]; cbn [mbind option_bind].
  - destruct Hf as (Es & E & Ee). rewrite E. unfold step in Es. destruct (find_double_crlf buf) as [q|] eqn:Eq; [|by case_decide].
    injection Es as <-. rewrite (find_double_crlf_app buf (arrived ib)) in Eq.
    destruct (find_double_crlf (buf ++ arrived ib)) as [q'|]; [|done]. case_decide; [|done]. injection Eq as ->.
    intros _. by exists buf, ib.
  - destruct Hf as (Es & E & Ee). rewrite E. unfold step in Es. destruct (find_double_crlf buf) as [q|] eqn:Eq; [done|].
    case_decide as Hl; [|done]. injection Es as <-. rewrite (find_double_crlf_app buf (arrived ib)) in Eq.
    destruct (find_double_crlf (buf ++ arrived ib)) as [q'|].
    + case_decide; [done|]. intros. lia.
    + rewrite decide_True by (rewrite len_app; pose proof (len_nonneg (arrived ib)); lia). by exists buf, ib.
  - destruct Hf as (-> & -> & n & Es). unfold step in Es. destruct (find_double_crlf _); [done|]. case_decide; [done|]. eauto.
  - destruct Hf as (-> & n & Es). unfold step in Es. destruct (find_double_crlf _); [done|]. by case_decide.
Qed.

Lemma body_read n buf ib :
  if decide (len (buf ++ arrived ib) < n)
  then match ib_end ib with
       | None => read_body n buf ib = None
       | Some e => exists buf' ib', read_body n buf ib = Some (buf', ib', inr e)
       end
  else exists buf' ib', read_body n buf ib = Some (buf', ib', inl tt) /\
         buf' ++ arrived ib' = buf ++ arrived ib /\ n <= len buf' /\ ib_end ib' = ib_end ib.
Proof.
  unfold read_body. set (step := fun buf => _).
  pose proof (fill_spec step ltac:(intros b m; unfold step; case_decide; [|done]; intros [= <-]; lia) buf ib) as Hf.
  destruct (fill step buf ib) as [[[buf' ib'] [[]|e]]|].
  - destruct Hf as (Es & E & Ee). unfold step in Es. case_decide as Hl; [done|]. rewrite decide_False.
    + exists buf', ib'. split; [done|]. split; [done|]. split; [lia|done].
    + rewrite E, len_app. pose proof (len_nonneg (arrived ib')). lia.
  - destruct Hf as (-> & -> & m & Es). unfold step in Es. case_decide as Hl; [|done]. eauto.
  - destruct Hf as (-> & m & Es). unfold step in Es. by case_decide.
Qed.

Lemma reply_not_waits h reply k k' out : route h = Err reply -> reply k = (k', out) -> out <> RouteWaits.
Proof.
  unfold route. repeat (case_decide; [intros <-%Err_inj|]);
    [..|destruct (hd_content_length h) as [n|]; [case_decide; [intros <-%Err_inj|done]|intros <-%Err_inj]];
    destruct (write_compio_response _ _ _ _ _ k) as [k1 []]; intros [_ <-]%pair_inj; by try destruct (hd_keep_alive h).
Qed.
Lemma http_answer_not_waits keep body p k p' k' out :
  http_answer dispatch conn_id keep body p k = (p', k', out) -> out <> RouteWaits.
Proof.
  unfold http_answer. destruct (decode_envelope body); [|by intros [_ <-]%pair_inj].
  destruct (decode_request _); [|by intros [_ <-]%pair_inj].
  destruct (dispatch_async _ _ _ _) as [p1 []]; [|by intros [_ <-]%pair_inj].
  destruct (encode_response _); [|by intros [_ <-]%pair_inj]. destruct (encode_envelope _); [|by intros [_ <-]%pair_inj].
  destruct (write_compio_response _ _ _ _ _ k) as [k1 []]; intros [_ <-]%pair_inj; by try destruct keep.
Qed.
Lemma take_prefix {A} (a b : list A) n : 0 <= n <= len a -> take (Z.to_nat n) (a ++ b) = take (Z.to_nat n) a.
Proof. intros Hn. apply take_app_le. unfold len in Hn. lia. Qed.
Lemma drop_prefix {A} (a b : list A) n : 0 <= n <= len a -> drop (Z.to_nat n) (a ++ b) = drop (Z.to_nat n) a ++ b.
Proof. intros Hn. apply drop_app_le. unfold len in Hn. lia. Qed.

Lemma take_whole {A} (a : list A) : take (Z.to_nat (len a)) a = a.
Proof. apply take_ge. unfold len. lia. Qed.
Lemma drop_whole {A} (a : list A) : drop (Z.to_nat (len a)) a = [].
Proof. apply drop_ge. unfold len. lia. Qed.

Lemma parsed_nonneg h n : route h = Ok n -> hd_content_length h = Some n.
Proof.
  unfold route. do 2 (case_decide; [done|]). destruct (hd_content_length h) as [m|]; [|done]. case_decide; [done|].
  by intros ->%Ok_inj.
Qed.
(** [Content-Length] is a [usize]. *)
Lemma parse_digits_nonneg s acc n : 0 <= acc -> parse_digits acc s = Some n -> 0 <= n.
Proof.
  revert acc. induction s as [|c s IH]; intros acc Ha; cbn [parse_digits]; [by intros <-%(inj Some)|].
  destruct (is_ascii_digit c) eqn:Ec; [|done]. case_decide; [|done]. apply IH. revert Ec. unfold is_ascii_digit.
  rewrite andb_true_iff, !bool_decide_eq_true. lia.
Qed.
Lemma parse_u64_nonneg s n : parse_u64 s = Some n -> 0 <= n.
Proof.
  destruct s as [|c [|d s]]; unfold parse_u64; [done| |].
  - destruct (is_ascii_digit c) eqn:Ec; [|done]. intros <-%(inj Some). revert Ec. unfold is_ascii_digit. rewrite andb_true_iff, !bool_decide_eq_true. lia.
  - case_decide; by apply parse_digits_nonneg.
Qed.
Lemma header_lines_nonneg lines h h' n :
  (forall m, h.1 = Some m -> 0 <= m) -> header_lines lines h = Ok h' -> h'.1 = Some n -> 0 <= n.
Proof.
  revert h. induction lines as [|line lines IH]; intros h Hh; cbn [header_lines]; [intros <-%Ok_inj; apply Hh|].
  destruct line as [|x line]; [by apply IH|]. unfold header_line. destruct (split_once _ _) as [[name value]|]; run_res; [|done].
  case_decide; [destruct (parse_u64 _) as [v|] eqn:Ev; run_res; [|done]|case_decide; run_res];
    apply IH; cbn [fst]; try done. intros m [= <-]. by eapply parse_u64_nonneg.
Qed.
Lemma parse_head_nonneg b h n : parse_http_head_from_buf b = Ok h -> hd_content_length h = Some n -> 0 <= n.
Proof.
  unfold parse_http_head_from_buf. destruct (negb _); [done|]. destruct (split_crlf b) as [|rl ls]; [done|].
  destruct (split_whitespace rl) as [|m [|pt [|v ws]]]; [done..|].
  destruct (header_lines ls (None, None)) as [h0|e] eqn:Eh; run_res; [|done]. intros <-%Ok_inj. cbn [hd_content_length].
  eapply header_lines_nonneg; [|done]. done.
Qed.

Lemma head_ending_over e : head_ending e <> ContinueKeepAlive /\ head_ending e <> RouteWaits.
Proof. unfold head_ending. by destruct (is_peer_disconnect _). Qed.
Lemma body_ending_over e : body_ending e <> ContinueKeepAlive /\ body_ending e <> RouteWaits.
Proof. unfold body_ending. destruct e as [|e]; [done|]. by destruct (is_peer_disconnect e). Qed.

Lemma turn_agrees p c r :
  flat_turn p (all_input c) (ib_end (cn_inbox c)) (cn_sink c) = Some r ->
  agrees (ib_end (cn_inbox c)) r (http_turn dispatch conn_id p c).
Proof.
  unfold flat_turn, http_turn. pose proof (head_read c) as Hh. destruct (find_double_crlf (all_input c)) as [pos|] eqn:Ef.
  2: { intros <-%(inj Some). unfold agrees. case_decide.
       - destruct Hh as (buf & ib & ->). eexists. split; [reflexivity|]. split; [done|]. by intros [].
       - destruct (ib_end (cn_inbox c)) as [e|] eqn:Eend.
         + destruct Hh as (buf & ib & ->). eexists. split; [reflexivity|]. split; [done|].
           destruct (head_ending_over e). by intros [].
         + rewrite Hh. eexists. split; [reflexivity|]. by split. }
  destruct (find_double_crlf_bound _ _ Ef) as [Hp Hp4]. case_decide as Hlim; [done|].
  destruct (Hh ltac:(lia)) as (buf & ib & -> & E & Hb & Ee). replace (pos + 4 - 4) with pos by lia.
  rewrite <- E, take_prefix, drop_prefix by lia.
  destruct (parse_http_head_from_buf _) as [h|e] eqn:Eh.
  2: { intros <-%(inj Some). eexists. split; [reflexivity|]. split; [done|]. by intros []. }
  unfold process_compio_http_route. cbn [cn_buf cn_inbox cn_sink]. set (buf1 := drop _ buf).
  destruct (route h) as [n|reply] eqn:Er.
  2: { destruct (reply (cn_sink c)) as [k out] eqn:Ek. intros <-%(inj Some).
       pose proof (reply_not_waits h reply _ _ _ Er Ek). eexists. split; [by destruct out|]. by split. }
  pose proof (parse_head_nonneg _ _ _ Eh (parsed_nonneg _ _ Er)) as Hn.
  pose proof (body_read n buf1 ib) as Hr. case_decide as Hlt.
  - intros <-%(inj Some). rewrite Ee in Hr. destruct (ib_end (cn_inbox c)) as [e|] eqn:Eend.
    + destruct Hr as (buf' & ib' & ->). unfold agrees. exists (mkConn buf' ib' (cn_sink c)).
      destruct (body_ending_over e) as [Hc Hw]. split; [by destruct (body_ending e)|]. split; [done|]. by intros [].
    + rewrite Hr. unfold agrees. eexists. split; [reflexivity|]. split; [done|]. done.
  - destruct Hr as (buf' & ib' & -> & E' & Hl & Ee'). rewrite <- E', take_prefix, drop_prefix by lia.
    destruct (http_answer _ _ _ _ _ _) as [[p1 k1] out] eqn:Ea. intros <-%(inj Some).
    pose proof (http_answer_not_waits _ _ _ _ _ _ _ Ea). unfold agrees. eexists.
    split; [by destruct out|]. split; [done|]. intros _. split; [done|]. cbn [cn_inbox]. by rewrite Ee', Ee.
Qed.

(** A turn that goes on has taken the head. *)
Lemma flat_turn_shorter p bs e k p' bs' k' :
  flat_turn p bs e k = Some (p', bs', k', ContinueKeepAlive) -> (length bs' < length bs)%nat.
Proof.
  unfold flat_turn. destruct (find_double_crlf bs) as [pos|] eqn:Ef.
  2: { intros [= _ _ _ Ho]. revert Ho. case_decide; [done|]. destruct e as [e|]; [|done].
       by intros ?%head_ending_over. }
  destruct (find_double_crlf_bound _ _ Ef) as [Hp Hp4]. case_decide; [done|]. unfold len in Hp4.
  destruct (parse_http_head_from_buf _) as [h|e']; [|by intros [_ ?]%Some_pair_inj].
  destruct (route h) as [n|reply].
  - case_decide.
    + intros [_ Ho]%Some_pair_inj. destruct e as [e|]; [|done]. by apply body_ending_over in Ho.
    + destruct (http_answer _ _ _ _ _ _) as [[p1 k1] out]. intros [[[_ <-]%pair_inj _]%pair_inj _]%Some_pair_inj.
      rewrite !length_drop. lia.
  - destruct (reply k) as [k1 out]. intros [[[_ <-]%pair_inj _]%pair_inj _]%Some_pair_inj. rewrite length_drop. lia.
Qed.
Lemma loop_agrees fuel fuel' p c r :
  (length (all_input c) < fuel)%nat -> (length (all_input c) < fuel')%nat ->
  flat_loop fuel p (all_input c) (ib_end (cn_inbox c)) (cn_sink c) = Some r ->
  r.2 <> ContinueKeepAlive /\ agrees (ib_end (cn_inbox c)) r (http_loop dispatch fuel' conn_id p c).
Proof.
  revert fuel' p c. induction fuel as [|fuel IH]; intros fuel' p c Hf Hf'; [lia|]. destruct fuel' as [|fuel']; [lia|].
  cbn [flat_loop http_loop]. destruct (flat_turn _ _ _ _) as [[[[p1 bs1] k1] out]|] eqn:Et; cbn [mbind option_bind]; [|done].
  destruct (turn_agrees _ _ _ Et) as (c1 & -> & <- & Hgo).
  destruct out; try (intros <-%(inj Some); split; [done|]; eexists; by split).
  destruct (Hgo (or_introl eq_refl)) as [E Ee]. apply flat_turn_shorter in Et. rewrite <- E, <- Ee in *.
  apply IH; lia.
Qed.

(** C26: the pieces the network cuts the input into do not matter: whatever arrives,
    and however the buffer got what it holds, the connection handler dispatches the
    requests, writes the responses and ends as the reference that sees all of the
    input at once, unless a head is longer than the limit; and it never runs on. *)
Theorem http_pieces_irrelevant p c r :
  flat_connection p (all_input c) (ib_end (cn_inbox c)) (cn_sink c) = Some r ->
  r.2 <> ContinueKeepAlive /\ agrees (ib_end (cn_inbox c)) r (handle_http_connection dispatch conn_id p c).
Proof.
  intros Hr. apply (loop_agrees (S (length (all_input c))) (S (length (all_input c)))); [lia|lia|exact Hr].
Qed.
End Reference.

(** ** Heads: what one side prints, the other reads *)
Lemma find_skip p s : CR ∉ p -> find_double_crlf (p ++ s) = Z.add (len p) <$> find_double_crlf s.
Proof.
  induction p as [|x p IH]; intros Hp; [cbn [app]; destruct (find_double_crlf s); [reflexivity|done]|].
  apply not_elem_of_cons in Hp as [Hx Hp]. cbn [app find_double_crlf].
  assert (find_double_crlf_here (x :: p ++ s) = false) as ->.
  { apply bool_decide_eq_false_2. intros E. cbn [take CRLF app] in E. apply Hx. by injection E. }
  rewrite (IH Hp). destruct (find_double_crlf s); cbn [fmap option_fmap option_map]; [|done]. f_equal. unfold len. cbn [length]. lia.
Qed.
Lemma find_crlf_skip x s : x <> CR -> find_double_crlf (CRLF ++ x :: s) = Z.add 2 <$> find_double_crlf (x :: s).
Proof.
  intros Hx. cbn [app CRLF]. set (t := x :: s). cbn [find_double_crlf].
  assert (find_double_crlf_here (CR :: LF :: t) = false) as ->.
  { apply bool_decide_eq_false_2. intros E. cbn [take CRLF app t] in E. apply Hx. by injection E. }
  assert (find_double_crlf_here (LF :: t) = false) as ->.
  { apply bool_decide_eq_false_2. intros E. cbn [take CRLF app t] in E. by injection E. }
  destruct (find_double_crlf t); cbn [fmap option_fmap option_map]; [|done]. f_equal. lia.
Qed.
Definition plain_line (l : str) : Prop := (CR ∉ l) /\ l <> [].
Lemma find_joined lines rest :
  Forall plain_line lines ->
  find_double_crlf (join CRLF lines ++ CRLF ++ CRLF ++ rest) = Some (len (join CRLF lines)).
Proof.
  induction 1 as [|l lines [Hl Hne] Hrest IH]; [done|]. destruct lines as [|l' lines].
  - cbn [join]. rewrite find_skip by done. change (find_double_crlf (CRLF ++ CRLF ++ rest)) with (Some 0).
    cbn [fmap option_fmap option_map]. by rewrite Z.add_0_r.
  - cbn [join] in *. rewrite <- !app_assoc, find_skip by done. apply Forall_cons in Hrest as [[Hl' Hne'] _].
    destruct l' as [|x l']; [done|]. apply not_elem_of_cons in Hl' as [Hx _]. revert IH.
    destruct lines; cbn [app]; intros IH; rewrite find_crlf_skip, IH by done; cbn [fmap option_fmap option_map];
      rewrite !len_app; f_equal; change (len CRLF) with 2; lia.
Qed.
Lemma split_crlf_line p s : CR ∉ p -> split_crlf (p ++ CRLF ++ s) = p :: split_crlf s.
Proof.
  induction p as [|x p IH]; intros Hp; [by cbn [app CRLF split_crlf]; rewrite decide_True|].
  apply not_elem_of_cons in Hp as [Hx Hp]. cbn [app split_crlf]. specialize (IH Hp).
  destruct (p ++ CRLF ++ s) as [|y t] eqn:E; [by destruct p|]. rewrite decide_False by (intros [? _]; by subst). by rewrite IH.
Qed.
Lemma split_crlf_plain p : CR ∉ p -> split_crlf p = [p].
Proof.
  induction p as [|x p IH]; intros Hp; [done|]. apply not_elem_of_cons in Hp as [Hx Hp]. cbn [split_crlf]. rewrite (IH Hp).
  destruct p as [|y p]; [done|]. by rewrite decide_False by (intros [? _]; by subst).
Qed.
Lemma split_joined lines : lines <> [] -> Forall plain_line lines -> split_crlf (join CRLF lines) = lines.
Proof.
  intros Hn Hall. induction Hall as [|l lines [Hl Hne] Hrest IH]; [done|]. destruct lines as [|l' lines].
  - by apply split_crlf_plain.
  - cbn [join] in *. rewrite split_crlf_line by done. by rewrite IH.
Qed.
(** A value of digits is itself after the blank. *)
Lemma digit_not_ws c : is_ascii_digit c = true -> ascii_ws c = false /\ byte_is 194 c = false /\
  byte_is 225 c = false /\ byte_is 226 c = false /\ byte_is 227 c = false.
Proof.
  unfold is_ascii_digit, ascii_ws, byte_is. rewrite andb_true_iff, !bool_decide_eq_true. intros H.
  rewrite orb_false_iff, !bool_decide_eq_false. lia.
Qed.
Lemma ws_head_digit c s : is_ascii_digit c = true -> ws_head (c :: s) = 0%nat.
Proof.
  intros (H & H1 & H2 & H3 & H4)%digit_not_ws. unfold ws_head, ws2, ws3. rewrite H, H1, H2, H3, H4. cbn [andb orb].
  destruct s as [|b [|d s]]; done.
Qed.
Lemma ws_last_digits c s : Forall (fun c => is_ascii_digit c = true) (c :: s) -> ws_last (c :: s) = 0%nat.
Proof.
  intros [Hc Hs]%Forall_cons. apply digit_not_ws in Hc as (H & _). unfold ws_last, ws2, ws3. rewrite H.
  destruct s as [|b s]; [done|]. apply Forall_cons in Hs as [Hb Hs]. apply digit_not_ws in Hb as (_ & H1 & _). rewrite H1. cbn [andb].
  destruct s as [|d s]; [done|]. apply Forall_cons in Hs as [Hd _]. apply digit_not_ws in Hd as (_ & _ & H2 & H3 & H4).
  by rewrite H2, H3, H4.
Qed.
Lemma trim_digits s : s <> [] -> Forall (fun c => is_ascii_digit c = true) s -> trim (" "%byte :: s) = s.
Proof.
  intros Hne Hs. unfold trim, trim_start. cbn [length drop_ws].
  change (ws_head (" "%byte :: s)) with 1%nat. cbn [drop]. rewrite drop_0.
  assert (drop_ws (length s) ws_head s = s) as ->.
  { destruct s as [|c s]; [done|]. cbn [length drop_ws]. rewrite ws_head_digit; [done|]. by apply Forall_cons in Hs as [? _]. }
  unfold trim_end. assert (drop_ws (length s) ws_last (reverse s) = reverse s) as ->; [|apply reverse_involutive].
  apply Forall_reverse in Hs. destruct (reverse s) as [|c t] eqn:E; [by destruct (length s)|].
  destruct s as [|c' s]; [done|]. cbn [length drop_ws]. by rewrite ws_last_digits.
Qed.
(** A host that is printable text. *)
Definition printable (s : str) : Prop := Forall (fun c => between 32 126 c = true) s.
Lemma printable_ascii s : printable s -> Forall (fun c => between 0 127 c = true) s.
Proof.
  intros Hs. apply (Forall_impl _ _ _ Hs). intros c. unfold between. rewrite !andb_true_iff, !bool_decide_eq_true. lia.
Qed.
Lemma printable_no c s : between 32 126 c = false -> printable s -> c ∉ s.
Proof. intros Hc Hs Hin. rewrite (proj1 (Forall_forall _ _) Hs c Hin) in Hc. done. Qed.
Lemma dec_printable z : printable (dec z).
Proof.
  apply (Forall_impl _ _ _ (dec_digits z)). intros c. unfold is_ascii_digit, between.
  rewrite !andb_true_iff, !bool_decide_eq_true. lia.
Qed.
Lemma printable_app a b : printable a -> printable b -> printable (a ++ b).
Proof. apply Forall_app_2. Qed.
Lemma printable_lit s : forallb (between 32 126) s = true -> printable s.
Proof. induction s as [|c s IH]; [constructor|]. cbn [forallb]. intros [??]%andb_true_iff. constructor; [done|by apply IH]. Qed.
Ltac printable := repeat (apply printable_app); first [apply dec_printable | done | apply printable_lit; vm_compute; reflexivity].
Lemma printable_plain l : printable l -> l <> [] -> plain_line l.
Proof. intros Hl Hne. split; [by apply (printable_no CR)|done]. Qed.
Lemma join_ascii lines :
  Forall printable lines -> Forall (fun c => between 0 127 c = true) (join CRLF lines).
Proof.
  induction 1 as [|l lines Hl Hrest IH]; [constructor|]. apply printable_ascii in Hl. destruct lines as [|l' lines]; [done|].
  cbn [join] in *. apply Forall_app_2; [done|]. apply Forall_app_2; [|done]. by repeat constructor.
Qed.

Section HeadRoundTrip.
Context `{!Texts}.
Lemma content_length_line {E} (err : str -> E) what n h :
  in_u64 n -> header_line err what (lit "Content-Length: " ++ dec n) h = Ok (Some n, h.2).
Proof.
  intros Hn. unfold header_line.
  change (lit "Content-Length: " ++ dec n) with (lit "Content-Length" ++ ":"%byte :: " "%byte :: dec n).
  rewrite split_once_app by (by_eval). rewrite trim_digits by (apply dec_length_pos || apply dec_digits).
  rewrite decide_True by (vm_compute; reflexivity). by rewrite parse_dec.
Qed.
Lemma other_line {E} (err : str -> E) what name value h :
  (":"%byte ∉ name) -> to_ascii_lowercase (trim name) <> lit "content-length" -> to_ascii_lowercase (trim name) <> lit "connection" ->
  header_line err what (name ++ ":"%byte :: value) h = Ok h.
Proof. intros Hc H1 H2. unfold header_line. rewrite split_once_app by done. by rewrite !decide_False. Qed.

Lemma header_lines_cons line rest h :
  line <> [] ->
  header_lines (line :: rest) h = let? h := header_line HBadRequest (lit "malformed header: ") line h in header_lines rest h.
Proof. by destruct line. Qed.
Definition request_lines (host : str) (n : Z) : list str :=
  [lit "POST " ++ RPC_PATH ++ lit " HTTP/1.1"; lit "Host: " ++ host; lit "Content-Type: " ++ CONTENT_TYPE;
   lit "Content-Length: " ++ dec n; lit "Connection: keep-alive"].
Lemma request_head_lines host n : request_head host n = join CRLF (request_lines host n) ++ CRLF ++ CRLF.
Proof. unfold request_head, request_lines. cbn [join]. by rewrite <- !app_assoc. Qed.
Lemma request_lines_printable host n : printable host -> Forall printable (request_lines host n).
Proof. intros Hh. unfold request_lines. do 5 (constructor; [printable|]). constructor. Qed.
Lemma request_lines_plain host n : printable host -> Forall plain_line (request_lines host n).
Proof.
  intros Hh. pose proof (request_lines_printable host n Hh) as Hp. unfold request_lines in *.
  do 5 (apply Forall_cons in Hp as [? Hp]; constructor; [apply printable_plain; [done|discriminate]|]). constructor.
Qed.

(** The server finds the client's head and reads the request line and the length
    from it. *)
Lemma request_head_found host n rest :
  printable host -> find_double_crlf (request_head host n ++ rest) = Some (len (request_head host n) - 4).
Proof.
  intros Hh. rewrite request_head_lines, <- !app_assoc.
  rewrite (find_joined (request_lines host n) rest) by (by apply request_lines_plain).
  rewrite !len_app. f_equal. change (len CRLF) with 2. lia.
Qed.
Lemma request_head_parsed host n rest :
  printable host -> in_u64 n ->
  parse_http_head_from_buf (take (Z.to_nat (len (request_head host n) - 4)) (request_head host n ++ rest))
  = Ok (mkHead (lit "POST") RPC_PATH (Some n) true).
Proof.
  intros Hh Hn. rewrite request_head_lines, <- !app_assoc. set (ls := request_lines host n).
  assert (Z.to_nat (len (join CRLF ls ++ CRLF ++ CRLF) - 4) = length (join CRLF ls)) as ->.
  { rewrite !len_app. change (len CRLF) with 2. unfold len. lia. }
  rewrite take_app_length. unfold parse_http_head_from_buf.
  rewrite utf8_valid_ascii by (by apply join_ascii, request_lines_printable). cbn [negb].
  rewrite split_joined by (done || by apply request_lines_plain). unfold ls, request_lines.
  assert (split_whitespace (lit "POST " ++ RPC_PATH ++ lit " HTTP/1.1") = [lit "POST"; RPC_PATH; lit "HTTP/1.1"]) as ->
    by (vm_compute; reflexivity).
  assert (header_lines [lit "Host: " ++ host; lit "Content-Type: " ++ CONTENT_TYPE; lit "Content-Length: " ++ dec n;
                        lit "Connection: keep-alive"] (None, None) = Ok (Some n, Some (lit "keep-alive"))) as ->; [|run_res; reflexivity].
  rewrite header_lines_cons by discriminate.
  change (lit "Host: " ++ host) with (lit "Host" ++ ":"%byte :: " "%byte :: host).
  rewrite other_line by by_eval. run_res. rewrite header_lines_cons by discriminate.
  change (lit "Content-Type: " ++ CONTENT_TYPE) with (lit "Content-Type" ++ ":"%byte :: " "%byte :: CONTENT_TYPE).
  rewrite other_line by by_eval. run_res. rewrite header_lines_cons by discriminate.
  rewrite content_length_line by done. run_res. vm_compute. reflexivity.
Qed.

(** *** The client *)
Definition unread (rd : Reader) : bytes := rd.1 ++ arrived rd.2.
Lemma split_once_sound (c : byte) s a b : split_once c s = Some (a, b) -> s = a ++ c :: b /\ (c ∉ a).
Proof.
  revert a b. induction s as [|x s IH]; intros a b; cbn [split_once]; [done|]. case_decide as Hx.
  - intros [<- <-]%Some_pair_inj. subst. split; [done|]. apply not_elem_of_nil.
  - destruct (split_once c s) as [[a' b']|]; cbn [option_map fst snd]; [|done]. intros [<- <-]%Some_pair_inj.
    destruct (IH a' b' eq_refl) as [-> Hn]. split; [done|]. apply not_elem_of_cons. split; [by intros ->|done].
Qed.
Lemma read_line_at line rest rd :
  (LF ∉ line) -> utf8_valid (line ++ [LF]) = true -> unread rd = line ++ LF :: rest ->
  exists rd', read_line rd = Some (rd', Ok (line ++ [LF])) /\ unread rd' = rest /\ ib_end rd'.2 = ib_end rd.2.
Proof.
  intros Hl Hu E. unfold read_line. match goal with |- context [fill ?f] => set (step := f) end.
  assert (forall b n, step b = inr n -> split_once LF b = None /\ 0 < n) as Hstep.
  { intros b n. unfold step. destruct (split_once LF b); [done|]. by intros [= <-]. }
  pose proof (fill_spec step (fun b n Hb => proj2 (Hstep b n Hb)) rd.1 rd.2) as Hf. fold (unread rd) in Hf. rewrite E in Hf.
  destruct (fill step rd.1 rd.2) as [[[buf ib] [[l r]|e]]|]; cbn [mbind option_bind].
  - destruct Hf as (Es & Eb & Ee). unfold step in Es. destruct (split_once LF buf) as [[l' r']|] eqn:Eo; [|done].
    injection Es as -> ->. apply split_once_sound in Eo as [-> Hn]. rewrite <- app_assoc in Eb. cbn [app] in Eb.
    destruct (split_unique LF l line (r ++ arrived ib) rest Hn Hl (eq_sym Eb)) as [-> Er].
    rewrite Hu. by exists (r, ib).
  - destruct Hf as (-> & _ & n & Es). apply Hstep in Es as [Es _]. by rewrite split_once_app in Es.
  - destruct Hf as (_ & n & Es). apply Hstep in Es as [Es _]. by rewrite split_once_app in Es.
Qed.
Lemma reader_read_exact_at b rest rd :
  unread rd = b ++ rest ->
  exists rd', reader_read_exact (len b) rd = Some (rd', Ok b) /\ unread rd' = rest /\ ib_end rd'.2 = ib_end rd.2.
Proof.
  intros E. unfold reader_read_exact. match goal with |- context [fill ?f] => set (step := f) end.
  assert (forall c n, step c = inr n -> len c < len b /\ 0 < n) as Hstep.
  { intros c n. unfold step. case_decide; [|done]. intros [= <-]. lia. }
  pose proof (fill_spec step (fun b n Hb => proj2 (Hstep b n Hb)) rd.1 rd.2) as Hf. fold (unread rd) in Hf.
  destruct (fill step rd.1 rd.2) as [[[buf ib] [[]|e]]|]; cbn [mbind option_bind].
  - destruct Hf as (Es & Eb & Ee). unfold step in Es. case_decide as Hlt; [done|]. rewrite E in Eb.
    assert (take (Z.to_nat (len b)) buf = b) as Et.
    { rewrite <- (take_prefix buf (arrived ib)) by (pose proof (len_nonneg b); lia). rewrite <- Eb. unfold len. by rewrite Nat2Z.id, take_app_length. }
    rewrite Et. eexists. split; [reflexivity|]. split; [|done]. unfold unread. cbn [fst snd].
    rewrite <- drop_prefix by (pose proof (len_nonneg b); lia). rewrite <- Eb. unfold len. by rewrite Nat2Z.id, drop_app_length.
  - exfalso. destruct Hf as (-> & _ & n & Es). apply Hstep in Es as [Es _]. rewrite E, len_app in Es. pose proof (len_nonneg rest). lia.
  - exfalso. destruct Hf as (_ & n & Es). apply Hstep in Es as [Es _]. rewrite E, len_app in Es. pose proof (len_nonneg rest). lia.
Qed.

Lemma ascii_line_valid l : printable l -> utf8_valid ((l ++ [CR]) ++ [LF]) = true.
Proof. intros Hl. apply utf8_valid_ascii, Forall_app_2; [|by repeat constructor]. apply Forall_app_2; [by apply printable_ascii|by repeat constructor]. Qed.
Lemma trim_eol_line l : printable l -> trim_eol ((l ++ [CR]) ++ [LF]) = l.
Proof.
  intros Hl. unfold trim_eol. rewrite !reverse_app. cbn [reverse rev_append app drop_eol]. rewrite !decide_True by auto.
  assert (drop_eol (reverse l) = reverse l) as ->; [|apply reverse_involutive].
  apply Forall_reverse in Hl. destruct (reverse l) as [|c t]; [done|]. apply Forall_cons in Hl as [Hc _]. cbn [drop_eol].
  rewrite decide_False; [done|]. by intros [->| ->].
Qed.
Lemma read_crlf_line l rest rd :
  printable l -> unread rd = l ++ CRLF ++ rest ->
  exists rd', read_line rd = Some (rd', Ok ((l ++ [CR]) ++ [LF])) /\ unread rd' = rest /\ ib_end rd'.2 = ib_end rd.2.
Proof.
  intros Hl E. apply read_line_at; [|by apply ascii_line_valid|by rewrite E, <- app_assoc].
  intros [Hin|Hin]%elem_of_app; [by apply (printable_no LF l) in Hin|]. by apply list_elem_of_singleton in Hin.
Qed.
Lemma len_line l : len ((l ++ [CR]) ++ [LF]) = len l + 2.
Proof. rewrite !len_app. change (len [CR]) with 1. change (len [LF]) with 1. lia. Qed.

Lemma response_headers_line fuel l rest hb h h' rd :
  unread rd = l ++ CRLF ++ rest -> printable l -> l <> [] -> hb + (len l + 2) <= MAX_HEAD_BYTES ->
  header_line HcCodec (lit "malformed response header: ") l h = Ok h' ->
  exists rd', response_headers (S fuel) hb h rd = response_headers fuel (hb + (len l + 2)) h' rd' /\
    unread rd' = rest /\ ib_end rd'.2 = ib_end rd.2.
Proof.
  intros E Hl Hne Hb Hh. destruct (read_crlf_line l rest rd Hl E) as (rd' & Er & Eu & Ee). exists rd'. split; [|done].
  cbn [response_headers]. rewrite Er. cbn [mbind option_bind].
  destruct ((l ++ [CR]) ++ [LF]) as [|x t] eqn:Ec; [by destruct l|]. rewrite <- Ec, len_line, decide_False by lia.
  rewrite trim_eol_line by done. destruct l; [done|]. by rewrite Hh.
Qed.
Lemma response_headers_end fuel rest hb h rd :
  unread rd = CRLF ++ rest -> hb + 2 <= MAX_HEAD_BYTES ->
  exists rd', response_headers (S fuel) hb h rd = Some (rd', Ok h) /\ unread rd' = rest /\ ib_end rd'.2 = ib_end rd.2.
Proof.
  intros E Hb. destruct (read_crlf_line [] rest rd ltac:(constructor) E) as (rd' & Er & Eu & Ee). exists rd'. split; [|done].
  cbn [response_headers]. rewrite Er. cbn [mbind option_bind app]. change (len [CR; LF]) with 2. by rewrite decide_False by lia.
Qed.
(** The rounds are enough: a line takes a byte. *)
Lemma response_headers_enough fuel fuel' hb h rd :
  MAX_HEAD_BYTES - hb < Z.of_nat fuel -> MAX_HEAD_BYTES - hb < Z.of_nat fuel' -> hb <= MAX_HEAD_BYTES ->
  response_headers fuel hb h rd = response_headers fuel' hb h rd.
Proof.
  revert fuel' hb h rd. induction fuel as [|fuel IH]; intros fuel' hb h rd Hf Hf' Hb; [lia|]. destruct fuel' as [|fuel']; [lia|].
  cbn [response_headers]. destruct (read_line rd) as [[rd' [[|x l]|e]]|]; cbn [mbind option_bind]; [done| |done..].
  case_decide as Hl; [done|]. destruct (trim_eol (x :: l)) as [|y t]; [done|].
  destruct (header_line _ _ _ _) as [h'|e]; [|done]. apply IH; unfold len in *; cbn [length] in *; lia.
Qed.

Lemma response_head_read status reason ct n keep rest rd :
  printable reason -> printable ct -> 0 <= status <= u16_max -> 0 <= n <= MAX_BODY_BYTES ->
  len (response_head status reason ct n keep) <= MAX_HEAD_BYTES ->
  unread rd = response_head status reason ct n keep ++ rest ->
  exists rd', read_response_head rd = Some (rd', Ok (status, n, keep)) /\ unread rd' = rest /\ ib_end rd'.2 = ib_end rd.2.
Proof.
  intros Hreason Hct Hs Hn Hlen E. unfold response_head in E, Hlen. rewrite !len_app in Hlen. change (len CRLF) with 2 in Hlen.
  set (conn := if keep then lit "keep-alive" else lit "close") in *.
  assert (printable conn) as Hconn by (unfold conn; destruct keep; printable).
  set (sl := lit "HTTP/1.1 " ++ dec status ++ lit " " ++ reason).
  set (l1 := lit "Content-Type: " ++ ct). set (l2 := lit "Content-Length: " ++ dec n). set (l3 := lit "Connection: " ++ conn).
  assert (unread rd = sl ++ CRLF ++ l1 ++ CRLF ++ l2 ++ CRLF ++ l3 ++ CRLF ++ CRLF ++ rest) as E0.
  { rewrite E. unfold sl, l1, l2, l3. by rewrite <- !app_assoc. }
  assert (len sl + (len l1 + 2) + (len l2 + 2) + (len l3 + 2) + 4 <= MAX_HEAD_BYTES) as Hl.
  { unfold sl, l1, l2, l3. rewrite !len_app. lia. }
  assert (in_u64 n) as Hu by (unfold in_u64; change MAX_BODY_BYTES with 268435456 in Hn; lia).
  clear E Hlen. pose proof (len_nonneg l1). pose proof (len_nonneg l2). pose proof (len_nonneg l3). unfold read_response_head.
  destruct (read_crlf_line sl _ rd ltac:(unfold sl; printable) E0) as (rd1 & -> & E1 & Ee1). cbn [mbind option_bind].
  destruct ((sl ++ [CR]) ++ [LF]) as [|x t] eqn:Ec; [by destruct sl|]. rewrite <- Ec. clear x t Ec.
  assert (status_parts ((sl ++ [CR]) ++ [LF]) = Some (lit "HTTP/1.1", dec status)) as ->.
  { unfold sl, status_parts. change (lit "HTTP/1.1 ") with (lit "HTTP/1.1" ++ [" "%byte]). rewrite <- !app_assoc. cbn [app].
    rewrite split_once_app by by_eval. cbn [mbind option_bind]. change (lit " ") with [" "%byte]. cbn [app].
    by rewrite split_once_app by (by apply dec_no). }
  unfold parse_u16. rewrite parse_bounded_dec by lia. rewrite len_line.
  assert (exists k, S (Z.to_nat MAX_HEAD_BYTES) = S (S (S (S k)))) as [k ->].
  { exists (Z.to_nat MAX_HEAD_BYTES - 3)%nat. unfold MAX_HEAD_BYTES. lia. }
  destruct (response_headers_line (S (S (S k))) l1 _ (len sl + 2) (None, None) (None, None) rd1 E1) as (rd2 & -> & E2 & Ee2);
    [unfold l1; printable|discriminate|lia| |].
  { unfold l1. change (lit "Content-Type: " ++ ct) with (lit "Content-Type" ++ ":"%byte :: " "%byte :: ct). apply other_line; by_eval. }
  destruct (response_headers_line (S (S k)) l2 _ (len sl + 2 + (len l1 + 2)) (None, None) (Some n, None) rd2 E2) as (rd3 & -> & E3 & Ee3);
    [unfold l2; printable|discriminate|lia|by apply content_length_line|].
  destruct (response_headers_line (S k) l3 _ (len sl + 2 + (len l1 + 2) + (len l2 + 2)) (Some n, None) (Some n, Some conn) rd3 E3)
    as (rd4 & -> & E4 & Ee4); [unfold l3; printable|discriminate|lia| |].
  { unfold l3, conn. destruct keep; vm_compute; reflexivity. }
  destruct (response_headers_end k rest (len sl + 2 + (len l1 + 2) + (len l2 + 2) + (len l3 + 2)) (Some n, Some conn) rd4 E4 ltac:(lia))
    as (rd5 & -> & E5 & Ee5). cbn [mbind option_bind]. run_res. rewrite decide_False by lia.
  exists rd5. split; [|by rewrite Ee5, Ee4, Ee3, Ee2, Ee1]. unfold conn. by destruct keep.
Qed.
End HeadRoundTrip.

(** ** A client and a server on one connection *)
Section Session.
Context `{!Crc32c} `{!Texts} `{!RkyvCodec WireRequest, !RkyvCodec WireResponse, !RkyvCodecLaws WireRequest, !RkyvCodecLaws WireResponse}.
Context {St : Type} (dispatch : Z -> WireRequest -> St -> option (St * WireResponse)) (conn_id : Z).
(** How the network cuts what is sent into pieces, in the course of time. *)
Context (cut : nat -> bytes -> list bytes) (cut_all : forall t b, concat (cut t b) = b).

Record HttpSession := mkHttpSession { hs_pool : Pool St; hs_conn : Conn; hs_over : bool; hs_inbox : Inbox; hs_time : nat }.
Definition more_input (pieces : list bytes) (c : Conn) : Conn :=
  mkConn (cn_buf c) (mkInbox (ib_pieces (cn_inbox c) ++ pieces) (ib_end (cn_inbox c))) (cn_sink c).
(** The server runs whenever bytes arrive; what it writes is on its way to the
    client. *)
Definition session_send (b : bytes) (se : HttpSession) : HttpSession * result unit IoError :=
  if hs_over se then (se, Err (mkIo BrokenPipe (lit "broken pipe"))) else
  let t := hs_time se in
  let '(p, c, out) := handle_http_connection dispatch conn_id (hs_pool se) (more_input (cut t b) (hs_conn se)) in
  let over := match out with RouteWaits => false | _ => true end in
  (mkHttpSession p (mkConn (cn_buf c) (cn_inbox c) (mkSink [] (sk_fate (cn_sink c)))) over
     (mkInbox (ib_pieces (hs_inbox se) ++ cut (S t) (sk_out (cn_sink c))) (if over then Some Closed else None)) (S (S t)), Ok tt).
#[export] Instance session_endpoint : Endpoint HttpSession := {|
  ep_write := session_send; ep_try_clone _ := Ok tt; ep_inbox := hs_inbox;
  ep_set_inbox ib se := mkHttpSession (hs_pool se) (hs_conn se) (hs_over se) ib (hs_time se)
|}.

(** An open connection: what the server has not answered, and what the client has
    not read. *)
Definition open_with (p : Pool St) (pending : bytes) (replies : bytes) (se : HttpSession) : Prop :=
  hs_pool se = p /\ hs_over se = false /\ all_input (hs_conn se) = pending /\ ib_end (cn_inbox (hs_conn se)) = None /\
  cn_sink (hs_conn se) = mkSink [] [] /\ arrived (hs_inbox se) = replies /\ ib_end (hs_inbox se) = None.
Lemma session_sends b p p' pending replies rest out se :
  open_with p pending replies se ->
  flat_connection dispatch conn_id p (pending ++ b) None (mkSink [] []) = Some (p', rest, mkSink out [], RouteWaits) ->
  exists se', session_send b se = (se', Ok tt) /\ open_with p' rest (replies ++ out) se'.
Proof.
  intros (<- & Ho & <- & He & Hk & <- & Hi) Hflat. unfold session_send. rewrite Ho.
  set (c := more_input _ _).
  assert (all_input c = all_input (hs_conn se) ++ b) as Ec.
  { unfold c, all_input, arrived. cbn [more_input cn_buf cn_inbox ib_pieces]. by rewrite concat_app, cut_all, app_assoc. }
  rewrite <- Ec, <- He, <- Hk in Hflat. destruct (loop_agrees dispatch conn_id (S (length (all_input c))) (S (length (all_input c)))
    (hs_pool se) c _ ltac:(lia) ltac:(lia) Hflat) as [_ (c' & Eh & Ek & Hgo)].
  unfold handle_http_connection. fold (all_input c). rewrite Eh. destruct (Hgo (or_intror eq_refl)) as [Er Ee].
  eexists. split; [reflexivity|]. unfold open_with. cbn [hs_pool hs_over hs_conn hs_inbox cn_buf cn_inbox cn_sink ib_end].
  rewrite Ek. cbn [sk_out sk_fate]. do 3 (split; [done|]). split; [by rewrite Ee|]. split; [done|].
  split; [|done]. unfold arrived. cbn [ib_pieces]. by rewrite concat_app, cut_all.
Qed.

(** Messages within the limit on bodies, which counts the envelope. *)
Definition http_request_fits (req : WireRequest) : Prop :=
  exists b, encode_request req = Ok b /\ WIRE_ENVELOPE_BYTES + len b <= MAX_BODY_BYTES.
Definition http_response_fits (resp : WireResponse) : Prop :=
  exists b, encode_response resp = Ok b /\ WIRE_ENVELOPE_BYTES + len b <= MAX_BODY_BYTES.
Definition good_host (host : str) : Prop := printable host /\ len host <= 16000.

Lemma length_dec z : (0 < length (dec z) <= 20)%nat.
Proof.
  split; [pose proof (dec_length_pos z); destruct (dec z); [done|cbn [length]; lia]|]. unfold dec.
  rewrite <- (length_dec_fixed 20 z). fold (pad20 z). generalize (pad20 z). intros s. induction s as [|c s IH]; [done|].
  destruct s as [|d s]; [done|].
  change (trim_zeros (c :: d :: s)) with (if decide (c = "0"%byte) then trim_zeros (d :: s) else c :: d :: s).
  case_decide; [|done]. etrans; [exact IH|]. cbn [length]. lia.
Qed.
Lemma len_request_head host n : len host <= 16000 -> 4 < len (request_head host n) <= MAX_HEAD_BYTES.
Proof.
  intros Hh. unfold request_head. rewrite !len_app. pose proof (length_dec n) as Hd. pose proof (len_nonneg host).
  repeat match goal with |- context [len (lit ?s)] => let v := eval vm_compute in (len (lit s)) in change (len (lit s)) with v end.
  change (len CRLF) with 2. change (len RPC_PATH) with 12. change (len CONTENT_TYPE) with 27. unfold MAX_HEAD_BYTES. unfold len in *. lia.
Qed.
Lemma len_response_ok n : len (response_head 200 (lit "OK") CONTENT_TYPE n true) <= MAX_HEAD_BYTES.
Proof.
  unfold response_head. rewrite !len_app. pose proof (length_dec n) as Hd. pose proof (length_dec 200) as Hs.
  repeat match goal with |- context [len (lit ?s)] => let v := eval vm_compute in (len (lit s)) in change (len (lit s)) with v end.
  change (len CRLF) with 2. change (len CONTENT_TYPE) with 27. unfold MAX_HEAD_BYTES. unfold len in *. lia.
Qed.
Lemma decode_framed b : len b <= u32_max -> decode_envelope (framed b) = Ok b.
Proof.
  intros Hb. pose proof (len_nonneg b). pose proof (crc32c_range b). pose proof (len_framed b) as Hl. unfold decode_envelope, framed in *.
  change WIRE_ENVELOPE_BYTES with 16. rewrite decide_False by lia.
  rewrite slice_app_start by (by rewrite len_envelope_header).
  rewrite decode_header_layout by (done || (unfold in_u32; lia)). run_res. cbn [env_len].
  unfold checked_add. rewrite decide_True by lia. run_res. rewrite decide_False by lia.
  rewrite <- Hl, slice_app_end by (by rewrite len_envelope_header).
  unfold verify_envelope_crc. cbn [env_len crc]. by rewrite !decide_False by (intros Hx; by apply Hx).
Qed.

Lemma flat_idle fuel p k : flat_loop dispatch conn_id (S fuel) p [] None k = Some (p, [], k, RouteWaits).
Proof. cbn [flat_loop]. unfold flat_turn. cbn [find_double_crlf]. by rewrite decide_False by (unfold MAX_HEAD_BYTES, len; cbn [length]; lia). Qed.
(** A turn on the client's head, with as much of the body as there is. *)
Lemma flat_turn_head host n p rest k :
  good_host host -> 0 <= n <= MAX_BODY_BYTES ->
  flat_turn dispatch conn_id p (request_head host n ++ rest) None k =
  if decide (len rest < n) then Some (p, request_head host n ++ rest, k, RouteWaits)
  else let '(p', k', out) := http_answer dispatch conn_id true (take (Z.to_nat n) rest) p k in
       Some (p', drop (Z.to_nat n) rest, k', out).
Proof.
  intros [Hh Hlh] Hn. unfold flat_turn. rewrite request_head_found by done. pose proof (len_request_head host n Hlh) as Hl.
  rewrite decide_False by lia.
  rewrite request_head_parsed by (done || (unfold in_u64; change MAX_BODY_BYTES with 268435456 in Hn; lia)).
  unfold route. cbn [hd_method hd_path hd_content_length hd_keep_alive].
  rewrite decide_False by by_eval. rewrite decide_False by by_eval. rewrite decide_False by lia.
  replace (len (request_head host n) - 4 + 4) with (len (request_head host n)) by lia.
  replace (drop (Z.to_nat (len (request_head host n))) (request_head host n ++ rest)) with rest; [done|].
  unfold len. by rewrite Nat2Z.id, drop_app_length.
Qed.
Lemma flat_connection_unfold p bs e k :
  flat_connection dispatch conn_id p bs e k =
  '(p, bs', k, out) ← flat_turn dispatch conn_id p bs e k;
  match out with ContinueKeepAlive => flat_loop dispatch conn_id (length bs) p bs' e k | _ => Some (p, bs', k, out) end.
Proof. done. Qed.

(** The server's side of one exchange. *)
Lemma flat_request host req b w s s' resp rb out :
  good_host host -> encode_request req = Ok b -> 16 + len b <= MAX_BODY_BYTES ->
  dispatch conn_id req s = Some (s', resp) -> encode_response resp = Ok rb -> 16 + len rb <= MAX_BODY_BYTES ->
  flat_connection dispatch conn_id (mkPool s (S w)) (request_head host (len (framed b)) ++ framed b) None (mkSink out [])
  = Some (mkPool s' (S w), [], mkSink ((out ++ response_head 200 (lit "OK") CONTENT_TYPE (len (framed rb)) true) ++ framed rb) [], RouteWaits).
Proof.
  intros Hhost Eb Hb Ed Er Hr. pose proof (len_nonneg b). pose proof (len_nonneg rb). pose proof (len_framed b) as Hlb. pose proof (len_framed rb) as Hlr.
  rewrite flat_connection_unfold, flat_turn_head by (done || lia). rewrite decide_False by lia. rewrite take_whole, drop_whole.
  change MAX_BODY_BYTES with 268435456 in Hb, Hr.
  unfold http_answer. rewrite decode_framed by lia. rewrite (encoded_request req b Eb).
  unfold dispatch_async. cbn [pl_workers pl_state]. rewrite Ed, Er, encode_envelope_framed by (change MAX_FRAME_BYTES with 268435456; lia).
  assert (write_compio_response 200 (lit "OK") CONTENT_TYPE (framed rb) true (mkSink out [])
    = (mkSink ((out ++ response_head 200 (lit "OK") CONTENT_TYPE (len (framed rb)) true) ++ framed rb) [], Ok tt)) as ->.
  { unfold write_compio_response, send. cbn [sk_fate sk_out].
    destruct (framed rb); [change (len (@nil byte)) with 0 in Hlr; lia|done]. }
  cbn [responded mbind option_bind].
  assert (exists k, length (request_head host (len (framed b)) ++ framed b) = S k) as [k ->]; [|apply flat_idle].
  exists (length (request_head host (len (framed b)) ++ framed b) - 1)%nat. rewrite length_app. unfold len in Hlb. lia.
Qed.
Lemma flat_head_alone host n p k :
  good_host host -> 0 < n <= MAX_BODY_BYTES ->
  flat_connection dispatch conn_id p (request_head host n) None k = Some (p, request_head host n, k, RouteWaits).
Proof.
  intros Hhost Hn. rewrite flat_connection_unfold. rewrite <- (app_nil_r (request_head host n)), flat_turn_head by (done || lia).
  by rewrite decide_True by (change (len (@nil byte)) with 0; lia).
Qed.
(** The client's. *)
Lemma read_reply resp rb p se :
  encode_response resp = Ok rb -> 16 + len rb <= MAX_BODY_BYTES ->
  open_with p [] (response_head 200 (lit "OK") CONTENT_TYPE (len (framed rb)) true ++ framed rb) se ->
  exists se', http_read_response se = Some (se', Ok resp) /\ open_with p [] [] se'.
Proof.
  intros Er Hr (Hp & Ho & Hin & He & Hk & Hrep & Hend). pose proof (len_nonneg rb). pose proof (len_framed rb) as Hlr.
  unfold http_read_response. cbn [ep_inbox session_endpoint].
  destruct (response_head_read 200 (lit "OK") CONTENT_TYPE (len (framed rb)) true (framed rb) ([], hs_inbox se)) as (rd & -> & Erd & Eerd);
    [printable|printable|lia|lia|apply len_response_ok|exact Hrep|].
  cbn [mbind option_bind]. rewrite <- (app_nil_r (framed rb)) in Erd.
  destruct (reader_read_exact_at (framed rb) [] rd Erd) as (rd' & -> & Erd' & Eerd'). cbn [mbind option_bind].
  run_res. rewrite decide_False by lia. change MAX_BODY_BYTES with 268435456 in Hr.
  rewrite decode_framed by lia. run_res. rewrite (encoded_response resp rb Er).
  eexists. split; [reflexivity|]. unfold open_with. cbn [hs_pool hs_over hs_conn hs_inbox ep_set_inbox session_endpoint].
  do 5 (split; [done|]). split; [by apply app_nil in Erd' as [_ ?]|]. by rewrite Eerd', Eerd.
Qed.
Lemma http_exchange_in_step host req w s s' resp se :
  good_host host -> open_with (mkPool s (S w)) [] [] se -> http_request_fits req ->
  dispatch conn_id req s = Some (s', resp) -> http_response_fits resp ->
  exists se', http_exchange host req se = Some (se', Ok resp) /\ open_with (mkPool s' (S w)) [] [] se'.
Proof.
  intros Hhost Hse (b & Eb & Hb) Ed (rb & Er & Hr). change WIRE_ENVELOPE_BYTES with 16 in Hb, Hr.
  pose proof (len_nonneg b). pose proof (len_framed b) as Hlb.
  unfold http_exchange. rewrite Eb, encode_envelope_framed by (change MAX_FRAME_BYTES with MAX_BODY_BYTES; lia).
  cbn [mbind option_bind ep_write session_endpoint].
  assert (0 < len (framed b) <= MAX_BODY_BYTES) as Hn by lia.
  destruct (session_sends (request_head host (len (framed b))) _ _ _ _ _ _ _ Hse (flat_head_alone host (len (framed b)) _ _ Hhost Hn))
    as (se1 & -> & Hse1).
  destruct (session_sends (framed b) _ _ _ _ _ _ _ Hse1 (flat_request host req b w s s' resp rb [] Hhost Eb Hb Ed Er Hr)) as (se2 & -> & Hse2).
  cbn [ep_try_clone session_endpoint]. by apply (read_reply resp rb).
Qed.

(** A conversation over HTTP. *)
Fixpoint http_talk (host : str) (reqs : list WireRequest) (se : HttpSession)
  : option (HttpSession * list (result WireResponse HttpClientError)) :=
  match reqs with
  | [] => Some (se, [])
  | req :: rest => '(se, r) ← http_exchange host req se; '(se, rs) ← http_talk host rest se; Some (se, r :: rs)
  end.
(** C27: hTTP is transparent too: on a working connection, however the network cuts
    what is sent, a client that sends requests one after the other gets the
    responses the dispatcher gives to them in that order, as long as the messages
    with their envelopes are within the limit on bodies; neither side waits for
    ever or falls out of step. *)
Theorem http_transparent host reqs w s s' resps se :
  good_host host -> open_with (mkPool s (S w)) [] [] se -> Forall http_request_fits reqs ->
  dispatched dispatch conn_id reqs s = Some (s', resps) -> Forall http_response_fits resps ->
  exists se', http_talk host reqs se = Some (se', map Ok resps) /\ open_with (mkPool s' (S w)) [] [] se'.
Proof.
  intros Hhost Hse Hreqs. revert s resps se Hse. induction Hreqs as [|req reqs Hreq _ IH]; intros s resps se Hse; cbn [dispatched http_talk].
  { intros [<- <-]%Some_pair_inj _. by exists se. }
  destruct (dispatch conn_id req s) as [[s1 resp]|] eqn:Ed; cbn [mbind option_bind]; [|done].
  destruct (dispatched dispatch conn_id reqs s1) as [[s2 resps2]|] eqn:Er; cbn [mbind option_bind]; [|done].
  intros [<- <-]%Some_pair_inj [Hresp Hresps]%Forall_cons.
  destruct (http_exchange_in_step host req w s s1 resp se Hhost Hse Hreq Ed Hresp) as (se1 & -> & Hse1). cbn [mbind option_bind].
  destruct (IH s1 resps2 se1 Hse1 Er Hresps) as (se2 & -> & Hse2). by exists se2.
Qed.

(** *** A body that nobody reads

    A request for an unknown route is refused without its body, which stays in the
    buffer: when it has the form of a request, it is dispatched as the next one. *)
Definition other_head (n : Z) : str :=
  lit "POST /other HTTP/1.1" ++ CRLF ++ lit "Content-Length: " ++ dec n ++ CRLF ++ CRLF.
Lemma flat_loop_fuel fuel fuel' p bs e k :
  (length bs < fuel)%nat -> (length bs < fuel')%nat ->
  flat_loop dispatch conn_id fuel p bs e k = flat_loop dispatch conn_id fuel' p bs e k.
Proof.
  revert fuel' p bs k. induction fuel as [|fuel IH]; intros fuel' p bs k Hf Hf'; [lia|]. destruct fuel' as [|fuel']; [lia|].
  cbn [flat_loop]. destruct (flat_turn _ _ p bs e k) as [[[[p1 bs1] k1] []]|] eqn:Et; cbn [mbind option_bind]; try done.
  apply flat_turn_shorter in Et. apply IH; lia.
Qed.
Lemma other_head_refused n rest p k :
  in_u64 n ->
  flat_turn dispatch conn_id p (other_head n ++ rest) None k =
  let (k, r) := write_compio_response 404 (lit "Not Found") (lit "text/plain") (lit "unknown route") true k in
  Some (p, rest, k, responded true r).
Proof.
  intros Hn. set (ls := [lit "POST /other HTTP/1.1"; lit "Content-Length: " ++ dec n]).
  assert (other_head n ++ rest = join CRLF ls ++ CRLF ++ CRLF ++ rest) as -> by (unfold other_head, ls; cbn [join]; by rewrite <- !app_assoc).
  assert (Forall printable ls) as Hp by (unfold ls; do 2 (constructor; [printable|]); constructor).
  assert (Forall plain_line ls) as Hpl.
  { unfold ls in *. do 2 (apply Forall_cons in Hp as [? Hp]; constructor; [apply printable_plain; [done|discriminate]|]). constructor. }
  unfold flat_turn. rewrite (find_joined ls rest Hpl).
  assert (0 <= len (join CRLF ls) <= 100) as Hl.
  { unfold ls. cbn [join]. rewrite !len_app. pose proof (length_dec n). change (len CRLF) with 2. change (len (lit "POST /other HTTP/1.1")) with 20.
    change (len (lit "Content-Length: ")) with 16. unfold len. lia. }
  rewrite decide_False by (unfold MAX_HEAD_BYTES; lia).
  replace (drop (Z.to_nat (len (join CRLF ls) + 4)) (join CRLF ls ++ CRLF ++ CRLF ++ rest)) with rest.
  2: { rewrite (app_assoc CRLF), app_assoc. symmetry. rewrite drop_app_length'; [done|]. rewrite !length_app. cbn [length CRLF]. unfold len. lia. }
  replace (take (Z.to_nat (len (join CRLF ls))) (join CRLF ls ++ CRLF ++ CRLF ++ rest)) with (join CRLF ls)
    by (unfold len; by rewrite Nat2Z.id, take_app_length).
  unfold parse_http_head_from_buf. rewrite utf8_valid_ascii by (by apply join_ascii). cbn [negb].
  rewrite split_joined by done. unfold ls.
  assert (split_whitespace (lit "POST /other HTTP/1.1") = [lit "POST"; lit "/other"; lit "HTTP/1.1"]) as -> by (vm_compute; reflexivity).
  rewrite header_lines_cons by discriminate. rewrite content_length_line by done. run_res. cbn [header_lines]. run_res.
  unfold route. cbn [hd_method hd_path hd_keep_alive]. rewrite decide_False by by_eval. rewrite decide_True by by_eval.
  by destruct (write_compio_response _ _ _ _ _ k).
Qed.
Lemma misrouted_body_is_dispatched host req b w s s' resp rb c :
  good_host host -> encode_request req = Ok b -> 16 + len b <= MAX_BODY_BYTES ->
  dispatch conn_id req s = Some (s', resp) -> encode_response resp = Ok rb -> 16 + len rb <= MAX_BODY_BYTES ->
  let body := request_head host (len (framed b)) ++ framed b in
  all_input c = other_head (len body) ++ body -> ib_end (cn_inbox c) = None -> cn_sink c = mkSink [] [] ->
  exists c', handle_http_connection dispatch conn_id (mkPool s (S w)) c = (mkPool s' (S w), c', RouteWaits).
Proof.
  intros Hhost Eb Hb Ed Er Hr body Ec He Hk.
  assert (in_u64 (len body)) as Hu.
  { unfold body. rewrite len_app, len_framed. pose proof (len_request_head host (len (framed b)) (proj2 Hhost)). pose proof (len_nonneg b).
    rewrite len_framed in *. unfold in_u64. change MAX_BODY_BYTES with 268435456 in Hb. change MAX_HEAD_BYTES with 16384 in *. lia. }
  edestruct (loop_agrees dispatch conn_id (S (length (all_input c))) (S (length (all_input c))) (mkPool s (S w)) c) as [_ Hag];
    [lia|lia| |].
  { rewrite Ec, He, Hk. cbn [flat_loop]. rewrite other_head_refused by done. unfold write_compio_response, send. cbn [sk_fate sk_out].
    change (match lit "unknown route" with [] => ?a | _ :: _ => ?b end) with b. cbn [map_err responded mbind option_bind].
    rewrite (flat_loop_fuel _ (S (length body))); [apply (flat_request host req b w s s' resp rb); done| |lia].
    rewrite length_app. unfold other_head. rewrite length_app. change (length (lit "POST /other HTTP/1.1")) with 20%nat. lia. }
  destruct Hag as (c' & Eh & _). exists c'. unfold handle_http_connection. fold (all_input c). exact Eh.
Qed.
End Session.

Lemma http_transparent_witness :
  let H := sum_crc in let H0 := plain_texts in let H1 := countable_codec in let H2 := countable_codec in
  let cut (_ : nat) (b : bytes) := map (fun x => [x]) b in
  exists se' : HttpSession,
    @http_talk H H0 H1 H2 nat echo 7 cut (lit "127.0.0.1:7000") ping_and_put
      (mkHttpSession (mkPool 0%nat 2) (mkConn [] (mkInbox [] None) (mkSink [] [])) false (mkInbox [] None) 0)
    = Some (se', [Ok (mkResp 1 status.OK op.PING [] []); Ok (mkResp 2 status.OK op.PUT (lit "payload") [])]) /\
    open_with (mkPool 2%nat 2) [] [] se'.
Proof.
  intros H H0 H1 H2 cut.
  apply (@http_transparent H H0 H1 H2 countable_codec_laws countable_codec_laws nat echo 7 cut ltac:(intros t b; unfold cut; induction b as [|x b IH]; [done|]; cbn [map concat app]; by rewrite IH)
           (lit "127.0.0.1:7000") ping_and_put 1 0%nat 2%nat
           [mkResp 1 status.OK op.PING [] []; mkResp 2 status.OK op.PUT (lit "payload") []]).
  - split; [apply printable_lit; vm_compute; reflexivity|vm_compute; discriminate].
  - unfold open_with. do 6 (split; [reflexivity|]). reflexivity.
  - constructor; [|constructor; [|constructor]]; (eexists; split; [reflexivity|]); vm_compute; discriminate.
  - reflexivity.
  - constructor; [|constructor; [|constructor]]; (eexists; split; [reflexivity|]); vm_compute; discriminate.
Defined.
(** A ping in two pieces. *)
Definition ping_in_pieces : Conn :=
  mkConn [] (mkInbox [lit "GET /wmbt/v1/p"; lit "ing HTTP/1.1" ++ CRLF ++ lit "Connection: close" ++ CRLF ++ CRLF] None) (mkSink [] []).
Lemma http_pieces_irrelevant_witness :
  let H := sum_crc in let H0 := plain_texts in let H1 := countable_codec in let H2 := countable_codec in
  CloseConnection <> ContinueKeepAlive /\
  agrees None (mkPool 0%nat 2, [], mkSink (response_head 200 (lit "OK") (lit "text/plain") 0 false) [], CloseConnection)
    (@handle_http_connection H H0 H1 H2 nat echo 7 (mkPool 0%nat 2) ping_in_pieces).
Proof.
  intros H H0 H1 H2.
  apply (@http_pieces_irrelevant H H0 H1 H2 nat echo 7 (mkPool 0%nat 2) ping_in_pieces
           (mkPool 0%nat 2, [], mkSink (response_head 200 (lit "OK") (lit "text/plain") 0 false) [], CloseConnection)).
  vm_compute. reflexivity.
Defined.
