(* ===== verification/Lifecycle.v ===== *)
(** * Client lifecycle ([lifecycle.rs])

    Models [crates/wombatkv-daemon/src/lifecycle.rs]: the heartbeat file of a
    prefix, the client that acquires it and keeps it fresh, the daemon's monitor,
    and the clean-up of the shared-memory names.  The file system is a map from
    paths to contents, [/dev/shm] a set of names; environment variables, process
    identifiers, both clocks and the outcomes of the writing calls are arguments.

    The theorems show that a client that beats in time keeps the prefix to itself
    and is never torn down, and that a dead one is noticed and replaced. *)

From S2P Require Import Prelude Order Text Strings Wire Rpc.

Definition REQ_CONSUMER_ID : str := lit "dn".
Definition RESP_CONSUMER_ID : str := lit "cn".
Definition HEARTBEAT_DIR_ENV : str := lit "WMBT_KV_DAEMON_SHM_HEARTBEAT_DIR".
Definition HEARTBEAT_DISABLE_ENV : str := lit "WMBT_KV_DAEMON_SHM_HEARTBEAT_DISABLE".
Definition HEARTBEAT_INTERVAL_MS_ENV : str := lit "WMBT_KV_DAEMON_SHM_HEARTBEAT_INTERVAL_MS".
Definition HEARTBEAT_STALE_MS_ENV : str := lit "WMBT_KV_DAEMON_SHM_HEARTBEAT_STALE_MS".
Definition HEARTBEAT_CHECK_MS_ENV : str := lit "WMBT_KV_DAEMON_SHM_HEARTBEAT_CHECK_MS".
Definition DEFAULT_HEARTBEAT_INTERVAL_MS : Z := 500.
Definition DEFAULT_HEARTBEAT_STALE_MS : Z := 3000.
Definition DEFAULT_HEARTBEAT_CHECK_MS : Z := 250.

(** ** Names *)

(** A character that is not a letter, a digit, [-] or [_] becomes one [_]; the later
    bytes of a character go with its first. *)
Definition sanitize_char (c : byte) : str :=
  if is_ascii_alphanumeric c || bool_decide (c = "-"%byte) || bool_decide (c = "_"%byte) then [c]
  else if between 128 191 c then [] else ["_"%byte].
Definition sanitize_prefix (prefix : str) : str := concat (map sanitize_char prefix).
(** [dir.join(name)] for a relative name *)
Definition path_join (dir name : str) : str :=
  match dir with
  | [] => name
  | _ => if decide (last dir = Some "/"%byte) then dir ++ name else dir ++ "/"%byte :: name
  end.
Definition heartbeat_dir (env : str -> option str) (temp_dir : str) : str :=
  match env HEARTBEAT_DIR_ENV with Some dir => dir | None => path_join temp_dir (lit "wombatkv-puffer-shm") end.
Definition heartbeat_path (env : str -> option str) (temp_dir prefix : str) : str :=
  path_join (heartbeat_dir env temp_dir) (sanitize_prefix prefix ++ lit ".heartbeat").
(** [path.with_extension(ext)], with the extension of a file name that starts with
    its only dot being none; the argument is reversed. *)
Fixpoint rev_stem (rev : str) : option str :=
  match rev with
  | [] => None
  | c :: rest => if decide (c = "/"%byte) then None
                 else if decide (c = "."%byte) then match rest with [] => None | d :: _ => if decide (d = "/"%byte) then None else Some rest end
                 else rev_stem rest
  end.
Definition with_extension (path ext : str) : str :=
  match rev_stem (reverse path) with Some stem => reverse stem | None => path end ++ "."%byte :: ext.

Definition heartbeat_enabled (env : str -> option str) : bool :=
  match env HEARTBEAT_DISABLE_ENV with
  | Some v => negb (bool_decide (v ∈ [lit "1"; lit "true"; lit "on"; lit "yes"; lit "y"; lit "enable"; lit "enabled"]))
  | None => true
  end.
(** Durations are in milliseconds. *)
Definition duration_from_env_ms (env : str -> option str) (name : str) (default_ms : Z) : Z :=
  default default_ms (v ← env name; parse_u64 v).
Definition heartbeat_interval (env : str -> option str) : Z := duration_from_env_ms env HEARTBEAT_INTERVAL_MS_ENV DEFAULT_HEARTBEAT_INTERVAL_MS.
Definition stale_after (env : str -> option str) : Z := duration_from_env_ms env HEARTBEAT_STALE_MS_ENV DEFAULT_HEARTBEAT_STALE_MS.
Definition check_interval (env : str -> option str) : Z := duration_from_env_ms env HEARTBEAT_CHECK_MS_ENV DEFAULT_HEARTBEAT_CHECK_MS.

(** The names of a ring and of its parts. *)
Definition ring_names (base consumer_id : str) : list str :=
  [base; base ++ lit "_cr"; base ++ lit "_ci"; base ++ lit "_producer_seq"; base ++ lit "_" ++ consumer_id ++ lit "_seq"].

(** ** The heartbeat file *)

(** [value.parse::<u128>().ok()] *)
Definition u128_max : Z := 2 ^ 128 - 1.
Fixpoint parse_digits_upto (max acc : Z) (s : str) : option Z :=
  match s with
  | [] => Some acc
  | c :: s' => if is_ascii_digit c
               then let acc' := acc * 10 + (byte_to_Z c - 48) in if decide (acc' <= max) then parse_digits_upto max acc' s' else None
               else None
  end.
Definition parse_u128 (s : str) : option Z :=
  match s with
  | [] => None
  | [c] => if is_ascii_digit c then Some (byte_to_Z c - 48) else None
  | c :: s' => if decide (c = "+"%byte) then parse_digits_upto u128_max 0 s' else parse_digits_upto u128_max 0 s
  end.

Record HeartbeatRecord := mkHb { hb_id : str; hb_pid : Z; hb_updated_ms : Z }.
Definition record_line (acc : option str * option Z * option Z) (line : str) : option str * option Z * option Z :=
  let '(id, pid, updated_ms) := acc in
  match strip_prefix (lit "id=") line with
  | Some value => (Some value, pid, updated_ms)
  | None =>
      match strip_prefix (lit "pid=") line with
      | Some value => (id, parse_u32 value, updated_ms)
      | None =>
          match strip_prefix (lit "updated_ms=") line with
          | Some value => (id, pid, parse_u128 value)
          | None => acc
          end
      end
  end.
Definition parse_record (text : str) : option HeartbeatRecord :=
  let '(id, pid, updated_ms) := fold_left record_line (lines text) (None, None, None) in
  id ← id; pid ← pid; updated_ms ← updated_ms; Some (mkHb id pid updated_ms).
Definition record_body (id : str) (pid now_ms : Z) : str :=
  lit "id=" ++ id ++ [LF] ++ lit "pid=" ++ dec pid ++ [LF] ++ lit "updated_ms=" ++ dec now_ms ++ [LF].

(** The machine: files, the names in [/dev/shm], the wall clock and the monotonic
    clock in milliseconds. *)
Record Machine := mkMachine { m_files : gmap str bytes; m_shm : gset str; m_now_ms : Z; m_instant : Z }.
Definition set_files (fs : gmap str bytes) (w : Machine) : Machine := mkMachine fs (m_shm w) (m_now_ms w) (m_instant w).
Definition read_record (path : str) (w : Machine) : option HeartbeatRecord :=
  text ← m_files w !! path; if utf8_valid text then parse_record text else None.
Definition age_ms (r : HeartbeatRecord) (w : Machine) : Z := saturating_sub (m_now_ms w) (hb_updated_ms r).
Definition record_is_stale (r : HeartbeatRecord) (stale_after : Z) (w : Machine) : bool := bool_decide (age_ms r w > stale_after).
(** [alive]: whether [/proc/<pid>] exists. *)
Definition pid_maybe_alive (alive : Z -> bool) (pid : Z) : bool := if decide (pid = 0) then false else alive pid.

Definition cleanup_ring_segments (base consumer_id : str) (w : Machine) : Machine :=
  mkMachine (m_files w) (m_shm w ∖ list_to_set (ring_names base consumer_id)) (m_now_ms w) (m_instant w).
Definition cleanup_prefix_segments (prefix : str) (w : Machine) : Machine :=
  let (req, resp) := segment_names prefix in
  cleanup_ring_segments resp RESP_CONSUMER_ID (cleanup_ring_segments req REQ_CONSUMER_ID w).
Definition prefix_segments_exist (prefix : str) (w : Machine) : bool :=
  let (req, resp) := segment_names prefix in bool_decide (req ∈ m_shm w \/ resp ∈ m_shm w).

(** ** The client's side *)
Record ClientHeartbeat := mkClientHb { ch_path : str; ch_id : str; ch_interval : Z; ch_last_write : Z }.
(** The outcomes of the calls that write; a failed write has written some bytes. *)
Record WriteOutcome := mkWrites { wr_mkdir : option str; wr_write : option (nat * str); wr_rename : option str }.
Definition writes_ok : WriteOutcome := mkWrites None None None.

Definition write_beat (pid : Z) (io : WriteOutcome) (hb : ClientHeartbeat) (w : Machine) : ClientHeartbeat * Machine * result unit str :=
  match wr_mkdir io with
  | Some err => (hb, w, Err (lit "create heartbeat dir: " ++ err))
  | None =>
      let body := record_body (ch_id hb) pid (m_now_ms w) in
      let tmp_path := with_extension (ch_path hb) (lit "tmp." ++ dec pid) in
      match wr_write io with
      | Some (n, err) => (hb, set_files (<[tmp_path := take n body]> (m_files w)) w, Err (lit "write heartbeat tmp " ++ tmp_path ++ lit ": " ++ err))
      | None =>
          match wr_rename io with
          | Some err => (hb, set_files (<[tmp_path := body]> (m_files w)) w,
                         Err (lit "rename heartbeat " ++ tmp_path ++ lit " -> " ++ ch_path hb ++ lit ": " ++ err))
          | None => (mkClientHb (ch_path hb) (ch_id hb) (ch_interval hb) (m_instant w),
                     set_files (<[ch_path hb := body]> (delete tmp_path (m_files w))) w, Ok tt)
          end
      end
  end.
Definition beat (pid : Z) (io : WriteOutcome) (hb : ClientHeartbeat) (w : Machine) : ClientHeartbeat * Machine * result unit str :=
  if decide (m_instant w - ch_last_write hb < ch_interval hb) then (hb, w, Ok tt) else
  match read_record (ch_path hb) w with
  | Some r => if decide (hb_id r <> ch_id hb)
              then (hb, w, Err (lit "heartbeat " ++ ch_path hb ++ lit " replaced by another client id=" ++ hb_id r))
              else write_beat pid io hb w
  | None => write_beat pid io hb w
  end.

(** [acquire]; [seq] is the value [CONNECTION_SEQ] has, and the record found is
    read once. *)
Definition connection_id (pid now_ms seq : Z) : str := dec pid ++ lit "-" ++ dec now_ms ++ lit "-" ++ dec seq.
Definition acquire `{!Texts} (env : str -> option str) (temp_dir : str) (alive : Z -> bool) (pid seq : Z) (io : WriteOutcome)
    (prefix : str) (w : Machine) : Machine * result (option ClientHeartbeat) str :=
  if negb (heartbeat_enabled env) then (w, Ok None) else
  let path := heartbeat_path env temp_dir prefix in
  let start w :=
    let hb := mkClientHb path (connection_id pid (m_now_ms w) seq) (heartbeat_interval env) (m_instant w - heartbeat_interval env) in
    let '(hb, w, r) := beat pid io hb w in
    (w, match r with Ok _ => Ok (Some hb) | Err e => Err e end) in
  match read_record path w with
  | Some r =>
      if pid_maybe_alive alive (hb_pid r) && negb (record_is_stale r (stale_after env) w)
      then (w, Err (lit "active SHM client for prefix " ++ str_debug prefix ++ lit ": pid=" ++ dec (hb_pid r) ++ lit " id=" ++ hb_id r))
      else let w := cleanup_prefix_segments prefix w in start (set_files (delete path (m_files w)) w)
  | None => start (if prefix_segments_exist prefix w then cleanup_prefix_segments prefix w else w)
  end.
(** [remove], which [Drop] runs *)
Definition remove (hb : ClientHeartbeat) (w : Machine) : Machine :=
  match read_record (ch_path hb) w with
  | Some r => if decide (hb_id r = ch_id hb) then set_files (delete (ch_path hb) (m_files w)) w else w
  | None => w
  end.

(** ** The daemon's side *)
Inductive ReopenReason := Missing | Replaced (old_id new_id : str) | Stale (age_ms : Z).
Definition requires_segment_cleanup (r : ReopenReason) : bool := match r with Missing | Stale _ => true | Replaced _ _ => false end.
Definition reopen_message (r : ReopenReason) : str :=
  match r with
  | Missing => lit "heartbeat missing"
  | Replaced old_id new_id => lit "heartbeat generation changed: " ++ old_id ++ lit " -> " ++ new_id
  | Stale age => lit "heartbeat stale for " ++ dec age ++ lit " ms"
  end.
Record HeartbeatMonitor := mkMonitor { mo_path : str; mo_expected_id : str; mo_stale_after : Z; mo_check_interval : Z; mo_last_check : Z }.
Definition attach (env : str -> option str) (temp_dir prefix : str) (w : Machine) : option HeartbeatMonitor :=
  if negb (heartbeat_enabled env) then None else
  r ← read_record (heartbeat_path env temp_dir prefix) w;
  Some (mkMonitor (heartbeat_path env temp_dir prefix) (hb_id r) (stale_after env) (check_interval env) (m_instant w - check_interval env)).
Definition poll_reopen_reason (mo : HeartbeatMonitor) (w : Machine) : HeartbeatMonitor * option ReopenReason :=
  if decide (m_instant w - mo_last_check mo < mo_check_interval mo) then (mo, None) else
  (mkMonitor (mo_path mo) (mo_expected_id mo) (mo_stale_after mo) (mo_check_interval mo) (m_instant w),
   match read_record (mo_path mo) w with
   | None => Some Missing
   | Some r =>
       if decide (hb_id r <> mo_expected_id mo) then Some (Replaced (mo_expected_id mo) (hb_id r))
       else if record_is_stale r (mo_stale_after mo) w then Some (Stale (age_ms r w)) else None
   end).

(** ** A record is read as it was written *)
Lemma parse_digits_wider s acc n : parse_digits acc s = Some n -> parse_digits_upto u128_max acc s = Some n.
Proof.
  revert acc. induction s as [|c s IH]; intros acc; cbn [parse_digits parse_digits_upto]; [done|].
  destruct (is_ascii_digit c); [|done]. case_decide as Hu; [|done]. rewrite decide_True; [apply IH|].
  change u128_max with 340282366920938463463374607431768211455. lia.
Qed.
Lemma parse_u64_wider s n : parse_u64 s = Some n -> parse_u128 s = Some n.
Proof. destruct s as [|c [|d s]]; cbn [parse_u64 parse_u128]; [done|done|]. case_decide; apply parse_digits_wider. Qed.

(** Texts of letters, digits and dashes. *)
Definition plain_id (id : str) : Prop := Forall (fun c => between 33 126 c = true) id.
Lemma plain_field_no c id : between 33 126 c = false -> plain_id id -> c ∉ id.
Proof. intros Hc Hid Hin. by rewrite (proj1 (Forall_forall _ _) Hid c Hin) in Hc. Qed.
Lemma plain_dec z : plain_id (dec z).
Proof.
  unfold plain_id, dec. apply (Forall_impl _ _ _ (trim_zeros_digits _ (dec_fixed_digits 20 z))). intros c.
  unfold is_ascii_digit, between. rewrite !andb_true_iff, !bool_decide_eq_true. lia.
Qed.
Lemma connection_id_plain pid now seq : plain_id (connection_id pid now seq).
Proof. unfold connection_id. repeat apply Forall_app_2; try apply plain_dec; by repeat constructor. Qed.
Lemma record_body_valid id pid now : plain_id id -> utf8_valid (record_body id pid now) = true.
Proof.
  intros Hid. apply utf8_valid_ascii. unfold record_body.
  assert (forall s, plain_id s -> Forall (fun c => between 0 127 c = true) s) as Hw.
  { intros s Hs. apply (Forall_impl _ _ _ Hs). intros c. unfold between. rewrite !andb_true_iff, !bool_decide_eq_true. lia. }
  repeat apply Forall_app_2; try (apply Hw; first [exact Hid|apply plain_dec]); by repeat constructor.
Qed.
Lemma record_line_id a b c v : record_line (a, b, c) (lit "id=" ++ v) = (Some v, b, c).
Proof. unfold record_line. by rewrite strip_prefix_app. Qed.
Lemma record_line_pid a b c v : record_line (a, b, c) (lit "pid=" ++ v) = (a, parse_u32 v, c).
Proof. unfold record_line. change (strip_prefix (lit "id=") (lit "pid=" ++ v)) with (@None str). cbv iota. by rewrite strip_prefix_app. Qed.
Lemma record_line_ms a b c v : record_line (a, b, c) (lit "updated_ms=" ++ v) = (a, b, parse_u128 v).
Proof.
  unfold record_line. change (strip_prefix (lit "id=") (lit "updated_ms=" ++ v)) with (@None str).
  change (strip_prefix (lit "pid=") (lit "updated_ms=" ++ v)) with (@None str). cbv iota. by rewrite strip_prefix_app.
Qed.
Lemma parse_record_body id pid now :
  plain_id id -> 0 <= pid <= u32_max -> in_u64 now -> parse_record (record_body id pid now) = Some (mkHb id pid now).
Proof.
  intros Hid Hpid Hnow. unfold parse_record, record_body.
  assert (forall name v, (LF ∉ name) -> (CR ∉ name) -> plain_id v -> (LF ∉ name ++ v) /\ (CR ∉ name ++ v)) as Hno.
  { intros name v H1 H2 Hv. rewrite !elem_of_app. split; intros [?|?]; try done; [by apply (plain_field_no LF v)|by apply (plain_field_no CR v)]. }
  change ([LF] ++ ?x) with (LF :: x). rewrite !(app_assoc (lit _)).
  rewrite lines_cons by (apply Hno; [by_eval|by_eval|done]).
  cbn [app]. rewrite lines_cons by (apply Hno; [by_eval|by_eval|apply plain_dec]).
  rewrite lines_cons by (apply Hno; [by_eval|by_eval|apply plain_dec]).
  change (lines []) with (@nil str). cbn [fold_left]. rewrite record_line_id, record_line_pid, record_line_ms.
  unfold parse_u32. rewrite parse_bounded_dec by lia. by rewrite (parse_u64_wider _ _ (parse_dec now Hnow)).
Qed.

Lemma read_written path id pid now w :
  plain_id id -> 0 <= pid <= u32_max -> in_u64 now -> m_files w !! path = Some (record_body id pid now) ->
  read_record path w = Some (mkHb id pid now).
Proof.
  intros Hid Hpid Hnow E. unfold read_record. rewrite E. cbn [mbind option_bind]. rewrite record_body_valid by done. by apply parse_record_body.
Qed.

(** A beat that is due writes the record unless somebody else's is there. *)
Lemma beat_due pid hb w :
  ch_interval hb <= m_instant w - ch_last_write hb ->
  (forall r, read_record (ch_path hb) w = Some r -> hb_id r = ch_id hb) ->
  exists w', beat pid writes_ok hb w = (mkClientHb (ch_path hb) (ch_id hb) (ch_interval hb) (m_instant w), w', Ok tt) /\
    m_files w' !! ch_path hb = Some (record_body (ch_id hb) pid (m_now_ms w)) /\ m_shm w' = m_shm w /\
    m_now_ms w' = m_now_ms w /\ m_instant w' = m_instant w.
Proof.
  intros Hdue Hown. unfold beat. rewrite decide_False by lia.
  assert (write_beat pid writes_ok hb w = (mkClientHb (ch_path hb) (ch_id hb) (ch_interval hb) (m_instant w),
    set_files (<[ch_path hb := record_body (ch_id hb) pid (m_now_ms w)]> (delete (with_extension (ch_path hb) (lit "tmp." ++ dec pid)) (m_files w))) w, Ok tt)) as Ew by done.
  rewrite Ew. eexists. split.
  - destruct (read_record (ch_path hb) w) as [r|] eqn:Er; [|reflexivity]. rewrite decide_False; [reflexivity|]. rewrite (Hown r eq_refl). intros Hx. by apply Hx.
  - cbn [set_files m_files m_shm m_now_ms m_instant]. split; [apply lookup_insert_eq|done].
Qed.

Lemma beat_refused pid io hb w r :
  ch_interval hb <= m_instant w - ch_last_write hb -> read_record (ch_path hb) w = Some r -> hb_id r <> ch_id hb ->
  exists e, beat pid io hb w = (hb, w, Err e).
Proof. intros Hdue Er Hne. unfold beat. rewrite decide_False by lia. rewrite Er, decide_True by done. eauto. Qed.

Section Handover.
Context `{!Texts} (env : str -> option str) (temp_dir : str).
(** A record that keeps others out. *)
Definition holds (alive : Z -> bool) (path : str) (w : Machine) : Prop :=
  exists r, read_record path w = Some r /\ pid_maybe_alive alive (hb_pid r) = true /\ age_ms r w <= stale_after env.
Definition same_clock (w w' : Machine) : Prop := m_now_ms w' = m_now_ms w /\ m_instant w' = m_instant w.
Definition ring_gone (prefix : str) (w : Machine) : Prop :=
  let (req, resp) := segment_names prefix in
  forall name, name ∈ ring_names req REQ_CONSUMER_ID ++ ring_names resp RESP_CONSUMER_ID -> name ∉ m_shm w.

Lemma cleanup_gone prefix w : ring_gone prefix (cleanup_prefix_segments prefix w).
Proof.
  unfold ring_gone, cleanup_prefix_segments, cleanup_ring_segments. destruct (segment_names prefix) as [req resp]. cbn [m_shm].
  intros name Hn. rewrite !elem_of_difference, !elem_of_list_to_set. apply elem_of_app in Hn. tauto.
Qed.
(** The start of a client where nobody's record is in the way. *)
Lemma acquire_starts alive pid seq prefix w :
  heartbeat_enabled env = true -> 0 <= pid <= u32_max -> in_u64 (m_now_ms w) ->
  ~ holds alive (heartbeat_path env temp_dir prefix) w ->
  let path := heartbeat_path env temp_dir prefix in
  let id := connection_id pid (m_now_ms w) seq in
  exists w', acquire env temp_dir alive pid seq writes_ok prefix w
      = (w', Ok (Some (mkClientHb path id (heartbeat_interval env) (m_instant w)))) /\
    read_record path w' = Some (mkHb id pid (m_now_ms w)) /\ same_clock w w' /\
    (is_Some (read_record path w) -> ring_gone prefix w').
Proof.
  intros Hen Hpid Hnow Hfree path id. unfold acquire. rewrite Hen. cbn [negb]. fold path.
  assert (forall w0, same_clock w w0 -> read_record path w0 = None ->
    exists w', (let '(hb, w, r) := beat pid writes_ok (mkClientHb path (connection_id pid (m_now_ms w0) seq) (heartbeat_interval env)
        (m_instant w0 - heartbeat_interval env)) w0 in (w, match r with Ok _ => Ok (Some hb) | Err e => Err e end))
      = (w', Ok (Some (mkClientHb path id (heartbeat_interval env) (m_instant w)))) /\
    read_record path w' = Some (mkHb id pid (m_now_ms w)) /\ same_clock w w' /\ m_shm w' = m_shm w0) as Hstart.
  { intros w0 [En Ei] Hnone. rewrite En, Ei. fold id.
    destruct (beat_due pid (mkClientHb path id (heartbeat_interval env) (m_instant w - heartbeat_interval env)) w0) as (w' & -> & Ef & Es & E1 & E2);
      cbn [ch_interval ch_last_write ch_path ch_id] in *; [lia|by rewrite Hnone|].
    rewrite Ei. exists w'. split; [done|]. split; [|split; [by split; congruence|done]].
    apply read_written; [apply connection_id_plain|done|done|]. by rewrite Ef, En. }
  destruct (read_record path w) as [r|] eqn:Er.
  - assert (pid_maybe_alive alive (hb_pid r) && negb (record_is_stale r (stale_after env) w) = false) as ->.
    { apply not_true_is_false. intros [Ha Hs]%andb_true_iff. apply Hfree. exists r. split; [done|]. split; [done|].
      apply negb_true_iff, bool_decide_eq_false in Hs. lia. }
    set (wc := cleanup_prefix_segments prefix w).
    assert (same_clock w wc) as Hc by (unfold wc, cleanup_prefix_segments; by destruct (segment_names prefix)).
    destruct (Hstart (set_files (delete path (m_files wc)) wc)) as (w' & E & Hr & Hcl & Hshm).
    + done.
    + unfold read_record. cbn [set_files m_files]. by rewrite lookup_delete_eq.
    + exists w'. split; [exact E|]. split; [done|]. split; [done|]. intros _. pose proof (cleanup_gone prefix w) as Hg. fold wc in Hg.
      unfold ring_gone in *. destruct (segment_names prefix). rewrite Hshm. exact Hg.
  - destruct (Hstart (if prefix_segments_exist prefix w then cleanup_prefix_segments prefix w else w)) as (w' & E & Hr & Hcl & Hshm).
    + destruct (prefix_segments_exist prefix w); [|done]. unfold cleanup_prefix_segments. by destruct (segment_names prefix).
    + destruct (prefix_segments_exist prefix w); [|done]. unfold cleanup_prefix_segments. by destruct (segment_names prefix).
    + exists w'. split; [exact E|]. split; [done|]. split; [done|]. by intros [].
Qed.

(** C30: a dead or stale client is replaced: a new client acquires its prefix, its rings
    are gone, the daemon's monitor of the old client says so when it next looks,
    and the old client, should it still be running, is told at its next beat and
    leaves the record alone. *)
Theorem dead_client_is_replaced alive pid seq prefix w r mo hb io old_pid :
  let path := heartbeat_path env temp_dir prefix in
  let id := connection_id pid (m_now_ms w) seq in
  heartbeat_enabled env = true -> 0 <= pid <= u32_max -> in_u64 (m_now_ms w) ->
  read_record path w = Some r -> pid_maybe_alive alive (hb_pid r) = false \/ stale_after env < age_ms r w -> hb_id r <> id ->
  mo_path mo = path -> mo_expected_id mo = hb_id r -> mo_check_interval mo <= m_instant w - mo_last_check mo ->
  ch_path hb = path -> ch_id hb = hb_id r -> ch_interval hb <= m_instant w - ch_last_write hb ->
  exists w', acquire env temp_dir alive pid seq writes_ok prefix w
      = (w', Ok (Some (mkClientHb path id (heartbeat_interval env) (m_instant w)))) /\
    ring_gone prefix w' /\ snd (poll_reopen_reason mo w') = Some (Replaced (hb_id r) id) /\
    exists e, beat old_pid io hb w' = (hb, w', Err e).
Proof.
  intros path id Hen Hpid Hnow Er Hdead Hne Hmp Hme Hmd Hhp Hhi Hhd.
  assert (~ holds alive path w) as Hfree.
  { intros (r' & Er' & Ha & Hage). rewrite Er in Er'. injection Er' as <-. destruct Hdead as [Hd|Hd]; [by rewrite Hd in Ha|lia]. }
  destruct (acquire_starts alive pid seq prefix w Hen Hpid Hnow Hfree) as (w' & E & Er' & [En Ei] & Hg). fold path id in E, Er', Hg.
  exists w'. split; [done|]. split; [apply Hg; by rewrite Er|]. split.
  - unfold poll_reopen_reason. rewrite decide_False by lia. rewrite Hmp, Er'. cbn [snd hb_id]. by rewrite decide_True, Hme by (by rewrite Hme).
  - apply (beat_refused old_pid io hb w' (mkHb id pid (m_now_ms w))); [lia|by rewrite Hhp|]. cbn [hb_id]. by rewrite Hhi.
Qed.

(** ** A client that beats in time *)
Inductive LifeEvent := Pass (ms : Z) | Beats | Polls | Intrudes (pid seq : Z) (io : WriteOutcome).
Record Life := mkLife { lf_client : ClientHeartbeat; lf_monitor : HeartbeatMonitor; lf_machine : Machine }.
(** An event, and whether it went well for the client: its beat succeeds, the
    monitor finds nothing, an intruder is turned away and changes nothing. *)
Definition life_event (alive : Z -> bool) (pid : Z) (prefix : str) (ev : LifeEvent) (l : Life) : Life * Prop :=
  let '(mkLife hb mo w) := l in
  match ev with
  | Pass ms => (mkLife hb mo (mkMachine (m_files w) (m_shm w) (m_now_ms w + ms) (m_instant w + ms)), True)
  | Beats => let '(hb, w, r) := beat pid writes_ok hb w in (mkLife hb mo w, r = Ok tt)
  | Polls => let (mo, r) := poll_reopen_reason mo w in (mkLife hb mo w, r = None)
  | Intrudes pid' seq io => let (w', r) := acquire env temp_dir alive pid' seq io prefix w in
                            (mkLife hb mo w', w' = w /\ exists e, r = Err e)
  end.
Fixpoint life (alive : Z -> bool) (pid : Z) (prefix : str) (evs : list LifeEvent) (l : Life) : Prop :=
  match evs with
  | [] => True
  | ev :: evs => let (l, well) := life_event alive pid prefix ev l in well /\ life alive pid prefix evs l
  end.
(** The client writes its record before it is stale, [since] milliseconds after it
    did so last. *)
Fixpoint timely (interval since : Z) (evs : list LifeEvent) : Prop :=
  match evs with
  | [] => True
  | Pass ms :: evs => 0 <= ms /\ since + ms <= stale_after env /\ timely interval (since + ms) evs
  | Beats :: evs => timely interval (if decide (since < interval) then since else 0) evs
  | _ :: evs => timely interval since evs
  end.
(** The clocks stay within their types. *)
Definition total_time (evs : list LifeEvent) : Z := foldr (fun ev acc => match ev with Pass ms => ms + acc | _ => acc end) 0 evs.

(** The client's record is in place, written [since] milliseconds ago. *)
Record settled (pid : Z) (path : str) (since : Z) (l : Life) : Prop := {
  se_record : read_record path (lf_machine l) = Some (mkHb (ch_id (lf_client l)) pid (m_now_ms (lf_machine l) - since));
  se_path : ch_path (lf_client l) = path; se_id : plain_id (ch_id (lf_client l));
  se_since : m_instant (lf_machine l) - ch_last_write (lf_client l) = since; se_fresh : 0 <= since <= stale_after env;
  se_mpath : mo_path (lf_monitor l) = path; se_mid : mo_expected_id (lf_monitor l) = ch_id (lf_client l);
  se_mstale : mo_stale_after (lf_monitor l) = stale_after env
}.
Lemma total_time_nonneg interval since evs : timely interval since evs -> 0 <= total_time evs.
Proof.
  revert since. induction evs as [|[ms| | |] evs IH]; intros since Ht; cbn [timely] in Ht; [done| |by eapply IH..].
  destruct Ht as (? & _ & Ht). specialize (IH _ Ht). unfold total_time in *. cbn [foldr]. lia.
Qed.
Lemma age_since id pid since w : 0 <= since -> age_ms (mkHb id pid (m_now_ms w - since)) w = since.
Proof. intros Hs. unfold age_ms, saturating_sub. cbn [hb_updated_ms]. lia. Qed.
Lemma stale_not id pid since w n : 0 <= since <= n -> record_is_stale (mkHb id pid (m_now_ms w - since)) n w = false.
Proof. intros Hs. unfold record_is_stale. rewrite age_since by lia. apply bool_decide_eq_false. lia. Qed.

(** C29: as long as a client writes its record before it is stale, it keeps its prefix:
    every beat succeeds, the daemon's monitor never finds a reason to reopen, and
    no other client can acquire the prefix or change anything, in whatever order
    time passes, the client beats, the monitor looks and others try. *)
Theorem live_client_keeps_prefix alive pid prefix evs since l :
  heartbeat_enabled env = true -> 0 < pid <= u32_max -> alive pid = true ->
  settled pid (heartbeat_path env temp_dir prefix) since l ->
  timely (ch_interval (lf_client l)) since evs -> 0 <= m_now_ms (lf_machine l) -> m_now_ms (lf_machine l) + total_time evs <= u64_max ->
  life alive pid prefix evs l.
Proof.
  intros Hen Hpid Halive. revert since l. induction evs as [|ev evs IH]; intros since l Hs Ht H0 Hmax; [done|]. cbn [life].
  destruct l as [hb mo w]. destruct Hs as [Hr Hp Hid Hsince Hfresh Hmp Hmid Hms]. cbn [lf_client lf_monitor lf_machine] in *.
  destruct ev as [ms| | |pid' seq io]; cbn [life_event timely total_time foldr] in *.
  - destruct Ht as (Hms0 & Hle & Ht). split; [done|]. apply (IH (since + ms)); cbn [lf_client lf_monitor lf_machine m_now_ms m_instant]; [|done|lia|unfold total_time in *; lia].
    split; cbn [lf_client lf_monitor lf_machine m_now_ms m_instant]; try done; [|lia..].
    replace (m_now_ms w + ms - (since + ms)) with (m_now_ms w - since) by lia. exact Hr.
  - destruct (decide (since < ch_interval hb)) as [Hlt|Hge].
    + assert (beat pid writes_ok hb w = (hb, w, Ok tt)) as -> by (unfold beat; by rewrite decide_True by lia).
      split; [done|]. apply (IH since); cbn [lf_client lf_monitor lf_machine]; [by split|done|done|done].
    + destruct (beat_due pid hb w) as (w' & -> & Ef & _ & En & Ei); [lia|by rewrite Hp, Hr; intros r [= <-]|]. split; [done|].
      apply (IH 0); cbn [lf_client lf_monitor lf_machine ch_interval]; [|done|by rewrite En|by rewrite En].
      split; cbn [lf_client lf_monitor lf_machine ch_id ch_path ch_last_write]; try done; [|lia..].
      rewrite Hp in Ef. rewrite En, Z.sub_0_r. apply read_written; [done|lia| |done]. unfold in_u64.
      assert (0 <= total_time evs); [|unfold total_time in *; lia]. by apply (total_time_nonneg (ch_interval hb) 0).
  - assert (snd (poll_reopen_reason mo w) = None /\ mo_path (fst (poll_reopen_reason mo w)) = mo_path mo /\
      mo_expected_id (fst (poll_reopen_reason mo w)) = mo_expected_id mo /\ mo_stale_after (fst (poll_reopen_reason mo w)) = mo_stale_after mo) as (Hnone & E1 & E2 & E3).
    { unfold poll_reopen_reason. case_decide; [done|]. cbn [fst snd mo_path mo_expected_id mo_stale_after]. rewrite Hmp, Hr. cbn [hb_id].
      rewrite decide_False by (rewrite Hmid; intros Hx; by apply Hx). rewrite stale_not by (rewrite Hms; lia). done. }
    destruct (poll_reopen_reason mo w) as [mo' rr]. cbn [fst snd] in *. split; [done|].
    apply (IH since); cbn [lf_client lf_monitor lf_machine]; [|done|done|done]. split; cbn [lf_client lf_monitor lf_machine]; try done; congruence.
  - assert (exists e, acquire env temp_dir alive pid' seq io prefix w = (w, Err e)) as [e ->].
    { unfold acquire. rewrite Hen. cbn [negb]. rewrite Hr. cbn [hb_pid]. unfold pid_maybe_alive. rewrite decide_False by lia.
      rewrite Halive, stale_not by lia. cbn [andb negb]. eauto. }
    split; [eauto|]. apply (IH since); cbn [lf_client lf_monitor lf_machine]; [by split|done|done|done].
Qed.
End Handover.

(** Prefixes that differ in a character that is not kept share their heartbeat. *)
Lemma prefixes_share_heartbeat env temp_dir :
  heartbeat_path env temp_dir (lit "a.b") = heartbeat_path env temp_dir (lit "a_b").
Proof. reflexivity. Qed.

(** A machine on which a client acquired a prefix three seconds after the start of
    the clock. *)
Module SampleLife.
Definition env : str -> option str := fun _ => None.
Definition tmp : str := lit "/tmp".
Definition path : str := heartbeat_path env tmp (lit "p").
Definition id : str := connection_id 42 3000 0.
Definition machine (now : Z) : Machine := mkMachine {[ path := record_body id 42 3000 ]} {[ lit "wkpr" ]} now (now + 100).
Definition client : ClientHeartbeat := mkClientHb path id 500 3100.
Definition monitor : HeartbeatMonitor := mkMonitor path id 3000 250 2850.
Definition a_while : list LifeEvent :=
  [Pass 400; Polls; Intrudes 7 0 writes_ok; Pass 200; Beats; Pass 2900; Polls; Intrudes 7 0 writes_ok; Beats].
End SampleLife.
Lemma live_client_keeps_prefix_witness :
  let H := plain_texts in
  life SampleLife.env SampleLife.tmp (fun p => bool_decide (p = 42)) 42 (lit "p") SampleLife.a_while
    (mkLife SampleLife.client SampleLife.monitor (SampleLife.machine 3000)).
Proof.
  intros H. apply (@live_client_keeps_prefix H SampleLife.env SampleLife.tmp (fun p => bool_decide (p = 42)) 42 (lit "p") SampleLife.a_while 0
           (mkLife SampleLife.client SampleLife.monitor (SampleLife.machine 3000))).
  - reflexivity.
  - lia.
  - reflexivity.
  - split; try (vm_compute; reflexivity); [apply connection_id_plain|change (stale_after SampleLife.env) with 3000; lia].
  - cbn [timely SampleLife.a_while ch_interval lf_client SampleLife.client]. change (stale_after SampleLife.env) with 3000.
    rewrite decide_False by lia. lia.
  - vm_compute. discriminate.
  - vm_compute. discriminate.
Defined.
Lemma dead_client_is_replaced_witness :
  let H := plain_texts in let new_id := connection_id 7 9000 1 in
  exists w', acquire SampleLife.env SampleLife.tmp (fun _ => true) 7 1 writes_ok (lit "p") (SampleLife.machine 9000)
      = (w', Ok (Some (mkClientHb SampleLife.path new_id 500 9100))) /\
    ring_gone (lit "p") w' /\ snd (poll_reopen_reason SampleLife.monitor w') = Some (Replaced SampleLife.id new_id) /\
    exists e, beat 42 writes_ok SampleLife.client w' = (SampleLife.client, w', Err e).
Proof.
  intros H new_id.
  apply (@dead_client_is_replaced H SampleLife.env SampleLife.tmp (fun _ => true) 7 1 (lit "p") (SampleLife.machine 9000)
           (mkHb SampleLife.id 42 3000) SampleLife.monitor SampleLife.client writes_ok 42).
  - reflexivity.
  - lia.
  - vm_compute. split; discriminate.
  - vm_compute. reflexivity.
  - right. vm_compute. reflexivity.
  - by_eval.
  - reflexivity.
  - reflexivity.
  - vm_compute. discriminate.
  - reflexivity.
  - reflexivity.
  - vm_compute. discriminate.
Defined.
