(* ===== verification/S3.v ===== *)
(** * The S3 object store ([wal_store.rs], [S3ObjectStore])

    Models [S3ObjectStoreConfig] and [S3ObjectStore] of
    [crates/wombatkv-store/src/wal_store.rs] over the bucket of the [s3] crate, a
    class whose laws are what S3 documents of its requests.  A request may fail and
    still have been carried out, so the retries of the store may repeat a write.

    [s3_meets_contract] shows that the store keeps the contract the rest of the
    development is proved against, for the keys that do not start with a slash (the
    store drops one).  [s3_config_is_explicit] shows which variables decide where the
    store writes. *)

From S2P Require Import Prelude Order Text Strings Format ObjectStore.

(** ** The bucket of the [s3] crate

    A request ends with an error, or with a status; [headers] are the extra headers
    of a put. *)
Abbreviation Headers := (list (str * str)).
Class Bucket (B : Type) := {
  bk_with_extra_headers (headers : Headers) : result unit str;
  bk_put_object (headers : Headers) (key : str) (payload : bytes) : M B str Z;
  bk_get_object (key : str) : M B str (Z * bytes);
  bk_get_object_range (key : str) (start stop : Z) : M B str (Z * bytes);
  bk_head_object (key : str) : M B str (option str * Z);
  bk_list (prefix : str) : M B str (list (list str));
  bk_delete_object (key : str) : M B str Z;
  bk_exists : M B str bool;
  bk_create : M B str unit;
  (** [HeaderValue::from_str] *)
  header_from_str (value : str) : result unit str
}.
Definition IF_NONE_MATCH : str := lit "if-none-match".
Definition IF_MATCH : str := lit "if-match".
Definition success (status : Z) : Prop := 200 <= status < 300.
#[global] Instance success_dec status : Decision (success status).
Proof. unfold success. apply _. Defined.

(** The value of [If-Match] for an entity tag: a tag is quoted on the wire, and
    servers differ in whether [HEAD] shows the quotes. *)
Definition quote : byte := x22.
Definition etag_if_match_value (etag : str) : str :=
  if bool_decide (quote ∈ etag) || starts_with (lit "W/") etag then etag else quote :: etag ++ [quote].

(** A put was carried out: it changed something, or says so. *)
Definition carried_out {B O} (objects : B -> O) (b b' : B) (r : result Z str) : Prop :=
  objects b' <> objects b \/ exists status, r = Ok status /\ success status.
(** What S3 documents: an object has bytes and an entity tag; a request that reports
    success was carried out, one that reports a failure of its condition or gives no
    status may or may not have been. *)
Class BucketLaws (B : Type) `{!Bucket B} := {
  objects : B -> gmap str (bytes * str);
  bk_put_law h k v b b' r :
    bk_put_object h k v b = (b', r) ->
    (objects b' = objects b \/ exists e, objects b' = <[k := (v, e)]> (objects b)) /\
    (forall status, r = Ok status -> success status -> exists e, objects b' = <[k := (v, e)]> (objects b));
  bk_put_none_match_law k v b b' r :
    bk_put_object [(IF_NONE_MATCH, lit "*")] k v b = (b', r) -> carried_out objects b b' r -> objects b !! k = None;
  bk_put_match_law t k v b b' r :
    bk_put_object [(IF_MATCH, t)] k v b = (b', r) -> carried_out objects b b' r ->
    exists old e, objects b !! k = Some (old, e) /\ etag_if_match_value e = t;
  bk_get_law k b b' r :
    bk_get_object k b = (b', r) ->
    objects b' = objects b /\
    forall status data, r = Ok (status, data) ->
      (success status -> fst <$> objects b !! k = Some data) /\ (status = 404 -> objects b !! k = None);
  bk_get_range_law k i j b b' r :
    bk_get_object_range k i j b = (b', r) ->
    objects b' = objects b /\
    forall status data, r = Ok (status, data) -> success status -> i <= j ->
      exists bs, fst <$> objects b !! k = Some bs /\ data = clamp_range bs i (j + 1);
  bk_head_law k b b' r :
    bk_head_object k b = (b', r) ->
    objects b' = objects b /\
    forall tag status, r = Ok (tag, status) ->
      (success status -> exists bs e, objects b !! k = Some (bs, e) /\ forall t, tag = Some t -> t = e) /\
      (status = 404 -> objects b !! k = None);
  bk_list_law p b b' r :
    bk_list p b = (b', r) ->
    objects b' = objects b /\
    forall pages, r = Ok pages ->
      NoDup (concat pages) /\ forall k, k ∈ concat pages <-> is_Some (objects b !! k) /\ starts_with p k = true;
  bk_delete_law k b b' r :
    bk_delete_object k b = (b', r) ->
    (objects b' = objects b \/ objects b' = delete k (objects b)) /\
    forall status, r = Ok status -> success status \/ status = 404 -> objects b' = delete k (objects b);
  bk_exists_law b b' r : bk_exists b = (b', r) -> objects b' = objects b;
  bk_create_law b b' r : bk_create b = (b', r) -> objects b' = objects b
}.

(** ** Configuration *)
Record S3ObjectStoreConfig := mkS3Config {
  endpoint : str; cfg_bucket : str; access_key : str; secret_key : str; region : str; max_retries : Z; retry_backoff_ms : Z
}.
Definition default_bucket_name (env : str -> option str) : str :=
  match env (lit "USER") with
  | Some ((_ :: _) as user) => lit "wombatkv-cache-" ++ user
  | _ => lit "wombatkv-cache"
  end.
Definition default_s3_config (env : str -> option str) : S3ObjectStoreConfig :=
  mkS3Config (lit "http://127.0.0.1:9000") (default_bucket_name env) (lit "minioadmin") (lit "minioadmin") (lit "us-east-1") 2 50.
Definition BUCKET_REQUIRED : str :=
  lit "WMBT_KV_BUCKET is required (no fallback). Set it explicitly to the bucket name WombatKV should own. We will NOT pick up AWS_* fallbacks or derive a bucket name from $USER, both risk writing to the wrong place.".
(** A number from the environment; the outer result is [?]. *)
Definition env_number (env : str -> option str) (name : str) (parse : str -> option Z) (old : Z) : result Z WalStoreError :=
  match env name with
  | None => Ok old
  | Some v => ok_or (parse v) (InvalidConfig name)
  end.
Definition s3_config_from_env (env : str -> option str) : result S3ObjectStoreConfig WalStoreError :=
  let cfg := default_s3_config env in
  let endpoint := default (endpoint cfg) (env (lit "WMBT_KV_S3_ENDPOINT")) in
  match env (lit "WMBT_KV_BUCKET") with
  | Some ((_ :: _) as bucket) =>
      let access_key := default (access_key cfg) (env (lit "WMBT_KV_S3_ACCESS_KEY")) in
      let secret_key := default (secret_key cfg) (env (lit "WMBT_KV_S3_SECRET_KEY")) in
      let region := default (region cfg) (env (lit "WMBT_KV_S3_REGION")) in
      let? max_retries := env_number env (lit "WMBT_KV_S3_GET_RETRIES") parse_u32 (max_retries cfg) in
      let? backoff := env_number env (lit "WMBT_KV_S3_RETRY_BACKOFF_MS") parse_u64 (retry_backoff_ms cfg) in
      Ok (mkS3Config endpoint bucket access_key secret_key region max_retries backoff)
  | _ => Err (InvalidConfig BUCKET_REQUIRED)
  end.

Definition is_default_dev_credentials (access_key secret_key : str) : bool :=
  bool_decide (access_key = lit "minioadmin") && bool_decide (secret_key = lit "minioadmin").
(** [s.contains(pat)] *)
Fixpoint contains (pat s : str) : bool :=
  starts_with pat s || match s with [] => false | _ :: s' => contains pat s' end.
Definition local_dev_mode_enabled (env : str -> option str) (endpoint : str) : bool :=
  match env (lit "WMBT_KV_LOCAL_DEV") with
  | Some value => bool_decide (value = lit "1") || eq_ignore_ascii_case value (lit "true")
  | None =>
      let lowered := to_ascii_lowercase endpoint in
      contains (lit "127.0.0.1") lowered || contains (lit "localhost") lowered
      || contains (lit "host.docker.internal") lowered || starts_with (lit "http://0.0.0.0") lowered
  end.

Definition normalize_key (key : str) : str := default key (strip_prefix (lit "/") key).

(** ** The store *)
Section Store.
Context {B : Type} `{!Bucket B}.

(** [struct S3ObjectStoreInner]; the runtime only drives the requests. *)
Record S3ObjectStore := mkS3 {
  s3_endpoint : str; s3_bucket_name : str; s3_cache_key : str; s3_capabilities : StoreCapabilities; s3_bucket : B;
  s3_max_retries : Z; s3_retry_backoff_ms : Z
}.
Definition set_bucket (b : B) (s : S3ObjectStore) : S3ObjectStore :=
  mkS3 (s3_endpoint s) (s3_bucket_name s) (s3_cache_key s) (s3_capabilities s) b (s3_max_retries s) (s3_retry_backoff_ms s).
Definition set_cached_capabilities (c : StoreCapabilities) : M S3ObjectStore WalStoreError unit :=
  fun s => (mkS3 (s3_endpoint s) (s3_bucket_name s) (s3_cache_key s) c (s3_bucket s) (s3_max_retries s) (s3_retry_backoff_ms s), Ok tt).
Definition get_cached_capabilities (s : S3ObjectStore) : result StoreCapabilities WalStoreError := Ok (s3_capabilities s).
(** A request, its error in the words of the caller. *)
Definition request {A} (c : M B str A) (text : str -> str) : M S3ObjectStore WalStoreError A :=
  fun s => let (b, r) := c (s3_bucket s) in (set_bucket b s, map_err (fun err => S3 (text err)) r).
Definition with_retry {A} (operation : M S3ObjectStore WalStoreError A) : M S3ObjectStore WalStoreError A :=
  fun s => retry_with_backoff (s3_max_retries s) operation s.

(** *** Construction *)

(** [prewarm_pool]: a HEAD per task, its outcome ignored; [order] is the order the
    tasks run in. *)
Definition prewarm_key (i : nat) : str := lit "wombatkv/__prewarm__/" ++ dec (Z.of_nat i).
Definition prewarm_pool (order : list nat) (s : S3ObjectStore) : S3ObjectStore :=
  set_bucket (foldl (fun b i => fst (bk_head_object (prewarm_key i) b)) (s3_bucket s) order) s.
Definition DEFAULT_PREWARM : Z := 8.
Definition prewarm_parallelism (env : str -> option str) : Z :=
  match env (lit "WMBT_KV_S3_PREWARM") with
  | Some [] => 0
  | Some raw => default 0 (parse_u64 raw)
  | None => DEFAULT_PREWARM
  end.
Definition prewarm_from_env (env : str -> option str) (run : nat -> list nat) (s : S3ObjectStore) : S3ObjectStore :=
  let parallelism := prewarm_parallelism env in
  if decide (0 < parallelism) then prewarm_pool (run (Z.to_nat parallelism)) s else s.
(** [new]: the credentials, the bucket handle and the runtime are outcomes of the
    libraries; [run] is the order in which so many tasks run. *)
Definition s3_new (env : str -> option str) (credentials : result unit str) (bucket : result B str) (runtime : result unit str)
    (run : nat -> list nat) (config : S3ObjectStoreConfig) : result S3ObjectStore WalStoreError :=
  if decide (endpoint config = [] \/ cfg_bucket config = [] \/ access_key config = [] \/ secret_key config = [] \/ region config = [])
  then Err (InvalidConfig (lit "endpoint, bucket, access_key, secret_key, region must be non-empty"))
  else if is_default_dev_credentials (access_key config) (secret_key config) && negb (local_dev_mode_enabled env (endpoint config))
  then Err (InvalidConfig (lit "refusing default MinIO credentials outside local-dev mode; set WMBT_KV_LOCAL_DEV=1 only for local development"))
  else
    let? _ := map_err (fun err => S3 (lit "credentials init failed: " ++ err)) credentials in
    let? b := map_err (fun err => S3 (lit "bucket init failed: " ++ err)) bucket in
    let? _ := map_err (fun err => S3 (lit "tokio runtime init failed: " ++ err)) runtime in
    let cache_key := lit "s3|" ++ endpoint config ++ lit "|" ++ region config ++ lit "|" ++ cfg_bucket config in
    Ok (prewarm_from_env env run
          (mkS3 (endpoint config) (cfg_bucket config) cache_key default_capabilities b (max_retries config) (retry_backoff_ms config))).
Definition s3_from_env (env : str -> option str) (credentials : result unit str) (bucket : result B str) (runtime : result unit str)
    (run : nat -> list nat) : result S3ObjectStore WalStoreError :=
  let? config := s3_config_from_env env in s3_new env credentials bucket runtime run config.

(** *** Requests *)
Definition status_text (what key : str) (status : Z) : str :=
  what ++ lit " failed: key=" ++ key ++ lit " status=" ++ dec status.
Definition error_text (what key err : str) : str := what ++ lit " failed: key=" ++ key ++ lit ": " ++ err.

Definition conditional_put_with_headers (key : str) (payload : bytes) (headers : Headers) : M S3ObjectStore WalStoreError Z :=
  let key := normalize_key key in
  with_retry (
    let! _ := st_lift (map_err (fun err => S3 (lit "bucket header override failed: key=" ++ key ++ lit ": " ++ err))
                         (bk_with_extra_headers headers)) in
    request (bk_put_object headers key payload) (error_text (lit "conditional put") key)).

(** The answer to a HEAD, whose tag or whose presence is asked for. *)
Definition headed {A} (key : str) (absent : A) (present : option str -> A) (answer : option str * Z) : result A WalStoreError :=
  let (tag, status) := answer in
  if decide (status = 404) then Ok absent
  else if decide (success status) then Ok (present tag)
  else Err (S3 (status_text (lit "head_object") key status)).
Definition head_etag (key : str) : M S3ObjectStore WalStoreError (option str) :=
  let key := normalize_key key in
  with_retry (
    let! answer := request (bk_head_object key) (error_text (lit "head_object") key) in
    st_lift (headed key None (fun tag => match tag with Some (_ :: _) => tag | _ => None end) answer)).

(** *** The trait *)
Definition s3_put_object (key : str) (payload : bytes) : M S3ObjectStore WalStoreError unit :=
  let key := normalize_key key in
  with_retry (
    let! status := request (bk_put_object [] key payload) (error_text (lit "put_object") key) in
    if decide (success status) then st_ret tt else st_fail (S3 (status_text (lit "put_object") key status))).
Definition s3_put_object_overwrite : str -> bytes -> M S3ObjectStore WalStoreError unit := s3_put_object.

(** The answer to a GET. *)
Definition got (what key : str) (answer : Z * bytes) : result bytes WalStoreError :=
  let (status, data) := answer in
  if decide (status = 404) then Err (ObjectNotFound key)
  else if decide (success status) then Ok data
  else Err (S3 (status_text what key status)).
Definition s3_get_object (key : str) : M S3ObjectStore WalStoreError bytes :=
  let key := normalize_key key in
  with_retry (
    let! answer := request (bk_get_object key) (error_text (lit "get_object") key) in
    st_lift (got (lit "get_object") key answer)).
Definition s3_get_object_range (key : str) (start stop : Z) : M S3ObjectStore WalStoreError bytes :=
  if decide (start >= stop) then st_ret [] else
  let key := normalize_key key in
  let last := saturating_sub stop 1 in
  with_retry (
    let! answer := request (bk_get_object_range key start last)
                     (fun err => lit "get_object_range failed: key=" ++ key ++ lit " start=" ++ dec start ++ lit " end=" ++ dec last
                                 ++ lit ": " ++ err) in
    st_lift (got (lit "get_object_range") key answer)).

(** [get_object_many]: a task per key, without retries; [order] is the order the
    tasks finish in, none of which panics. *)
Definition get_once (key : str) : M S3ObjectStore WalStoreError bytes :=
  let! answer := request (bk_get_object key) (error_text (lit "get_object") key) in st_lift (got (lit "get_object") key answer).
Fixpoint run_tasks (keys : list str) (order : list nat) (s : S3ObjectStore) (out : list (option (result bytes WalStoreError)))
  : S3ObjectStore * list (option (result bytes WalStoreError)) :=
  match order with
  | [] => (s, out)
  | idx :: rest =>
      match keys !! idx with
      | None => run_tasks keys rest s out
      | Some key => let (s, r) := get_once key s in run_tasks keys rest s (<[idx := Some r]> out)
      end
  end.
Definition s3_get_object_many (order : list nat) (keys : list str) (s : S3ObjectStore) : S3ObjectStore * list (result bytes WalStoreError) :=
  let normalized := map normalize_key keys in
  let (s, out) := run_tasks normalized order s (map (fun _ => None) normalized) in
  (s, map (fun o => default (Err (S3 (lit "get_object_many missing result"))) o) out).

(** [compare_and_swap_object] and [read_with_token] make two requests; [others] is
    what other clients do to the bucket between them. *)
Definition compare_and_swap_amid (others : B -> B) (key : str) (expected : option bytes) (new_payload : bytes)
  : M S3ObjectStore WalStoreError bool :=
  fun s =>
    let (s, r) := s3_get_object key s in
    let current := match r with
                   | Ok bytes => Ok (Some bytes)
                   | Err (ObjectNotFound _) => Ok None
                   | Err err => Err err
                   end in
    (let! current := st_lift current in
     if decide (current = expected)
     then fun s => (let! _ := s3_put_object_overwrite key new_payload in st_ret true) (set_bucket (others (s3_bucket s)) s)
     else st_ret false) s.
Definition read_with_token_amid (others : B -> B) (key : str) : M S3ObjectStore WalStoreError (option (bytes * CasToken)) :=
  fun s =>
    let (s, r) := s3_get_object key s in
    match r with
    | Err (ObjectNotFound _) => (s, Ok None)
    | Err err => (s, Err err)
    | Ok bytes =>
        (let! tag := head_etag key in
         st_ret (Some (bytes, match tag with Some etag => ETag etag | None => ContentHash (content_hash bytes) end)))
          (set_bucket (others (s3_bucket s)) s)
    end.
Definition s3_compare_and_swap_object := compare_and_swap_amid (fun b => b).
Definition s3_read_with_token := read_with_token_amid (fun b => b).
Definition current_token_for_key (key : str) : M S3ObjectStore WalStoreError (option CasToken) :=
  let! maybe := s3_read_with_token key in st_ret (snd <$> maybe).

Definition s3_capabilities_now (s : S3ObjectStore) : StoreCapabilities :=
  match get_cached_capabilities s with Ok c => c | Err _ => default_capabilities end.
(** The status of a conditional put. *)
Definition put_outcome (what key : str) (status : Z) : M S3ObjectStore WalStoreError ConditionalPutResult :=
  if decide (success status) then st_ret Success
  else if decide (status ∈ [404; 409; 412]) then let! token := current_token_for_key key in st_ret (Conflict token)
  else if decide (status ∈ [400; 405; 501]) then st_ret Unsupported
  else st_fail (S3 (status_text what (normalize_key key) status)).
Definition s3_put_if_token_matches (key : str) (payload : bytes) (token : CasToken) : M S3ObjectStore WalStoreError ConditionalPutResult :=
  fun s =>
    if negb (conditional_update (s3_capabilities_now s)) then (s, Ok Unsupported) else
    match token with
    | ContentHash _ => (s, Ok Unsupported)
    | ETag etag =>
        let value := etag_if_match_value etag in
        (let! _ := st_lift (map_err (fun err => S3 (lit "invalid etag header value: " ++ err)) (header_from_str value)) in
         let! status := conditional_put_with_headers key payload [(IF_MATCH, value)] in
         put_outcome (lit "put_if_token_matches") key status) s
    end.
Definition s3_put_if_absent (key : str) (payload : bytes) : M S3ObjectStore WalStoreError ConditionalPutResult :=
  fun s =>
    if negb (conditional_create (s3_capabilities_now s)) then (s, Ok Unsupported) else
    (let! status := conditional_put_with_headers key payload [(IF_NONE_MATCH, lit "*")] in
     put_outcome (lit "put_if_absent") key status) s.

Definition s3_head_object (key : str) : M S3ObjectStore WalStoreError bool :=
  let key := normalize_key key in
  with_retry (
    let! answer := request (bk_head_object key) (error_text (lit "head_object") key) in
    st_lift (headed key false (fun _ => true) answer)).
Definition s3_list_prefix (prefix : str) : M S3ObjectStore WalStoreError (list str) :=
  let prefix := normalize_key prefix in
  with_retry (
    let! pages := request (bk_list prefix) (fun err => lit "list failed: prefix=" ++ prefix ++ lit ": " ++ err) in
    st_lift (Ok (concat pages))).
Definition s3_delete_object (key : str) : M S3ObjectStore WalStoreError bool :=
  let key := normalize_key key in
  with_retry (
    let! status := request (bk_delete_object key) (error_text (lit "delete_object") key) in
    if decide (status = 404) then st_ret false
    else if decide (success status) then st_ret true
    else st_fail (S3 (status_text (lit "delete_object") key status))).

(** *** Capabilities *)

(** How a conditional put of the probe is taken. *)
Definition probe_verdict (what : str) (r : result Z WalStoreError) : M S3ObjectStore WalStoreError bool :=
  match r with
  | Ok status =>
      if decide (success status \/ status = 409 \/ status = 412) then st_ret true
      else if decide (status ∈ [400; 405; 501]) then st_ret false
      else fun s => (s, Err (S3 (lit "conditional " ++ what ++ lit " probe failed: endpoint=" ++ s3_endpoint s ++ lit " bucket="
                                 ++ s3_bucket_name s ++ lit " status=" ++ dec status)))
  | Err _ => st_ret false
  end.
(** [probe_capabilities]; [now] is the clock in nanoseconds. *)
Definition probe_update (update_key : str) : M S3ObjectStore WalStoreError bool :=
  let! tag := head_etag update_key in
  match tag with
  | None => st_ret false
  | Some etag =>
      let value := etag_if_match_value etag in
      let! _ := st_lift (map_err (fun err => S3 (lit "invalid etag header value: " ++ err)) (header_from_str value)) in
      fun s =>
        let (s, updated) := conditional_put_with_headers update_key (lit "capability-probe-update-v2") [(IF_MATCH, value)] s in
        probe_verdict (lit "update") updated s
  end.
Definition probe_keys (create_key update_key : str) : M S3ObjectStore WalStoreError StoreCapabilities :=
  fun s =>
    let (s, created) := conditional_put_with_headers create_key (lit "capability-probe-create") [(IF_NONE_MATCH, lit "*")] s in
    (let! conditional_create := probe_verdict (lit "create") created in
     fun s =>
       let (s, _) := s3_delete_object create_key s in
       (let! _ := s3_put_object_overwrite update_key (lit "capability-probe-update-v1") in
        let! conditional_update := probe_update update_key in
        fun s =>
          let (s, _) := s3_delete_object update_key s in
          (s, Ok (mkStoreCapabilities conditional_create conditional_update))) s) s.
Definition probe_capabilities (now : Z) : M S3ObjectStore WalStoreError StoreCapabilities :=
  fun s =>
    let create_key := lit "wombatkv/capability-probe/" ++ s3_bucket_name s ++ lit "/create-" ++ dec now in
    probe_keys create_key (create_key ++ lit "-update") s.
Definition probe_capabilities_if_needed (now : Z) : M (CapabilityCache * S3ObjectStore) WalStoreError unit :=
  fun '(cache, s) =>
    let '((cache, s), r) := get_or_probe (s3_cache_key s) (probe_capabilities now) (cache, s) in
    match r with
    | Err e => ((cache, s), Err e)
    | Ok capabilities => let (s, r) := set_cached_capabilities capabilities s in ((cache, s), r)
    end.
Definition ensure_bucket (now : Z) : M (CapabilityCache * S3ObjectStore) WalStoreError unit :=
  fun '(cache, s) =>
    let (s, r) :=
      with_retry (let! exists_ := request bk_exists (fun err => lit "bucket exists failed: " ++ err) in
                  if exists_ then st_ret tt else request bk_create (fun err => lit "bucket create failed: " ++ err)) s in
    match r with
    | Err e => ((cache, s), Err e)
    | Ok _ => probe_capabilities_if_needed now (cache, s)
    end.

#[export] Instance s3_object_store : ObjectStore S3ObjectStore := {|
  put_object := s3_put_object;
  put_object_overwrite := s3_put_object_overwrite;
  get_object := s3_get_object;
  get_object_range := s3_get_object_range;
  compare_and_swap_object := s3_compare_and_swap_object;
  read_with_token := s3_read_with_token;
  put_if_token_matches := s3_put_if_token_matches;
  put_if_absent := s3_put_if_absent;
  capabilities := s3_capabilities_now;
  head_object := s3_head_object;
  list_prefix := s3_list_prefix;
  delete_object := s3_delete_object
|}.
End Store.
Arguments S3ObjectStore : clear implicits.

(** ** What no operation changes *)
Section Named.
Context {B : Type} `{!Bucket B}.
Definition named {A : Type} (m : M (S3ObjectStore B) WalStoreError A) : Prop := forall s, s3_bucket_name (fst (m s)) = s3_bucket_name s.
Lemma named_request {A : Type} (c : M B str A) (text : str -> str) : named (request c text).
Proof. intros s. unfold request. by destruct (c (s3_bucket s)). Qed.
Lemma named_lift {A : Type} (r : result A WalStoreError) : named (st_lift r).
Proof. done. Qed.
Lemma named_bind {A C : Type} (m : M (S3ObjectStore B) WalStoreError A) (f : A -> M (S3ObjectStore B) WalStoreError C) :
  named m -> (forall a, named (f a)) -> named (st_bind m f).
Proof.
  intros Hm Hf s. specialize (Hm s). unfold st_bind. destruct (m s) as [s1 [a|e]]; cbn [fst] in *; [|done]. by rewrite Hf.
Qed.
Lemma named_then {A C : Type} (m : M (S3ObjectStore B) WalStoreError A) (f : result A WalStoreError -> M (S3ObjectStore B) WalStoreError C) :
  named m -> (forall r, named (f r)) -> named (fun s => let (s, r) := m s in f r s).
Proof. intros Hm Hf s. specialize (Hm s). destruct (m s) as [s1 r]. by rewrite Hf. Qed.
Lemma named_loop {A : Type} n (op : M (S3ObjectStore B) WalStoreError A) e : named op -> named (retry_loop n op e).
Proof.
  intros Hop. revert e. induction n as [|n IH]; intros e s; cbn [retry_loop]; [done|]. specialize (Hop s).
  destruct (op s) as [s1 [a|err]]; cbn [fst] in *; [done|]. by rewrite IH.
Qed.
Lemma named_retry {A : Type} (op : M (S3ObjectStore B) WalStoreError A) : named op -> named (with_retry op).
Proof. intros Hop s. by apply named_loop. Qed.
End Named.
Ltac named :=
  repeat first
    [ apply named_lift | apply named_request | apply named_retry | apply named_bind; [|intro]
    | match goal with |- named (match ?y with _ => _ end) => destruct y end ].
Section NamedOps.
Context {B : Type} `{!Bucket B}.
Lemma named_conditional_put k v h : named (conditional_put_with_headers k v h).
Proof. unfold conditional_put_with_headers. named. Qed.
Lemma named_head_etag k : named (head_etag k).
Proof. unfold head_etag. named. Qed.
Lemma named_put k v : named (s3_put_object k v).
Proof. unfold s3_put_object. named; apply named_lift. Qed.
Lemma named_get k : named (s3_get_object k).
Proof. unfold s3_get_object. named. Qed.
Lemma named_list p : named (s3_list_prefix p).
Proof. unfold s3_list_prefix. named. Qed.
Lemma named_delete k : named (s3_delete_object k).
Proof. unfold s3_delete_object. named; apply named_lift. Qed.
Lemma named_verdict what r : named (B := B) (probe_verdict what r).
Proof. unfold probe_verdict. named; try apply named_lift. by intros s. Qed.
Lemma named_probe now : named (probe_capabilities now).
Proof.
  intros s. unfold probe_capabilities. generalize (lit "wombatkv/capability-probe/" ++ s3_bucket_name s ++ lit "/create-" ++ dec now).
  intros ck. generalize (ck ++ lit "-update"). intros uk. revert s.
  apply (named_then (conditional_put_with_headers ck _ _)); [apply named_conditional_put|]. intros r.
  apply named_bind; [apply named_verdict|]. intros cc. apply (named_then (s3_delete_object ck)); [apply named_delete|]. intros _.
  apply named_bind; [apply named_put|]. intros _. apply named_bind.
  - apply named_bind; [apply named_head_etag|]. intros [etag|]; [|apply named_lift]. apply named_bind; [apply named_lift|]. intros _.
    apply (named_then (conditional_put_with_headers uk _ _)); [apply named_conditional_put|]. intros r'. apply named_verdict.
  - intros cu. apply (named_then (s3_delete_object uk)); [apply named_delete|]. intros _. apply named_lift.
Qed.
Lemma named_ensure now cache s : s3_bucket_name (snd (fst (ensure_bucket now (cache, s)))) = s3_bucket_name s.
Proof.
  unfold ensure_bucket. match goal with |- context [with_retry ?op s] => assert (named op) as Hop end.
  { apply named_bind; [apply named_request|]. intros []; [apply named_lift|apply named_request]. }
  pose proof (named_retry _ Hop s) as H1. destruct (with_retry _ s) as [s1 [[]|e]]; cbn [fst snd] in *; [|done].
  unfold probe_capabilities_if_needed, get_or_probe. destruct (cache_poisoned cache); [done|].
  destruct (cache_entries cache !! _); [done|]. pose proof (named_probe now s1) as H2.
  destruct (probe_capabilities now s1) as [s2 [c|e]]; cbn [fst snd] in *; [|congruence]. cbn. congruence.
Qed.
End NamedOps.

(** ** The contract *)

(** The laws of an object store, for the keys in [P]. *)
Record contract_on {S} `{!ObjectStore S} (P : str -> Prop) (contents : S -> gmap str bytes) : Prop := mkContract {
  on_put k v s s' r :
    P k -> put_object k v s = (s', r) ->
    (contents s' = contents s \/ contents s' = <[k := v]> (contents s)) /\
    (r = Ok tt -> contents s !! k = None -> contents s' = <[k := v]> (contents s));
  on_put_overwrite k v s s' r :
    P k -> put_object_overwrite k v s = (s', r) ->
    (contents s' = contents s \/ contents s' = <[k := v]> (contents s)) /\
    (r = Ok tt -> contents s' = <[k := v]> (contents s));
  on_get k s s' r :
    P k -> get_object k s = (s', r) ->
    contents s' = contents s /\
    match r with
    | Ok v => contents s !! k = Some v
    | Err (ObjectNotFound _) => contents s !! k = None
    | Err _ => True
    end;
  on_get_range k a b s s' r :
    P k -> 0 <= a -> get_object_range k a b s = (s', r) ->
    contents s' = contents s /\
    (forall v, r = Ok v ->
      (a < b -> exists bs, contents s !! k = Some bs /\ v = clamp_range bs a b) /\ (b <= a -> v = []));
  on_head k s s' r :
    P k -> head_object k s = (s', r) ->
    contents s' = contents s /\ (forall b, r = Ok b -> b = bool_decide (is_Some (contents s !! k)));
  on_list p s s' r :
    P p -> list_prefix p s = (s', r) ->
    contents s' = contents s /\
    (forall ks, r = Ok ks ->
      NoDup ks /\ forall k, k ∈ ks <-> is_Some (contents s !! k) /\ starts_with p k = true);
  on_put_if_absent k v s s' r :
    P k -> put_if_absent k v s = (s', r) ->
    (contents s' = contents s \/ contents s !! k = None /\ contents s' = <[k := v]> (contents s)) /\
    (r = Ok Success -> contents s !! k = None /\ contents s' = <[k := v]> (contents s));
  on_delete k s s' r :
    P k -> delete_object k s = (s', r) ->
    (contents s' = contents s \/ contents s' = delete k (contents s)) /\
    (forall b, r = Ok b -> contents s' = delete k (contents s))
}.
Lemma laws_are_contract {S} `{!ObjectStore S, !ObjectStoreLaws S} : contract_on (fun _ => True) (contents (S := S)).
Proof.
  split; intros *; intros _.
  - apply put_object_law.
  - apply put_object_overwrite_law.
  - apply get_object_law.
  - intros _. apply get_object_range_law.
  - apply head_object_law.
  - apply list_prefix_law.
  - apply put_if_absent_law.
  - apply delete_object_law.
Qed.

(** Keys the store uses as they are. *)
Definition clean (k : str) : Prop := starts_with (lit "/") k = false.
Lemma normalize_clean k : clean k -> normalize_key k = k.
Proof. unfold clean, normalize_key, starts_with. by destruct (strip_prefix (lit "/") k). Qed.
(** The store drops one leading slash, so two keys may name one object. *)
Lemma normalize_slash k : normalize_key (x2f :: k) = k.
Proof. reflexivity. Qed.

(** *** Retries *)
Lemma retry_keeps {W A} (Inv : W -> Prop) (Q : W -> A -> Prop) (F : W -> WalStoreError -> Prop) (op : M W WalStoreError A) n e w w' r :
  (forall w w' r, Inv w -> op w = (w', r) -> Inv w' /\ match r with Ok a => Q w' a | Err e => F w' e end) ->
  Inv w -> match e with Some e => F w e | None => forall m, F w (S3 m) end ->
  retry_loop n op e w = (w', r) -> Inv w' /\ match r with Ok a => Q w' a | Err e => F w' e end.
Proof.
  intros Hop. revert e w. induction n as [|n IH]; intros e w Hw He; cbn [retry_loop].
  { intros [<- <-]%pair_inj. split; [done|]. destruct e; [done|apply He]. }
  destruct (op w) as [w1 [a|err]] eqn:E; destruct (Hop w w1 _ Hw E) as [Hw1 Hr]; [by intros [<- <-]%pair_inj|].
  by apply IH.
Qed.

Section Contract.
Context {B : Type} `{!Bucket B, !BucketLaws B}.
Abbreviation St := (S3ObjectStore B).
Definition s3_objects (s : St) : gmap str (bytes * str) := objects (s3_bucket s).
Definition s3_contents (s : St) : gmap str bytes := fst <$> s3_objects s.

(** A request, by what it does to the objects. *)
Lemma request_spec {A : Type} (c : M B str A) (text : str -> str) (Q : gmap str (bytes * str) -> gmap str (bytes * str) -> result A str -> Prop) :
  (forall b b' r, c b = (b', r) -> Q (objects b) (objects b') r) ->
  forall s s' r, request c text s = (s', r) -> exists r0, r = map_err (fun e => S3 (text e)) r0 /\ Q (s3_objects s) (s3_objects s') r0.
Proof.
  intros Hc s s' r. unfold request. destruct (c (s3_bucket s)) as [b' r0] eqn:E. intros [<- <-]%pair_inj.
  exists r0. split; [done|]. exact (Hc _ _ _ E).
Qed.
(** Retrying an operation that keeps [Inv] over the objects. *)
Lemma with_retry_spec {A : Type} (Inv : gmap str (bytes * str) -> Prop) (Q : gmap str (bytes * str) -> A -> Prop)
    (F : gmap str (bytes * str) -> WalStoreError -> Prop) (op : M St WalStoreError A) s s' r :
  (forall w w' r, Inv (s3_objects w) -> op w = (w', r) ->
     Inv (s3_objects w') /\ match r with Ok a => Q (s3_objects w') a | Err e => F (s3_objects w') e end) ->
  Inv (s3_objects s) -> (forall m, F (s3_objects s) (S3 m)) -> with_retry op s = (s', r) ->
  Inv (s3_objects s') /\ match r with Ok a => Q (s3_objects s') a | Err e => F (s3_objects s') e end.
Proof.
  intros Hop Hs Hf. unfold with_retry, retry_with_backoff.
  apply (retry_keeps (fun w => Inv (s3_objects w)) (fun w => Q (s3_objects w)) (fun w => F (s3_objects w))); done.
Qed.

(** A read: the objects stay, and the answer is right. *)
Lemma s3_read_spec {A C : Type} (c : M B str A) (text : str -> str) (k : A -> result C WalStoreError) (good : gmap str (bytes * str) -> A -> Prop)
    (Q : gmap str (bytes * str) -> C -> Prop) (F : gmap str (bytes * str) -> WalStoreError -> Prop) s s' r :
  (forall b b' r, c b = (b', r) -> objects b' = objects b /\ forall a, r = Ok a -> good (objects b) a) ->
  (forall o m, F o (S3 m)) ->
  (forall o a, good o a -> match k a with Ok v => Q o v | Err e => F o e end) ->
  with_retry (let! a := request c text in st_lift (k a)) s = (s', r) ->
  s3_objects s' = s3_objects s /\ match r with Ok v => Q (s3_objects s) v | Err e => F (s3_objects s) e end.
Proof.
  intros Hc HF Hk E.
  edestruct (with_retry_spec (fun o => o = s3_objects s) Q F) as [Ho Hr]; [|reflexivity|intros; apply HF|exact E|].
  2: { split; [done|]. by rewrite Ho in Hr. }
  intros w w' r' Hw. unfold st_bind. destruct (request c text w) as [w1 r1] eqn:E1.
  destruct (request_spec c text (fun o o' r => o' = o /\ forall a, r = Ok a -> good o a) Hc w w1 r1 E1) as (r0 & -> & Ho & Hg).
  destruct r0 as [a|e]; cbn [map_err].
  - unfold st_lift. intros [<- <-]%pair_inj. split; [congruence|]. rewrite Ho. by apply Hk, Hg.
  - intros [<- <-]%pair_inj. split; [congruence|]. apply HF.
Qed.
Definition not_found (k : str) (o : gmap str (bytes * str)) (e : WalStoreError) : Prop :=
  match e with ObjectNotFound _ => o !! k = None | _ => True end.

Lemma s3_get_spec k s s' r :
  s3_get_object k s = (s', r) ->
  s3_objects s' = s3_objects s /\
  match r with
  | Ok v => fst <$> s3_objects s !! normalize_key k = Some v
  | Err e => not_found (normalize_key k) (s3_objects s) e
  end.
Proof.
  unfold s3_get_object. set (k' := normalize_key k).
  apply (s3_read_spec _ _ _ (fun o a => (success (fst a) -> fst <$> o !! k' = Some (snd a)) /\ (fst a = 404 -> o !! k' = None))
           (fun o v => fst <$> o !! k' = Some v)).
  - intros b b' r0 E. destruct (bk_get_law _ _ _ _ E) as [Ho Hr]. split; [done|]. intros [status data] ->. by apply Hr.
  - done.
  - intros o [status data] [Hs Hn]. unfold got. cbn [fst snd] in *.
    case_decide; [by apply Hn|]. destruct (decide (success status)); [by apply Hs|done].
Qed.
Lemma s3_get_range_spec k a b s s' r :
  0 <= a -> s3_get_object_range k a b s = (s', r) ->
  s3_objects s' = s3_objects s /\
  forall v, r = Ok v -> (a < b -> exists bs, fst <$> s3_objects s !! normalize_key k = Some bs /\ v = clamp_range bs a b) /\ (b <= a -> v = []).
Proof.
  intros Ha. unfold s3_get_object_range. case_decide as Hab.
  { intros [<- <-]%pair_inj. split; [done|]. intros v <-%Ok_inj. split; [lia|done]. }
  set (k' := normalize_key k). set (last := saturating_sub b 1). intros E.
  revert E.
  match goal with |- with_retry (st_bind (request ?c ?text) _) _ = _ -> _ => intros E;
    destruct (s3_read_spec c text (got (lit "get_object_range") k')
    (fun o w => success (fst w) -> a <= last -> exists bs, fst <$> o !! k' = Some bs /\ snd w = clamp_range bs a (last + 1))
    (fun o v => a <= last -> exists bs, fst <$> o !! k' = Some bs /\ v = clamp_range bs a (last + 1)) (fun _ _ => True) s s' r)
    as [Ho Hr]; [| | |exact E|] end.
  - intros b0 b1 r0 E0. destruct (bk_get_range_law _ _ _ _ _ _ E0) as [Ho Hr]. split; [done|].
    intros [status data] ->. intros Hs Hl. by apply (Hr status data).
  - done.
  - intros o [status data] Hg. unfold got. case_decide; [done|]. destruct (decide (success status)) as [Hs|]; [|done]. by apply Hg.
  - split; [done|]. intros v ->. split; [|lia]. intros _.
    destruct Hr as (bs & Hb & ->); [unfold last, saturating_sub; lia|]. exists bs. split; [done|].
    f_equal. unfold last, saturating_sub. lia.
Qed.

(** A HEAD finds the object with its tag, or none. *)
Definition seen (k : str) (o : gmap str (bytes * str)) (answer : option str * Z) : Prop :=
  (success (snd answer) -> exists bs e, o !! k = Some (bs, e) /\ forall t, fst answer = Some t -> t = e) /\
  (snd answer = 404 -> o !! k = None).
Lemma head_spec {C : Type} (text : str -> str) (k : str) (absent : C) (present : option str -> C) (Q : gmap str (bytes * str) -> C -> Prop) s s' r :
  (forall o, o !! k = None -> Q o absent) ->
  (forall o bs e tag, o !! k = Some (bs, e) -> (forall t, tag = Some t -> t = e) -> Q o (present tag)) ->
  with_retry (let! answer := request (bk_head_object k) text in st_lift (headed k absent present answer)) s = (s', r) ->
  s3_objects s' = s3_objects s /\ forall v, r = Ok v -> Q (s3_objects s) v.
Proof.
  intros Ha Hp E. destruct (s3_read_spec (bk_head_object k) text (headed k absent present) (seen k) Q (fun _ _ => True) s s' r)
    as [Ho Hr]; [|done| |exact E|split; [done|by intros v ->]].
  - intros b b' r0 E0. destruct (bk_head_law _ _ _ _ E0) as [Ho Hr]. split; [done|]. intros [tag status] ->. by apply Hr.
  - intros o [tag status] [Hs Hn]. unfold headed. case_decide; [by apply Ha, Hn|].
    destruct (decide (success status)) as [Hk|]; [|done]. destruct (Hs Hk) as (bs & e & Ho & Ht). by eapply Hp.
Qed.
Lemma s3_head_spec k s s' r :
  s3_head_object k s = (s', r) ->
  s3_objects s' = s3_objects s /\ forall b, r = Ok b -> b = bool_decide (is_Some (s3_objects s !! normalize_key k)).
Proof.
  unfold s3_head_object. set (k' := normalize_key k). intros E.
  destruct (head_spec (error_text (lit "head_object") k') k' false (fun _ => true) (fun o b => b = true <-> is_Some (o !! k')) s s' r)
    as [Ho Hr]; [intros o ->; by rewrite is_Some_alt|intros o bs e tag -> _; by rewrite is_Some_alt|exact E|].
  split; [done|]. intros b ->. specialize (Hr b eq_refl). destruct b; symmetry.
  - apply bool_decide_eq_true_2. by apply Hr.
  - apply bool_decide_eq_false_2. intros Hs. by apply Hr in Hs.
Qed.
Lemma head_etag_spec k s s' r :
  head_etag k s = (s', r) ->
  s3_objects s' = s3_objects s /\
  forall t, r = Ok (Some t) -> exists bs, s3_objects s !! normalize_key k = Some (bs, t).
Proof.
  intros E. destruct (head_spec (error_text (lit "head_object") (normalize_key k)) (normalize_key k) None
    (fun tag => match tag with Some (_ :: _) => tag | _ => None end)
    (fun o v => forall t, v = Some t -> exists bs, o !! normalize_key k = Some (bs, t)) s s' r) as [Ho Hr]; [done| |exact E|].
  - intros o bs e tag -> Ht t. destruct tag as [[|x t']|]; [done| |done]. intros [= <-]. exists bs. by rewrite <- (Ht _ eq_refl).
  - split; [done|]. intros t ->. by apply (Hr (Some t) eq_refl).
Qed.
Lemma s3_list_spec p s s' r :
  s3_list_prefix p s = (s', r) ->
  s3_objects s' = s3_objects s /\
  forall ks, r = Ok ks -> NoDup ks /\ forall k, k ∈ ks <-> is_Some (s3_objects s !! k) /\ starts_with (normalize_key p) k = true.
Proof.
  unfold s3_list_prefix. set (p' := normalize_key p). intros E.
  destruct (s3_read_spec (bk_list p') (fun err => lit "list failed: prefix=" ++ p' ++ lit ": " ++ err) (fun pages => Ok (concat pages))
    (fun o pages => NoDup (concat pages) /\ forall k, k ∈ concat pages <-> is_Some (o !! k) /\ starts_with p' k = true)
    (fun o ks => NoDup ks /\ forall k, k ∈ ks <-> is_Some (o !! k) /\ starts_with p' k = true) (fun _ _ => True) s s' r)
    as [Ho Hr]; [|done|done|exact E|split; [done|by intros ks ->]].
  intros b b' r0 E0. destruct (bk_list_law _ _ _ _ E0) as [Ho Hr]. split; [done|]. intros pages ->. by apply Hr.
Qed.

(** *** Writes *)

(** What a put that may be repeated leaves. *)
Definition put_somehow (k : str) (v : bytes) (o o' : gmap str (bytes * str)) : Prop := exists e, o' = <[k := (v, e)]> o.
Lemma put_again k v o o1 o2 : o1 = o \/ put_somehow k v o o1 -> put_somehow k v o1 o2 -> put_somehow k v o o2.
Proof. intros [->|[e ->]] [e' ->]; exists e'; [done|]. by rewrite insert_insert_eq. Qed.
Lemma s3_put_spec k v s s' r :
  s3_put_object k v s = (s', r) ->
  (s3_objects s' = s3_objects s \/ put_somehow (normalize_key k) v (s3_objects s) (s3_objects s')) /\
  (r = Ok tt -> put_somehow (normalize_key k) v (s3_objects s) (s3_objects s')).
Proof.
  unfold s3_put_object. set (k' := normalize_key k). set (o := s3_objects s). intros E.
  edestruct (with_retry_spec (fun o' => o' = o \/ put_somehow k' v o o') (fun o' (_ : unit) => put_somehow k' v o o') (fun _ _ => True))
    as [Ho Hr]; [|by left|done|exact E|].
  2: { split; [done|]. by intros ->. }
  intros w w' r' Hw. unfold st_bind. destruct (request _ _ w) as [w1 r1] eqn:E1.
  apply (request_spec _ _ (fun o1 o2 r => (o2 = o1 \/ put_somehow k' v o1 o2) /\ forall st, r = Ok st -> success st -> put_somehow k' v o1 o2))
    in E1 as (r0 & -> & Hput & Hok); [|intros; by eapply bk_put_law].
  assert (s3_objects w1 = o \/ put_somehow k' v o (s3_objects w1)) as Hw1.
  { destruct Hput as [->|Hp]; [done|]. right. by eapply put_again. }
  destruct r0 as [st|e]; cbn [map_err]; [|by intros [<- <-]%pair_inj].
  destruct (decide (success st)) as [Hs|]; intros [<- <-]%pair_inj; (split; [done|]); [|done].
  eapply put_again; [exact Hw|]. by apply (Hok st).
Qed.
Lemma s3_delete_spec k s s' r :
  s3_delete_object k s = (s', r) ->
  (s3_objects s' = s3_objects s \/ s3_objects s' = delete (normalize_key k) (s3_objects s)) /\
  forall b, r = Ok b -> s3_objects s' = delete (normalize_key k) (s3_objects s).
Proof.
  unfold s3_delete_object. set (k' := normalize_key k). set (o := s3_objects s). intros E.
  edestruct (with_retry_spec (fun o' => o' = o \/ o' = delete k' o) (fun o' (_ : bool) => o' = delete k' o) (fun _ _ => True))
    as [Ho Hr]; [|by left|done|exact E|].
  2: { split; [done|]. by intros b ->. }
  intros w w' r' Hw. unfold st_bind. destruct (request _ _ w) as [w1 r1] eqn:E1.
  apply (request_spec _ _ (fun o1 o2 r => (o2 = o1 \/ o2 = delete k' o1) /\ forall st, r = Ok st -> success st \/ st = 404 -> o2 = delete k' o1))
    in E1 as (r0 & -> & Hdel & Hok); [|intros; by eapply bk_delete_law].
  assert (forall o2, o2 = delete k' (s3_objects w) -> o2 = delete k' o) as Hd.
  { intros o2 ->. destruct Hw as [->| ->]; [done|]. by rewrite delete_delete_eq. }
  assert (s3_objects w1 = o \/ s3_objects w1 = delete k' o) as Hw1 by (destruct Hdel as [->|?]; [done|right; by apply Hd]).
  destruct r0 as [st|e]; cbn [map_err]; [|by intros [<- <-]%pair_inj].
  destruct (decide (st = 404)) as [->|]; [|destruct (decide (success st)) as [Hs|]];
    intros [<- <-]%pair_inj; (split; [done|]); try done; apply Hd, (Hok _ eq_refl); auto.
Qed.

(** A conditional put, whose condition was met when it reports success. *)
Lemma conditional_put_spec (cond : gmap str (bytes * str) -> Prop) h k v s s' r :
  let k' := normalize_key k in
  (forall b b' r, bk_put_object h k' v b = (b', r) -> carried_out objects b b' r -> cond (objects b)) ->
  conditional_put_with_headers k v h s = (s', r) ->
  (s3_objects s' = s3_objects s \/ cond (s3_objects s) /\ put_somehow k' v (s3_objects s) (s3_objects s')) /\
  (forall st, r = Ok st -> success st ->
     cond (s3_objects s) /\ put_somehow k' v (s3_objects s) (s3_objects s')).
Proof.
  intros k' Hc E. set (o := s3_objects s).
  edestruct (with_retry_spec (fun o' => o' = o \/ cond o /\ put_somehow k' v o o')
    (fun o' st => success st -> cond o /\ put_somehow k' v o o') (fun _ _ => True))
    as [Ho Hr]; [|by left|done|exact E|].
  2: { split; [done|]. intros st ->. exact Hr. }
  intros w w' r' Hw. unfold st_bind, st_lift.
  destruct (bk_with_extra_headers h) as [[]|e]; cbn [map_err]; [|by intros [<- <-]%pair_inj].
  intros E1. apply (request_spec _ _ (fun o1 o2 r => (o2 = o1 \/ cond o1 /\ put_somehow k' v o1 o2) /\
      forall st, r = Ok st -> success st -> cond o1 /\ put_somehow k' v o1 o2)) in E1 as (r0 & -> & Hput & Hok).
  2: { intros b b' r0 E0. pose proof (Hc b b' r0 E0) as Hch. destruct (bk_put_law _ _ _ _ _ _ E0) as [Hp Hs]. split.
       - destruct (decide (objects b' = objects b)) as [Heq|Hne]; [by left|]. right. split; [apply Hch; by left|]. by destruct Hp.
       - intros st -> Hsu. split; [apply Hch; right; eauto|by eapply Hs]. }
  assert (put_somehow k' v (s3_objects w) (s3_objects w') -> put_somehow k' v o (s3_objects w')) as Hag.
  { apply put_again. destruct Hw as [?|[_ ?]]; auto. }
  assert (cond (s3_objects w) -> cond o) as Hcd by (intros Hx; destruct Hw as [<-|[? _]]; done).
  split.
  - destruct Hput as [->|[Hx Hp]]; [done|]. right. auto.
  - destruct r0 as [st|e]; cbn [map_err]; [|done]. intros Hsu. destruct (Hok st eq_refl Hsu) as [Hx Hp]. auto.
Qed.
(** Reading the token keeps the objects. *)
Lemma s3_read_with_token_spec k s s' r :
  s3_read_with_token k s = (s', r) ->
  s3_objects s' = s3_objects s /\
  match r with
  | Ok None => s3_objects s !! normalize_key k = None
  | Ok (Some (bs, t)) => fst <$> s3_objects s !! normalize_key k = Some bs /\
                         forall e, t = ETag e -> s3_objects s !! normalize_key k = Some (bs, e)
  | Err _ => True
  end.
Proof.
  unfold s3_read_with_token, read_with_token_amid. destruct (s3_get_object k s) as [s1 r1] eqn:Eg.
  destruct (s3_get_spec _ _ _ _ Eg) as [Ho Hr]. destruct r1 as [bs|e].
  2: { destruct e; intros [<- <-]%pair_inj; done. }
  unfold st_bind. assert (set_bucket (s3_bucket s1) s1 = s1) as -> by (by destruct s1).
  destruct (head_etag k s1) as [s2 r2] eqn:Eh. destruct (head_etag_spec _ _ _ _ Eh) as [Ho2 Hr2].
  destruct r2 as [tag|e]; [|intros [<- <-]%pair_inj; split; [congruence|done]].
  intros [<- <-]%pair_inj. split; [congruence|]. split; [done|]. intros e He. destruct tag as [t|]; [|done]. injection He as ->.
  destruct (Hr2 e eq_refl) as [bs' Hb]. rewrite Ho in Hb. rewrite Hb in Hr. cbn in Hr. by injection Hr as ->.
Qed.
Lemma put_outcome_spec what k st s s' r :
  put_outcome what k st s = (s', r) -> s3_objects s' = s3_objects s /\ (r = Ok Success -> success st).
Proof.
  unfold put_outcome. destruct (decide (success st)); [by intros [<- <-]%pair_inj|].
  destruct (decide (st ∈ [404; 409; 412])); [|destruct (decide (st ∈ [400; 405; 501])); by intros [<- <-]%pair_inj].
  unfold current_token_for_key, st_bind. destruct (s3_read_with_token k s) as [s1 r1] eqn:Er.
  destruct (s3_read_with_token_spec _ _ _ _ Er) as [Ho _]. destruct r1; by intros [<- <-]%pair_inj.
Qed.
Lemma s3_put_if_absent_spec k v s s' r :
  s3_put_if_absent k v s = (s', r) ->
  let k' := normalize_key k in
  (s3_objects s' = s3_objects s \/ s3_objects s !! k' = None /\ put_somehow k' v (s3_objects s) (s3_objects s')) /\
  (r = Ok Success -> s3_objects s !! k' = None /\ put_somehow k' v (s3_objects s) (s3_objects s')).
Proof.
  intros E k'. revert E. unfold s3_put_if_absent. destruct (negb _); [intros [<- <-]%pair_inj; split; [by left|done]|].
  unfold st_bind. destruct (conditional_put_with_headers _ _ _ s) as [s1 r1] eqn:Ec.
  apply (conditional_put_spec (fun o => o !! k' = None)) in Ec as [Ho Hs].
  2: { intros b b' r0 E0. by eapply bk_put_none_match_law. }
  destruct r1 as [st|e]; [|intros [<- <-]%pair_inj; split; [done|done]].
  intros [Hk Hr]%put_outcome_spec. rewrite Hk. split; [done|]. intros Hsu. by apply (Hs st eq_refl), Hr.
Qed.

(** A put that goes through replaces an object with the tag that was asked for. *)
Lemma s3_put_if_token_matches_spec k v t s s' r :
  s3_put_if_token_matches k v t s = (s', r) ->
  let k' := normalize_key k in
  (s3_objects s' = s3_objects s \/ put_somehow k' v (s3_objects s) (s3_objects s')) /\
  (r = Ok Success -> exists e old e', t = ETag e /\ s3_objects s !! k' = Some (old, e') /\
     etag_if_match_value e' = etag_if_match_value e /\ put_somehow k' v (s3_objects s) (s3_objects s')).
Proof.
  intros E k'. revert E. unfold s3_put_if_token_matches. destruct (negb _); [intros [<- <-]%pair_inj; split; [by left|done]|].
  destruct t as [e|h]; [|intros [<- <-]%pair_inj; split; [by left|done]]. unfold st_bind, st_lift.
  destruct (header_from_str _) as [[]|err]; cbn [map_err]; [|intros [<- <-]%pair_inj; split; [by left|done]].
  destruct (conditional_put_with_headers _ _ _ s) as [s1 r1] eqn:Ec.
  apply (conditional_put_spec (fun o => exists old e', o !! k' = Some (old, e') /\ etag_if_match_value e' = etag_if_match_value e))
    in Ec as [Ho Hs]; [|intros b b' r0 E0; by eapply bk_put_match_law].
  destruct r1 as [st|err]; [|intros [<- <-]%pair_inj; split; [destruct Ho as [?|[_ ?]]; auto|done]].
  intros [Hk Hr]%put_outcome_spec. rewrite Hk. split; [destruct Ho as [?|[_ ?]]; auto|]. intros Hsu.
  destruct (Hs st eq_refl (Hr Hsu)) as [(old & e' & Hl & Ht) Hp]. by exists e, old, e'.
Qed.

(** *** What the probes touch *)
Definition PROBE_PREFIX : str := lit "wombatkv/capability-probe/".
Definition spares (o o' : gmap str (bytes * str)) : Prop := forall k, starts_with PROBE_PREFIX k = false -> o' !! k = o !! k.
#[local] Instance spares_preorder : PreOrder spares.
Proof. split; [by intros o k|]. intros o1 o2 o3 L1 L2 k Hk. by rewrite (L2 k Hk), (L1 k Hk). Qed.
Lemma probe_key_kept k : starts_with PROBE_PREFIX k = true -> normalize_key k = k.
Proof. intros [r ->]%starts_with_spec. reflexivity. Qed.
Lemma spares_put k v o o' : starts_with PROBE_PREFIX k = true -> o' = o \/ put_somehow k v o o' -> spares o o'.
Proof.
  intros Hk [->|[e ->]]; [reflexivity|]. intros k' Hk'. rewrite lookup_insert_ne; [done|]. intros ->. congruence.
Qed.
Definition sparing {A : Type} (m : M St WalStoreError A) : Prop :=
  forall s s' r, m s = (s', r) -> spares (s3_objects s) (s3_objects s').
Lemma sparing_lift {A : Type} (r : result A WalStoreError) : sparing (st_lift r).
Proof. intros s s' r' [<- _]%pair_inj. reflexivity. Qed.
Lemma sparing_then {A C : Type} (m : M St WalStoreError A) (f : result A WalStoreError -> M St WalStoreError C) :
  sparing m -> (forall r, sparing (f r)) -> sparing (fun s => let (s, r) := m s in f r s).
Proof. intros Hm Hf s s' r. destruct (m s) as [s1 r1] eqn:E. intros E'. etransitivity; [by eapply Hm|by eapply Hf]. Qed.
Lemma sparing_bind {A C : Type} (m : M St WalStoreError A) (f : A -> M St WalStoreError C) :
  sparing m -> (forall a, sparing (f a)) -> sparing (st_bind m f).
Proof.
  intros Hm Hf s s' r. unfold st_bind. destruct (m s) as [s1 [a|e]] eqn:E; intros E'.
  - etransitivity; [by eapply Hm|by eapply Hf].
  - injection E' as <- _. by eapply Hm.
Qed.
Lemma sparing_conditional_put h k v : starts_with PROBE_PREFIX k = true -> sparing (conditional_put_with_headers k v h).
Proof.
  intros Hk s s' r E. apply (conditional_put_spec (fun _ => True)) in E as [Ho _]; [|done]. rewrite probe_key_kept in Ho by done.
  apply (spares_put k v); [done|]. destruct Ho as [?|[_ ?]]; auto.
Qed.
Lemma sparing_put k v : starts_with PROBE_PREFIX k = true -> sparing (s3_put_object_overwrite k v).
Proof. intros Hk s s' r [Ho _]%s3_put_spec. rewrite probe_key_kept in Ho by done. by apply (spares_put k v). Qed.
Lemma sparing_delete k : starts_with PROBE_PREFIX k = true -> sparing (s3_delete_object k).
Proof.
  intros Hk s s' r [Ho _]%s3_delete_spec. rewrite probe_key_kept in Ho by done. destruct Ho as [->| ->]; [reflexivity|].
  intros k' Hk'. rewrite lookup_delete_ne; [done|]. intros ->. congruence.
Qed.
Lemma sparing_verdict what r : sparing (probe_verdict what r).
Proof.
  unfold probe_verdict. destruct r; [|apply sparing_lift].
  destruct (decide _); [apply sparing_lift|]. destruct (decide _); [apply sparing_lift|].
  intros s s' r [<- _]%pair_inj. reflexivity.
Qed.
Lemma sparing_probe_update uk : starts_with PROBE_PREFIX uk = true -> sparing (probe_update uk).
Proof.
  intros Huk. apply sparing_bind; [intros s s' r' [Ho _]%head_etag_spec; by rewrite Ho|]. intros [etag|]; [|apply sparing_lift].
  apply sparing_bind; [apply sparing_lift|]. intros _.
  apply (sparing_then (conditional_put_with_headers uk _ _)); [by apply sparing_conditional_put|]. intros r. apply sparing_verdict.
Qed.
Lemma sparing_probe_keys ck uk :
  starts_with PROBE_PREFIX ck = true -> starts_with PROBE_PREFIX uk = true -> sparing (probe_keys ck uk).
Proof.
  intros Hck Huk. apply (sparing_then (conditional_put_with_headers ck _ _)); [by apply sparing_conditional_put|]. intros r.
  apply sparing_bind; [apply sparing_verdict|]. intros cc.
  apply (sparing_then (s3_delete_object ck)); [by apply sparing_delete|]. intros _. apply sparing_bind; [by apply sparing_put|]. intros _.
  apply sparing_bind; [by apply sparing_probe_update|]. intros cu.
  apply (sparing_then (s3_delete_object uk)); [by apply sparing_delete|]. intros _. apply sparing_lift.
Qed.
Lemma sparing_probe now : sparing (probe_capabilities now).
Proof.
  intros s s' r. unfold probe_capabilities. apply sparing_probe_keys; apply starts_with_spec; eexists; [reflexivity|].
  rewrite <- !app_assoc. reflexivity.
Qed.
Lemma sparing_ensure now cache cache' s s' r :
  ensure_bucket now (cache, s) = ((cache', s'), r) -> spares (s3_objects s) (s3_objects s').
Proof.
  unfold ensure_bucket. destruct (with_retry _ s) as [s1 r1] eqn:E1.
  assert (s3_objects s1 = s3_objects s) as H1.
  { edestruct (with_retry_spec (fun o => o = s3_objects s) (fun _ (_ : unit) => True) (fun _ _ => True)) as [Ho _];
      [|reflexivity|done|exact E1|exact Ho].
    intros w w' r' Hw. unfold st_bind. destruct (request bk_exists _ w) as [w1 r0] eqn:E0.
    apply (request_spec _ _ (fun o o' _ => o' = o)) in E0 as (r2 & -> & Ho); [|intros; by eapply bk_exists_law].
    destruct r2 as [[]|e]; cbn [map_err]; [by intros [<- <-]%pair_inj; split; [congruence|]| |by intros [<- <-]%pair_inj; split; [congruence|]].
    intros E2. apply (request_spec _ _ (fun o o' _ => o' = o)) in E2 as (r3 & -> & Ho3); [|intros; by eapply bk_create_law].
    split; [congruence|]. by destruct r3. }
  rewrite <- H1. destruct r1 as [[]|e]; [|by intros [[_ <-]%pair_inj _]%pair_inj].
  unfold probe_capabilities_if_needed, get_or_probe. destruct (cache_poisoned cache); [by intros [[_ <-]%pair_inj _]%pair_inj|].
  destruct (cache_entries cache !! _) as [c|]; [by intros [[_ <-]%pair_inj _]%pair_inj|].
  destruct (probe_capabilities now s1) as [s2 r2] eqn:E2. apply sparing_probe in E2.
  destruct r2 as [c|e]; [|by intros [[_ <-]%pair_inj _]%pair_inj]. by intros [[_ <-]%pair_inj _]%pair_inj.
Qed.
(** *** Many reads at once *)

(** A right answer for [k]. *)
Definition answers (o : gmap str (bytes * str)) (k : str) (r : result bytes WalStoreError) : Prop :=
  match r with Ok v => fst <$> o !! k = Some v | Err e => not_found k o e end.
Lemma get_once_spec k s s' r : get_once k s = (s', r) -> s3_objects s' = s3_objects s /\ answers (s3_objects s) k r.
Proof.
  unfold get_once, st_bind. destruct (request _ _ s) as [s1 r1] eqn:E1.
  apply (request_spec _ _ (fun o o' r => o' = o /\ forall a, r = Ok a ->
    (success (fst a) -> fst <$> o !! k = Some (snd a)) /\ (fst a = 404 -> o !! k = None))) in E1 as (r0 & -> & Ho & Hr).
  2: { intros b b' r0 E0. destruct (bk_get_law _ _ _ _ E0) as [Ho Hr]. split; [done|]. intros [status data] ->. by apply Hr. }
  destruct r0 as [[status data]|e]; cbn [map_err]; [|by intros [<- <-]%pair_inj].
  intros [<- <-]%pair_inj. split; [done|]. destruct (Hr _ eq_refl) as [Hs Hn]. unfold got, answers. cbn [fst snd] in *.
  case_decide; [by apply Hn|]. destruct (decide (success status)); [by apply Hs|done].
Qed.
Lemma run_tasks_spec keys order s out s' out' :
  run_tasks keys order s out = (s', out') -> length out = length keys ->
  (forall i k r, keys !! i = Some k -> out !! i = Some (Some r) -> answers (s3_objects s) k r) ->
  s3_objects s' = s3_objects s /\ length out' = length keys /\
  (forall i k r, keys !! i = Some k -> out' !! i = Some (Some r) -> answers (s3_objects s) k r) /\
  (forall i k, keys !! i = Some k -> i ∈ order \/ (exists r, out !! i = Some (Some r)) -> exists r, out' !! i = Some (Some r)).
Proof.
  revert s out. induction order as [|idx rest IH]; intros s out; cbn [run_tasks].
  { intros [<- <-]%pair_inj Hl Hg. do 3 (split; [done|]). intros i k _ [Hin|?]; [by apply elem_of_nil in Hin|done]. }
  destruct (keys !! idx) as [key|] eqn:Ek.
  - destruct (get_once key s) as [s1 r1] eqn:E1. destruct (get_once_spec _ _ _ _ E1) as [Ho Hr]. intros E Hl Hg.
    apply IH in E as (Ho' & Hl' & Hg' & Hall); [|by rewrite length_insert|].
    + rewrite Ho in *. do 3 (split; [done|]). intros i k Hi Hin. apply (Hall i k Hi).
      destruct (decide (i = idx)) as [->|Hne].
      * right. exists r1. apply list_lookup_insert_eq. rewrite Hl. by eapply lookup_lt_Some.
      * rewrite list_lookup_insert_ne by done. destruct Hin as [Hin|?]; [|by right]. apply elem_of_cons in Hin as [->|?]; [done|by left].
    + intros i k r Hi. rewrite Ho. destruct (decide (i = idx)) as [->|Hne].
      * rewrite list_lookup_insert_eq by (rewrite Hl; by eapply lookup_lt_Some). intros [= <-]. congruence.
      * rewrite list_lookup_insert_ne by done. by apply Hg.
  - intros E Hl Hg. apply IH in E as (Ho' & Hl' & Hg' & Hall); [|done|done]. do 3 (split; [done|]).
    intros i k Hi Hin. apply (Hall i k Hi). destruct Hin as [Hin|?]; [|by right].
    apply elem_of_cons in Hin as [->|?]; [congruence|by left].
Qed.
(** In whatever order the tasks finish, the answers are those of the keys, in the
    order of the keys. *)
Lemma s3_get_many_spec order keys s s' rs :
  (forall i, (i < length keys)%nat -> i ∈ order) -> s3_get_object_many order keys s = (s', rs) ->
  s3_objects s' = s3_objects s /\ Forall2 (answers (s3_objects s)) (map normalize_key keys) rs.
Proof.
  intros Hall. unfold s3_get_object_many. destruct (run_tasks _ _ _ _) as [s1 out] eqn:E. intros [<- <-]%pair_inj.
  apply run_tasks_spec in E as (Ho & Hl & Hg & Hc); [|by rewrite !length_map|].
  2: { intros i k r _ Hi. rewrite list_lookup_fmap in Hi. by destruct (map normalize_key keys !! i). }
  split; [done|]. apply Forall2_same_length_lookup_2; [rewrite <- Hl; by rewrite length_map|]. intros i k r Hk Hr.
  destruct (Hc i k Hk) as [r0 Hr0]; [left; apply Hall; apply lookup_lt_Some in Hk; by rewrite length_map in Hk|].
  rewrite list_lookup_fmap, Hr0 in Hr. injection Hr as <-. by eapply Hg.
Qed.

(** *** The whole *)
Lemma contents_lookup s k : s3_contents s !! k = fst <$> s3_objects s !! k.
Proof. apply lookup_fmap. Qed.
Lemma contents_none s k : s3_contents s !! k = None <-> s3_objects s !! k = None.
Proof. rewrite contents_lookup. destruct (s3_objects s !! k); done. Qed.
Lemma contents_there s k : is_Some (s3_contents s !! k) <-> is_Some (s3_objects s !! k).
Proof. rewrite contents_lookup. by rewrite fmap_is_Some. Qed.
Lemma contents_same s s' : s3_objects s' = s3_objects s -> s3_contents s' = s3_contents s.
Proof. unfold s3_contents. by intros ->. Qed.
Lemma contents_put k v s s' : put_somehow k v (s3_objects s) (s3_objects s') -> s3_contents s' = <[k := v]> (s3_contents s).
Proof. unfold s3_contents. intros [e ->]. by rewrite fmap_insert. Qed.
Lemma contents_delete k s s' : s3_objects s' = delete k (s3_objects s) -> s3_contents s' = delete k (s3_contents s).
Proof. unfold s3_contents. intros ->. by rewrite fmap_delete. Qed.

(** C23: over a bucket that behaves as S3 documents, with requests that may fail or
    lose their answer and be repeated, every operation of the store keeps the contract
    the WAL, the segment store and the embedded store are proved against, for the keys
    without a leading slash. *)
Theorem s3_meets_contract : contract_on clean s3_contents.
Proof.
  split; intros k; [intros v s s' r Hk E|intros v s s' r Hk E|intros s s' r Hk E|intros a b s s' r Hk Ha E|intros s s' r Hk E
                   |intros s s' r Hk E|intros v s s' r Hk E|intros s s' r Hk E]; apply normalize_clean in Hk.
  - apply s3_put_spec in E as [Hp Hok]. rewrite Hk in *. split.
    + destruct Hp; [left; by apply contents_same|right; by apply contents_put].
    + intros Hr _. by apply contents_put, Hok.
  - apply s3_put_spec in E as [Hp Hok]. rewrite Hk in *. split.
    + destruct Hp; [left; by apply contents_same|right; by apply contents_put].
    + intros Hr. by apply contents_put, Hok.
  - apply s3_get_spec in E as [Ho Hr]. rewrite Hk in *. split; [by apply contents_same|].
    destruct r as [v|[]]; try done; [by rewrite contents_lookup|by apply contents_none].
  - apply s3_get_range_spec in E as [Ho Hr]; [|done]. rewrite Hk in *. split; [by apply contents_same|]. rewrite contents_lookup. done.
  - apply s3_head_spec in E as [Ho Hr]. rewrite Hk in *. split; [by apply contents_same|]. intros b Hb. rewrite (Hr b Hb).
    apply bool_decide_ext. by rewrite contents_there.
  - apply s3_list_spec in E as [Ho Hr]. rewrite Hk in *. split; [by apply contents_same|]. intros ks Hks.
    destruct (Hr ks Hks) as [Hnd Hin]. split; [done|]. intros k'. rewrite contents_there. apply Hin.
  - apply s3_put_if_absent_spec in E as [Hp Hok]. cbv zeta in *. rewrite Hk in *. split.
    + destruct Hp as [?|[? ?]]; [left; by apply contents_same|right]. split; [by apply contents_none|by apply contents_put].
    + intros Hr. destruct (Hok Hr). split; [by apply contents_none|by apply contents_put].
  - apply s3_delete_spec in E as [Hp Hok]. rewrite Hk in *. split.
    + destruct Hp; [left; by apply contents_same|right; by apply contents_delete].
    + intros b Hb. by apply contents_delete, (Hok b).
Qed.
End Contract.

(** *** Where the store writes *)
Definition WMBT : str := lit "WMBT_KV_".
Section Config.
Context {B : Type} `{!Bucket B}.
Lemma s3_config_ok env cfg :
  s3_config_from_env env = Ok cfg ->
  env (lit "WMBT_KV_BUCKET") = Some (cfg_bucket cfg) /\ cfg_bucket cfg <> [] /\
  access_key cfg = default (lit "minioadmin") (env (lit "WMBT_KV_S3_ACCESS_KEY")) /\
  secret_key cfg = default (lit "minioadmin") (env (lit "WMBT_KV_S3_SECRET_KEY")).
Proof.
  unfold s3_config_from_env. destruct (env (lit "WMBT_KV_BUCKET")) as [[|x b]|] eqn:Eb; [done| |done].
  unfold res_bind. destruct (env_number env (lit "WMBT_KV_S3_GET_RETRIES") _ _); [|done].
  destruct (env_number env (lit "WMBT_KV_S3_RETRY_BACKOFF_MS") _ _); [|done]. intros <-%Ok_inj. cbn [cfg_bucket access_key secret_key].
  split; [done|]. split; [discriminate|done].
Qed.
Lemma s3_new_ok env cr (b : result B str) rt run cfg s :
  s3_new env cr b rt run cfg = Ok s ->
  s3_bucket_name s = cfg_bucket cfg /\ s3_endpoint s = endpoint cfg /\
  (is_default_dev_credentials (access_key cfg) (secret_key cfg) = true -> local_dev_mode_enabled env (endpoint cfg) = true).
Proof.
  unfold s3_new. case_decide; [done|]. destruct (_ && _) eqn:Ec; [done|]. unfold res_bind, map_err.
  destruct cr; [|done]. destruct b; [|done]. destruct rt; [|done]. intros <-%Ok_inj.
  unfold prewarm_from_env, prewarm_pool. split; [by case_decide|]. split; [by case_decide|].
  intros Hd. rewrite Hd in Ec. cbn in Ec. by destruct (local_dev_mode_enabled env (endpoint cfg)).
Qed.

(** The environment variables whose names start with WMBT_KV_ alone decide which
    store is built, so no credentials, region or endpoint of another program are
    picked up; a store is built only for a bucket that WMBT_KV_BUCKET names, and
    without credentials of its own only in local development. *)
Theorem s3_config_is_explicit env env' cr (b : result B str) rt run :
  (forall name, starts_with WMBT name = true -> env' name = env name) ->
  s3_from_env env' cr b rt run = s3_from_env env cr b rt run /\
  forall s, s3_from_env env cr b rt run = Ok s ->
    env (lit "WMBT_KV_BUCKET") = Some (s3_bucket_name s) /\ s3_bucket_name s <> [] /\
    (env (lit "WMBT_KV_S3_ACCESS_KEY") = None -> env (lit "WMBT_KV_S3_SECRET_KEY") = None ->
     local_dev_mode_enabled env (s3_endpoint s) = true).
Proof.
  intros Hag. split.
  - unfold s3_from_env, s3_config_from_env, env_number. rewrite !Hag by reflexivity.
    destruct (env (lit "WMBT_KV_BUCKET")) as [[|]|]; [done| |done]. cbn [default_s3_config endpoint access_key secret_key region max_retries retry_backoff_ms].
    unfold s3_new, prewarm_from_env, prewarm_parallelism, local_dev_mode_enabled. by rewrite !Hag by reflexivity.
  - intros s. unfold s3_from_env, res_bind at 1. destruct (s3_config_from_env env) as [cfg|e] eqn:Ec; [|done].
    destruct (s3_config_ok env cfg Ec) as (Hb & Hne & Ha & Hs). intros (-> & -> & Hd)%s3_new_ok. split; [done|]. split; [done|].
    intros Ea Es. apply Hd. rewrite Ha, Hs, Ea, Es. reflexivity.
Qed.
End Config.

(** ** A concrete bucket

    Objects with numbered tags; [mb_lost] says of the next requests whether their
    answer is lost on the way back. *)
Record MapBucket := mkMapBucket { mb_objects : gmap str (bytes * str); mb_next : Z; mb_lost : list bool }.
Definition mb_allowed (h : Headers) (k : str) (o : gmap str (bytes * str)) : bool :=
  forallb (fun '(name, value) =>
    if decide (name = IF_NONE_MATCH) then bool_decide (o !! k = None)
    else if decide (name = IF_MATCH)
    then match o !! k with Some (_, e) => bool_decide (etag_if_match_value e = value) | None => false end
    else true) h.
(** A request that does [f]. *)
Definition mb_request {A} (f : MapBucket -> MapBucket * A) : M MapBucket str A :=
  fun b =>
    let (b', a) := f b in
    match mb_lost b with
    | true :: rest => (mkMapBucket (mb_objects b') (mb_next b') rest, Err (lit "timed out"))
    | _ => (mkMapBucket (mb_objects b') (mb_next b') (tail (mb_lost b)), Ok a)
    end.
#[export] Instance map_bucket : Bucket MapBucket := {|
  bk_with_extra_headers _ := Ok tt;
  bk_put_object h k v :=
    mb_request (fun b => if mb_allowed h k (mb_objects b)
                         then (mkMapBucket (<[k := (v, dec (mb_next b))]> (mb_objects b)) (mb_next b + 1) (mb_lost b), 200)
                         else (b, 412));
  bk_get_object k :=
    mb_request (fun b => (b, match mb_objects b !! k with Some (v, _) => (200, v) | None => (404, []) end));
  bk_get_object_range k i j :=
    mb_request (fun b => (b, match mb_objects b !! k with Some (v, _) => (206, clamp_range v i (j + 1)) | None => (404, []) end));
  bk_head_object k :=
    mb_request (fun b => (b, match mb_objects b !! k with Some (_, e) => (Some e, 200) | None => (None, 404) end));
  bk_list p := mb_request (fun b => (b, [filter (fun k => starts_with p k = true) (btree_keys bytes_cmp (mb_objects b))]));
  bk_delete_object k := mb_request (fun b => (mkMapBucket (delete k (mb_objects b)) (mb_next b) (mb_lost b), 204));
  bk_exists := mb_request (fun b => (b, true));
  bk_create := mb_request (fun b => (b, tt));
  header_from_str _ := Ok tt
|}.
Lemma mb_request_spec {A : Type} (f : MapBucket -> MapBucket * A) b b' r :
  mb_request f b = (b', r) -> mb_objects b' = mb_objects (fst (f b)) /\ forall a, r = Ok a -> a = snd (f b).
Proof.
  unfold mb_request. destruct (f b) as [b1 a1]. destruct (mb_lost b) as [|[] rest]; intros [<- <-]%pair_inj;
    (split; [done|]); by intros a [= <-].
Qed.
Ltac mb_in E :=
  cbn [bk_put_object bk_get_object bk_get_object_range bk_head_object bk_list bk_delete_object bk_exists bk_create map_bucket] in E.
#[export] Program Instance map_bucket_laws : BucketLaws MapBucket := {| objects := mb_objects |}.
Next Obligation.
  intros h k v b b' r E. mb_in E. apply mb_request_spec in E as [-> Hr]. destruct (mb_allowed h k (mb_objects b)); cbn [fst snd] in *.
  - split; [right; by eexists|]. intros status _ _. by eexists.
  - split; [by left|]. intros status Hs Hsu. rewrite (Hr status Hs) in Hsu. unfold success in Hsu. lia.
Qed.
Next Obligation.
  intros k v b b' r E. mb_in E. apply mb_request_spec in E as [Ho Hr]. intros Hc.
  assert (mb_allowed [(IF_NONE_MATCH, lit "*")] k (mb_objects b) = bool_decide (mb_objects b !! k = None)) as Ea.
  { cbn [mb_allowed forallb]. rewrite decide_True by done. apply andb_true_r. }
  rewrite Ea in *. case_bool_decide as Hn; [done|]. cbn [fst snd] in *.
  destruct Hc as [Hc|(status & -> & Hs)]; [done|]. rewrite (Hr _ eq_refl) in Hs. unfold success in Hs. lia.
Qed.
Next Obligation.
  intros t k v b b' r E. mb_in E. apply mb_request_spec in E as [Ho Hr]. intros Hc.
  assert (mb_allowed [(IF_MATCH, t)] k (mb_objects b) =
          match mb_objects b !! k with Some (_, e) => bool_decide (etag_if_match_value e = t) | None => false end) as Ea.
  { cbn [mb_allowed forallb]. rewrite decide_False by (by vm_compute). rewrite decide_True by done. apply andb_true_r. }
  rewrite Ea in *. destruct (mb_objects b !! k) as [[old e]|]; [case_bool_decide as He; [eauto|]|]; cbn [fst snd] in *;
    (destruct Hc as [Hc|(status & -> & Hs)]; [done|]; rewrite (Hr _ eq_refl) in Hs; unfold success in Hs; lia).
Qed.
Next Obligation.
  intros k b b' r E. mb_in E. apply mb_request_spec in E as [Ho Hr]. split; [done|]. intros status data ->. specialize (Hr _ eq_refl). cbn [snd] in Hr.
  destruct (mb_objects b !! k) as [[v e]|]; injection Hr as -> ->; (split; [|done || lia]); [done|unfold success; lia].
Qed.
Next Obligation.
  intros k i j b b' r E. mb_in E. apply mb_request_spec in E as [Ho Hr]. split; [done|]. intros status data -> Hs _. specialize (Hr _ eq_refl). cbn [snd] in Hr.
  destruct (mb_objects b !! k) as [[v e]|]; injection Hr as -> ->; [by exists v|]. unfold success in Hs. lia.
Qed.
Next Obligation.
  intros k b b' r E. mb_in E. apply mb_request_spec in E as [Ho Hr]. split; [done|]. intros tag status ->. specialize (Hr _ eq_refl). cbn [snd] in Hr.
  destruct (mb_objects b !! k) as [[v e]|]; injection Hr as -> ->.
  - split; [|lia]. intros _. exists v, e. split; [done|]. by intros t [= <-].
  - split; [|done]. unfold success. lia.
Qed.
Next Obligation.
  intros p b b' r E. mb_in E. apply mb_request_spec in E as [Ho Hr]. split; [done|]. intros pages ->. rewrite (Hr _ eq_refl). cbn [snd concat]. rewrite app_nil_r.
  split; [apply NoDup_filter, NoDup_btree_keys|]. intros k. rewrite list_elem_of_filter, elem_of_btree_keys. naive_solver.
Qed.
Next Obligation.
  intros k b b' r E. mb_in E. apply mb_request_spec in E as [Ho Hr]. cbn [fst snd mb_objects] in *. split; [by right|by intros].
Qed.
Next Obligation. intros b b' r E. mb_in E. by apply mb_request_spec in E as [Ho _]. Qed.
Next Obligation. intros b b' r E. mb_in E. by apply mb_request_spec in E as [Ho _]. Qed.

Definition sample_s3 (lost : list bool) : S3ObjectStore MapBucket :=
  mkS3 (lit "http://127.0.0.1:9000") (lit "b") (lit "s3|b") (mkStoreCapabilities true true) (mkMapBucket ∅ 1 lost) 2 50.
(** The first answer is lost; the write is repeated, and the object is there once. *)
Lemma s3_meets_contract_witness :
  let (s', r) := put_object (lit "kv/a") (lit "x") (sample_s3 [true]) in
  r = Ok tt /\ s3_contents s' = <[lit "kv/a" := lit "x"]> (s3_contents (sample_s3 [true])).
Proof.
  destruct (put_object (lit "kv/a") (lit "x") (sample_s3 [true])) as [s' r] eqn:E.
  assert (r = Ok tt) as Hr by (assert (snd (put_object (lit "kv/a") (lit "x") (sample_s3 [true])) = Ok tt) as Hs
                                 by (vm_compute; reflexivity); by rewrite E in Hs).
  split; [exact Hr|]. apply (on_put clean s3_contents s3_meets_contract (lit "kv/a") (lit "x") _ _ r); [reflexivity|exact E|exact Hr|].
  vm_compute. reflexivity.
Defined.
Definition sample_env (name : str) : option str :=
  if decide (name = lit "WMBT_KV_BUCKET") then Some (lit "mine")
  else if decide (name = lit "AWS_ENDPOINT_URL_S3") then Some (lit "https://s3.amazonaws.com") else None.
Lemma s3_config_is_explicit_witness :
  s3_from_env sample_env (Ok tt) (Ok (mkMapBucket ∅ 1 [])) (Ok tt) (fun n => seq 0 n)
  = s3_from_env (fun name => if starts_with WMBT name then sample_env name else None) (Ok tt) (Ok (mkMapBucket ∅ 1 [])) (Ok tt) (fun n => seq 0 n).
Proof.
  refine (proj1 (s3_config_is_explicit (fun name => if starts_with WMBT name then sample_env name else None) sample_env _ _ _ _ _)).
  intros name Hn. by rewrite Hn.
Defined.

(** ** Boundary behaviour *)

(** A conditional create whose answer is lost is repeated, and then reports a
    conflict with its own object. *)
Lemma lost_create_conflicts_with_itself :
  let (s', r) := put_if_absent (lit "k") (lit "x") (sample_s3 [true]) in
  r = Ok (Conflict (Some (ETag (lit "1")))) /\ s3_contents s' !! lit "k" = Some (lit "x").
Proof. vm_compute. split; reflexivity. Qed.
(** The bytes and the token come from two requests: when another client writes in
    between, the token is that of a version the reader has not seen, and the write it
    guards goes through over that version. *)
Lemma token_may_be_newer :
  let others b := fst (bk_put_object [] (lit "k") (lit "theirs") b) in
  let s := fst (put_object (lit "k") (lit "old") (sample_s3 [])) in
  let (s1, r) := read_with_token_amid others (lit "k") s in
  r = Ok (Some (lit "old", ETag (lit "2"))) /\ s3_contents s1 !! lit "k" = Some (lit "theirs") /\
  let (s2, r2) := put_if_token_matches (lit "k") (lit "old and mine") (ETag (lit "2")) s1 in
  r2 = Ok Success /\ s3_contents s2 !! lit "k" = Some (lit "old and mine").
Proof. vm_compute. repeat split; reflexivity. Qed.
(** Likewise a compare-and-swap over an object that changed after it was compared. *)
Lemma swap_may_overwrite :
  let others b := fst (bk_put_object [] (lit "k") (lit "theirs") b) in
  let s := fst (put_object (lit "k") (lit "old") (sample_s3 [])) in
  let (s1, r) := compare_and_swap_amid others (lit "k") (Some (lit "old")) (lit "mine") s in
  r = Ok true /\ s3_contents s1 !! lit "k" = Some (lit "mine").
Proof. vm_compute. split; reflexivity. Qed.
