(* ===== verification/Cabi.v ===== *)
(** * The C ABI: backends and calls ([wombatkv-cabi], [ffi.rs])

    Models [crates/wombatkv-cabi/src/ffi.rs] but for the making of handles, which
    is in [CabiInit]: the four backends behind a handle, the operations of a
    handle, and the exported functions over the memory they share with their
    caller.

    Memory is a map from addresses to objects; a pointer is NULL or the address of
    an object.  The caller's objects are written through out-parameters only, the
    library's are handles, borrows and what borrows hold.  A call [Returns],
    [Panics], [Waits] for ever, or is [Undefined]: the caller passed a pointer that
    does not point to what the contract asks for.  A payload may be a view of the
    daemon's arena; its bytes are those of the mapping when it is read.

    Calls on one handle are taken one after the other; the threads a call starts
    run in any order. *)

From S2P Require Import Prelude Order Text Strings Radix Hex BlockMeta ObjectStore Compression BlobCache Foyer Lru Embed.
From S2P Require Import Prefetch Envelope Wire Arena Fanout Rpc Daemon Client Tcp Http.

Definition ABI_MAJOR : Z := 1.
Definition ABI_MINOR : Z := 0.
Definition NUL : byte := x00.
Definition i64_max : Z := 9223372036854775807.

(** ** Outcomes *)
Inductive outcome (St A : Type) := Returns (s : St) (a : A) | Panics (s : St) | Waits | Undefined.
Arguments Returns {St A}. Arguments Panics {St A}. Arguments Waits {St A}. Arguments Undefined {St A}.
Definition Act (St A : Type) : Type := St -> outcome St A.
Definition act_ret {St A} (a : A) : Act St A := fun s => Returns s a.
Definition act_bind {St A B} (m : Act St A) (f : A -> Act St B) : Act St B :=
  fun s => match m s with
           | Returns s a => f a s
           | Panics s => Panics s
           | Waits => Waits
           | Undefined => Undefined
           end.
Notation "'let*' x ':=' c 'in' k" := (act_bind c (fun x => k))
  (at level 10, x pattern, c at level 100, k at level 200) : wmbt_scope.
(** [?] on the result of an action *)
Definition act_try {St A B E} (m : Act St (result A E)) (f : A -> Act St (result B E)) : Act St (result B E) :=
  let* r := m in match r with Ok a => f a | Err e => act_ret (Err e) end.
Definition catch_unwind {St A} (body handler : Act St A) : Act St A :=
  fun s => match body s with Panics s => handler s | o => o end.

Definition env_bool_default_on (env : str -> option str) (name : str) : bool :=
  match env name with
  | None => true
  | Some raw => bool_decide (to_ascii_lowercase (trim raw) ∈ [lit "1"; lit "true"; lit "yes"; lit "on"])
  end.
Definition EMBEDDED_ASYNC_ENV : str := lit "WMBT_KV_EMBEDDED_ASYNC_S3".

Section Backend.
Context {S : Type} `{!ObjectStore S} {H : Type} `{!HybridCache H} `{!Zstd} {R : Type} `{!Ring R} {P : Type} `{!Peer P}
  {Q : Type} `{!Endpoint Q} `{!Texts} `{!Crc32c}.
Context `{!RkyvCodec WireRequest, !RkyvCodec WireResponse}.
Context `{!RkyvCodec LookupBlockPrefixReq, !RkyvCodec LookupBlockPrefixResp, !RkyvCodec GetKvBlocksBatchReq,
          !RkyvCodec GetKvBlocksBatchResp, !RkyvCodec PutKvBlocksBatchReq, !RkyvCodec PutKvBlocksBatchResp}.
Context (blake3 : bytes -> bytes) (duration_debug : Z -> str).
Abbreviation KvStore := (WombatKVKvStore S H).

(** [enum Backend]; the embedded store with the detached writes it has started. *)
Inductive Backend :=
| Embedded (store : KvStore) (jobs : list AsyncPut)
| Remote (client : Client R)
| RemoteTcp (client : TcpKvClient P)
| RemoteHttp (client : HttpKvClient Q).

(** What the environment decides during a call: variables, whether a thread can be
    spawned, the schedule of the threads, the clock, what the arena holds, and what
    a panic leaves of a remote client. *)
Record CallEnv := mkCallEnv {
  ca_env : str -> option str; ca_spawned : bool; ca_sched : list nat; ca_clock : nat -> Z; ca_arena : bytes;
  ca_left : Backend -> Backend
}.
Context (x : CallEnv).

Definition remote_text (e : RemoteError) : str := remote_error_display duration_debug e.
Definition map_act {St A B} (f : A -> B) (m : Act St A) : Act St B := let* a := m in act_ret (f a).

(** A call of each client, its outcome turned into that of the backend.  A request
    that does not fit an envelope panics before anything is sent; any other call of
    a socket client that gives no result waits for ever. *)
Definition on_remote {A B} (call : Call A (R := R)) (f : result A RemoteError -> B) (c : Client R) : outcome Backend B :=
  match call c with
  | Some (c, r) => Returns (Remote c) (f r)
  | None => Panics (ca_left x (Remote c))
  end.
Definition oversized (req : WireRequest) : bool :=
  match encode_request req with
  | Ok b => match encode_envelope b with None => true | Some _ => false end
  | Err _ => false
  end.
Definition on_tcp {A B} (req : Z -> WireRequest) (call : TcpCall A) (f : result A TcpClientError -> B) (c : TcpKvClient P)
  : outcome Backend B :=
  match call c with
  | Some (c, r) => Returns (RemoteTcp c) (f r)
  | None => if oversized (req (tc_next_id c)) then Panics (ca_left x (RemoteTcp c)) else Waits
  end.
Definition on_http {A B} (req : Z -> WireRequest) (call : HttpCall A) (f : result A HttpClientError -> B) (c : HttpKvClient Q)
  : outcome Backend B :=
  match call c with
  | Some (c, r) => Returns (RemoteHttp c) (f r)
  | None => if oversized (req (hc_next_id c)) then Panics (ca_left x (RemoteHttp c)) else Waits
  end.
(** The request of a block operation. *)
Definition block_request (o : Z) (ns : str) (encoded : result bytes WireCodecError) (id : Z) : WireRequest :=
  mkReq id o ns [] (match encoded with Ok b => b | Err _ => [] end).

(** [Backend::put_kv] *)
Definition backend_put_kv (ns key : str) (payload : bytes) : Act Backend (result unit str) :=
  fun b =>
  match b with
  | Embedded store jobs =>
      if env_bool_default_on (ca_env x) EMBEDDED_ASYNC_ENV then
        let (store, job) := put_kv_async_s3 (ca_spawned x) ns key payload store in
        Returns (Embedded store (jobs ++ match job with Some j => [j] | None => [] end)) (Ok tt)
      else
        let (store, r) := put_kv ns key payload store in
        Returns (Embedded store jobs) (map_err embed_text r)
  | Remote c => on_remote (remote_put_kv blake3 ns key payload) (map_err remote_text) c
  | RemoteTcp c =>
      on_tcp (fun id => mkReq id op.PUT ns key payload) (tcp_put_kv ns key payload) (map_err tcp_client_error_display) c
  | RemoteHttp c =>
      on_http (fun id => mkReq id op.PUT ns key payload) (http_put_kv ns key payload) (map_err http_client_error_display) c
  end.

(** [Backend::get_kv] *)
Definition backend_get_kv (ns key : str) : Act Backend (result (option RemoteBytes) str) :=
  fun b =>
  match b with
  | Embedded store jobs =>
      let (store, r) := get_kv ns key store in
      Returns (Embedded store jobs)
        (match r with Ok (Hit _ payload) => Ok (Some (Owned payload)) | Ok Miss => Ok None | Err e => Err (embed_text e) end)
  | Remote c =>
      on_remote (remote_get_kv ns key)
        (fun r => match r with
                  | Ok (RemoteHit _ payload) => Ok (Some payload)
                  | Ok RemoteMiss => Ok None
                  | Err e => Err (remote_text e)
                  end) c
  | RemoteTcp c =>
      on_tcp (fun id => mkReq id op.GET ns key []) (tcp_get_kv ns key)
        (fun r => match r with
                  | Ok (TcpHit payload) => Ok (Some (Owned payload))
                  | Ok TcpMiss => Ok None
                  | Err e => Err (tcp_client_error_display e)
                  end) c
  | RemoteHttp c =>
      on_http (fun id => mkReq id op.GET ns key []) (http_get_kv ns key)
        (fun r => match r with
                  | Ok (HttpHit payload) => Ok (Some (Owned payload))
                  | Ok HttpMiss => Ok None
                  | Err e => Err (http_client_error_display e)
                  end) c
  end.

(** [Backend::get_many_kv_batch]: one thread per key over the embedded store. *)
Definition embedded_get_many (ns : str) (keys : list str) (store : KvStore) : KvStore * result (option RemoteBytes) str :=
  let '((store, _), ts) :=
    scope (get_step ns (fun i => nth i keys []) (fun _ e => embed_text e)) 2 (ca_sched x) (store, false)
      (map (fun _ => FStart) keys) in
  (store, match collect_items ts [] with
          | Ok (Some items) => Ok (Some (Owned (encode_bytes_batch items)))
          | Ok None => Ok None
          | Err e => Err e
          end).
Definition backend_get_many_kv_batch (ns : str) (keys : list str) : Act Backend (result (option RemoteBytes) str) :=
  fun b =>
  match b with
  | Embedded store jobs => let (store, r) := embedded_get_many ns keys store in Returns (Embedded store jobs) r
  | Remote c => on_remote (get_many_kv_batch ns keys) (map_err remote_text) c
  | RemoteTcp _ =>
      Returns b (Err (lit "get_many_kv_batch not implemented for TCP backend; use get_kv_blocks for block-shaped batched GETs"))
  | RemoteHttp _ =>
      Returns b (Err (lit "get_many_kv_batch not implemented for HTTP backend; use get_kv_blocks for block-shaped batched GETs"))
  end.

(** [Backend::lookup_block_prefix_hex] *)
Definition backend_lookup_block_prefix (ns : str) (hashes : list bytes) : Act Backend (result Z str) :=
  fun b =>
  let hex_list := map hex_lower hashes in
  let req := block_request op.LOOKUP_BLOCK_PREFIX ns (encode_lookup_block_prefix_req (mkLookupBlockPrefixReq ns hex_list)) in
  match b with
  | Embedded store _ => Returns b (Ok (InMem.longest_prefix hashes (kv_index store)))
  | Remote c => on_remote (lookup_block_prefix ns hex_list) (map_err remote_text) c
  | RemoteTcp c => on_tcp req (tcp_lookup_block_prefix ns hex_list) (map_err tcp_client_error_display) c
  | RemoteHttp c => on_http req (http_lookup_block_prefix ns hex_list) (map_err http_client_error_display) c
  end.

(** The index loop of [Backend::put_kv_blocks]. *)
Fixpoint index_roots (clock : nat -> Z) (n : nat) (blocks : list (bytes * bytes)) (total : Z) (idx : InMemoryMetadataIndex)
  : InMemoryMetadataIndex * Z :=
  match blocks with
  | [] => (idx, total)
  | (hash, payload) :: rest =>
      let meta := new_root (clock n) (len payload) (replicate 24 x00) (replicate 16 x00) in
      index_roots clock (n + 2) rest (saturating_add total (len payload)) (InMem.insert (clock (n + 1)%nat) hash meta idx)
  end.
Definition embedded_put_blocks (ns : str) (hashes payloads : list bytes) (store : KvStore) : KvStore * result Z str :=
  let (store, failed) := put_blocks (ca_sched x) ns (zip (map block_key_for_hash hashes) payloads) store in
  match failed with
  | Some err => (store, Err err)
  | None =>
      let (idx, total) := index_roots (ca_clock x) 0 (zip hashes payloads) 0 (kv_index store) in
      (set_index idx store, Ok total)
  end.
Definition backend_put_kv_blocks (ns : str) (hashes payloads : list bytes) : Act Backend (result Z str) :=
  fun b =>
  let hex_list := map hex_lower hashes in
  let req := block_request op.PUT_KV_BLOCKS_BATCH ns
               (encode_put_kv_blocks_batch_req (mkPutKvBlocksBatchReq ns hex_list payloads)) in
  match b with
  | Embedded store jobs => let (store, r) := embedded_put_blocks ns hashes payloads store in Returns (Embedded store jobs) r
  | Remote c =>
      on_remote (put_kv_blocks_batch ns hex_list payloads)
        (map_err (fun e => lit "remote put_kv_blocks_batch: " ++ remote_text e)) c
  | RemoteTcp c =>
      on_tcp req (tcp_put_kv_blocks_batch ns hex_list payloads)
        (map_err (fun e => lit "tcp put_kv_blocks_batch: " ++ tcp_client_error_display e)) c
  | RemoteHttp c =>
      on_http req (http_put_kv_blocks_batch ns hex_list payloads)
        (map_err (fun e => lit "http put_kv_blocks_batch: " ++ http_client_error_display e)) c
  end.

(** [decode_bytes_batch] of a payload: the items are slices of it.  A batch ends
    with its items, so they are found from its end. *)
Fixpoint views (reader : ArenaReader) (offset : Z) (items : list bytes) : list RemoteBytes :=
  match items with
  | [] => []
  | i :: rest => ArenaOwnedBytes reader offset (len i) :: views reader (offset + len i) rest
  end.
Definition slices_of (batch : RemoteBytes) (items : list bytes) : list RemoteBytes :=
  match batch with
  | Owned _ => map Owned items
  | ArenaOwnedBytes reader offset n => views reader (offset + n - len (concat items)) items
  end.
(** The bytes of a payload while the arena holds [arena]. *)
Definition bytes_now (arena : bytes) (b : RemoteBytes) : option bytes :=
  match b with
  | Owned b => Some b
  | ArenaOwnedBytes reader offset n =>
      match read_payload arena offset n reader with Some (Ok b) => Some b | _ => None end
  end.
(** The batch of a client is read as its mapping is after the call. *)
Definition batch_now (batch : RemoteBytes) (b : Backend) : option bytes :=
  match b with Remote c => as_ref c batch | _ => bytes_now (ca_arena x) batch end.

(** [Backend::get_kv_blocks] *)
Definition backend_get_kv_blocks (ns : str) (hashes : list bytes) : Act Backend (result (option (list RemoteBytes)) str) :=
  fun b =>
  let hex_list := map hex_lower hashes in
  let req := block_request op.GET_KV_BLOCKS_BATCH ns (encode_get_kv_blocks_batch_req (mkGetKvBlocksBatchReq ns hex_list)) in
  let owned := option_map (map Owned) in
  match b with
  | RemoteTcp c =>
      on_tcp req (tcp_get_kv_blocks_batch ns hex_list)
        (fun r => match r with Ok o => Ok (owned o) | Err e => Err (lit "tcp get_kv_blocks_batch: " ++ tcp_client_error_display e) end) c
  | RemoteHttp c =>
      on_http req (http_get_kv_blocks_batch ns hex_list)
        (fun r => match r with Ok o => Ok (owned o) | Err e => Err (lit "http get_kv_blocks_batch: " ++ http_client_error_display e) end) c
  | _ =>
      act_try (backend_get_many_kv_batch ns (map block_key_for_hash hashes))
        (fun got b =>
           match got with
           | None => Returns b (Ok None)
           | Some batch =>
               match batch_now batch b with
               | None => Panics (ca_left x b)
               | Some bs =>
                   Returns b
                     (let? items := map_err (fun e => lit "decode_bytes_batch: " ++ wire_error_display e) (decode_bytes_batch bs) in
                      if decide (length items <> length hashes)
                      then Err (lit "get_kv_blocks decoded " ++ dec (len items) ++ lit " items, expected " ++ dec (len hashes))
                      else Ok (Some (slices_of batch items)))
               end
           end) b
  end.
End Backend.
Arguments Backend : clear implicits.
Arguments CallEnv : clear implicits.

(** ** Handles *)
Section Handle.
Context {S : Type} `{!ObjectStore S} {H : Type} `{!HybridCache H} `{!Zstd} {R : Type} `{!Ring R} {P : Type} `{!Peer P}
  {Q : Type} `{!Endpoint Q} {I : Type} `{!Texts} `{!Crc32c}.
Context `{!RkyvCodec WireRequest, !RkyvCodec WireResponse}.
Context `{!RkyvCodec LookupBlockPrefixReq, !RkyvCodec LookupBlockPrefixResp, !RkyvCodec GetKvBlocksBatchReq,
          !RkyvCodec GetKvBlocksBatchResp, !RkyvCodec PutKvBlocksBatchReq, !RkyvCodec PutKvBlocksBatchResp}.
Context (blake3 : bytes -> bytes) (duration_debug : Z -> str).

(** [struct Handle]; of the workers, what they were started with. *)
Record Handle := mkHandle {
  hd_backend : Backend S H R P Q; hd_namespace : str;
  hd_prefetch_worker : option (PrefetchConfig * bool); hd_eviction_worker : option (LruConfig * option I)
}.
Definition set_backend (b : Backend S H R P Q) (h : Handle) : Handle :=
  mkHandle b (hd_namespace h) (hd_prefetch_worker h) (hd_eviction_worker h).
Context (x : CallEnv S H R P Q).

(** A method of a handle is a call of its backend. *)
Definition handle_lookup_block_prefix (h : Handle) (hashes : list bytes) : Act (Backend S H R P Q) (result Z str) :=
  backend_lookup_block_prefix duration_debug x (hd_namespace h) hashes.
Definition handle_put_kv_blocks (ns : str) (hashes payloads : list bytes) : Act (Backend S H R P Q) (result Z str) :=
  if decide (length hashes <> length payloads)
  then act_ret (Err (lit "put_kv_blocks length mismatch: " ++ dec (len hashes) ++ lit " hashes vs " ++ dec (len payloads)
                     ++ lit " payloads"))
  else backend_put_kv_blocks duration_debug x ns hashes payloads.
Definition handle_get_kv_blocks (ns : str) (hashes : list bytes) : Act (Backend S H R P Q) (result (option (list RemoteBytes)) str) :=
  backend_get_kv_blocks duration_debug x ns hashes.
Definition raw_tail_key (hex : str) : str := SIDECAR_RAW_TAIL_KEY_PREFIX ++ hex.
Definition handle_put_raw_tail (ns hex : str) (payload : bytes) : Act (Backend S H R P Q) (result Z str) :=
  if decide (len hex <> 64)
  then act_ret (Err (lit "put_raw_tail: chain_tip_hash_hex must be 64 chars; got " ++ dec (len hex)))
  else act_try (backend_put_kv blake3 duration_debug x ns (raw_tail_key hex) payload) (fun _ => act_ret (Ok (len payload))).
Definition handle_get_raw_tail (ns hex : str) : Act (Backend S H R P Q) (result (option RemoteBytes) str) :=
  if decide (len hex <> 64)
  then act_ret (Err (lit "get_raw_tail: chain_tip_hash_hex must be 64 chars; got " ++ dec (len hex)))
  else backend_get_kv duration_debug x ns (raw_tail_key hex).

(** ** Memory *)
Abbreviation Ptr := (option positive).
(** [struct BorrowInner]: the addresses of what it owns. *)
Record BorrowInner := mkBorrow { bi_data : list positive; bi_multi : list positive; bi_ptrs : list positive; bi_lens : list positive }.
Inductive Obj :=
| CBytes (b : bytes) | CPtrs (l : list Ptr) | CSizes (l : list Z)
| LBytes (b : RemoteBytes) | LPtrs (l : list Ptr) | LSizes (l : list Z) | LHandle (h : Handle) | LBorrow (b : BorrowInner).
(** The process, as far as the library sees it, with [LAST_ERROR] of the thread. *)
Record Proc := mkProc { heap : gmap positive Obj; brk : positive; last_error : option str }.
Abbreviation Ext := (Act Proc).
Definition set_heap (m : gmap positive Obj) (w : Proc) : Proc := mkProc m (brk w) (last_error w).
Definition alloc (o : Obj) : Ext positive :=
  fun w => Returns (mkProc (<[brk w := o]> (heap w)) (Pos.succ (brk w)) (last_error w)) (brk w).
Definition free (a : positive) : Ext unit :=
  fun w => match heap w !! a with Some _ => Returns (set_heap (delete a (heap w)) w) tt | None => Undefined end.
Definition undefined {A} : Ext A := fun _ => Undefined.
Definition deref (a : positive) : Ext Obj :=
  fun w => match heap w !! a with Some o => Returns w o | None => Undefined end.
Definition store_obj (a : positive) (o : Obj) : Ext unit := fun w => Returns (set_heap (<[a := o]> (heap w)) w) tt.

(** Reading what the caller points to. *)
Definition obj_bytes (o : Obj) : option bytes :=
  match o with CBytes b => Some b | LBytes b => bytes_now (ca_arena x) b | _ => None end.
Definition read_bytes (a : positive) (n : Z) : Ext bytes :=
  let* o := deref a in
  match obj_bytes o with
  | Some b => if decide (n <= len b) then act_ret (take (Z.to_nat n) b) else undefined
  | None => undefined
  end.
Definition read_cstr (a : positive) : Ext str :=
  let* o := deref a in
  match obj_bytes o with
  | Some b => match split_once NUL b with Some (s, _) => act_ret s | None => undefined end
  | None => undefined
  end.
Definition read_ptr (a : positive) (i : nat) : Ext Ptr :=
  let* o := deref a in
  match o with
  | CPtrs l | LPtrs l => match l !! i with Some p => act_ret p | None => undefined end
  | _ => undefined
  end.
Definition read_size (a : positive) (i : nat) : Ext Z :=
  let* o := deref a in
  match o with
  | CSizes l | LSizes l => match l !! i with Some n => act_ret n | None => undefined end
  | _ => undefined
  end.
(** Writing through an out-parameter. *)
Definition write_ptr (a : positive) (p : Ptr) : Ext unit :=
  let* o := deref a in match o with CPtrs (_ :: l) => store_obj a (CPtrs (p :: l)) | _ => undefined end.
Definition write_size (a : positive) (n : Z) : Ext unit :=
  let* o := deref a in match o with CSizes (_ :: l) => store_obj a (CSizes (n :: l)) | _ => undefined end.
Definition write_bytes (a : positive) (bs : bytes) : Ext unit :=
  let* o := deref a in
  match o with
  | CBytes b => if decide (len bs <= len b) then store_obj a (CBytes (bs ++ drop (length bs) b)) else undefined
  | _ => undefined
  end.

(** ** Errors *)
Definition set_last_error (msg : str) : Ext unit :=
  fun w => Returns (mkProc (heap w) (brk w)
                      (Some (if decide (NUL ∈ msg) then lit "error message contained interior NUL byte" else msg))) tt.
Definition clear_last_error : Ext unit := fun w => Returns (mkProc (heap w) (brk w) None) tt.
Definition write_to_err_buf (msg : str) (err_buf : Ptr) (err_len : Z) : Ext unit :=
  match err_buf with
  | None => act_ret tt
  | Some a =>
      if decide (err_len = 0) then act_ret tt
      else write_bytes a (take (Z.to_nat (Z.min (saturating_sub err_len 1) (len msg))) msg ++ [NUL])
  end.
Definition record_block_error (msg : str) (err_buf : Ptr) (err_len : Z) : Ext Z :=
  let* _ := set_last_error msg in let* _ := write_to_err_buf msg err_buf err_len in act_ret (-1).
Definition copy_last_error_to (err_buf : Ptr) (err_len : Z) : Ext Z :=
  fun w => match last_error w with
           | Some msg => (let* _ := write_to_err_buf msg err_buf err_len in act_ret (-1)) w
           | None => Returns w (-1)
           end.
(** [set_last_error(msg); return -1] *)
Definition fail_with (msg : str) : Ext Z := let* _ := set_last_error msg in act_ret (-1).
Definition wmbt_kv_last_error (w : Proc) : option str := last_error w.

(** ** Pointer helpers

    [None] is [Err(())], the error being recorded. *)
Definition or_return {A B} (m : Ext (option A)) (failed : Ext B) (k : A -> Ext B) : Ext B :=
  let* r := m in match r with Some a => k a | None => failed end.
Definition refused {A} (msg : str) : Ext (option A) := let* _ := set_last_error msg in act_ret None.
Definition handle_ref (handle : Ptr) : Ext (option (positive * Handle)) :=
  match handle with
  | None => refused (lit "handle is NULL")
  | Some a => let* o := deref a in match o with LHandle h => act_ret (Some (a, h)) | _ => undefined end
  end.
Definition cstr_to_str (p : Ptr) : Ext (option str) :=
  match p with
  | None => refused (lit "string pointer is NULL")
  | Some a => let* s := read_cstr a in
              if utf8_valid s then act_ret (Some s) else refused (lit "string contained non-UTF-8 bytes")
  end.
Definition slice_from_raw_parts (p : Ptr) (n : Z) : Ext (option bytes) :=
  if decide (n = 0) then act_ret (Some []) else
  match p with
  | None => refused (lit "data pointer is NULL with non-zero len")
  | Some a => let* b := read_bytes a n in act_ret (Some b)
  end.

(** [parse_block_hash_array]; a count whose hashes no allocation can hold panics. *)
Fixpoint parse_hashes_from (a : positive) (n i : nat) : Ext (result (list bytes) str) :=
  match n with
  | O => act_ret (Ok [])
  | Datatypes.S n' =>
      let entry := lit "block_hashes_hex[" ++ dec (Z.of_nat i) ++ lit "]" in
      let* p := read_ptr a i in
      match p with
      | None => act_ret (Err (entry ++ lit " is NULL"))
      | Some c =>
          let* hex := read_cstr c in
          if negb (utf8_valid hex) then act_ret (Err (entry ++ lit " not UTF-8")) else
          match parse_block_hash_hex hex with
          | Err e => act_ret (Err (hex_error_text hex e))
          | Ok h => act_try (parse_hashes_from a n' (Datatypes.S i)) (fun hs => act_ret (Ok (h :: hs)))
          end
      end
  end.
Definition parse_block_hash_array (p : Ptr) (n : Z) : Ext (result (list bytes) str) :=
  if decide (n = 0) then act_ret (Ok []) else
  match p with
  | None => act_ret (Err (lit "block_hashes_hex is NULL with block_count > 0"))
  | Some a => if decide (isize_max < 32 * n) then (fun w => Panics w) else parse_hashes_from a (Z.to_nat n) 0
  end.
(** The payload loop of [wmbt_kv_put_kv_blocks]. *)
Fixpoint read_payloads (payloads lens : positive) (n i : nat) : Ext (result (list bytes) str) :=
  match n with
  | O => act_ret (Ok [])
  | Datatypes.S n' =>
      let* p := read_ptr payloads i in
      let* l := read_size lens i in
      let more b := act_try (read_payloads payloads lens n' (Datatypes.S i)) (fun bs => act_ret (Ok (b :: bs))) in
      if decide (l = 0) then more [] else
      match p with
      | None => act_ret (Err (lit "payloads[" ++ dec (Z.of_nat i) ++ lit "] is NULL with len > 0"))
      | Some a => let* b := read_bytes a l in more b
      end
  end.

(** A method of the handle at [a]. *)
Definition on_handle {A} (a : positive) (h : Handle) (act : Act (Backend S H R P Q) A) : Ext A :=
  fun w => match act (hd_backend h) with
           | Returns b r => Returns (set_heap (<[a := LHandle (set_backend b h)]> (heap w)) w) r
           | Panics b => Panics (set_heap (<[a := LHandle (set_backend b h)]> (heap w)) w)
           | Waits => Waits
           | Undefined => Undefined
           end.

(** ** Borrows *)
Definition bytes_len (b : RemoteBytes) : Z := match b with Owned b => len b | ArenaOwnedBytes _ _ n => n end.
Definition publish_borrowed_bytes (b : RemoteBytes) (out_ptr out_len out_borrow : positive) : Ext Z :=
  let* d := alloc (LBytes b) in
  let* r := alloc (LBorrow (mkBorrow [d] [] [] [])) in
  let* _ := write_ptr out_ptr (Some d) in
  let* _ := write_size out_len (bytes_len b) in
  let* _ := write_ptr out_borrow (Some r) in
  act_ret 1.
Fixpoint alloc_items (items : list RemoteBytes) : Ext (list positive) :=
  match items with
  | [] => act_ret []
  | b :: rest => let* a := alloc (LBytes b) in let* l := alloc_items rest in act_ret (a :: l)
  end.
Definition publish_borrowed_blocks (items : list RemoteBytes) (out_ptrs out_lens out_borrow : positive) : Ext Z :=
  let* multi := alloc_items items in
  let* ptrs := alloc (LPtrs (map Some multi)) in
  let* lens := alloc (LSizes (map bytes_len items)) in
  let* r := alloc (LBorrow (mkBorrow [] multi [ptrs] [lens])) in
  let* _ := write_ptr out_ptrs (Some ptrs) in
  let* _ := write_ptr out_lens (Some lens) in
  let* _ := write_ptr out_borrow (Some r) in
  act_ret 1.
Fixpoint free_all (l : list positive) : Ext unit :=
  match l with [] => act_ret tt | a :: rest => let* _ := free a in free_all rest end.
Definition borrow_parts (b : BorrowInner) : list positive := bi_data b ++ bi_multi b ++ bi_ptrs b ++ bi_lens b.
Definition wmbt_kv_release_borrow (borrow : Ptr) : Ext unit :=
  match borrow with
  | None => act_ret tt
  | Some a =>
      let* o := deref a in
      match o with LBorrow b => let* _ := free a in free_all (borrow_parts b) | _ => undefined end
  end.
(** [wmbt_kv_free]; what the backend and the workers do when they are dropped is not
    seen again through this handle. *)
Definition wmbt_kv_free (handle : Ptr) : Ext unit :=
  match handle with
  | None => act_ret tt
  | Some a => let* o := deref a in match o with LHandle _ => free a | _ => undefined end
  end.

(** ** The exported operations *)
Definition wmbt_kv_abi_version : Z := Z.lor (Z.shiftl ABI_MAJOR 16) ABI_MINOR.
Definition wmbt_kv_blake3_64hex (in_ptr : Ptr) (in_len : Z) (out_ptr : Ptr) : Ext Z :=
  match in_ptr, out_ptr with
  | Some a, Some o =>
      let* input := read_bytes a in_len in
      let* _ := write_bytes o (hex_lower (blake3 input) ++ [NUL]) in
      act_ret 0
  | _, _ => act_ret (-1)
  end.
Definition wmbt_kv_crc32c (in_ptr : Ptr) (in_len : Z) : Ext Z :=
  if decide (in_len = 0) then act_ret 0 else
  match in_ptr with None => act_ret 0 | Some a => let* b := read_bytes a in_len in act_ret (crc32c b) end.
Definition wmbt_kv_crc32c_append (crc32c_append : Z -> bytes -> Z) (crc : Z) (in_ptr : Ptr) (in_len : Z) : Ext Z :=
  if decide (in_len = 0) then act_ret crc else
  match in_ptr with None => act_ret crc | Some a => let* b := read_bytes a in_len in act_ret (crc32c_append crc b) end.

Definition wmbt_kv_lookup_block_prefix (handle namespace block_hashes_hex : Ptr) (block_count : Z)
    (out_matched_count err_buf : Ptr) (err_len : Z) : Ext Z :=
  let* _ := clear_last_error in
  catch_unwind
    (match out_matched_count with
     | None => record_block_error (lit "out_matched_count is NULL") err_buf err_len
     | Some out =>
         or_return (handle_ref handle) (copy_last_error_to err_buf err_len) (fun '(a, h) =>
         or_return (cstr_to_str namespace) (copy_last_error_to err_buf err_len) (fun _ =>
         let* hashes := parse_block_hash_array block_hashes_hex block_count in
         match hashes with
         | Err msg => record_block_error msg err_buf err_len
         | Ok hashes =>
             let* r := on_handle a h (handle_lookup_block_prefix h hashes) in
             match r with
             | Ok matched => let* _ := write_size out matched in act_ret 0
             | Err msg => record_block_error msg err_buf err_len
             end
         end))
     end)
    (record_block_error (lit "panic in wmbt_kv_lookup_block_prefix") err_buf err_len).

Definition wmbt_kv_get_kv_blocks_borrowed (handle namespace block_hashes_hex : Ptr) (block_count : Z)
    (out_payload_ptrs out_payload_lens out_borrow : Ptr) : Ext Z :=
  let* _ := clear_last_error in
  catch_unwind
    (match out_payload_ptrs, out_payload_lens, out_borrow with
     | Some out_ptrs, Some out_lens, Some out =>
         or_return (handle_ref handle) (act_ret (-1)) (fun '(a, h) =>
         or_return (cstr_to_str namespace) (act_ret (-1)) (fun ns =>
         let* hashes := parse_block_hash_array block_hashes_hex block_count in
         match hashes with
         | Err msg => fail_with msg
         | Ok hashes =>
             let* r := on_handle a h (handle_get_kv_blocks ns hashes) in
             match r with
             | Ok None => act_ret 0
             | Ok (Some items) => publish_borrowed_blocks items out_ptrs out_lens out
             | Err msg => fail_with msg
             end
         end))
     | _, _, _ => fail_with (lit "out_payload_ptrs / out_payload_lens / out_borrow must not be NULL")
     end)
    (fail_with (lit "panic in wmbt_kv_get_kv_blocks_borrowed")).

Definition wmbt_kv_put_kv_blocks (handle namespace block_hashes_hex payloads lens : Ptr) (block_count : Z) : Ext Z :=
  let* _ := clear_last_error in
  catch_unwind
    (or_return (handle_ref handle) (act_ret (-1)) (fun '(a, h) =>
     or_return (cstr_to_str namespace) (act_ret (-1)) (fun ns =>
     let* hashes := parse_block_hash_array block_hashes_hex block_count in
     match hashes with
     | Err msg => fail_with msg
     | Ok hashes =>
         if decide (block_count = 0) then act_ret 0 else
         match payloads, lens with
         | Some ps, Some ls =>
             let* slices := read_payloads ps ls (Z.to_nat block_count) 0 in
             match slices with
             | Err msg => fail_with msg
             | Ok slices =>
                 let* r := on_handle a h (handle_put_kv_blocks ns hashes slices) in
                 match r with
                 | Ok total => act_ret (Z.min total i64_max)
                 | Err msg => fail_with msg
                 end
             end
         | _, _ => fail_with (lit "payloads / lens must not be NULL with block_count > 0")
         end
     end)))
    (fail_with (lit "panic in wmbt_kv_put_kv_blocks")).

Definition wmbt_kv_put_raw_tail (handle namespace chain_tip_hash_hex bytes_ptr : Ptr) (n : Z) (err_buf : Ptr) (err_len : Z)
  : Ext Z :=
  let* _ := clear_last_error in
  catch_unwind
    (or_return (handle_ref handle) (copy_last_error_to err_buf err_len) (fun '(a, h) =>
     or_return (cstr_to_str namespace) (copy_last_error_to err_buf err_len) (fun ns =>
     or_return (cstr_to_str chain_tip_hash_hex) (copy_last_error_to err_buf err_len) (fun hex =>
     or_return (slice_from_raw_parts bytes_ptr n) (copy_last_error_to err_buf err_len) (fun payload =>
     let* r := on_handle a h (handle_put_raw_tail ns hex payload) in
     match r with
     | Ok _ => act_ret 0
     | Err msg => record_block_error msg err_buf err_len
     end)))))
    (record_block_error (lit "panic in wmbt_kv_put_raw_tail") err_buf err_len).

Definition wmbt_kv_get_raw_tail_borrowed (handle namespace chain_tip_hash_hex out_bytes out_len out_borrow err_buf : Ptr)
    (err_len : Z) : Ext Z :=
  let* _ := clear_last_error in
  catch_unwind
    (match out_bytes, out_len, out_borrow with
     | Some out_b, Some out_l, Some out =>
         or_return (handle_ref handle) (copy_last_error_to err_buf err_len) (fun '(a, h) =>
         or_return (cstr_to_str namespace) (copy_last_error_to err_buf err_len) (fun ns =>
         or_return (cstr_to_str chain_tip_hash_hex) (copy_last_error_to err_buf err_len) (fun hex =>
         let* r := on_handle a h (handle_get_raw_tail ns hex) in
         match r with
         | Ok None => act_ret 0
         | Ok (Some b) => publish_borrowed_bytes b out_b out_l out
         | Err msg => record_block_error msg err_buf err_len
         end)))
     | _, _, _ => record_block_error (lit "out_bytes / out_len / out_borrow must not be NULL") err_buf err_len
     end)
    (record_block_error (lit "panic in wmbt_kv_get_raw_tail_borrowed") err_buf err_len).
End Handle.
Arguments Handle : clear implicits.
Arguments Obj : clear implicits.
Arguments Proc : clear implicits.
