(* ===== verification/CabiSpec.v ===== *)
(** * What the C ABI promises

    Theorems on [Cabi].  [failures_are_reported]: no call unwinds into its caller,
    and one that fails leaves its reason in the thread's error slot and, cut to
    fit, in the caller's buffer, and changes nothing else.  [borrows_stay_valid]:
    what a borrow points to stays readable, and the same, until it is released. *)

From S2P Require Import Prelude Order Text Strings Radix Hex BlockMeta ObjectStore Compression BlobCache Foyer Lru Embed.
From S2P Require Import Prefetch Envelope Wire Arena Fanout Rpc Daemon Client Tcp Http Cabi.

(** ** Weakest preconditions

    [Q] of where an action returns, [E] of where it panics. *)
Section Wp.
Context {St A : Type}.
Definition wp (m : Act St A) (s : St) (Q : St -> A -> Prop) (E : St -> Prop) : Prop :=
  match m s with Returns s' a => Q s' a | Panics s' => E s' | _ => True end.
Lemma wp_mono (m : Act St A) s (Q Q' : St -> A -> Prop) (E E' : St -> Prop) :
  wp m s Q E -> (forall s' a, Q s' a -> Q' s' a) -> (forall s', E s' -> E' s') -> wp m s Q' E'.
Proof. unfold wp. destruct (m s); auto. Qed.
Lemma wp_ret (a : A) s (Q : St -> A -> Prop) E : Q s a -> wp (act_ret a) s Q E.
Proof. done. Qed.
Lemma wp_catch (body handler : Act St A) s Q E :
  wp body s Q (fun s' => wp handler s' Q E) -> wp (catch_unwind body handler) s Q E.
Proof. unfold wp, catch_unwind. by destruct (body s). Qed.
End Wp.
Lemma wp_bind {St A B} (m : Act St A) (f : A -> Act St B) s Q E :
  wp m s (fun s' a => wp (f a) s' Q E) E -> wp (act_bind m f) s Q E.
Proof. unfold wp, act_bind. by destruct (m s). Qed.
(** An action that only looks. *)
Definition looks {St A} (m : Act St A) : Prop := forall s, wp m s (fun s' _ => s' = s) (fun s' => s' = s).
Lemma looks_ret {St A} (a : A) : looks (@act_ret St A a).
Proof. done. Qed.
Lemma looks_bind {St A B} (m : Act St A) (f : A -> Act St B) : looks m -> (forall a, looks (f a)) -> looks (act_bind m f).
Proof.
  intros Hm Hf s. apply wp_bind. eapply wp_mono; [apply Hm| |done]. intros s' a ->. apply Hf.
Qed.
Lemma looks_try {St A B E} (m : Act St (result A E)) (f : A -> Act St (result B E)) :
  looks m -> (forall a, looks (f a)) -> looks (act_try m f).
Proof. intros Hm Hf. apply looks_bind; [done|]. intros [a|e]; [apply Hf|apply looks_ret]. Qed.
Lemma wp_looks {St A B} (m : Act St A) (f : A -> Act St B) s Q E :
  looks m -> E s -> (forall a, m s = Returns s a -> wp (f a) s Q E) -> wp (act_bind m f) s Q E.
Proof.
  intros Hm He Hf. specialize (Hm s). apply wp_bind. unfold wp in *.
  destruct (m s) as [s' a|s'| |]; [subst s'; by apply Hf|by subst|done..].
Qed.

Section Spec.
Context {S : Type} `{!ObjectStore S} {H : Type} `{!HybridCache H} `{!Zstd} {R : Type} `{!Ring R} {P : Type} `{!Peer P}
  {Q : Type} `{!Endpoint Q} {I : Type} `{!Texts} `{!Crc32c}.
Context `{!RkyvCodec WireRequest, !RkyvCodec WireResponse}.
Context `{!RkyvCodec LookupBlockPrefixReq, !RkyvCodec LookupBlockPrefixResp, !RkyvCodec GetKvBlocksBatchReq,
          !RkyvCodec GetKvBlocksBatchResp, !RkyvCodec PutKvBlocksBatchReq, !RkyvCodec PutKvBlocksBatchResp}.
Context (blake3 : bytes -> bytes) (duration_debug : Z -> str).
Abbreviation Pr := (Proc S H R P Q I).
Abbreviation Env := (CallEnv S H R P Q).
Abbreviation Ptr := (option positive).

(** The operations on a handle. *)
Inductive ExtCall :=
| Lookup (handle ns hashes : Ptr) (n : Z) (out err_buf : Ptr) (err_len : Z)
| GetBlocks (handle ns hashes : Ptr) (n : Z) (out_ptrs out_lens out_borrow : Ptr)
| PutBlocks (handle ns hashes payloads lens : Ptr) (n : Z)
| PutTail (handle ns hex payload : Ptr) (n : Z) (err_buf : Ptr) (err_len : Z)
| GetTail (handle ns hex out_bytes out_len out_borrow err_buf : Ptr) (err_len : Z).
Definition run_ext (x : Env) (c : ExtCall) : Act Pr Z :=
  match c with
  | Lookup h ns hs n out eb el => wmbt_kv_lookup_block_prefix duration_debug x h ns hs n out eb el
  | GetBlocks h ns hs n op ol ob => wmbt_kv_get_kv_blocks_borrowed duration_debug x h ns hs n op ol ob
  | PutBlocks h ns hs ps ls n => wmbt_kv_put_kv_blocks duration_debug x h ns hs ps ls n
  | PutTail h ns hex p n eb el => wmbt_kv_put_raw_tail blake3 duration_debug x h ns hex p n eb el
  | GetTail h ns hex ob ol obo eb el => wmbt_kv_get_raw_tail_borrowed duration_debug x h ns hex ob ol obo eb el
  end.
Definition call_handle (c : ExtCall) : Ptr :=
  match c with
  | Lookup h _ _ _ _ _ _ | GetBlocks h _ _ _ _ _ _ | PutBlocks h _ _ _ _ _ | PutTail h _ _ _ _ _ _
  | GetTail h _ _ _ _ _ _ _ => h
  end.
(** The caller's buffer for errors and its size, if there is one. *)
Definition call_err (c : ExtCall) : Ptr * Z :=
  match c with
  | Lookup _ _ _ _ _ eb el | PutTail _ _ _ _ _ eb el | GetTail _ _ _ _ _ _ eb el => (eb, el)
  | GetBlocks _ _ _ _ _ _ _ | PutBlocks _ _ _ _ _ _ => (None, 0)
  end.

(** *** What helpers do *)
Lemma looks_deref a : looks (deref a : Act Pr _).
Proof. intros w. unfold wp, deref. by destruct (heap w !! a). Qed.
Lemma looks_undefined {A} : looks (undefined : Act Pr A).
Proof. done. Qed.
Ltac look :=
  repeat first [ apply looks_ret | apply looks_undefined | apply looks_deref
               | apply looks_bind; [|intro] | apply looks_try; [|intro]
               | match goal with |- looks (match ?y with _ => _ end) => destruct y end ].
Lemma looks_read_bytes (x : Env) a n : looks (read_bytes x a n : Act Pr _).
Proof. unfold read_bytes. look. Qed.
Lemma looks_read_cstr (x : Env) a : looks (read_cstr x a : Act Pr _).
Proof. unfold read_cstr. look. Qed.
Lemma looks_read_ptr a i : looks (read_ptr a i : Act Pr _).
Proof. unfold read_ptr. look. Qed.
Lemma looks_read_size a i : looks (read_size a i : Act Pr _).
Proof. unfold read_size. look. Qed.
Lemma looks_parse_hashes (x : Env) a n i : looks (parse_hashes_from x a n i : Act Pr _).
Proof.
  revert i. induction n as [|n IH]; intros i; cbn [parse_hashes_from]; [apply looks_ret|].
  apply looks_bind; [apply looks_read_ptr|]. intros [c|]; [|apply looks_ret].
  apply looks_bind; [apply looks_read_cstr|]. intros hex. destruct (utf8_valid hex); cbn [negb]; [|apply looks_ret].
  destruct (parse_block_hash_hex hex); [|apply looks_ret]. apply looks_try; [apply IH|]. intros ?. apply looks_ret.
Qed.
Lemma looks_hash_array (x : Env) p n : looks (parse_block_hash_array x p n : Act Pr _).
Proof.
  unfold parse_block_hash_array. case_decide; [apply looks_ret|]. destruct p; [|apply looks_ret].
  case_decide; [done|apply looks_parse_hashes].
Qed.
Lemma looks_read_payloads (x : Env) ps ls n i : looks (read_payloads x ps ls n i : Act Pr _).
Proof.
  revert i. induction n as [|n IH]; intros i; cbn [read_payloads]; [apply looks_ret|].
  apply looks_bind; [apply looks_read_ptr|]. intros p. apply looks_bind; [apply looks_read_size|]. intros l.
  assert (forall b, looks (act_try (read_payloads (I := I) x ps ls n (Datatypes.S i)) (fun bs => act_ret (Ok (b :: bs)))
                           : Act Pr (result (list bytes) str))) as Hm.
  { intros b. apply looks_try; [apply IH|]. intros ?. apply looks_ret. }
  case_decide; [apply Hm|]. destruct p; [|apply looks_ret]. apply looks_bind; [apply looks_read_bytes|]. intros ?. apply Hm.
Qed.

(** The error slot after a message. *)
Definition slot (msg : str) : str := if decide (NUL ∈ msg) then lit "error message contained interior NUL byte" else msg.
Lemma slot_no_nul msg : NUL ∉ slot msg.
Proof. unfold slot. case_decide; [by_eval|done]. Qed.
(** What a caller's buffer shows of a message. *)
Definition shown (msg : str) (n : Z) : bytes := take (Z.to_nat (Z.min (saturating_sub n 1) (len msg))) msg ++ [NUL].
Definition with_error (msg : str) (w : Pr) : Pr := mkProc (heap w) (brk w) (Some msg).
Definition buf_shows (msg : str) (err_buf : Ptr) (err_len : Z) (w w' : Pr) : Prop :=
  match err_buf with
  | None => heap w' = heap w
  | Some a =>
      if decide (err_len = 0) then heap w' = heap w else
      exists old, heap w !! a = Some (CBytes old) /\ len (shown msg err_len) <= len old /\
        heap w' = <[a := CBytes (shown msg err_len ++ drop (length (shown msg err_len)) old)]> (heap w)
  end.
Lemma write_to_err_buf_shows msg eb el w :
  wp (write_to_err_buf msg eb el) w
     (fun w' _ => buf_shows msg eb el w w' /\ brk w' = brk w /\ last_error w' = last_error w) (fun _ => False).
Proof.
  unfold write_to_err_buf, buf_shows. destruct eb as [a|]; [|done]. case_decide; [done|].
  fold (shown msg el). unfold wp, write_bytes, act_bind, deref. destruct (heap w !! a) as [o|] eqn:E; [|done].
  destruct o; try done. case_decide; [|done]. unfold store_obj. cbn. split; [|done]. by exists b.
Qed.

(** A failure from state [w], for reason [msg]. *)
Definition failed_at (msg : str) (eb : Ptr) (el : Z) (w w' : Pr) (rc : Z) : Prop :=
  rc = -1 /\ last_error w' = Some (slot msg) /\ buf_shows msg eb el w w' /\ brk w' = brk w.
Lemma record_block_error_fails msg eb el w :
  wp (record_block_error msg eb el) w (failed_at msg eb el w) (fun _ => False).
Proof.
  unfold record_block_error. apply wp_bind. unfold set_last_error. fold (slot msg). unfold wp at 1.
  apply wp_bind. eapply wp_mono; [apply write_to_err_buf_shows| |done]. intros w' _ (Hb & Hk & Hl). split; [done|].
  split; [done|]. split; [|done]. revert Hb. unfold buf_shows. by destruct eb.
Qed.
Lemma fail_with_fails msg w : wp (fail_with msg) w (failed_at msg None 0 w) (fun _ => False).
Proof. done. Qed.
Lemma copy_last_error_fails msg eb el w :
  (NUL ∉ msg) -> wp (copy_last_error_to eb el) (with_error msg w) (failed_at msg eb el w) (fun _ => False).
Proof.
  intros Hn. unfold copy_last_error_to, wp. cbn [last_error with_error].
  pose proof (write_to_err_buf_shows msg eb el (with_error msg w)) as Hb. unfold wp, act_bind in *.
  destruct (write_to_err_buf _ _ _ _); try done. destruct Hb as (Hb & Hk & Hl). split; [done|].
  split; [rewrite Hl; unfold slot; by rewrite decide_False|]. split; [|done]. revert Hb. unfold buf_shows. by destruct eb.
Qed.

(** A helper refuses with its error recorded, or gives a value and changes
    nothing. *)
Definition refuses {A} (good : Pr -> A -> Prop) (m : Act Pr (option A)) : Prop :=
  forall w, wp m w (fun w' r => match r with
                                | None => exists msg, (NUL ∉ msg) /\ w' = with_error msg w
                                | Some a => w' = w /\ good w a
                                end) (fun _ => False).
Lemma refused_refuses {A} good msg : (NUL ∉ msg) -> refuses good (refused msg : Act Pr (option A)).
Proof.
  intros Hn w. unfold wp, refused, act_bind, set_last_error. cbn. exists msg. split; [done|]. by rewrite decide_False.
Qed.
Lemma looks_refuses {A B} (good : Pr -> B -> Prop) (m : Act Pr A) (f : A -> Act Pr (option B)) :
  (forall w, wp m w (fun w' _ => w' = w) (fun _ => False)) -> (forall a, refuses good (f a)) -> refuses good (act_bind m f).
Proof. intros Hm Hf w. apply wp_bind. eapply wp_mono; [apply Hm| |done]. intros w' a ->. apply Hf. Qed.
Lemma handle_ref_refuses p :
  refuses (fun w '(a, h) => p = Some a /\ heap w !! a = Some (LHandle h)) (handle_ref p : Act Pr _).
Proof.
  destruct p as [a|]; cbn [handle_ref]; [|apply refused_refuses; by_eval]. intros w. unfold wp, act_bind, deref.
  destruct (heap w !! a) as [o|] eqn:E; [|done]. by destruct o.
Qed.
Lemma read_cstr_looks (x : Env) a w : wp (read_cstr x a) w (fun w' _ => w' = w) (fun _ : Pr => False).
Proof.
  unfold read_cstr, wp, act_bind, deref. destruct (heap w !! a) as [o|]; [|done]. destruct (obj_bytes x o); [|done].
  by destruct (split_once _ _) as [[? ?]|].
Qed.
Lemma read_bytes_looks (x : Env) a n w : wp (read_bytes x a n) w (fun w' _ => w' = w) (fun _ : Pr => False).
Proof.
  unfold read_bytes, wp, act_bind, deref. destruct (heap w !! a) as [o|]; [|done]. destruct (obj_bytes x o); [|done].
  by case_decide.
Qed.
Lemma cstr_refuses (x : Env) p : refuses (fun _ _ => True) (cstr_to_str x p : Act Pr _).
Proof.
  destruct p as [a|]; cbn [cstr_to_str]; [|apply refused_refuses; by_eval].
  apply looks_refuses; [apply read_cstr_looks|]. intros s. destruct (utf8_valid s); [done|apply refused_refuses; by_eval].
Qed.
Lemma slice_refuses (x : Env) p n : refuses (fun _ _ => True) (slice_from_raw_parts x p n : Act Pr _).
Proof.
  unfold slice_from_raw_parts. case_decide; [done|]. destruct p as [a|]; [|apply refused_refuses; by_eval].
  apply looks_refuses; [apply read_bytes_looks|]. done.
Qed.
Lemma wp_or_return {A B} good (m : Act Pr (option A)) failed (k : A -> Act Pr B) w Qr E :
  refuses good m -> (forall msg, (NUL ∉ msg) -> wp failed (with_error msg w) Qr E) ->
  (forall a, m w = Returns w (Some a) -> good w a -> wp (k a) w Qr E) -> wp (or_return m failed k) w Qr E.
Proof.
  intros Hm Hf Hk. specialize (Hm w). unfold or_return. apply wp_bind. unfold wp in *.
  destruct (m w) as [w' [a|]| | |]; [|by destruct Hm as (msg & Hn & ->); apply Hf|done..].
  destruct Hm as [-> Hg]. by apply Hk.
Qed.

(** *** Failures *)

(** Only the backend of the handle has moved. *)
Definition touched (p : Ptr) (w w1 : Pr) : Prop :=
  brk w1 = brk w /\
  (heap w1 = heap w \/
   exists a h b, p = Some a /\ heap w !! a = Some (LHandle h) /\ heap w1 = <[a := LHandle (set_backend b h)]> (heap w)).
(** The method [act] of the handle was called and returned [r]. *)
Definition cleared (w : Pr) : Pr := mkProc (heap w) (brk w) None.
Definition called {A} (p : Ptr) (act : Handle S H R P Q I -> Act (Backend S H R P Q) A) (w w1 : Pr) (r : A) : Prop :=
  exists a h b, p = Some a /\ heap w !! a = Some (LHandle h) /\ act h (hd_backend h) = Returns b r /\
    w1 = mkProc (<[a := LHandle (set_backend b h)]> (heap w)) (brk w) None.
Definition reads_str (x : Env) (p : Ptr) (w : Pr) (s : str) : Prop := cstr_to_str x p (cleared w) = Returns (cleared w) (Some s).
Definition reads_hashes (x : Env) (p : Ptr) (n : Z) (w : Pr) (hashes : list bytes) : Prop :=
  parse_block_hash_array x p n (cleared w) = Returns (cleared w) (Ok hashes).
(** What a call that ends well has done. *)
Definition finished (x : Env) (c : ExtCall) (w w' : Pr) (rc : Z) : Prop :=
  match c with
  | Lookup h ns hs n out _ _ =>
      rc = 0 /\ exists s hashes m w1 o, reads_str x ns w s /\ reads_hashes x hs n w hashes /\
        called h (fun hd => handle_lookup_block_prefix duration_debug x hd hashes) w w1 (Ok m) /\
        out = Some o /\ write_size o m w1 = Returns w' tt
  | GetBlocks h ns hs n op ol ob =>
      exists s hashes r w1, reads_str x ns w s /\ reads_hashes x hs n w hashes /\
        called h (fun _ => handle_get_kv_blocks duration_debug x s hashes) w w1 (Ok r) /\
        match r with
        | None => rc = 0 /\ w' = w1
        | Some items => rc = 1 /\ exists p l o, op = Some p /\ ol = Some l /\ ob = Some o /\
                                           publish_borrowed_blocks items p l o w1 = Returns w' rc
        end
  | PutBlocks h ns hs ps ls n =>
      exists s hashes, reads_str x ns w s /\ reads_hashes x hs n w hashes /\
        ((n = 0 /\ rc = 0 /\ w' = cleared w) \/
         exists p l slices t, ps = Some p /\ ls = Some l /\
           read_payloads x p l (Z.to_nat n) 0 (cleared w) = Returns (cleared w) (Ok slices) /\
           called h (fun _ => handle_put_kv_blocks duration_debug x s hashes slices) w w' (Ok t) /\ rc = Z.min t i64_max)
  | PutTail h ns hex p n _ _ =>
      rc = 0 /\ exists s t payload k, reads_str x ns w s /\ reads_str x hex w t /\
        slice_from_raw_parts x p n (cleared w) = Returns (cleared w) (Some payload) /\
        called h (fun _ => handle_put_raw_tail blake3 duration_debug x s t payload) w w' (Ok k)
  | GetTail h ns hex ob ol obo _ _ =>
      exists s t r w1, reads_str x ns w s /\ reads_str x hex w t /\
        called h (fun _ => handle_get_raw_tail duration_debug x s t) w w1 (Ok r) /\
        match r with
        | None => rc = 0 /\ w' = w1
        | Some b => rc = 1 /\ exists p l o, ob = Some p /\ ol = Some l /\ obo = Some o /\
                                       publish_borrowed_bytes b p l o w1 = Returns w' rc
        end
  end.
(** How a call ends: well, with nothing recorded, or with its failure. *)
Definition ended (x : Env) (c : ExtCall) (w w' : Pr) (rc : Z) : Prop :=
  (0 <= rc /\ last_error w' = None /\ finished x c w w' rc) \/
  exists w1 msg, touched (call_handle c) w w1 /\ failed_at msg (fst (call_err c)) (snd (call_err c)) w1 w' rc.

Section Ends.
Context (x : Env) (c : ExtCall) (w : Pr).
Abbreviation eb := (fst (call_err c)).
Abbreviation el := (snd (call_err c)).
Abbreviation here := (touched (call_handle c) w).
Lemma end_record msg w1 E : here w1 -> wp (record_block_error msg eb el) w1 (ended x c w) E.
Proof.
  intros Ht. eapply wp_mono; [apply record_block_error_fails| |done]. intros w' rc Hf. right. by exists w1, msg.
Qed.
Lemma end_copy msg w1 E : here w1 -> (NUL ∉ msg) -> wp (copy_last_error_to eb el) (with_error msg w1) (ended x c w) E.
Proof.
  intros Ht Hn. eapply wp_mono; [by apply copy_last_error_fails| |done]. intros w' rc Hf. right. by exists w1, msg.
Qed.
Lemma end_fail msg w1 E : call_err c = (None, 0) -> here w1 -> wp (fail_with msg) w1 (ended x c w) E.
Proof. intros Hc Ht. right. exists w1, msg. rewrite Hc. by split. Qed.
Lemma end_refused msg w1 E : call_err c = (None, 0) -> here w1 -> (NUL ∉ msg) -> wp (act_ret (-1)) (with_error msg w1) (ended x c w) E.
Proof.
  intros Hc Ht Hn. right. exists w1, msg. rewrite Hc. split; [done|]. split; [done|]. split; [|done].
  cbn. unfold slot. by rewrite decide_False.
Qed.
Lemma end_well w1 rc E : 0 <= rc -> last_error w1 = None -> finished x c w w1 rc -> wp (act_ret rc) w1 (ended x c w) E.
Proof. intros. by left. Qed.
(** A method of the handle, reached with nothing changed yet. *)
Lemma end_on_handle {A} a h (act : Handle S H R P Q I -> Act (Backend S H R P Q) A) (k : A -> Act Pr Z) :
  call_handle c = Some a -> heap w !! a = Some (LHandle h) ->
  (forall r w2, called (call_handle c) act w w2 r -> here w2 -> last_error w2 = None -> wp (k r) w2 (ended x c w) here) ->
  wp (act_bind (on_handle a h (act h)) k) (cleared w) (ended x c w) here.
Proof.
  intros Hc Hh Hk. apply wp_bind. unfold wp at 1, on_handle, cleared.
  assert (forall b, here (set_heap (<[a := LHandle (set_backend b h)]> (heap w)) (mkProc (heap w) (brk w) None))) as Ht.
  { intros b. split; [done|]. right. exists a, h, b. done. }
  destruct (act h (hd_backend h)) as [b r|b| |] eqn:E; [|apply Ht|done|done]. apply Hk; [|apply Ht|done].
  by exists a, h, b.
Qed.
End Ends.
Lemma touched_clear p (w : Pr) : touched p w (cleared w).
Proof. split; [done|]. by left. Qed.

(** What only writes memory keeps the error slot. *)
Definition silent {A} (good : A -> Prop) (m : Act Pr A) : Prop :=
  forall w, wp m w (fun w' a => last_error w' = last_error w /\ good a) (fun _ => False).
Lemma silent_bind {A B} good good' (m : Act Pr A) (f : A -> Act Pr B) :
  silent good m -> (forall a, silent good' (f a)) -> silent good' (act_bind m f).
Proof.
  intros Hm Hf w. apply wp_bind. eapply wp_mono; [apply Hm| |done]. intros w1 a [<- _]. apply Hf.
Qed.
Lemma silent_ret {A} (good : A -> Prop) a : good a -> silent good (act_ret a : Act Pr A).
Proof. done. Qed.
Lemma silent_alloc o : silent (fun _ => True) (alloc o : Act Pr _).
Proof. done. Qed.
Lemma silent_write_ptr a q : silent (fun _ => True) (write_ptr a q : Act Pr _).
Proof.
  intros w. unfold wp, write_ptr, act_bind, deref. destruct (heap w !! a) as [[| [|]| | | | | |]|]; done.
Qed.
Lemma silent_write_size a n : silent (fun _ => True) (write_size a n : Act Pr _).
Proof.
  intros w. unfold wp, write_size, act_bind, deref. destruct (heap w !! a) as [[| |[|]| | | | |]|]; done.
Qed.
Lemma silent_alloc_items items : silent (fun _ => True) (alloc_items items : Act Pr _).
Proof.
  induction items as [|b items IH]; cbn [alloc_items]; [done|]. eapply silent_bind; [apply silent_alloc|].
  intros a. eapply silent_bind; [apply IH|done].
Qed.
Lemma silent_publish_bytes b p l r : silent (fun rc => rc = 1) (publish_borrowed_bytes b p l r : Act Pr _).
Proof.
  unfold publish_borrowed_bytes. do 2 (eapply silent_bind; [apply silent_alloc|]; intros ?).
  eapply silent_bind; [apply silent_write_ptr|]. intros _. eapply silent_bind; [apply silent_write_size|]. intros _.
  eapply silent_bind; [apply silent_write_ptr|]. done.
Qed.
Lemma silent_publish_blocks items p l r : silent (fun rc => rc = 1) (publish_borrowed_blocks items p l r : Act Pr _).
Proof.
  unfold publish_borrowed_blocks. eapply silent_bind; [apply silent_alloc_items|]. intros ?.
  do 3 (eapply silent_bind; [apply silent_alloc|]; intros ?). do 3 (eapply silent_bind; [apply silent_write_ptr|]; intros ?). done.
Qed.
Lemma end_silent x c w (m : Act Pr Z) good w1 E :
  silent good m -> last_error w1 = None ->
  (forall rc w2, good rc -> m w1 = Returns w2 rc -> 0 <= rc /\ finished x c w w2 rc) -> wp m w1 (ended x c w) E.
Proof.
  intros Hm Hl Hk. specialize (Hm w1). unfold wp in *. destruct (m w1) as [w2 rc| | |] eqn:Em; [|done..].
  destruct Hm as [El Hg]. destruct (Hk rc w2 Hg eq_refl). left. split; [done|]. split; [congruence|done].
Qed.

(** *** The total of a put

    A decoded total is a [u64]. *)
Context (total_u64 : forall b r, decode_put_kv_blocks_batch_resp b = Ok r -> in_u64 (total_bytes r)).
Lemma index_roots_total clock n blocks total idx : 0 <= total -> 0 <= snd (index_roots clock n blocks total idx).
Proof.
  revert n total idx. induction blocks as [|[h p] blocks IH]; intros n total idx Ht; cbn [index_roots]; [done|].
  apply IH. unfold saturating_add. pose proof (len_nonneg p). lia.
Qed.
Lemma remote_total ns hexes ps (c c' : Client R) t :
  put_kv_blocks_batch ns hexes ps c = Some (c', Ok t) -> 0 <= t.
Proof.
  unfold put_kv_blocks_batch. case_decide; [done|]. unfold call, client_dispatch. destruct (check_alive c); [|done].
  destruct (negb _); [done|]. unfold worker_put_kv_blocks_batch, command_encoded.
  destruct (encode_put_kv_blocks_batch_req _) as [b|e]; [|by case_decide].
  unfold command. destruct (take_id _) as [id next]. destruct (round_trip _ _) as [r [[t1 [resp|e]]|]]; [| |done].
  2: { by case_decide. }
  case_decide as Ht; [done|]. unfold when_ok. destruct (decide (rs_status resp = status.OK)) as [_|_]; [|done]. unfold block_response.
  destruct (decode_put_kv_blocks_batch_resp (rs_payload resp)) as [d|e] eqn:Ed; cbn [map_err]; run_res; [|done].
  destruct (pbb_error d); [done|]. intros [_ <-%Ok_inj]%Some_pair_inj. by apply (total_u64 _ _ Ed).
Qed.
Lemma tcp_total ns hexes ps (c c' : TcpKvClient P) t : tcp_put_kv_blocks_batch ns hexes ps c = Some (c', Ok t) -> 0 <= t.
Proof.
  unfold tcp_put_kv_blocks_batch. case_decide; [done|]. unfold on_block_response.
  destruct (encode_put_kv_blocks_batch_req _) as [b|e]; [|done]. unfold on_response.
  destruct (roundtrip _ c) as [[c1 [resp|e]]|]; cbn [mbind option_bind]; run_res; [| |done]; intros [_ E]%Some_pair_inj; [|done].
  revert E. case_decide; [done|]. unfold decoded_value.
  destruct (decode_put_kv_blocks_batch_resp (rs_payload resp)) as [d|e] eqn:Ed; cbn [map_err]; run_res; [|done].
  destruct (pbb_error d); [done|]. intros <-%Ok_inj. by apply (total_u64 _ _ Ed).
Qed.
Lemma http_total ns hexes ps (c c' : HttpKvClient Q) t : http_put_kv_blocks_batch ns hexes ps c = Some (c', Ok t) -> 0 <= t.
Proof.
  unfold http_put_kv_blocks_batch. case_decide; [done|]. unfold http_on_block_response.
  destruct (encode_put_kv_blocks_batch_req _) as [b|e]; [|done]. unfold http_on_response.
  destruct (http_roundtrip _ c) as [[c1 [resp|e]]|]; cbn [mbind option_bind]; run_res; [| |done]; intros [_ E]%Some_pair_inj; [|done].
  revert E. case_decide; [done|]. unfold http_decoded_value.
  destruct (decode_put_kv_blocks_batch_resp (rs_payload resp)) as [d|e] eqn:Ed; cbn [map_err]; run_res; [|done].
  destruct (pbb_error d); [done|]. intros <-%Ok_inj. by apply (total_u64 _ _ Ed).
Qed.
Lemma put_total x ns hashes ps (b b' : Backend S H R P Q) t :
  handle_put_kv_blocks duration_debug x ns hashes ps b = Returns b' (Ok t) -> 0 <= t.
Proof.
  unfold handle_put_kv_blocks. case_decide; [done|]. unfold backend_put_kv_blocks. destruct b as [k jobs|c|c|c].
  - unfold embedded_put_blocks. destruct (put_blocks _ _ _ k) as [k1 [err|]]; [done|].
    pose proof (index_roots_total (ca_clock x) 0 (zip hashes ps) 0 (kv_index k1) ltac:(done)) as Ht.
    destruct (index_roots _ _ _ _ _) as [idx total]. intros [= _ <-]. exact Ht.
  - unfold on_remote. destruct (put_kv_blocks_batch _ _ _ c) as [[c1 [t1|e]]|] eqn:E; [|done..].
    intros [= _ <-]. by apply remote_total in E.
  - unfold on_tcp. destruct (tcp_put_kv_blocks_batch _ _ _ c) as [[c1 [t1|e]]|] eqn:E; [|done|by destruct (oversized _)].
    intros [= _ <-]. by apply tcp_total in E.
  - unfold on_http. destruct (http_put_kv_blocks_batch _ _ _ c) as [[c1 [t1|e]]|] eqn:E; [|done|by destruct (oversized _)].
    intros [= _ <-]. by apply http_total in E.
Qed.

(** *** Every call *)

(** The error slot is cleared; what panics ends in [failed]. *)
Ltac begin_call failed w h :=
  apply wp_bind; apply wp_catch; change (mkProc (heap w) (brk w) None) with (cleared w);
  assert (touched h w (cleared w)) as Hw0 by apply touched_clear;
  eapply (wp_mono _ _ _ _ (touched h w)); [|done|intros w1 Ht; by apply failed].
Lemma lookup_ends x h ns hs n out eb el w :
  let c := Lookup h ns hs n out eb el in wp (run_ext x c) w (ended x c w) (fun _ => False).
Proof.
  intros c. unfold run_ext, c, wmbt_kv_lookup_block_prefix. begin_call (end_record x c) w h.
  destruct out as [o|]; [|by apply (end_record x c)].
  eapply wp_or_return; [apply handle_ref_refuses|intros; by apply (end_copy x c)|]. intros [a hd] _ [Eh Hh].
  eapply wp_or_return; [apply cstr_refuses|intros; by apply (end_copy x c)|]. intros s Hs _.
  apply wp_looks; [apply looks_hash_array|done|]. intros [hashes|msg] Hhs; [|by apply (end_record x c)].
  apply (end_on_handle x c w a hd (fun hd => handle_lookup_block_prefix duration_debug x hd hashes)); [done|done|].
  intros [m|msg] w2 Hc Ht Hl; [|by apply (end_record x c)].
  apply (end_silent x c w _ (fun rc => rc = 0)); [eapply silent_bind; [apply silent_write_size|done]|done|].
  intros rc w3 -> E. split; [done|]. split; [done|]. exists s, hashes, m, w2, o. do 4 (split; [done|]).
  revert E. unfold act_bind. by destruct (write_size o m w2) as [w4 []| | |]; [intros [= <-]|..].
Qed.
Lemma get_blocks_ends x h ns hs n op ol ob w :
  let c := GetBlocks h ns hs n op ol ob in wp (run_ext x c) w (ended x c w) (fun _ => False).
Proof.
  intros c. unfold run_ext, c, wmbt_kv_get_kv_blocks_borrowed. begin_call (end_fail x c) w h.
  destruct op as [p|], ol as [l|], ob as [o|]; try (by apply (end_fail x c)).
  eapply wp_or_return; [apply handle_ref_refuses|intros; by apply (end_refused x c)|]. intros [a hd] _ [Eh Hh].
  eapply wp_or_return; [apply cstr_refuses|intros; by apply (end_refused x c)|]. intros s Hs _.
  apply wp_looks; [apply looks_hash_array|done|]. intros [hashes|msg] Hhs; [|by apply (end_fail x c)].
  apply (end_on_handle x c w a hd (fun _ => handle_get_kv_blocks duration_debug x s hashes)); [done|done|].
  intros [[items|]|msg] w2 Hc Ht Hl; [| |by apply (end_fail x c)].
  - eapply end_silent; [apply silent_publish_blocks|done|]. intros rc w3 -> E. split; [done|].
    exists s, hashes, (Some items), w2. do 3 (split; [done|]). split; [done|]. by exists p, l, o.
  - apply end_well; [done|done|]. by exists s, hashes, None, w2.
Qed.
Lemma put_blocks_ends x h ns hs ps ls n w :
  let c := PutBlocks h ns hs ps ls n in wp (run_ext x c) w (ended x c w) (fun _ => False).
Proof.
  intros c. unfold run_ext, c, wmbt_kv_put_kv_blocks. begin_call (end_fail x c) w h.
  eapply wp_or_return; [apply handle_ref_refuses|intros; by apply (end_refused x c)|]. intros [a hd] _ [Eh Hh].
  eapply wp_or_return; [apply cstr_refuses|intros; by apply (end_refused x c)|]. intros s Hs _.
  apply wp_looks; [apply looks_hash_array|done|]. intros [hashes|msg] Hhs; [|by apply (end_fail x c)].
  case_decide as Hn.
  { apply end_well; [done|done|]. exists s, hashes. do 2 (split; [done|]). by left. }
  destruct ps as [p|], ls as [l|]; try (by apply (end_fail x c)).
  apply wp_looks; [apply looks_read_payloads|done|]. intros [slices|msg] Hp; [|by apply (end_fail x c)].
  apply (end_on_handle x c w a hd (fun _ => handle_put_kv_blocks duration_debug x s hashes slices)); [done|done|].
  intros [t|msg] w2 Hc Ht Hl; [|by apply (end_fail x c)].
  pose proof Hc as (a' & h' & b' & _ & _ & Er & _). apply put_total in Er. apply end_well; [unfold i64_max; lia|done|].
  exists s, hashes. do 2 (split; [done|]). right. by exists p, l, slices, t.
Qed.
Lemma put_tail_ends x h ns hex p n eb el w :
  let c := PutTail h ns hex p n eb el in wp (run_ext x c) w (ended x c w) (fun _ => False).
Proof.
  intros c. unfold run_ext, c, wmbt_kv_put_raw_tail. begin_call (end_record x c) w h.
  eapply wp_or_return; [apply handle_ref_refuses|intros; by apply (end_copy x c)|]. intros [a hd] _ [Eh Hh].
  eapply wp_or_return; [apply cstr_refuses|intros; by apply (end_copy x c)|]. intros s Hs _.
  eapply wp_or_return; [apply cstr_refuses|intros; by apply (end_copy x c)|]. intros t Ht _.
  eapply wp_or_return; [apply slice_refuses|intros; by apply (end_copy x c)|]. intros payload Hp _.
  apply (end_on_handle x c w a hd (fun _ => handle_put_raw_tail blake3 duration_debug x s t payload)); [done|done|].
  intros [k|msg] w2 Hc Hh2 Hl; [|by apply (end_record x c)]. apply end_well; [done|done|]. split; [done|]. by exists s, t, payload, k.
Qed.
Lemma get_tail_ends x h ns hex ob ol obo eb el w :
  let c := GetTail h ns hex ob ol obo eb el in wp (run_ext x c) w (ended x c w) (fun _ => False).
Proof.
  intros c. unfold run_ext, c, wmbt_kv_get_raw_tail_borrowed. begin_call (end_record x c) w h.
  destruct ob as [p|], ol as [l|], obo as [o|]; try (by apply (end_record x c)).
  eapply wp_or_return; [apply handle_ref_refuses|intros; by apply (end_copy x c)|]. intros [a hd] _ [Eh Hh].
  eapply wp_or_return; [apply cstr_refuses|intros; by apply (end_copy x c)|]. intros s Hs _.
  eapply wp_or_return; [apply cstr_refuses|intros; by apply (end_copy x c)|]. intros t Ht _.
  apply (end_on_handle x c w a hd (fun _ => handle_get_raw_tail duration_debug x s t)); [done|done|].
  intros [[b|]|msg] w2 Hc Hh2 Hl; [| |by apply (end_record x c)].
  - eapply end_silent; [apply silent_publish_bytes|done|]. intros rc w3 -> E. split; [done|].
    exists s, t, (Some b), w2. do 3 (split; [done|]). split; [done|]. by exists p, l, o.
  - apply end_well; [done|done|]. by exists s, t, None, w2.
Qed.
Lemma run_ext_ends x c w : wp (run_ext x c) w (ended x c w) (fun _ => False).
Proof.
  destruct c; [apply lookup_ends|apply get_blocks_ends|apply put_blocks_ends|apply put_tail_ends|apply get_tail_ends].
Qed.


(** ** Borrows

    The objects that make up borrows. *)
Abbreviation Ob := (Obj S H R P Q I).
Definition is_part (o : Ob) : bool := match o with LBytes _ | LPtrs _ | LSizes _ => true | _ => false end.
Definition is_lib (o : Ob) : bool := match o with LBorrow _ => true | _ => is_part o end.
Record borrows_ok (w : Pr) : Prop := mkBorrowsOk {
  below_brk a : is_Some (heap w !! a) -> (a < brk w)%positive;
  parts_there r b a : heap w !! r = Some (LBorrow b) -> a ∈ borrow_parts b -> exists o, heap w !! a = Some o /\ is_part o = true;
  parts_once r b : heap w !! r = Some (LBorrow b) -> NoDup (borrow_parts b);
  parts_own r r' b b' a : heap w !! r = Some (LBorrow b) -> heap w !! r' = Some (LBorrow b') ->
    a ∈ borrow_parts b -> a ∈ borrow_parts b' -> r = r'
}.
(** The library's objects stay. *)
Definition lib_kept (w w' : Pr) : Prop := forall a o, heap w !! a = Some o -> is_lib o = true -> heap w' !! a = Some o.
#[export] Instance lib_kept_preorder : PreOrder lib_kept.
Proof. split; [by intros w a o|]. intros w1 w2 w3 L1 L2 a o Ha Ho. apply L2; [by apply L1|done]. Qed.
Definition moves (w w' : Pr) : Prop := borrows_ok w -> borrows_ok w' /\ lib_kept w w'.
#[export] Instance moves_preorder : PreOrder moves.
Proof.
  split; [by intros w Hw|]. intros w1 w2 w3 L1 L2 Hw. destruct (L1 Hw) as [Hw2 K1]. destruct (L2 Hw2) as [Hw3 K2].
  split; [done|]. by etransitivity.
Qed.

Lemma moves_update a o o' w :
  heap w !! a = Some o -> is_lib o = false -> is_lib o' = false -> moves w (set_heap (<[a := o']> (heap w)) w).
Proof.
  intros Ha Ho Ho' Hw. unfold set_heap.
  assert (forall c u, is_lib u = true -> heap w !! c = Some u <-> <[a := o']> (heap w) !! c = Some u) as Hsame.
  { intros c u Hu. destruct (decide (c = a)) as [->|Hne]; [|by rewrite lookup_insert_ne].
    rewrite lookup_insert_eq, Ha. split; intros [= <-]; congruence. }
  split.
  - split; cbn [heap brk].
    + intros c. destruct (decide (c = a)) as [->|Hne]; [|rewrite lookup_insert_ne by done; apply Hw].
      intros _. apply Hw. eauto.
    + intros r b c Hr Hc. apply Hsame in Hr; [|done]. destruct (parts_there w Hw r b c Hr Hc) as (u & Hu & Hp).
      exists u. split; [|done]. apply Hsame; [|done]. by destruct u.
    + intros r b Hr. apply Hsame in Hr; [|done]. by apply (parts_once w Hw r b).
    + intros r r' b b' c Hr Hr'. apply Hsame in Hr, Hr'; [|done..]. by apply (parts_own w Hw).
  - intros c u Hc Hu. by apply Hsame.
Qed.
Lemma moves_alloc o w : (forall b, o <> LBorrow b) -> moves w (mkProc (<[brk w := o]> (heap w)) (Pos.succ (brk w)) (last_error w)).
Proof.
  intros Ho Hw.
  assert (forall c u, heap w !! c = Some u -> <[brk w := o]> (heap w) !! c = Some u) as Hold.
  { intros c u Hc. rewrite lookup_insert_ne; [done|]. pose proof (below_brk w Hw c ltac:(eauto)). lia. }
  assert (forall c b, <[brk w := o]> (heap w) !! c = Some (LBorrow b) -> heap w !! c = Some (LBorrow b)) as Hnew.
  { intros c b. destruct (decide (c = brk w)) as [->|Hne]; [|by rewrite lookup_insert_ne].
    rewrite lookup_insert_eq. intros [= E]. by destruct (Ho b). }
  split; [|by intros c u Hc _; apply Hold]. split; cbn [heap brk].
  - intros c. destruct (decide (c = brk w)) as [->|Hne]; [lia|]. rewrite lookup_insert_ne by done.
    intros Hc. pose proof (below_brk w Hw c Hc). lia.
  - intros r b c Hr Hc. apply Hnew in Hr. destruct (parts_there w Hw r b c Hr Hc) as (u & Hu & Hp). eauto.
  - intros r b Hr. apply Hnew in Hr. by apply (parts_once w Hw r b).
  - intros r r' b b' c Hr Hr'. apply Hnew in Hr, Hr'. by apply (parts_own w Hw).
Qed.

(** Memory that grew: everything old is as it was. *)
Definition extends (w w' : Pr) : Prop :=
  (brk w <= brk w')%positive /\ last_error w' = last_error w /\ forall a, (a < brk w)%positive -> heap w' !! a = heap w !! a.
#[export] Instance extends_preorder : PreOrder extends.
Proof.
  split; [by intros w|]. intros w1 w2 w3 (K1 & L1 & M1) (K2 & L2 & M2). split; [lia|]. split; [congruence|].
  intros a Ha. rewrite M2 by lia. by apply M1.
Qed.
Lemma extends_alloc o w : extends w (mkProc (<[brk w := o]> (heap w)) (Pos.succ (brk w)) (last_error w)).
Proof. split; [cbn; lia|]. split; [done|]. intros a Ha. cbn [heap]. by rewrite lookup_insert_ne by lia. Qed.

(** A borrow over new parts. *)
Lemma borrow_alloc w w1 b :
  borrows_ok w -> extends w w1 -> borrows_ok w1 -> NoDup (borrow_parts b) ->
  (forall a, a ∈ borrow_parts b -> (brk w <= a)%positive /\ exists o, heap w1 !! a = Some o /\ is_part o = true) ->
  (forall r b', heap w1 !! r = Some (LBorrow b') -> (r < brk w)%positive) ->
  let w' := mkProc (<[brk w1 := LBorrow b]> (heap w1)) (Pos.succ (brk w1)) (last_error w1) in borrows_ok w' /\ lib_kept w1 w'.
Proof.
  intros Hw (Hbrk & _ & Hold) Hw1 Hnd Hparts Hbs w'.
  assert (forall c u, heap w1 !! c = Some u -> heap w' !! c = Some u) as Hkeep.
  { intros c u Hc. unfold w'. cbn. rewrite lookup_insert_ne; [done|]. pose proof (below_brk w1 Hw1 c ltac:(eauto)). lia. }
  assert (forall r b', heap w' !! r = Some (LBorrow b') ->
            (r = brk w1 /\ b' = b) \/ ((r < brk w)%positive /\ heap w !! r = Some (LBorrow b'))) as Hcase.
  { intros r b'. unfold w'. cbn. destruct (decide (r = brk w1)) as [->|Hne].
    - rewrite lookup_insert_eq. intros [= <-]. by left.
    - rewrite lookup_insert_ne by done. intros Hr. right. pose proof (Hbs r b' Hr) as Hlt. split; [done|]. by rewrite <- Hold. }
  assert (forall r b' a, heap w !! r = Some (LBorrow b') -> a ∈ borrow_parts b' -> a ∈ borrow_parts b -> False) as Hfresh.
  { intros r b' a Hr Ha Hb. destruct (parts_there w Hw r b' a Hr Ha) as (o & Ho & _).
    pose proof (below_brk w Hw a ltac:(eauto)). destruct (Hparts a Hb). lia. }
  split; [|intros c u Hc _; by apply Hkeep]. split.
  - intros a Ha. unfold w' in *. cbn in *. destruct (decide (a = brk w1)) as [->|Hne]; [lia|].
    rewrite lookup_insert_ne in Ha by done. pose proof (below_brk w1 Hw1 a Ha). lia.
  - intros r b' a Hr Ha. destruct (Hcase r b' Hr) as [[-> ->]|[Hlt Hr']].
    + destruct (Hparts a Ha) as (_ & o & Ho & Hp). eauto.
    + destruct (parts_there w Hw r b' a Hr' Ha) as (o & Ho & Hp). exists o. split; [|done]. apply Hkeep.
      rewrite Hold; [done|]. apply Hw. eauto.
  - intros r b' Hr. destruct (Hcase r b' Hr) as [[-> ->]|[Hlt Hr']]; [done|]. by apply (parts_once w Hw r b').
  - intros r r' b1 b2 a Hr Hr' Ha Ha'. destruct (Hcase r b1 Hr) as [[-> ->]|[Hlt K1]], (Hcase r' b2 Hr') as [[-> ->]|[Hlt' K2]].
    + done.
    + by destruct (Hfresh r' b2 a).
    + by destruct (Hfresh r b1 a).
    + by apply (parts_own w Hw r r' b1 b2 a).
Qed.

(** *** Publishing *)
Lemma alloc_items_spec items w :
  borrows_ok w ->
  exists w' l, alloc_items items w = Returns w' l /\ borrows_ok w' /\ extends w w' /\ NoDup l /\
    (forall a, a ∈ l -> (brk w <= a < brk w')%positive) /\ Forall2 (fun a b => heap w' !! a = Some (LBytes b)) l items /\
    forall r b, heap w' !! r = Some (LBorrow b) -> (r < brk w)%positive.
Proof.
  revert w. induction items as [|b items IH]; intros w Hw; cbn [alloc_items].
  { exists w, []. do 3 (split; [done|]). split; [constructor|]. split; [by intros a ?%elem_of_nil|]. split; [constructor|].
    intros r b Hr. apply Hw. eauto. }
  unfold act_bind at 1, alloc. set (w1 := mkProc _ _ _).
  assert (moves w w1) as Hm by (by apply moves_alloc). destruct (Hm Hw) as [Hw1 _].
  destruct (IH w1 Hw1) as (w' & l & E & Hw' & He & Hnd & Hl & HF & Hb). unfold act_bind. rewrite E.
  exists w', (brk w :: l). split; [done|]. split; [done|]. split; [etransitivity; [apply extends_alloc|exact He]|].
  assert (brk w1 = Pos.succ (brk w)) as Ek by done. pose proof He as (Hle & _ & Hold).
  split. { constructor; [|done]. intros Hin. specialize (Hl _ Hin). lia. }
  split. { intros a [->|Ha]%elem_of_cons; [lia|]. specialize (Hl _ Ha). lia. }
  split. { constructor; [|done]. rewrite Hold by lia. unfold w1. cbn. by rewrite lookup_insert_eq. }
  intros r b' Hr. specialize (Hb r b' Hr). destruct (decide (r = brk w)) as [->|]; [|lia].
  exfalso. revert Hr. rewrite Hold by lia. unfold w1. cbn. by rewrite lookup_insert_eq.
Qed.

(** A cell of the caller holds a pointer. *)
Definition cell (w : Pr) (a : positive) (q : Ptr) : Prop := exists l, heap w !! a = Some (CPtrs (q :: l)).
Lemma write_ptr_spec a q w :
  wp (write_ptr a q) w (fun w' _ => moves w w' /\ cell w' a q /\
    (forall c, c <> a -> heap w' !! c = heap w !! c)) (fun _ => False).
Proof.
  unfold wp, write_ptr, act_bind, deref. destruct (heap w !! a) as [o|] eqn:E; [|done].
  destruct o as [|[|p l]| | | | | |]; try done. unfold store_obj.
  split; [by eapply moves_update|]. split; [exists l; cbn; by rewrite lookup_insert_eq|].
  intros c Hc. cbn. by rewrite lookup_insert_ne.
Qed.
Lemma write_size_spec a n w :
  wp (write_size a n) w (fun w' _ => moves w w' /\ (exists l, heap w' !! a = Some (CSizes (n :: l))) /\
    (forall c, c <> a -> heap w' !! c = heap w !! c)) (fun _ => False).
Proof.
  unfold wp, write_size, act_bind, deref. destruct (heap w !! a) as [o|] eqn:E; [|done].
  destruct o as [| |[|p l]| | | | |]; try done. unfold store_obj.
  split; [by eapply moves_update|]. split; [exists l; cbn; by rewrite lookup_insert_eq|].
  intros c Hc. cbn. by rewrite lookup_insert_ne.
Qed.

(** The borrow at [r] gives the payloads through two arrays, or one payload. *)
Definition gives_blocks (w : Pr) (r ptrs lens : positive) (items : list RemoteBytes) : Prop :=
  exists multi, heap w !! r = Some (LBorrow (mkBorrow [] multi [ptrs] [lens])) /\
    heap w !! ptrs = Some (LPtrs (map Some multi)) /\ heap w !! lens = Some (LSizes (map bytes_len items)) /\
    Forall2 (fun a b => heap w !! a = Some (LBytes b)) multi items.
Definition gives_bytes (w : Pr) (r d : positive) (b : RemoteBytes) : Prop :=
  heap w !! r = Some (LBorrow (mkBorrow [d] [] [] [])) /\ heap w !! d = Some (LBytes b).
Lemma gives_blocks_kept w w' r ptrs lens items : lib_kept w w' -> gives_blocks w r ptrs lens items -> gives_blocks w' r ptrs lens items.
Proof.
  intros Hk (multi & E1 & E2 & E3 & HF). exists multi. split; [by apply Hk|]. split; [by apply Hk|]. split; [by apply Hk|].
  eapply Forall2_impl; [exact HF|]. intros a b Ha. by apply Hk.
Qed.
Lemma gives_bytes_kept w w' r d b : lib_kept w w' -> gives_bytes w r d b -> gives_bytes w' r d b.
Proof. intros Hk [E1 E2]. split; by apply Hk. Qed.

(** One more part on the way to a borrow. *)
Definition grown (w w1 : Pr) : Prop :=
  borrows_ok w1 /\ extends w w1 /\ forall r b, heap w1 !! r = Some (LBorrow b) -> (r < brk w)%positive.
Lemma grown_alloc o w w1 :
  (forall b, o <> LBorrow b) -> grown w w1 ->
  exists w2, alloc o w1 = Returns w2 (brk w1) /\ grown w w2 /\ extends w1 w2 /\ heap w2 !! brk w1 = Some o /\
             brk w2 = Pos.succ (brk w1).
Proof.
  intros Ho (Hw1 & He & Hb). eexists. split; [reflexivity|]. set (w2 := mkProc _ _ _).
  split; [|split; [apply extends_alloc|]; split; [unfold w2; cbn; by rewrite lookup_insert_eq|done]].
  split; [by apply (moves_alloc o w1 Ho)|]. split; [etransitivity; [exact He|apply extends_alloc]|].
  intros r b. unfold w2. cbn. destruct (decide (r = brk w1)) as [->|Hne].
  - rewrite lookup_insert_eq. intros [= E]. by destruct (Ho b).
  - rewrite lookup_insert_ne by done. apply Hb.
Qed.
Lemma extends_kept w w1 : borrows_ok w -> extends w w1 -> lib_kept w w1.
Proof. intros Hw (_ & _ & Hold) a o Ha _. rewrite Hold; [done|]. apply Hw. eauto. Qed.
Lemma grown_refl w : borrows_ok w -> grown w w.
Proof. intros Hw. split; [done|]. split; [done|]. intros r b Hr. apply Hw. eauto. Qed.
(** Closing it. *)
Lemma grown_borrow b w w1 :
  borrows_ok w -> grown w w1 -> NoDup (borrow_parts b) ->
  (forall a, a ∈ borrow_parts b -> (brk w <= a)%positive /\ exists o, heap w1 !! a = Some o /\ is_part o = true) ->
  exists w2, alloc (LBorrow b) w1 = Returns w2 (brk w1) /\ borrows_ok w2 /\ lib_kept w w2 /\ lib_kept w1 w2 /\
             heap w2 !! brk w1 = Some (LBorrow b).
Proof.
  intros Hw (Hw1 & He & Hb) Hnd Hp. eexists. split; [reflexivity|].
  destruct (borrow_alloc w w1 b Hw He Hw1 Hnd Hp Hb) as [Hw2 Hk]. split; [done|].
  split; [etransitivity; [by apply extends_kept|done]|]. split; [done|]. cbn. by rewrite lookup_insert_eq.
Qed.
Lemma publish_bytes_spec b p l o w :
  borrows_ok w ->
  wp (publish_borrowed_bytes b p l o) w
     (fun w' _ => borrows_ok w' /\ lib_kept w w' /\
        (p <> l /\ l <> o /\ p <> o -> exists r d, cell w' p (Some d) /\ (exists ls, heap w' !! l = Some (CSizes (bytes_len b :: ls))) /\
                                      cell w' o (Some r) /\ gives_bytes w' r d b)) (fun _ => False).
Proof.
  intros Hw. unfold publish_borrowed_bytes.
  destruct (grown_alloc (LBytes b) w w) as (w1 & E1 & G1 & X1 & D1 & _); [done|by apply grown_refl|].
  set (bi := mkBorrow [brk w] [] [] []).
  destruct (grown_borrow bi w w1 Hw G1) as (w2 & E2 & Hw2 & K2 & K12 & D2).
  { unfold borrow_parts. cbn. apply NoDup_singleton. }
  { intros a Ha. unfold borrow_parts in Ha. cbn in Ha. apply list_elem_of_singleton in Ha as ->. split; [lia|]. eauto. }
  apply wp_bind. unfold wp at 1. rewrite E1. apply wp_bind. unfold wp at 1. fold bi. rewrite E2.
  apply wp_bind. eapply wp_mono; [apply write_ptr_spec| |done]. intros w3 _ (M3 & C3 & F3).
  apply wp_bind. eapply wp_mono; [apply write_size_spec| |done]. intros w4 _ (M4 & C4 & F4).
  apply wp_bind. eapply wp_mono; [apply write_ptr_spec| |done]. intros w5 _ (M5 & C5 & F5). apply wp_ret.
  assert (moves w2 w5) as M by (etransitivity; [exact M3|]; etransitivity; [exact M4|exact M5]).
  destruct (M Hw2) as [Hw5 K5]. split; [done|]. split; [by etransitivity|].
  intros (Hpl & Hlo & Hpo). exists (brk w1), (brk w). split; [|split; [|split; [done|]]].
  - destruct C3 as [q C3]. exists q. by rewrite F5, F4.
  - destruct C4 as [q C4]. exists q. by rewrite F5.
  - split; [by apply K5|]. apply K5; [|done]. apply K12; [done|done].
Qed.
Lemma publish_blocks_spec items p l o w :
  borrows_ok w ->
  wp (publish_borrowed_blocks items p l o) w
     (fun w' _ => borrows_ok w' /\ lib_kept w w' /\
        (p <> l /\ l <> o /\ p <> o -> exists r ptrs lens, cell w' p (Some ptrs) /\ cell w' l (Some lens) /\ cell w' o (Some r) /\
                                                   gives_blocks w' r ptrs lens items)) (fun _ => False).
Proof.
  intros Hw. unfold publish_borrowed_blocks.
  destruct (alloc_items_spec items w Hw) as (w1 & multi & E1 & Hw1 & X1 & Hnd & Hm & HF & Hb).
  destruct (grown_alloc (LPtrs (map Some multi)) w w1) as (w2 & E2 & G2 & X2 & D2 & B2); [done|done|].
  destruct (grown_alloc (LSizes (map bytes_len items)) w w2) as (w3 & E3 & G3 & X3 & D3 & _); [done|done|].
  pose proof (extends_kept w1 w2 Hw1 X2) as K12. pose proof (extends_kept w2 w3 (proj1 G2) X3) as K23.
  set (bi := mkBorrow [] multi [brk w1] [brk w2]). pose proof X1 as (L1 & _ & _).
  destruct (grown_borrow bi w w3 Hw G3) as (w4 & E4 & Hw4 & K4 & K34 & D4).
  { unfold borrow_parts. cbn. apply NoDup_app. split; [done|]. split.
    - intros a Ha. rewrite elem_of_cons, list_elem_of_singleton. specialize (Hm a Ha). lia.
    - apply NoDup_cons. rewrite list_elem_of_singleton. split; [lia|apply NoDup_singleton]. }
  { intros a Ha. unfold borrow_parts in Ha. cbn in Ha. rewrite elem_of_app, elem_of_cons, list_elem_of_singleton in Ha.
    destruct Ha as [Ha|[->| ->]].
    - split; [specialize (Hm a Ha); lia|]. apply list_elem_of_lookup in Ha as [j Ha].
      destruct (Forall2_lookup_l _ _ _ _ _ HF Ha) as (b & _ & E). exists (LBytes b). split; [|done].
      apply K23; [|done]. by apply K12.
    - split; [lia|]. eexists. split; [apply K23; [exact D2|done]|done].
    - split; [lia|]. eexists. split; [exact D3|done]. }
  apply wp_bind. unfold wp at 1. rewrite E1. apply wp_bind. unfold wp at 1. rewrite E2. apply wp_bind. unfold wp at 1. rewrite E3.
  apply wp_bind. unfold wp at 1. fold bi. rewrite E4.
  apply wp_bind. eapply wp_mono; [apply write_ptr_spec| |done]. intros w5 _ (M5 & C5 & F5).
  apply wp_bind. eapply wp_mono; [apply write_ptr_spec| |done]. intros w6 _ (M6 & C6 & F6).
  apply wp_bind. eapply wp_mono; [apply write_ptr_spec| |done]. intros w7 _ (M7 & C7 & F7). apply wp_ret.
  assert (moves w4 w7) as M by (etransitivity; [exact M5|]; etransitivity; [exact M6|exact M7]).
  destruct (M Hw4) as [Hw7 K7]. split; [done|]. split; [by etransitivity|].
  intros (Hpl & Hlo & Hpo). exists (brk w3), (brk w1), (brk w2). split; [|split; [|split; [done|]]].
  - destruct C5 as [q C5]. exists q. by rewrite F7, F6.
  - destruct C6 as [q C6]. exists q. by rewrite F7.
  - assert (lib_kept w3 w7) as K by (by etransitivity). exists multi. split; [by apply K7|].
    split; [apply K; [by apply K23|done]|]. split; [by apply K|].
    eapply Forall2_impl; [exact HF|]. intros a b E. apply K; [|done]. apply K23; [|done]. by apply K12.
Qed.

(** *** Calls and releases *)
Lemma moves_same w w' : heap w' = heap w -> brk w' = brk w -> moves w w'.
Proof.
  intros E1 E2 Hw. split; [|intros a o; by rewrite E1]. destruct Hw as [I1 I2 I3 I4]. split; rewrite ?E1, ?E2; assumption.
Qed.
Lemma moves_handle a h h' w w' :
  heap w !! a = Some (LHandle h) -> heap w' = <[a := LHandle h']> (heap w) -> brk w' = brk w -> moves w w'.
Proof.
  intros Ha E1 E2. etransitivity; [by apply (moves_update a (LHandle h) (LHandle h') w)|]. by apply moves_same.
Qed.
Lemma touched_moves q w w' : touched q w w' -> moves w w'.
Proof.
  intros [E2 [E1|(a & h & b & _ & Ha & E1)]]; [by apply moves_same|]. by eapply moves_handle.
Qed.
Lemma failed_moves msg eb el w w' rc : failed_at msg eb el w w' rc -> moves w w'.
Proof.
  intros (_ & _ & Hb & Hk). revert Hb. unfold buf_shows. destruct eb as [a|]; [|by intros; apply moves_same].
  case_decide; [by intros; apply moves_same|]. intros (old & Ha & _ & E1).
  etransitivity; [by apply (moves_update a (CBytes old) (CBytes (shown msg el ++ drop (length (shown msg el)) old)) w)|].
  by apply moves_same.
Qed.
Lemma called_moves {A} q (act : Handle S H R P Q I -> Act (Backend S H R P Q) A) w w1 r : called q act w w1 r -> moves w w1.
Proof. intros (a & h & b & _ & Ha & _ & ->). by eapply moves_handle. Qed.
Lemma ended_moves x c w w' rc : ended x c w w' rc -> moves w w'.
Proof.
  intros [(_ & _ & Hf)|(w1 & msg & Ht & Hf)].
  2: { etransitivity; [by eapply touched_moves|by eapply failed_moves]. }
  destruct c; cbn [finished] in Hf.
  - destruct Hf as (_ & s0 & hl & m & w1 & o & _ & _ & Hc & _ & Hw). etransitivity; [by eapply called_moves|].
    pose proof (write_size_spec o m w1) as Hs. unfold wp in Hs. rewrite Hw in Hs. apply Hs.
  - destruct Hf as (s0 & hl & [items|] & w1 & _ & _ & Hc & Hr); apply called_moves in Hc as Hm.
    + destruct Hr as (-> & p & l & o & _ & _ & _ & Hp). intros Hw. destruct (Hm Hw) as [Hw1 K1].
      pose proof (publish_blocks_spec items p l o w1 Hw1) as Hs. unfold wp in Hs. rewrite Hp in Hs.
      destruct Hs as (? & ? & _). split; [done|]. by etransitivity.
    + by destruct Hr as [_ ->].
  - destruct Hf as (s0 & hl & _ & _ & [(_ & _ & ->)|(p & l & slices & t & _ & _ & _ & Hc & _)]);
      [by apply moves_same|by eapply called_moves].
  - destruct Hf as (_ & s0 & t0 & pl & k0 & _ & _ & _ & Hc). by eapply called_moves.
  - destruct Hf as (s0 & t0 & [b0|] & w1 & _ & _ & Hc & Hr); apply called_moves in Hc as Hm.
    + destruct Hr as (-> & p & l & o & _ & _ & _ & Hp). intros Hw. destruct (Hm Hw) as [Hw1 K1].
      pose proof (publish_bytes_spec b0 p l o w1 Hw1) as Hs. unfold wp in Hs. rewrite Hp in Hs.
      destruct Hs as (? & ? & _). split; [done|]. by etransitivity.
    + by destruct Hr as [_ ->].
Qed.

(** Objects go away; a borrow that stays keeps its parts. *)
Lemma removed_ok (gone : positive -> Prop) w w' :
  borrows_ok w -> brk w' = brk w ->
  (forall a, heap w' !! a = None /\ gone a \/ heap w' !! a = heap w !! a /\ ~ gone a) ->
  (forall r b a, heap w !! r = Some (LBorrow b) -> ~ gone r -> a ∈ borrow_parts b -> ~ gone a) -> borrows_ok w'.
Proof.
  intros Hw Eb Hg Hp.
  assert (forall a o, heap w' !! a = Some o -> heap w !! a = Some o /\ ~ gone a) as Hold.
  { intros a o Ha. destruct (Hg a) as [[E _]|[E ?]]; [congruence|]. split; [congruence|done]. }
  split.
  - intros a [o Ha]. rewrite Eb. apply Hw. exists o. by apply Hold.
  - intros r b a Hr Ha. apply Hold in Hr as [Hr Hgr]. destruct (parts_there w Hw r b a Hr Ha) as (o & Ho & Hpo).
    exists o. split; [|done]. destruct (Hg a) as [[_ G]|[E _]]; [by destruct (Hp r b a Hr Hgr Ha)|congruence].
  - intros r b Hr. apply Hold in Hr as [Hr _]. by apply (parts_once w Hw r b).
  - intros r r' b b' a Hr Hr'. apply Hold in Hr as [Hr _], Hr' as [Hr' _]. by apply (parts_own w Hw).
Qed.
Lemma free_all_spec l (w : Pr) :
  wp (free_all l) w (fun w' _ => brk w' = brk w /\
    forall a, heap w' !! a = None /\ a ∈ l \/ heap w' !! a = heap w !! a /\ (a ∉ l)) (fun _ => False).
Proof.
  revert w. induction l as [|c l IH]; intros w; cbn [free_all].
  { split; [done|]. intros a. right. split; [done|]. apply not_elem_of_nil. }
  apply wp_bind. unfold wp at 1, free. destruct (heap w !! c) as [o|] eqn:Ec; [|done].
  eapply wp_mono; [apply IH| |done]. intros w' _ [Eb Ha]. split; [done|]. intros a.
  destruct (Ha a) as [[E Hin]|[E Hin]]; [left; split; [done|by right]|].
  cbn in E. destruct (decide (a = c)) as [->|Hne].
  - left. rewrite lookup_delete_eq in E. split; [done|by left].
  - right. rewrite lookup_delete_ne in E by done. split; [done|]. by apply not_elem_of_cons.
Qed.
Lemma release_spec q (w : Pr) :
  borrows_ok w ->
  wp (wmbt_kv_release_borrow q) w
     (fun w' _ => borrows_ok w' /\ forall r b a o, q <> Some r -> heap w !! r = Some (LBorrow b) -> a = r \/ a ∈ borrow_parts b ->
                    heap w !! a = Some o -> heap w' !! a = Some o) (fun _ => False).
Proof.
  intros Hw. destruct q as [r'|]; cbn [wmbt_kv_release_borrow]; [|done].
  apply wp_bind. unfold wp at 1, deref. destruct (heap w !! r') as [[| | | | | | |b']|] eqn:Er; try done.
  apply wp_bind. unfold wp at 1, free. rewrite Er. set (w1 := set_heap _ w).
  eapply wp_mono; [apply free_all_spec| |done]. intros w' _ [Eb Ha].
  set (gone := fun a => a = r' \/ a ∈ borrow_parts b').
  assert (forall a, heap w' !! a = None /\ gone a \/ heap w' !! a = heap w !! a /\ ~ gone a) as Hg.
  { intros a. unfold gone. destruct (Ha a) as [[E Hin]|[E Hin]]; [left; auto|]. unfold w1 in E. cbn in E.
    destruct (decide (a = r')) as [->|Hne]; [rewrite lookup_delete_eq in E; auto|].
    right. rewrite lookup_delete_ne in E by done. split; [done|]. tauto. }
  assert (forall r b a, heap w !! r = Some (LBorrow b) -> r <> r' -> a ∈ borrow_parts b -> ~ gone a) as Hp.
  { intros r b a Hr Hne Hin [->|Hin']; [|by apply Hne, (parts_own w Hw r r' b b' a)].
    destruct (parts_there w Hw r b r' Hr Hin) as (o & Ho & Hpo). rewrite Er in Ho. by injection Ho as <-. }
  split.
  - apply (removed_ok gone w w' Hw Eb Hg). intros r b a Hr Hgr. apply (Hp r b a Hr). intros ->. apply Hgr. by left.
  - intros r b a o Hq Hr Hin Ho. destruct (Hg a) as [[_ G]|[-> _]]; [|done]. exfalso.
    assert (r <> r') as Hne by congruence. destruct Hin as [->|Hin]; [|by apply (Hp r b a Hr Hne Hin)].
    destruct G as [->|Hin]; [done|]. destruct (parts_there w Hw r' b' r Er Hin) as (u & Hu & Hpu).
    rewrite Hr in Hu. by injection Hu as <-.
Qed.
Lemma delete_moves a o (w : Pr) : heap w !! a = Some o -> is_lib o = false -> moves w (set_heap (delete a (heap w)) w).
Proof.
  intros Ha Ho Hw. split.
  - apply (removed_ok (fun c => c = a) w); [done|done| |].
    + intros c. unfold set_heap. cbn. destruct (decide (c = a)) as [->|Hne]; [left; by rewrite lookup_delete_eq|].
      right. by rewrite lookup_delete_ne.
    + intros r b c Hr _ Hc ->. destruct (parts_there w Hw r b a Hr Hc) as (u & Hu & Hpu). rewrite Ha in Hu. injection Hu as <-.
      by destruct o.
  - intros c u Hc Hu. unfold set_heap. cbn. rewrite lookup_delete_ne; [done|]. intros <-. congruence.
Qed.

(** *** Reading a borrow

    The caller reads each payload through the arrays, as its bytes are then. *)
Definition readable (w : Pr) (ptrs lens : positive) (items : list RemoteBytes) : Prop :=
  forall i b, items !! i = Some b ->
    exists a, read_ptr ptrs i w = Returns w (Some a) /\ read_size lens i w = Returns w (bytes_len b) /\
      forall (y : Env) bs, bytes_now (ca_arena y) b = Some bs -> len bs = bytes_len b ->
        read_bytes y a (bytes_len b) w = Returns w bs.
Lemma gives_blocks_readable w r ptrs lens items : gives_blocks w r ptrs lens items -> readable w ptrs lens items.
Proof.
  intros (multi & _ & E1 & E2 & HF) i b Hi. destruct (Forall2_lookup_r _ _ _ _ _ HF Hi) as (a & Ha & Eb). exists a.
  split. { unfold read_ptr, act_bind, deref. rewrite E1, list_lookup_fmap, Ha. done. }
  split. { unfold read_size, act_bind, deref. rewrite E2, list_lookup_fmap, Hi. done. }
  intros y bs Hb Hl. unfold read_bytes, act_bind, deref. rewrite Eb. cbn [obj_bytes]. rewrite Hb, decide_True by lia.
  rewrite <- Hl. unfold len. by rewrite Nat2Z.id, firstn_all.
Qed.
Lemma free_all_returns l (w : Pr) : NoDup l -> (forall a, a ∈ l -> is_Some (heap w !! a)) -> exists w', free_all l w = Returns w' tt.
Proof.
  intros Hnd. revert w. induction Hnd as [|a l Hin Hnd IH]; intros w Hl; cbn [free_all]; [by exists w|].
  destruct (Hl a) as [o Ho]; [by left|]. unfold act_bind, free at 1. rewrite Ho. apply IH. intros c Hc. cbn.
  rewrite lookup_delete_ne by (intros ->; done). apply Hl. by right.
Qed.
Lemma release_returns r b (w : Pr) :
  borrows_ok w -> heap w !! r = Some (LBorrow b) -> exists w', wmbt_kv_release_borrow (Some r) w = Returns w' tt.
Proof.
  intros Hw Hr. cbn [wmbt_kv_release_borrow]. unfold act_bind at 1, deref. rewrite Hr.
  unfold act_bind, free at 1. rewrite Hr. apply free_all_returns; [by apply (parts_once w Hw r b)|].
  intros a Ha. destruct (parts_there w Hw r b a Hr Ha) as (o & Ho & Hp). cbn. rewrite lookup_delete_ne; [eauto|].
  intros ->. rewrite Hr in Ho. by injection Ho as <-.
Qed.

(** Everything but the release of [r]: calls on any handle, other releases, making
    and freeing handles, what background threads do to a store, what the caller does
    with its own memory, errors of other calls. *)
Definition is_callers (o : Ob) : bool := match o with CBytes _ | CPtrs _ | CSizes _ => true | _ => false end.
Inductive other_step (r : positive) : Pr -> Pr -> Prop :=
| step_call x c w w' rc : run_ext x c w = Returns w' rc -> other_step r w w'
| step_release q w w' : q <> Some r -> wmbt_kv_release_borrow q w = Returns w' tt -> other_step r w w'
| step_free q w w' : wmbt_kv_free q w = Returns w' tt -> other_step r w w'
| step_init h w w' a : alloc (LHandle h) w = Returns w' a -> other_step r w w'
| step_background a h h' w :
    heap w !! a = Some (LHandle h) -> other_step r w (set_heap (<[a := LHandle h']> (heap w)) w)
| step_alloc o w w' a : is_callers o = true -> alloc o w = Returns w' a -> other_step r w w'
| step_write a o o' w :
    heap w !! a = Some o -> is_callers o = true -> is_callers o' = true -> other_step r w (set_heap (<[a := o']> (heap w)) w)
| step_drop a o w : heap w !! a = Some o -> is_callers o = true -> other_step r w (set_heap (delete a (heap w)) w)
| step_error e w : other_step r w (mkProc (heap w) (brk w) e).

Definition borrow_kept (r : positive) (b : BorrowInner) (w w' : Pr) : Prop :=
  forall a o, a = r \/ a ∈ borrow_parts b -> heap w !! a = Some o -> heap w' !! a = Some o.
Lemma other_step_keeps r b w w' :
  other_step r w w' -> borrows_ok w -> heap w !! r = Some (LBorrow b) -> borrows_ok w' /\ borrow_kept r b w w'.
Proof.
  intros Hs Hw Hr.
  assert (forall w', moves w w' -> borrows_ok w' /\ borrow_kept r b w w') as Hmv.
  { intros w1 Hm. destruct (Hm Hw) as [Hw1 Hk]. split; [done|]. intros a o Ha Ho. apply Hk; [done|].
    destruct Ha as [->|Ha]; [rewrite Hr in Ho; by injection Ho as <-|].
    destruct (parts_there w Hw r b a Hr Ha) as (u & Hu & Hp). rewrite Hu in Ho. injection Ho as <-. by destruct u. }
  assert (forall o, is_callers o = true -> is_lib o = false) as Hcl by (by intros []).
  destruct Hs as [x c w w' rc Es|q w w' Hq Es|q w w' Es|h w w' a Es|a h h' w Ha|u w w' a Hu Es|a u u' w Ha Hu Hu'|a u w Ha Hu|e w].
  - apply Hmv. pose proof (run_ext_ends x c w) as He. unfold wp in He. rewrite Es in He. by eapply ended_moves.
  - pose proof (release_spec q w Hw) as He. unfold wp in He. rewrite Es in He. destruct He as [Hw' Hk]. split; [done|].
    intros a o Ha Ho. by apply (Hk r b a o).
  - apply Hmv. destruct q as [a|]; cbn [wmbt_kv_free] in *; [|by injection Es as <-].
    unfold act_bind, deref in Es. destruct (heap w !! a) as [[| | | | | |h|]|] eqn:Ea; try done.
    unfold free in Es. rewrite Ea in Es. injection Es as <-. by eapply delete_moves.
  - apply Hmv. injection Es as <- <-. by apply moves_alloc.
  - apply Hmv. by eapply moves_update.
  - apply Hmv. injection Es as <- <-. apply moves_alloc. by intros b' ->.
  - apply Hmv. eapply moves_update; eauto.
  - apply Hmv. eapply delete_moves; eauto.
  - apply Hmv. by apply moves_same.
Qed.
Lemma borrow_kept_gives r ptrs lens multi items w w' :
  borrow_kept r (mkBorrow [] multi [ptrs] [lens]) w w' -> heap w !! r = Some (LBorrow (mkBorrow [] multi [ptrs] [lens])) ->
  heap w !! ptrs = Some (LPtrs (map Some multi)) -> heap w !! lens = Some (LSizes (map bytes_len items)) ->
  Forall2 (fun a b => heap w !! a = Some (LBytes b)) multi items -> gives_blocks w' r ptrs lens items.
Proof.
  intros Hk E1 E2 E3 HF. exists multi. unfold borrow_kept, borrow_parts in Hk. cbn [bi_data bi_multi bi_ptrs bi_lens app] in Hk.
  split; [apply Hk; auto|]. split; [apply Hk; [right; set_solver|done]|]. split; [apply Hk; [right; set_solver|done]|].
  apply Forall2_same_length_lookup_2; [by eapply Forall2_length|]. intros i a b Ha Hb.
  apply Hk; [right; apply elem_of_app; left; by eapply list_elem_of_lookup_2|]. exact (Forall2_lookup_lr _ _ _ i _ _ HF Ha Hb).
Qed.

(** C21: a successful borrowing get writes three pointers, and until the borrow is
    released every payload the backend gave is readable through them, whatever calls,
    other releases, frees and background work come in between; then the release
    succeeds. *)
Theorem borrows_stay_valid x h ns hs n p l o w w' :
  borrows_ok w -> p <> l /\ l <> o /\ p <> o ->
  wmbt_kv_get_kv_blocks_borrowed duration_debug x h ns hs n (Some p) (Some l) (Some o) w = Returns w' 1 ->
  exists s hashes items w1 r ptrs lens,
    called h (fun _ => handle_get_kv_blocks duration_debug x s hashes) w w1 (Ok (Some items)) /\
    cell w' p (Some ptrs) /\ cell w' l (Some lens) /\ cell w' o (Some r) /\
    forall w2, rtc (other_step r) w' w2 ->
      readable w2 ptrs lens items /\ exists w3, wmbt_kv_release_borrow (Some r) w2 = Returns w3 tt.
Proof.
  intros Hw Hne E. pose proof (get_blocks_ends x h ns hs n (Some p) (Some l) (Some o) w) as He. unfold wp in He.
  cbn [run_ext] in He. rewrite E in He. destruct He as [(_ & _ & Hf)|(w1 & msg & _ & [Hrc _])]; [|done].
  destruct Hf as (s & hashes & [items|] & w1 & _ & _ & Hc & Hr); [|by destruct Hr].
  destruct Hr as (_ & p' & l' & o' & [= <-] & [= <-] & [= <-] & Hp).
  pose proof (called_moves _ _ _ _ _ Hc Hw) as [Hw1 _].
  pose proof (publish_blocks_spec items p l o w1 Hw1) as Hs. unfold wp in Hs. rewrite Hp in Hs.
  destruct Hs as (Hw' & _ & Hs). destruct (Hs Hne) as (r & ptrs & lens & C1 & C2 & C3 & Hg).
  exists s, hashes, items, w1, r, ptrs, lens. do 4 (split; [done|]). intros w2 Hsteps.
  assert (borrows_ok w2 /\ gives_blocks w2 r ptrs lens items) as [Hw2 Hg2].
  { clear -Hsteps Hw' Hg total_u64. induction Hsteps as [w|w wa wb Hs _ IH]; [done|].
    destruct Hg as (multi & E1 & E2 & E3 & HF). destruct (other_step_keeps r _ w wa Hs Hw' E1) as [Hwa Hk].
    apply IH; [done|]. by eapply borrow_kept_gives. }
  split; [by eapply gives_blocks_readable|]. destruct Hg2 as (multi & E1 & _). by eapply release_returns.
Qed.
End Spec.
