(* ===== verification/CabiRound.v ===== *)
(** * Blocks through the C ABI

    What an engine puts over an embedded handle it gets back, through the pointers
    of a borrow, whatever order the threads of both calls run in and whatever the
    caches lose in between, as long as the object store works. *)

From S2P Require Import Prelude Order Text Strings Radix Hex BlockMeta ObjectStore Compression BlobCache Foyer Lru Embed.
From S2P Require Import Durable Prefetch Envelope Wire Arena Fanout Rpc Daemon DaemonSpec Client ClientSpec Tcp Http HttpSpec.
From S2P Require Import Cabi CabiSpec.

Section Store.
Context {S : Type} `{!ObjectStore S, !ObjectStoreLaws S, !ReliableStore S} {H : Type} `{!HybridCache H} `{!HybridCacheLaws H}
  `{!Zstd} `{!ZstdLaws} `{!Texts}.
Abbreviation KvStore := (WombatKVKvStore S H).
(** The names in use, what their objects stand for, a store with the settings, as
    for the daemon. *)
Context (N : str -> str -> Prop) (content : str -> option bytes) (k0 : KvStore).
Context (K_files : forall x y, K N k0 x -> K N k0 y -> path_for_key x = path_for_key y -> x = y).
Abbreviation ok D := (store_ok N content k0 (has_objects k0 D)).

(** A put that is written through and encodable. *)
Definition good_put (ns : str) (i : str * bytes) : Prop :=
  put_ok N content k0 ns i.1 i.2 /\ is_ok (encode_for_storage i.2 (kv_compression k0) i.1) = true.

Lemma put_step_good D ns items meta i (w w' : KvStore) t t' :
  Forall (good_put ns) items -> ok D w -> kv_meta w = meta -> put_step ns items i w t = (w', t') ->
  ok D w' /\ kv_meta w' = meta /\ objects_kept w w' /\
  (t = None -> forall key p, items !! i = Some (key, p) -> t' = Some (Ok tt) /\ is_Some (contents (kv_object_store w') !! okey k0 ns key)) /\
  (t <> None -> t' = t).
Proof.
  intros HF Hw Em. unfold put_step. destruct t as [r|]; [by intros [<- <-]%pair_inj|].
  destruct (items !! i) as [[key p]|] eqn:Ei; [|by intros [<- <-]%pair_inj].
  destruct (Forall_lookup_1 _ _ _ _ HF Ei) as [Hp He]. cbn [fst snd] in *.
  destruct (store_ok_put N content k0 K_files (has_objects k0 D) (has_objects_kept N content k0 D) ns key p w Hp Hw) as [Hw1 Em1].
  pose proof (put_kv_kept ns key p w) as Hk. destruct Hw as (_ & Epre & Ecomp & Hr & Hwt & _).
  destruct (put_kv_durable ns key p w Hr Hwt) as (w1 & E & Ho); [by rewrite Ecomp|]. rewrite E in *. cbn [fst] in *.
  intros [<- <-]%pair_inj. split; [done|]. split; [congruence|]. split; [done|]. split; [|done].
  intros _ key' p' [= <- <-]. split; [done|]. unfold okey.
  assert (object_key k0 ns key = object_key w ns key) as -> by (unfold object_key; by rewrite Epre). done.
Qed.

(** A putting thread on its way. *)
Definition putting (ns : str) (items : list (str * bytes)) (i : nat) (w : KvStore) (t : option (result unit str)) : Prop :=
  forall key p, items !! i = Some (key, p) ->
    t = None \/ t = Some (Ok tt) /\ is_Some (contents (kv_object_store w) !! okey k0 ns key).
Lemma put_step_putting D ns items meta i (w w' : KvStore) t t' :
  Forall (good_put ns) items -> ok D w -> kv_meta w = meta -> putting ns items i w t ->
  put_step ns items i w t = (w', t') -> putting ns items i w' t'.
Proof.
  intros HF Hw Em Ht Es key p Ei. destruct (put_step_good D ns items meta i w w' t t' HF Hw Em Es) as (_ & _ & [Hk _] & Hn & Hs).
  right. destruct (Ht key p Ei) as [->|[-> Ho]]; [by apply (Hn eq_refl key p)|]. rewrite Hs by done. auto.
Qed.
Lemma first_error_none ts : (forall i t, ts !! i = Some t -> t = Some (Ok tt)) -> first_error ts = None.
Proof.
  induction ts as [|t ts IH]; intros Hok; [done|]. cbn [first_error]. rewrite (Hok 0%nat t eq_refl).
  apply IH. intros i. apply (Hok (Datatypes.S i)).
Qed.

(** All threads put, none fails, and every object is there. *)
Lemma put_blocks_good D sched ns items (k : KvStore) :
  Forall (good_put ns) items -> ok D k ->
  exists k', put_blocks sched ns items k = (k', None) /\ ok (map (fun i => (ns, i.1)) items ++ D) k' /\ kv_meta k' = kv_meta k.
Proof.
  intros HF Hk. unfold put_blocks. set (ts0 := map (fun _ : str * bytes => @None (result unit str)) items).
  destruct (scope (put_step ns items) 1 sched k ts0) as [k' ts] eqn:E.
  destruct (scope_ok (put_step ns items) (fun w => ok D w /\ kv_meta w = kv_meta k) (putting ns items)) with (rounds := 1%nat)
    (sched := sched) (w := k) (ts := ts0) (w' := k') (ts' := ts) as ([Hk' Em] & Hts & Hlen); [| |done| |done|].
  - intros i w t w' t' [Hw Em] Ht Es. split; [|by eapply put_step_putting].
    destruct (put_step_good D ns items _ i w w' t t' HF Hw Em Es) as (? & ? & _). done.
  - intros i j w t w' t' u [Hw Em] _ Es Hu key p Ej.
    destruct (put_step_good D ns items _ i w w' t t' HF Hw Em Es) as (_ & _ & [Hko _] & _).
    destruct (Hu key p Ej) as [->|[-> Ho]]; [by left|right]. split; [done|]. auto.
  - intros i t Ht. unfold ts0 in Ht. rewrite list_lookup_fmap in Ht. destruct (items !! i); [|done]. injection Ht as <-. by left.
  - assert (forall i t, ts !! i = Some t -> exists key p, items !! i = Some (key, p) /\
              t = Some (Ok tt) /\ is_Some (contents (kv_object_store k') !! okey k0 ns key)) as Hall.
    { intros i t Et. unfold ts0 in Hlen. rewrite length_map in Hlen.
      destruct (lookup_lt_is_Some_2 items i) as [[key p] Ei]; [apply lookup_lt_Some in Et; lia|]. exists key, p. split; [done|].
      destruct (Hts i t Et key p Ei) as [->|?]; [|done]. exfalso.
      refine (scope_at (put_step ns items) (fun t => t <> None) 1 sched k ts0 i None _ _ eq_refl); [|by rewrite E].
      intros w u. cbn [steps]. unfold put_step. rewrite Ei. destruct u; [done|]. by destruct (put_kv ns key p w). }
    exists k'. rewrite first_error_none by (intros i t (key & p & _ & -> & _)%Hall; done).
    split; [done|]. split; [|done]. destruct Hk' as (Hc & Ep & Ec & Hr & Hwt & Ho). do 3 (split; [done|]). do 2 (split; [done|]).
    intros ns' key' [Hin|Hin]%elem_of_app; [|by apply Ho]. apply list_elem_of_fmap in Hin as ([key p] & [= -> ->] & Hin).
    apply list_elem_of_lookup in Hin as [i Ei]. unfold ts0 in Hlen. rewrite length_map in Hlen.
    destruct (lookup_lt_is_Some_2 ts i) as [t Et]; [apply lookup_lt_Some in Ei; lia|].
    destruct (Hall i t Et) as (key' & p' & Ei' & _ & Hs). rewrite Ei in Ei'. by injection Ei' as <- <-.
Qed.

(** *** Fetching *)

(** A fetching thread that is on its way to a payload. *)
Definition fetching (ns : str) (keys : list str) (i : nat) (t : FetchThread) : Prop :=
  match t with FDone r => exists b, r = Ok (Some b) /\ content (okey k0 ns (nth i keys [])) = Some b | _ => True end.
Lemma get_step_good D ns keys text meta i (w w' : KvStore * bool) t t' :
  N ns (nth i keys []) -> found_in content k0 D ns (nth i keys []) ->
  ok D w.1 /\ kv_meta w.1 = meta /\ w.2 = false -> fetching ns keys i t ->
  get_step ns (fun i => nth i keys []) text i w t = (w', t') ->
  (ok D w'.1 /\ kv_meta w'.1 = meta /\ w'.2 = false) /\ fetching ns keys i t'.
Proof.
  intros Hn Hf (Hw & Em & Eb) Ht. destruct w as [k m]. cbn [fst snd] in *. subst m. unfold get_step.
  destruct t; [by intros [<- <-]%pair_inj| |by intros [<- <-]%pair_inj].
  destruct (has_objects_found N content k0 K_files D ns (nth i keys []) k Hw Hn Hf) as (k1 & tier & v & E). rewrite E.
  destruct (store_ok_get N content k0 K_files (has_objects k0 D) (has_objects_kept N content k0 D) ns _ k k1 _ Hn Hw E)
    as (Hk1 & Em1 & Hv).
  intros [<- <-]%pair_inj. cbn [fst snd]. split; [split; [done|]; split; [congruence|done]|]. exists v. split; [done|]. by apply (Hv tier).
Qed.

(** All threads bring the payload of their key. *)
Lemma get_many_good {R P Q} D (x : CallEnv S H R P Q) ns keys payloads (k : KvStore) :
  Forall2 (fun key p => N ns key /\ (ns, key) ∈ D /\ content (okey k0 ns key) = Some p) keys payloads -> ok D k ->
  exists k', embedded_get_many x ns keys k = (k', Ok (Some (Owned (encode_bytes_batch payloads)))) /\
             ok D k' /\ kv_meta k' = kv_meta k.
Proof.
  intros HF Hk. unfold embedded_get_many. destruct (scope _ _ _ _ _) as [[k' m'] ts] eqn:E.
  set (step := get_step ns (fun i => nth i keys []) (fun _ e => embed_text e)) in *.
  assert (forall i, (i < length keys)%nat -> exists p, payloads !! i = Some p /\ N ns (nth i keys []) /\
            found_in content k0 D ns (nth i keys []) /\ content (okey k0 ns (nth i keys [])) = Some p) as Hkeys.
  { intros i Hi. destruct (lookup_lt_is_Some_2 keys i Hi) as [key Ek]. rewrite (nth_lookup_Some keys i [] key Ek).
    destruct (Forall2_lookup_l _ _ _ _ _ HF Ek) as (p & Ep & Hn & Hd & Hc). exists p. do 2 (split; [done|]).
    split; [split; [done|eauto]|done]. }
  destruct (scope_ok step (fun w => ok D w.1 /\ kv_meta w.1 = kv_meta k /\ w.2 = false)
    (fun i w t => (i < length keys)%nat /\ fetching ns keys i t)) with (rounds := 2%nat) (sched := ca_sched x)
    (w := (k, false)) (ts := map (fun _ : str => FStart) keys) (w' := (k', m')) (ts' := ts)
    as ((Hk' & Em & _) & Hts & Hlen); [| |done| |exact E|].
  - intros i w t w' t' Hw [Hi Ht] Es. destruct (Hkeys i Hi) as (p & _ & Hn & Hf & _).
    destruct (get_step_good D ns keys _ _ i w w' t t' Hn Hf Hw Ht Es). auto.
  - auto.
  - intros i t Ht. rewrite list_lookup_fmap in Ht. destruct (keys !! i) eqn:Ei; [|done]. injection Ht as <-.
    split; [by eapply lookup_lt_Some|done].
  - assert (ts = map (fun b => FDone (Ok (Some b))) payloads) as ->.
    { rewrite length_map in Hlen. apply list_eq. intros i. rewrite list_lookup_fmap.
      destruct (ts !! i) as [t|] eqn:Et.
      - destruct (Hts i t Et) as [Hi Hf]. cbn [Nat.add] in Hi, Hf. destruct (Hkeys i Hi) as (p & Ep & _ & _ & Hc). rewrite Ep. cbn.
        assert (exists r, t = FDone r) as [r ->].
        { apply (scope_at step (fun t => exists r, t = FDone r) 2 (ca_sched x) (k, false) (map (fun _ => FStart) keys) i t);
            [intros; apply get_step_done|by rewrite E]. }
        destruct Hf as (b & -> & Hb). rewrite Hb in Hc. by injection Hc as ->.
      - apply lookup_ge_None in Et. rewrite (proj2 (lookup_ge_None payloads i)); [done|]. apply Forall2_length in HF. lia. }
    exists k'. split; [|done]. f_equal. clear.
    assert (forall acc, collect_items (map (fun b => FDone (Ok (Some b))) payloads) acc = Ok (Some (acc ++ payloads))) as ->; [|done].
    induction payloads as [|p ps IH]; intros acc; cbn [collect_items map]; [by rewrite app_nil_r|].
    by rewrite IH, <- app_assoc.
Qed.

(** *** The index *)
Lemma index_roots_dom clock n blocks total idx :
  dom (entries (index_roots clock n blocks total idx).1) = dom (entries idx) ∪ list_to_set (map fst blocks).
Proof.
  revert n total idx. induction blocks as [|[h p] blocks IH]; intros n total idx; cbn [index_roots map list_to_set fst]; [set_solver|].
  rewrite IH. unfold InMem.insert. cbn [entries]. rewrite dom_insert_L. set_solver.
Qed.
Lemma index_roots_sum clock n blocks total idx :
  0 <= total -> total + len (concat (map snd blocks)) <= u64_max ->
  (index_roots clock n blocks total idx).2 = total + len (concat (map snd blocks)).
Proof.
  revert n total idx. induction blocks as [|[h p] blocks IH]; intros n total idx Ht Hb; cbn [index_roots map concat snd] in *.
  { change (len (@nil byte)) with 0. lia. }
  rewrite len_app in *. pose proof (len_nonneg p). pose proof (len_nonneg (concat (map snd blocks))).
  assert (saturating_add total (len p) = total + len p) as -> by (unfold saturating_add; lia). rewrite IH by lia. lia.
Qed.
Lemma prefix_count_all {V} (m : gmap bytes V) hs : Forall (fun h => h ∈ dom m) hs -> prefix_count m hs = len hs.
Proof.
  induction 1 as [|h hs Hh _ IH]; [done|]. cbn [prefix_count]. apply elem_of_dom in Hh as [v ->].
  rewrite len_cons. lia.
Qed.

(** *** Blocks *)
Definition good_block (ns : str) (h p : bytes) : Prop := good_put ns (block_key_for_hash h, p) /\ len p <= u32_max.
(** The blocks are stored and indexed. *)
Definition stored (D : list (str * str)) (hashes : list bytes) (k : KvStore) : Prop :=
  ok D k /\ Forall (fun h => h ∈ dom (entries (kv_index k))) hashes.
Definition names (ns : str) (hashes : list bytes) : list (str * str) := map (fun h => (ns, block_key_for_hash h)) hashes.

(** What may happen to the store later: gets, puts of other names, the index growing,
    the caches losing everything. *)
Inductive later : KvStore -> KvStore -> Prop :=
| later_get ns key k : N ns key -> later k (fst (get_kv ns key k))
| later_put ns key v k : put_ok N content k0 ns key v -> later k (fst (put_kv ns key v k))
| later_index i k : dom (entries (kv_index k)) ⊆ dom (entries i) -> later k (set_index i k)
| later_foyer k : later k (clear_foyer k)
| later_flat k : later k (clear_flat_cache k).
Lemma later_stored D hashes k k' : later k k' -> stored D hashes k -> stored D hashes k'.
Proof.
  intros Hl [Hk Hi]. pose proof Hk as ((Hfl & Hfo & Hs) & Ep & Ec & Hg). destruct Hl as [ns key k Hn|ns key v k Hp|i k Hd|k|k].
  - destruct (get_kv ns key k) as [k' r] eqn:E.
    destruct (store_ok_get N content k0 K_files _ (has_objects_kept N content k0 D) ns key k k' r Hn Hk E) as (Hk' & Em & _).
    split; [done|]. cbn [fst]. by assert (kv_index k' = kv_index k) as -> by (by injection Em).
  - destruct (store_ok_put N content k0 K_files _ (has_objects_kept N content k0 D) ns key v k Hp Hk) as [Hk' Em].
    split; [done|]. by assert (kv_index (fst (put_kv ns key v k)) = kv_index k) as -> by (by injection Em).
  - split; [|eapply Forall_impl; [exact Hi|]; set_solver]. split; [done|]. do 2 (split; [done|]).
    by apply (has_objects_kept N content k0 D k); [constructor|].
  - split; [|done]. split; [split; [done|]; split; [by apply foyer_clear_coherent|done]|]. do 2 (split; [done|]).
    by apply (has_objects_kept N content k0 D k); [constructor|].
  - split; [|done]. split; [split; [by apply flat_clear_coherent|done]|done].
Qed.
Lemma later_all_stored D hashes k k' : rtc later k k' -> stored D hashes k -> stored D hashes k'.
Proof. induction 1; [done|]. intros. eauto using later_stored. Qed.

Lemma put_blocks_stored {R P Q} D (x : CallEnv S H R P Q) ns hashes payloads (k : KvStore) :
  Forall2 (good_block ns) hashes payloads -> len (concat payloads) <= u64_max -> ok D k ->
  exists k', embedded_put_blocks x ns hashes payloads k = (k', Ok (len (concat payloads))) /\ stored (names ns hashes ++ D) hashes k'.
Proof.
  intros HF Hsum Hk. pose proof (Forall2_length _ _ _ HF) as Hlen. unfold embedded_put_blocks.
  destruct (put_blocks_good D (ca_sched x) ns (zip (map block_key_for_hash hashes) payloads) k) as (k1 & -> & Hk1 & Em); [|done|].
  { apply Forall_lookup. intros i [key p] Ei. apply lookup_zip_Some in Ei as [Ek Ep].
    rewrite list_lookup_fmap in Ek. destruct (hashes !! i) as [h|] eqn:Eh; [|done]. injection Ek as <-.
    by destruct (Forall2_lookup_lr _ _ _ _ _ _ HF Eh Ep). }
  pose proof (index_roots_dom (ca_clock x) 0 (zip hashes payloads) 0 (kv_index k1)) as Hd.
  pose proof (index_roots_sum (ca_clock x) 0 (zip hashes payloads) 0 (kv_index k1)) as Ht.
  change (map fst (zip hashes payloads)) with ((zip hashes payloads).*1) in Hd.
  change (map snd (zip hashes payloads)) with ((zip hashes payloads).*2) in Ht.
  rewrite fst_zip in Hd by lia. rewrite snd_zip in Ht by lia. specialize (Ht ltac:(lia) ltac:(lia)).
  destruct (index_roots _ _ _ _ _) as [idx total]. cbn [fst snd] in Hd, Ht. subst total. eexists. split; [reflexivity|]. split.
  - assert (map (fun i => (ns, i.1)) (zip (map block_key_for_hash hashes) payloads) = names ns hashes) as E.
    { unfold names. clear -Hlen. revert payloads Hlen. induction hashes as [|h hs IH]; intros [|p ps] Hl; cbn in *; [done..|].
      f_equal. apply IH. lia. }
    rewrite E in Hk1. destruct Hk1 as (Hc & Ep & Ec & Hg). split; [done|]. do 2 (split; [done|]).
    by apply (has_objects_kept N content k0 _ k1); [constructor|].
  - cbn [kv_index set_index]. apply Forall_forall. intros h Hh. rewrite Hd. set_solver.
Qed.
Lemma get_blocks_stored {R P Q} `{!Ring R} D (x : CallEnv S H R P Q) ns hashes payloads (k : KvStore) :
  Forall2 (good_block ns) hashes payloads -> len hashes <= u32_max -> len (encode_bytes_batch payloads) <= u64_max ->
  stored (names ns hashes ++ D) hashes k ->
  exists k', embedded_get_many x ns (map block_key_for_hash hashes) k = (k', Ok (Some (Owned (encode_bytes_batch payloads)))) /\
    stored (names ns hashes ++ D) hashes k' /\ decode_bytes_batch (encode_bytes_batch payloads) = Ok payloads.
Proof.
  intros HF Hn Hb [Hk Hi]. pose proof (Forall2_length _ _ _ HF) as Hlen.
  destruct (get_many_good (names ns hashes ++ D) x ns (map block_key_for_hash hashes) payloads k) as (k' & E & Hk' & Em); [|done|].
  { apply Forall2_fmap_l. apply Forall2_same_length_lookup_2; [done|]. intros i h p Eh Ep.
    destruct (Forall2_lookup_lr _ _ _ _ _ _ HF Eh Ep) as [[(Hn' & Hc & _) _] _]. split; [done|]. split; [|done].
    apply elem_of_app. left. apply list_elem_of_fmap. exists h. split; [done|]. by eapply list_elem_of_lookup_2. }
  exists k'. split; [done|]. split; [split; [done|]|].
  - by assert (kv_index k' = kv_index k) as -> by (by injection Em).
  - apply bytes_batch_codec_exact; [done|]. split; [done|]. split; [unfold len in *; lia|]. apply Forall_lookup. intros i p Ep.
    destruct (Forall2_lookup_r _ _ _ _ _ HF Ep) as (h & _ & _ & Hl). done.
Qed.
End Store.

(** ** Through the exported functions *)
Section Exported.
Context {S : Type} `{!ObjectStore S, !ObjectStoreLaws S, !ReliableStore S} {H : Type} `{!HybridCache H} `{!HybridCacheLaws H}
  `{!Zstd} `{!ZstdLaws} {R : Type} `{!Ring R} {P : Type} `{!Peer P} {Q : Type} `{!Endpoint Q} {I : Type} `{!Texts} `{!Crc32c}.
Context `{!RkyvCodec WireRequest, !RkyvCodec WireResponse}.
Context `{!RkyvCodec LookupBlockPrefixReq, !RkyvCodec LookupBlockPrefixResp, !RkyvCodec GetKvBlocksBatchReq,
          !RkyvCodec GetKvBlocksBatchResp, !RkyvCodec PutKvBlocksBatchReq, !RkyvCodec PutKvBlocksBatchResp}.
Context (duration_debug : Z -> str).
Abbreviation KvStore := (WombatKVKvStore S H).
Abbreviation Pr := (Proc S H R P Q I).
Abbreviation Env := (CallEnv S H R P Q).
Context (N : str -> str -> Prop) (content : str -> option bytes) (k0 : KvStore).
Context (K_files : forall x y, K N k0 x -> K N k0 y -> path_for_key x = path_for_key y -> x = y).

Abbreviation ok D := (store_ok N content k0 (has_objects k0 D)).

(** The handle at [a] is embedded over the store [k]. *)
Definition embedded_at (w : Pr) (a : positive) (k : KvStore) : Prop :=
  exists h jobs, heap w !! a = Some (LHandle h) /\ hd_backend h = Embedded k jobs.
Definition moved_to (w : Pr) (a : positive) (h : Handle S H R P Q I) (k : KvStore) (jobs : list AsyncPut) : Pr :=
  mkProc (<[a := LHandle (set_backend (Embedded k jobs) h)]> (heap w)) (brk w) None.

Lemma or_return_some {A B} (m : Act Pr (option A)) failed (k : A -> Act Pr B) w a :
  m w = Returns w (Some a) -> or_return m failed k w = k a w.
Proof. intros E. unfold or_return, act_bind. by rewrite E. Qed.
Lemma bind_returns {A B} (m : Act Pr A) (k : A -> Act Pr B) w w' a : m w = Returns w' a -> act_bind m k w = k a w'.
Proof. intros E. unfold act_bind. by rewrite E. Qed.
Lemma catch_returns {A} (m hd : Act Pr A) w w' a : m w = Returns w' a -> catch_unwind m hd w = Returns w' a.
Proof. intros E. unfold catch_unwind. by rewrite E. Qed.
Lemma handle_found a h (w : Pr) : heap w !! a = Some (LHandle h) -> handle_ref (Some a) (cleared w) = Returns (cleared w) (Some (a, h)).
Proof. intros E. cbn [handle_ref]. unfold act_bind, deref. cbn [heap cleared]. by rewrite E. Qed.
Lemma on_handle_returns {A} a h k jobs k' jobs' (act : Act (Backend S H R P Q) A) (w : Pr) r :
  hd_backend h = Embedded k jobs -> act (Embedded k jobs) = Returns (Embedded k' jobs') r ->
  on_handle a h act (cleared w) = Returns (moved_to w a h k' jobs') r.
Proof. intros Eb E. unfold on_handle. by rewrite Eb, E. Qed.

(** Publishing to three distinct cells of the caller returns. *)
Lemma publish_returns items p l o (w : Pr) :
  borrows_ok w -> (exists q, cell w p q) -> (exists q, cell w l q) -> (exists q, cell w o q) -> p <> l /\ l <> o /\ p <> o ->
  exists w', publish_borrowed_blocks items p l o w = Returns w' 1.
Proof.
  intros Hw Cp Cl Co (Hpl & Hlo & Hpo). unfold publish_borrowed_blocks.
  assert (forall (w1 : Pr) a q, (exists q0, cell w1 a q0) -> exists w2, write_ptr a q w1 = Returns w2 tt /\
            forall c, c <> a -> (exists q0, cell w1 c q0) -> exists q0, cell w2 c q0) as Hwrite.
  { intros w1 a q (q0 & t & E). unfold write_ptr, act_bind, deref. rewrite E. eexists. split; [reflexivity|].
    intros c Hc (q1 & t1 & E1). exists q1, t1. cbn. by rewrite lookup_insert_ne. }
  assert (forall (w1 : Pr) b a, borrows_ok w1 -> extends w w1 -> (exists q, cell w a q) -> exists q,
            cell (mkProc (<[brk w1 := b]> (heap w1)) (Pos.succ (brk w1)) (last_error w1)) a q) as Hkeep.
  { intros w1 b a Hw1 (Hle & _ & Hold) (q & t & E). exists q, t. cbn.
    pose proof (below_brk w Hw a ltac:(eauto)). rewrite lookup_insert_ne by lia. by rewrite Hold. }
  destruct (alloc_items_spec items w Hw) as (w1 & multi & E1 & Hw1 & X1 & _). rewrite (bind_returns _ _ _ _ _ E1).
  unfold act_bind at 1, alloc at 1. set (w2 := mkProc _ _ _). assert (borrows_ok w2) as Hw2 by (by apply (moves_alloc _ w1)).
  assert (extends w w2) as X2 by (etransitivity; [exact X1|apply extends_alloc]).
  unfold act_bind at 1, alloc at 1. set (w3 := mkProc _ _ _). assert (borrows_ok w3) as Hw3 by (by apply (moves_alloc _ w2)).
  assert (extends w w3) as X3 by (etransitivity; [exact X2|apply extends_alloc]).
  unfold act_bind at 1, alloc at 1. set (w4 := mkProc _ _ _).
  assert (forall a, (exists q, cell w a q) -> exists q, cell w4 a q) as H4 by (intros a Ha; by apply Hkeep).
  destruct (Hwrite w4 p (Some (brk w1)) (H4 p Cp)) as (w5 & E5 & F5). rewrite (bind_returns _ _ _ _ _ E5).
  destruct (Hwrite w5 l (Some (brk w2)) (F5 l (not_eq_sym Hpl) (H4 l Cl))) as (w6 & E6 & F6). rewrite (bind_returns _ _ _ _ _ E6).
  destruct (Hwrite w6 o (Some (brk w3))) as (w7 & E7 & _). { apply F6; [done|]. apply F5; [done|]. by apply H4. }
  rewrite (bind_returns _ _ _ _ _ E7). by eexists.
Qed.

(** The calls, given what they read. *)
Lemma put_call_returns (x : Env) a h ns hs ps ls k jobs s hashes payloads k' total (w : Pr) :
  heap w !! a = Some (LHandle h) -> hd_backend h = Embedded k jobs -> hashes <> [] -> length hashes = length payloads ->
  reads_str x ns w s -> reads_hashes x hs (len hashes) w hashes ->
  read_payloads x ps ls (length hashes) 0 (cleared w) = Returns (cleared w) (Ok payloads) ->
  embedded_put_blocks x s hashes payloads k = (k', Ok total) ->
  wmbt_kv_put_kv_blocks duration_debug x (Some a) ns hs (Some ps) (Some ls) (len hashes) w
    = Returns (moved_to w a h k' jobs) (Z.min total i64_max).
Proof.
  intros Ha Eb Hne Hlen Hns Hhs Hps E. unfold wmbt_kv_put_kv_blocks. rewrite (bind_returns clear_last_error _ w (cleared w) tt) by done.
  apply catch_returns. rewrite (or_return_some _ _ _ _ (a, h)) by (by apply handle_found).
  rewrite (or_return_some _ _ _ _ s) by exact Hns. rewrite (bind_returns _ _ _ _ _ Hhs). cbv beta iota.
  rewrite decide_False by (destruct hashes; [done|]; rewrite len_cons; pose proof (len_nonneg hashes); lia).
  assert (Z.to_nat (len hashes) = length hashes) as -> by (unfold len; lia).
  rewrite (bind_returns _ _ _ _ _ Hps). cbv beta iota.
  rewrite (bind_returns _ _ (cleared w) (moved_to w a h k' jobs) (Ok total)); [done|].
  apply (on_handle_returns a h k jobs); [done|]. unfold handle_put_kv_blocks. rewrite decide_False by lia.
  unfold backend_put_kv_blocks. by rewrite E.
Qed.
Lemma lookup_call_returns (x : Env) a h ns hs out eb el k jobs s hashes n l (w : Pr) :
  heap w !! a = Some (LHandle h) -> hd_backend h = Embedded k jobs -> heap w !! out = Some (CSizes (n :: l)) ->
  reads_str x ns w s -> reads_hashes x hs (len hashes) w hashes ->
  exists w', wmbt_kv_lookup_block_prefix duration_debug x (Some a) ns hs (len hashes) (Some out) eb el w = Returns w' 0 /\
    heap w' !! out = Some (CSizes (InMem.longest_prefix hashes (kv_index k) :: l)).
Proof.
  intros Ha Eb Hout Hns Hhs. unfold wmbt_kv_lookup_block_prefix. rewrite (bind_returns clear_last_error _ w (cleared w) tt) by done.
  set (m := InMem.longest_prefix _ _).
  assert (heap (moved_to w a h k jobs) !! out = Some (CSizes (n :: l))) as Hout1.
  { cbn [moved_to heap]. by rewrite lookup_insert_ne by (intros ->; congruence). }
  exists (set_heap (<[out := CSizes (m :: l)]> (heap (moved_to w a h k jobs))) (moved_to w a h k jobs)).
  split; [|cbn [heap set_heap]; by rewrite lookup_insert_eq].
  apply catch_returns. rewrite (or_return_some _ _ _ _ (a, h)) by (by apply handle_found).
  rewrite (or_return_some _ _ _ _ s) by exact Hns. rewrite (bind_returns _ _ _ _ _ Hhs). cbv beta iota.
  rewrite (bind_returns _ _ (cleared w) (moved_to w a h k jobs) (Ok m)) by (by apply (on_handle_returns a h k jobs)).
  cbv beta iota. unfold write_size, deref, act_bind at 1 2. by rewrite Hout1.
Qed.
Lemma get_call_returns (x : Env) a h ns hs p l o k jobs k' s hashes payloads (w : Pr) :
  heap w !! a = Some (LHandle h) -> hd_backend h = Embedded k jobs -> length payloads = length hashes ->
  reads_str x ns w s -> reads_hashes x hs (len hashes) w hashes ->
  embedded_get_many x s (map block_key_for_hash hashes) k = (k', Ok (Some (Owned (encode_bytes_batch payloads)))) ->
  decode_bytes_batch (encode_bytes_batch payloads) = Ok payloads ->
  wmbt_kv_get_kv_blocks_borrowed duration_debug x (Some a) ns hs (len hashes) (Some p) (Some l) (Some o) w
    = catch_unwind (publish_borrowed_blocks (map Owned payloads) p l o)
        (fail_with (lit "panic in wmbt_kv_get_kv_blocks_borrowed")) (moved_to w a h k' jobs).
Proof.
  intros Ha Eb Hlen Hns Hhs Eg Ed. unfold wmbt_kv_get_kv_blocks_borrowed. rewrite (bind_returns clear_last_error _ w (cleared w) tt) by done.
  unfold catch_unwind. rewrite (or_return_some _ _ _ _ (a, h)) by (by apply handle_found).
  rewrite (or_return_some _ _ _ _ s) by exact Hns. rewrite (bind_returns _ _ _ _ _ Hhs). cbv beta iota.
  rewrite (bind_returns _ _ (cleared w) (moved_to w a h k' jobs) (Ok (Some (map Owned payloads)))); [done|].
  apply (on_handle_returns a h k jobs); [done|]. unfold handle_get_kv_blocks, backend_get_kv_blocks, act_try, act_bind.
  unfold backend_get_many_kv_batch. rewrite Eg. cbv beta iota. cbn [batch_now bytes_now]. rewrite Ed. cbn [map_err].
  unfold res_bind. by rewrite decide_False by lia.
Qed.

(** What a caller reads through the arrays of a borrow. *)
Definition reads_back (y : Env) (w : Pr) (ptrs lens : positive) (payloads : list bytes) : Prop :=
  forall i b, payloads !! i = Some b ->
    exists c, read_ptr ptrs i w = Returns w (Some c) /\ read_size lens i w = Returns w (len b) /\
      read_bytes y c (len b) w = Returns w b.
Lemma gives_reads_back (y : Env) w r ptrs lens payloads :
  gives_blocks w r ptrs lens (map Owned payloads) -> reads_back y w ptrs lens payloads.
Proof.
  intros Hg i b Hi. destruct (gives_blocks_readable w r ptrs lens _ Hg i (Owned b)) as (c & E1 & E2 & E3).
  { by rewrite list_lookup_fmap, Hi. }
  exists c. split; [done|]. split; [done|]. by apply E3.
Qed.
(** The caller's pointers to the namespace and to the hashes, of a process with an
    embedded handle over [k]. *)
Record asks (y : Env) (w : Pr) (a : positive) (ns hs : option positive) (s : str) (hashes : list bytes) (k : KvStore) : Prop := mkAsks {
  ask_borrows : borrows_ok w; ask_handle : embedded_at w a k;
  ask_ns : reads_str y ns w s; ask_hashes : reads_hashes y hs (len hashes) w hashes
}.
Lemma moved_ok w a h k k' jobs jobs' :
  heap w !! a = Some (LHandle h) -> hd_backend h = Embedded k jobs -> borrows_ok w -> borrows_ok (moved_to w a h k' jobs').
Proof.
  intros Ha Eb Hw. apply (moves_handle a h (set_backend (Embedded k' jobs') h) w); [done|reflexivity|reflexivity|done].
Qed.
Lemma lookup_finds D (y : Env) w a ns hs s hashes k out eb el n l :
  stored N content k0 D hashes k -> asks y w a ns hs s hashes k -> heap w !! out = Some (CSizes (n :: l)) ->
  exists w', wmbt_kv_lookup_block_prefix duration_debug y (Some a) ns hs (len hashes) (Some out) eb el w = Returns w' 0 /\
    heap w' !! out = Some (CSizes (len hashes :: l)).
Proof.
  intros [_ Hi] [_ (h & jobs & Ha & Eb) Hns Hhs] Ho.
  destruct (lookup_call_returns y a h ns hs out eb el k jobs s hashes n l w Ha Eb Ho Hns Hhs) as (w' & E & Hw').
  exists w'. split; [done|]. rewrite Hw'. unfold InMem.longest_prefix. by rewrite longest_prefix_loop_count, prefix_count_all.
Qed.
Lemma get_brings D (y : Env) w a ns hs s hashes payloads k p l o :
  Forall2 (good_block N content k0 s) hashes payloads -> len hashes <= u32_max -> len (encode_bytes_batch payloads) <= u64_max ->
  stored N content k0 (names s hashes ++ D) hashes k -> asks y w a ns hs s hashes k ->
  (exists q, cell w p q) -> (exists q, cell w l q) -> (exists q, cell w o q) -> p <> l /\ l <> o /\ p <> o ->
  exists w' r ptrs lens,
    wmbt_kv_get_kv_blocks_borrowed duration_debug y (Some a) ns hs (len hashes) (Some p) (Some l) (Some o) w = Returns w' 1 /\
    cell w' p (Some ptrs) /\ cell w' l (Some lens) /\ cell w' o (Some r) /\ reads_back y w' ptrs lens payloads.
Proof.
  intros HF Hn Hb Hk [Hw (h & jobs & Ha & Eb) Hns Hhs] Cp Cl Co Hne.
  destruct (get_blocks_stored N content k0 K_files D y s hashes payloads k HF Hn Hb Hk) as (k' & Eg & _ & Ed).
  pose proof (Forall2_length _ _ _ HF) as Hlen.
  pose proof (moved_ok w a h k k' jobs jobs Ha Eb Hw) as Hw1.
  assert (forall c, (exists q, cell w c q) -> exists q, cell (moved_to w a h k' jobs) c q) as Hc.
  { intros c (q & t & E). exists q, t. cbn [moved_to heap]. by rewrite lookup_insert_ne by (intros ->; congruence). }
  destruct (publish_returns (map Owned payloads) p l o (moved_to w a h k' jobs)) as (w' & Ep); auto.
  pose proof (publish_blocks_spec (map Owned payloads) p l o _ Hw1) as Hs. unfold wp in Hs. rewrite Ep in Hs.
  destruct Hs as (_ & _ & Hs). destruct (Hs Hne) as (r & ptrs & lens & C1 & C2 & C3 & Hg).
  exists w', r, ptrs, lens. split; [|eauto using gives_reads_back].
  rewrite (get_call_returns y a h ns hs p l o k jobs k' s hashes payloads w) by done. by apply catch_returns.
Qed.

End Exported.

(** ** A concrete process

    An embedded handle at 1; the caller's namespace, hash and payload, the arrays
    that point to them, and cells for results. *)
Import DaemonSpec.Sample.
Module SampleCabi.
#[export] Existing Instance sum_crc.
Definition u64_codec : RkyvCodec PutKvBlocksBatchResp := {|
  rkyv_to_bytes := @rkyv_to_bytes _ countable_codec;
  rkyv_from_bytes b :=
    match @rkyv_from_bytes _ countable_codec b with
    | Ok r => if decide (0 <= total_bytes r <= u64_max) then Ok r else Err (lit "bad archive")
    | Err e => Err e
    end
|}.
#[export] Existing Instance u64_codec | 0.
Abbreviation SLink := (Link InMemoryObjectStore MapCache InMemoryMetadataIndex).
Abbreviation STcp := (Session (St := nat)).
Abbreviation SHttp := (HttpSession (St := nat)).
#[export] Instance sample_peer : Peer STcp := session_peer echo 7.
#[export] Instance sample_endpoint : Endpoint SHttp := session_endpoint echo 7 (fun _ b => [b]).
Definition hash : bytes := replicate 32 xab.
Definition block_names (ns key : str) : Prop := ns = lit "ns" /\ key = block_key_for_hash hash.
Definition block_content (k : str) : option bytes :=
  if decide (k = object_key sample_store (lit "ns") (block_key_for_hash hash)) then Some (lit "payload") else None.
Definition duration (_ : Z) : str := [].
Abbreviation SEnv := (CallEnv InMemoryObjectStore MapCache SLink STcp SHttp).
Abbreviation SProc := (Proc InMemoryObjectStore MapCache SLink STcp SHttp InMemoryMetadataIndex).
Definition call_env : SEnv := mkCallEnv (fun _ => None) true [] (fun _ => 7) [] (fun b => b).
Definition handle (k : WombatKVKvStore InMemoryObjectStore MapCache)
  : Handle InMemoryObjectStore MapCache SLink STcp SHttp InMemoryMetadataIndex := mkHandle (Embedded k []) (lit "ns") None None.
Definition process (k : WombatKVKvStore InMemoryObjectStore MapCache) : SProc :=
  mkProc (list_to_map [(1%positive, LHandle (handle k));
                       (2%positive, CBytes (lit "ns" ++ [NUL])); (3%positive, CPtrs [Some 4%positive]);
                       (4%positive, CBytes (hex_lower hash ++ [NUL])); (5%positive, CPtrs [Some 6%positive]);
                       (6%positive, CBytes (lit "payload")); (7%positive, CSizes [7]);
                       (8%positive, CPtrs [None]); (9%positive, CPtrs [None]); (10%positive, CPtrs [None]);
                       (11%positive, CBytes (replicate 8 x00))]) 12 None.
End SampleCabi.
Import SampleCabi.

Lemma u64_codec_total b r : decode_put_kv_blocks_batch_resp b = Ok r -> in_u64 (total_bytes r).
Proof.
  unfold decode_put_kv_blocks_batch_resp, rkyv_decode_with_magic. unfold res_bind, map_err.
  destruct (expect_magic _ _ _); [|done]. cbn [rkyv_from_bytes u64_codec].
  destruct (rkyv_from_bytes _); [|done]. case_decide; [|done]. by intros [= <-].
Qed.

Lemma process_ok k : borrows_ok (process k).
Proof.
  assert (forall a o, heap (process k) !! a = Some o -> (a < 12)%positive /\ forall b, o <> LBorrow b) as Hall.
  { intros a o Ha. apply elem_of_list_to_map_2 in Ha.
    repeat (apply elem_of_cons in Ha as [[= -> ->]|Ha]; [split; [lia|discriminate]|]). by apply elem_of_nil in Ha. }
  split.
  - intros a [o Ha]. by destruct (Hall a o Ha).
  - intros r b a Hr. by destruct (proj2 (Hall r _ Hr) b).
  - intros r b Hr. by destruct (proj2 (Hall r _ Hr) b).
  - intros r r' b b' a Hr. by destruct (proj2 (Hall r _ Hr) b).
Qed.

(** A call that gives [n] in a state that passes a test. *)
Definition gives {St} (o : outcome St Z) (n : Z) (test : St -> bool) : bool :=
  match o with Returns s a => bool_decide (a = n) && test s | _ => false end.
Lemma gives_returns {St} (o : outcome St Z) n test : gives o n test = true -> exists s, o = Returns s n /\ test s = true.
Proof. destruct o; cbn [gives]; [|done..]. intros [<-%bool_decide_eq_true ?]%andb_true_iff. eauto. Qed.
Definition holds_bytes (a : positive) (b : bytes) (w : SProc) : bool :=
  match heap w !! a with Some (CBytes b') => bool_decide (b' = b) | _ => false end.


(** The store after the payload was put. *)
Definition with_block : WombatKVKvStore InMemoryObjectStore MapCache :=
  fst (put_kv (lit "ns") (block_key_for_hash hash) (lit "payload") sample_store).
Lemma borrows_stay_valid_witness :
  exists w', wmbt_kv_get_kv_blocks_borrowed duration call_env (Some 1%positive) (Some 2%positive) (Some 3%positive) 1
               (Some 8%positive) (Some 9%positive) (Some 10%positive) (process with_block) = Returns w' 1 /\
    exists r ptrs lens items, cell w' 8 (Some ptrs) /\ cell w' 9 (Some lens) /\ cell w' 10 (Some r) /\
      forall w2, rtc (other_step SampleClient.hash32 duration r) w' w2 ->
        readable w2 ptrs lens items /\ exists w3, wmbt_kv_release_borrow (Some r) w2 = Returns w3 tt.
Proof.
  assert (exists w', wmbt_kv_get_kv_blocks_borrowed duration call_env (Some 1%positive) (Some 2%positive) (Some 3%positive) 1
               (Some 8%positive) (Some 9%positive) (Some 10%positive) (process with_block) = Returns w' 1) as (w' & E).
  { refine (let '(ex_intro _ w' (conj E _)) := gives_returns (wmbt_kv_get_kv_blocks_borrowed duration call_env (Some 1%positive)
      (Some 2%positive) (Some 3%positive) 1 (Some 8%positive) (Some 9%positive) (Some 10%positive) (process with_block))
      1 (fun _ => true) _ in ex_intro _ w' E). vm_compute. reflexivity. }
  exists w'. split; [exact E|]. pose proof (process_ok with_block) as Hw. revert Hw E. generalize (process with_block). intros w Hw E.
  destruct (borrows_stay_valid SampleClient.hash32 duration u64_codec_total call_env (Some 1%positive) (Some 2%positive)
              (Some 3%positive) 1 8 9 10 w w' Hw ltac:(done) E)
    as (s & hashes & items & w1 & r & ptrs & lens & _ & C1 & C2 & C3 & Hr).
  exists r, ptrs, lens, items. auto.
Defined.

Lemma block_put_ok : good_block block_names block_content sample_store (lit "ns") hash (lit "payload").
Proof.
  split; [split|vm_compute; discriminate]; [|vm_compute; reflexivity]. split; [done|]. split; [vm_compute; reflexivity|discriminate].
Qed.
(** What an action that only looks gives. *)
Definition answer {St A} (o : outcome St A) : option A := match o with Returns _ a => Some a | _ => None end.
Lemma looks_answer {St A} (m : Act St A) w a : looks m -> answer (m w) = Some a -> m w = Returns w a.
Proof. intros Hm. specialize (Hm w). unfold wp in Hm. destruct (m w); [|done..]. subst. by intros [= ->]. Qed.
(** The caller's strings, as the call reads them. *)
Lemma process_reads k :
  reads_str call_env (Some 2%positive) (process k) (lit "ns") /\
  reads_hashes call_env (Some 3%positive) 1 (process k) [hash] /\
  read_payloads call_env 5 7 1 0 (cleared (process k)) = Returns (cleared (process k)) (Ok [lit "payload"]).
Proof.
  split; [|split].
  - pose proof (cstr_refuses (I := InMemoryMetadataIndex) call_env (Some 2%positive) (cleared (process k))) as Hm.
    assert (answer (cstr_to_str call_env (Some 2%positive) (cleared (process k))) = Some (Some (lit "ns"))) as E
      by (vm_compute; reflexivity).
    unfold reads_str. unfold wp in Hm. destruct (cstr_to_str _ _ _) as [w' r| | |]; [|done..].
    injection E as ->. by destruct Hm as [-> _].
  - apply looks_answer; [apply looks_hash_array|vm_compute; reflexivity].
  - apply looks_answer; [apply looks_read_payloads|vm_compute; reflexivity].
Qed.
