(* ===== verification/CabiInit.v ===== *)
(** * The C ABI: making handles ([wombatkv-cabi], [config.rs] and [ffi.rs])

    Models [CabiConfig], [Handle::from_env] with the workers it starts, the
    handles for a remote daemon, and the exported functions that make handles, over
    the S3 store, SlateDB and the clients of the daemon.

    What the outside world answers while a handle is made (directories, sockets,
    libraries) is the record [Outside]; the store capabilities known to the process
    are state, since every handle shares them.  [init_chooses_backend] says which
    handle an environment leads to, and that nothing is left behind by a failure. *)

From S2P Require Import SlateMeta.
From S2P Require Import Prelude Order Text Strings Radix Hex BlockMeta ObjectStore Compression BlobCache Foyer Lru Embed.
From S2P Require Import Prefetch Envelope Wire Arena Fanout Rpc Daemon Client Tcp Http Lifecycle S3 Cabi CabiSpec.

(** ** [config.rs] *)
Definition env_nonempty (env : str -> option str) (key : str) : option str :=
  match env key with Some ((_ :: _) as s) => Some s | _ => None end.
Definition env_parse_u64 (env : str -> option str) (key : str) : option Z := env key ≫= parse_u64.

Record CabiConfig := mkCabiConfig {
  cc_namespace : str; cc_remote_prefix : option str; cc_tcp_addr : option str; cc_http_addr : option str;
  cc_puffer_dir : option str; cc_puffer_ram_bytes : option Z; cc_puffer_disk_bytes : option Z;
  cc_puffer_block_size_bytes : option Z; cc_s3_prefix : option str; cc_slatedb_path : option str
}.
Definition cabi_config_from_env (env : str -> option str) : CabiConfig :=
  mkCabiConfig (default [] (env (lit "WMBT_KV_NAMESPACE"))) (env_nonempty env (lit "WMBT_KV_REMOTE_PREFIX"))
    (env_nonempty env (lit "WMBT_KV_TCP_ADDR")) (env_nonempty env (lit "WMBT_KV_HTTP_ADDR"))
    (env_nonempty env (lit "WMBT_KV_PUFFER_DIR")) (env_parse_u64 env (lit "WMBT_KV_PUFFER_RAM_BYTES"))
    (env_parse_u64 env (lit "WMBT_KV_PUFFER_DISK_BYTES")) (env_parse_u64 env (lit "WMBT_KV_PUFFER_BLOCK_SIZE_BYTES"))
    (env_nonempty env (lit "WMBT_KV_S3_PREFIX")) (env_nonempty env (lit "WMBT_KV_SLATEDB_PATH")).

(** ** Defaults *)
Definition DEFAULT_FOYER_DIR : str := lit "/tmp/wombatkv-cabi-foyer".
Definition DEFAULT_S3_PREFIX : str := lit "kv/cabi".
Definition DEFAULT_NAMESPACE : str := lit "default".
Definition DEFAULT_PREFETCH_INTERVAL_MS : Z := 30000.

(** [dir.join(name)]: an absolute name stands alone. *)
Definition join_path (dir name : str) : str := if starts_with (lit "/") name then name else path_join dir name.
Definition default_puffer_dir (env : str -> option str) (create_dir_all : str -> result unit str) : str :=
  match env_nonempty env (lit "HOME") with
  | None => DEFAULT_FOYER_DIR
  | Some home =>
      let candidate := join_path (join_path home (lit ".wombatkv")) (lit "puffer") in
      match create_dir_all candidate with Ok _ => candidate | Err _ => DEFAULT_FOYER_DIR end
  end.
Definition hostname_or_default (env : str -> option str) : str :=
  match (match env (lit "HOSTNAME") with Some h => Some h | None => env (lit "COMPUTERNAME") end) with
  | Some ((_ :: _) as name) => name
  | _ => lit "default-node"
  end.
Definition model_digest_from_env (env : str -> option str) : bytes :=
  match env (lit "WMBT_KV_FINGERPRINT24") with
  | None => replicate 24 x00
  | Some hex =>
      if decide (len hex <> 48) then replicate 24 x00 else default (replicate 24 x00) (decode_pairs decode_hex_nibble hex)
  end.
Definition remote_client_options_from_env (env : str -> option str) : ClientOptions :=
  let depth := default (op_depth default_options) (env_parse_u64 env (lit "WMBT_KV_DAEMON_SHM_DEPTH")) in
  let timeout := match env_parse_u64 env (lit "WMBT_KV_REMOTE_CALL_TIMEOUT_MS") with
                 | Some ms => Some ms
                 | None => env_parse_u64 env (lit "WMBT_KV_DAEMON_SHM_CALL_TIMEOUT_MS")
                 end in
  mkOptions (match timeout with Some ms => ms | None => op_call_timeout default_options end) depth.

(** The workers, as [Handle] records them. *)
Definition prefetch_worker_from_env (env : str -> option str) (namespace : str) : option (PrefetchConfig * bool) :=
  let interval_ms := default DEFAULT_PREFETCH_INTERVAL_MS (env_parse_u64 env (lit "WMBT_KV_PREFETCH_INTERVAL_MS")) in
  if decide (interval_ms = 0) then None else
  let top_k := default 64 (env_parse_u64 env (lit "WMBT_KV_PREFETCH_TOP_K")) in
  Some (mkPrefetchConfig interval_ms (Z.to_nat top_k) (model_digest_from_env env) namespace, dry_run_enabled env).
Definition eviction_worker_from_env {I} (env : str -> option str) (namespace : str) (slatedb : option I) : option (LruConfig * option I) :=
  option_map (fun cfg => (cfg, slatedb)) (lru_from_env env namespace).

Section Init.
Context {H : Type} {B : Type} `{!Bucket B} {D : Type} `{!SlateMeta.SlateDb D} `{!SlateMeta.Rkyv} `{!HybridCache H} `{!Zstd}
  {R : Type} {P : Type} {Q : Type} `{!Texts}.
Context (duration_debug : Z -> str).
Abbreviation S3 := (S3ObjectStore B).
Abbreviation Slate := (@SlateMeta.SlateDbMetadataIndex D).
Abbreviation H' := (Handle S3 H R P Q Slate).
Abbreviation KvStore := (WombatKVKvStore S3 H).

(** What the outside world answers while a handle is made, the clock included. *)
Record Outside := mkOutside {
  o_env : str -> option str;
  o_create_dir_all : str -> result unit str;
  (** the daemon's rings and segments: see [connect_with_options] *)
  o_worker : result unit str; o_heartbeat : result unit str; o_rings : list (result R str * Z); o_now : Z;
  o_arena : str -> result ArenaReader ArenaError; o_discovered : bool;
  (** the addresses a host resolves to, with the outcome of each attempt *)
  o_tcp : str -> result (list (result P IoError * result unit IoError)) IoError;
  o_http : str -> result (list (result Q IoError * result unit IoError)) IoError;
  (** the bucket, and the order the warm-up requests run in *)
  o_credentials : result unit str; o_bucket : S3ObjectStoreConfig -> result B str; o_runtime : result unit str; o_run : nat -> list nat;
  o_probe_ns : Z;
  (** the directory of the flat cache, and what foyer meets *)
  o_disk : str -> FlatFileKvBlobCache; o_foyer_parent : result unit str; o_foyer_dir : result unit str; o_foyer_runtime : result unit str;
  (** SlateDB at a directory *)
  o_local_store : str -> result unit str; o_slate_runtime : result unit str; o_open_db : str -> str -> result D str
}.
Context (o : Outside).
Abbreviation env := (o_env o).
Abbreviation Making := (Act CapabilityCache).

(** [SlateDbMetadataIndex::open_local]: the outer error is a panic. *)
Definition open_local (root node_id namespace : str) : result (result Slate SlateMeta.SlateDbMetaError) str :=
  let node_root := join_path root node_id in
  match o_create_dir_all o node_root with
  | Err e => Ok (Err (SlateMeta.SlateIo e))
  | Ok _ =>
      match o_local_store o node_root with
      | Err e => Ok (Err (SlateMeta.SlateObjectStore e))
      | Ok _ => SlateMeta.open_with_object_store (o_slate_runtime o) (o_open_db o node_root) (lit "slatedb") node_id namespace
      end
  end.

Definition remote_handle (b : Backend S3 H R P Q) (namespace : str) : H' := mkHandle b namespace None None.
Definition from_kvstore (kvstore : KvStore) (namespace : str) : H' := mkHandle (Embedded kvstore []) namespace None None.

(** [from_env_tcp] and [from_env_http] *)
Definition env_namespace : str := default DEFAULT_NAMESPACE (env (lit "WMBT_KV_NAMESPACE")).
Definition from_env_tcp (addr : str) : result H' str :=
  let? client := map_err (fun err => lit "TcpKvClient::connect(" ++ addr ++ lit "): " ++ tcp_client_error_display err)
                   (connect_with_timeout (o_tcp o addr)) in
  Ok (remote_handle (RemoteTcp client) env_namespace).
Definition from_env_http (addr : str) : result H' str :=
  let? client := map_err (fun err => lit "HttpKvClient::connect(" ++ addr ++ lit "): " ++ http_client_error_display err)
                   (http_connect_with_timeout addr (o_http o addr)) in
  Ok (remote_handle (RemoteHttp client) env_namespace).
Definition from_env_remote (namespace prefix : str) : Making (result H' str) :=
  fun cache =>
    match connect_with_options (remote_client_options_from_env env) env prefix (o_worker o) (o_heartbeat o) (o_rings o) (o_now o)
            (o_arena o) (o_discovered o) with
    | None => Waits
    | Some r =>
        Returns cache
          (let? client := map_err (fun err => lit "RemoteKvStoreClient::connect(" ++ prefix ++ lit "): "
                                              ++ remote_error_display duration_debug err) r in
           Ok (remote_handle (Remote client) namespace))
    end.

(** The embedded store of [from_env], before its index is filled. *)
Definition puffer_config (cfg : CabiConfig) : FoyerCacheConfig :=
  let foyer := default_foyer_config in
  mkFoyerCacheConfig (default (ram_bytes foyer) (cc_puffer_ram_bytes cfg))
    (match cc_puffer_dir cfg with Some dir => dir | None => default_puffer_dir env (o_create_dir_all o) end)
    (default (ssd_bytes foyer) (cc_puffer_disk_bytes cfg)) (default (block_size foyer) (cc_puffer_block_size_bytes cfg))
    (buffer_pool_size foyer) false.
Definition open_s3 : Making (result S3 str) :=
  fun cache =>
    match map_err (fun err => lit "S3 config: " ++ wal_error_debug err) (s3_config_from_env env) with
    | Err msg => Returns cache (Err msg)
    | Ok s3_cfg =>
        match map_err (fun err => lit "S3 new: " ++ wal_error_debug err)
                (s3_new env (o_credentials o) (o_bucket o s3_cfg) (o_runtime o) (o_run o) s3_cfg) with
        | Err msg => Returns cache (Err msg)
        | Ok s3 =>
            let '((cache, s3), r) := ensure_bucket (o_probe_ns o) (cache, s3) in
            Returns cache (let? _ := map_err (fun err => lit "ensure_bucket: " ++ wal_error_debug err) r in Ok s3)
        end
    end.
Definition open_store (cfg : CabiConfig) (s3 : S3) : result KvStore str :=
  let foyer := puffer_config cfg in
  let config := mkEmbedConfig (default DEFAULT_S3_PREFIX (cc_s3_prefix cfg)) foyer true (Compression.from_env env) in
  map_err (fun err => lit "WombatKVKvStore::new: " ++ embed_text err)
    (kv_new config s3 (o_disk o (join_path (ssd_dir foyer) (lit "_flat"))) (o_foyer_parent o) (o_foyer_dir o) (o_foyer_runtime o)).
(** SlateDB, and the index filled from it: a panic, or an open index or none. *)
Definition open_slatedb (cfg : CabiConfig) (namespace : str) (store : KvStore) : result (KvStore * option Slate) str :=
  let root := match cc_slatedb_path cfg with Some p => p | None => join_path (ssd_dir (puffer_config cfg)) (lit "slatedb") end in
  let node_id := match env (lit "MYELON_NODE_ID") with Some id => id | None => hostname_or_default env end in
  let? opened := open_local root node_id namespace in
  match opened with
  | Err _ => Ok (store, None)
  | Ok slatedb => let '((store, slatedb), r) := bootstrap_from_slatedb (store, slatedb) in let? _ := r in Ok (store, Some slatedb)
  end.
Definition from_env_embedded (cfg : CabiConfig) (namespace : str) : Making (result H' str) :=
  act_try open_s3 (fun s3 cache =>
    match open_store cfg s3 with
    | Err msg => Returns cache (Err msg)
    | Ok store =>
        match open_slatedb cfg namespace store with
        | Err _ => Panics cache
        | Ok (store, slatedb) =>
            let (store, _) := bootstrap_world_knowledge (o_now o) namespace store in
            Returns cache (Ok (mkHandle (Embedded store []) namespace (prefetch_worker_from_env env namespace)
                                 (eviction_worker_from_env env namespace slatedb)))
        end
    end).

(** [Handle::from_env]; the banner and the warnings only print. *)
Definition handle_from_env : Making (result H' str) :=
  let cfg := cabi_config_from_env env in
  let namespace := match cc_namespace cfg with [] => DEFAULT_NAMESPACE | ns => ns end in
  match cc_remote_prefix cfg with
  | Some prefix => from_env_remote namespace prefix
  | None =>
      match cc_tcp_addr cfg with
      | Some addr => act_ret (from_env_tcp addr)
      | None =>
          match cc_http_addr cfg with
          | Some addr => act_ret (from_env_http addr)
          | None => from_env_embedded cfg namespace
          end
      end
  end.

(** ** The exported functions *)
Abbreviation Pr := (Proc S3 H R P Q Slate).
Abbreviation Ptr := (option positive).
Definition publish_handle (r : result H' str) : Act Pr Ptr :=
  match r with
  | Ok h => let* a := alloc (LHandle h) in act_ret (Some a)
  | Err msg => let* _ := set_last_error msg in act_ret None
  end.
Definition null_with (msg : str) : Act Pr Ptr := let* _ := set_last_error msg in act_ret None.
(** An action of the process that also has the capabilities at hand. *)
Definition on_proc {A} (m : Act Pr A) : Act (CapabilityCache * Pr) A :=
  fun '(cache, w) => match m w with
                     | Returns w a => Returns (cache, w) a
                     | Panics w => Panics (cache, w)
                     | Waits => Waits
                     | Undefined => Undefined
                     end.
Definition on_cache {A} (m : Making A) : Act (CapabilityCache * Pr) A :=
  fun '(cache, w) => match m cache with
                     | Returns cache a => Returns (cache, w) a
                     | Panics cache => Panics (cache, w)
                     | Waits => Waits
                     | Undefined => Undefined
                     end.
Definition wmbt_kv_init_from_env : Act (CapabilityCache * Pr) Ptr :=
  let* _ := on_proc clear_last_error in
  catch_unwind (let* r := on_cache handle_from_env in on_proc (publish_handle r))
    (on_proc (null_with (lit "panic in wmbt_kv_init_from_env"))).

(** [wmbt_kv_open_tcp] and [wmbt_kv_open_http] *)
Definition open_with (name : str) (make : str -> result H' str) (x : CallEnv S3 H R P Q) (addr : Ptr) : Act Pr Ptr :=
  let* _ := clear_last_error in
  match addr with
  | None => null_with (name ++ lit ": addr is NULL")
  | Some a =>
      catch_unwind
        (let* s := read_cstr x a in
         if negb (utf8_valid s) then null_with (name ++ lit ": addr not utf-8: " ++ utf8_error_text s) else publish_handle (make s))
        (null_with (lit "panic in " ++ name))
  end.
Definition wmbt_kv_open_tcp := open_with (lit "wmbt_kv_open_tcp") from_env_tcp.
Definition wmbt_kv_open_http := open_with (lit "wmbt_kv_open_http") from_env_http.

(** ** Which handle an environment leads to *)
Inductive Kind := KindShm | KindTcp | KindHttp | KindEmbedded.
Definition backend_kind (b : Backend S3 H R P Q) : Kind :=
  match b with Embedded _ _ => KindEmbedded | Remote _ => KindShm | RemoteTcp _ => KindTcp | RemoteHttp _ => KindHttp end.
Definition is_set (name : str) : bool := match env name with Some (_ :: _) => true | _ => false end.
Definition asked_kind : Kind :=
  if is_set (lit "WMBT_KV_REMOTE_PREFIX") then KindShm
  else if is_set (lit "WMBT_KV_TCP_ADDR") then KindTcp
  else if is_set (lit "WMBT_KV_HTTP_ADDR") then KindHttp else KindEmbedded.
Definition asked_namespace : str :=
  match env (lit "WMBT_KV_NAMESPACE"), asked_kind with
  | None, _ | Some [], KindShm | Some [], KindEmbedded => DEFAULT_NAMESPACE
  | Some ns, _ => ns
  end.
(** An embedded store as the environment describes it. *)
Definition as_asked (k : KvStore) : Prop :=
  kv_s3_prefix k = default DEFAULT_S3_PREFIX (env_nonempty env (lit "WMBT_KV_S3_PREFIX")) /\
  kv_write_through_s3 k = true /\ kv_compression k = Compression.from_env env /\
  env (lit "WMBT_KV_BUCKET") = Some (s3_bucket_name (kv_object_store k)).
Definition handle_as_asked (h : H') : Prop :=
  backend_kind (hd_backend h) = asked_kind /\ hd_namespace h = asked_namespace /\
  match hd_backend h with
  | Embedded k jobs =>
      jobs = [] /\ as_asked k /\ hd_prefetch_worker h = prefetch_worker_from_env env (hd_namespace h) /\
      fst <$> hd_eviction_worker h = lru_from_env env (hd_namespace h)
  | _ => hd_prefetch_worker h = None /\ hd_eviction_worker h = None
  end.

Lemma set_nonempty name : is_set name = bool_decide (is_Some (env_nonempty env name)).
Proof. unfold is_set, env_nonempty. destruct (env name) as [[|]|]; reflexivity. Qed.

(** Filling the index keeps the settings of the store. *)
Lemma get_kv_asked ns key k : as_asked k -> as_asked (fst (get_kv ns key k)).
Proof.
  intros (Hp & Hw & Hc & Hb). pose proof (get_kv_meta ns key k) as Em.
  assert (s3_bucket_name (kv_object_store (fst (get_kv ns key k))) = s3_bucket_name (kv_object_store k)) as En.
  { unfold get_kv. destruct (flat_get _ _) as [c1 [[v1 l1]|]]; [done|]. destruct (foyer_get_with_tier _ _) as [f1 [[v2 t2]|]]; [done|].
    set (k2 := set_foyer f1 _). pose proof (named_get (object_key k2 ns key) (kv_object_store k2)) as Hn.
    change (get_object (object_key k2 ns key)) with (s3_get_object (B := B) (object_key k2 ns key)).
    destruct (s3_get_object _ _) as [s1 [b|[]]]; exact Hn. }
  injection Em as E1 E2 E3 _. unfold as_asked. rewrite E1, E2, E3, En. done.
Qed.
Lemma prewarm_asked ns keys k : as_asked k -> as_asked (prewarm ns keys k).
Proof. revert k. induction keys as [|key keys IH]; intros k Hk; cbn [prewarm]; [done|]. by apply IH, get_kv_asked. Qed.
Lemma bootstrap_asked now ns k : as_asked k -> as_asked (fst (bootstrap_world_knowledge now ns k)).
Proof.
  intros Hk. unfold bootstrap_world_knowledge, on_store.
  pose proof (named_list (namespace_prefix k ns) (kv_object_store k)) as Hn.
  change (list_prefix (namespace_prefix k ns)) with (s3_list_prefix (B := B) (namespace_prefix k ns)).
  destruct (s3_list_prefix _ _) as [s1 [keys|e]]; cbn [map_err fst] in *.
  - destruct (index_keys _ _ _ _ _ _) as [[[i b] sc] sk]. apply prewarm_asked. destruct Hk as (? & ? & ? & ?).
    do 3 (split; [done|]). cbn. by rewrite Hn.
  - destruct Hk as (? & ? & ? & ?). do 3 (split; [done|]). cbn. by rewrite Hn.
Qed.

Lemma open_s3_asked cache :
  match open_s3 cache with
  | Returns _ (Ok s3) => env (lit "WMBT_KV_BUCKET") = Some (s3_bucket_name s3)
  | Returns _ (Err _) => True
  | _ => False
  end.
Proof.
  unfold open_s3. destruct (s3_config_from_env env) as [cfg|e] eqn:Ec; cbn [map_err]; [|done].
  destruct (s3_new _ _ _ _ _ _) as [s3|e] eqn:En; cbn [map_err]; [|done].
  destruct (s3_config_ok env cfg Ec) as (Hb & _). destruct (s3_new_ok _ _ _ _ _ _ _ En) as (Hs & _).
  pose proof (named_ensure (o_probe_ns o) cache s3) as Hn.
  destruct (ensure_bucket (o_probe_ns o) (cache, s3)) as [[cache1 s31] [[]|e]]; cbn [map_err res_bind fst snd] in *; [|done]. congruence.
Qed.
Lemma open_store_asked cfg s3 k :
  cfg = cabi_config_from_env env -> env (lit "WMBT_KV_BUCKET") = Some (s3_bucket_name s3) -> open_store cfg s3 = Ok k -> as_asked k.
Proof.
  intros -> Hb. unfold open_store, kv_new. cbn [ec_s3_prefix ec_foyer ec_write_through_s3 ec_compression].
  case_decide; [done|]. unfold res_bind, map_err. destruct (flat_open _); [|done]. destruct (foyer_open _ _ _ _); [|done].
  by intros <-%Ok_inj.
Qed.
Lemma open_slatedb_asked cfg ns k k' db : as_asked k -> open_slatedb cfg ns k = Ok (k', db) -> as_asked k'.
Proof.
  intros Hk. unfold open_slatedb, res_bind at 1. destruct (open_local _ _ _) as [[db0|e]|e]; [| |done].
  - unfold bootstrap_from_slatedb. destruct (idx_entries db0) as [db1 [es|e]]; cbn [res_bind]; [|done]. by intros [= <- <-].
  - by intros [= <- <-].
Qed.

Definition made (r : result H' str) : Prop := match r with Ok h => handle_as_asked h | Err _ => True end.
Lemma tcp_made addr : asked_kind = KindTcp -> made (from_env_tcp addr).
Proof.
  intros Hk. unfold from_env_tcp, res_bind, map_err. destruct (connect_with_timeout _) as [c|e]; [|done].
  split; [done|]. split; [|done]. cbn. unfold asked_namespace, env_namespace. rewrite Hk. by destruct (env _) as [[|]|].
Qed.
Lemma http_made addr : asked_kind = KindHttp -> made (from_env_http addr).
Proof.
  intros Hk. unfold from_env_http, res_bind, map_err. destruct (http_connect_with_timeout _ _) as [c|e]; [|done].
  split; [done|]. split; [|done]. cbn. unfold asked_namespace, env_namespace. rewrite Hk. by destruct (env _) as [[|]|].
Qed.
Lemma embedded_made cfg cache :
  cfg = cabi_config_from_env env -> asked_kind = KindEmbedded ->
  match from_env_embedded cfg asked_namespace cache with Returns _ r => made r | Panics _ => True | _ => False end.
Proof.
  intros Ecfg Hk. unfold from_env_embedded, act_try, act_bind. pose proof (open_s3_asked cache) as Hs.
  destruct (open_s3 cache) as [cache1 [s3|e]| | |]; [|done..].
  destruct (open_store cfg s3) as [k|e] eqn:Eo; [|done]. apply open_store_asked in Eo; [|done|done].
  destruct (open_slatedb cfg asked_namespace k) as [[k1 db]|e] eqn:Ed; [|done]. apply open_slatedb_asked in Ed; [|done].
  pose proof (bootstrap_asked (o_now o) asked_namespace k1 Ed) as Hb.
  destruct (bootstrap_world_knowledge _ _ _) as [k2 r]. cbn [fst] in Hb. split; [done|]. split; [done|]. cbn.
  do 3 (split; [done|]). unfold eviction_worker_from_env. by destruct (lru_from_env _ _).
Qed.

(** [from_env] makes the handle the environment asks for, refuses, panics while it
    opens the embedded store, or waits for the daemon's rings. *)
Lemma handle_from_env_made cache :
  match handle_from_env cache with
  | Returns _ r => made r
  | Panics _ => asked_kind = KindEmbedded
  | Waits => asked_kind = KindShm
  | Undefined => False
  end.
Proof.
  unfold handle_from_env.
  change (cc_remote_prefix (cabi_config_from_env env)) with (env_nonempty env (lit "WMBT_KV_REMOTE_PREFIX")).
  change (cc_tcp_addr (cabi_config_from_env env)) with (env_nonempty env (lit "WMBT_KV_TCP_ADDR")).
  change (cc_http_addr (cabi_config_from_env env)) with (env_nonempty env (lit "WMBT_KV_HTTP_ADDR")).
  change (cc_namespace (cabi_config_from_env env)) with (default [] (env (lit "WMBT_KV_NAMESPACE"))).
  assert (asked_kind = KindShm \/ asked_kind = KindEmbedded ->
          match default [] (env (lit "WMBT_KV_NAMESPACE")) with [] => DEFAULT_NAMESPACE | ns => ns end = asked_namespace) as Hns.
  { unfold asked_namespace. by intros [->| ->]; destruct (env (lit "WMBT_KV_NAMESPACE")) as [[|]|]. }
  pose proof (set_nonempty (lit "WMBT_KV_REMOTE_PREFIX")) as S1. pose proof (set_nonempty (lit "WMBT_KV_TCP_ADDR")) as S2.
  pose proof (set_nonempty (lit "WMBT_KV_HTTP_ADDR")) as S3'.
  destruct (env_nonempty env (lit "WMBT_KV_REMOTE_PREFIX")) as [prefix|].
  { assert (asked_kind = KindShm) as Hk by (unfold asked_kind; by rewrite S1). unfold from_env_remote.
    destruct (connect_with_options _ _ _ _ _ _ _ _ _) as [[c|e]|]; cbn [map_err res_bind]; [|done|done].
    split; [done|]. split; [|done]. cbn. apply Hns. by left. }
  destruct (env_nonempty env (lit "WMBT_KV_TCP_ADDR")) as [addr|].
  { apply tcp_made. unfold asked_kind. by rewrite S1, S2. }
  destruct (env_nonempty env (lit "WMBT_KV_HTTP_ADDR")) as [addr|].
  { apply http_made. unfold asked_kind. by rewrite S1, S2, S3'. }
  assert (asked_kind = KindEmbedded) as Hk by (unfold asked_kind; by rewrite S1, S2, S3').
  rewrite Hns by (by right). pose proof (embedded_made _ cache eq_refl Hk) as He.
  by destruct (from_env_embedded _ _ _).
Qed.

(** C25: making a handle from the environment ends in a fresh handle with the backend
    the environment asks for (shared memory before TCP before HTTP before embedded),
    its namespace, bucket, prefix, codec and workers, or in NULL with the reason in the
    error slot and no memory left behind; it never unwinds into the caller, and only
    waits for a daemon's rings. *)
Theorem init_chooses_backend cache (w : Pr) :
  match wmbt_kv_init_from_env (cache, w) with
  | Returns (_, w') (Some a) =>
      a = brk w /\ exists h, handle_as_asked h /\ w' = mkProc (<[a := LHandle h]> (heap w)) (Pos.succ (brk w)) None
  | Returns (_, w') None => heap w' = heap w /\ brk w' = brk w /\ exists msg, last_error w' = Some (slot msg)
  | Waits => asked_kind = KindShm
  | Panics _ | Undefined => False
  end.
Proof.
  unfold wmbt_kv_init_from_env, act_bind at 1. cbn [on_proc clear_last_error]. unfold catch_unwind, act_bind at 1, on_cache.
  pose proof (handle_from_env_made cache) as Hm. destruct (handle_from_env cache) as [cache1 [h|msg]|cache1| |]; [| | |done|done].
  - cbn. split; [done|]. by exists h.
  - cbn. split; [done|]. split; [done|]. by exists msg.
  - cbn. split; [done|]. split; [done|]. by exists (lit "panic in wmbt_kv_init_from_env").
Qed.
End Init.
Arguments Outside : clear implicits.

(** ** A concrete environment *)
Module SampleInit.
#[export] Existing Instance plain_texts.
#[export] Existing Instance store_codec.
#[export] Existing Instance SlateMeta.Toy.toy_db.
#[export] Existing Instance SlateMeta.Toy.toy_rkyv.
Abbreviation SOutside := (Outside MapBucket (gmap bytes bytes) unit unit unit).
Definition outside (env : str -> option str) : SOutside :=
  mkOutside env (fun _ => Ok tt) (Ok tt) (Ok tt) [] 5 (fun _ => Err (ArenaIo [])) false (fun _ => Ok []) (fun _ => Ok [])
    (Ok tt) (fun _ => Ok (mkMapBucket ∅ 1 [])) (Ok tt) (fun n => seq 0 n) 7 (fun _ => mkFlat ∅ true []) (Ok tt) (Ok tt) (Ok tt)
    (fun _ => Ok tt) (Ok tt) (fun _ _ => Ok ∅).
End SampleInit.
Import SampleInit.

Definition with_vars (vars : list (str * str)) (name : str) : option str :=
  snd <$> List.find (fun p => bool_decide (fst p = name)) vars.
(** What came of making a handle: its backend, its namespace, or the error. *)
Definition handle_summary (vars : list (str * str)) : option (option (Kind * str) * option str) :=
  let o := outside (with_vars vars) in
  match wmbt_kv_init_from_env (H := MapCache) (fun _ => []) o (mkCapabilityCache ∅ false, mkProc ∅ 1 None) with
  | Returns (_, w) p =>
      Some (match p with
            | Some a => match heap w !! a with Some (LHandle h) => Some (backend_kind (hd_backend h), hd_namespace h) | _ => None end
            | None => None
            end, last_error w)
  | _ => None
  end.
Example init_embedded :
  handle_summary [(lit "WMBT_KV_BUCKET", lit "mine"); (lit "WMBT_KV_NAMESPACE", lit "")] = Some (Some (KindEmbedded, DEFAULT_NAMESPACE), None).
Proof. vm_compute. reflexivity. Qed.

(** A namespace with a slash, legal for the object store, makes SlateDB's assertion
    fail, and the handle with it. *)
Lemma slash_namespace_panics :
  handle_summary [(lit "WMBT_KV_BUCKET", lit "mine"); (lit "WMBT_KV_NAMESPACE", lit "team/a")]
  = Some (None, Some (lit "panic in wmbt_kv_init_from_env")).
Proof. vm_compute. reflexivity. Qed.
