(* ===== verification/Serve.v ===== *)
(** * The daemon's shared-memory workers ([wombatkv-daemon.rs], [lib.rs])

    Models [serve_prefix], one worker per prefix: opening the rings with a bounded
    number of retries, waiting for the client, handling what is on the request ring,
    and the ways out of the loop (the client closes, the daemon shuts down, the
    heartbeat is lost); and what follows when all workers are gone: the drain of the
    asynchronous writes, the closing of SlateDB and the exit code.

    A worker is a state machine over the daemon and the machine it shares with the
    other workers; what the rings, the clocks and the shutdown flag do during one step
    is the record [Turn].  The theorems speak of every interleaving. *)

From S2P Require Import Prelude Order Text Strings Radix Hex BlockMeta ObjectStore Compression BlobCache Foyer Embed.
From S2P Require Import Envelope Wire Arena Fanout Rpc Daemon DaemonSpec Client Lifecycle.

(** ** Settings *)

(** [constants.rs], in milliseconds *)
Definition SHUTDOWN_DRAIN_TIMEOUT : Z := 10 * 1000.
Definition effective_shutdown_drain_timeout (env : str -> option str) : Z :=
  match env_at_least_one env (lit "WMBT_KV_DAEMON_SHUTDOWN_DRAIN_TIMEOUT_SECS") with
  | Some secs => secs * 1000
  | None => SHUTDOWN_DRAIN_TIMEOUT
  end.
Definition max_open_retries (env : str -> option str) : Z :=
  default 20 (v ← env (lit "WMBT_KV_DAEMON_MAX_OPEN_RETRIES"); n ← parse_u32 v; if decide (1 <= n) then Some n else None).
Inductive MyelonWaitStrategy := Block | BusySpin.
Definition wait_strategy_from_env (env : str -> option str) : MyelonWaitStrategy :=
  match trim <$> env (lit "WMBT_KV_DAEMON_SHM_WAIT_STRATEGY") with
  | None => Block
  | Some s => if decide (s ∈ [lit "busyspin"; lit "BusySpin"; lit "spin"]) then BusySpin else Block
  end.

(** ** Opening the rings ([lib.rs])

    The attempts to attach are the transport library's, each with the time after it;
    [None] when none of them decides. *)
Fixpoint wait_for_consumer (deadline : Z) (segment : str) (tries : Z) (attempts : list (result unit str * Z))
  : option (result unit str) :=
  match attempts with
  | [] => None
  | (Ok _, _) :: _ => Some (Ok tt)
  | (Err error, now) :: rest =>
      if decide (now < deadline) then wait_for_consumer deadline segment (tries + 1) rest
      else Some (Err (lit "attach " ++ segment ++ lit ": " ++ error ++ lit " (after " ++ dec tries ++ lit " retries)"))
  end.
Definition open_daemon (env : str -> option str) (started : Z) (attempts : list (result unit str * Z)) (created : result unit str)
    (req_seg : str) : option (result unit str) :=
  match wait_for_consumer (started + effective_attach_timeout env * 1000) req_seg 1 attempts with
  | None => None
  | Some (Err e) => Some (Err e)
  | Some (Ok _) => Some created
  end.

Definition gave_up_text (prefix : str) (max : Z) (e : str) : str :=
  lit "open_daemon for prefix '" ++ prefix ++ lit "' failed " ++ dec max ++ lit " times; last error: " ++ e ++
  lit ". Likely causes: SHM name budget exceeded (macOS POSIX-SHM is 31 chars including null; the disruptor-mp `_producer_seq` suffix adds 13 chars, so the daemon prefix is capped at 14 chars on macOS, see `validate_segment_name_budget` for the exact math); stale segments lingering after a prior crash (the daemon runs cleanup_prefix_segments at startup; if that's still not enough, set `WMBT_KV_DAEMON_SHM_TRACE_UNLINK=1` to log every shm_unlink call); insufficient permissions on the SHM namespace. The earlier retry-forever behavior is replaced by this fail-loud surface (see RFC 0011 P10).".

(** ** One worker *)
Section Serve.
Context {S : Type} `{!ObjectStore S} {H : Type} `{!HybridCache H} `{!Zstd} {I : Type} `{!MetadataIndex I} `{!Texts}.
Context `{!RkyvCodec LookupBlockPrefixReq, !RkyvCodec LookupBlockPrefixResp, !RkyvCodec GetKvBlocksBatchReq,
          !RkyvCodec GetKvBlocksBatchResp, !RkyvCodec PutKvBlocksBatchReq, !RkyvCodec PutKvBlocksBatchResp}.
Context (env : str -> option str) (temp_dir : str).
Abbreviation Dm := (Daemon S H I).

(** A request as it comes off the ring, and how publishing its response goes. *)
Record Incoming := mkIncoming { in_req : WireRequest; in_ambient : Ambient; in_published : result unit str }.
(** What one step meets: the shutdown flag; the attempts to attach, the creation of the
    response ring and the names that left in [/dev/shm]; whether the client is found;
    what [process_available] delivers. *)
Record Turn := mkTurn {
  tn_shutdown : bool;
  tn_started : Z; tn_attach : list (result unit str * Z); tn_created : result unit str; tn_names : gset str;
  tn_discovered : bool;
  tn_batch : list Incoming
}.

(** Where a worker is: at the top of its loop, waiting for the client, about to look at
    the ring, in the middle of what it delivered, behind it, or gone. *)
Inductive Phase :=
| AtTop (open_retries : Z)
| Opened
| Serving (heartbeat : option HeartbeatMonitor)
| Handling (heartbeat : option HeartbeatMonitor) (pending : list Incoming) (close_after_response : bool) (delivered : Z)
| Handled (heartbeat : option HeartbeatMonitor) (close_after_response : bool) (delivered : Z)
| Exited (r : result unit str)
| Panicked.
(** With what it has done so far: the outcomes of its opens, the last one first, the
    requests it took, and those it dispatched, each with the response it published. *)
Record Worker := mkWorker {
  wk_prefix : str; wk_phase : Phase; wk_opens : list (result unit str);
  wk_taken : list WireRequest; wk_log : list (WireRequest * WireResponse * result unit str)
}.
Definition go (p : Phase) (wk : Worker) : Worker := mkWorker (wk_prefix wk) p (wk_opens wk) (wk_taken wk) (wk_log wk).
Definition fresh_worker (prefix : str) : Worker := mkWorker prefix (AtTop 0) [] [] [].

Definition create_names (names : gset str) (w : Machine) : Machine :=
  mkMachine (m_files w) (m_shm w ∪ names) (m_now_ms w) (m_instant w).

(** The top of the outer loop: the flag, then [open_daemon]. *)
Definition step_top (t : Turn) (open_retries : Z) (wk : Worker) (w : Machine) : Worker * Machine :=
  let prefix := wk_prefix wk in
  if tn_shutdown t then (go (Exited (Ok tt)) wk, cleanup_prefix_segments prefix w) else
  match open_daemon env (tn_started t) (tn_attach t) (tn_created t) (fst (segment_names prefix)) with
  | None => (wk, w)
  | Some r =>
      let wk := mkWorker prefix (wk_phase wk) (r :: wk_opens wk) (wk_taken wk) (wk_log wk) in
      let w := create_names (tn_names t) w in
      match r with
      | Ok _ => (go Opened wk, w)
      | Err e =>
          let open_retries := open_retries + 1 in
          if decide (max_open_retries env <= open_retries)
          then (go (Exited (Err (gave_up_text prefix (max_open_retries env) e))) wk, w)
          else (go (AtTop open_retries) wk, w)
      end
  end.
(** The closure given to [process_available]. *)
Definition step_incoming (r : Incoming) (heartbeat : option HeartbeatMonitor) (rest : list Incoming) (close : bool) (delivered : Z)
    (wk : Worker) (d : Dm) : Worker * Dm :=
  let req := in_req r in
  match dispatch (in_ambient r) (rq_id req) req d with
  | None => (go Panicked wk, d)
  | Some (d, resp) =>
      (mkWorker (wk_prefix wk) (Handling heartbeat rest (close || bool_decide (rq_op req = op.CLOSE)) delivered)
         (wk_opens wk) (wk_taken wk) (wk_log wk ++ [(req, resp, in_published r)]), d)
  end.
(** What follows [process_available]. *)
Definition step_handled (t : Turn) (heartbeat : option HeartbeatMonitor) (close : bool) (delivered : Z) (wk : Worker) (w : Machine)
  : Worker * Machine :=
  if close then (go (AtTop 0) wk, cleanup_prefix_segments (wk_prefix wk) w)
  else if tn_shutdown t then (go (Exited (Ok tt)) wk, cleanup_prefix_segments (wk_prefix wk) w)
  else if decide (delivered = 0) then
    match heartbeat with
    | None => (go (Serving None) wk, w)
    | Some monitor =>
        let (monitor, lost) := poll_reopen_reason monitor w in
        match lost with
        | None => (go (Serving (Some monitor)) wk, w)
        | Some reason => (go (AtTop 0) wk, if requires_segment_cleanup reason then cleanup_prefix_segments (wk_prefix wk) w else w)
        end
    end
  else (go (Serving heartbeat) wk, w).
(** One step of [serve_prefix]. *)
Definition serve_prefix_step (t : Turn) (x : Worker * Dm * Machine) : Worker * Dm * Machine :=
  let '(wk, d, w) := x in
  match wk_phase wk with
  | AtTop open_retries => let (wk, w) := step_top t open_retries wk w in (wk, d, w)
  | Opened =>
      (go (if tn_discovered t then Serving (attach env temp_dir (wk_prefix wk) w) else AtTop 0) wk, d, w)
  | Serving heartbeat =>
      (mkWorker (wk_prefix wk) (Handling heartbeat (tn_batch t) false (len (tn_batch t))) (wk_opens wk)
         (wk_taken wk ++ map in_req (tn_batch t)) (wk_log wk), d, w)
  | Handling heartbeat [] close delivered => (go (Handled heartbeat close delivered) wk, d, w)
  | Handling heartbeat (r :: rest) close delivered =>
      let (wk, d) := step_incoming r heartbeat rest close delivered wk d in (wk, d, w)
  | Handled heartbeat close delivered => let (wk, w) := step_handled t heartbeat close delivered wk w in (wk, d, w)
  | Exited _ | Panicked => (wk, d, w)
  end.

(** ** After the workers *)

(** [drain_async_puts] looks at the counter and at the time since it started; the looks
    it gets are [obs].  [None] when they do not decide. *)
Fixpoint drain_async_puts (budget : Z) (obs : list (Z * Z)) : option bool :=
  match obs with
  | [] => None
  | (n, elapsed) :: rest =>
      if decide (n = 0) then Some true
      else if decide (budget <= elapsed) then Some false
      else drain_async_puts budget rest
  end.

(** [close_slatedb_best_effort]: the close happens when no other owner of the index is
    left; [closed] is what it returns. *)
Inductive CloseOutcome := SlateClosed | SlateCloseFailed (err : str) | SlateCloseSkipped.
Definition close_slatedb_best_effort (other_owners : Z) (closed : result unit str) : CloseOutcome :=
  if decide (other_owners = 0) then match closed with Ok _ => SlateClosed | Err e => SlateCloseFailed e end else SlateCloseSkipped.
(** [run_shutdown_drain]: what becomes of the index, if there is one. *)
Definition run_shutdown_drain (slatedb : option I) (obs : list (Z * Z)) (other_owners : Z) (closed : result unit str)
  : option (bool * option CloseOutcome) :=
  drained ← drain_async_puts (effective_shutdown_drain_timeout env) obs;
  Some (drained, option_map (fun _ => close_slatedb_best_effort other_owners closed) slatedb).

(** An exit code, a panic of the main thread being 101. *)
Definition EXIT_SUCCESS : Z := 0.
Definition EXIT_FAILURE : Z := 1.
Definition EXIT_PANIC : Z := 101.
(** [run_legacy_per_prefix]: [None] when a thread cannot be spawned, with which the
    daemon ends at once; else what the joins return, [None] for a panic.  The second
    component is whether [run_shutdown_drain] ran. *)
Definition run_legacy_per_prefix (joined : option (list (option (result unit str)))) : Z * bool :=
  match joined with
  | None => (EXIT_FAILURE, false)
  | Some rs =>
      let any_failure := existsb (fun r => match r with Some (Ok _) => false | _ => true end) rs in
      (if any_failure then EXIT_FAILURE else EXIT_SUCCESS, true)
  end.
(** [runtime_tpc.rs].  What the platform answers a shard: whether the CPU number fits a
    [cpu_set_t] ([CPU_SET] panics else), what [sched_setaffinity] returns and [errno],
    whether the thread starts and whether its runtime does. *)
Record ShardHost := mkShardHost {
  on_linux : bool; cpu_set_fits : nat -> bool; sched_setaffinity : nat -> Z; pin_errno : nat -> Z;
  thread_starts : nat -> bool; runtime_starts : nat -> bool
}.
(** [None] is a panic, else the [errno] that is printed, if any. *)
Definition pin_to_cpu (h : ShardHost) (cpu_id : nat) : option (option Z) :=
  if on_linux h then
    if cpu_set_fits h cpu_id then Some (if decide (sched_setaffinity h cpu_id = 0) then None else Some (pin_errno h cpu_id)) else None
  else Some None.
(** The thread of a shard, [None] when it panics; [shard_fn] is the shard's future run
    to its end. *)
Definition shard_thread (h : ShardHost) (shard_fn : nat -> option unit) (shard_id : nat) : option unit :=
  match pin_to_cpu h shard_id with
  | None => None
  | Some _ => if runtime_starts h shard_id then shard_fn shard_id else None
  end.
(** [None] when a thread cannot be spawned, on which the caller panics. *)
Definition spawn_per_shard (h : ShardHost) (num_shards : nat) (shard_fn : nat -> option unit) : option (list (option unit)) :=
  if forallb (thread_starts h) (seq 0 num_shards) then Some (map (shard_thread h shard_fn) (seq 0 num_shards)) else None.
(** [run_tpc]: the shard's future only prints what [serve_prefix] returns, and ignores
    its panic; it panics itself for a shard without a prefix. *)
Definition run_tpc (h : ShardHost) (served : list (option (result unit str))) : Z * bool :=
  let num_shards := Nat.max (length served) 1 in
  match spawn_per_shard h num_shards (fun shard_id => _ ← served !! shard_id; Some tt) with
  | None => (EXIT_PANIC, false)
  | Some joined =>
      let any_failure := existsb (fun r => match r with Some _ => false | None => true end) joined in
      (if any_failure then EXIT_FAILURE else EXIT_SUCCESS, true)
  end.
(** What [serve_prefix] returned, for a worker that is gone. *)
Definition join_result (wk : Worker) : option (result unit str) :=
  match wk_phase wk with Exited r => Some r | _ => None end.
Definition gone (wk : Worker) : bool := match wk_phase wk with Exited _ | Panicked => true | _ => false end.
End Serve.
