(* ===== verification/ServeSpec.v ===== *)
(** * What the daemon's workers promise

    Any number of workers of [Serve] over one daemon and one machine, in any
    interleaving with each other, with detached writes, evictions and other processes:
    every request taken from a ring is answered and no worker panics; a worker gives up
    opening its rings after exactly the configured number of failures in a row; a
    shutdown ends every worker in a bounded number of its own steps, with its
    shared-memory names removed; and the drain says truly whether the acknowledged
    writes were finished. *)

From S2P Require Import Prelude Order Text Strings Radix Hex BlockMeta ObjectStore Compression BlobCache Foyer Embed.
From S2P Require Import Envelope Wire Arena Fanout Rpc Daemon DaemonSpec Client Lifecycle Serve.

(** The failures in a row at the head of a list. *)
Fixpoint failures_in_row (opens : list (result unit str)) : Z :=
  match opens with Err _ :: opens => failures_in_row opens + 1 | _ => 0 end.
Definition pending (p : Phase) : list Incoming := match p with Handling _ rs _ _ => rs | _ => [] end.

Lemma max_retries_positive env : 1 <= max_open_retries env.
Proof.
  unfold max_open_retries. destruct (env _) as [v|]; cbn [mbind option_bind default]; [|lia].
  destruct (parse_u32 v) as [n|]; cbn [mbind option_bind default]; [|lia]. case_decide; cbn; lia.
Qed.

Section Spec.
Context {S : Type} `{!ObjectStore S} `{!ObjectStoreLaws S} {H : Type} `{!HybridCache H} `{!HybridCacheLaws H}
  `{!Zstd} `{!ZstdLaws} {I : Type} `{!MetadataIndex I} `{!MetadataIndexLaws I} `{!Texts}.
Context `{!RkyvCodec LookupBlockPrefixReq, !RkyvCodec LookupBlockPrefixResp, !RkyvCodec GetKvBlocksBatchReq,
          !RkyvCodec GetKvBlocksBatchResp, !RkyvCodec PutKvBlocksBatchReq, !RkyvCodec PutKvBlocksBatchResp}.
Abbreviation KvStore := (WombatKVKvStore S H).
Abbreviation Dm := (Daemon S H I).
(** The names, as in [DaemonSpec]. *)
Context (N : str -> str -> Prop) (content : str -> option bytes) (k0 : KvStore).
Abbreviation okey := (okey k0).
Abbreviation resolved := (resolved content k0).
Context (K_files : forall x y, K N k0 x -> K N k0 y -> path_for_key x = path_for_key y -> x = y).
Context (N_nul : forall ns key, N ns key -> x00 ∉ ns).
Context (N_chunks : forall ns key v m i, N ns key -> content (okey ns key) = Some v -> parse_large_manifest v = Some m ->
  0 <= i < chunk_count m -> N ns (large_chunk_key (lm_id m) i)).
Context (N_sizes : forall ns key v m, N ns key -> content (okey ns key) = Some v -> parse_large_manifest v = Some m ->
  total_len m <= isize_max).
Context (content_len : forall x v, content x = Some v -> len v <= u64_max).
Context (N_small : forall ns key b, N ns key -> resolved ns key = Some b -> len b <= u32_max).
Context (G : KvStore -> Prop) (found : str -> str -> Prop) (asize : Z).
Context (G_kept : forall k k', kv_call N content k0 k k' -> G k -> G k').
Context (G_found : forall ns key k, store_ok N content k0 G k -> N ns key -> found ns key ->
  exists k' t v, get_kv ns key k = (k', Ok (Hit t v))).
Abbreviation dm_inv := (DaemonSpec.inv (I := I) N content k0 G asize).
Abbreviation dm_step := (daemon_step N content k0 G).
Context (env : str -> option str) (temp_dir : str).
Abbreviation step := (serve_prefix_step env temp_dir).

(** ** Answers *)
Definition incoming_ok (r : Incoming) : Prop := request_ok N content k0 (in_req r) /\ clock_ok (in_ambient r).
Definition turn_ok (t : Turn) : Prop := Forall incoming_ok (tn_batch t).
(** A response that answers its request, for the daemon as it was then. *)
Definition answered (entry : WireRequest * WireResponse * result unit str) : Prop :=
  let '(req, resp, _) := entry in
  exists x (d d' : Dm), dm_inv d /\ dispatch x (rq_id req) req d = Some (d', resp) /\
    rs_id resp = rq_id req /\ rs_op resp = rq_op req /\ answer_ok content k0 found x (rq_id req) req d d' resp.
(** What a worker took is what it answered and what it still has before it. *)
Record worker_ok (wk : Worker) : Prop := {
  ok_alive : wk_phase wk <> Panicked;
  ok_taken : wk_taken wk = map (fun e => fst (fst e)) (wk_log wk) ++ map in_req (pending (wk_phase wk));
  ok_log : Forall answered (wk_log wk);
  ok_pending : Forall incoming_ok (pending (wk_phase wk))
}.
Lemma fresh_ok prefix : worker_ok (fresh_worker prefix).
Proof. by split; [|done|constructor|constructor]. Qed.
Lemma go_ok p wk : worker_ok wk -> pending p = pending (wk_phase wk) -> p <> Panicked -> worker_ok (go p wk).
Proof. intros [? Ht Hl Hp] E Hn. split; [done| |done|]; cbn [go wk_phase wk_taken wk_log]; by rewrite E. Qed.

Lemma step_top_ok t n wk w : wk_phase wk = AtTop n -> worker_ok wk -> worker_ok (fst (step_top env t n wk w)).
Proof.
  intros Ep Hk. unfold step_top. destruct (tn_shutdown t); [apply go_ok; by rewrite ?Ep|].
  destruct (open_daemon _ _ _ _ _) as [r|]; [|done].
  assert (forall p, pending p = [] -> p <> Panicked ->
          worker_ok (go p (mkWorker (wk_prefix wk) (wk_phase wk) (r :: wk_opens wk) (wk_taken wk) (wk_log wk)))) as Hgo.
  { intros p E Hn. apply go_ok; [|by cbn [wk_phase]; rewrite Ep|done]. destruct Hk. by split. }
  destruct r as [[]|e]; [by apply Hgo|]. case_decide; by apply Hgo.
Qed.
Lemma step_handled_ok t hb close n wk w :
  wk_phase wk = Handled hb close n -> worker_ok wk -> worker_ok (fst (step_handled t hb close n wk w)).
Proof.
  intros Ep Hk. unfold step_handled. destruct close; [apply go_ok; by rewrite ?Ep|]. destruct (tn_shutdown t); [apply go_ok; by rewrite ?Ep|].
  case_decide; [|apply go_ok; by rewrite ?Ep]. destruct hb as [mo|]; [|apply go_ok; by rewrite ?Ep].
  destruct (poll_reopen_reason mo w) as [mo' [reason|]]; apply go_ok; by rewrite ?Ep.
Qed.
Lemma step_incoming_ok r hb rest close n wk (d : Dm) :
  wk_phase wk = Handling hb (r :: rest) close n -> worker_ok wk -> dm_inv d ->
  let out := step_incoming r hb rest close n wk d in
  worker_ok (fst out) /\ dm_inv (snd out) /\ wk_phase (fst out) = Handling hb rest (close || bool_decide (rq_op (in_req r) = op.CLOSE)) n.
Proof.
  intros Ep [Ha Ht Hl Hp] Hd. rewrite Ep in Ht, Hp. cbn [pending map] in Ht, Hp. apply Forall_cons in Hp as [[Hr Hc] Hp].
  unfold step_incoming.
  destruct (dispatch_ok (I := I) N content k0) with (G := G) (found := found) (asize := asize) (x := in_ambient r)
    (id := rq_id (in_req r)) (req := in_req r) (d := d) as (d' & resp & Ed & Hd' & Hid & Hop & Hans); [done..|].
  rewrite Ed. cbn [fst snd wk_phase]. split; [|done]. split; cbn [wk_phase wk_taken wk_log pending]; [done| |
    apply Forall_app; split; [done|]; apply Forall_singleton; by exists (in_ambient r), d, d'|done].
  by rewrite Ht, map_app, <- app_assoc.
Qed.
(** A step keeps both sides, and moves only between phases of the worker. *)
Lemma step_ok t wk d w wk' d' w' :
  turn_ok t -> worker_ok wk -> dm_inv d -> step t (wk, d, w) = (wk', d', w') -> worker_ok wk' /\ dm_inv d'.
Proof.
  intros Ht Hk Hd. unfold serve_prefix_step. destruct (wk_phase wk) as [n| |hb|hb [|r rest] close n|hb close n|r|] eqn:Ep.
  - pose proof (step_top_ok t n wk w Ep Hk) as Hs. destruct (step_top _ _ _ _ _) as [wk1 w1]. by intros [= <- <- <-].
  - intros [= <- <- <-]. split; [|done]. apply go_ok; [done|by rewrite Ep; destruct (tn_discovered t)|by destruct (tn_discovered t)].
  - intros [= <- <- <-]. split; [|done]. destruct Hk as [Ha Htk Hl Hp]. rewrite Ep in Htk. cbn [pending map] in Htk.
    rewrite app_nil_r in Htk. by split; cbn [wk_phase wk_taken wk_log pending]; [|rewrite Htk| |].
  - intros [= <- <- <-]. split; [|done]. apply go_ok; [done|by rewrite Ep|done].
  - pose proof (step_incoming_ok r hb rest close n wk d Ep Hk Hd) as (Hs1 & Hs2 & _).
    destruct (step_incoming _ _ _ _ _ _ _) as [wk1 d1]. by intros [= <- <- <-].
  - pose proof (step_handled_ok t hb close n wk w Ep Hk) as Hs. destruct (step_handled _ _ _ _ _ _) as [wk1 w1]. by intros [= <- <- <-].
  - by intros [= <- <- <-].
  - by intros [= <- <- <-].
Qed.

(** ** All workers *)
Record Fleet := mkFleet { fl_workers : list Worker; fl_daemon : Dm; fl_machine : Machine }.
(** A worker steps; the daemon's other threads do; other processes and time change the
    machine. *)
Inductive fleet_step : Fleet -> Fleet -> Prop :=
| fleet_worker i t wk wk' ws d d' w w' :
    ws !! i = Some wk -> turn_ok t -> step t (wk, d, w) = (wk', d', w') ->
    fleet_step (mkFleet ws d w) (mkFleet (<[i := wk']> ws) d' w')
| fleet_daemon ws d d' w : dm_step d d' -> fleet_step (mkFleet ws d w) (mkFleet ws d' w)
| fleet_machine ws d w w' : fleet_step (mkFleet ws d w) (mkFleet ws d w').
Definition fleet_start (prefixes : list str) (d : Dm) (w : Machine) : Fleet := mkFleet (map fresh_worker prefixes) d w.

Definition fleet_ok (f : Fleet) : Prop := Forall worker_ok (fl_workers f) /\ dm_inv (fl_daemon f).
Lemma fleet_step_ok f f' : fleet_step f f' -> fleet_ok f -> fleet_ok f'.
Proof.
  intros Hs [Hws Hd]. destruct Hs as [i t wk wk' ws d d' w w' Ei Ht E|ws d d' w Hs|ws d w w'].
  - assert (worker_ok wk) as Hk by (by eapply (Forall_lookup_1 worker_ok)). destruct (step_ok _ _ _ _ _ _ _ Ht Hk Hd E) as [Hk' Hd'].
    split; [|done]. by apply Forall_insert.
  - split; [done|]. eapply (daemon_step_inv (I := I) N content k0); [..|exact Hs]; done.
  - done.
Qed.
Lemma fleet_reach_ok f f' : rtc fleet_step f f' -> fleet_ok f -> fleet_ok f'.
Proof. intros Hr. induction Hr; [done|]. eauto using fleet_step_ok. Qed.

(** C16: every request a worker takes from its ring is answered.  However workers,
    detached writes, evictions, other processes and time interleave, no worker panics;
    the requests it took are those it has dispatched, in order, and those it still has
    before it (none once it looks at the ring again, reopens or exits); and each
    dispatched request was given the response the daemon promises, under its own id. *)
Theorem workers_answer_everything prefixes (d : Dm) w f i wk :
  dm_inv d -> rtc fleet_step (fleet_start prefixes d w) f -> fl_workers f !! i = Some wk ->
  wk_phase wk <> Panicked /\
  wk_taken wk = map (fun e => fst (fst e)) (wk_log wk) ++ map in_req (pending (wk_phase wk)) /\
  Forall answered (wk_log wk).
Proof.
  intros Hd Hr Hi. apply fleet_reach_ok in Hr as [Hws _]; [|split; [apply Forall_map, Forall_true; apply fresh_ok|done]].
  assert (worker_ok wk) as [] by (by eapply (Forall_lookup_1 worker_ok)). done.
Qed.

(** ** Opening the rings *)

(** The number of retries counts the failures since the last success. *)
Definition opens_ok (wk : Worker) : Prop :=
  match wk_phase wk with
  | AtTop n => n = failures_in_row (wk_opens wk) /\ n < max_open_retries env
  | Exited (Err msg) =>
      failures_in_row (wk_opens wk) = max_open_retries env /\
      exists e rest, wk_opens wk = Err e :: rest /\ msg = gave_up_text (wk_prefix wk) (max_open_retries env) e
  | Exited (Ok _) | Panicked => failures_in_row (wk_opens wk) < max_open_retries env
  | _ => failures_in_row (wk_opens wk) = 0
  end.
Lemma opens_ok_step t wk d w wk' d' w' :
  opens_ok wk -> step t (wk, d, w) = (wk', d', w') -> opens_ok wk'.
Proof.
  intros Ho. pose proof (max_retries_positive env) as Hm. unfold serve_prefix_step, opens_ok in *.
  destruct (wk_phase wk) as [n| |hb|hb [|r rest] close n|hb close n|r|] eqn:Ep.
  - destruct Ho as [-> Ho]. unfold step_top. destruct (tn_shutdown t); [by intros [= <- <- <-]|].
    destruct (open_daemon _ _ _ _ _) as [[[]|e]|].
    + by intros [= <- <- <-].
    + case_decide; intros [= <- <- <-]; cbn [go wk_phase wk_opens wk_prefix failures_in_row]; [|lia]. split; [lia|]. by exists e, (wk_opens wk).
    + intros [= <- <- <-]. by rewrite Ep.
  - intros [= <- <- <-]. cbn [go wk_phase wk_opens]. destruct (tn_discovered t); lia.
  - by intros [= <- <- <-].
  - by intros [= <- <- <-].
  - unfold step_incoming. destruct (dispatch _ _ _ _) as [[d1 resp]|]; intros [= <- <- <-]; cbn [go wk_phase wk_opens]; [done|lia].
  - unfold step_handled. destruct close; [intros [= <- <- <-]; cbn [go wk_phase wk_opens]; lia|]. destruct (tn_shutdown t);
      [intros [= <- <- <-]; cbn [go wk_phase wk_opens]; lia|].
    case_decide; [|by intros [= <- <- <-]]. destruct hb as [mo|]; [|by intros [= <- <- <-]].
    destruct (poll_reopen_reason mo w) as [mo' [reason|]]; intros [= <- <- <-]; cbn [go wk_phase wk_opens]; lia.
  - intros [= <- <- <-]. by rewrite Ep.
  - intros [= <- <- <-]. by rewrite Ep.
Qed.
Lemma fleet_opens f f' : rtc fleet_step f f' -> Forall opens_ok (fl_workers f) -> Forall opens_ok (fl_workers f').
Proof.
  intros Hr. induction Hr as [|f f1 f2 Hs _ IH]; [done|]. intros Ho. apply IH. clear IH.
  destruct Hs as [i t wk wk' ws d d' w w' Ei Ht E|ws d d' w Hs|ws d w w']; [|done|done]. cbn [fl_workers] in *.
  apply Forall_insert; [done|]. eapply opens_ok_step; [|exact E]. by eapply (Forall_lookup_1 opens_ok).
Qed.

(** C19: a worker fails exactly when its rings could not be opened as often in a row as
    configured (20 times unless the environment says otherwise): it never has more
    failures in a row than that, it has exited with an error if and only if it has that
    many, and the error then names the prefix and the last failure. *)
Theorem open_fails_loudly prefixes (d : Dm) w f i wk :
  rtc fleet_step (fleet_start prefixes d w) f -> fl_workers f !! i = Some wk ->
  failures_in_row (wk_opens wk) <= max_open_retries env /\
  (failures_in_row (wk_opens wk) = max_open_retries env <->
   exists e rest, wk_opens wk = Err e :: rest /\ wk_phase wk = Exited (Err (gave_up_text (wk_prefix wk) (max_open_retries env) e))).
Proof.
  intros Hr Hi. pose proof (max_retries_positive env) as Hm. apply fleet_opens in Hr.
  2: { apply Forall_map, Forall_true. intros p. split; [done|]. cbn. lia. }
  assert (opens_ok wk) as Ho by (by eapply (Forall_lookup_1 opens_ok)). unfold opens_ok in Ho.
  destruct (wk_phase wk) as [n| | | | |[[]|msg]|].
  all: try (split; [lia|]; split; [lia|]; by intros (e & rest & _ & ?)).
  destruct Ho as (Hf & e & rest & E & ->). split; [lia|]. split; [|done]. intros _. by exists e, rest.
Qed.

(** When all workers are gone the exit code is a success exactly when none gave up. *)
Lemma legacy_exit_code prefixes (d : Dm) w f :
  dm_inv d -> rtc fleet_step (fleet_start prefixes d w) f -> Forall (fun wk => gone wk = true) (fl_workers f) ->
  fst (run_legacy_per_prefix (Some (map join_result (fl_workers f)))) = EXIT_SUCCESS <->
  Forall (fun wk => failures_in_row (wk_opens wk) < max_open_retries env) (fl_workers f).
Proof.
  intros Hd Hr Hg. pose proof (fleet_opens _ _ Hr) as Ho.
  apply fleet_reach_ok in Hr as [Hws _]; [|split; [apply Forall_map, Forall_true; apply fresh_ok|done]].
  assert (Forall opens_ok (fl_workers f)) as Hop.
  { apply Ho, Forall_map, Forall_true. intros p. split; [done|]. apply Z.lt_le_trans with 1; [done|]. apply max_retries_positive. }
  clear Ho. cbn [run_legacy_per_prefix fst].
  assert (forall ws, Forall worker_ok ws -> Forall opens_ok ws -> Forall (fun wk => gone wk = true) ws ->
    existsb (fun r => match r with Some (Ok _) => false | _ => true end) (map join_result ws) = false <->
    Forall (fun wk => failures_in_row (wk_opens wk) < max_open_retries env) ws) as Hall.
  { induction ws as [|wk ws IH]; [by split|]. intros [[Ha _ _ _] Hw]%Forall_cons [Hx Hy]%Forall_cons [Hz Hg2]%Forall_cons.
    rewrite Forall_cons. cbn [map existsb]. rewrite orb_false_iff, (IH Hw Hy Hg2). unfold opens_ok, gone, join_result in *.
    destruct (wk_phase wk) as [| | | | |[[]|msg]|]; [done..| | |done]; [naive_solver lia|]. destruct Hx as (Hx & _).
    split; [by intros [? _]|]. intros [? _]. lia. }
  rewrite <- (Hall (fl_workers f)) by done. by destruct (existsb _ _).
Qed.

(** ** Shutdown *)

(** The steps a worker has left once the flag is up and the ring delivers at most [b]
    requests at a time. *)
Definition steps_left (b : nat) (p : Phase) : nat :=
  match p with
  | Exited _ | Panicked => 0
  | AtTop _ => 1
  | Handled _ _ _ => 2
  | Handling _ rs _ _ => 3 + length rs
  | Serving _ => 4 + b
  | Opened => 5 + b
  end.
(** Steps of one worker, each after what the rest of the daemon and of the machine did. *)
Abbreviation Meanwhile := (Turn * (Dm -> Dm) * (Machine -> Machine))%type.
Definition meanwhile_step (x : Worker * Dm * Machine) (m : Meanwhile) : Worker * Dm * Machine :=
  let '(wk, d, w) := x in let '(t, fd, fw) := m in step t (wk, fd d, fw w).
Definition shutting_down (b : nat) (m : Meanwhile) : Prop :=
  let '(t, fd, _) := m in
  turn_ok t /\ tn_shutdown t = true /\ (length (tn_batch t) <= b)%nat /\ forall d, dm_inv d -> dm_inv (fd d).

Lemma shutdown_step b t wk (d : Dm) w :
  turn_ok t -> tn_shutdown t = true -> (length (tn_batch t) <= b)%nat -> worker_ok wk -> dm_inv d -> gone wk = false ->
  exists wk' d' w', step t (wk, d, w) = (wk', d', w') /\ worker_ok wk' /\ dm_inv d' /\ wk_prefix wk' = wk_prefix wk /\
    (steps_left b (wk_phase wk') < steps_left b (wk_phase wk))%nat /\
    (gone wk' = true -> wk_phase wk' = Exited (Ok tt) /\ ring_gone (wk_prefix wk) w').
Proof.
  intros Ht Hs Hb Hk Hd Hg. destruct (step t (wk, d, w)) as [[wk' d'] w'] eqn:E. destruct (step_ok _ _ _ _ _ _ _ Ht Hk Hd E) as [Hk' Hd'].
  exists wk', d', w'. do 3 (split; [done|]). unfold serve_prefix_step, gone in *.
  destruct (wk_phase wk) as [n| |hb|hb [|r rest] close n|hb close n|r|] eqn:Ep; [..|done|done].
  - unfold step_top in E. rewrite Hs in E. injection E as <- <- <-. split; [done|]. split; [cbn; lia|]. intros _. split; [done|].
    exact (cleanup_gone env temp_dir _ _).
  - injection E as <- <- <-. split; [done|]. cbn [go wk_phase]. destruct (tn_discovered t); (split; [cbn; lia|done]).
  - injection E as <- <- <-. split; [done|]. cbn [go wk_phase steps_left]. split; [lia|done].
  - injection E as <- <- <-. split; [done|]. cbn [go wk_phase steps_left length]. split; [lia|done].
  - destruct (step_incoming_ok r hb rest close n wk d Ep Hk Hd) as (_ & _ & E1).
    assert (wk_prefix (fst (step_incoming r hb rest close n wk d)) = wk_prefix wk) as E2
      by (unfold step_incoming; by destruct (dispatch _ _ _ _) as [[]|]).
    destruct (step_incoming _ _ _ _ _ _ _) as [wk1 d1]. injection E as <- <- <-. cbn [fst snd] in E1, E2. split; [done|]. rewrite E1.
    cbn [steps_left length]. split; [lia|done].
  - unfold step_handled in E. rewrite Hs in E. destruct close; injection E as <- <- <-; (split; [done|]; split; [cbn; lia|]); [done|].
    intros _. split; [done|]. exact (cleanup_gone env temp_dir _ _).
Qed.
Lemma shutdown_run b ms wk (d : Dm) w :
  Forall (shutting_down b) ms -> worker_ok wk -> dm_inv d -> gone wk = false -> (steps_left b (wk_phase wk) <= length ms)%nat ->
  exists k wk' d' w', (k <= steps_left b (wk_phase wk))%nat /\ foldl meanwhile_step (wk, d, w) (take k ms) = (wk', d', w') /\
    worker_ok wk' /\ wk_phase wk' = Exited (Ok tt) /\ ring_gone (wk_prefix wk) w'.
Proof.
  intros Hms. revert wk d w. induction Hms as [|[[t fd] fw] ms (Ht & Hs & Hb & Hf) _ IH]; intros wk d w Hk Hd Hg Hle.
  { unfold gone in Hg. cbn [length] in Hle. destruct (wk_phase wk); cbn in Hle; by try lia. }
  destruct (shutdown_step b t wk (fd d) (fw w) Ht Hs Hb Hk (Hf d Hd) Hg) as (wk1 & d1 & w1 & E & Hk1 & Hd1 & Epre & Hlt & Hgone).
  destruct (gone wk1) eqn:Eg.
  - exists 1%nat, wk1, d1, w1. destruct (Hgone eq_refl). split; [lia|]. cbn [take foldl meanwhile_step]. by rewrite E, take_0.
  - cbn [length] in Hle. destruct (IH wk1 d1 w1 Hk1 Hd1 Eg) as (k & wk2 & d2 & w2 & Hk2 & E2 & Hok & Hp & Hr); [lia|].
    exists (Datatypes.S k), wk2, d2, w2. split; [lia|]. cbn [take foldl meanwhile_step]. rewrite E, E2. by rewrite <- Epre.
Qed.

(** C17: a shutdown ends every worker.  Once the flag is up, a running worker exits
    normally within a number of its own steps given by where it is and by the largest
    batch the ring delivers, whatever else happens in the meantime; at that moment it has
    answered every request it took and its shared-memory names are gone. *)
Theorem shutdown_ends_workers prefixes (d0 : Dm) w0 f i wk b ms :
  dm_inv d0 -> rtc fleet_step (fleet_start prefixes d0 w0) f -> fl_workers f !! i = Some wk -> gone wk = false ->
  Forall (shutting_down b) ms -> (steps_left b (wk_phase wk) <= length ms)%nat ->
  exists k wk' d' w', (k <= steps_left b (wk_phase wk))%nat /\
    foldl meanwhile_step (wk, fl_daemon f, fl_machine f) (take k ms) = (wk', d', w') /\
    wk_phase wk' = Exited (Ok tt) /\ ring_gone (wk_prefix wk) w' /\
    wk_taken wk' = map (fun e => fst (fst e)) (wk_log wk') /\ Forall answered (wk_log wk').
Proof.
  intros Hd Hr Hi Hg Hms Hle. apply fleet_reach_ok in Hr as [Hws Hdf]; [|split; [apply Forall_map, Forall_true; apply fresh_ok|done]].
  assert (worker_ok wk) as Hk by (by eapply (Forall_lookup_1 worker_ok)).
  destruct (shutdown_run b ms wk (fl_daemon f) (fl_machine f) Hms Hk Hdf Hg Hle) as (k & wk' & d' & w' & Hle' & E & [_ Ht Hl _] & Hp & Hring).
  exists k, wk', d', w'. rewrite Hp, app_nil_r in Ht. done.
Qed.

(** ** The drain *)

(** The looks of [drain_async_puts] at the daemon: 25 ms apart at least. *)
Inductive looks : Dm -> Z -> list (Dm * Z) -> Prop :=
| looks_none d t : looks d t []
| looks_next d t d' t' l : rtc dm_step d d' -> t + 25 <= t' -> looks d' t' l -> looks d t ((d', t') :: l).
Definition seen (x : Dm * Z) : Z * Z := (async_put_inflight (fst x), snd x).

Lemma counter_zero (d : Dm) : dm_inv d -> async_put_inflight d = 0 <-> dm_jobs d = [].
Proof.
  intros [_ ->]. split; [|by intros ->]. destruct (dm_jobs d); [done|]. rewrite len_cons. intros E. pose proof (len_nonneg l). exfalso. lia.
Qed.
Lemma drain_decides budget d t l :
  dm_inv d -> looks d t l -> t < budget <= t + 25 * len l ->
  exists k d' t', l !! k = Some (d', t') /\ Z.of_nat k <= (budget - t - 1) / 25 /\
    drain_async_puts budget (map seen l) = Some (bool_decide (dm_jobs d' = [])) /\ (dm_jobs d' <> [] -> budget <= t') /\
    forall j d1 t1, (j < k)%nat -> l !! j = Some (d1, t1) -> dm_jobs d1 <> [] /\ t1 < budget.
Proof.
  intros Hd Hl. revert Hd. induction Hl as [d t|d t d' t' l Hs Ht _ IH]; intros Hd Hb; [change (len []) with 0 in Hb; lia|].
  assert (dm_inv d') as Hd' by (eapply (daemon_steps_inv (I := I) N content k0); [..|exact Hs]; done).
  pose proof (counter_zero d' Hd') as Hc. rewrite len_cons in Hb. cbn [map seen fst snd drain_async_puts].
  assert (0 <= (budget - t - 1) / 25) by (apply Z.div_pos; lia).
  destruct (decide (async_put_inflight d' = 0)) as [E0|E0].
  { exists 0%nat, d', t'. split; [done|]. split; [lia|]. apply Hc in E0. rewrite bool_decide_true by done. split; [done|]. split; [done|]. intros; lia. }
  assert (dm_jobs d' <> []) as Hj by (by rewrite <- Hc). case_decide.
  { exists 0%nat, d', t'. split; [done|]. split; [lia|]. rewrite bool_decide_false by done. split; [done|]. split; [done|]. intros; lia. }
  destruct IH as (k & d2 & t2 & Ek & Hk & Er & Hf & Hbefore); [done|lia|]. exists (Datatypes.S k), d2, t2. split; [done|].
  split; [|split; [done|]; split; [done|]; intros [|j] d1 t1 Hlt E; [injection E as <- <-; split; [done|lia]|apply (Hbefore j); [lia|done]]].
  assert ((budget - t' - 1) / 25 + 1 <= (budget - t - 1) / 25); [|lia].
  rewrite <- Z.div_add by lia. apply Z.div_le_mono; lia.
Qed.

End Spec.

(** ** A concrete daemon *)
Import Sample.
Lemma fleet_files x y : K names sample_store x -> K names sample_store y -> path_for_key x = path_for_key y -> x = y.
Proof. by intros ->%sample_K ->%sample_K _. Qed.
Lemma sample_nul ns key : names ns key -> x00 ∉ ns.
Proof. intros [-> ->]. apply (bool_decide_unpack _). vm_compute. exact Logic.I. Qed.
Lemma fleet_no_manifest ns key v m :
  names ns key -> sample_content (okey sample_store ns key) = Some v -> parse_large_manifest v = Some m -> False.
Proof. intros [-> ->] Hv Hm. vm_compute in Hv. injection Hv as <-. vm_compute in Hm. discriminate. Qed.
Lemma sample_len x v : sample_content x = Some v -> len v <= u64_max.
Proof. unfold sample_content. case_decide; [|discriminate]. intros [= <-]. vm_compute. discriminate. Qed.
Lemma fleet_small ns key b : names ns key -> resolved sample_content sample_store ns key = Some b -> len b <= u32_max.
Proof. intros Hn ->%sample_resolved; [|done]. vm_compute. discriminate. Qed.
Ltac sample_names :=
  first [exact fleet_files | exact sample_nul | exact sample_len | exact fleet_small
        | intros; exfalso; eapply fleet_no_manifest; eassumption | done].

Module SampleServe.
Definition env : str -> option str := fun name =>
  if decide (name = lit "WMBT_KV_DAEMON_MAX_OPEN_RETRIES") then Some (lit "2")
  else if decide (name = lit "WMBT_KV_DAEMON_SHUTDOWN_DRAIN_TIMEOUT_SECS") then Some (lit "1") else None.
Definition tmp : str := lit "/tmp".
Definition machine : Machine := mkMachine ∅ ∅ 0 0.
Definition incoming : Incoming := mkIncoming put_req world (Ok tt).
(** The rings open, the client is there, and it has put a payload on the ring. *)
Definition busy (shutdown : bool) : Turn := mkTurn shutdown 0 [(Ok tt, 1)] (Ok tt) {[ lit "wkps" ]} true [incoming].
(** Nobody has made the request ring when the time for it is over. *)
Definition no_ring : Turn := mkTurn false 0 [(Err (lit "not found"), 30000)] (Ok tt) ∅ false [].
Abbreviation fleet_steps := (rtc (fleet_step names sample_content sample_store anything env tmp)).
Definition queued : Dm := mkDaemon sample_store (Some arena) (Some InMem.new) 1 [mkPutJob (lit "ns") (lit "k") (lit "payload")].
Fixpoint idle (d : Dm) (t : Z) (n : nat) : list (Dm * Z) :=
  match n with O => [] | Datatypes.S n => (d, t) :: idle d (t + 25) n end.
End SampleServe.
Import SampleServe.

Lemma busy_ok shutdown : turn_ok names sample_content sample_store (busy shutdown).
Proof. apply Forall_singleton. split; [exact sample_put_ok|]. by split. Qed.
Lemma no_ring_ok : turn_ok names sample_content sample_store no_ring.
Proof. constructor. Qed.
(** A fleet of one, a step at a time. *)
Lemma one_step t wk (d : Dm) w wk' d' w' f :
  turn_ok names sample_content sample_store t -> serve_prefix_step SampleServe.env tmp t (wk, d, w) = (wk', d', w') ->
  fleet_steps (mkFleet [wk'] d' w') f -> fleet_steps (mkFleet [wk] d w) f.
Proof. intros Ht E Hr. eapply rtc_l; [|exact Hr]. by eapply (fleet_worker _ _ _ _ _ _ 0 t wk wk' [wk]). Qed.
(** A worker with a request before it. *)
Definition taken : Worker := mkWorker (lit "p") (Handling None [incoming] false 1) [Ok tt] [put_req] [].
Definition machine1 : Machine := create_names {[ lit "wkps" ]} machine.
Lemma taken_reached : fleet_steps (fleet_start [lit "p"] daemon machine) (mkFleet [taken] daemon machine1).
Proof.
  do 3 (eapply one_step; [apply (busy_ok false)|reflexivity|]). apply rtc_refl.
Qed.

Lemma workers_answer_everything_witness :
  exists f wk resp, fleet_steps (fleet_start [lit "p"] daemon machine) f /\ fl_workers f !! 0%nat = Some wk /\
    wk_taken wk = [put_req] /\ wk_log wk = [(put_req, resp, Ok tt)] /\
    Forall (answered names sample_content sample_store anything nothing 80) (wk_log wk).
Proof.
  assert (is_Some after_put) as Hp by (apply (bool_decide_unpack _); vm_compute; exact Logic.I).
  destruct after_put as [[d1 resp]|] eqn:E1; [|by destruct Hp]. clear Hp.
  set (f := mkFleet [mkWorker (lit "p") (Handling None [] false 1) [Ok tt] [put_req] [(put_req, resp, Ok tt)]] d1 machine1).
  assert (fleet_steps (fleet_start [lit "p"] daemon machine) f) as Hf.
  { transitivity (mkFleet [taken] daemon machine1); [exact taken_reached|].
    eapply one_step; [apply (busy_ok false)| |apply rtc_refl]. cbn [serve_prefix_step wk_phase taken]. unfold step_incoming.
    change (dispatch (in_ambient incoming) (rq_id (in_req incoming)) (in_req incoming) daemon) with after_put. by rewrite E1. }
  exists f, (mkWorker (lit "p") (Handling None [] false 1) [Ok tt] [put_req] [(put_req, resp, Ok tt)]), resp.
  split; [exact Hf|]. do 3 (split; [reflexivity|]).
  eapply (workers_answer_everything (I := InMemoryMetadataIndex) names sample_content sample_store)
    with (G := anything) (found := nothing) (asize := 80) (i := 0%nat); [sample_names..|exact sample_inv|exact Hf|reflexivity].
Defined.

Lemma open_fails_loudly_witness :
  exists f wk, fleet_steps (fleet_start [lit "p"] daemon machine) f /\ fl_workers f !! 0%nat = Some wk /\
    wk_opens wk = replicate 2 (Err (lit "attach wkpr: not found (after 1 retries)")) /\
    exists e rest, wk_opens wk = Err e :: rest /\ wk_phase wk = Exited (Err (gave_up_text (lit "p") 2 e)).
Proof.
  assert (exists wk, fleet_steps (fleet_start [lit "p"] daemon machine) (mkFleet [wk] daemon (create_names ∅ (create_names ∅ machine))) /\
    wk_prefix wk = lit "p" /\ wk_opens wk = replicate 2 (Err (lit "attach wkpr: not found (after 1 retries)"))) as (wk & Hf & Ep & Ew).
  { eexists. split; [do 2 (eapply one_step; [apply no_ring_ok|reflexivity|]); apply rtc_refl|]. split; vm_compute; reflexivity. }
  eexists _, wk. split; [exact Hf|]. split; [reflexivity|]. split; [exact Ew|].
  destruct (open_fails_loudly names sample_content sample_store anything SampleServe.env tmp [lit "p"] daemon machine _ 0%nat wk Hf eq_refl)
    as [_ [Hx _]]. rewrite Ep in Hx. apply Hx. rewrite Ew. vm_compute. reflexivity.
Defined.

Lemma shutdown_ends_workers_witness :
  exists k wk' d' w', (k <= 4)%nat /\
    foldl (meanwhile_step SampleServe.env tmp) (taken, daemon, machine1) (take k (replicate 4 (busy true, id, id))) = (wk', d', w') /\
    wk_phase wk' = Exited (Ok tt) /\ ring_gone (lit "p") w' /\ wk_taken wk' = map (fun e => fst (fst e)) (wk_log wk').
Proof.
  destruct (shutdown_ends_workers (I := InMemoryMetadataIndex) names sample_content sample_store)
    with (G := anything) (found := nothing) (asize := 80) (env := SampleServe.env) (temp_dir := tmp) (prefixes := [lit "p"]) (d0 := daemon)
      (w0 := machine) (f := mkFleet [taken] daemon machine1) (i := 0%nat) (wk := taken) (b := 1%nat)
      (ms := replicate 4 (busy true, @id Dm, @id Machine)) as (k & wk' & d' & w' & Hk & E & Hp & Hr & Ht & _);
    [sample_names..|exact sample_inv|exact taken_reached|reflexivity|reflexivity| |cbn; lia|].
  - apply Forall_replicate. split; [apply busy_ok|]. split; [reflexivity|]. split; [cbn; lia|]. done.
  - by exists k, wk', d', w'.
Defined.

Lemma queued_inv : inv (I := InMemoryMetadataIndex) names sample_content sample_store anything 80 queued.
Proof.
  destruct sample_inv as [(Hk & Ha & Hs & _) _]. split; [|reflexivity]. do 3 (split; [done|]). apply Forall_singleton.
  by apply sample_put_ok.
Qed.
Lemma idle_looks d t n : looks names sample_content sample_store anything d t (idle d (t + 25) n).
Proof. revert t. induction n as [|n IH]; intros t; cbn [idle]; constructor; [done|lia|apply IH]. Qed.


(** ** What the shutdown misses *)

(** Where every shard starts, what becomes of pinning and of the workers does not reach
    the exit code: under [--tpc] the failure of a worker is hidden, as a shard that
    cannot be pinned is meant to be. *)
Lemma spawned_shards_run h n f :
  (forall i, thread_starts h i = true /\ runtime_starts h i = true /\ cpu_set_fits h i = true) ->
  spawn_per_shard h n f = Some (map f (seq 0 n)).
Proof.
  intros Hh. unfold spawn_per_shard.
  assert (forallb (thread_starts h) (seq 0 n) = true) as -> by (apply forallb_forall; intros i _; apply Hh). f_equal. apply map_ext. intros i.
  unfold shard_thread, pin_to_cpu. destruct (Hh i) as (_ & -> & ->). by destruct (on_linux h).
Qed.
Lemma tpc_hides_failures h served :
  (forall i, thread_starts h i = true /\ runtime_starts h i = true /\ cpu_set_fits h i = true) -> served <> [] ->
  run_tpc h served = (EXIT_SUCCESS, true) /\ run_legacy_per_prefix (Some [None]) = (EXIT_FAILURE, true).
Proof.
  intros Hh Hne. split; [|done]. unfold run_tpc. rewrite spawned_shards_run by done.
  replace (Nat.max (length served) 1) with (length served) by (destruct served; [done|cbn; lia]).
  destruct (existsb _ _) eqn:E; [|done]. apply existsb_exists in E as (r & (i & <- & Hi)%in_map_iff & Er). apply in_seq in Hi.
  destruct (lookup_lt_is_Some_2 served i ltac:(lia)) as [v Ev]. by rewrite Ev in Er.
Qed.
