(* ===== verification/Startup.v ===== *)
(** * Starting the daemon ([config.rs] and [main] of [wombatkv-daemon])

    Models [DaemonConfig] with its defaults and the environment, the command line, and
    [main] up to the point where the workers of [Serve] and the listeners of [Tcp] and
    [Http] take over, over the S3 store, SlateDB and the arena; and how [main] ends.

    [daemon_starts_as_asked] says what an environment and a command line lead to. *)

From S2P Require Import SlateMeta.
From S2P Require Import Prelude Order Text Strings Radix Hex BlockMeta ObjectStore Compression BlobCache Foyer Lru Embed.
From S2P Require Import Envelope Wire Arena Fanout Rpc Daemon Client Lifecycle S3 Cabi CabiInit Serve.

(** ** [config.rs] *)
Record DaemonConfig := mkDaemonConfig {
  shm_prefixes : list str; tcp_addrs : list str; http_addrs : list str; shm_depth : Z; wait_strategy : MyelonWaitStrategy;
  tcp_tpc_threads : Z; tcp_dispatch_workers : Z; http_tpc_threads : Z; http_dispatch_workers : Z;
  puffer_dir : str; puffer_ram_bytes : option Z; puffer_disk_bytes : option Z; puffer_block_size_bytes : option Z;
  s3_prefix : str; slatedb_path : str; dc_namespace : str; dc_namespace_max_bytes : option Z; eviction_interval : Z;
  quiet_banner : bool; trace_daemon : bool; prefetch_dry_run : bool
}.
Definition DAEMON_FALLBACK_PUFFER_DIR : str := lit "/tmp/wombatkv-puffer-shm-foyer".
Definition default_daemon_puffer_dir (env : str -> option str) (create_dir_all : str -> result unit str) : str :=
  match env_nonempty env (lit "HOME") with
  | None => DAEMON_FALLBACK_PUFFER_DIR
  | Some h =>
      let candidate := join_path (join_path h (lit ".wombatkv")) (lit "puffer") in
      match create_dir_all candidate with Ok _ => candidate | Err _ => DAEMON_FALLBACK_PUFFER_DIR end
  end.
Definition default_daemon_config (env : str -> option str) (create_dir_all : str -> result unit str) : DaemonConfig :=
  let dir := default_daemon_puffer_dir env create_dir_all in
  mkDaemonConfig [] [] [] DEFAULT_RING_DEPTH Block 2 8 2 8 dir None None None (lit "kv/puffer-shm") (join_path dir (lit "slatedb"))
    (lit "default") None 30 false false false.
Definition env_truthy (env : str -> option str) (key : str) : bool :=
  match env key with
  | Some v => bool_decide (v ∈ [lit "1"; lit "true"; lit "True"; lit "TRUE"; lit "yes"; lit "Yes"; lit "YES"; lit "on"; lit "On"; lit "ON"])
  | None => false
  end.
(** A comma-separated list of addresses. *)
Definition comma : byte := x2c.
Definition env_addrs (env : str -> option str) (key : str) : list str :=
  match env key with
  | Some v => List.filter (fun c => bool_decide (c <> [])) (map trim (split_on comma v))
  | None => []
  end.
Definition one_or_more (env : str -> option str) (key : str) (d : Z) : Z :=
  match env_parse_u64 env key with Some n => Z.max n 1 | None => d end.
Definition daemon_config_from_env (env : str -> option str) (create_dir_all : str -> result unit str) : DaemonConfig :=
  let cfg := default_daemon_config env create_dir_all in
  let dir := default (puffer_dir cfg) (env_nonempty env (lit "WMBT_KV_PUFFER_DIR")) in
  mkDaemonConfig
    (shm_prefixes cfg ++ option_list (env_nonempty env (lit "WMBT_KV_DAEMON_SHM_PREFIX")))
    (tcp_addrs cfg ++ env_addrs env (lit "WMBT_KV_TCP")) (http_addrs cfg ++ env_addrs env (lit "WMBT_KV_HTTP"))
    (default (shm_depth cfg) (env_parse_u64 env (lit "WMBT_KV_DAEMON_SHM_DEPTH"))) (wait_strategy_from_env env)
    (one_or_more env (lit "WMBT_KV_TCP_TPC_THREADS") (tcp_tpc_threads cfg))
    (one_or_more env (lit "WMBT_KV_TCP_DISPATCH_WORKERS") (tcp_dispatch_workers cfg))
    (one_or_more env (lit "WMBT_KV_HTTP_TPC_THREADS") (http_tpc_threads cfg))
    (one_or_more env (lit "WMBT_KV_HTTP_DISPATCH_WORKERS") (http_dispatch_workers cfg))
    dir (env_parse_u64 env (lit "WMBT_KV_PUFFER_RAM_BYTES")) (env_parse_u64 env (lit "WMBT_KV_PUFFER_DISK_BYTES"))
    (env_parse_u64 env (lit "WMBT_KV_PUFFER_BLOCK_SIZE_BYTES"))
    (default (s3_prefix cfg) (env_nonempty env (lit "WMBT_KV_S3_PREFIX")))
    (default (join_path dir (lit "slatedb")) (env_nonempty env (lit "WMBT_KV_SLATEDB_PATH")))
    (default (dc_namespace cfg) (env_nonempty env (lit "WMBT_KV_NAMESPACE")))
    (env_parse_u64 env (lit "WMBT_KV_NAMESPACE_MAX_BYTES"))
    (default (eviction_interval cfg) (env_parse_u64 env (lit "WMBT_KV_EVICTION_INTERVAL_SECS")))
    (env_truthy env (lit "WMBT_KV_QUIET_BANNER"))
    (match env (lit "WMBT_KV_DAEMON_SHM_TRACE_DAEMON") with Some _ => true | None => false end)
    (env_truthy env (lit "WMBT_KV_PREFETCH_DRY_RUN")).
(** The lists the command line adds to. *)
Definition with_transports (prefixes tcp http : list str) (c : DaemonConfig) : DaemonConfig :=
  mkDaemonConfig prefixes tcp http (shm_depth c) (wait_strategy c) (tcp_tpc_threads c) (tcp_dispatch_workers c) (http_tpc_threads c)
    (http_dispatch_workers c) (puffer_dir c) (puffer_ram_bytes c) (puffer_disk_bytes c) (puffer_block_size_bytes c) (s3_prefix c)
    (slatedb_path c) (dc_namespace c) (dc_namespace_max_bytes c) (eviction_interval c) (quiet_banner c) (trace_daemon c)
    (prefetch_dry_run c).
Definition push_prefix (v : str) (c : DaemonConfig) : DaemonConfig := with_transports (shm_prefixes c ++ [v]) (tcp_addrs c) (http_addrs c) c.
Definition push_tcp (v : str) (c : DaemonConfig) : DaemonConfig := with_transports (shm_prefixes c) (tcp_addrs c ++ [v]) (http_addrs c) c.
Definition push_http (v : str) (c : DaemonConfig) : DaemonConfig := with_transports (shm_prefixes c) (tcp_addrs c) (http_addrs c ++ [v]) c.

(** ** The command line

    The loop over the arguments in [main]: the configuration and the [--tpc] flag, or
    the exit code. *)
Fixpoint parse_args (args : list str) (cfg : DaemonConfig) (tpc : bool) : result (DaemonConfig * bool) Z :=
  match args with
  | [] => Ok (cfg, tpc)
  | arg :: args =>
      if decide (arg = lit "--prefix") then
        match args with [] => Err EXIT_FAILURE | v :: args => parse_args args (push_prefix v cfg) tpc end
      else if decide (arg = lit "--tpc") then parse_args args cfg true
      else if decide (arg = lit "--tcp") then
        match args with [] => Err EXIT_FAILURE | v :: args => parse_args args (push_tcp v cfg) tpc end
      else if decide (arg = lit "--http") then
        match args with [] => Err EXIT_FAILURE | v :: args => parse_args args (push_http v cfg) tpc end
      else if decide (arg = lit "-h" \/ arg = lit "--help") then Err EXIT_SUCCESS
      else Err EXIT_FAILURE
  end.
(** The transport used when none is asked for, and the check of the prefixes. *)
Definition fall_back (cfg : DaemonConfig) : DaemonConfig :=
  match shm_prefixes cfg, tcp_addrs cfg, http_addrs cfg with
  | [], [], [] => push_prefix (lit "default") cfg
  | _, _, _ => cfg
  end.
Fixpoint validate_prefixes (prefixes : list str) : result unit WireCodecError :=
  match prefixes with [] => Ok tt | p :: rest => let? _ := validate_segment_name_budget p in validate_prefixes rest end.

(** ** What the command line says

    The arguments as a user means them. *)
Inductive CliItem := CliPrefix (v : str) | CliTcp (v : str) | CliHttp (v : str) | CliTpc.
Definition render (i : CliItem) : list str :=
  match i with
  | CliPrefix v => [lit "--prefix"; v] | CliTcp v => [lit "--tcp"; v] | CliHttp v => [lit "--http"; v] | CliTpc => [lit "--tpc"]
  end.
Definition cli_prefixes (items : list CliItem) : list str := omap (fun i => match i with CliPrefix v => Some v | _ => None end) items.
Definition cli_tcp (items : list CliItem) : list str := omap (fun i => match i with CliTcp v => Some v | _ => None end) items.
Definition cli_http (items : list CliItem) : list str := omap (fun i => match i with CliHttp v => Some v | _ => None end) items.
Definition cli_tpc (items : list CliItem) : bool := existsb (fun i => match i with CliTpc => true | _ => false end) items.
Definition with_cli (items : list CliItem) (c : DaemonConfig) : DaemonConfig :=
  with_transports (shm_prefixes c ++ cli_prefixes items) (tcp_addrs c ++ cli_tcp items) (http_addrs c ++ cli_http items) c.

Lemma with_cli_cons i items c :
  with_cli (i :: items) c = with_cli items (match i with
    | CliPrefix v => push_prefix v c | CliTcp v => push_tcp v c | CliHttp v => push_http v c | CliTpc => c end).
Proof. destruct i; unfold with_cli, push_prefix, push_tcp, push_http, with_transports; cbn; rewrite <- ?app_assoc; reflexivity. Qed.
Lemma with_cli_nil c : with_cli [] c = c.
Proof. destruct c. unfold with_cli, with_transports. cbn. by rewrite !app_nil_r. Qed.

(** The parser and [render] are inverse to each other; it succeeds on nothing else. *)
Lemma parse_render items c tpc : parse_args (concat (map render items)) c tpc = Ok (with_cli items c, tpc || cli_tpc items).
Proof.
  revert c tpc. induction items as [|i items IH]; intros c tpc; [by rewrite with_cli_nil, orb_false_r|].
  rewrite with_cli_cons. destruct i; cbn [map render concat app]; cbn [parse_args];
    repeat (first [rewrite decide_False by discriminate|rewrite decide_True by reflexivity]); rewrite IH; [done..|].
  cbn. by rewrite orb_true_r.
Qed.
Lemma parse_args_inv n args c tpc c' tpc' :
  (length args <= n)%nat -> parse_args args c tpc = Ok (c', tpc') -> exists items, args = concat (map render items).
Proof.
  revert args c tpc. induction n as [|n IH]; intros [|arg args] c tpc Hn; cbn [length] in Hn; try lia; [by exists []|by exists []|].
  cbn [parse_args]. 
  assert (forall (c0 : DaemonConfig) v rest mk, args = v :: rest -> arg :: args = render (mk v) ++ rest ->
            parse_args rest c0 tpc = Ok (c', tpc') -> exists items, arg :: args = concat (map render items)) as Hval.
  { intros c0 v rest mk -> Ea E. cbn [length] in Hn. apply IH in E as [items ->]; [|lia]. exists (mk v :: items). cbn [map concat]. done. }
  case_decide as E1; [subst arg; destruct args as [|v rest]; [done|]; by apply (Hval _ v rest CliPrefix)|].
  case_decide as E2; [subst arg; intros [items ->]%IH; [|lia]; by exists (CliTpc :: items)|].
  case_decide as E3; [subst arg; destruct args as [|v rest]; [done|]; by apply (Hval _ v rest CliTcp)|].
  case_decide as E4; [subst arg; destruct args as [|v rest]; [done|]; by apply (Hval _ v rest CliHttp)|].
  by case_decide.
Qed.
(** The command line alone ends the daemon without failure only for help. *)
Definition asks_help (args : list str) : Prop := lit "-h" ∈ args \/ lit "--help" ∈ args.
Lemma parse_args_help n args c tpc : (length args <= n)%nat -> parse_args args c tpc = Err EXIT_SUCCESS -> asks_help args.
Proof.
  revert args c tpc. induction n as [|n IH]; intros [|arg args] c tpc Hn; cbn [length] in Hn; try lia; [done|done|].
  cbn [parse_args].
  assert (forall rest, asks_help rest -> (exists v, args = v :: rest) \/ args = rest -> asks_help (arg :: args)) as Hsub.
  { intros rest [Hh|Hh] [[v ->]| ->]; [left|left|right|right]; set_solver. }
  assert (forall c0 v rest, args = v :: rest -> parse_args rest c0 tpc = Err EXIT_SUCCESS -> asks_help (arg :: args)) as Hval.
  { intros c0 v rest -> E. apply IH in E; [|cbn [length] in Hn; lia]. apply (Hsub rest); [done|]. left. by exists v. }
  case_decide; [destruct args as [|v rest]; [done|]; by apply (Hval _ v rest)|].
  case_decide; [intros E; apply IH in E; [|lia]; apply (Hsub args); [done|by right]|].
  case_decide; [destruct args as [|v rest]; [done|]; by apply (Hval _ v rest)|].
  case_decide; [destruct args as [|v rest]; [done|]; by apply (Hval _ v rest)|].
  case_decide as Eh; [|done]. intros _. destruct Eh as [-> | ->]; [left|right]; left.
Qed.
Lemma parse_args_ok args c c' tpc :
  parse_args args c false = Ok (c', tpc) -> exists items, args = concat (map render items) /\ c' = with_cli items c /\ tpc = cli_tpc items.
Proof.
  intros E. destruct (parse_args_inv (length args) _ _ _ _ _ (le_n _) E) as [items ->]. rewrite parse_render in E.
  injection E as <- <-. by exists items.
Qed.

Lemma validate_prefixes_ok ps : validate_prefixes ps = Ok tt -> Forall (fun p => len p <= 14) ps.
Proof.
  induction ps as [|p ps IH]; cbn [validate_prefixes]; [constructor|]. unfold res_bind at 1.
  destruct (validate_segment_name_budget p) as [[]|e] eqn:E; [|done]. intros Hps. constructor; [|by apply IH].
  by apply segment_name_budget.
Qed.
Lemma one_or_more_bound env key d : 1 <= d -> 1 <= one_or_more env key d.
Proof. intros Hd. unfold one_or_more. destruct (env_parse_u64 env key); lia. Qed.

Section Startup.
Context {H : Type} {B : Type} `{!Bucket B} {D : Type} `{!SlateMeta.SlateDb D} `{!SlateMeta.Rkyv} `{!HybridCache H} `{!Zstd}
  {R : Type} {P : Type} {Q : Type} `{!Texts}.
Abbreviation S3 := (S3ObjectStore B).
Abbreviation Slate := (@SlateMeta.SlateDbMetadataIndex D).
Abbreviation KvStore := (WombatKVKvStore S3 H).
Abbreviation Dm := (Daemon S3 H Slate).
(** The outside world as in [CabiInit], and what opening the arena meets. *)
Context (o : Outside B D R P Q) (opened sized mapped : result unit str).
Abbreviation env := (o_env o).

Definition daemon_puffer_config (cfg : DaemonConfig) : FoyerCacheConfig :=
  let foyer := default_foyer_config in
  mkFoyerCacheConfig (default (ram_bytes foyer) (puffer_ram_bytes cfg)) (puffer_dir cfg) (default (ssd_bytes foyer) (puffer_disk_bytes cfg))
    (default (block_size foyer) (puffer_block_size_bytes cfg)) (buffer_pool_size foyer) false.
(** A store over the S3 of the environment: the body of [build_store], which the
    benchmarks repeat with a configuration of their own. *)
Definition open_kv_store (foyer : FoyerCacheConfig) (prefix : str) (cache : CapabilityCache) : CapabilityCache * result KvStore str :=
  match s3_config_from_env env with
  | Err err => (cache, Err (wal_error_debug err))
  | Ok s3_cfg =>
      match s3_new env (o_credentials o) (o_bucket o s3_cfg) (o_runtime o) (o_run o) s3_cfg with
      | Err err => (cache, Err (wal_error_debug err))
      | Ok s3 =>
          let '((cache, s3), r) := ensure_bucket (o_probe_ns o) (cache, s3) in
          match r with
          | Err err => (cache, Err (wal_error_debug err))
          | Ok _ =>
              let config := mkEmbedConfig prefix foyer true (Compression.from_env env) in
              (cache, map_err embed_text
                 (kv_new config s3 (o_disk o (join_path (ssd_dir foyer) (lit "_flat"))) (o_foyer_parent o) (o_foyer_dir o) (o_foyer_runtime o)))
          end
      end
  end.
Definition build_store (cfg : DaemonConfig) (cache : CapabilityCache) : CapabilityCache * result KvStore str :=
  open_kv_store (daemon_puffer_config cfg) (s3_prefix cfg) cache.
Definition daemon_hostname_or_default : str := hostname_or_default env.
(** [open_slatedb_index_from_env] and the bootstrap: a failure to open is printed and
    the daemon goes on without the index; the outer error is a panic. *)
Definition open_slatedb_index_from_env (cfg : DaemonConfig) : result (option Slate) str :=
  let node_id := default daemon_hostname_or_default (env_nonempty env (lit "MYELON_NODE_ID")) in
  let? opened := open_local o (slatedb_path cfg) node_id (dc_namespace cfg) in
  Ok (match opened with Ok idx => Some idx | Err _ => None end).
Definition hydrate (slatedb : option Slate) (store : KvStore) : result (KvStore * option Slate) str :=
  match slatedb with
  | None => Ok (store, None)
  | Some idx => let '((store, idx), r) := bootstrap_from_slatedb (store, idx) in let? _ := r in Ok (store, Some idx)
  end.

(** A thread that serves an address, with its shards and its pool. *)
Record Listener := mkListener { ls_addr : str; ls_tpc : Z; ls_dispatch_workers : Z }.
(** What [main] has made when it starts to serve. *)
Record Started := mkStarted {
  st_daemon : Dm; st_prefixes : list str; st_depth : Z; st_tcp : list Listener; st_http : list Listener;
  st_eviction : option LruConfig; st_tpc : bool
}.
Inductive MainResult := Exits (code : Z) | MainPanics | Serves (st : Started).

Definition start_serving (cfg : DaemonConfig) (tpc : bool) (store : KvStore) (slatedb : option Slate) (arena : option ArenaShared) : Started :=
  mkStarted (mkDaemon store arena slatedb 0 []) (shm_prefixes cfg) (shm_depth cfg)
    (map (fun addr => mkListener addr (tcp_tpc_threads cfg) (tcp_dispatch_workers cfg)) (tcp_addrs cfg))
    (map (fun addr => mkListener addr (http_tpc_threads cfg) (http_dispatch_workers cfg)) (http_addrs cfg))
    (lru_from_env env (dc_namespace cfg)) tpc.
(** [main] once its configuration is known. *)
Definition open_and_serve (cfg : DaemonConfig) (tpc : bool) (cache : CapabilityCache) : MainResult :=
  match snd (build_store cfg cache) with
  | Err _ => Exits EXIT_FAILURE
  | Ok store =>
      match (let? slatedb := open_slatedb_index_from_env cfg in hydrate slatedb store) with
      | Err _ => MainPanics
      | Ok (store, slatedb) =>
          match build_arena env opened sized mapped with
          | None => MainPanics
          | Some (Err _) => Exits EXIT_FAILURE
          | Some (Ok arena) => Serves (start_serving cfg tpc store slatedb arena)
          end
      end
  end.
Definition daemon_main (args : list str) (cache : CapabilityCache) : MainResult :=
  match parse_args args (daemon_config_from_env env (o_create_dir_all o)) false with
  | Err code => Exits code
  | Ok (cfg, tpc) =>
      let cfg := fall_back cfg in
      match validate_prefixes (shm_prefixes cfg) with
      | Err _ => Exits 2
      | Ok _ => open_and_serve cfg tpc cache
      end
  end.

(** ** How [main] ends

    The exit code and whether the drain ran: with addresses and no prefix the main
    thread only waits for the flag; else it waits for its workers. *)
Definition daemon_end (host : ShardHost) (st : Started) (spawned : bool) (workers : list Worker) : Z * bool :=
  match st_prefixes st, st_tcp st, st_http st with
  | [], _ :: _, _ | [], _, _ :: _ => (EXIT_SUCCESS, false)
  | _, _, _ =>
      if st_tpc st then run_tpc host (map join_result workers)
      else run_legacy_per_prefix (if spawned then Some (map join_result workers) else None)
  end.
(** Who else owns the index when [main] wants to close it: the listeners that still run
    and the eviction worker. *)
Definition other_owners (st : Started) (listening : Z) : Z :=
  listening + match st_eviction st with Some _ => 1 | None => 0 end.

(** ** What the daemon starts as *)
Definition daemon_store_as_asked (k : KvStore) : Prop :=
  kv_s3_prefix k = default (lit "kv/puffer-shm") (env_nonempty env (lit "WMBT_KV_S3_PREFIX")) /\
  kv_write_through_s3 k = true /\ kv_compression k = Compression.from_env env /\
  env (lit "WMBT_KV_BUCKET") = Some (s3_bucket_name (kv_object_store k)).
Lemma build_store_as_asked cfg cache k :
  s3_prefix cfg = default (lit "kv/puffer-shm") (env_nonempty env (lit "WMBT_KV_S3_PREFIX")) ->
  snd (build_store cfg cache) = Ok k -> daemon_store_as_asked k.
Proof.
  intros Ep. unfold build_store, open_kv_store. destruct (s3_config_from_env env) as [s3_cfg|e] eqn:Ec; [|done].
  destruct (s3_new _ _ _ _ _ _) as [s3|e] eqn:En; [|done].
  destruct (s3_config_ok env s3_cfg Ec) as (Hb & _). destruct (s3_new_ok _ _ _ _ _ _ _ En) as (Hs & _).
  pose proof (named_ensure (o_probe_ns o) cache s3) as Hn.
  destruct (ensure_bucket (o_probe_ns o) (cache, s3)) as [[cache1 s31] [[]|e]]; cbn [fst snd] in *; [|done].
  unfold kv_new. cbn [ec_s3_prefix ec_foyer ec_write_through_s3 ec_compression]. case_decide; [done|].
  unfold res_bind, map_err. destruct (flat_open _); [|done]. destruct (foyer_open _ _ _ _); [|done].
  intros <-%Ok_inj. do 3 (split; [done|]). cbn. congruence.
Qed.
Lemma hydrate_as_asked slatedb k k' slatedb' :
  daemon_store_as_asked k -> hydrate slatedb k = Ok (k', slatedb') -> daemon_store_as_asked k'.
Proof.
  intros Hk. unfold hydrate. destruct slatedb as [idx|]; [|by intros [= <- <-]].
  unfold bootstrap_from_slatedb. destruct (idx_entries idx) as [idx1 [es|e]]; cbn [res_bind]; [|done]. by intros [= <- <-].
Qed.
(** The transports a daemon was asked to serve. *)
Definition asked_prefixes (items : list CliItem) : list str :=
  option_list (env_nonempty env (lit "WMBT_KV_DAEMON_SHM_PREFIX")) ++ cli_prefixes items.
Definition asked_tcp (items : list CliItem) : list str := env_addrs env (lit "WMBT_KV_TCP") ++ cli_tcp items.
Definition asked_http (items : list CliItem) : list str := env_addrs env (lit "WMBT_KV_HTTP") ++ cli_http items.
Definition served_prefixes (items : list CliItem) : list str :=
  match asked_prefixes items, asked_tcp items, asked_http items with [], [], [] => [lit "default"] | ps, _, _ => ps end.
Definition started_as_asked (items : list CliItem) (st : Started) : Prop :=
  st_prefixes st = served_prefixes items /\ map ls_addr (st_tcp st) = asked_tcp items /\ map ls_addr (st_http st) = asked_http items /\
  st_tpc st = cli_tpc items /\
  Forall (fun p => len p <= 14) (st_prefixes st) /\
  Forall (fun l => 1 <= ls_tpc l /\ 1 <= ls_dispatch_workers l) (st_tcp st ++ st_http st) /\
  daemon_store_as_asked (dm_store (st_daemon st)) /\ async_put_inflight (st_daemon st) = 0 /\ dm_jobs (st_daemon st) = [] /\
  st_eviction st = lru_from_env env (default (lit "default") (env_nonempty env (lit "WMBT_KV_NAMESPACE"))).

Lemma fall_back_keeps c :
  exists ps, fall_back c = with_transports ps (tcp_addrs c) (http_addrs c) c /\
    ps = match shm_prefixes c, tcp_addrs c, http_addrs c with [], [], [] => [lit "default"] | ps, _, _ => ps end.
Proof.
  unfold fall_back, push_prefix. destruct c as [ps tcp http]. cbn [shm_prefixes tcp_addrs http_addrs].
  destruct ps; [|by eexists]. destruct tcp; [|by eexists]. destruct http; by eexists.
Qed.
Lemma open_and_serve_as_asked items ps cfg cache :
  let base := with_cli items (daemon_config_from_env env (o_create_dir_all o)) in
  cfg = with_transports ps (tcp_addrs base) (http_addrs base) base -> ps = served_prefixes items -> Forall (fun p => len p <= 14) ps ->
  match open_and_serve cfg (cli_tpc items) cache with
  | Exits code => code = EXIT_FAILURE
  | MainPanics => True
  | Serves st => started_as_asked items st
  end.
Proof.
  intros base -> Hps Hlen. subst base. unfold open_and_serve.
  destruct (snd (build_store _ _)) as [k|e] eqn:Eb; [|done]. apply build_store_as_asked in Eb; [|reflexivity].
  unfold res_bind at 1. destruct (open_slatedb_index_from_env _) as [slatedb|e]; [|done].
  destruct (hydrate slatedb k) as [[k' slatedb']|e] eqn:Eh; [|done]. apply hydrate_as_asked in Eh; [|done].
  destruct (build_arena _ _ _ _) as [[arena|e]|]; [|done|done].
  split; [exact Hps|]. split; [cbn; rewrite map_map; by apply map_id|]. split; [cbn; rewrite map_map; by apply map_id|].
  split; [reflexivity|]. split; [exact Hlen|]. split; [|by do 3 (split; [done|])].
  apply Forall_app. split; apply Forall_map, Forall_true; intros addr; (split; apply one_or_more_bound; cbn; lia).
Qed.


(** ** What the ending misses *)

(** A daemon that serves only addresses exits without waiting for the writes it has
    acknowledged and without closing SlateDB. *)
Lemma remote_only_skips_drain host st spawned workers :
  st_prefixes st = [] -> st_tcp st <> [] -> daemon_end host st spawned workers = (EXIT_SUCCESS, false).
Proof. intros E1 E2. unfold daemon_end. rewrite E1. by destruct (st_tcp st). Qed.
(** With eviction on, or a listener, SlateDB is never closed. *)
Lemma owned_index_is_not_closed st listening closed :
  0 <= listening -> (0 < listening \/ is_Some (st_eviction st)) ->
  close_slatedb_best_effort (other_owners st listening) closed = SlateCloseSkipped.
Proof.
  intros Hl Ho. unfold close_slatedb_best_effort, other_owners. rewrite decide_False; [done|].
  destruct (st_eviction st); [lia|]. destruct Ho as [?|[]]; [lia|done].
Qed.
End Startup.

(** ** A concrete start *)
Import SampleInit.
(** What came of it: the exit code, or the prefixes and addresses. *)
Definition start_summary (vars : list (str * str)) (args : list str) : option (Z + list str * list str) :=
  match daemon_main (H := MapCache) (outside (with_vars vars)) (Ok tt) (Ok tt) (Ok tt) args (mkCapabilityCache ∅ false) with
  | Exits code => Some (inl code)
  | MainPanics => None
  | Serves st => Some (inr (st_prefixes st, map ls_addr (st_tcp st)))
  end.
Example start_with_prefix :
  start_summary [(lit "WMBT_KV_BUCKET", lit "mine"); (lit "WMBT_KV_TCP", lit " a:1 ,,b:2")] [lit "--prefix"; lit "p"; lit "--tcp"; lit "c:3"]
  = Some (inr ([lit "p"], [lit "a:1"; lit "b:2"; lit "c:3"])).
Proof. vm_compute. reflexivity. Qed.
Example start_by_default : start_summary [(lit "WMBT_KV_BUCKET", lit "mine")] [] = Some (inr ([lit "default"], [])).
Proof. vm_compute. reflexivity. Qed.
Example start_without_bucket : start_summary [] [lit "--tpc"] = Some (inl EXIT_FAILURE).
Proof. vm_compute. reflexivity. Qed.
Example start_long_prefix : start_summary [(lit "WMBT_KV_BUCKET", lit "mine")] [lit "--prefix"; lit "fifteen-letters"] = Some (inl 2).
Proof. vm_compute. reflexivity. Qed.
