(* ===== verification/Listen.v ===== *)
(** * The daemon's network listeners ([tcp_transport.rs] and [http_transport.rs])

    Models [serve_tcp_compio_bridge] and [serve_http_compio_bridge]: the shards that
    accept connections on one address, the identifiers they give them, the pool of
    dispatch workers they share, and the connections, which take their turns in any
    order.

    What a bridge needs of a wire protocol is the class [Protocol] with its laws, which
    the connections of [Tcp] and of [Http] have; the theorem about listeners is proved
    against it. *)

From S2P Require Import Prelude Order Text Strings Envelope Wire Rpc Tcp Http HttpSpec.

(** ** Protocols *)
Inductive Progress := Waiting | Continuing | Over.
Abbreviation Dispatch St := (Z -> WireRequest -> St -> option (St * WireResponse)).
(** One exchange on a connection: the bytes it takes, those it writes, and the request
    it dispatches with its response, if it does. *)
Record Exchanged := mkExchanged { ex_in : bytes; ex_out : bytes; ex_call : option (WireRequest * WireResponse) }.

(** A turn of a connection's loop; what has arrived and is not used up, and what was
    written; bytes arriving, and the end of the stream; which bytes make an exchange. *)
Class Protocol (St C : Type) := {
  pr_turn : Dispatch St -> Z -> Pool St -> C -> Pool St * C * Progress;
  pr_unread : C -> bytes;
  pr_out : C -> bytes;
  pr_arrive : bytes -> C -> C;
  pr_end : Ending -> C -> C;
  pr_exchange : Exchanged -> Prop
}.
Definition called {St} (dispatch : Dispatch St) (id : Z) (ex : Exchanged) : Prop :=
  match ex_call ex with Some (req, resp) => exists s s', dispatch id req s = Some (s', resp) | None => True end.
Class ProtocolLaws (St C : Type) `{!Protocol St C} := {
  law_arrive b (c : C) : pr_unread (pr_arrive b c) = pr_unread c ++ b /\ pr_out (pr_arrive b c) = pr_out c;
  law_end e (c : C) : pr_unread (pr_end e c) = pr_unread c /\ pr_out (pr_end e c) = pr_out c;
  (** A turn waits, is one exchange, or ends the connection, maybe while writing. *)
  law_turn dispatch id (p p' : Pool St) (c c' : C) g :
    pr_turn dispatch id p c = (p', c', g) ->
    match g with
    | Waiting => c' = c
    | Continuing => exists ex, pr_exchange ex /\ called dispatch id ex /\ pr_unread c = ex_in ex ++ pr_unread c' /\ pr_out c' = pr_out c ++ ex_out ex
    | Over => pr_out c' = pr_out c \/
        exists ex rest cut, pr_exchange ex /\ called dispatch id ex /\ pr_unread c = ex_in ex ++ rest /\
          cut `prefix_of` ex_out ex /\ pr_out c' = pr_out c ++ cut
    end
}.

(** ** A bridge *)
Section Bridge.
Context {St C : Type} `{!Protocol St C} (dispatch : Dispatch St).

(** A connection with its identifier; [cx_arrived] is all that ever arrived on it. *)
Record Connection := mkConnection { cx_id : Z; cx_conn : C; cx_over : bool; cx_arrived : bytes }.
(** A shard: whether it listens, the next identifier, and its connections. *)
Record Shard := mkShard { sh_up : bool; sh_conn_seq : Z; sh_conns : list Connection }.
Record Bridge := mkBridge { br_pool : Pool St; br_shards : list Shard }.

Definition first_conn_id (shard_id : Z) : Z := Z.lor (Z.shiftl shard_id 32) 1.
(** The shards come up one by one; [setup] is the outcome of the runtime and of the
    calls that make the socket. *)
Definition new_shard (setup : nat -> result unit str) (shard_id : nat) : Shard :=
  mkShard (match setup shard_id with Ok _ => true | Err _ => false end) (first_conn_id (Z.of_nat shard_id)) [].
(** The threads are spawned in order, up to the first that cannot be. *)
Fixpoint spawn_shards (spawned setup : nat -> result unit str) (n shard_id : nat) : list Shard * result unit str :=
  match n with
  | O => ([], Ok tt)
  | S n =>
      match spawned shard_id with
      | Err e => ([], Err e)
      | Ok _ => let (shards, r) := spawn_shards spawned setup n (S shard_id) in (new_shard setup shard_id :: shards, r)
      end
  end.
Definition bridge_start (tpc_threads dispatch_workers : Z) (s : St) (spawned setup : nat -> result unit str) : Bridge * result unit str :=
  let (shards, r) := spawn_shards spawned setup (Z.to_nat (Z.max tpc_threads 1)) 0 in
  (mkBridge (spawn_dispatch_workers dispatch_workers s) shards, r).

(** What happens on a shard: a connection is accepted, or accepting fails or times out;
    bytes arrive on a connection, or its end; a connection takes a turn; the state the
    dispatchers share is changed elsewhere. *)
Inductive BridgeEvent :=
| EvAccept (shard : nat) (c : C) | EvAcceptFails (shard : nat) | EvArrive (shard conn : nat) (b : bytes)
| EvEnd (shard conn : nat) (e : Ending) | EvTurn (shard conn : nat) | EvElsewhere (s : St).
Definition with_shard (i : nat) (sh : Shard) (br : Bridge) : Bridge := mkBridge (br_pool br) (<[i := sh]> (br_shards br)).
Definition with_conn (j : nat) (cx : Connection) (sh : Shard) : Shard := mkShard (sh_up sh) (sh_conn_seq sh) (<[j := cx]> (sh_conns sh)).
(** The accept loop of a shard; its shutdown flag is never set. *)
Definition accept (c : C) (sh : Shard) : Shard :=
  if sh_up sh
  then mkShard true (wrap64 (sh_conn_seq sh + 1)) (sh_conns sh ++ [mkConnection (sh_conn_seq sh) c false []])
  else sh.
Definition arrive (b : bytes) (cx : Connection) : Connection :=
  if cx_over cx then cx else mkConnection (cx_id cx) (pr_arrive b (cx_conn cx)) false (cx_arrived cx ++ b).
Definition finish (e : Ending) (cx : Connection) : Connection :=
  if cx_over cx then cx else mkConnection (cx_id cx) (pr_end e (cx_conn cx)) false (cx_arrived cx).
Definition take_turn (p : Pool St) (cx : Connection) : Pool St * Connection :=
  if cx_over cx then (p, cx) else
  let '(p, c, g) := pr_turn dispatch (cx_id cx) p (cx_conn cx) in
  (p, mkConnection (cx_id cx) c (match g with Over => true | _ => false end) (cx_arrived cx)).
Definition on_conn (i j : nat) (f : Pool St -> Connection -> Pool St * Connection) (br : Bridge) : Bridge :=
  match br_shards br !! i with
  | None => br
  | Some sh =>
      match sh_conns sh !! j with
      | None => br
      | Some cx => let (p, cx) := f (br_pool br) cx in mkBridge p (<[i := with_conn j cx sh]> (br_shards br))
      end
  end.
Definition bridge_event (br : Bridge) (ev : BridgeEvent) : Bridge :=
  match ev with
  | EvAccept i c => match br_shards br !! i with Some sh => with_shard i (accept c sh) br | None => br end
  | EvAcceptFails _ => br
  | EvArrive i j b => on_conn i j (fun p cx => (p, arrive b cx)) br
  | EvEnd i j e => on_conn i j (fun p cx => (p, finish e cx)) br
  | EvTurn i j => on_conn i j take_turn br
  | EvElsewhere s => mkBridge (mkPool s (pl_workers (br_pool br))) (br_shards br)
  end.

(** [serve_tcp_compio_bridge] and [serve_http_compio_bridge] return at once when a
    thread could not be spawned, and else when no shard listens: [None] while one does. *)
Definition bridge_result (started : result unit str) (br : Bridge) : option (result unit str) :=
  match started with
  | Err e => Some (Err e)
  | Ok _ => if existsb sh_up (br_shards br) then None else Some (Ok tt)
  end.

(** ** Identifiers *)
Lemma first_conn_id_eq i : 0 <= i -> first_conn_id i = i * 2 ^ 32 + 1.
Proof.
  intros Hi. unfold first_conn_id. rewrite <- Z.shiftl_mul_pow2 by lia.
  rewrite Z.add_nocarry_lxor.
  - apply Z.bits_inj'. intros n Hn. rewrite Z.lor_spec, Z.lxor_spec. destruct (Z.eq_dec n 0) as [->|Hne].
    + by rewrite Z.shiftl_spec_low by lia.
    + replace (Z.testbit 1 n) with false; [by rewrite orb_false_r, xorb_false_r|]. symmetry. apply Z.bits_above_log2; cbn; lia.
  - apply Z.bits_inj'. intros n Hn. rewrite Z.land_spec, Z.bits_0. destruct (Z.eq_dec n 0) as [->|Hne].
    + by rewrite Z.shiftl_spec_low by lia.
    + replace (Z.testbit 1 n) with false; [by rewrite andb_false_r|]. symmetry. apply Z.bits_above_log2; cbn; lia.
Qed.
Definition shard_ok (i : nat) (sh : Shard) : Prop :=
  sh_conn_seq sh = wrap64 (first_conn_id (Z.of_nat i) + Z.of_nat (length (sh_conns sh))) /\
  forall j cx, sh_conns sh !! j = Some cx -> cx_id cx = wrap64 (first_conn_id (Z.of_nat i) + Z.of_nat j).
Definition ids_ok (br : Bridge) : Prop := forall i sh, br_shards br !! i = Some sh -> shard_ok i sh.

Lemma spawned_ok spawned setup n i0 i sh :
  Z.of_nat (i0 + n) < 4294967296 -> (spawn_shards spawned setup n i0).1 !! i = Some sh -> shard_ok (i0 + i) sh /\ sh_conns sh = [].
Proof.
  revert i0 i. induction n as [|n IH]; intros i0 i Hn; cbn [spawn_shards]; [done|]. destruct (spawned i0); [|done].
  specialize (IH (S i0)). destruct (spawn_shards spawned setup n (S i0)) as [shards r]. destruct i as [|i]; cbn [fst lookup list_lookup].
  - intros [= <-]. rewrite Nat.add_0_r. split; [|done]. split; [|done]. cbn [new_shard sh_conn_seq sh_conns length]. unfold wrap64.
    rewrite first_conn_id_eq by lia. rewrite Z.mod_small; lia.
  - intros E. rewrite <- Nat.add_succ_comm. apply IH; [lia|done].
Qed.
Lemma accept_ok i c sh : shard_ok i sh -> shard_ok i (accept c sh).
Proof.
  intros [Hs Hc]. unfold accept. destruct (sh_up sh); [|done]. split; cbn [sh_conn_seq sh_conns].
  - rewrite length_app, Hs. cbn [length]. unfold wrap64. rewrite Zplus_mod_idemp_l. f_equal. lia.
  - intros j cx [E|[Hj E]]%lookup_app_Some; [by apply Hc|]. apply list_lookup_singleton_Some in E as [Ej <-]. cbn [cx_id].
    rewrite Hs. f_equal. lia.
Qed.
(** Connections keep their identifiers and their places. *)
Definition keeps_id (f : Pool St -> Connection -> Pool St * Connection) : Prop := forall p cx, cx_id (f p cx).2 = cx_id cx.
Lemma arrive_keeps b : keeps_id (fun p cx => (p, arrive b cx)).
Proof. intros p cx. cbn. unfold arrive. by destruct (cx_over cx). Qed.
Lemma finish_keeps e : keeps_id (fun p cx => (p, finish e cx)).
Proof. intros p cx. cbn. unfold finish. by destruct (cx_over cx). Qed.
Lemma turn_keeps : keeps_id take_turn.
Proof. intros p cx. unfold take_turn. destruct (cx_over cx); [done|]. by destruct (pr_turn _ _ _ _) as [[p' c] g]. Qed.
Lemma with_conn_ok i j cx cx' sh :
  sh_conns sh !! j = Some cx -> cx_id cx' = cx_id cx -> shard_ok i sh -> shard_ok i (with_conn j cx' sh).
Proof.
  intros Ej Eid [Hs Hc]. split; cbn [with_conn sh_conn_seq sh_conns]; [by rewrite length_insert|].
  intros k cy Ek. destruct (decide (k = j)) as [->|Hne].
  - rewrite list_lookup_insert_eq in Ek by (by apply lookup_lt_Some in Ej). injection Ek as <-. rewrite Eid. by apply Hc.
  - rewrite list_lookup_insert_ne in Ek by done. by apply Hc.
Qed.
Lemma ids_insert i sh p br : ids_ok br -> shard_ok i sh -> ids_ok (mkBridge p (<[i := sh]> (br_shards br))).
Proof.
  intros Hb Hs k sh' Ek. cbn [br_shards] in Ek. apply list_lookup_insert_Some in Ek as [(-> & -> & _)|[_ Ek]]; [done|by apply Hb].
Qed.
Lemma event_ids br ev : ids_ok br -> ids_ok (bridge_event br ev).
Proof.
  assert (forall i j f, keeps_id f -> ids_ok br -> ids_ok (on_conn i j f br)) as Hon.
  { intros i j f Hf Hb. unfold on_conn. destruct (br_shards br !! i) as [sh|] eqn:Ei; [|done].
    destruct (sh_conns sh !! j) as [cx|] eqn:Ej; [|done]. pose proof (Hf (br_pool br) cx) as Hid.
    destruct (f (br_pool br) cx) as [p cx']. apply ids_insert; [done|]. eapply with_conn_ok; [done|done|by apply Hb]. }
  intros Hb. destruct ev as [i c|i|i j b|i j e|i j|s]; cbn [bridge_event]; [|done|..|done].
  - destruct (br_shards br !! i) as [sh|] eqn:Ei; [|done]. apply ids_insert; [done|]. by apply accept_ok, Hb.
  - apply Hon; [apply arrive_keeps|done].
  - apply Hon; [apply finish_keeps|done].
  - apply Hon; [apply turn_keeps|done].
Qed.
Lemma events_ids evs br : ids_ok br -> ids_ok (foldl bridge_event br evs).
Proof. revert br. induction evs as [|ev evs IH]; intros br Hb; cbn [foldl]; [done|]. by apply IH, event_ids. Qed.
(** Different connections have different identifiers while no shard has accepted more
    than 2^32 of them. *)
Definition few_conns (sh : Shard) : Prop := Z.of_nat (length (sh_conns sh)) <= 4294967296.
#[export] Instance few_conns_dec sh : Decision (few_conns sh) := decide_rel Z.le _ _.
Lemma ids_apart br i j i' j' sh sh' cx cx' :
  ids_ok br -> Z.of_nat (length (br_shards br)) < 4294967296 -> Forall few_conns (br_shards br) ->
  br_shards br !! i = Some sh -> sh_conns sh !! j = Some cx -> br_shards br !! i' = Some sh' -> sh_conns sh' !! j' = Some cx' ->
  cx_id cx = cx_id cx' -> i = i' /\ j = j'.
Proof.
  intros Hb Hn Hf Ei Ej Ei' Ej' E. destruct (Hb _ _ Ei) as [_ Hs]. destruct (Hb _ _ Ei') as [_ Hs'].
  pose proof (Forall_lookup_1 _ _ _ _ Hf Ei) as Hl. pose proof (Forall_lookup_1 _ _ _ _ Hf Ei') as Hl'. unfold few_conns in Hl, Hl'.
  apply lookup_lt_Some in Ei, Ei'. pose proof (lookup_lt_Some _ _ _ Ej). pose proof (lookup_lt_Some _ _ _ Ej').
  rewrite (Hs _ _ Ej), (Hs' _ _ Ej') in E. rewrite !first_conn_id_eq in E by lia. unfold wrap64 in E.
  change (2 ^ 32) with 4294967296 in E. rewrite !Z.mod_small in E by lia. lia.
Qed.

(** ** Exchanges *)

(** What a connection has been told and has answered: what arrived on it is a sequence
    of exchanges and what it has not used; what it wrote is their replies, in order, of
    which the last may be cut when the connection is over; and each request was
    dispatched under the connection's own identifier. *)
Definition conn_ok (cx : Connection) : Prop :=
  exists exs, Forall (fun ex => pr_exchange ex /\ called dispatch (cx_id cx) ex) exs /\
    if cx_over cx
    then (exists rest, cx_arrived cx = concat (map ex_in exs) ++ rest) /\ pr_out (cx_conn cx) `prefix_of` concat (map ex_out exs)
    else cx_arrived cx = concat (map ex_in exs) ++ pr_unread (cx_conn cx) /\ pr_out (cx_conn cx) = concat (map ex_out exs).
Definition conns_ok (br : Bridge) : Prop := Forall (fun sh => Forall conn_ok (sh_conns sh)) (br_shards br).

Section Laws.
Context `{!ProtocolLaws St C}.
Lemma arrive_conn b cx : conn_ok cx -> conn_ok (arrive b cx).
Proof.
  intros Hc. unfold arrive. destruct (cx_over cx) eqn:Eo; [done|]. destruct Hc as (exs & Hf & Hrest). rewrite Eo in Hrest.
  destruct Hrest as [Ha Ho]. destruct (law_arrive b (cx_conn cx)) as [Hu Hw]. exists exs. split; [done|]. cbn [cx_over cx_arrived cx_conn].
  by rewrite Hu, Hw, Ha, app_assoc.
Qed.
Lemma finish_conn e cx : conn_ok cx -> conn_ok (finish e cx).
Proof.
  intros Hc. unfold finish. destruct (cx_over cx) eqn:Eo; [done|]. destruct Hc as (exs & Hf & Hrest). rewrite Eo in Hrest.
  destruct (law_end e (cx_conn cx)) as [Hu Hw]. exists exs. split; [done|]. cbn [cx_over cx_arrived cx_conn]. by rewrite Hu, Hw.
Qed.
Lemma turn_conn p cx : conn_ok cx -> conn_ok (take_turn p cx).2.
Proof.
  intros Hc. unfold take_turn. destruct (cx_over cx) eqn:Eo; [done|]. destruct Hc as (exs & Hf & Hrest). rewrite Eo in Hrest.
  destruct Hrest as [Ha Ho]. destruct (pr_turn dispatch (cx_id cx) p (cx_conn cx)) as [[p' c'] g] eqn:Et. apply law_turn in Et.
  unfold conn_ok. cbn [fst snd cx_id cx_over cx_arrived cx_conn]. destruct g.
  - subst c'. by exists exs.
  - destruct Et as (ex & Hx & Hcall & Hu & Hw). exists (exs ++ [ex]). split; [by apply Forall_app; split; [|apply Forall_singleton]|].
    rewrite !map_app, !concat_app. cbn [map concat]. rewrite !app_nil_r, Ha, Hu, Hw, Ho, app_assoc. done.
  - destruct Et as [Hw|(ex & rest & cut & Hx & Hcall & Hu & Hcut & Hw)].
    + exists exs. split; [done|]. split; [by eexists|]. by rewrite Hw, Ho.
    + exists (exs ++ [ex]). split; [by apply Forall_app; split; [|apply Forall_singleton]|].
      rewrite !map_app, !concat_app. cbn [map concat]. rewrite !app_nil_r, Ha, Hu, Hw, Ho. split; [exists rest; by rewrite app_assoc|].
      by apply prefix_app.
Qed.
Lemma event_conns br ev :
  (forall i c, ev = EvAccept i c -> pr_unread c = [] /\ pr_out c = []) -> conns_ok br -> conns_ok (bridge_event br ev).
Proof.
  assert (forall i j f, (forall p cx, conn_ok cx -> conn_ok (f p cx).2) -> conns_ok br -> conns_ok (on_conn i j f br)) as Hon.
  { intros i j f Hf Hb. unfold on_conn. destruct (br_shards br !! i) as [sh|] eqn:Ei; [|done].
    destruct (sh_conns sh !! j) as [cx|] eqn:Ej; [|done]. pose proof (Forall_lookup_1 _ _ _ _ Hb Ei) as Hsh.
    pose proof (Hf (br_pool br) cx (Forall_lookup_1 _ _ _ _ Hsh Ej)) as Hcx. destruct (f (br_pool br) cx) as [p cx'].
    apply Forall_insert; [done|]. by apply Forall_insert. }
  intros Hnew Hb. destruct ev as [i c|i|i j b|i j e|i j|s]; cbn [bridge_event]; [|done|..|done].
  - destruct (br_shards br !! i) as [sh|] eqn:Ei; [|done]. pose proof (Forall_lookup_1 _ _ _ _ Hb Ei) as Hsh. apply Forall_insert; [done|].
    unfold accept. destruct (sh_up sh); [|done]. apply Forall_app. split; [done|]. apply Forall_singleton.
    destruct (Hnew i c eq_refl) as [Hu Ho]. exists []. split; [constructor|]. cbn. by rewrite Hu, Ho.
  - apply Hon; [intros; by apply arrive_conn|done].
  - apply Hon; [intros; by apply finish_conn|done].
  - apply Hon; [intros; by apply turn_conn|done].
Qed.
(** A connection is accepted before anything arrives on it. *)
Definition fresh_accepts (evs : list BridgeEvent) : Prop :=
  Forall (fun ev => match ev with EvAccept _ c => pr_unread c = [] /\ pr_out c = [] | _ => True end) evs.
Lemma events_conns evs br : fresh_accepts evs -> conns_ok br -> conns_ok (foldl bridge_event br evs).
Proof.
  intros He. revert br. induction He as [|ev evs Hev _ IH]; intros br Hb; cbn [foldl]; [done|]. apply IH, event_conns; [|done].
  by intros i c ->.
Qed.
Lemma events_shards evs br : length (br_shards (foldl bridge_event br evs)) = length (br_shards br).
Proof.
  revert br. induction evs as [|ev evs IH]; intros br; cbn [foldl]; [done|]. rewrite IH.
  assert (forall i j f, length (br_shards (on_conn i j f br)) = length (br_shards br)) as Hon.
  { intros i j f. unfold on_conn. destruct (br_shards br !! i) as [sh|]; [|done]. destruct (sh_conns sh !! j); [|done].
    destruct (f _ _). cbn [br_shards]. by rewrite length_insert. }
  destruct ev as [i c|i|i j b|i j e|i j|s]; cbn [bridge_event]; [|done|apply Hon..|done].
  destruct (br_shards br !! i); [|done]. cbn [with_shard br_shards]. by rewrite length_insert.
Qed.
Lemma spawned_length spawned setup n i : (length (spawn_shards spawned setup n i).1 <= n)%nat.
Proof.
  revert i. induction n as [|n IH]; intros i; cbn [spawn_shards]; [done|]. destruct (spawned i); [|cbn; lia]. specialize (IH (S i)).
  destruct (spawn_shards _ _ _ _). cbn in *. lia.
Qed.

(** C28: a listener keeps its connections apart.  However accepts, arriving bytes, ends
    of streams and turns of connections interleave over its shards, and whatever else
    happens to the state they share: what arrived on a connection is a sequence of
    exchanges of its protocol followed by what it has not used yet; what it wrote is the
    replies of these exchanges in order, only the last of which may be cut, and then the
    connection is over; each request was dispatched under the connection's own
    identifier; and no two connections have the same one (with fewer than 2^32 shards,
    and at most 2^32 accepted connections on each). *)
Theorem connections_stay_apart tpc_threads dispatch_workers s spawned setup evs :
  tpc_threads < 4294967296 -> fresh_accepts evs ->
  let br := foldl bridge_event (bridge_start tpc_threads dispatch_workers s spawned setup).1 evs in
  conns_ok br /\
  (Forall few_conns (br_shards br) -> forall i j i' j' sh sh' cx cx',
     br_shards br !! i = Some sh -> sh_conns sh !! j = Some cx -> br_shards br !! i' = Some sh' -> sh_conns sh' !! j' = Some cx' ->
     cx_id cx = cx_id cx' -> i = i' /\ j = j').
Proof.
  intros Ht Hf br. set (n := Z.to_nat (Z.max tpc_threads 1)).
  pose proof (spawned_ok spawned setup n 0) as Hok. pose proof (spawned_length spawned setup n 0) as Hlen.
  unfold bridge_start in br. fold n in br. destruct (spawn_shards spawned setup n 0) as [shards r]. cbn [fst] in *. subst br.
  set (br0 := mkBridge _ shards). split.
  - apply events_conns; [done|]. apply Forall_lookup_2. intros i sh Ei. destruct (Hok i sh ltac:(lia) Ei) as [_ ->]. constructor.
  - intros Hfew i j i' j' sh sh' cx cx'. apply ids_apart; [|rewrite events_shards; cbn [br0 br_shards]; lia|done].
    apply events_ids. intros k sh0 Ek. by destruct (Hok k sh0 ltac:(lia) Ek).
Qed.
End Laws.
End Bridge.
Arguments Connection : clear implicits.
Arguments Shard : clear implicits.
Arguments Bridge : clear implicits.
Arguments BridgeEvent : clear implicits.

(** ** TCP connections *)
Section TcpProtocol.
Context `{!Crc32c} `{!RkyvCodec WireRequest, !RkyvCodec WireResponse} {St : Type}.
Definition tcp_progress (t : Turn) : Progress :=
  match t with Tcp.Waits => Waiting | Again => Continuing | Tcp.Returns _ | Tcp.Panics => Over end.
Definition tcp_ending (e : Ending) : IoError :=
  match e with Closed => mkIo UnexpectedEof (lit "failed to fill whole buffer") | Failed e => e end.
(** A request's frame and the frame of its response. *)
Definition tcp_exchange (ex : Exchanged) : Prop :=
  exists body req resp rb, request_frame body req /\ encode_response resp = Ok rb /\
    ex = mkExchanged (framed body) (framed rb) (Some (req, resp)).
#[export] Instance tcp_protocol : Protocol St Stream := {|
  pr_turn dispatch id p s := let '(p, s, t) := connection_turn dispatch id p s in (p, s, tcp_progress t);
  pr_unread := st_in;
  pr_out := st_out;
  pr_arrive b s := set_in (st_in s ++ b) s;
  pr_end e s := mkStream (st_in s) (Some (tcp_ending e)) (st_out s) (st_fate s);
  pr_exchange := tcp_exchange
|}.

Lemma write_all_spec b s :
  let (s', r) := write_all b s in
  st_in s' = st_in s /\ exists k, st_out s' = st_out s ++ take k b /\ match r with Ok _ => take k b = b | Err _ => True end.
Proof.
  unfold write_all. destruct (st_fate s) as [|[[k e]|] rest]; (split; [done|]).
  - exists (length b). by rewrite firstn_all.
  - by exists k.
  - exists (length b). by rewrite firstn_all.
Qed.
Lemma framed_wire b w : encode_envelope b = Some w -> w = framed b.
Proof. rewrite encode_envelope_eq. case_decide; [|done]. by intros [= <-]. Qed.
Lemma io_end_over e : tcp_progress (io_end e) = Over.
Proof. unfold io_end. by destruct (is_peer_disconnect e). Qed.
(** An answer is the rest of an exchange, or ends the connection. *)
Lemma answer_exchange dispatch id body req (p p' : Pool St) s s' t :
  request_frame body req -> answer dispatch id req p s = (p', s', t) ->
  (exists resp rb, encode_response resp = Ok rb /\ called dispatch id (mkExchanged (framed body) (framed rb) (Some (req, resp))) /\
     st_in s' = st_in s /\ (exists k, st_out s' = st_out s ++ take k (framed rb) /\
       (t = Again -> take k (framed rb) = framed rb)) /\ t <> Tcp.Waits) \/
  (tcp_progress t = Over /\ st_out s' = st_out s).
Proof.
  intros Hr. unfold answer, dispatch_async. destruct (pl_workers p) as [|w]; [intros [= <- <- <-]; by right|].
  destruct (dispatch id req (pl_state p)) as [[s1 resp]|] eqn:Ed; [|intros [= <- <- <-]; by right].
  destruct (encode_response resp) as [rb|e] eqn:Ee; [|intros [= <- <- <-]; by right].
  destruct (encode_envelope rb) as [wire|] eqn:Ew; [|intros [= <- <- <-]; by right]. apply framed_wire in Ew as ->.
  pose proof (write_all_spec (framed rb) s) as Hw. destruct (write_all _ s) as [s2 r]. destruct Hw as (Hin & k & Hout & Hk).
  intros [= <- <- <-]. left. exists resp, rb. split; [done|]. split; [by exists (pl_state p), s1|]. split; [done|].
  destruct r as [[]|e]; (split; [exists k; split; [done|]|]); [done|done| |unfold io_end; by destruct (is_peer_disconnect e)].
  intros E. by pose proof (io_end_not_again e).
Qed.
Lemma take_request_waits s s0 : take_request s = inr (s0, Tcp.Waits) -> s0 = s.
Proof.
  unfold take_request, io_end. destruct (read_exact _ s) as [[s1 [b|e]]|]; [|by destruct (is_peer_disconnect e)|by intros [= <-]].
  destruct (frame_length b) as [h|e]; [|done]. destruct (read_exact _ s1) as [[s2 [body|e]]|]; [|by destruct (is_peer_disconnect e)|by intros [= <-]].
  by destruct (read_request h body).
Qed.
#[export] Instance tcp_protocol_laws : ProtocolLaws St Stream.
Proof.
  split; [done|done|]. intros dispatch id p p' s s' g. cbn [pr_turn tcp_protocol pr_unread pr_out pr_exchange].
  unfold connection_turn. pose proof (take_request_sound s) as Ht. destruct (take_request s) as [[s0 req]|[s0 t]] eqn:Etake.
  - destruct Ht as (body & Ein & Hreq & ->). destruct (answer dispatch id req p _) as [[p1 s1] t] eqn:Ea.
    intros [= <- <- <-]. destruct (answer_exchange _ _ _ _ _ _ _ _ _ Hreq Ea) as [(resp & rb & Ee & Hcall & Hin & (k & Hout & Hk) & Hw)|[-> Hout]].
    2: { left. by rewrite Hout. }
    cbn [st_in st_out set_in] in Hin, Hout.
    assert (tcp_exchange (mkExchanged (framed body) (framed rb) (Some (req, resp)))) as Hx by (by exists body, req, resp, rb).
    destruct t; cbn [tcp_progress]; [done| | |].
    + eexists. split; [exact Hx|]. split; [exact Hcall|]. cbn [ex_in ex_out]. by rewrite Hin, Hout, Hk.
    + right. eexists _, _, _. split; [exact Hx|]. split; [exact Hcall|]. cbn [ex_in ex_out]. split; [exact Ein|]. split; [|exact Hout].
      apply prefix_take.
    + right. eexists _, _, _. split; [exact Hx|]. split; [exact Hcall|]. cbn [ex_in ex_out]. split; [exact Ein|]. split; [|exact Hout].
      apply prefix_take.
  - intros [= <- <- <-]. destruct Ht as [Hne Ho]. destruct t; cbn [tcp_progress]; [by apply take_request_waits in Etake|done|by left|by left].
Qed.
End TcpProtocol.

(** ** HTTP connections *)
Section HttpProtocol.
Context `{!Crc32c} `{!Texts} `{!RkyvCodec WireRequest, !RkyvCodec WireResponse} {St : Type}.
Definition http_progress (o : RouteOutcome) : Progress :=
  match o with RouteWaits => Waiting | ContinueKeepAlive => Continuing | CloseConnection | RouteError _ | RoutePanics => Over end.
Definition http_response (status : Z) (reason content_type : str) (body : bytes) (keep : bool) : bytes :=
  response_head status reason content_type (len body) keep ++ body.
(** A head with a body that holds a request, and its response; or a head that is
    answered without the dispatcher. *)
Definition http_exchange_bytes (ex : Exchanged) : Prop :=
  (exists head body b req resp rb keep, decode_envelope body = Ok b /\ decode_request b = Ok req /\ encode_response resp = Ok rb /\
     ex = mkExchanged (head ++ body) (http_response 200 (lit "OK") CONTENT_TYPE (framed rb) keep) (Some (req, resp))) \/
  (exists head status reason text keep, ex = mkExchanged head (http_response status reason (lit "text/plain") text keep) None).
#[export] Instance http_protocol : Protocol St Conn := {|
  pr_turn dispatch id p c := let '(p, c, out) := http_turn dispatch id p c in (p, c, http_progress out);
  pr_unread := all_input;
  pr_out c := sk_out (cn_sink c);
  pr_arrive b c := mkConn (cn_buf c) (mkInbox (ib_pieces (cn_inbox c) ++ [b]) (ib_end (cn_inbox c))) (cn_sink c);
  pr_end e c := mkConn (cn_buf c) (mkInbox (ib_pieces (cn_inbox c)) (Some e)) (cn_sink c);
  pr_exchange := http_exchange_bytes
|}.

Lemma send_spec b k :
  let (k', r) := send b k in
  exists cut, cut `prefix_of` b /\ sk_out k' = sk_out k ++ cut /\ match r with Ok _ => cut = b | Err _ => True end.
Proof.
  unfold send. destruct (sk_fate k) as [|[[n e]|] rest]; [by exists b| |by exists b]. exists (take n b). split; [apply prefix_take|done].
Qed.
Lemma write_response_spec status reason ct body keep k :
  let (k', r) := write_compio_response status reason ct body keep k in
  exists cut, cut `prefix_of` http_response status reason ct body keep /\ sk_out k' = sk_out k ++ cut /\
    match r with Ok _ => cut = http_response status reason ct body keep | Err _ => True end.
Proof.
  unfold write_compio_response, http_response. set (head := response_head _ _ _ _ _). pose proof (send_spec head k) as H1.
  destruct (send head k) as [k1 [[]|e]]; destruct H1 as (cut & Hp & Ho & Hc).
  - subst cut. destruct body as [|x body]; [exists head; by rewrite app_nil_r|].
    pose proof (send_spec (x :: body) k1) as H2. destruct (send (x :: body) k1) as [k2 r]. destruct H2 as (cut & Hp2 & Ho2 & Hc2).
    exists (head ++ cut). split; [by apply prefix_app|]. split; [by rewrite Ho2, Ho, app_assoc|]. destruct r; cbn [map_err]; [by rewrite Hc2|done].
  - exists cut. split; [by apply prefix_app_r|]. done.
Qed.
Lemma responded_progress keep r : http_progress (responded keep r) <> Waiting /\
  (http_progress (responded keep r) = Continuing -> exists u, r = Ok u).
Proof. unfold responded. destruct r as [[]|]; [|done]. destruct keep; split; by eauto. Qed.

(** A reply that the dispatcher has no part in. *)
Lemma route_reply h reply k k' out :
  route h = Err reply -> reply k = (k', out) ->
  http_progress out <> Waiting /\
  exists status reason text keep cut, cut `prefix_of` http_response status reason (lit "text/plain") text keep /\
    sk_out k' = sk_out k ++ cut /\ (http_progress out = Continuing -> cut = http_response status reason (lit "text/plain") text keep).
Proof.
  assert (forall status reason body keep then_ k k' out,
    (let (k, r) := write_compio_response status reason (lit "text/plain") body keep k in (k, then_ r)) = (k', out) ->
    (forall r, http_progress (then_ r) <> Waiting /\ (http_progress (then_ r) = Continuing -> exists u, r = Ok u)) ->
    http_progress out <> Waiting /\
    exists status reason text keep cut, cut `prefix_of` http_response status reason (lit "text/plain") text keep /\
      sk_out k' = sk_out k ++ cut /\ (http_progress out = Continuing -> cut = http_response status reason (lit "text/plain") text keep)) as Hall.
  { clear. intros status reason body keep then_ k k' out E Hthen. pose proof (write_response_spec status reason (lit "text/plain") body keep k) as Hw.
    destruct (write_compio_response _ _ _ _ _ k) as [k1 r]. destruct Hw as (cut & Hp & Ho & Hc). injection E as <- <-.
    destruct (Hthen r) as [Hn Hk]. split; [done|]. exists status, reason, body, keep, cut. split; [done|]. split; [done|].
    intros [u ->]%Hk. done. }
  unfold route. case_decide.
  { intros <-%Err_inj E. refine (Hall _ _ _ _ _ k k' out E _). apply responded_progress. }
  case_decide.
  { intros <-%Err_inj E. refine (Hall _ _ _ _ _ k k' out E _). apply responded_progress. }
  destruct (hd_content_length h).
  - case_decide; [|by intros ?%eq_sym%Err_Ok]. intros <-%Err_inj E. refine (Hall _ _ _ _ (fun _ => CloseConnection) k k' out E _). done.
  - intros <-%Err_inj E. refine (Hall _ _ _ _ (fun _ => CloseConnection) k k' out E _). done.
Qed.
(** The answer to a request: the second half of an exchange, or the end. *)
Lemma http_answer_spec dispatch id head keep body (p p' : Pool St) k k' out :
  http_answer dispatch id keep body p k = (p', k', out) ->
  http_progress out <> Waiting /\
  ((http_progress out = Over /\ sk_out k' = sk_out k) \/
   exists ex cut, http_exchange_bytes ex /\ ex_in ex = head ++ body /\ called dispatch id ex /\ cut `prefix_of` ex_out ex /\ sk_out k' = sk_out k ++ cut /\
     (http_progress out = Continuing -> cut = ex_out ex)).
Proof.
  unfold http_answer. destruct (decode_envelope body) as [b|e] eqn:Ebody; [|intros [= <- <- <-]; by auto].
  destruct (decode_request b) as [req|e] eqn:Ereq; [|intros [= <- <- <-]; by auto].
  unfold dispatch_async. destruct (pl_workers p) as [|w]; [intros [= <- <- <-]; by auto|].
  destruct (dispatch id req (pl_state p)) as [[s1 resp]|] eqn:Ed; [|intros [= <- <- <-]; by auto].
  destruct (encode_response resp) as [rb|e] eqn:Ee; [|intros [= <- <- <-]; by auto].
  destruct (encode_envelope rb) as [wire|] eqn:Ew; [|intros [= <- <- <-]; by auto]. apply framed_wire in Ew as ->.
  pose proof (write_response_spec 200 (lit "OK") CONTENT_TYPE (framed rb) keep k) as Hw.
  destruct (write_compio_response _ _ _ _ _ k) as [k1 r]. destruct Hw as (cut & Hp & Ho & Hc). intros [= <- <- <-].
  destruct (responded_progress keep r) as [Hn Hk]. split; [done|]. right.
  exists (mkExchanged (head ++ body) (http_response 200 (lit "OK") CONTENT_TYPE (framed rb) keep) (Some (req, resp))), cut.
  split; [left; by exists head, body, b, req, resp, rb, keep|]. split; [done|]. split; [by exists (pl_state p), s1|]. split; [done|]. split; [done|].
  by intros [u ->]%Hk.
Qed.

(** What a route does with the bytes behind a head. *)
Lemma process_spec dispatch id h pos (p p' : Pool St) c c' out :
  process_compio_http_route dispatch id h pos p c = (p', c', out) ->
  http_progress out = Waiting \/
  (http_progress out = Over /\ sk_out (cn_sink c') = sk_out (cn_sink c)) \/
  exists ex rest cut, http_exchange_bytes ex /\ called dispatch id ex /\ all_input c = ex_in ex ++ rest /\ cut `prefix_of` ex_out ex /\
    sk_out (cn_sink c') = sk_out (cn_sink c) ++ cut /\ (http_progress out = Continuing -> cut = ex_out ex /\ rest = all_input c').
Proof.
  unfold process_compio_http_route. set (buf := drop (Z.to_nat pos) (cn_buf c)). set (head := take (Z.to_nat pos) (cn_buf c)).
  assert (all_input c = head ++ buf ++ arrived (cn_inbox c)) as Ein by (unfold all_input, head, buf; by rewrite app_assoc, take_drop).
  destruct (route h) as [n|reply] eqn:Er.
  - pose proof (body_read n buf (cn_inbox c)) as Hb.
    case_decide as Hshort.
    + destruct (ib_end (cn_inbox c)) as [e|].
      * destruct Hb as (buf' & ib' & ->). intros [= <- <- <-]. right. left. split; [|done]. unfold body_ending. destruct e as [|e]; [done|].
        by destruct (is_peer_disconnect e).
      * rewrite Hb. intros [= <- <- <-]. by left.
    + destruct Hb as (buf' & ib' & -> & Eb & Hl & _). destruct (http_answer _ _ _ _ _ _) as [[p1 k1] out1] eqn:Ea. intros [= <- <- <-].
      apply (http_answer_spec dispatch id head) in Ea as [Hw [[Ho Hs]|(ex & cut & Hx & Exin & Hcall & Hp & Hs & Hc)]]; [by right; left|].
      right. right. exists ex, (drop (Z.to_nat n) buf' ++ arrived ib'), cut. split; [done|]. split; [done|]. split.
      { rewrite Ein, Exin, <- Eb, <- app_assoc. f_equal. by rewrite app_assoc, take_drop. }
      split; [done|]. split; [done|]. intros Hcont. split; [by apply Hc|done].
  - destruct (reply (cn_sink c)) as [k1 out1] eqn:Ea. intros [= <- <- <-].
    apply (route_reply h reply _ _ _ Er) in Ea as [Hw (status & reason & text & keep & cut & Hp & Hs & Hc)].
    right. right. exists (mkExchanged head (http_response status reason (lit "text/plain") text keep) None), (buf ++ arrived (cn_inbox c)), cut.
    split; [right; by exists head, status, reason, text, keep|]. split; [done|]. split; [exact Ein|]. split; [done|]. split; [done|].
    intros Hcont. split; [by apply Hc|done].
Qed.
(** Reading a head keeps what has arrived. *)
Lemma fill_head c :
  match read_compio_until_double_crlf (cn_buf c) (cn_inbox c) with
  | Some (buf, ib, inl _) => buf ++ arrived ib = all_input c
  | _ => True
  end.
Proof.
  unfold read_compio_until_double_crlf, all_input. set (step := fun buf => _).
  pose proof (fill_spec step) as Hf. specialize (Hf ltac:(intros b n; unfold step; destruct (find_double_crlf b); [done|]; case_decide; [done|]; intros [= <-]; lia) (cn_buf c) (cn_inbox c)).
  destruct (fill step (cn_buf c) (cn_inbox c)) as [[[buf ib] [r|e]]|]; [|done|done]. by destruct Hf as (_ & -> & _).
Qed.
#[export] Instance http_protocol_laws : ProtocolLaws St Conn.
Proof.
  split.
  - intros b c. cbn [pr_unread pr_out pr_arrive http_protocol]. unfold all_input, arrived. cbn [cn_buf cn_inbox cn_sink ib_pieces].
    rewrite concat_app. cbn [concat]. by rewrite app_nil_r, app_assoc.
  - done.
  - intros dispatch id p p' c c' g. cbn [pr_turn http_protocol pr_unread pr_out pr_exchange]. unfold http_turn.
    pose proof (fill_head c) as Hh.
    destruct (read_compio_until_double_crlf (cn_buf c) (cn_inbox c)) as [[[buf ib] [[pos|e]|e]]|].
    + destruct (parse_http_head_from_buf _) as [h|e]; [|intros [= <- <- <-]; by left].
      destruct (process_compio_http_route _ _ _ _ _ _) as [[p1 c1] out] eqn:Ep. apply process_spec in Ep.
      change (all_input (mkConn buf ib (cn_sink c))) with (buf ++ arrived ib) in Ep. rewrite Hh in Ep. cbn [cn_sink] in Ep.
      intros E. assert (c' = match out with RouteWaits => c | _ => c1 end /\ g = http_progress out) as [-> ->]
        by (by destruct out; injection E as <- <- <-).
      destruct Ep as [Ew|[[Eo Hs]|(ex & rest & cut & Hx & Hcall & Ein & Hp & Hs & Hc)]].
      * rewrite Ew. by destruct out.
      * rewrite Eo. left. by destruct out.
      * destruct out; cbn [http_progress] in *; [|right; by exists ex, rest, cut..|done|right; by exists ex, rest, cut].
        destruct (Hc eq_refl) as [-> ->]. by exists ex.
    + intros [= <- <- <-]. by left.
    + intros [= <- <- <-]. destruct (head_ending_over e). destruct (head_ending e); by (left || done).
    + intros [= <- <- <-]. done.
Qed.
End HttpProtocol.

(** ** A concrete listener *)
Module SampleListen.
#[export] Existing Instance sum_crc.
#[export] Existing Instance countable_codec.
Definition frame_of (req : WireRequest) : bytes := match encode_request req with Ok b => framed b | Err _ => [] end.
Definition up (i : nat) : result unit str := Ok tt.
(** Two connections on two shards, a request in two pieces on one of them. *)
Definition history : list (BridgeEvent nat Stream) :=
  let f := frame_of (mkReq 5 op.PING [] [] []) in
  [EvAccept 1 quiet_stream; EvAccept 0 quiet_stream; EvArrive 1 0 (take 10 f); EvTurn 1 0; EvTurn 0 0; EvArrive 1 0 (drop 10 f);
   EvElsewhere 7%nat; EvTurn 1 0; EvEnd 0 0 Closed; EvTurn 0 0].
End SampleListen.
Import SampleListen.
Lemma connections_stay_apart_witness :
  exists br, br = foldl (bridge_event echo) (bridge_start (C := Stream) 2 8 0%nat up up).1 history /\
    map (fun sh => map (fun cx => (cx_id cx, cx_over cx, bool_decide (st_out (cx_conn cx) = []))) (sh_conns sh)) (br_shards br)
      = [[(1, true, true)]; [(4294967297, false, false)]] /\
    conns_ok echo br /\
    forall i j i' j' sh sh' cx cx',
      br_shards br !! i = Some sh -> sh_conns sh !! j = Some cx -> br_shards br !! i' = Some sh' -> sh_conns sh' !! j' = Some cx' ->
      cx_id cx = cx_id cx' -> i = i' /\ j = j'.
Proof.
  eexists. split; [reflexivity|]. split; [vm_compute; reflexivity|].
  destruct (connections_stay_apart echo 2 8 0%nat up up history) as [Hc Ha]; [lia|repeat constructor|]. split; [exact Hc|]. apply Ha.
  apply (bool_decide_unpack _). vm_compute. exact Logic.I.
Defined.

(** ** What the callers are not told *)

(** When no shard can bind its address the call reports success. *)
Lemma bind_failures_are_hidden tpc_threads dispatch_workers (s : nat) spawned setup e :
  (forall i, spawned i = Ok tt) -> (forall i, setup i = Err e) ->
  let '(br, started) := bridge_start (C := Stream) tpc_threads dispatch_workers s spawned setup in bridge_result started br = Some (Ok tt).
Proof.
  intros Hs He. unfold bridge_start. generalize (Z.to_nat (Z.max tpc_threads 1)) as n.
  assert (forall n i, let '(shards, r) := spawn_shards (C := Stream) spawned setup n i in r = Ok tt /\ existsb sh_up shards = false) as Hall.
  { induction n as [|n IH]; intros i; cbn [spawn_shards]; [done|]. rewrite Hs. specialize (IH (S i)). destruct (spawn_shards _ _ _ _) as [shards r].
    destruct IH as [-> Hd]. split; [done|]. cbn [existsb new_shard sh_up]. by rewrite He. }
  intros n. specialize (Hall n 0%nat). destruct (spawn_shards _ _ _ _) as [shards r]. destruct Hall as [-> Hd]. unfold bridge_result.
  cbn [br_shards]. by rewrite Hd.
Qed.
