(* ===== verification/Remote.v ===== *)
(** * Clients of the store over any transport

    The benchmarks and callers use the store in three ways that look alike: embedded
    ([WombatKVKvStore]), over the rings ([RemoteKvStoreClient]) and over TCP or HTTP
    ([TcpKvClient], [HttpKvClient]).  [KvClient] has the calls they share, and
    [KeepsPuts] what a caller relies on: puts succeed and stay.

    The closure that [main] hands to its listeners is modelled here.  [Carrier] says
    what a transport does with it; TCP and HTTP are proved to be carriers, so what is
    proved of the daemon behind a carrier ([carried_conversation]) holds of both. *)

From S2P Require Import Prelude Order Text Strings Radix Hex BlockMeta ObjectStore Compression BlobCache Foyer Embed.
From S2P Require Import Durable Envelope Wire Arena Fanout Rpc Daemon DaemonSpec Client ClientSpec Tcp Http HttpSpec.

(** ** Clients

    [None] is a call that panics or never returns; the text of an error is its
    [Display]. *)
Class KvClient (C : Type) := {
  kc_put (ns key : str) (payload : bytes) (c : C) : option (C * result unit str);
  kc_get (ns key : str) (c : C) : option (C * result (option bytes) str)
}.
(** The remote ones can also be pinged. *)
Class Pings (C : Type) := { kc_ping (c : C) : option (C * result unit str) }.
(** A client that works: it accepts the payloads it can carry, and gives them back. *)
Class KeepsPuts (C : Type) `{!KvClient C} := {
  kp_holds : gmap (str * str) bytes -> C -> Prop;
  kp_writable : str -> str -> bytes -> Prop;
  law_kc_put m c ns key p :
    kp_holds m c -> kp_writable ns key p -> exists c', kc_put ns key p c = Some (c', Ok tt) /\ kp_holds (<[(ns, key) := p]> m) c';
  law_kc_get m c ns key p :
    kp_holds m c -> m !! (ns, key) = Some p -> exists c', kc_get ns key c = Some (c', Ok (Some p)) /\ kp_holds m c'
}.
Class KeepsPings (C : Type) `{!KvClient C} `{!Pings C} `{!KeepsPuts C} := {
  law_kc_ping m (c : C) : kp_holds m c -> exists c', kc_ping c = Some (c', Ok tt) /\ kp_holds m c'
}.

(** A conversation with the store, and what it should be: one with a map. *)
Inductive KvCall := CallPut (ns key : str) (payload : bytes) | CallGet (ns key : str) | CallPing.
Inductive KvReply := Acked (r : result unit str) | Got (r : result (option bytes) str).
Definition run_call {C : Type} `{!KvClient C} `{!Pings C} (k : KvCall) (c : C) : option (C * KvReply) :=
  match k with
  | CallPut ns key p => '(c, r) ← kc_put ns key p c; Some (c, Acked r)
  | CallGet ns key => '(c, r) ← kc_get ns key c; Some (c, Got r)
  | CallPing => '(c, r) ← kc_ping c; Some (c, Acked r)
  end.
Fixpoint run_calls {C : Type} `{!KvClient C} `{!Pings C} (ks : list KvCall) (c : C) : option (C * list KvReply) :=
  match ks with
  | [] => Some (c, [])
  | k :: ks => '(c, r) ← run_call k c; '(c, rs) ← run_calls ks c; Some (c, r :: rs)
  end.
Fixpoint map_replies (ks : list KvCall) (m : gmap (str * str) bytes) : list KvReply :=
  match ks with
  | [] => []
  | CallPut ns key p :: ks => Acked (Ok tt) :: map_replies ks (<[(ns, key) := p]> m)
  | CallGet ns key :: ks => Got (Ok (m !! (ns, key))) :: map_replies ks m
  | CallPing :: ks => Acked (Ok tt) :: map_replies ks m
  end.
(** The gets ask for what was put; the puts can be carried. *)
Fixpoint sensible (writable : str -> str -> bytes -> Prop) (ks : list KvCall) (m : gmap (str * str) bytes) : Prop :=
  match ks with
  | [] => True
  | CallPut ns key p :: ks => writable ns key p /\ sensible writable ks (<[(ns, key) := p]> m)
  | CallGet ns key :: ks => is_Some (m !! (ns, key)) /\ sensible writable ks m
  | CallPing :: ks => sensible writable ks m
  end.
Lemma conversation_is_map {C : Type} `{!KvClient C} `{!Pings C} `{!KeepsPuts C} `{!KeepsPings C} ks m (c : C) :
  kp_holds m c -> sensible kp_writable ks m -> exists c', run_calls ks c = Some (c', map_replies ks m).
Proof.
  revert m c. induction ks as [|[ns key p|ns key|] ks IH]; intros m c Hc; cbn [sensible run_calls run_call map_replies]; [by eexists|..].
  - intros [Hp Hks]. destruct (law_kc_put m c ns key p Hc Hp) as (c1 & -> & Hc1). destruct (IH _ c1 Hc1 Hks) as (c2 & E).
    cbn [mbind option_bind]. rewrite E. by eexists.
  - intros [[p Hp] Hks]. rewrite Hp. destruct (law_kc_get m c ns key p Hc Hp) as (c1 & -> & Hc1). destruct (IH _ c1 Hc1 Hks) as (c2 & E).
    cbn [mbind option_bind]. rewrite E. by eexists.
  - intros Hks. destruct (law_kc_ping m c Hc) as (c1 & -> & Hc1). destruct (IH _ c1 Hc1 Hks) as (c2 & E).
    cbn [mbind option_bind]. rewrite E. by eexists.
Qed.

(** ** The transports *)
Section Transports.
Context `{!Crc32c} `{!Texts} `{!RkyvCodec WireRequest, !RkyvCodec WireResponse}.
Definition tcp_outcome (r : result TcpGetOutcome TcpClientError) : result (option bytes) str :=
  match r with Ok (TcpHit p) => Ok (Some p) | Ok TcpMiss => Ok None | Err e => Err (tcp_client_error_display e) end.
#[export] Instance tcp_kv_client {P : Type} `{!Peer P} : KvClient (TcpKvClient P) := {|
  kc_put ns key p c := '(c, r) ← tcp_put_kv ns key p c; Some (c, map_err tcp_client_error_display r);
  kc_get ns key c := '(c, r) ← tcp_get_kv ns key c; Some (c, tcp_outcome r)
|}.
#[export] Instance tcp_pings {P : Type} `{!Peer P} : Pings (TcpKvClient P) := {|
  kc_ping c := '(c, r) ← tcp_ping c; Some (c, map_err tcp_client_error_display r)
|}.
Definition http_outcome (r : result HttpGetOutcome HttpClientError) : result (option bytes) str :=
  match r with Ok (HttpHit p) => Ok (Some p) | Ok HttpMiss => Ok None | Err e => Err (http_client_error_display e) end.
#[export] Instance http_kv_client {P : Type} `{!Endpoint P} : KvClient (HttpKvClient P) := {|
  kc_put ns key p c := '(c, r) ← http_put_kv ns key p c; Some (c, map_err http_client_error_display r);
  kc_get ns key c := '(c, r) ← http_get_kv ns key c; Some (c, http_outcome r)
|}.
#[export] Instance http_pings {P : Type} `{!Endpoint P} : Pings (HttpKvClient P) := {|
  kc_ping c := '(c, r) ← http_ping c; Some (c, map_err http_client_error_display r)
|}.
End Transports.

Lemma wrap64_u64 z : in_u64 (wrap64 z).
Proof. unfold in_u64, wrap64. pose proof (Z.mod_pos_bound z 18446744073709551616 eq_refl). lia. Qed.

(** A dispatcher that is called with the number of the connection. *)
Abbreviation Dispatcher St := (Z -> WireRequest -> St -> option (St * WireResponse)).

(** What a transport promises its user: a call takes the answer of the dispatcher to
    the request with the client's next number, if both messages fit. *)
Class Carrier {St : Type} (dispatch : Dispatcher St) (conn_id : Z) (C : Type) `{!KvClient C} `{!Pings C} := {
  ca_at : St -> C -> Prop;
  ca_request_fits : WireRequest -> Prop;
  ca_response_fits : WireResponse -> Prop;
  law_ca_put s c ns key p :
    ca_at s c -> exists id, in_u64 id /\ let req := mkReq id op.PUT ns key p in
    forall s' resp, dispatch conn_id req s = Some (s', resp) -> ca_request_fits req -> ca_response_fits resp ->
    exists c', ca_at s' c' /\ (rs_status resp = status.OK -> kc_put ns key p c = Some (c', Ok tt));
  law_ca_get s c ns key :
    ca_at s c -> exists id, in_u64 id /\ let req := mkReq id op.GET ns key [] in
    forall s' resp, dispatch conn_id req s = Some (s', resp) -> ca_request_fits req -> ca_response_fits resp ->
    exists c', ca_at s' c' /\ (rs_status resp = status.OK -> kc_get ns key c = Some (c', Ok (Some (rs_payload resp)))) /\
      (rs_status resp = status.MISS -> kc_get ns key c = Some (c', Ok None));
  law_ca_ping s c :
    ca_at s c -> exists id, in_u64 id /\ let req := mkReq id op.PING [] [] [] in
    forall s' resp, dispatch conn_id req s = Some (s', resp) -> ca_request_fits req -> ca_response_fits resp ->
    exists c', ca_at s' c' /\ (rs_status resp = status.OK -> kc_ping c = Some (c', Ok tt))
}.

Section Carriers.
Context `{!Crc32c} `{!Texts} `{!RkyvCodec WireRequest, !RkyvCodec WireResponse, !RkyvCodecLaws WireRequest, !RkyvCodecLaws WireResponse}.
Context {St : Type} (dispatch : Dispatcher St) (conn_id : Z).
Abbreviation TcpCl := (TcpKvClient (Session (St := St))).
Definition tcp_at (s : St) (c : TcpCl) : Prop := in_u64 (tc_next_id c) /\ exists w, in_step w s (tc_stream c).
#[local] Instance tcp_peer : Peer (Session (St := St)) := session_peer dispatch conn_id.
Lemma tcp_call_in_step {A} req (f : WireResponse -> result A TcpClientError) (s s' : St) (c : TcpCl) resp :
  tcp_at s c -> dispatch conn_id (req (tc_next_id c)) s = Some (s', resp) -> request_fits (req (tc_next_id c)) -> response_fits resp ->
  exists c', tcp_at s' c' /\ on_response req f c = Some (c', f resp).
Proof.
  intros [Hid [w Hw]] Ed Hq Hr. destruct (exchange_in_step dispatch conn_id _ w s s' resp _ Hw Hq Ed Hr) as (se' & E & Hse).
  exists (mkTcp se' (wrap64 (tc_next_id c + 1))). split; [split; [apply wrap64_u64|by exists w]|]. unfold on_response, roundtrip, tcp_peer. rewrite E. reflexivity.
Qed.
#[export] Instance tcp_carrier : Carrier dispatch conn_id TcpCl.
Proof.
  refine {| ca_at := tcp_at; ca_request_fits := request_fits; ca_response_fits := response_fits |}.
  - intros s c ns key p Hc. exists (tc_next_id c). split; [apply Hc|]. intros req s' resp Ed Hq Hr.
    destruct (tcp_call_in_step (fun id => mkReq id op.PUT ns key p)
      (fun resp => if decide (rs_status resp = status.OK) then Ok tt else status_error resp) s s' c resp Hc Ed Hq Hr) as (c' & Hc' & E).
    exists c'. split; [done|]. intros Hok. cbn [kc_put tcp_kv_client]. unfold tcp_put_kv. rewrite E. cbn [mbind option_bind].
    by rewrite decide_True.
  - intros s c ns key Hc. exists (tc_next_id c). split; [apply Hc|]. intros req s' resp Ed Hq Hr.
    destruct (tcp_call_in_step (fun id => mkReq id op.GET ns key [])
      (fun resp => if decide (rs_status resp = status.OK) then Ok (TcpHit (rs_payload resp))
                   else if decide (rs_status resp = status.MISS) then Ok TcpMiss else status_error resp) s s' c resp Hc Ed Hq Hr) as (c' & Hc' & E).
    exists c'. split; [done|]. cbn [kc_get tcp_kv_client]. unfold tcp_get_kv. rewrite E. cbn [mbind option_bind]. split; intros Hst.
    + by rewrite decide_True.
    + rewrite decide_False by (by rewrite Hst). by rewrite decide_True.
  - intros s c Hc. exists (tc_next_id c). split; [apply Hc|]. intros req s' resp Ed Hq Hr.
    destruct (tcp_call_in_step (fun id => mkReq id op.PING [] [] [])
      (fun resp => if decide (rs_status resp = status.OK) then Ok tt else status_error resp) s s' c resp Hc Ed Hq Hr) as (c' & Hc' & E).
    exists c'. split; [done|]. intros Hok. cbn [kc_ping tcp_pings]. unfold tcp_ping. rewrite E. cbn [mbind option_bind].
    by rewrite decide_True.
Defined.

(** HTTP, for every way the network cuts what is sent. *)
Context (cut : nat -> bytes -> list bytes) (cut_all : forall t b, concat (cut t b) = b).
Abbreviation HttpCl := (HttpKvClient (HttpSession (St := St))).
#[local] Instance http_endpoint : Endpoint (HttpSession (St := St)) := session_endpoint dispatch conn_id cut.
Definition http_at (s : St) (c : HttpCl) : Prop :=
  in_u64 (hc_next_id c) /\ good_host (hc_host_header c) /\ exists w, open_with (mkPool s (S w)) [] [] (hc_stream c).
Lemma http_call_in_step {A} req (f : WireResponse -> result A HttpClientError) (s s' : St) (c : HttpCl) resp :
  http_at s c -> dispatch conn_id (req (hc_next_id c)) s = Some (s', resp) -> http_request_fits (req (hc_next_id c)) -> http_response_fits resp ->
  exists c', http_at s' c' /\ http_on_response req f c = Some (c', f resp).
Proof.
  intros (Hid & Hh & w & Hw) Ed Hq Hr. destruct (http_exchange_in_step dispatch conn_id cut cut_all _ _ w s s' resp _ Hh Hw Hq Ed Hr) as (se' & E & Hse).
  exists (mkHttp se' (hc_host_header c) (wrap64 (hc_next_id c + 1))). split; [split; [apply wrap64_u64|]; split; [done|]; by exists w|].
  unfold http_on_response, http_roundtrip, http_endpoint. rewrite E. reflexivity.
Qed.
#[export] Instance http_carrier : Carrier dispatch conn_id HttpCl.
Proof.
  refine {| ca_at := http_at; ca_request_fits := http_request_fits; ca_response_fits := http_response_fits |}.
  - intros s c ns key p Hc. exists (hc_next_id c). split; [apply Hc|]. intros req s' resp Ed Hq Hr.
    destruct (http_call_in_step (fun id => mkReq id op.PUT ns key p)
      (fun resp => if decide (rs_status resp = status.OK) then Ok tt else http_status_error resp) s s' c resp Hc Ed Hq Hr) as (c' & Hc' & E).
    exists c'. split; [done|]. intros Hok. cbn [kc_put http_kv_client]. unfold http_put_kv. rewrite E. cbn [mbind option_bind].
    by rewrite decide_True.
  - intros s c ns key Hc. exists (hc_next_id c). split; [apply Hc|]. intros req s' resp Ed Hq Hr.
    destruct (http_call_in_step (fun id => mkReq id op.GET ns key [])
      (fun resp => if decide (rs_status resp = status.OK) then Ok (HttpHit (rs_payload resp))
                   else if decide (rs_status resp = status.MISS) then Ok HttpMiss else http_status_error resp) s s' c resp Hc Ed Hq Hr) as (c' & Hc' & E).
    exists c'. split; [done|]. cbn [kc_get http_kv_client]. unfold http_get_kv. rewrite E. cbn [mbind option_bind]. split; intros Hst.
    + by rewrite decide_True.
    + rewrite decide_False by (by rewrite Hst). by rewrite decide_True.
  - intros s c Hc. exists (hc_next_id c). split; [apply Hc|]. intros req s' resp Ed Hq Hr.
    destruct (http_call_in_step (fun id => mkReq id op.PING [] [] [])
      (fun resp => if decide (rs_status resp = status.OK) then Ok tt else http_status_error resp) s s' c resp Hc Ed Hq Hr) as (c' & Hc' & E).
    exists c'. split; [done|]. intros Hok. cbn [kc_ping http_pings]. unfold http_ping. rewrite E. cbn [mbind option_bind].
    by rewrite decide_True.
Defined.
End Carriers.

(** ** The daemon behind a listener *)
Section Listener.
Context {S : Type} `{!ObjectStore S} {H : Type} `{!HybridCache H} `{!Zstd} {I : Type} `{!MetadataIndex I} `{!Texts}.
Context `{!RkyvCodec LookupBlockPrefixReq, !RkyvCodec LookupBlockPrefixResp, !RkyvCodec GetKvBlocksBatchReq,
          !RkyvCodec GetKvBlocksBatchResp, !RkyvCodec PutKvBlocksBatchReq, !RkyvCodec PutKvBlocksBatchResp}.
(** The closure [dispatch_cb], on the daemon that all listeners and rings share: before
    the n-th request it does other things, then it meets an ambient. *)
Definition listener_dispatch (fate : nat -> list DaemonEvent * Ambient) (conn_id : Z) (req : WireRequest) (s : Daemon S H I * nat)
  : option ((Daemon S H I * nat) * WireResponse) :=
  let (d, n) := s in
  let (before, x) := fate n in
  '(d, resp) ← dispatch x (rq_id req) req (foldl run_event d before);
  Some ((d, Datatypes.S n), resp).
End Listener.

Section Behind.
Context {S : Type} `{!ObjectStore S} `{!ObjectStoreLaws S} {H : Type} `{!HybridCache H} `{!HybridCacheLaws H}
  `{!Zstd} `{!ZstdLaws} {I : Type} `{!MetadataIndex I} `{!MetadataIndexLaws I} `{!Texts}.
Context `{!RkyvCodec LookupBlockPrefixReq, !RkyvCodec LookupBlockPrefixResp, !RkyvCodec GetKvBlocksBatchReq,
          !RkyvCodec GetKvBlocksBatchResp, !RkyvCodec PutKvBlocksBatchReq, !RkyvCodec PutKvBlocksBatchResp}.
Abbreviation KvStore := (WombatKVKvStore S H).
Abbreviation Dm := (Daemon S H I).

(** The names, as in [DaemonSpec]; the store is reliable. *)
Context (N : str -> str -> Prop) (content : str -> option bytes) (k0 : KvStore).
Abbreviation okey := (okey k0).
Context (K_files : forall x y, K N k0 x -> K N k0 y -> path_for_key x = path_for_key y -> x = y).
Context (N_nul : forall ns key, N ns key -> x00 ∉ ns).
Context (N_chunks : forall ns key v m i, N ns key -> content (okey ns key) = Some v -> parse_large_manifest v = Some m ->
  0 <= i < chunk_count m -> N ns (large_chunk_key (lm_id m) i)).
Context (N_sizes : forall ns key v m, N ns key -> content (okey ns key) = Some v -> parse_large_manifest v = Some m ->
  total_len m <= isize_max).
Context (content_len : forall x v, content x = Some v -> len v <= u64_max).
Context (N_small : forall ns key b, N ns key -> resolved content k0 ns key = Some b -> len b <= u32_max).
Context `{!ReliableStore S}.

(** What happens between requests: nothing is evicted, puts are written before they are
    acknowledged. *)
Definition calm (t : list DaemonEvent * Ambient) : Prop :=
  async_put_enabled (am_env t.2) = false /\ clock_ok t.2 /\
  Forall (fun e => event_ok N content k0 (has_objects k0 []) e /\ forall ns key, e <> EvEvict ns key) t.1.
(** A daemon without an arena. *)
Abbreviation dm_has D := (DaemonSpec.inv (I := I) N content k0 (has_objects k0 D) 0).

Lemma calm_events D t (d : Dm) : calm t -> dm_has D d -> dm_has D (foldl run_event d t.1).
Proof.
  intros (_ & _ & Hev) Hd.
  refine (run_events_inv (I := I) N content k0 K_files N_nul N_chunks N_sizes content_len N_small (has_objects k0 D)
    (found_in content k0 D) 0 (has_objects_kept N content k0 D) (has_objects_found N content k0 K_files D) _ d Hd _).
  eapply (Forall_impl _ _ _ Hev). intros e [He Hne]. destruct e as [x id req|n|ns key]; [done|done|]. by destruct (Hne ns key).
Qed.
(** A get of a name whose object is there. *)
Lemma daemon_get_durable D x id rid ns key P (d : Dm) :
  N ns key -> (ns, key) ∈ D -> content (okey ns key) = Some P -> clock_ok x -> dm_has D d ->
  exists d' t, dispatch x id (mkReq rid op.GET ns key []) d = Some (d', ok_response id op.GET P (lit "tier:" ++ dec (tier_byte t))) /\ dm_has D d'.
Proof.
  intros Hn HD Hv Hclock Hd.
  assert (request_ok N content k0 (mkReq rid op.GET ns key [])) as Hreq by (by do 4 (split; [done|])).
  destruct (dispatch_ok (I := I) N content k0) with (G := has_objects k0 D) (found := found_in content k0 D) (asize := 0) (x := x)
    (id := id) (req := mkReq rid op.GET ns key []) (d := d) as (d' & resp & Ed & Hd' & _ & _ & _ & Hget & _); try done;
    [apply has_objects_kept|by apply has_objects_found|].
  specialize (Hget eq_refl). cbn [rq_namespace rq_key] in Hget. destruct Hget as [aa s b Ea Hb Hh|v t Hv'|Hnf|msg Hnf].
  - exfalso. destruct Hd' as [(_ & Har & _) _]. destruct (Har aa Ea) as ([_ Hsz _] & Hz & _). lia.
  - exists d', t. rewrite Hv in Hv'. injection Hv' as ->. done.
  - destruct Hnf. split; [done|by eexists].
  - destruct Hnf. split; [done|by eexists].
Qed.

Context (fate : nat -> list DaemonEvent * Ambient) (fate_calm : forall n, calm (fate n)) (conn_id : Z).
Context {C : Type} `{!KvClient C} `{!Pings C} `{!Carrier (listener_dispatch (S := S) (H := H) (I := I) fate) conn_id C}.
Abbreviation listener := (listener_dispatch (S := S) (H := H) (I := I) fate).
(** The fixed messages fit. *)
Context (small_fit : forall id, in_u64 id -> ca_request_fits (mkReq id op.PING [] [] []) /\ ca_response_fits (ok_response id op.PING [] []) /\
  ca_response_fits (ok_response id op.PUT [] [])).

(** A payload that its name stands for, and that fits. *)
Definition carried (ns key : str) (P : bytes) : Prop :=
  put_ok N content k0 ns key P /\ encodable k0 key P /\
  forall id, in_u64 id -> ca_request_fits (mkReq id op.PUT ns key P) /\ ca_request_fits (mkReq id op.GET ns key []) /\
    forall t, ca_response_fits (ok_response id op.GET P (lit "tier:" ++ dec (tier_byte t))).
(** A client whose daemon has the objects of [m]. *)
Definition behind (m : gmap (str * str) bytes) (c : C) : Prop :=
  exists d n D, ca_at (d, n) c /\ dm_has D d /\ forall ns key P, m !! (ns, key) = Some P -> (ns, key) ∈ D /\ carried ns key P.

Lemma listener_put D d n rid ns key P :
  carried ns key P -> dm_has D d ->
  exists d', listener conn_id (mkReq rid op.PUT ns key P) (d, n) = Some ((d', Datatypes.S n), ok_response rid op.PUT [] []) /\
    dm_has ((ns, key) :: D) d'.
Proof.
  intros (Hp & He & _) Hd. unfold listener_dispatch. pose proof (fate_calm n) as Hc. destruct (fate n) as [before x].
  pose proof (calm_events _ _ d Hc Hd) as Hd1. cbn [fst] in Hd1. destruct Hc as (Ha & _).
  destruct (daemon_put_durable (I := I) N content k0 K_files N_nul N_chunks N_sizes N_small 0 D x rid rid ns key P _ Hp He Ha Hd1)
    as (d' & E & Hd'). cbn [rq_id]. rewrite E. cbn [mbind option_bind]. by eexists.
Qed.
Lemma listener_get D d n rid ns key P :
  carried ns key P -> (ns, key) ∈ D -> dm_has D d ->
  exists d' t, listener conn_id (mkReq rid op.GET ns key []) (d, n)
      = Some ((d', Datatypes.S n), ok_response rid op.GET P (lit "tier:" ++ dec (tier_byte t))) /\ dm_has D d'.
Proof.
  intros ((Hn & Hv & _) & _) Hin Hd. unfold listener_dispatch. pose proof (fate_calm n) as Hc. destruct (fate n) as [before x].
  pose proof (calm_events _ _ d Hc Hd) as Hd1. cbn [fst] in Hd1. destruct Hc as (_ & Hclock & _).
  destruct (daemon_get_durable D x rid rid ns key P _ Hn Hin Hv Hclock Hd1) as (d' & t & E & Hd').
  cbn [rq_id]. rewrite E. cbn [mbind option_bind]. by eexists _, _.
Qed.

Lemma carried_put m c ns key P :
  behind m c -> carried ns key P -> exists c', kc_put ns key P c = Some (c', Ok tt) /\ behind (<[(ns, key) := P]> m) c'.
Proof.
  intros (d & n & D & Hat & Hd & Hm) Hp. destruct (law_ca_put _ _ ns key P Hat) as (id & Hid & Hcall).
  destruct (listener_put D d n id ns key P Hp Hd) as (d' & E & Hd'). destruct (proj2 (proj2 Hp) id Hid) as (Hq & _).
  destruct (Hcall _ _ E Hq (proj2 (proj2 (small_fit id Hid)))) as (c' & Hat' & Hok). exists c'. split; [by apply Hok|].
  exists d', (Datatypes.S n), ((ns, key) :: D). split; [done|]. split; [done|]. intros ns' key' P' [[[= <- <-] <-]|[_ Hin]]%lookup_insert_Some.
  - split; [by left|done].
  - destruct (Hm _ _ _ Hin). split; [by right|done].
Qed.
Lemma carried_get m c ns key P :
  behind m c -> m !! (ns, key) = Some P -> exists c', kc_get ns key c = Some (c', Ok (Some P)) /\ behind m c'.
Proof.
  intros (d & n & D & Hat & Hd & Hm) Hin. destruct (Hm _ _ _ Hin) as [HD Hp].
  destruct (law_ca_get _ _ ns key Hat) as (id & Hid & Hcall). destruct (listener_get D d n id ns key P Hp HD Hd) as (d' & t & E & Hd').
  destruct (proj2 (proj2 Hp) id Hid) as (_ & Hq & Hr). destruct (Hcall _ _ E Hq (Hr t)) as (c' & Hat' & Hok & _).
  exists c'. split; [by apply Hok|]. by exists d', (Datatypes.S n), D.
Qed.
Lemma carried_ping m c : behind m c -> exists c', kc_ping c = Some (c', Ok tt) /\ behind m c'.
Proof.
  intros (d & n & D & Hat & Hd & Hm). destruct (law_ca_ping _ _ Hat) as (id & Hid & Hcall). destruct (small_fit id Hid) as (Hq & Hr & _).
  pose proof (fate_calm n) as Hc. destruct (fate n) as [before x] eqn:Ef. pose proof (calm_events _ _ d Hc Hd) as Hd1. cbn [fst] in Hd1.
  destruct (Hcall (foldl run_event d before, Datatypes.S n) (ok_response id op.PING [] [])) as (c' & Hat' & Hok); [|done..|].
  { unfold listener_dispatch. rewrite Ef. reflexivity. }
  exists c'. split; [by apply Hok|]. by exists (foldl run_event d before), (Datatypes.S n), D.
Qed.
#[export] Instance carried_keeps_puts : KeepsPuts C :=
  {| kp_holds := behind; kp_writable := carried; law_kc_put := carried_put; law_kc_get := carried_get |}.
#[export] Instance carried_keeps_pings : KeepsPings C := {| law_kc_ping := carried_ping |}.

(** C14: over TCP and over HTTP, or any other carrier: a client on a working connection to a
    daemon with a reliable store and no arena talks to a map.  Every put of a payload
    that fits is acknowledged and every get of a name returns what was put under it,
    whatever else the client asks and whatever the daemon does for others in between;
    no call fails or waits for ever. *)
Theorem carried_conversation ks m c :
  behind m c -> sensible carried ks m -> exists c', run_calls ks c = Some (c', map_replies ks m).
Proof. exact (conversation_is_map ks m c). Qed.
End Behind.

(** ** The rings and the embedded store *)
Section Rings.
Context {R : Type} `{!Ring R} `{!Texts} (blake3 : bytes -> bytes) (duration_debug : Z -> str).
Definition ring_kv_client : KvClient (Client R) := {|
  kc_put ns key p c := '(c, r) ← remote_put_kv blake3 ns key p c; Some (c, map_err (remote_error_display duration_debug) r);
  kc_get ns key c :=
    '(c, r) ← remote_get_kv ns key c;
    match r with
    | Ok (RemoteHit _ p) => b ← as_ref c p; Some (c, Ok (Some b))
    | Ok RemoteMiss => Some (c, Ok None)
    | Err e => Some (c, Err (remote_error_display duration_debug e))
    end
|}.
Definition ring_pings : Pings (Client R) := {|
  kc_ping c := '(c, r) ← ping c; Some (c, map_err (remote_error_display duration_debug) r)
|}.
End Rings.
Section Embedded.
Context {S : Type} `{!ObjectStore S} {H : Type} `{!HybridCache H} `{!Zstd} `{!Texts}.
#[export] Instance embedded_kv_client : KvClient (WombatKVKvStore S H) := {|
  kc_put ns key p k := let (k, r) := put_kv ns key p k in Some (k, map_err embed_text r);
  kc_get ns key k :=
    let (k, r) := get_kv ns key k in
    Some (k, match r with Ok (Hit _ p) => Ok (Some p) | Ok Miss => Ok None | Err e => Err (embed_text e) end)
|}.
End Embedded.

Section Direct.
Context {S : Type} `{!ObjectStore S} `{!ObjectStoreLaws S} {H : Type} `{!HybridCache H} `{!HybridCacheLaws H}
  `{!Zstd} `{!ZstdLaws} {I : Type} `{!MetadataIndex I} `{!MetadataIndexLaws I} `{!Texts} (blake3 : bytes -> bytes) (duration_debug : Z -> str).
Context `{!RkyvCodec LookupBlockPrefixReq, !RkyvCodec LookupBlockPrefixResp, !RkyvCodec GetKvBlocksBatchReq,
          !RkyvCodec GetKvBlocksBatchResp, !RkyvCodec PutKvBlocksBatchReq, !RkyvCodec PutKvBlocksBatchResp,
          !RkyvCodec WireRequest, !RkyvCodec WireResponse, !RkyvCodecLaws WireRequest, !RkyvCodecLaws WireResponse}.
Abbreviation KvStore := (WombatKVKvStore S H).
Abbreviation Cl := (Client (Link S H I)).
(** The names, as in [DaemonSpec]; the store is reliable. *)
Context (N : str -> str -> Prop) (content : str -> option bytes) (k0 : KvStore).
Abbreviation okey := (okey k0).
Context (K_files : forall x y, K N k0 x -> K N k0 y -> path_for_key x = path_for_key y -> x = y).
Context `{!ReliableStore S}.

(** The embedded store. *)
Definition embedded_holds (m : gmap (str * str) bytes) (k : KvStore) : Prop :=
  exists D, store_ok N content k0 (has_objects k0 D) k /\
    forall ns key P, m !! (ns, key) = Some P -> (ns, key) ∈ D /\ N ns key /\ content (okey ns key) = Some P.
Definition embedded_writable (ns key : str) (P : bytes) : Prop := put_ok N content k0 ns key P /\ encodable k0 key P.
Lemma embedded_put m k ns key P :
  embedded_holds m k -> embedded_writable ns key P ->
  exists k', kc_put ns key P k = Some (k', Ok tt) /\ embedded_holds (<[(ns, key) := P]> m) k'.
Proof.
  intros (D & Hk & Hm) [Hp He]. destruct (store_ok_put N content k0 K_files (has_objects k0 D) (has_objects_kept N content k0 D) ns key P k Hp Hk) as [Hk1 _].
  destruct Hk as (Hcoh & Epre & Ecomp & R & W & Ho). destruct (put_kv_durable ns key P k R W) as (k' & Eput & Hobj); [by rewrite Ecomp|].
  cbn [kc_put embedded_kv_client]. rewrite Eput in *. cbn [fst map_err] in *. exists k'. split; [done|]. exists ((ns, key) :: D).
  destruct Hk1 as (Hcoh1 & Epre1 & Ecomp1 & R1 & W1 & Ho1). destruct Hp as (Hn & Hv & _). split.
  - do 3 (split; [done|]). do 2 (split; [done|]). intros ns' key' Hin%elem_of_cons. destruct Hin as [[= -> ->]|Hin]; [|by apply Ho1].
    unfold DaemonSpec.okey. assert (object_key k0 ns key = object_key k ns key) as -> by (unfold object_key; by rewrite Epre). done.
  - intros ns' key' P' [[[= <- <-] <-]|[_ Hin]]%lookup_insert_Some; [by split; [left|]|]. destruct (Hm _ _ _ Hin). split; [by right|done].
Qed.
Lemma embedded_get m k ns key P :
  embedded_holds m k -> m !! (ns, key) = Some P -> exists k', kc_get ns key k = Some (k', Ok (Some P)) /\ embedded_holds m k'.
Proof.
  intros (D & Hk & Hm) Hin. destruct (Hm _ _ _ Hin) as (HD & Hn & Hv).
  destruct (has_objects_found N content k0 K_files D ns key k Hk Hn (conj HD (ex_intro _ P Hv))) as (k' & t & v & E).
  destruct (store_ok_get N content k0 K_files (has_objects k0 D) (has_objects_kept N content k0 D) ns key k k' _ Hn Hk E) as (Hk' & _ & Hval).
  specialize (Hval t v eq_refl). rewrite Hv in Hval. injection Hval as <-. cbn [kc_get embedded_kv_client]. rewrite E.
  exists k'. split; [done|]. by exists D.
Qed.
#[export] Instance embedded_keeps_puts : KeepsPuts KvStore :=
  {| kp_holds := embedded_holds; kp_writable := embedded_writable; law_kc_put := embedded_put; law_kc_get := embedded_get |}.

(** The client of the rings. *)
Context (N_nul : forall ns key, N ns key -> x00 ∉ ns).
Context (N_chunks : forall ns key v m i, N ns key -> content (okey ns key) = Some v -> parse_large_manifest v = Some m ->
  0 <= i < chunk_count m -> N ns (large_chunk_key (lm_id m) i)).
Context (N_sizes : forall ns key v m, N ns key -> content (okey ns key) = Some v -> parse_large_manifest v = Some m ->
  total_len m <= isize_max).
Context (content_len : forall x v, content x = Some v -> len v <= u64_max).
Context (N_small : forall ns key b, N ns key -> resolved content k0 ns key = Some b -> len b <= u32_max).
Context (N_plain : forall ns key b, N ns key -> resolved content k0 ns key = Some b -> parse_large_manifest b = None).
Context (N_flat : forall ns key v m i p, N ns key -> content (okey ns key) = Some v -> parse_large_manifest v = Some m ->
  0 <= i < chunk_count m -> content (okey ns (large_chunk_key (lm_id m) i)) = Some p -> parse_large_manifest p = None).
Context (asize T : Z).
Context (total_req : forall r : WireRequest, exists b, encode_request r = Ok b).
Context (total_resp : forall r : WireResponse, exists b, encode_response r = Ok b).
#[local] Instance ring_client : KvClient Cl := ring_kv_client blake3 duration_debug.
#[local] Instance ring_pinger : Pings Cl := ring_pings duration_debug.
Definition ring_holds (m : gmap (str * str) bytes) (c : Cl) : Prop :=
  exists D, client_ok N content k0 (has_objects k0 D) asize c /\ ready asize T c /\
    forall ns key P, m !! (ns, key) = Some P -> gettable N content k0 D ns key P.
Lemma ring_put m c ns key P :
  ring_holds m c -> blob_ok blake3 N content k0 ns key P -> exists c', kc_put ns key P c = Some (c', Ok tt) /\ ring_holds (<[(ns, key) := P]> m) c'.
Proof.
  intros (D & Hc & Hr & Hm) Hp.
  destruct (remote_put_durable blake3 N content k0 K_files N_nul N_chunks N_sizes content_len N_small N_plain N_flat asize T total_req total_resp
    D ns key P c Hp Hc Hr) as (c1 & D1 & E & Hc1 & Hr1 & Hsub & Hg).
  cbn [kc_put ring_client ring_kv_client]. rewrite E. exists c1. split; [done|]. exists D1. do 2 (split; [done|]).
  intros ns' key' P' [[[= <- <-] <-]|[_ Hin]]%lookup_insert_Some; [done|]. eapply gettable_mono; eauto.
Qed.
Lemma ring_get m c ns key P :
  ring_holds m c -> m !! (ns, key) = Some P -> exists c', kc_get ns key c = Some (c', Ok (Some P)) /\ ring_holds m c'.
Proof.
  intros (D & Hc & Hr & Hm) Hin.
  destruct (remote_get_durable N content k0 K_files N_nul N_chunks N_sizes content_len N_small N_plain N_flat asize T total_req total_resp
    D ns key P c (Hm _ _ _ Hin) Hc Hr) as (c1 & t & p & E & Hp & Hc1 & Hr1).
  cbn [kc_get ring_client ring_kv_client]. rewrite E. cbn [mbind option_bind]. rewrite Hp. exists c1. split; [done|]. by exists D.
Qed.
Lemma ring_ping m c : ring_holds m c -> exists c', kc_ping c = Some (c', Ok tt) /\ ring_holds m c'.
Proof.
  intros (D & Hc & Hr & Hm).
  destruct (ping_durable N content k0 K_files N_nul N_chunks N_sizes content_len N_small asize T total_req total_resp D c Hc Hr)
    as (c1 & E & Hc1 & Hr1). cbn [kc_ping ring_pinger ring_pings]. rewrite E. exists c1. split; [done|]. by exists D.
Qed.
#[local] Instance ring_keeps_puts : KeepsPuts Cl :=
  {| kp_holds := ring_holds; kp_writable := blob_ok blake3 N content k0; law_kc_put := ring_put; law_kc_get := ring_get |}.
#[local] Instance ring_keeps_pings : KeepsPings Cl := {| law_kc_ping := ring_ping |}.
End Direct.

(** ** A concrete client: TCP to a daemon without an arena

    Messages have the number of the request in eight bytes. *)
Section Numbered.
Context {T B : Type} `{!EqDecision B, !Countable B} (number : T -> Z) (body : T -> B) (make : Z -> B -> T).
Context (make_parts : forall v, make (number v) (body v) = v).
Definition numbered_codec : RkyvCodec T := {|
  rkyv_to_bytes v := if decide (0 <= number v <= u64_max) then Ok (le_bytes 8 (number v) ++ pos_digits (countable.encode (body v))) else Err (lit "bad number");
  rkyv_from_bytes b :=
    match digits_pos (drop 8 b) ≫= countable.decode with Some v => Ok (make (le_val (take 8 b)) v) | None => Err (lit "bad archive") end
|}.
Lemma numbered_codec_laws : @RkyvCodecLaws T numbered_codec.
Proof.
  constructor. intros v b. cbn [rkyv_to_bytes rkyv_from_bytes numbered_codec]. case_decide as Hn; [|done]. intros <-%Ok_inj.
  rewrite drop_app_length', take_app_length' by (by rewrite length_le_bytes). rewrite digits_pos_digits. cbn [mbind option_bind].
  rewrite decode_encode. rewrite le_val_bytes_small by (change (256 ^ Z.of_nat 8) with (u64_max + 1); lia). by rewrite make_parts.
Qed.
End Numbered.
Import DaemonSpec.Sample.
Module SampleRemote.
#[export] Existing Instance sum_crc.
#[export] Instance request_codec : RkyvCodec WireRequest :=
  numbered_codec rq_id (fun r => (rq_op r, rq_namespace r, rq_key r, rq_payload r)) (fun id '(o, ns, key, p) => mkReq id o ns key p).
#[export] Instance response_codec : RkyvCodec WireResponse :=
  numbered_codec rs_id (fun r => (rs_status r, rs_op r, rs_payload r, rs_message r)) (fun id '(st, o, p, m) => mkResp id st o p m).
#[export] Instance request_codec_laws : RkyvCodecLaws WireRequest.
Proof. apply numbered_codec_laws. by intros []. Qed.
#[export] Instance response_codec_laws : RkyvCodecLaws WireResponse.
Proof. apply numbered_codec_laws. by intros []. Qed.
Definition fate (n : nat) : list DaemonEvent * Ambient := ([], world).
Definition bare_daemon : Dm := mkDaemon sample_store None (Some InMem.new) 0 [].
Definition dispatcher : Dispatcher (Dm * nat) := listener_dispatch fate.
#[export] Instance remote_peer : Peer (Session (St := Dm * nat)) := tcp_peer dispatcher 7.
#[export] Instance remote_carrier : Carrier dispatcher 7 (TcpKvClient (Session (St := Dm * nat))) := tcp_carrier dispatcher 7.
Definition tcp_client : TcpKvClient (Session (St := Dm * nat)) := mkTcp (mkSession (mkPool (bare_daemon, 0%nat) 8) quiet_stream false) 1.
Definition calls : list KvCall := [CallPing; CallPut (lit "ns") (lit "k") (lit "payload"); CallGet (lit "ns") (lit "k"); CallGet (lit "ns") (lit "k")].
End SampleRemote.
Import SampleRemote.

Lemma remote_no_manifest ns key v m :
  names ns key -> sample_content (okey sample_store ns key) = Some v -> parse_large_manifest v = Some m -> False.
Proof. intros Hn Hv Hm. by destruct (sample_no_manifest ns key v m Hn Hv Hm). Qed.
Lemma numbered_fits {T B : Type} `{!EqDecision B, !Countable B} (number : T -> Z) (body : T -> B) make v n :
  in_u64 (number v) -> len (pos_digits (countable.encode (body v))) <= n ->
  exists b, @rkyv_to_bytes T (numbered_codec number body make) v = Ok b /\ len b <= n + 8.
Proof.
  intros Hv Hl. cbn [rkyv_to_bytes numbered_codec]. rewrite decide_True by exact Hv. eexists. split; [reflexivity|].
  rewrite len_app, len_le_bytes. lia.
Qed.
Lemma request_fits_numbered id o ns key p :
  in_u64 id -> len (pos_digits (countable.encode (o, ns, key, p))) <= MAX_FRAME_BYTES - 8 -> request_fits (mkReq id o ns key p).
Proof.
  intros Hid Hl. destruct (numbered_fits rq_id (fun r => (rq_op r, rq_namespace r, rq_key r, rq_payload r))
    (fun id '(o, ns, key, p) => mkReq id o ns key p) (mkReq id o ns key p) _ Hid Hl) as (b & E & Hb). exists b. split; [exact E|]. lia.
Qed.
Lemma response_fits_numbered id st o p m :
  in_u64 id -> len (pos_digits (countable.encode (st, o, p, m))) <= MAX_FRAME_BYTES - 8 -> response_fits (mkResp id st o p m).
Proof.
  intros Hid Hl. destruct (numbered_fits rs_id (fun r => (rs_status r, rs_op r, rs_payload r, rs_message r))
    (fun id '(st, o, p, m) => mkResp id st o p m) (mkResp id st o p m) _ Hid Hl) as (b & E & Hb). exists b. split; [exact E|]. lia.
Qed.
Lemma bare_daemon_ok : inv (I := InMemoryMetadataIndex) names sample_content sample_store (has_objects sample_store []) 0 bare_daemon.
Proof.
  split; [|done]. split; [|split; [|split; [|constructor]]].
  - split; [apply fresh_store_coherent|]. do 2 (split; [done|]). split; [done|]. split; [done|]. by intros ns key ?%elem_of_nil.
  - intros a [=].
  - intros s [= <-]. exists ∅. done.
Qed.
Lemma carried_conversation_witness :
  map_replies calls ∅ = [Acked (Ok tt); Acked (Ok tt); Got (Ok (Some (lit "payload"))); Got (Ok (Some (lit "payload")))] /\
  exists c', run_calls calls tcp_client = Some (c', map_replies calls ∅).
Proof.
  split; [vm_compute; reflexivity|].
  assert (forall id, in_u64 id -> ca_request_fits (mkReq id op.PING [] [] []) /\ ca_response_fits (ok_response id op.PING [] []) /\
    ca_response_fits (ok_response id op.PUT [] [])) as Hsmall.
  { intros id Hid. split; [|split]; [apply request_fits_numbered|apply response_fits_numbered|apply response_fits_numbered]; try exact Hid;
      vm_compute; discriminate. }
  apply (carried_conversation names sample_content sample_store) with (ReliableStore0 := in_memory_object_store_reliable)
    (fate := fate) (conn_id := 7) (ks := calls) (m := ∅) (c := tcp_client) (Carrier0 := remote_carrier); try exact Hsmall.
  - exact sample_names_files.
  - exact sample_names_nul.
  - intros ns key v m i Hn Hv Hm. by destruct (remote_no_manifest ns key v m).
  - intros ns key v m Hn Hv Hm. by destruct (remote_no_manifest ns key v m).
  - exact sample_content_len.
  - exact sample_small.
  - intros n. split; [done|]. split; [intros i; vm_compute; split; discriminate|constructor].
  - exists bare_daemon, 0%nat, []. split; [split; [vm_compute; split; discriminate|exists 7%nat; reflexivity]|].
    split; [apply bare_daemon_ok|]. by intros ns key P ?%lookup_empty_Some.
  - split; [|split; [by eexists|by eexists]]. split; [exact sample_put|].
    split; [vm_compute; reflexivity|]. intros id Hid. split; [|split; [|intros []]];
      [apply request_fits_numbered|apply request_fits_numbered|apply response_fits_numbered|apply response_fits_numbered]; try exact Hid;
      vm_compute; discriminate.
Defined.
