(* ===== verification/Bench.v ===== *)
(** * The load benchmarks ([wombatkv-bench])

    Models the binaries that drive a store and report: [wombatkv-tcp-smoke],
    [wombatkv-tcp-multi-load-bench], [wombatkv-load-bench], [wombatkv-multi-load-bench]
    and the workloads of [wombatkv-embedded-vs-daemon-bench], over the clients of
    [Remote]; their percentiles in the arithmetic of [F64].  A measured time is an
    argument, the printed report a record.

    The theorems say which sample a percentile is, that the smoke test passes exactly
    when the store answers as it should, and so that it passes against every client that
    keeps what is put, the TCP client of a daemon among them. *)

From S2P Require Import Prelude Order Text Strings Hex F64 Compression Foyer BlobCache Embed Envelope Wire Arena Rpc Client Tcp Http Serve Startup Remote.

(** ** Statistics *)
Definition percentile (samples : list f64) (q : f64) : f64 :=
  match samples with
  | [] => f64_zero
  | _ =>
      let sorted := sort_by f64_cmp samples in
      let idx := f64_round_u64 (f64_mul (f64_of_u64 (len sorted - 1)) q) in
      nth (Z.to_nat (Z.min idx (len sorted - 1))) sorted f64_zero
  end.
Definition sample_max (samples : list f64) : f64 := foldl f64_max f64_zero samples.
Definition ratio (n d : Z) : f64 := f64_div (f64_of_u64 n) (f64_of_u64 d).
Definition Q50 : f64 := ratio 50 100.
Definition Q95 : f64 := ratio 95 100.
Definition Q99 : f64 := ratio 99 100.
(** A printed line of latencies. *)
Record Latency := mkLatency { lt_p50 : f64; lt_p95 : f64; lt_p99 : f64; lt_max : f64; lt_samples : Z }.
Definition latency (us : list f64) : Latency :=
  mkLatency (percentile us Q50) (percentile us Q95) (percentile us Q99) (sample_max us) (len us).
(** [((measured * 2) as f64) / elapsed.as_secs_f64()] *)
Definition throughput (measured : Z) (elapsed_s : f64) : f64 := f64_div (f64_of_u64 (measured * 2)) elapsed_s.
Definition warm (warmup op us : Z) : list f64 := if decide (warmup <= op) then [f64_of_u64 us] else [].
(** [vec![0xab; n]] *)
Definition bench_payload (n : Z) : bytes := replicate (Z.to_nat n) xab.

(** ** One put and the get after it, checked *)
Section Loops.
Context {C : Type} `{!KvClient C} `{!Pings C}.
(** What each failure prints. *)
Record RoundErrors := mkRoundErrors { re_put : str -> str; re_size : Z -> Z -> str; re_miss : str; re_get : str -> str }.
Definition checked_round (ns key : str) (payload : bytes) (errs : RoundErrors) (c : C) : option (result C str) :=
  '(c, r) ← kc_put ns key payload c;
  match r with
  | Err e => Some (Err (re_put errs e))
  | Ok _ =>
      '(c, r) ← kc_get ns key c;
      Some (match r with
            | Ok (Some got) => if decide (len got <> len payload) then Err (re_size errs (len got) (len payload)) else Ok c
            | Ok None => Err (re_miss errs)
            | Err e => Err (re_get errs e)
            end)
  end.
(** A round whose get is not looked at. *)
Definition blind_round (ns key : str) (payload : bytes) (c : C) : option (result C str) :=
  '(c, r) ← kc_put ns key payload c;
  match r with
  | Err e => Some (Err e)
  | Ok _ => '(c, r) ← kc_get ns key c; Some (match r with Ok _ => Ok c | Err e => Err e end)
  end.

(** ** [wombatkv-tcp-smoke] *)
Record SmokeArgs := mkSmoke { sm_pings : Z; sm_rounds : Z; sm_payload_bytes : Z; sm_namespace : str }.
Definition default_smoke : SmokeArgs := mkSmoke 100 100 4096 (lit "tcp-smoke").
Definition WARMUP : Z := 5.
Definition smoke_key (i : Z) : str := lit "smoke-" ++ dec_pad 8 i.
Definition smoke_errors (i : Z) : RoundErrors := {|
  re_put e := lit "put " ++ dec i ++ lit " failed: " ++ e;
  re_size got want := lit "get " ++ dec i ++ lit ": payload size mismatch (got " ++ dec got ++ lit " expected " ++ dec want ++ lit ")";
  re_miss := lit "get " ++ dec i ++ lit " unexpected MISS for key just PUT";
  re_get e := lit "get " ++ dec i ++ lit " failed: " ++ e
|}.
(** What the clock says the i-th ping, put and get took, in microseconds. *)
Context (ping_us put_us get_us : Z -> Z).
Fixpoint smoke_pings (i : Z) (n : nat) (us : list f64) (c : C) : option (result (C * list f64) str) :=
  match n with
  | O => Some (Ok (c, us))
  | S n =>
      '(c, r) ← kc_ping c;
      match r with
      | Err e => Some (Err (lit "ping " ++ dec i ++ lit " failed: " ++ e))
      | Ok _ => smoke_pings (i + 1) n (us ++ warm WARMUP i (ping_us i)) c
      end
  end.
Fixpoint smoke_rounds (ns : str) (payload : bytes) (i : Z) (n : nat) (puts gets : list f64) (c : C)
  : option (result (list f64 * list f64) str) :=
  match n with
  | O => Some (Ok (puts, gets))
  | S n =>
      r ← checked_round ns (smoke_key i) payload (smoke_errors i) c;
      match r with
      | Err e => Some (Err e)
      | Ok c => smoke_rounds ns payload (i + 1) n (puts ++ warm WARMUP i (put_us i)) (gets ++ warm WARMUP i (get_us i)) c
      end
  end.
(** The exit code with what goes to the standard error, or the report. *)
Definition smoke_main (addr : str) (connected : result C str) (args : SmokeArgs) : option (Z * result (Latency * Latency * Latency) str) :=
  match connected with
  | Err e => Some (EXIT_FAILURE, Err (lit "connect " ++ addr ++ lit " failed: " ++ e))
  | Ok c =>
      r ← smoke_pings 0 (Z.to_nat (sm_pings args)) [] c;
      match r with
      | Err e => Some (EXIT_FAILURE, Err e)
      | Ok (c, pings) =>
          r ← smoke_rounds (sm_namespace args) (bench_payload (sm_payload_bytes args)) 0 (Z.to_nat (sm_rounds args)) [] [] c;
          Some (match r with
                | Err e => (EXIT_FAILURE, Err e)
                | Ok (puts, gets) => (EXIT_SUCCESS, Ok (latency pings, latency puts, latency gets))
                end)
      end
  end.

(** ** The load benches *)
Record ClientResults := mkResults { cr_put_us : list f64; cr_get_us : list f64 }.
Definition client_key (client_id op : Z) : str := lit "c" ++ dec_pad 3 client_id ++ lit "-op" ++ dec_pad 8 op.
Definition client_errors (client_id op : Z) : RoundErrors := {|
  re_put e := lit "client " ++ dec client_id ++ lit " put op " ++ dec op ++ lit ": " ++ e;
  re_size got want := lit "client " ++ dec client_id ++ lit " op " ++ dec op ++ lit " payload size mismatch (got " ++ dec got
                      ++ lit " expected " ++ dec want ++ lit ")";
  re_miss := lit "client " ++ dec client_id ++ lit " op " ++ dec op ++ lit " unexpected MISS";
  re_get e := lit "client " ++ dec client_id ++ lit " get op " ++ dec op ++ lit ": " ++ e
|}.
(** The loop of both [run_client]s; [round] is one put and get. *)
Fixpoint client_from (round : Z -> C -> option (result C str)) (warmup_ops op : Z) (n : nat) (res : ClientResults) (c : C)
  : option (result ClientResults str) :=
  match n with
  | O => Some (Ok res)
  | S n =>
      r ← round op c;
      match r with
      | Err e => Some (Err e)
      | Ok c => client_from round warmup_ops (op + 1) n
                  (mkResults (cr_put_us res ++ warm warmup_ops op (put_us op)) (cr_get_us res ++ warm warmup_ops op (get_us op))) c
      end
  end.
(** [run_client] of [wombatkv-tcp-multi-load-bench] and of [wombatkv-multi-load-bench]. *)
Definition run_tcp_client (client_id : Z) (ns : str) (ops warmup_ops : Z) (payload : bytes) (connected : result C str)
  : option (result ClientResults str) :=
  match connected with
  | Err e => Some (Err (lit "client " ++ dec client_id ++ lit " connect: " ++ e))
  | Ok c => client_from (fun op => checked_round ns (client_key client_id op) payload (client_errors client_id op)) warmup_ops 0
              (Z.to_nat ops) (mkResults [] []) c
  end.
Definition run_shm_client (client_id : Z) (ns : str) (ops warmup_ops : Z) (payload : bytes) (c : C) : option (result ClientResults str) :=
  client_from (fun op => blind_round ns (client_key client_id op) payload) warmup_ops 0 (Z.to_nat ops) (mkResults [] []) c.

(** [run_bench] of [wombatkv-load-bench], with the slowest operations and the progress
    lines. *)
Record LoadArgs := mkLoad { ld_namespace : str; ld_ops : Z; ld_payload_bytes : Z; ld_warmup_ops : Z }.
Record Load := mkLoadState {
  lo_put_us : list f64; lo_get_us : list f64; slowest_put_op : Z; slowest_put_us : f64; slowest_get_op : Z; slowest_get_us : f64;
  lo_progress : list (Z * f64 * f64)
}.
Definition slower (op : Z) (us : f64) (slowest : Z * f64) : Z * f64 := match f64_cmp us slowest.2 with Gt => (op, us) | _ => slowest end.
Definition load_measure (args : LoadArgs) (op : Z) (s : Load) : Load :=
  if decide (ld_warmup_ops args <= op) then
    let put := f64_of_u64 (put_us op) in let get := f64_of_u64 (get_us op) in
    let (po, pu) := slower op put (slowest_put_op s, slowest_put_us s) in
    let (go, gu) := slower op get (slowest_get_op s, slowest_get_us s) in
    mkLoadState (lo_put_us s ++ [put]) (lo_get_us s ++ [get]) po pu go gu (lo_progress s)
  else s.
Definition load_progress (args : LoadArgs) (op : Z) (s : Load) : Load :=
  if decide (10 <= ld_ops args /\ (op + 1) mod div_ceil (ld_ops args) 10 = 0)
  then mkLoadState (lo_put_us s) (lo_get_us s) (slowest_put_op s) (slowest_put_us s) (slowest_get_op s) (slowest_get_us s)
         (lo_progress s ++ [(op + 1, percentile (lo_put_us s) Q50, percentile (lo_get_us s) Q50)])
  else s.
Definition load_record (args : LoadArgs) (op : Z) (s : Load) : Load := load_progress args op (load_measure args op s).
Definition load_key (op : Z) : str := lit "op-" ++ dec_pad 8 op.
Fixpoint load_from (args : LoadArgs) (op : Z) (n : nat) (s : Load) (c : C) : option (result Load str) :=
  match n with
  | O => Some (Ok s)
  | S n =>
      r ← blind_round (ld_namespace args) (load_key op) (bench_payload (ld_payload_bytes args)) c;
      match r with
      | Err e => Some (Err e)
      | Ok c => load_from args (op + 1) n (load_record args op s) c
      end
  end.
Record LoadReport := mkLoadReport { lr_measured : Z; lr_throughput : f64; lr_put : Latency; lr_get : Latency; lr_load : Load }.
Definition load_bench (args : LoadArgs) (elapsed_s : f64) (connected : result C str) : option (result LoadReport str) :=
  match connected with
  | Err e => Some (Err e)
  | Ok c =>
      r ← load_from args 0 (Z.to_nat (ld_ops args)) (mkLoadState [] [] 0 f64_zero 0 f64_zero []) c;
      Some (match r with
            | Err e => Err e
            | Ok s => let measured := Z.max 0 (ld_ops args - ld_warmup_ops args) in
                      Ok (mkLoadReport measured (throughput measured elapsed_s) (latency (lo_put_us s)) (latency (lo_get_us s)) s)
            end)
  end.
End Loops.

(** ** Many clients

    What the threads return when they are joined; [None] is a panic. *)
Record MultiReport := mkMulti { mu_total_measured : Z; mu_failed_clients : Z; mu_throughput : f64; mu_put : Latency; mu_get : Latency }.
Definition total_measured (clients ops warmup_ops : Z) : Z := Z.max 0 (ops - warmup_ops) * clients.
(** [run_bench] of [wombatkv-tcp-multi-load-bench]: the report is printed even when
    clients failed. *)
Definition tcp_multi_load (ops warmup_ops : Z) (elapsed_s : f64) (joined : list (option (result ClientResults str)))
  : MultiReport * result unit str :=
  let good := omap (fun j => match j with Some (Ok res) => Some res | _ => None end) joined in
  let failed := len joined - len good in
  let all_put := concat (map cr_put_us good) in
  let all_get := concat (map cr_get_us good) in
  let total := total_measured (len joined) ops warmup_ops in
  (mkMulti total failed (throughput total elapsed_s) (latency all_put) (latency all_get),
   if decide (0 < failed) then Err (dec failed ++ lit " clients failed") else Ok tt).
(** [run_bench] of [wombatkv-multi-load-bench]: the first failure in the order of the
    clients ends it. *)
Fixpoint join_all (joined : list (option (result ClientResults str))) (all : ClientResults) : result ClientResults str :=
  match joined with
  | [] => Ok all
  | None :: _ => Err (lit "client thread panicked")
  | Some (Err e) :: _ => Err e
  | Some (Ok res) :: rest => join_all rest (mkResults (cr_put_us all ++ cr_put_us res) (cr_get_us all ++ cr_get_us res))
  end.
Definition shm_multi_load (ops warmup_ops : Z) (elapsed_s : f64) (joined : list (option (result ClientResults str))) : result MultiReport str :=
  let? all := join_all joined (mkResults [] []) in
  let total := total_measured (len joined) ops warmup_ops in
  Ok (mkMulti total 0 (throughput total elapsed_s) (latency (cr_put_us all)) (latency (cr_get_us all))).
(** The prefixes of the daemon it spawns, its command line, and the connecting. *)
Definition bench_prefixes (base : str) (clients : nat) : list str := map (fun i => base ++ dec (Z.of_nat i)) (seq 0 clients).
Definition daemon_args (prefixes : list str) : list str := concat (map (fun p => [lit "--prefix"; p]) prefixes).
Fixpoint connect_until {A : Type} (prefix : str) (deadline : Z) (attempts : list (result A str * Z)) : option (result A str) :=
  match attempts with
  | [] => None
  | (Ok c, _) :: _ => Some (Ok c)
  | (Err e, now) :: rest =>
      if decide (deadline <= now) then Some (Err (lit "connect " ++ prefix ++ lit " timed out: " ++ e)) else connect_until prefix deadline rest
  end.
(** [main] of the four: the exit code of the bench's thread; [None] is its panic. *)
Definition bench_exit {A : Type} (joined : option (result A str)) : Z := match joined with Some (Ok _) => EXIT_SUCCESS | _ => EXIT_FAILURE end.

(** ** [wombatkv-embedded-vs-daemon-bench] *)
Record Stage := mkStage { sg_label : str; sg_payload_bytes : Z; samples_us : list f64 }.
Definition stage_percentile (s : Stage) (q : f64) : f64 :=
  match samples_us s with
  | [] => f64_zero
  | _ =>
      let sorted := sort_by f64_cmp (samples_us s) in
      let idx := f64_round_u64 (f64_mul (f64_sub (f64_of_u64 (len sorted)) (f64_of_u64 1)) q) in
      nth (Z.to_nat (Z.min idx (len sorted - 1))) sorted f64_zero
  end.
Definition stage_p50 (s : Stage) : f64 := stage_percentile s Q50.
Definition stage_p99 (s : Stage) : f64 := stage_percentile s Q99.
Definition total_us (s : Stage) : f64 := foldl f64_add f64_zero (samples_us s).
Definition MILLION : f64 := f64_of_u64 1000000.
Definition ops_per_s (s : Stage) : f64 :=
  match f64_cmp (total_us s) f64_zero with Gt => f64_div (f64_of_u64 (len (samples_us s))) (f64_div (total_us s) MILLION) | _ => f64_zero end.
Definition mb_per_s (s : Stage) : f64 :=
  match f64_cmp (total_us s) f64_zero with
  | Gt => if decide (0 < sg_payload_bytes s)
          then f64_div (f64_div (f64_mul (f64_of_u64 (len (samples_us s))) (f64_of_u64 (sg_payload_bytes s))) (f64_of_u64 (1024 * 1024)))
                 (f64_div (total_us s) MILLION)
          else f64_zero
  | _ => f64_zero
  end.
Definition SIZES_KIB : list Z := [4; 64; 256; 1024; 1536].
Definition stage_count (kib : Z) : nat := if decide (256 <= kib) then 50 else 200.
Definition stage_key (kib : Z) (i : nat) : str := lit "k-" ++ dec kib ++ lit "-" ++ dec (Z.of_nat i).
Definition stage_payload (kib : Z) : bytes := replicate (Z.to_nat (kib * 1024)) xcd.
(** [t0.elapsed().as_nanos() as f64 / 1000.0] *)
Definition us_of_ns (ns : Z) : f64 := f64_div (f64_of_u64 ns) (f64_of_u64 1000).
Section Workload.
Context {C : Type} `{!KvClient C} (namespace : str) (took_ns : str -> nat -> Z).
(** The timed loops; a failed expectation panics. *)
Fixpoint timed (label : str) (step : nat -> C -> option C) (i n : nat) (us : list f64) (c : C) : option (C * list f64) :=
  match n with
  | O => Some (c, us)
  | S n => c ← step i c; timed label step (S i) n (us ++ [us_of_ns (took_ns label i)]) c
  end.
Definition expect_put (key : str) (payload : bytes) (c : C) : option C :=
  '(c, r) ← kc_put namespace key payload c; match r with Ok _ => Some c | Err _ => None end.
Definition expect_get (key : str) (payload : bytes) (c : C) : option C :=
  '(c, r) ← kc_get namespace key c;
  match r with Ok (Some p) => if decide (len p = len payload) then Some c else None | _ => None end.
Fixpoint run_sizes (sizes : list Z) (out : list Stage) (c : C) : option (C * list Stage) :=
  match sizes with
  | [] => Some (c, out)
  | kib :: sizes =>
      let payload := stage_payload kib in
      let put_label := lit "put_" ++ dec kib ++ lit "KiB" in
      let get_label := lit "get_" ++ dec kib ++ lit "KiB" in
      '(c, puts) ← timed put_label (fun i => expect_put (stage_key kib i) payload) 0 (stage_count kib) [] c;
      '(c, gets) ← timed get_label (fun i => expect_get (stage_key kib i) payload) 0 (stage_count kib) [] c;
      run_sizes sizes (out ++ [mkStage put_label (len payload) puts; mkStage get_label (len payload) gets]) c
  end.
Definition warmup_payload : bytes := replicate 4096 x00.
Definition warmup_key (i : nat) : str := lit "warmup-" ++ dec (Z.of_nat i).
(** The embedded workload ignores what its warm-up puts return. *)
Fixpoint warmup_ignored (keys : list str) (c : C) : option C :=
  match keys with [] => Some c | key :: keys => '(c, _) ← kc_put namespace key warmup_payload c; warmup_ignored keys c end.
Definition run_workload_embedded (c : C) : option (C * list Stage) :=
  c ← warmup_ignored (map warmup_key (seq 0 5)) c; run_sizes SIZES_KIB [] c.
(** The daemon's: pings and warm-up puts must succeed, and there is a stage of pings. *)
Context `{!Pings C}.
Definition expect_ping (c : C) : option C := '(c, r) ← kc_ping c; match r with Ok _ => Some c | Err _ => None end.
Fixpoint repeat_n (n : nat) (step : C -> option C) (c : C) : option C := match n with O => Some c | S n => c ← step c; repeat_n n step c end.
Fixpoint warmup_expected (keys : list str) (c : C) : option C :=
  match keys with [] => Some c | key :: keys => c ← expect_put key warmup_payload c; warmup_expected keys c end.
Definition run_workload_daemon (c : C) : option (C * list Stage) :=
  c ← repeat_n 5 expect_ping c;
  c ← warmup_expected (map warmup_key (seq 0 5)) c;
  '(c, us) ← timed (lit "ping_rtt") (fun _ => expect_ping) 0 500 [] c;
  run_sizes SIZES_KIB [mkStage (lit "ping_rtt") 0 us] c.
End Workload.
(** [print_summary]: the daemon's stages, beside the embedded median of that label. *)
Definition summary_rows (embedded daemon : list Stage) : list (str * option f64 * f64) :=
  let m0_map : gmap str f64 := list_to_map (reverse (map (fun s => (sg_label s, stage_p50 s)) embedded)) in
  map (fun s => (sg_label s, m0_map !! sg_label s, stage_p50 s)) daemon.

(** ** Which sample a percentile is *)
Lemma sorted_split (l : list f64) i v :
  sort_by f64_cmp l !! i = Some v ->
  exists below above, l ≡ₚ below ++ v :: above /\ length below = i /\
    Forall (fun x => cmp_le f64_cmp x v) below /\ Forall (fun x => cmp_le f64_cmp v x) above.
Proof.
  intros Hi. pose proof (sort_by_sorted f64_cmp l) as Hs. rewrite <- (take_drop_middle _ _ _ Hi) in Hs.
  exists (take i (sort_by f64_cmp l)), (drop (S i) (sort_by f64_cmp l)). rewrite take_drop_middle by done.
  split; [by rewrite sort_by_perm|]. split; [apply lookup_lt_Some in Hi; rewrite length_take; lia|].
  revert Hs. generalize (take i (sort_by f64_cmp l)) as below, (drop (S i) (sort_by f64_cmp l)) as above. intros below above.
  induction below as [|x below IH]; cbn [app]; intros Hs; apply StronglySorted_inv in Hs as [Hs Hx]; [by split|].
  destruct (IH Hs) as [Hb Ha]. split; [|done]. constructor; [|done]. rewrite Forall_app in Hx. by destruct Hx as [_ [? _]%Forall_cons].
Qed.
(** A percentile of some samples is one of them, the nearest in rank: for a fraction
    [k / 2^s] and [n] samples its rank differs from [(n - 1) * k / 2^s] by a half at
    most, up to one rounding; no sample before it is greater and none after it less. *)
Theorem percentile_is_nearest_rank samples k s :
  samples <> [] -> len samples <= 2 ^ 52 -> 53 <= s -> 0 <= k <= 2 ^ s ->
  let v := percentile samples (mkF64 k (- s)) in let n := len samples in
  exists below above, samples ≡ₚ below ++ v :: above /\
    Forall (fun x => cmp_le f64_cmp x v) below /\ Forall (fun x => cmp_le f64_cmp v x) above /\
    2 ^ 53 * (2 * Z.abs (2 ^ s * len below - (n - 1) * k) - 2 ^ s) <= 2 * ((n - 1) * k).
Proof.
  intros Hne Hlen Hs Hk. unfold percentile. destruct samples as [|x0 l0] eqn:El; [done|]. rewrite <- El in *. clear Hne.
  assert (len (sort_by f64_cmp samples) = len samples) as Esl by (unfold len; by rewrite sort_by_perm). rewrite Esl.
  assert (1 <= len samples) as H1 by (rewrite El, len_cons; pose proof (len_nonneg l0); lia).
  destruct (f64_round_fraction (len samples - 1) k s ltac:(lia) Hs Hk) as [Hi Hd]. set (i := f64_round_u64 _) in *.
  rewrite Z.min_l by lia. cbv zeta.
  destruct (lookup_lt_is_Some_2 (sort_by f64_cmp samples) (Z.to_nat i)) as [v Hv]; [unfold len in *; lia|].
  rewrite (nth_lookup_Some _ _ _ _ Hv). destruct (sorted_split samples _ v Hv) as (below & above & Hp & Hb & Hbl & Hab).
  exists below, above. split; [done|]. split; [done|]. split; [done|]. unfold len at 1. rewrite Hb, Z2Nat.id by lia. exact Hd.
Qed.
(** The fractions that are asked for. *)
Lemma quantiles_are_fractions :
  Q50 = mkF64 4503599627370496 (-53) /\ Q95 = mkF64 8556839292003942 (-53) /\ Q99 = mkF64 8917127262193582 (-53).
Proof. by vm_compute. Qed.
(** The other way of computing the rank is the same. *)
Lemma f64_pred n : 1 <= n < 2 ^ 53 -> f64_sub (f64_of_u64 n) (f64_of_u64 1) = f64_of_u64 (n - 1).
Proof.
  intros Hn. rewrite !f64_of_small by lia. unfold f64_sub, f64_align, f64_round. cbn [mant expo]. change (2 ^ (0 - Z.min 0 0)) with 1.
  rewrite !Z.mul_1_r. pose proof (f64_of_small (n - 1) ltac:(lia)) as E. unfold f64_of_u64 in E. injection E as -> ->. done.
Qed.
Lemma stage_percentile_eq s q : len (samples_us s) < 2 ^ 53 -> stage_percentile s q = percentile (samples_us s) q.
Proof.
  intros Hl. unfold stage_percentile, percentile. destruct (samples_us s) as [|x l] eqn:E; [done|]. rewrite <- E in *.
  assert (len (sort_by f64_cmp (samples_us s)) = len (samples_us s)) as Esl by (unfold len; by rewrite sort_by_perm).
  rewrite Esl, f64_pred; [done|]. rewrite E in *. rewrite len_cons in *. pose proof (len_nonneg l). lia.
Qed.
Lemma percentile_is_nearest_rank_witness :
  let samples := map f64_of_u64 [30; 10; 20] in
  exists below above, samples ≡ₚ below ++ f64_of_u64 20 :: above /\
    Forall (fun x => cmp_le f64_cmp x (f64_of_u64 20)) below /\ Forall (fun x => cmp_le f64_cmp (f64_of_u64 20) x) above /\
    2 ^ 53 * (2 * Z.abs (2 ^ 53 * len below - 2 * 4503599627370496) - 2 ^ 53) <= 2 * (2 * 4503599627370496).
Proof.
  assert (percentile (map f64_of_u64 [30; 10; 20]) (mkF64 4503599627370496 (- (53))) = f64_of_u64 20) as E by (vm_compute; reflexivity).
  rewrite <- E. apply (percentile_is_nearest_rank (map f64_of_u64 [30; 10; 20]) 4503599627370496 53); [done|vm_compute; discriminate|lia|lia].
Defined.

(** ** The smoke test passes when it should

    The calls it makes, and the replies it accepts. *)
Definition round_calls (ns : str) (payload : bytes) (i : Z) : list KvCall := [CallPut ns (smoke_key i) payload; CallGet ns (smoke_key i)].
Fixpoint rounds_calls (ns : str) (payload : bytes) (i : Z) (n : nat) : list KvCall :=
  match n with O => [] | S n => round_calls ns payload i ++ rounds_calls ns payload (i + 1) n end.
Definition smoke_calls (args : SmokeArgs) : list KvCall :=
  replicate (Z.to_nat (sm_pings args)) CallPing ++ rounds_calls (sm_namespace args) (bench_payload (sm_payload_bytes args)) 0 (Z.to_nat (sm_rounds args)).
Definition good_reply (n : Z) (r : KvReply) : Prop :=
  match r with Acked (Ok _) => True | Got (Ok (Some p)) => len p = n | _ => False end.

Section Smoke.
Context {C : Type} `{!KvClient C} `{!Pings C} (ping_us put_us get_us : Z -> Z).
Lemma run_calls_app ks ks' (c : C) :
  run_calls (ks ++ ks') c = '(c, rs) ← run_calls ks c; '(c, rs') ← run_calls ks' c; Some (c, rs ++ rs').
Proof.
  revert c. induction ks as [|k ks IH]; intros c; cbn [app run_calls mbind option_bind]; [by destruct (run_calls ks' c) as [[c' rs]|]|].
  destruct (run_call k c) as [[c1 r]|]; cbn [mbind option_bind]; [|done]. rewrite IH.
  destruct (run_calls ks c1) as [[c2 rs]|]; cbn [mbind option_bind]; [|done]. by destruct (run_calls ks' c2) as [[c3 rs']|].
Qed.
(** A conversation that goes well. *)
Definition goes_well (n : Z) (ks : list KvCall) (c c' : C) : Prop := exists rs, run_calls ks c = Some (c', rs) /\ Forall (good_reply n) rs.
Lemma goes_well_app n ks ks' c c' : goes_well n (ks ++ ks') c c' <-> exists c1, goes_well n ks c c1 /\ goes_well n ks' c1 c'.
Proof.
  unfold goes_well. rewrite run_calls_app. split.
  - intros (rs & E & Hrs). destruct (run_calls ks c) as [[c1 rs1]|] eqn:E1; cbn [mbind option_bind] in E; [|done]. exists c1.
    destruct (run_calls ks' c1) as [[c2 rs2]|] eqn:E2; cbn [mbind option_bind] in E; [|done]. injection E as -> <-. apply Forall_app in Hrs as [Hr1 Hr2].
    split; [exists rs1|exists rs2]; by split.
  - intros (c1 & (rs1 & -> & H1) & rs2 & E2 & H2). cbn [mbind option_bind]. rewrite E2. cbn [mbind option_bind]. eexists. split; [done|].
    by apply Forall_app.
Qed.
Lemma goes_well_cons n k ks c c' : goes_well n (k :: ks) c c' <-> exists c1, goes_well n [k] c c1 /\ goes_well n ks c1 c'.
Proof. apply (goes_well_app n [k] ks). Qed.
Lemma goes_well_one n k c c' : goes_well n [k] c c' <-> exists r, run_call k c = Some (c', r) /\ good_reply n r.
Proof.
  unfold goes_well. cbn [run_calls]. destruct (run_call k c) as [[c1 r]|]; cbn [mbind option_bind].
  - split; [intros (rs & [= -> <-] & [Hr _]%Forall_cons)|intros (r' & [= -> ->] & Hr)]; [eauto|]. eexists. split; [done|]. by repeat constructor.
  - split; [by intros (rs & [=] & _)|by intros (r & [=] & _)].
Qed.
Lemma pings_well n i us c c' pings m :
  smoke_pings ping_us i n us c = Some (Ok (c', pings)) -> goes_well m (replicate n CallPing) c c'.
Proof.
  revert i us c. induction n as [|n IH]; intros i us c; cbn [smoke_pings replicate]; [intros [= -> _]; by exists []|].
  destruct (kc_ping c) as [[c1 [u|e]]|] eqn:Ep; cbn [mbind option_bind]; [|done|done]. intros E. apply goes_well_cons. exists c1.
  split; [|by eapply IH]. apply goes_well_one. cbn [run_call]. rewrite Ep. by eexists.
Qed.
Lemma well_pings n i us c c' m :
  goes_well m (replicate n CallPing) c c' -> exists pings, smoke_pings ping_us i n us c = Some (Ok (c', pings)).
Proof.
  revert i us c. induction n as [|n IH]; intros i us c; cbn [smoke_pings replicate]; [intros (rs & [= -> _] & _); by eexists|].
  intros (c1 & (r & E & Hr)%goes_well_one & Hrest)%goes_well_cons. cbn [run_call] in E. destruct (kc_ping c) as [[c2 r2]|]; [|done].
  cbn [mbind option_bind] in *. injection E as -> <-. destruct r2 as [u|e]; [|done]. by apply IH.
Qed.
Lemma checked_round_well ns i payload errs c c' :
  checked_round ns (smoke_key i) payload errs c = Some (Ok c') <-> goes_well (len payload) (round_calls ns payload i) c c'.
Proof.
  unfold round_calls. rewrite goes_well_cons. setoid_rewrite goes_well_one. cbn [run_call]. unfold checked_round.
  destruct (kc_put ns (smoke_key i) payload c) as [[c1 r1]|]; cbn [mbind option_bind].
  2: { split; [done|]. by intros (c1 & (r & [=] & _) & _). }
  destruct r1 as [u|e].
  2: { split; [done|]. intros (c2 & (r & [= -> <-] & Hr) & _). done. }
  destruct (kc_get ns (smoke_key i) c1) as [[c2 r2]|] eqn:Eg; cbn [mbind option_bind].
  2: { split; [done|]. intros (c3 & (r & [= <- <-] & Hr) & (r3 & E3 & _)). by rewrite Eg in E3. }
  split.
  - destruct r2 as [[got|]|e]; [|done|done]. case_decide as Hl; [done|]. intros [= <-]. exists c1. split; [by eexists|].
    rewrite Eg. eexists. split; [done|]. cbn [good_reply]. lia.
  - intros (c3 & (r & [= <- <-] & Hr) & (r3 & E3 & H3)). rewrite Eg in E3. cbn [mbind option_bind] in E3. injection E3 as -> <-.
    destruct r2 as [[got|]|e]; cbn [good_reply] in H3; [|done|done]. rewrite decide_False by lia. done.
Qed.
Lemma rounds_well ns payload i n puts gets c :
  (exists out, smoke_rounds put_us get_us ns payload i n puts gets c = Some (Ok out)) <->
  exists c', goes_well (len payload) (rounds_calls ns payload i n) c c'.
Proof.
  revert i puts gets c. induction n as [|n IH]; intros i puts gets c; cbn [smoke_rounds rounds_calls].
  - split; intros _; [exists c; by exists []|by eexists].
  - setoid_rewrite goes_well_app. setoid_rewrite <- (checked_round_well ns i payload (smoke_errors i)).
    destruct (checked_round ns (smoke_key i) payload (smoke_errors i) c) as [[c1|e]|]; cbn [mbind option_bind].
    + rewrite IH. split; [intros (c' & H); eauto|]. intros (c' & c2 & [= <-] & H). eauto.
    + split; [by intros (out & [=])|]. by intros (c' & c2 & [=] & _).
    + split; [by intros (out & [=])|]. by intros (c' & c2 & [=] & _).
Qed.

Lemma smoke_well addr args (c : C) :
  (exists report, smoke_main ping_us put_us get_us addr (Ok c) args = Some (EXIT_SUCCESS, Ok report)) <->
  exists c', goes_well (len (bench_payload (sm_payload_bytes args))) (smoke_calls args) c c'.
Proof.
  unfold smoke_calls, smoke_main. set (payload := bench_payload (sm_payload_bytes args)). setoid_rewrite goes_well_app. split.
  - intros [report E]. destruct (smoke_pings _ _ _ _ c) as [[[c1 pings]|e]|] eqn:Ep; cbn [mbind option_bind] in E; [|by injection E|done].
    destruct (smoke_rounds _ _ _ _ _ _ _ _ c1) as [[out|e]|] eqn:Er; cbn [mbind option_bind] in E; [|by injection E|done].
    destruct (proj1 (rounds_well (sm_namespace args) payload 0 (Z.to_nat (sm_rounds args)) [] [] c1)) as [c' Hc']; [by exists out|].
    exists c', c1. split; [by eapply pings_well|done].
  - intros (c' & c1 & Hp & Hr). destruct (well_pings _ 0 [] _ _ _ Hp) as [pings ->]. cbn [mbind option_bind].
    destruct (proj2 (rounds_well (sm_namespace args) payload 0 (Z.to_nat (sm_rounds args)) [] [] c1)) as [[puts gets] ->]; [by exists c'|].
    cbn [mbind option_bind]. by eexists.
Qed.
(** C36: the smoke test exits with success exactly when the store acknowledges every ping
    and put and answers every get with a payload of the size that was put; whatever
    else happens, a lost answer included, is no success. *)
Theorem smoke_passes_iff addr args (c : C) :
  (exists report, smoke_main ping_us put_us get_us addr (Ok c) args = Some (EXIT_SUCCESS, Ok report)) <->
  exists c' rs, run_calls (smoke_calls args) c = Some (c', rs) /\ Forall (good_reply (len (bench_payload (sm_payload_bytes args)))) rs.
Proof. apply smoke_well. Qed.
End Smoke.

Section Faithful.
Context {C : Type} `{!KvClient C} `{!Pings C} `{!KeepsPuts C} `{!KeepsPings C}.
Lemma rounds_sensible ns payload i n m :
  (forall j, i <= j < i + Z.of_nat n -> kp_writable ns (smoke_key j) payload) -> sensible kp_writable (rounds_calls ns payload i n) m.
Proof.
  revert i m. induction n as [|n IH]; intros i m Hw; cbn [rounds_calls round_calls app sensible]; [done|].
  split; [apply Hw; lia|]. split; [by rewrite lookup_insert_eq|]. apply IH. intros j Hj. apply Hw. lia.
Qed.
Lemma pings_sensible n ks m : sensible kp_writable ks m -> sensible kp_writable (replicate n CallPing ++ ks) m.
Proof. induction n as [|n IH]; cbn [replicate app sensible]; [done|]. by intros H%IH. Qed.
Lemma pings_replies n ks m : map_replies (replicate n CallPing ++ ks) m = replicate n (Acked (Ok tt)) ++ map_replies ks m.
Proof. induction n as [|n IH]; cbn [replicate app map_replies]; [done|]. by rewrite IH. Qed.
Lemma rounds_replies_good ns payload i n m : Forall (good_reply (len payload)) (map_replies (rounds_calls ns payload i n) m).
Proof.
  revert i m. induction n as [|n IH]; intros i m; cbn [rounds_calls round_calls app map_replies]; [constructor|].
  constructor; [done|]. rewrite lookup_insert_eq. by constructor.
Qed.
(** It passes against a client that keeps what is put. *)
Lemma smoke_passes ping_us put_us get_us addr args m (c : C) :
  kp_holds m c -> (forall j, 0 <= j < sm_rounds args -> kp_writable (sm_namespace args) (smoke_key j) (bench_payload (sm_payload_bytes args))) ->
  exists report, smoke_main ping_us put_us get_us addr (Ok c) args = Some (EXIT_SUCCESS, Ok report).
Proof.
  intros Hc Hw. set (payload := bench_payload (sm_payload_bytes args)) in *.
  assert (sensible kp_writable (smoke_calls args) m) as Hs.
  { unfold smoke_calls. apply pings_sensible, rounds_sensible. intros j Hj. apply Hw. lia. }
  destruct (conversation_is_map _ _ _ Hc Hs) as (c' & E). apply smoke_well. exists c', (map_replies (smoke_calls args) m). split; [done|].
  unfold smoke_calls. rewrite pings_replies. apply Forall_app. split; [by apply Forall_replicate|apply rounds_replies_good].
Qed.

(** *** The workloads *)
Lemma expect_put_ok ns m c key payload :
  kp_holds m c -> kp_writable ns key payload -> exists c', expect_put ns key payload c = Some c' /\ kp_holds (<[(ns, key) := payload]> m) c'.
Proof. intros Hc Hw. destruct (law_kc_put m c ns key payload Hc Hw) as (c' & E & Hc'). exists c'. unfold expect_put. by rewrite E. Qed.
Lemma expect_get_ok ns m c key payload :
  kp_holds m c -> m !! (ns, key) = Some payload -> exists c', expect_get ns key payload c = Some c' /\ kp_holds m c'.
Proof.
  intros Hc Hm. destruct (law_kc_get m c ns key payload Hc Hm) as (c' & E & Hc'). exists c'. unfold expect_get. rewrite E. cbn [mbind option_bind].
  by rewrite decide_True.
Qed.
(** A timed loop runs to its end when its steps keep an invariant. *)
Lemma timed_ok took label (step : nat -> C -> option C) (J : nat -> C -> Prop) i n us c :
  (forall j c, (i <= j < i + n)%nat -> J j c -> exists c', step j c = Some c' /\ J (S j) c') -> J i c ->
  exists c' us', timed took label step i n us c = Some (c', us') /\ J (i + n)%nat c' /\ length us' = (length us + n)%nat.
Proof.
  revert i us c. induction n as [|n IH]; intros i us c Hstep Hc; cbn [timed].
  { exists c, us. split; [done|]. rewrite Nat.add_0_r. split; [done|lia]. }
  destruct (Hstep i c ltac:(lia) Hc) as (c1 & -> & Hc1). cbn [mbind option_bind].
  destruct (IH (S i) (us ++ [us_of_ns (took label i)]) c1) as (c2 & us2 & E & Hc2 & Hl); [intros j c0 Hj; apply Hstep; lia|done|].
  exists c2, us2. split; [done|]. split; [by replace (i + S n)%nat with (S i + n)%nat by lia|]. rewrite Hl, length_app. cbn [length]. lia.
Qed.
(** What the puts of a size leave. *)
Definition stage_written (ns : str) (kib : Z) (n : nat) (m : gmap (str * str) bytes) : Prop :=
  forall i, (i < n)%nat -> m !! (ns, stage_key kib i) = Some (stage_payload kib).
Lemma run_sizes_ok ns took sizes out m c :
  kp_holds m c -> (forall kib i, kib ∈ sizes -> kp_writable ns (stage_key kib i) (stage_payload kib)) ->
  exists c' stages, run_sizes ns took sizes out c = Some (c', out ++ stages) /\
    Forall (fun s => 0 < len (samples_us s)) stages /\ length stages = (2 * length sizes)%nat.
Proof.
  revert out m c. induction sizes as [|kib sizes IH]; intros out m c Hc Hw; cbn [run_sizes]; [exists c, []; by rewrite app_nil_r|].
  assert (0 < stage_count kib)%nat as Hn by (unfold stage_count; case_decide; lia). generalize dependent (stage_count kib). intros n Hn.
  generalize (stage_payload kib) (fun i => Hw kib i ltac:(by left)). intros payload Hwk.
  set (J1 := fun j c => exists m, kp_holds m c /\ forall i, (i < j)%nat -> m !! (ns, stage_key kib i) = Some payload).
  destruct (timed_ok took (lit "put_" ++ dec kib ++ lit "KiB") (fun i => expect_put ns (stage_key kib i) payload) J1 0 n [] c)
    as (c1 & puts & E1 & (m1 & Hc1 & Hm1) & Hl1).
  { intros j c0 _ (m0 & Hc0 & Hm0). destruct (expect_put_ok ns m0 c0 _ _ Hc0 (Hwk j)) as (c1 & E & Hc1). exists c1. split; [done|].
    exists (<[(ns, stage_key kib j) := payload]> m0). split; [done|]. intros i Hi.
    destruct (decide (stage_key kib i = stage_key kib j)) as [->|Hne]; [by rewrite lookup_insert_eq|].
    rewrite lookup_insert_ne by congruence. apply Hm0. destruct (decide (i = j)) as [->|]; [done|lia]. }
  { exists m. split; [done|]. intros i Hi. lia. }
  rewrite E1. cbn [mbind option_bind].
  destruct (timed_ok took (lit "get_" ++ dec kib ++ lit "KiB") (fun i => expect_get ns (stage_key kib i) payload) (fun _ => kp_holds m1) 0 n [] c1)
    as (c2 & gets & E2 & Hc2 & Hl2); [intros j c0 Hj Hc0; apply (expect_get_ok ns m1 c0 _ _ Hc0), Hm1; lia|done|].
  rewrite E2. cbn [mbind option_bind].
  destruct (IH (out ++ [mkStage (lit "put_" ++ dec kib ++ lit "KiB") (len payload) puts; mkStage (lit "get_" ++ dec kib ++ lit "KiB") (len payload) gets]) m1 c2 Hc2)
    as (c3 & stages & E3 & Hf & Hl3); [intros k i Hk; apply Hw; by right|].
  eexists _, (_ :: _ :: stages). rewrite E3, <- app_assoc. split; [done|]. split; [|cbn [length]; lia].
  repeat constructor; [unfold len; cbn [samples_us]; cbn [length] in *; lia..|done].
Qed.
Lemma repeat_pings m n c : kp_holds m c -> exists c', repeat_n n expect_ping c = Some c' /\ kp_holds m c'.
Proof.
  revert c. induction n as [|n IH]; intros c Hc; cbn [repeat_n]; [by exists c|]. destruct (law_kc_ping m c Hc) as (c1 & E & Hc1).
  assert (expect_ping c = Some c1) as -> by (unfold expect_ping; by rewrite E). cbn [mbind option_bind]. by apply IH.
Qed.
Lemma warmup_expected_ok ns keys m c :
  kp_holds m c -> (forall key, key ∈ keys -> kp_writable ns key warmup_payload) ->
  exists c' m', warmup_expected ns keys c = Some c' /\ kp_holds m' c'.
Proof.
  revert m c. induction keys as [|key keys IH]; intros m c Hc Hw; cbn [warmup_expected]; [by exists c, m|].
  destruct (expect_put_ok ns m c key warmup_payload Hc (Hw key ltac:(by left))) as (c1 & -> & Hc1). cbn [mbind option_bind].
  eapply IH; [done|]. intros k Hk. apply Hw. by right.
Qed.
(** The comparison's workload runs against a client that keeps what is put, without a
    panic, and measures eleven stages, none of them empty. *)
Lemma workload_runs ns took m c :
  kp_holds m c -> (forall key, key ∈ map warmup_key (seq 0 5) -> kp_writable ns key warmup_payload) ->
  (forall kib i, kib ∈ SIZES_KIB -> kp_writable ns (stage_key kib i) (stage_payload kib)) ->
  exists c' stages, run_workload_daemon ns took c = Some (c', stages) /\ length stages = 11%nat /\
    Forall (fun s => 0 < len (samples_us s)) stages.
Proof.
  intros Hc Hwu Hw. unfold run_workload_daemon. destruct (repeat_pings m 5 c Hc) as (c1 & -> & Hc1). cbn [mbind option_bind].
  destruct (warmup_expected_ok ns _ m c1 Hc1 Hwu) as (c2 & m2 & -> & Hc2). cbn [mbind option_bind].
  destruct (timed_ok took (lit "ping_rtt") (fun _ => expect_ping) (fun _ => kp_holds m2) 0 500 [] c2) as (c3 & us & -> & Hc3 & Hl).
  { intros j c0 _ Hc0. destruct (law_kc_ping m2 c0 Hc0) as (c' & E & Hc'). exists c'. unfold expect_ping. by rewrite E. }
  { done. }
  cbn [mbind option_bind]. destruct (run_sizes_ok ns took SIZES_KIB [mkStage (lit "ping_rtt") 0 us] m2 c3 Hc3 Hw) as (c4 & stages & -> & Hf & Hls).
  eexists _, _. split; [done|]. split; [rewrite length_app, Hls; done|]. cbn [app]. constructor; [|done].
  unfold len. cbn [samples_us]. rewrite Hl. cbn [length]. lia.
Qed.
End Faithful.

(** ** What the load benches count *)

(** The slowest operation is the one with the greatest of the measured times. *)
Lemma f64_max_app x l : sample_max (l ++ [x]) = f64_max (sample_max l) x.
Proof. unfold sample_max. by rewrite foldl_app. Qed.
Definition load_ok (put_us get_us : Z -> Z) (s : Load) : Prop :=
  slowest_put_us s = sample_max (lo_put_us s) /\ slowest_get_us s = sample_max (lo_get_us s) /\
  (f64_cmp (slowest_put_us s) f64_zero = Gt -> slowest_put_us s = f64_of_u64 (put_us (slowest_put_op s))) /\
  (f64_cmp (slowest_get_us s) f64_zero = Gt -> slowest_get_us s = f64_of_u64 (get_us (slowest_get_op s))).
Lemma slower_max (us : Z -> Z) op so su l :
  su = sample_max l -> (f64_cmp su f64_zero = Gt -> su = f64_of_u64 (us so)) ->
  let '(so', su') := slower op (f64_of_u64 (us op)) (so, su) in
  su' = sample_max (l ++ [f64_of_u64 (us op)]) /\ (f64_cmp su' f64_zero = Gt -> su' = f64_of_u64 (us so')).
Proof.
  intros Hs Hso. unfold slower. cbn [snd]. rewrite f64_max_app, <- Hs. unfold f64_max. rewrite (cmp_antisym f64_cmp (f64_of_u64 (us op)) su).
  by destruct (f64_cmp (f64_of_u64 (us op)) su).
Qed.
Lemma load_record_ok put_us get_us args op s : load_ok put_us get_us s -> load_ok put_us get_us (load_record put_us get_us args op s).
Proof.
  intros (H1 & H2 & H3 & H4). unfold load_record.
  assert (forall s, load_ok put_us get_us s -> load_ok put_us get_us (load_progress args op s)) as Hprog
    by (intros s0 Hs0; unfold load_progress; by case_decide).
  apply Hprog. unfold load_measure. case_decide; [|done].
  pose proof (slower_max put_us op (slowest_put_op s) (slowest_put_us s) (lo_put_us s) H1 H3) as Hp.
  pose proof (slower_max get_us op (slowest_get_op s) (slowest_get_us s) (lo_get_us s) H2 H4) as Hg.
  destruct (slower op (f64_of_u64 (put_us op)) _) as [po pu]. destruct (slower op (f64_of_u64 (get_us op)) _) as [go gu].
  destruct Hp, Hg. done.
Qed.
Lemma load_reports_slowest {C : Type} `{!KvClient C} put_us get_us args elapsed (c : C) report :
  load_bench put_us get_us args elapsed (Ok c) = Some (Ok report) ->
  let s := lr_load report in
  slowest_put_us s = lt_max (lr_put report) /\ slowest_get_us s = lt_max (lr_get report) /\
  (f64_cmp (slowest_put_us s) f64_zero = Gt -> slowest_put_us s = f64_of_u64 (put_us (slowest_put_op s))).
Proof.
  unfold load_bench.
  assert (forall n op s c r, load_from put_us get_us args op n s c = Some (Ok r) -> load_ok put_us get_us s -> load_ok put_us get_us r) as Hfrom.
  { induction n as [|n IH]; intros op s c0 r; cbn [load_from]; [by intros [= <-]|].
    destruct (blind_round _ _ _ c0) as [[c1|e]|]; cbn [mbind option_bind]; [|done|done]. intros E Hs. eapply IH; [exact E|]. by apply load_record_ok. }
  destruct (load_from _ _ _ _ _ _ c) as [[s|e]|] eqn:E; cbn [mbind option_bind]; [|done|done]. intros [= <-].
  destruct (Hfrom _ _ _ _ _ E) as (H1 & H2 & H3 & _); [by repeat split|]. done.
Qed.

(** The benches over the rings do not look at what a get returns: a store that forgets
    everything passes them, and fails the smoke test. *)
Module Forgetful.
#[export] Instance forgets : KvClient unit := {| kc_put ns key p c := Some (c, Ok tt); kc_get ns key c := Some (c, Ok None) |}.
#[export] Instance forgets_pings : Pings unit := {| kc_ping c := Some (c, Ok tt) |}.
End Forgetful.
Import Forgetful.
Lemma load_bench_ignores_misses put_us get_us args elapsed :
  exists report, load_bench put_us get_us args elapsed (@Ok unit str tt) = Some (Ok report).
Proof.
  unfold load_bench. assert (forall n op s c, exists r, load_from put_us get_us args op n s c = Some (Ok r)) as H.
  { induction n as [|n IH]; intros op s c; cbn [load_from]; [by eexists|]. cbn [blind_round kc_put kc_get forgets mbind option_bind]. apply IH. }
  destruct (H (Z.to_nat (ld_ops args)) 0 (mkLoadState [] [] 0 f64_zero 0 f64_zero []) tt) as [r ->]. by eexists.
Qed.
Lemma smoke_notices_misses ping_us put_us get_us addr args :
  0 < sm_rounds args -> exists e, smoke_main ping_us put_us get_us addr (@Ok unit str tt) args = Some (EXIT_FAILURE, Err e).
Proof.
  intros Hr. unfold smoke_main. assert (forall n i us c, exists p, smoke_pings ping_us i n us c = Some (Ok (tt, p))) as H.
  { induction n as [|n IH]; intros i us []; cbn [smoke_pings]; [by eexists|]. cbn [kc_ping forgets_pings mbind option_bind]. apply IH. }
  destruct (H (Z.to_nat (sm_pings args)) 0 [] tt) as [p ->]. cbn [mbind option_bind].
  destruct (Z.to_nat (sm_rounds args)) as [|n] eqn:E; [lia|]. cbn [smoke_rounds]. unfold checked_round. cbn [kc_put kc_get forgets mbind option_bind].
  by eexists.
Qed.
(** A client that failed has no samples and is counted as measured all the same. *)
Lemma failed_clients_are_measured ops warmup elapsed e :
  0 <= warmup < ops -> let r := (tcp_multi_load ops warmup elapsed [Some (Err e)]).1 in
  0 < mu_total_measured r /\ lt_samples (mu_put r) = 0 /\ lt_samples (mu_get r) = 0.
Proof. intros H. split; [|done]. cbn. unfold total_measured. change (len [Some (Err e)]) with 1. lia. Qed.
(** The bench over TCP succeeds exactly when all its clients do. *)
Lemma tcp_multi_load_ok ops warmup elapsed joined :
  (tcp_multi_load ops warmup elapsed joined).2 = Ok tt <-> Forall (fun j => exists res, j = Some (Ok res)) joined.
Proof.
  unfold tcp_multi_load. cbn [snd]. set (good := omap _ joined).
  assert (len good <= len joined /\ (len good = len joined <-> Forall (fun j => exists res, j = Some (Ok res)) joined)) as [Hle Heq].
  { unfold good. clear good. induction joined as [|j joined [IH1 IH2]]; [by split|]. rewrite Forall_cons, <- IH2.
    destruct j as [[res|e]|]; cbn [omap list_omap]; rewrite ?len_cons; (split; [lia|]); (split; [intros; split; [|lia]|intros [[res' Er] ?]]);
      first [by eexists|lia|done]. }
  rewrite <- Heq. case_decide; split; intros; first [done|lia|idtac].
Qed.
(** The daemon reads the bench's command line as it is meant. *)
Lemma bench_command_line prefixes cfg :
  parse_args (daemon_args prefixes) cfg false = Ok (with_cli (map CliPrefix prefixes) cfg, false) /\
  cli_prefixes (map CliPrefix prefixes) = prefixes.
Proof.
  split.
  - replace (daemon_args prefixes) with (concat (map render (map CliPrefix prefixes))) by (unfold daemon_args; by rewrite map_map).
    rewrite parse_render. f_equal. f_equal. cbn [orb]. unfold cli_tpc. induction prefixes as [|p l IH]; [done|]. exact IH.
  - unfold cli_prefixes. induction prefixes as [|p l IH]; [done|]. cbn. by f_equal.
Qed.
(** The command line the load bench documents is refused by the daemon. *)
Lemma documented_command_line_is_refused cfg :
  parse_args [lit "--prefix"; lit "loadbench"; lit "--namespace"; lit "loadbench-ns"; lit "--bucket"; lit "loadbench-bucket";
              lit "--endpoint"; lit "http://127.0.0.1:9200"] cfg false = Err EXIT_FAILURE.
Proof. reflexivity. Qed.
(** Connecting ends: attempts 150 milliseconds apart reach the deadline. *)
Lemma connect_until_ends {A : Type} prefix start timeout (attempts : nat -> result A str * Z) :
  0 <= timeout -> start <= (attempts 0%nat).2 -> (forall n, (attempts n).2 + 150 <= (attempts (S n)).2) ->
  exists r, connect_until prefix (start + timeout) (map attempts (seq 0 (Z.to_nat (timeout / 150) + 2))) = Some r.
Proof.
  intros Ht H0 Hstep. assert (forall n, start + 150 * Z.of_nat n <= (attempts n).2) as Hn
    by (induction n as [|n IH]; [lia|specialize (Hstep n); lia]).
  assert (forall k n, start + timeout <= (attempts (n + k)%nat).2 -> exists r, connect_until prefix (start + timeout) (map attempts (seq n (S k))) = Some r) as H.
  { induction k as [|k IH]; intros n Hk; rewrite <- cons_seq; cbn [map connect_until]; destruct (attempts n) as [[c|e] now] eqn:En; try (by eexists).
    - rewrite Nat.add_0_r, En in Hk. cbn in Hk. rewrite decide_True by lia. by eexists.
    - case_decide; [by eexists|]. apply IH. by replace (S n + k)%nat with (n + S k)%nat by lia. }
  replace (Z.to_nat (timeout / 150) + 2)%nat with (S (Z.to_nat (timeout / 150) + 1)) by lia. apply H. specialize (Hn (0 + (Z.to_nat (timeout / 150) + 1))%nat).
  pose proof (Z.div_mod timeout 150 ltac:(lia)). pose proof (Z.mod_pos_bound timeout 150 ltac:(lia)). pose proof (Z.div_pos timeout 150 Ht ltac:(lia)). lia.
Qed.
