(* ===== verification/Runner.v ===== *)
(** * The simulation's runners ([wombatkv-dst] binaries and the driver)

    Models the loops of [wombatkv_dst_runner.rs] ([execute_synthetic_run]), of
    [wombatkv_dst_runner_child.rs] ([run]) and of [wombatkv-dst-driver.rs] ([run]):
    operations under a plan of [Dst], checked against the oracle of [Oracle].  The
    programs around the loops are in [Simulate].

    The theorems say that the runners agree on which writes a generated plan
    suppresses, that neither can report a failure of its own making, and that the driver
    accepts every daemon that keeps what it acknowledges. *)

From S2P Require Import Prelude Order Text Strings Hex ObjectStore Compression BlobCache Foyer Embed Rpc Dst Oracle.

Definition op_key (op_n : Z) : str := lit "k" ++ dec_pad 2 op_n.
Definition op_payload (op_n : Z) : bytes := lit "v" ++ dec_pad 2 op_n.
(** The events that the reports list at an operation. *)
Definition due (op_n : Z) (f : ScheduledFault) : bool := bool_decide (kv_op f = Some (op_n + 1)).

(** ** The synthetic run *)
Record Synthetic := mkSynthetic { sy_oracle : WombatKvOracle; sy_fired : list (Z * nat * WombatKvFaultEvent); sy_suppressed : Z }.
Definition SYNTHETIC_NS : str := lit "dst-synthetic".
Definition suppress_this_write (plan : FaultPlan) (op_n : Z) : bool :=
  existsb (fun f => due op_n f && suppresses (event f)) (plan_events plan).
Definition fired_at (plan : FaultPlan) (op_n : Z) : list (Z * nat * WombatKvFaultEvent) :=
  omap (fun '(idx, f) => if due op_n f then Some (op_n, idx, event f) else None)
    (zip (seq 0 (length (plan_events plan))) (plan_events plan)).
Definition synthetic_op (plan : FaultPlan) (op_n : Z) (s : Synthetic) : result Synthetic str :=
  let key := op_key op_n in let payload := op_payload op_n in
  let fired := sy_fired s ++ fired_at plan op_n in
  if suppress_this_write plan op_n then
    let o := oracle_put_kv_failed SYNTHETIC_NS key (sy_oracle s) in
    match oracle_get_kv SYNTHETIC_NS key o with
    | OracleMiss => Ok (mkSynthetic o fired (sy_suppressed s + 1))
    | OracleHit _ => Err (lit "oracle invariant violation: put_kv_failed at op " ++ dec op_n ++ lit " left a Hit instead of Miss")
    end
  else
    let o := oracle_put_kv SYNTHETIC_NS key payload (sy_oracle s) in
    match oracle_get_kv SYNTHETIC_NS key o with
    | OracleHit b =>
        if decide (b <> payload) then Err (lit "oracle RYW violation: op_n=" ++ dec op_n ++ lit " expected=" ++ bytes_debug payload ++ lit " got=" ++ bytes_debug b)
        else Ok (mkSynthetic o fired (sy_suppressed s))
    | OracleMiss => Err (lit "oracle RYW violation: op_n=" ++ dec op_n ++ lit " got Miss")
    end.
Fixpoint synthetic_from (plan : FaultPlan) (op_n : Z) (n : nat) (s : Synthetic) : result Synthetic str :=
  match n with O => Ok s | S n => let? s := synthetic_op plan op_n s in synthetic_from plan (op_n + 1) n s end.
Definition execute_synthetic_run (plan : FaultPlan) : result Synthetic str := synthetic_from plan 0 20 (mkSynthetic oracle_new [] 0).

(** ** The child *)
Definition CHILD_NS : str := lit "dst-child".
Record FiredEvent := mkFired { fe_op_n : Z; fe_event_idx : nat; fe_event : WombatKvFaultEvent; fe_action : str }.
Record Child := mkChild {
  ch_oracle : WombatKvOracle; ch_store : gmap str bytes; ch_fired : list FiredEvent; ch_suppressed : Z; ch_plan : PlanState
}.
Definition child_fired (plan : FaultPlan) (op_n : Z) : list FiredEvent :=
  map (fun '(op_n, idx, ev) => mkFired op_n idx ev (if suppresses ev then lit "suppress_put" else lit "noop_logged")) (fired_at plan op_n).
Definition child_op (plan : FaultPlan) (op_n : Z) (c : Child) : Child :=
  let key := op_key op_n in let payload := op_payload op_n in
  let fired := ch_fired c ++ child_fired plan op_n in
  if is_put_suppressed (ch_plan c)
  then mkChild (oracle_put_kv_failed CHILD_NS key (ch_oracle c)) (ch_store c) fired (ch_suppressed c + 1) (advance_op (ch_plan c))
  else mkChild (oracle_put_kv CHILD_NS key payload (ch_oracle c)) (<[key := payload]> (ch_store c)) fired (ch_suppressed c) (advance_op (ch_plan c)).
Fixpoint child_from (plan : FaultPlan) (op_n : Z) (n : nat) (c : Child) : Child :=
  match n with O => c | S n => child_from plan (op_n + 1) n (child_op plan op_n c) end.
(** What the oracle holds under the child's namespace. *)
Definition child_oracle_map (o : WombatKvOracle) : gmap str bytes :=
  list_to_map (omap (fun '(ns, k) =>
    if decide (ns = CHILD_NS) then match oracle_get_kv ns k o with OracleHit p => Some (k, p) | OracleMiss => None end else None)
    (oracle_keys o)).
Definition divergent_keys `{!Texts} (oracle store : gmap str bytes) : list str :=
  omap (fun k => if decide (store !! k = oracle !! k) then None else Some (lit "oracle has k=" ++ str_debug k ++ lit ", store mismatch"))
    (btree_keys bytes_cmp oracle) ++
  omap (fun k => if decide (is_Some (oracle !! k)) then None else Some (lit "store has k=" ++ str_debug k ++ lit ", oracle missing"))
    (btree_keys bytes_cmp store).
Record ChildReport := mkReport {
  cr_plan_seed : Z; cr_plan_class : option FailureClass.t; cr_plan_event_count : Z; cr_ops_total : Z; cr_suppressed_writes : Z;
  cr_fired_events : list FiredEvent; cr_oracle_key_count : Z; cr_store_key_count : Z; cr_divergent_keys : list str; cr_verdict : str
}.
(** [run] of the child, on the process-wide plan. *)
Definition child_run `{!Texts} (plan : FaultPlan) (op_count : Z) (s : PlanState) : ChildReport * PlanState :=
  let c := child_from plan 0 (Z.to_nat op_count) (mkChild oracle_new ∅ [] 0 (set_plan plan s)) in
  let oracle := child_oracle_map (ch_oracle c) in
  let divergent := divergent_keys oracle (ch_store c) in
  (mkReport (plan_seed plan) (plan_class plan) (len (plan_events plan)) op_count (ch_suppressed c) (ch_fired c)
     (Z.of_nat (size oracle)) (Z.of_nat (size (ch_store c))) divergent (match divergent with [] => lit "pass" | _ => lit "diverged" end),
   clear (ch_plan c)).

(** ** The driver *)

(** The client of the daemon under test; the text of an error is the client's. *)
Class UnderTest (D : Type) := {
  ut_put (namespace key : str) (payload : bytes) : D -> D * result unit str;
  ut_get (namespace key : str) : D -> D * result OracleGetOutcome str
}.
Definition DRIVER_NS : str := lit "dst-driver".
(** [format!("{v:08x}")] *)
Definition hex_pad8 (v : Z) : str := if decide (v < 2 ^ 32) then hex_08 v else trim_zeros (hex_016 v).
Definition describe_outcome (o : OracleGetOutcome) : str :=
  match o with OracleHit payload => lit "Hit(" ++ dec (len payload) ++ lit " bytes)" | OracleMiss => lit "Miss" end.

Section Driver.
Context {D : Type} `{!UnderTest D} `{!Texts}.
(** The state of [run]'s loop: the report, the oracle, the keys to read back, the two
    generators and the daemon; [dv_keys] are all keys put so far. *)
Record Driver := mkDriver {
  dv_ops_run : Z; dv_matches : Z; dv_divergences : list str; dv_oracle : WombatKvOracle; dv_prior_keys : list str;
  dv_payload_rng : XorShift64; dv_key_rng : XorShift64; dv_daemon : D; dv_keys : list str
}.
Definition driver_get (op_idx : Z) (key_rng : XorShift64) (s : Driver) : Driver :=
  let (key_idx, key_rng) := next_u32 (if decide (len (dv_prior_keys s) <= u32_max) then len (dv_prior_keys s) else 1) key_rng in
  let key := nth (Z.to_nat key_idx) (dv_prior_keys s) [] in
  let (d, r) := ut_get DRIVER_NS key (dv_daemon s) in
  let next matches divergences ops := mkDriver ops matches divergences (dv_oracle s) (dv_prior_keys s) (dv_payload_rng s) key_rng d (dv_keys s) in
  match r with
  | Err e => next (dv_matches s) (dv_divergences s ++ [lit "op " ++ dec op_idx ++ lit ": get_kv(" ++ key ++ lit ") error: " ++ e]) (dv_ops_run s)
  | Ok observed =>
      match check_get (dv_oracle s) DRIVER_NS key observed with
      | Match => next (dv_matches s + 1) (dv_divergences s) (dv_ops_run s + 1)
      | Divergence _ _ expected obs =>
          next (dv_matches s)
            (dv_divergences s ++ [lit "op " ++ dec op_idx ++ lit ": get_kv(" ++ key ++ lit ") expected=" ++ str_debug (describe_outcome expected)
                                  ++ lit " observed=" ++ str_debug (describe_outcome obs)]) (dv_ops_run s + 1)
      end
  end.
Definition driver_put (key_rng : XorShift64) (s : Driver) : Driver :=
  let (v, rng) := next_u64 (dv_payload_rng s) in
  let key := lit "k" ++ hex_pad8 v in
  let (l, rng) := next_u32 4096 rng in
  let (b, rng) := next_u32 256 rng in
  let payload := replicate (Z.to_nat (l + 128)) (byte_of_Z b) in
  let (d, r) := ut_put DRIVER_NS key payload (dv_daemon s) in
  match r with
  | Ok _ => mkDriver (dv_ops_run s + 1) (dv_matches s + 1) (dv_divergences s) (oracle_put_kv DRIVER_NS key payload (dv_oracle s))
              (dv_prior_keys s ++ [key]) rng key_rng d (dv_keys s ++ [key])
  | Err _ => mkDriver (dv_ops_run s + 1) (dv_matches s + 1) (dv_divergences s) (oracle_put_kv_failed DRIVER_NS key (dv_oracle s))
               (dv_prior_keys s) rng key_rng d (dv_keys s ++ [key])
  end.
Definition driver_op (op_idx : Z) (s : Driver) : Driver :=
  match dv_prior_keys s with
  | [] => driver_put (dv_key_rng s) s
  | _ => let (x, key_rng) := next_u32 100 (dv_key_rng s) in
         if decide (x < 50) then driver_get op_idx key_rng s else driver_put key_rng s
  end.
Fixpoint driver_from (op_idx : Z) (n : nat) (s : Driver) : Driver :=
  match n with O => s | S n => driver_from (op_idx + 1) n (driver_op op_idx s) end.
Definition driver_run (seed ops : Z) (d : D) : Driver :=
  driver_from 0 (Z.to_nat ops) (mkDriver 0 0 [] oracle_new [] (rng_phase seed 2) (rng_phase seed 3) d []).
End Driver.
Arguments Driver : clear implicits.

(** ** Keys *)
Lemma parse_dec_pad n z : (n <= 19)%nat -> in_u64 z -> dec_pad n z <> [] -> parse_u64 (dec_pad n z) = Some z.
Proof.
  intros Hn [H0 H1] Hne. unfold dec_pad in *. case_decide as Hz; [|by apply parse_dec].
  rewrite parse_u64_digits by (done || apply dec_fixed_digits). rewrite parse_dec_fixed; [done|lia|lia|lia].
Qed.
Lemma op_key_inj x y : in_u64 x -> in_u64 y -> op_key x = op_key y -> x = y.
Proof.
  intros Hx Hy E. apply app_inv_head in E.
  assert (forall z, dec_pad 2 z <> []) as Hne.
  { intros z. unfold dec_pad. case_decide; [|apply dec_length_pos]. intros E0. apply (f_equal length) in E0. by rewrite length_dec_fixed in E0. }
  pose proof (parse_dec_pad 2 x ltac:(lia) Hx (Hne x)) as Px. pose proof (parse_dec_pad 2 y ltac:(lia) Hy (Hne y)) as Py. congruence.
Qed.
Lemma op_key_no c z : is_ascii_digit c = false -> c <> "k"%byte -> c ∉ op_key z.
Proof. intros Hc Hk. unfold op_key. rewrite elem_of_app. intros [Hin|Hin]; [|by apply (dec_pad_no c 2 z)]. by apply list_elem_of_singleton in Hin. Qed.

(** ** Suppression *)
Lemma due_op op_n f : due op_n f = true <-> kv_op f = Some (op_n + 1).
Proof. unfold due. apply bool_decide_eq_true. Qed.
(** In a generated plan the events of one operation agree on whether they suppress. *)
Lemma generated_uniform seed class f g n :
  f ∈ plan_events (schedule_for_class seed class) -> g ∈ plan_events (schedule_for_class seed class) ->
  kv_op f = Some n -> kv_op g = Some n -> suppresses (event f) = suppresses (event g).
Proof.
  intros Hf Hg Ef Eg. destruct (schedule_kv (rng_phase seed 1) class) as (_ & _ & Hs).
  assert (class = FailureClass.ConcurrentSameKeySave -> forall h, h ∈ plan_events (schedule_for_class seed class) -> suppresses (event h) = true) as Hc.
  { intros -> h. cbn [schedule_for_class plan_events schedule_events]. draws. intros [->|[->|?%not_elem_of_nil]%elem_of_cons]%elem_of_cons; done. }
  rewrite Forall_forall in Hs. destruct (Hs f Hf n Ef) as [_ Hsf]. destruct (Hs g Hg n Eg) as [_ Hsg].
  destruct (suppresses (event f)) eqn:E1, (suppresses (event g)) eqn:E2; try done.
  - destruct (Hsf eq_refl) as [Ec _]. by rewrite <- E2, (Hc Ec g Hg).
  - destruct (Hsg eq_refl) as [Ec _]. by rewrite <- E1, (Hc Ec f Hf).
Qed.
Lemma is_put_suppressed_eq s : is_put_suppressed s = match fire_for_current_op s with Some ev => suppresses ev | None => false end.
Proof. unfold is_put_suppressed. by destruct (fire_for_current_op s) as [[]|]. Qed.

(** The two runners agree: under every generated plan, an operation's write is
    suppressed in the synthetic run exactly when the child, which asks the plan as the
    store does, suppresses it. *)
Theorem runners_agree seed class s k :
  Z.of_nat k < u32_max ->
  suppress_this_write (schedule_for_class seed class) (Z.of_nat k) = is_put_suppressed (after_ops k (schedule_for_class seed class) s).
Proof.
  intros Hk. set (plan := schedule_for_class seed class). rewrite is_put_suppressed_eq, after_ops_eq. unfold fire_for_current_op.
  cbn [ps_plan mbind option_bind ps_op_counter]. rewrite Z.min_l by lia. unfold suppress_this_write.
  destruct (first_due (Z.of_nat k + 1) (plan_events plan)) as [ev|] eqn:Ed.
  - apply first_due_Some in Ed as (f & Hf & Ef & <-). destruct (existsb _ _) eqn:Ex.
    + apply existsb_exists in Ex as (g & Hg & [Eg Es]%andb_true_iff). apply due_op in Eg. apply list_elem_of_In in Hg. symmetry. rewrite <- Es.
      by eapply (generated_uniform seed class).
    + destruct (suppresses (event f)) eqn:Es; [|done]. rewrite <- Ex. apply existsb_exists. exists f.
      split; [by apply list_elem_of_In|]. rewrite Es, andb_true_r. by apply due_op.
  - destruct (existsb _ _) eqn:Ex; [|done]. apply existsb_exists in Ex as (g & Hg & [Eg _]%andb_true_iff). apply due_op in Eg.
    apply list_elem_of_In in Hg. destruct (first_due_is_Some _ _ _ Hg Eg) as [ev Ev]. by rewrite Ev in Ed.
Qed.

(** ** The runners do not accuse themselves *)
Lemma oracle_get_put ns key p o : oracle_get_kv ns key (oracle_put_kv ns key p o) = OracleHit p.
Proof. unfold oracle_get_kv, oracle_put_kv. cbn [oracle_store]. by rewrite lookup_insert_eq. Qed.
Lemma composite_inj ns k k' : composite_key ns k = composite_key ns k' -> k = k'.
Proof. unfold composite_key. intros E%app_inv_head%app_inv_head. done. Qed.

(** The writes of the operations from [op_n] on that a test suppresses. *)
Fixpoint count_ops (test : Z -> bool) (op_n : Z) (n : nat) : Z :=
  match n with O => 0 | S n => (if test op_n then 1 else 0) + count_ops test (op_n + 1) n end.
(** The oracle holds nothing yet for the operations from [op_n] on. *)
Definition untouched (ns : str) (op_n : Z) (o : WombatKvOracle) : Prop :=
  forall m, op_n <= m -> in_u64 m -> oracle_store o !! composite_key ns (op_key m) = None.
Lemma untouched_put ns op_n p o : in_u64 op_n -> untouched ns op_n o -> untouched ns (op_n + 1) (oracle_put_kv ns (op_key op_n) p o).
Proof.
  intros Ho Hu m Hm Hin. cbn [oracle_put_kv oracle_store]. rewrite lookup_insert_ne; [apply Hu; [lia|done]|].
  intros E%composite_inj%op_key_inj; [lia|done|done].
Qed.
Lemma untouched_mono ns op_n op_n' o o' : op_n <= op_n' -> oracle_store o' = oracle_store o -> untouched ns op_n o -> untouched ns op_n' o'.
Proof. intros Hle E Hu m Hm Hin. rewrite E. apply Hu; [lia|done]. Qed.

Lemma synthetic_from_ok plan op_n n s :
  0 <= op_n -> op_n + Z.of_nat n <= u64_max -> untouched SYNTHETIC_NS op_n (sy_oracle s) ->
  exists s', synthetic_from plan op_n n s = Ok s' /\
    sy_suppressed s' = sy_suppressed s + count_ops (suppress_this_write plan) op_n n /\
    oracle_len (sy_oracle s') = oracle_len (sy_oracle s) + Z.of_nat n - count_ops (suppress_this_write plan) op_n n.
Proof.
  revert op_n s. induction n as [|n IH]; intros op_n s H0 Hn Hu; cbn [synthetic_from count_ops]; [exists s; split; [done|]; lia|].
  assert (oracle_store (sy_oracle s) !! composite_key SYNTHETIC_NS (op_key op_n) = None) as Hnone by (apply Hu; [lia|split; lia]).
  unfold synthetic_op. destruct (suppress_this_write plan op_n).
  - unfold oracle_get_kv. cbn [oracle_put_kv_failed oracle_store]. rewrite Hnone. cbn [res_bind].
    edestruct (IH (op_n + 1)) as (s' & E & Es & El); [lia|lia| |exists s'; split; [exact E|]; rewrite Es, El; unfold oracle_len; cbn [sy_suppressed sy_oracle oracle_put_kv_failed oracle_store]; lia].
    by eapply untouched_mono; [|reflexivity|exact Hu]; lia.
  - rewrite oracle_get_put, decide_False by (intros Hx; by apply Hx). cbn [res_bind].
    edestruct (IH (op_n + 1)) as (s' & E & Es & El); [lia|lia| |exists s'; split; [exact E|]; rewrite Es, El; unfold oracle_len; cbn [sy_suppressed sy_oracle oracle_put_kv oracle_store]; rewrite map_size_insert, Hnone; lia].
    apply untouched_put; [split; lia|exact Hu].
Qed.
(** The synthetic run succeeds under every plan, and counts its writes. *)
Lemma synthetic_run_passes plan :
  exists s, execute_synthetic_run plan = Ok s /\ sy_suppressed s = count_ops (suppress_this_write plan) 0 20 /\
    oracle_len (sy_oracle s) = 20 - sy_suppressed s.
Proof.
  destruct (synthetic_from_ok plan 0 20 (mkSynthetic oracle_new [] 0)) as (s & E & Es & El); [lia|lia|exact (fun m _ _ => lookup_empty _)|].
  exists s. split; [exact E|]. cbn [sy_suppressed] in Es. split; [lia|]. rewrite El, Es. change (oracle_len _) with 0. lia.
Qed.

(** The oracle and the child's store hold the same. *)
Definition child_ok (op_n : Z) (c : Child) : Prop :=
  untouched CHILD_NS op_n (ch_oracle c) /\ (x01 ∉ CHILD_NS) /\
  (forall k, oracle_store (ch_oracle c) !! composite_key CHILD_NS k = ch_store c !! k) /\
  (forall x, is_Some (oracle_store (ch_oracle c) !! x) -> exists k, x = composite_key CHILD_NS k).
Lemma child_from_ok plan op_n n c :
  0 <= op_n -> op_n + Z.of_nat n <= u64_max -> child_ok op_n c -> child_ok (op_n + Z.of_nat n) (child_from plan op_n n c).
Proof.
  revert op_n c. induction n as [|n IH]; intros op_n c H0 Hn Hc; cbn [child_from]; [by replace (op_n + Z.of_nat 0) with op_n by lia|].
  replace (op_n + Z.of_nat (S n)) with (op_n + 1 + Z.of_nat n) by lia. apply IH; [lia|lia|]. destruct Hc as (Hu & Hs & Hl & Hd).
  unfold child_op. destruct (is_put_suppressed (ch_plan c)).
  - split; [|done]. by eapply untouched_mono; [|reflexivity|exact Hu]; lia.
  - split; [apply untouched_put; [split; lia|exact Hu]|]. split; [done|]. cbn [ch_oracle ch_store oracle_put_kv oracle_store]. split.
    + intros k. destruct (decide (k = op_key op_n)) as [->|Hne]; [by rewrite !lookup_insert_eq|].
      rewrite !lookup_insert_ne; [done|done|]. intros E%composite_inj. done.
    + intros x Hx. destruct (decide (x = composite_key CHILD_NS (op_key op_n))) as [->|Hne]; [by eexists|].
      rewrite lookup_insert_ne in Hx by done. by apply Hd.
Qed.
Lemma child_oracle_map_eq op_n c : child_ok op_n c -> child_oracle_map (ch_oracle c) = ch_store c.
Proof.
  intros (_ & Hs & Hl & Hd). unfold child_oracle_map.
  set (f := fun '(ns, k) => _). assert (forall k v, (k, v) ∈ omap f (oracle_keys (ch_oracle c)) <-> ch_store c !! k = Some v) as Hin.
  { intros k v. rewrite list_elem_of_omap. split.
    - intros ([ns k0] & _ & E). unfold f in E. case_decide as En; [|done]. subst ns. unfold oracle_get_kv in E. rewrite Hl in E.
      destruct (ch_store c !! k0) as [p|] eqn:Ek; [|done]. by injection E as <- <-.
    - intros Ev. exists (CHILD_NS, k). split.
      + unfold oracle_keys. apply list_elem_of_fmap. exists (composite_key CHILD_NS k). split.
        * unfold composite_key. cbn [app]. by rewrite split_once_app.
        * apply elem_of_btree_keys. by rewrite Hl, Ev.
      + unfold f. rewrite decide_True by done. unfold oracle_get_kv. by rewrite Hl, Ev. }
  apply map_eq. intros k. destruct (ch_store c !! k) as [v|] eqn:Ek.
  - apply elem_of_list_to_map_1'; [|by apply Hin]. intros y Hy%Hin. congruence.
  - apply not_elem_of_list_to_map_1. intros ([k0 v] & E & Hv)%list_elem_of_fmap. cbn in E. subst k0. apply Hin in Hv. congruence.
Qed.
Lemma child_start plan s : child_ok 0 (mkChild oracle_new ∅ [] 0 (set_plan plan s)).
Proof.
  split; [exact (fun m _ _ => lookup_empty _)|]. split; [by_eval|]. split; [done|].
  intros x [y Hx]. exfalso. revert Hx. change (oracle_store _) with (∅ : gmap str bytes). by rewrite lookup_empty.
Qed.
(** A write of the child is suppressed or in its store. *)
Lemma child_from_counts plan op_n n c :
  0 <= op_n -> op_n + Z.of_nat n <= u64_max -> child_ok op_n c ->
  let c' := child_from plan op_n n c in
  ch_suppressed c <= ch_suppressed c' /\
  ch_suppressed c' + Z.of_nat (size (ch_store c')) = ch_suppressed c + Z.of_nat (size (ch_store c)) + Z.of_nat n.
Proof.
  revert op_n c. induction n as [|n IH]; intros op_n c H0 Hn Hc; cbn [child_from]; [lia|].
  assert (ch_store c !! op_key op_n = None) as Hnew.
  { destruct Hc as (Hu & _ & Hl & _). rewrite <- Hl. apply Hu; [lia|split; lia]. }
  pose proof (child_from_ok plan op_n 1 c H0 ltac:(lia) Hc) as Hc1. cbn [child_from] in Hc1.
  destruct (IH (op_n + 1) (child_op plan op_n c)) as [Hle Heq]; [lia|lia|done|]. rewrite Heq. clear IH Heq. revert Hle.
  generalize (child_from plan (op_n + 1) n (child_op plan op_n c)). intros c'. unfold child_op.
  destruct (is_put_suppressed (ch_plan c)); cbn [ch_suppressed ch_store]; [lia|]. rewrite map_size_insert_None by done. lia.
Qed.
(** The child passes under every plan, for what it compares are two records of its own;
    its report counts every operation once. *)
Lemma child_reports `{!Texts} plan op_count s :
  0 <= op_count <= u32_max ->
  let r := fst (child_run plan op_count s) in
  cr_verdict r = lit "pass" /\ cr_divergent_keys r = [] /\ 0 <= cr_suppressed_writes r <= op_count /\
  cr_oracle_key_count r = op_count - cr_suppressed_writes r /\ cr_store_key_count r = op_count - cr_suppressed_writes r.
Proof.
  intros Hn. unfold child_run. set (c := child_from _ _ _ _).
  assert (child_ok (0 + Z.of_nat (Z.to_nat op_count)) c) as Hc by (apply child_from_ok; [lia|lia|apply child_start]).
  destruct (child_from_counts plan 0 (Z.to_nat op_count) _ ltac:(lia) ltac:(lia) (child_start plan s)) as [Hle Heq]. fold c in Hle, Heq.
  cbn [ch_suppressed ch_store] in Hle, Heq. rewrite map_size_empty in Heq.
  cbn [fst cr_verdict cr_divergent_keys cr_suppressed_writes cr_oracle_key_count cr_store_key_count]. rewrite (child_oracle_map_eq _ _ Hc). unfold divergent_keys.
  assert (forall (f : str -> option str) l, (forall k, k ∈ l -> f k = None) -> omap f l = []) as Hnil.
  { intros f l Hl. induction l as [|k l IH]; [done|]. cbn. rewrite (Hl k) by by left. apply IH. intros k' Hk'. apply Hl. by right. }
  rewrite !Hnil; [split; [done|]; split; [done|]; lia|..].
  - intros k Hk%elem_of_btree_keys. by rewrite decide_True.
  - intros k Hk. by rewrite decide_True.
Qed.
(** Under a generated plan the child suppresses what the synthetic run would. *)
Lemma child_from_suppresses seed class s k n c :
  ch_plan c = after_ops k (schedule_for_class seed class) s -> Z.of_nat k + Z.of_nat n <= u32_max ->
  ch_suppressed (child_from (schedule_for_class seed class) (Z.of_nat k) n c) =
    ch_suppressed c + count_ops (suppress_this_write (schedule_for_class seed class)) (Z.of_nat k) n.
Proof.
  revert k c. induction n as [|n IH]; intros k c Hp Hn; cbn [child_from count_ops]; [lia|].
  replace (Z.of_nat k + 1) with (Z.of_nat (S k)) by lia. rewrite IH; [|unfold child_op; by destruct (is_put_suppressed _); cbn [ch_plan]; rewrite Hp|lia].
  rewrite (runners_agree seed class s k) by lia. rewrite <- Hp. unfold child_op. destruct (is_put_suppressed _); cbn [ch_suppressed]; lia.
Qed.
Lemma child_suppresses `{!Texts} seed class op_count s :
  0 <= op_count <= u32_max ->
  cr_suppressed_writes (fst (child_run (schedule_for_class seed class) op_count s)) = count_ops (suppress_this_write (schedule_for_class seed class)) 0 (Z.to_nat op_count).
Proof.
  intros Hn. unfold child_run. cbn [fst cr_suppressed_writes].
  rewrite (child_from_suppresses seed class s 0 (Z.to_nat op_count)); [done|done|lia].
Qed.

(** ** The driver accepts what is right *)

(** A daemon that keeps what it acknowledges: reads of a name whose last put was
    acknowledged return its payload; a put, failed or not, leaves other names alone. *)
Class UnderTestLaws (D : Type) `{!UnderTest D} := {
  ut_repr : D -> gmap (str * str) bytes -> Prop;
  law_ut_put d m ns key payload d' r :
    ut_repr d m -> ut_put ns key payload d = (d', r) ->
    exists m', ut_repr d' m' /\ (r = Ok tt -> m' !! (ns, key) = Some payload) /\ forall x, x <> (ns, key) -> m' !! x = m !! x;
  law_ut_get d m ns key d' r payload :
    ut_repr d m -> m !! (ns, key) = Some payload -> ut_get ns key d = (d', r) -> ut_repr d' m /\ r = Ok (OracleHit payload)
}.
Section Accepts.
Context {D : Type} `{!UnderTest D} `{!UnderTestLaws D} `{!Texts}.
(** The keys read back are among those put, and hold what the oracle says. *)
Definition driver_ok (s : Driver D) : Prop :=
  dv_divergences s = [] /\ dv_matches s = dv_ops_run s /\
  exists m, ut_repr (dv_daemon s) m /\
    Forall (fun key => key ∈ dv_keys s /\ exists p, m !! (DRIVER_NS, key) = Some p /\ oracle_store (dv_oracle s) !! composite_key DRIVER_NS key = Some p)
      (dv_prior_keys s).
Lemma driver_put_keys kr (s : Driver D) :
  exists key, dv_keys (driver_put kr s) = dv_keys s ++ [key] /\ (key ∉ dv_keys s -> driver_ok s -> driver_ok (driver_put kr s)) /\
    dv_ops_run (driver_put kr s) = dv_ops_run s + 1.
Proof.
  unfold driver_put. destruct (next_u64 _) as [v rng]. destruct (next_u32 4096 rng) as [l rng1]. destruct (next_u32 256 rng1) as [b rng2].
  set (key := lit "k" ++ hex_pad8 v). generalize (replicate (Z.to_nat (l + 128)) (byte_of_Z b)) as payload. intros payload.
  destruct (ut_put DRIVER_NS key payload (dv_daemon s)) as [d r] eqn:Ep. exists key.
  assert (forall m m' : gmap (str * str) bytes, (forall x, x <> (DRIVER_NS, key) -> m' !! x = m !! x) -> key ∉ dv_keys s ->
    forall k, k ∈ dv_keys s -> m' !! (DRIVER_NS, k) = m !! (DRIVER_NS, k)) as Hother.
  { intros m m' Hm Hk k Hin. apply Hm. by intros [= ->]. }
  destruct r as [[]|e]; (split; [done|]; split; [|done]); intros Hk (Hdv & Hma & m & Hr & Hf).
  - destruct (law_ut_put _ _ _ _ _ _ _ Hr Ep) as (m' & Hr' & Hin & Hm). split; [done|]. split; [cbn; lia|]. exists m'. split; [done|].
    cbn [dv_prior_keys dv_keys dv_oracle oracle_put_kv oracle_store]. apply Forall_app. split.
    + eapply (Forall_impl _ _ _ Hf). intros k (Hkin & p & E1 & E2). split; [set_solver|]. exists p. rewrite (Hother m m' Hm Hk k Hkin).
      split; [done|]. rewrite lookup_insert_ne; [done|]. intros E%composite_inj. subst k. by apply Hk.
    + apply Forall_singleton. split; [set_solver|]. exists payload. split; [by apply Hin|]. by rewrite lookup_insert_eq.
  - destruct (law_ut_put _ _ _ _ _ _ _ Hr Ep) as (m' & Hr' & _ & Hm). split; [done|]. split; [cbn; lia|]. exists m'. split; [done|].
    cbn [dv_prior_keys dv_keys dv_oracle oracle_put_kv_failed oracle_store]. eapply (Forall_impl _ _ _ Hf).
    intros k (Hkin & p & E1 & E2). split; [set_solver|]. exists p. by rewrite (Hother m m' Hm Hk k Hkin).
Qed.
Lemma driver_get_ok op_idx kr (s : Driver D) :
  dv_prior_keys s <> [] -> len (dv_prior_keys s) <= u32_max -> driver_ok s ->
  driver_ok (driver_get op_idx kr s) /\ dv_ops_run (driver_get op_idx kr s) = dv_ops_run s + 1 /\ dv_keys (driver_get op_idx kr s) = dv_keys s.
Proof.
  intros Hne Hlen (Hdv & Hma & m & Hr & Hf). unfold driver_get. rewrite decide_True by done.
  assert (0 < len (dv_prior_keys s)) as Hpos by (destruct (dv_prior_keys s) as [|k ks]; [done|]; rewrite len_cons; pose proof (len_nonneg ks); lia).
  unfold next_u32. rewrite decide_False by lia. destruct (next_u64 kr) as [x kr']. pose proof (Z.mod_pos_bound x (len (dv_prior_keys s)) Hpos) as Hx.
  set (key := nth _ _ _).
  assert (key ∈ dv_prior_keys s) as Hin. { apply list_elem_of_In, nth_In. unfold len in *. lia. }
  rewrite Forall_forall in Hf. destruct (Hf key Hin) as (Hk & p & E1 & E2).
  destruct (ut_get DRIVER_NS key (dv_daemon s)) as [d r] eqn:Eg. destruct (law_ut_get _ _ _ _ _ _ _ Hr E1 Eg) as [Hr' ->].
  unfold check_get, oracle_get_kv. rewrite E2, decide_True by done. split; [|done]. split; [done|]. split; [cbn; lia|]. exists m.
  split; [done|]. cbn. by apply Forall_forall.
Qed.
Lemma driver_op_keys op_idx (s : Driver D) : exists l, dv_keys (driver_op op_idx s) = dv_keys s ++ l.
Proof.
  unfold driver_op. destruct (dv_prior_keys s) as [|k ks] eqn:Ek; [destruct (driver_put_keys (dv_key_rng s) s) as (key & E & _); eauto|].
  destruct (next_u32 100 _) as [x kr]. case_decide; [|destruct (driver_put_keys kr s) as (key & E & _); eauto].
  exists []. rewrite app_nil_r. unfold driver_get. destruct (next_u32 _ kr) as [i kr']. destruct (ut_get _ _ _) as [d [o|e]]; [|done].
  by destruct (check_get _ _ _ _).
Qed.
Lemma driver_from_keys op_idx n (s : Driver D) : exists l, dv_keys (driver_from op_idx n s) = dv_keys s ++ l.
Proof.
  revert op_idx s. induction n as [|n IH]; intros op_idx s; cbn [driver_from]; [exists []; by rewrite app_nil_r|].
  destruct (IH (op_idx + 1) (driver_op op_idx s)) as [l ->]. destruct (driver_op_keys op_idx s) as [l' ->]. eexists. by rewrite <- app_assoc.
Qed.
Lemma driver_op_ok op_idx (s : Driver D) :
  NoDup (dv_keys (driver_op op_idx s)) -> len (dv_prior_keys s) <= u32_max -> driver_ok s ->
  driver_ok (driver_op op_idx s) /\ dv_ops_run (driver_op op_idx s) = dv_ops_run s + 1.
Proof.
  assert (forall kr, NoDup (dv_keys (driver_put kr s)) -> driver_ok s -> driver_ok (driver_put kr s) /\ dv_ops_run (driver_put kr s) = dv_ops_run s + 1) as Hput.
  { intros kr Hn Hs. destruct (driver_put_keys kr s) as (key & E & Hok & Ho). split; [|done]. apply Hok; [|done]. rewrite E in Hn.
    apply NoDup_app in Hn as (_ & Hn & _). intros Hin. apply (Hn key Hin). by left. }
  unfold driver_op. destruct (dv_prior_keys s) as [|k ks] eqn:Ek; [intros Hn _ Hs; by apply Hput|]. rewrite <- Ek.
  destruct (next_u32 100 _) as [x kr]. case_decide; [|intros Hn _ Hs; by apply Hput]. intros Hn Hl Hs.
  destruct (driver_get_ok op_idx kr s) as (Hok & Ho & _); [by rewrite Ek|done|done|]. done.
Qed.
Lemma driver_prior_len op_idx (s : Driver D) : len (dv_prior_keys (driver_op op_idx s)) <= len (dv_prior_keys s) + 1.
Proof.
  assert (forall kr, len (dv_prior_keys (driver_put kr s)) <= len (dv_prior_keys s) + 1) as Hput.
  { intros kr. unfold driver_put. destruct (next_u64 _) as [v rng]. destruct (next_u32 4096 rng) as [l rng1].
    destruct (next_u32 256 rng1) as [b rng2]. destruct (ut_put _ _ _ _) as [d [[]|e]]; cbn [dv_prior_keys]; [rewrite len_app; by cbn|lia]. }
  unfold driver_op. destruct (dv_prior_keys s) as [|k ks] eqn:Ek; [apply Hput|]. rewrite <- Ek in *.
  destruct (next_u32 100 _) as [x kr]. case_decide; [|apply Hput]. unfold driver_get. destruct (next_u32 _ kr) as [i kr'].
  destruct (ut_get _ _ _) as [d [o|e]]; [|cbn; lia]. destruct (check_get _ _ _ _); cbn; lia.
Qed.
Lemma driver_from_ok op_idx n (s : Driver D) :
  NoDup (dv_keys (driver_from op_idx n s)) -> len (dv_prior_keys s) + Z.of_nat n <= u32_max -> driver_ok s ->
  driver_ok (driver_from op_idx n s) /\ dv_ops_run (driver_from op_idx n s) = dv_ops_run s + Z.of_nat n.
Proof.
  revert op_idx s. induction n as [|n IH]; intros op_idx s Hn Hl Hs; cbn [driver_from] in *; [split; [done|lia]|].
  destruct (driver_from_keys (op_idx + 1) n (driver_op op_idx s)) as [l El].
  assert (NoDup (dv_keys (driver_op op_idx s))) as Hn1 by (rewrite El in Hn; by apply NoDup_app in Hn as (? & _)).
  destruct (driver_op_ok op_idx s Hn1 ltac:(lia) Hs) as [Hs1 Ho]. pose proof (driver_prior_len op_idx s).
  destruct (IH (op_idx + 1) (driver_op op_idx s) Hn ltac:(lia) Hs1) as [Hok Ho2]. split; [done|]. lia.
Qed.

(** The driver accepts every daemon that keeps what it acknowledges: for every seed
    whose keys are distinct it runs all its operations and reports no divergence,
    whichever puts the daemon refuses, and whether or not a refused put left something
    behind. *)
Theorem driver_accepts_faithful_daemon seed ops (d : D) m :
  ut_repr d m -> 0 <= ops <= u32_max -> NoDup (dv_keys (driver_run seed ops d)) ->
  let s := driver_run seed ops d in dv_divergences s = [] /\ dv_ops_run s = ops /\ dv_matches s = ops.
Proof.
  intros Hr Ho Hn s. destruct (driver_from_ok 0 (Z.to_nat ops) (mkDriver 0 0 [] oracle_new [] (rng_phase seed 2) (rng_phase seed 3) d []))
    as [(Hd & Hm & _) Hrun]; [exact Hn|cbn [dv_prior_keys]; change (len []) with 0; lia|split; [done|]; split; [done|]; exists m; split; [done|constructor]|].
  fold (driver_run seed ops d) in Hd, Hm, Hrun. fold s in Hd, Hm, Hrun. cbn [dv_ops_run] in Hrun. split; [done|]. split; lia.
Qed.
End Accepts.

(** ** A concrete daemon: a map that refuses every put under a certain length, after
    having carried it out. *)
Abbreviation Touchy := (gmap (str * str) bytes).
#[export] Instance touchy_under_test : UnderTest Touchy := {|
  ut_put ns key p d := (<[(ns, key) := p]> d, if decide (len p < 1000) then Err (lit "refused") else Ok tt);
  ut_get ns key d := (d, Ok (match d !! (ns, key) with Some p => OracleHit p | None => OracleMiss end))
|}.
#[export] Instance touchy_laws : UnderTestLaws Touchy.
Proof.
  refine {| ut_repr := fun (d : Touchy) m => d = m |}.
  - intros d m ns key p d' r -> E. cbn [ut_put touchy_under_test] in E. injection E as <- <-. exists (<[(ns, key) := p]> m).
    split; [done|]. split; [intros _; apply lookup_insert_eq|]. intros x Hx. by rewrite lookup_insert_ne.
  - intros d m ns key d' r p -> E Eg. cbn [ut_get touchy_under_test] in Eg. injection Eg as <- <-. by rewrite E.
Defined.
Lemma driver_accepts_faithful_daemon_witness :
  let s := driver_run (H := plain_texts) 42 12 (∅ : Touchy) in
  dv_divergences s = [] /\ dv_ops_run s = 12 /\ dv_matches s = 12.
Proof.
  apply (driver_accepts_faithful_daemon 42 12 (∅ : Touchy) ∅); [reflexivity|lia|]. apply (bool_decide_unpack _). vm_compute. exact Logic.I.
Defined.
Lemma runners_agree_witness :
  suppress_this_write (schedule_for_class 42 FailureClass.ConcurrentSameKeySave) 1
  = is_put_suppressed (after_ops 1 (schedule_for_class 42 FailureClass.ConcurrentSameKeySave) (mkPlanState None 0)).
Proof. apply (runners_agree 42 FailureClass.ConcurrentSameKeySave (mkPlanState None 0) 1). lia. Defined.

(** A plan that was not generated, with two events at one operation, is read
    differently: the synthetic run suppresses the write, the child does not. *)
Lemma runners_differ_on_a_mixed_plan :
  let plan := mkPlan 0 None [mkFault (AfterKvOp 1) TransportConnectionDrop; mkFault (AfterKvOp 1) KillBeforeSidecar] in
  suppress_this_write plan 0 = true /\ is_put_suppressed (after_ops 0 plan (mkPlanState None 0)) = false.
Proof. by split. Qed.
