(* ===== verification/BenchTools.v ===== *)
(** * The benchmarks of single components ([wombatkv-bench])

    Models [wombatkv-arena-bench] over the arena of [Arena] and [wombatkv-shm-bench] over
    the rings of [Client]; the helpers that name a run and find the daemon's binary; and
    the main functions of [wombatkv-embedded-vs-daemon-bench] and
    [wombatkv-multi-load-bench], whose workloads are in [Bench].  Measured times and the
    answers of the system are arguments.

    The theorems say that the arena bench never wraps and reads back what it wrote, that
    the names of a run fit the daemon's budget, which binary is found, and that the ring
    bench cannot run against a daemon with an arena. *)

From S2P Require Import Prelude Order Text Strings Radix Hex BlockMeta ObjectStore Compression BlobCache Foyer Embed F64 Envelope Wire Arena Rpc.
From S2P Require Import Daemon DaemonSpec Client ClientSpec Lifecycle S3 Cabi CabiInit Serve Startup Dst Runner Remote Bench.
From S2P Require SlateMeta.

(** ** The printed stages of the arena and the ring bench

    Samples are sorted in place; without any the closure [p] panics. *)
Record Emitted := mkEmitted {
  em_label : str; em_count : Z; em_payload_bytes : Z; em_ops_per_s : f64; em_mb_per_s : f64; em_percentiles : list f64; em_max : f64
}.
Definition emit_stage (quantiles : list f64) (label : str) (samples : list f64) (payload_bytes : Z) : option Emitted :=
  let s := mkStage label payload_bytes (sort_by f64_cmp samples) in
  let total_s := f64_div (total_us s) MILLION in
  let positive := match f64_cmp total_s f64_zero with Gt => true | _ => false end in
  let count := f64_of_u64 (len samples) in
  match samples with
  | [] => None
  | _ =>
      Some (mkEmitted label (len samples) payload_bytes
              (if positive then f64_div count total_s else f64_zero)
              (if positive then f64_div (f64_div (f64_mul count (f64_of_u64 payload_bytes)) (f64_of_u64 (1024 * 1024))) total_s else f64_zero)
              (map (stage_percentile s) quantiles) (default f64_zero (last (samples_us s))))
  end.
Definition ARENA_QUANTILES : list f64 := [ratio 10 100; ratio 50 100; ratio 90 100; ratio 99 100; ratio 999 1000].
Definition SHM_QUANTILES : list f64 :=
  [ratio 10 100; ratio 25 100; ratio 50 100; ratio 90 100; ratio 95 100; ratio 99 100; ratio 999 1000; ratio 9999 10000].

(** ** [wombatkv-arena-bench] *)
Definition BENCH_ARENA_SIZE : Z := 4 * 1024 * 1024 * 1024.
Definition arena_count (kib : Z) : nat := if decide (256 <= kib) then 200 else 1000.
(** [write_payload(..).expect(..)] and [read_payload(..).expect(..)] *)
Definition expect_write (payload : bytes) (w : ArenaWriter) : option (ArenaWriter * (Z * Z)) :=
  '(w, r) ← write_payload payload w; match r with Ok slab => Some (w, slab) | Err _ => None end.
Definition expect_read (off n : Z) (r : ArenaReader) (w : ArenaWriter) : option bytes :=
  out ← read_payload (mmap w) off n r; match out with Ok b => Some b | Err _ => None end.
Fixpoint arena_writes (payload : bytes) (n : nat) (offsets : list Z) (w : ArenaWriter) : option (ArenaWriter * list Z) :=
  match n with
  | O => Some (w, offsets)
  | S n => '(w, (off, _)) ← expect_write payload w; arena_writes payload n (offsets ++ [off]) w
  end.
(** The copies that the reads make. *)
Definition arena_reads (n : Z) (r : ArenaReader) (w : ArenaWriter) (offsets : list Z) : option (list bytes) :=
  mapM (fun off => expect_read off n r w) offsets.
Fixpoint arena_round_trips (payload : bytes) (n : nat) (r : ArenaReader) (copies : list bytes) (w : ArenaWriter)
  : option (ArenaWriter * list bytes) :=
  match n with
  | O => Some (w, copies)
  | S n => '(w, (off, len)) ← expect_write payload w; b ← expect_read off len r w; arena_round_trips payload n r (copies ++ [b]) w
  end.
(** One size: the writer and all that was read. *)
Definition arena_size_stage (r : ArenaReader) (kib : Z) (w : ArenaWriter) : option (ArenaWriter * list bytes) :=
  let payload := stage_payload kib in
  let n := arena_count kib in
  '(w, _) ← expect_write payload w;
  '(w, offsets) ← arena_writes payload n [] w;
  copies ← arena_reads (wrap32 (len payload)) r w offsets;
  arena_round_trips payload n r copies w.
Fixpoint arena_stages (r : ArenaReader) (sizes : list Z) (out : list (Z * list bytes)) (w : ArenaWriter) : option (ArenaWriter * list (Z * list bytes)) :=
  match sizes with
  | [] => Some (w, out)
  | kib :: sizes => '(w, copies) ← arena_size_stage r kib w; arena_stages r sizes (out ++ [(kib, copies)]) w
  end.
(** [main]: the exit code, with what was read and the last line's numbers. *)
Definition arena_bench (opened sized mapped : result unit str) (read_opened : bytes -> result bytes str) (read_mapped : result unit str)
  : option (Z * option (list (Z * list bytes) * Z * Z)) :=
  created ← arena_create opened sized mapped BENCH_ARENA_SIZE;
  match created with
  | Err _ => Some (EXIT_FAILURE, None)
  | Ok w =>
      match arena_open (read_opened (mmap w)) read_mapped with
      | Err _ => Some (EXIT_FAILURE, None)
      | Ok r =>
          '(w, out) ← arena_stages r SIZES_KIB [] w;
          next ← next_offset w; epoch ← wrap_epoch (mmap w);
          Some (EXIT_SUCCESS, Some (out, next - ARENA_HEADER_BYTES, epoch))
      end
  end.

Lemma len_stage_payload kib : 0 <= kib -> len (stage_payload kib) = kib * 1024.
Proof. intros. unfold stage_payload, len. rewrite length_replicate. lia. Qed.

Section ArenaBench.
Context (e0 : Z) (e0_u64 : 0 <= e0 < 2 ^ 64).
(** An arena of the bench's size, filled up to an offset, that has not wrapped. *)
Definition filled (next : Z) (w : ArenaWriter) : Prop :=
  arena_inv w /\ arena_size w = BENCH_ARENA_SIZE /\ next_of (mmap w) = next /\ epoch_of (mmap w) = e0.
Abbreviation reader := (mkArenaReader BENCH_ARENA_SIZE).
Lemma expect_write_ok payload next w :
  filled next w -> next + len payload <= BENCH_ARENA_SIZE -> len payload <= u32_max ->
  exists w', expect_write payload w = Some (w', (next, len payload)) /\ filled (next + len payload) w' /\
    slice next (next + len payload) (mmap w') = payload /\
    forall a b, 64 <= a <= b -> b <= next -> slice a b (mmap w') = slice a b (mmap w).
Proof.
  intros (Hi & Hs & Hn & He) Hfit Hu. pose proof (len_nonneg payload) as H0. destruct Hi as [Hl Hsz Hnx] eqn:Ei. clear Ei.
  assert (wraps (len payload) w = false) as Hw by (unfold wraps; apply bool_decide_eq_false; lia).
  destruct (write_payload_ok payload w) as (w' & E & Hi' & Hs' & Hn' & _ & He' & Hsl & Hkept); [done|lia|].
  unfold slab_of in *. rewrite Hw in *. cbn [Z.b2z] in He'. rewrite Hn in *.
  exists w'. unfold expect_write. rewrite E. cbn [mbind option_bind]. unfold wrap32. rewrite Z.mod_small by lia.
  split; [done|]. split; [|split; [done|intros a b Ha Hb; apply Hkept; lia]].
  split; [done|]. split; [lia|]. split; [done|]. rewrite He', He, Z.add_0_r. unfold wrap64. by apply Z.mod_small.
Qed.
Lemma expect_read_ok off payload next w :
  filled next w -> 64 <= off -> off + len payload <= BENCH_ARENA_SIZE -> slice off (off + len payload) (mmap w) = payload ->
  expect_read off (len payload) reader w = Some payload.
Proof.
  intros ([Hl Hsz Hnx] & Hs & _) Ho Hfit Hsl. unfold expect_read. pose proof (len_nonneg payload).
  replace reader with (mkArenaReader (len (mmap w))) by (by rewrite Hl, Hs).
  rewrite read_payload_ok by lia. cbn [mbind option_bind]. by rewrite Hsl.
Qed.
Lemma arena_writes_ok payload n next offsets w :
  filled next w -> 64 <= next -> next + Z.of_nat n * len payload <= BENCH_ARENA_SIZE -> len payload <= u32_max ->
  Forall (fun off => 64 <= off /\ off + len payload <= next /\ slice off (off + len payload) (mmap w) = payload) offsets ->
  exists w' offsets', arena_writes payload n offsets w = Some (w', offsets') /\ filled (next + Z.of_nat n * len payload) w' /\
    Forall (fun off => 64 <= off /\ off + len payload <= next + Z.of_nat n * len payload /\ slice off (off + len payload) (mmap w') = payload) offsets' /\
    length offsets' = (length offsets + n)%nat.
Proof.
  revert next offsets w. induction n as [|n IH]; intros next offsets w Hw H64 Hfit Hu Hoff; cbn [arena_writes].
  { exists w, offsets. rewrite Z.mul_0_l, Z.add_0_r. split; [done|]. split; [done|]. split; [done|]. lia. }
  pose proof (len_nonneg payload). destruct (expect_write_ok payload next w Hw ltac:(lia) Hu) as (w1 & -> & Hw1 & Hsl & Hkept). cbn [mbind option_bind].
  destruct (IH (next + len payload) (offsets ++ [next]) w1) as (w2 & offsets2 & E & Hw2 & Hoff2 & Hlen); [done|lia|lia|done| |].
  { apply Forall_app. split; [|apply Forall_singleton; split; [lia|]; split; [lia|done]].
    eapply (Forall_impl _ _ _ Hoff). intros off (? & ? & Hb). split; [done|]. split; [lia|]. rewrite Hkept by lia. done. }
  exists w2, offsets2. replace (next + Z.of_nat (S n) * len payload) with (next + len payload + Z.of_nat n * len payload) by lia.
  do 3 (split; [done|]). rewrite Hlen, length_app. cbn [length]. lia.
Qed.
Lemma arena_reads_ok payload next offsets w :
  filled next w -> next <= BENCH_ARENA_SIZE ->
  Forall (fun off => 64 <= off /\ off + len payload <= next /\ slice off (off + len payload) (mmap w) = payload) offsets ->
  arena_reads (len payload) reader w offsets = Some (replicate (length offsets) payload).
Proof.
  intros Hw Hn. unfold arena_reads. induction 1 as [|off offsets (H64 & Hfit & Hsl) _ IH]; [done|]. cbn [mapM].
  rewrite (expect_read_ok off payload next w) by (done || lia). cbn [mbind option_bind]. rewrite IH. done.
Qed.
Lemma arena_round_trips_ok payload n next copies w :
  filled next w -> 64 <= next -> next + Z.of_nat n * len payload <= BENCH_ARENA_SIZE -> len payload <= u32_max ->
  Forall (fun b => b = payload) copies ->
  exists w' copies', arena_round_trips payload n reader copies w = Some (w', copies') /\ filled (next + Z.of_nat n * len payload) w' /\
    Forall (fun b => b = payload) copies' /\ length copies' = (length copies + n)%nat.
Proof.
  revert next copies w. induction n as [|n IH]; intros next copies w Hw H64 Hfit Hu Hc; cbn [arena_round_trips].
  { exists w, copies. rewrite Z.mul_0_l, Z.add_0_r. split; [done|]. split; [done|]. split; [done|]. lia. }
  pose proof (len_nonneg payload). destruct (expect_write_ok payload next w Hw ltac:(lia) Hu) as (w1 & -> & Hw1 & Hsl & _). cbn [mbind option_bind].
  rewrite (expect_read_ok next payload (next + len payload) w1) by (done || lia). cbn [mbind option_bind].
  destruct (IH (next + len payload) (copies ++ [payload]) w1) as (w2 & copies2 & E & Hw2 & Hc2 & Hlen);
    [done|lia|lia|done|apply Forall_app; split; [done|by apply Forall_singleton]|].
  exists w2, copies2. replace (next + Z.of_nat (S n) * len payload) with (next + len payload + Z.of_nat n * len payload) by lia.
  do 3 (split; [done|]). rewrite Hlen, length_app. cbn [length]. lia.
Qed.
(** What the stage of a size takes. *)
Definition stage_bytes (kib : Z) : Z := (1 + 2 * Z.of_nat (arena_count kib)) * (kib * 1024).
Lemma arena_size_stage_ok kib next w :
  filled next w -> 64 <= next -> 0 <= kib <= 1536 -> next + stage_bytes kib <= BENCH_ARENA_SIZE ->
  exists w' copies, arena_size_stage reader kib w = Some (w', copies) /\ filled (next + stage_bytes kib) w' /\
    Forall (fun b => b = stage_payload kib) copies /\ length copies = (2 * arena_count kib)%nat.
Proof.
  intros Hw H64 Hk Hfit. unfold arena_size_stage, stage_bytes in *. pose proof (len_stage_payload kib ltac:(lia)) as Hl.
  generalize dependent (arena_count kib). intros n Hfit. generalize dependent (stage_payload kib). intros payload Hl. rewrite <- Hl in Hfit |- *.
  assert (len payload <= u32_max) as Hu by lia. pose proof (len_nonneg payload).
  destruct (expect_write_ok payload next w Hw ltac:(lia) Hu) as (w1 & -> & Hw1 & _ & _). cbn [mbind option_bind].
  destruct (arena_writes_ok payload n (next + len payload) [] w1) as (w2 & offsets & -> & Hw2 & Hoff & Hlo); [done|lia|lia|done|constructor|].
  cbn [mbind option_bind]. replace (wrap32 (len payload)) with (len payload) by (unfold wrap32; rewrite Z.mod_small; lia).
  rewrite (arena_reads_ok payload _ offsets w2 Hw2 ltac:(lia) Hoff). cbn [mbind option_bind].
  destruct (arena_round_trips_ok payload n _ (replicate (length offsets) payload) w2 Hw2) as (w3 & copies & E & Hw3 & Hc & Hlc);
    [lia|lia|done|by apply Forall_replicate|].
  exists w3, copies. split; [done|]. split; [|split; [done|rewrite Hlc, length_replicate; cbn [length] in Hlo; lia]].
  by replace (next + (1 + 2 * Z.of_nat n) * len payload) with (next + len payload + Z.of_nat n * len payload + Z.of_nat n * len payload) by lia.
Qed.
(** All sizes, one after the other. *)
Fixpoint bench_bytes (sizes : list Z) : Z := match sizes with [] => 0 | kib :: sizes => stage_bytes kib + bench_bytes sizes end.
Lemma stage_bytes_nonneg kib : 0 <= kib <= 1536 -> 0 <= stage_bytes kib.
Proof. intros. unfold stage_bytes. nia. Qed.
Lemma bench_bytes_nonneg sizes : Forall (fun kib => 0 <= kib <= 1536) sizes -> 0 <= bench_bytes sizes.
Proof. induction 1 as [|kib sizes Hk _ IH]; cbn [bench_bytes]; [lia|]. pose proof (stage_bytes_nonneg kib Hk). lia. Qed.
Lemma arena_stages_ok sizes next out w :
  filled next w -> 64 <= next -> Forall (fun kib => 0 <= kib <= 1536) sizes ->
  next + bench_bytes sizes <= BENCH_ARENA_SIZE ->
  exists w' copies, arena_stages reader sizes out w = Some (w', out ++ copies) /\
    filled (next + bench_bytes sizes) w' /\
    Forall2 (fun kib '(k, bs) => k = kib /\ bs = replicate (2 * arena_count kib) (stage_payload kib)) sizes copies.
Proof.
  revert next out w. induction sizes as [|kib sizes IH]; intros next out w Hw H64 Hs Hfit; cbn [arena_stages bench_bytes] in *.
  { exists w, []. rewrite Z.add_0_r, app_nil_r. split; [done|]. by split. }
  inversion_clear Hs as [|? ? Hk Hs']. pose proof (bench_bytes_nonneg sizes Hs'). pose proof (stage_bytes_nonneg kib Hk).
  destruct (arena_size_stage_ok kib next w Hw H64 Hk ltac:(lia)) as (w1 & bs & -> & Hw1 & Hbs & Hlen). cbn [mbind option_bind].
  destruct (IH (next + stage_bytes kib) (out ++ [(kib, bs)]) w1 Hw1) as (w2 & copies & -> & Hw2 & Hc); [lia|done|lia|].
  exists w2, ((kib, bs) :: copies). rewrite <- app_assoc. split; [done|]. split; [by rewrite Z.add_assoc|].
  constructor; [|done]. split; [done|]. symmetry. apply replicate_as_elem_of. split; [done|]. intros b Hb. rewrite Forall_forall in Hbs. by apply Hbs.
Qed.
End ArenaBench.

(** Where the files and the mappings are granted, the bench ends well: it neither panics
    nor wraps, and every copy that it made, of both passes of each size, is the payload. *)
Theorem arena_bench_reads_back :
  exists out, arena_bench (Ok tt) (Ok tt) (Ok tt) Ok (Ok tt) =
      Some (EXIT_SUCCESS, Some (out, bench_bytes SIZES_KIB, 0)) /\
    Forall2 (fun kib '(k, bs) => k = kib /\ bs = replicate (2 * arena_count kib) (stage_payload kib)) SIZES_KIB out.
Proof.
  unfold arena_bench. destruct (arena_create_inv BENCH_ARENA_SIZE) as (w & -> & Hi & Hs & Hn & He); [done|].
  cbn [mbind option_bind]. unfold arena_open. cbn [map_err res_bind]. pose proof (inv_len w Hi) as Hl. rewrite Hl, Hs.
  destruct (arena_stages_ok 0 ltac:(done) SIZES_KIB 64 [] w) as (w' & out & -> & (Hi' & Hs' & Hn' & He') & Ho);
    [done|lia|repeat constructor; lia|vm_compute; discriminate|].
  cbn [mbind option_bind app]. pose proof (inv_len w' Hi') as Hl'. pose proof (inv_size w' Hi').
  unfold next_offset, wrap_epoch, NEXT_OFFSET_AT, WRAP_EPOCH_AT. rewrite !index_range_ok by lia. cbn [mbind option_bind fmap option_fmap option_map].
  change (le_val (slice 0 (0 + 8) (mmap w'))) with (next_of (mmap w')). change (le_val (slice 8 (8 + 8) (mmap w'))) with (epoch_of (mmap w')).
  rewrite Hn', He'. exists out. by split.
Qed.

(** ** Names and paths *)

(** [format!("{z:x}")] of a u128 *)
Fixpoint hex_fuel (fuel : nat) (z : Z) (acc : str) : str :=
  match fuel with
  | O => acc
  | S fuel => let acc := hex_digit (z mod 16) :: acc in if decide (z / 16 = 0) then acc else hex_fuel fuel (z / 16) acc
  end.
Definition hex_of (z : Z) : str := hex_fuel 32 z [].
(** [format!("{z:0n$x}")] *)
Definition hex_pad (n : nat) (z : Z) : str := replicate (n - length (hex_of z)) x30 ++ hex_of z.
(** [run_tag] takes the last six digits of the clock in nanoseconds, [run_id] all. *)
Definition run_tag (nanos : Z) : str := drop (length (hex_of nanos) - 6) (hex_of nanos).
Definition run_id (nanos : Z) : str := hex_of nanos.
Definition bench_prefix (nanos : Z) : str := lit "b" ++ run_tag nanos.

(** [Path::parent] of a path without empty components *)
Definition SLASH : byte := x2f.
Fixpoint drop_component (rev_path : str) : option str :=
  match rev_path with [] => None | c :: rest => if decide (c = SLASH) then Some rest else drop_component rest end.
Definition path_parent (p : str) : option str :=
  if decide (p = [] \/ p = [SLASH]) then None else
  match drop_component (reverse p) with
  | None => Some []
  | Some [] => Some [SLASH]
  | Some rest => Some (reverse rest)
  end.
(** The loop that looks for the binary beside the executable and above. *)
Fixpoint walk_up (is_file : str -> bool) (fuel : nat) (dir : str) : option str :=
  match fuel with
  | O => None
  | S fuel =>
      parent ← path_parent dir;
      let cand := path_join parent (lit "wombatkv-daemon") in
      if is_file cand then Some cand else walk_up is_file fuel parent
  end.
Definition find_daemon (is_file : str -> bool) (exe : str) : option str := walk_up is_file (S (length exe)) exe.
Definition DAEMON_BIN_ENV : str := lit "WMBT_KV_DAEMON_SHM_DAEMON_BIN".
(** Of [wombatkv-shm-bench], where the executable is always known, and of
    [wombatkv-embedded-vs-daemon-bench]. *)
Definition default_daemon_bin (is_file : str -> bool) (exe : str) : str :=
  default (lit "./target/release/wombatkv-daemon") (find_daemon is_file exe).
Definition shm_daemon_bin (env : str -> option str) (is_file : str -> bool) (exe : str) : str :=
  match env DAEMON_BIN_ENV with Some path => path | None => default_daemon_bin is_file exe end.
Definition daemon_bin (env : str -> option str) (is_file : str -> bool) (exe : option str) : option str :=
  match env DAEMON_BIN_ENV with
  | Some p => if is_file p then Some p else exe ← exe; find_daemon is_file exe
  | None => exe ← exe; find_daemon is_file exe
  end.

(** ** [wombatkv-shm-bench]

    A call returns, panics, or waits for ever. *)
Inductive Ran (A : Type) := Done (a : A) | Panicked | Hangs.
Arguments Done {A}.
Arguments Panicked {A}.
Arguments Hangs {A}.
Definition ran_bind {A B : Type} (m : Ran A) (f : A -> Ran B) : Ran B :=
  match m with Done a => f a | Panicked => Panicked | Hangs => Hangs end.
Definition ran_option {A : Type} (m : option A) : Ran A := match m with Some a => Done a | None => Panicked end.
Definition SHM_NS : str := lit "shm-bench".
Definition SHM_SIZES_KIB : list Z := [4; 64; 256; 1024; 1536].
Definition shm_count (kib : Z) : nat := if decide (256 <= kib) then 200 else 1000.
Section ShmBench.
Context {R : Type} `{!Ring R} (took_ns : str -> nat -> Z).
Definition shm_exchange (req : WireRequest) (r : R) : Ran (R * WireResponse) :=
  let (r, published) := ring_publish req r in
  match published with
  | Err _ => Panicked
  | Ok _ =>
      let (r, got) := ring_recv r in
      match got with None => Hangs | Some (_, Err _) => Panicked | Some (_, Ok resp) => Done (r, resp) end
  end.
Definition PING_LABEL : str := lit "ping_rtt".
Definition ping_request (i : nat) : WireRequest := mkReq (Z.of_nat i) op.PING [] [] [].
Fixpoint shm_pings (i n : nat) (us : list f64) (r : R) : Ran (result (R * list f64) str) :=
  match n with
  | O => Done (Ok (r, us))
  | S n =>
      ran_bind (shm_exchange (ping_request i) r) (fun '(r, resp) =>
      if decide (rs_id resp <> Z.of_nat i \/ rs_status resp <> status.OK)
      then Done (Err (lit "ping mismatch at i=" ++ dec (Z.of_nat i) ++ lit ": got id=" ++ dec (rs_id resp) ++ lit " status=" ++ dec (rs_status resp)))
      else shm_pings (S i) n (us ++ [us_of_ns (took_ns PING_LABEL i)]) r)
  end.
(** The other stages assert a status, and [accept]. *)
Fixpoint shm_stage (label : str) (request : nat -> WireRequest) (accept : WireResponse -> bool) (i n : nat) (us : list f64) (r : R)
  : Ran (R * list f64) :=
  match n with
  | O => Done (r, us)
  | S n =>
      ran_bind (shm_exchange (request i) r) (fun '(r, resp) =>
      if bool_decide (rs_status resp = status.OK) && accept resp
      then shm_stage label request accept (S i) n (us ++ [us_of_ns (took_ns label i)]) r else Panicked)
  end.
Definition shm_put_request (kib : Z) (i : nat) : WireRequest := mkReq (Z.of_nat i) op.PUT SHM_NS (stage_key kib i) (stage_payload kib).
Definition shm_get_request (kib : Z) (i : nat) : WireRequest := mkReq (Z.of_nat i) op.GET SHM_NS (stage_key kib i) [].
Definition shm_exists_request (i : nat) : WireRequest := mkReq (Z.of_nat i) op.EXISTS SHM_NS (lit "k-4-0") [].
Definition inline_size (n : Z) (resp : WireResponse) : bool := bool_decide (len (rs_payload resp) = n).
Fixpoint shm_sizes (sizes : list Z) (out : list Emitted) (r : R) : Ran (R * list Emitted) :=
  match sizes with
  | [] => Done (r, out)
  | kib :: sizes =>
      let n := len (stage_payload kib) in
      let put_label := lit "put_" ++ dec kib ++ lit "KiB" in
      let get_label := lit "get_" ++ dec kib ++ lit "KiB" in
      ran_bind (shm_stage put_label (shm_put_request kib) (fun _ => true) 0 (shm_count kib) [] r) (fun '(r, puts) =>
      ran_bind (ran_option (emit_stage SHM_QUANTILES put_label puts n)) (fun put =>
      ran_bind (shm_stage get_label (shm_get_request kib) (inline_size n) 0 (shm_count kib) [] r) (fun '(r, gets) =>
      ran_bind (ran_option (emit_stage SHM_QUANTILES get_label gets n)) (fun get =>
      shm_sizes sizes (out ++ [put; get]) r))))
  end.
(** The three workloads: what is printed, or the message of a failure. *)
Definition shm_workloads (r : R) : Ran (result (list Emitted) str) :=
  ran_bind (shm_pings 0 1000 [] r) (fun pinged =>
  match pinged with
  | Err e => Done (Err e)
  | Ok (r, us) =>
      ran_bind (ran_option (emit_stage SHM_QUANTILES PING_LABEL us 0)) (fun pings =>
      ran_bind (shm_sizes SHM_SIZES_KIB [pings] r) (fun '(r, out) =>
      let label := lit "exists_rtt" in
      ran_bind (shm_stage label shm_exists_request (fun _ => true) 0 1000 [] r) (fun '(r, us) =>
      ran_bind (ran_option (emit_stage SHM_QUANTILES label us 0)) (fun ex => Done (Ok (out ++ [ex]))))))
  end).
(** [run_bench]: the daemon is spawned, its rings are opened within thirty seconds. *)
Definition shm_run_bench (is_file : bool) (spawned : result unit str) (now : Z) (attempts : list (result R str * Z)) (discovered : bool)
  : Ran (result (list Emitted) str) :=
  if negb is_file then Done (Err (lit "daemon binary not found")) else
  match spawned with
  | Err _ => Panicked
  | Ok _ =>
      match wait_open (now + 30 * 1000) attempts with
      | None => Hangs
      | Some (Err _) => Panicked
      | Some (Ok r) =>
          if negb discovered then Done (Err (lit "client could not discover daemon consumer")) else shm_workloads r
      end
  end.
(** [main]: the exit code of the thread; [None] is still running. *)
Definition shm_main (ran : Ran (result (list Emitted) str)) : option Z :=
  match ran with
  | Done (Ok _) => Some EXIT_SUCCESS
  | Done (Err _) | Panicked => Some EXIT_FAILURE
  | Hangs => None
  end.
End ShmBench.

(** ** [wombatkv-embedded-vs-daemon-bench] *)
Definition bench_foyer (env : str -> option str) (dir : str) : FoyerCacheConfig :=
  let foyer := default_foyer_config in
  mkFoyerCacheConfig (parsed_or env (lit "WMBT_KV_PUFFER_RAM_BYTES") (ram_bytes foyer))
    (default dir (env (lit "WMBT_KV_PUFFER_DIR")))
    (parsed_or env (lit "WMBT_KV_PUFFER_DISK_BYTES") (ssd_bytes foyer))
    (parsed_or env (lit "WMBT_KV_PUFFER_BLOCK_SIZE_BYTES") (block_size foyer)) (buffer_pool_size foyer) false.
Section EmbeddedVsDaemon.
Context {H : Type} {B : Type} `{!Bucket B} {D : Type} `{!SlateMeta.SlateDb D} `{!HybridCache H} `{!Zstd}
  {R : Type} {P : Type} {Q : Type} `{!Texts}.
Context (o : Outside B D R P Q).
Abbreviation KvStore := (WombatKVKvStore (S3ObjectStore B) H).
Definition build_embedded_store (cache : CapabilityCache) : CapabilityCache * result KvStore str :=
  open_kv_store o (bench_foyer (o_env o) (lit "/tmp/wombatkv-embedded-vs-m1-bench-foyer"))
    (default (lit "kv/embedded-vs-m1-bench") (o_env o (lit "WMBT_KV_S3_PREFIX"))) cache.
End EmbeddedVsDaemon.
Definition NS_EMBEDDED : str := lit "embedded-bench".
Definition NS_DAEMON : str := lit "daemon-bench".
Section EvdMain.
Context {K : Type} `{!KvClient K} {C : Type} `{!KvClient C} `{!Pings C}.
(** [run_bench]: the exit code and the printed summary; [None] is a panic. *)
Definition evd_bench (took_embedded took_daemon : str -> nat -> Z) (embedded : result K str)
    (bin : option str) (spawned : result unit str) (connected : result C str) : option (Z * option (list (str * option f64 * f64))) :=
  match embedded with
  | Err _ => Some (EXIT_FAILURE, None)
  | Ok k =>
      '(_, embedded_stages) ← run_workload_embedded NS_EMBEDDED took_embedded k;
      match bin, spawned, connected with
      | None, _, _ => Some (EXIT_SUCCESS, Some (summary_rows embedded_stages []))
      | Some _, Err _, _ | Some _, Ok _, Err _ => Some (EXIT_FAILURE, None)
      | Some _, Ok _, Ok c =>
          '(_, daemon_stages) ← run_workload_daemon NS_DAEMON took_daemon c;
          Some (EXIT_SUCCESS, Some (summary_rows embedded_stages daemon_stages))
      end
  end.
End EvdMain.

(** ** [wombatkv-multi-load-bench]: [run_bench] with its daemon

    The segments of the prefixes are removed before the daemon is spawned and when its
    guard is dropped; [joined] is what the client threads returned. *)
Section MultiLoad.
Context `{!Texts}.
Definition cleanup_prefixes (prefixes : list str) (m : Machine) : Machine := foldl (fun m p => cleanup_prefix_segments p m) m prefixes.
Definition multi_load_bench (base : str) (clients : nat) (ops warmup_ops : Z) (elapsed_s : f64) (mkdir spawned : result unit str)
    (joined : list (option (result ClientResults str))) (m : Machine) : Machine * result MultiReport str :=
  let prefixes := bench_prefixes base clients in
  match validate_prefixes prefixes with
  | Err e => (m, Err (wire_error_display e))
  | Ok _ =>
      let m := cleanup_prefixes prefixes m in
      match (let? _ := mkdir in spawned) with
      | Err e => (m, Err e)
      | Ok _ => (cleanup_prefixes prefixes m, shm_multi_load ops warmup_ops elapsed_s joined)
      end
  end.
Lemma cleanup_keeps_gone p q m : ring_gone p m -> ring_gone p (cleanup_prefix_segments q m).
Proof.
  unfold ring_gone, cleanup_prefix_segments, cleanup_ring_segments.
  destruct (segment_names p) as [req resp]. destruct (segment_names q) as [req' resp']. cbn [m_shm]. intros Hp name Hn Hin.
  apply elem_of_difference in Hin as [[Hin _]%elem_of_difference _]. by apply (Hp name).
Qed.
(** Whatever the clients did, no segment of the bench's prefixes is left. *)
Lemma multi_load_cleans base clients ops warmup_ops elapsed_s joined m p :
  p ∈ bench_prefixes base clients -> (forall q, q ∈ bench_prefixes base clients -> len q <= 14) ->
  ring_gone p (fst (multi_load_bench base clients ops warmup_ops elapsed_s (Ok tt) (Ok tt) joined m)).
Proof.
  intros Hp Hall. unfold multi_load_bench. assert (validate_prefixes (bench_prefixes base clients) = Ok tt) as ->.
  { clear Hp. induction (bench_prefixes base clients) as [|q qs IH]; [done|]. cbn [validate_prefixes].
    rewrite (proj2 (proj1 (segment_name_budget q)) (Hall q ltac:(left))). cbn [res_bind]. apply IH. intros x Hx. apply Hall. by right. }
  cbn [res_bind fst]. generalize (cleanup_prefixes (bench_prefixes base clients) m). clear m Hall. intros m.
  unfold cleanup_prefixes. revert m. induction (bench_prefixes base clients) as [|q qs IH]; intros m; [by apply not_elem_of_nil in Hp|].
  cbn [foldl]. apply elem_of_cons in Hp as [->|Hp]; [|by apply IH]. clear IH. pose proof (cleanup_gone (fun _ => None) [] q m) as Hg. revert Hg.
  generalize (cleanup_prefix_segments q m). clear m. induction qs as [|x qs IH]; intros m Hg; cbn [foldl]; [done|].
  apply IH. by apply cleanup_keeps_gone.
Qed.
End MultiLoad.

(** ** What holds of them *)
Lemma hex_fuel_length fuel z acc : (length (hex_fuel fuel z acc) <= fuel + length acc)%nat.
Proof.
  revert z acc. induction fuel as [|fuel IH]; intros z acc; cbn [hex_fuel]; [done|]. case_decide; cbn [length]; [lia|].
  pose proof (IH (z / 16) (hex_digit (z mod 16) :: acc)) as Hl. cbn [length] in Hl. lia.
Qed.
(** Every prefix that a run takes fits the daemon's budget. *)
Lemma bench_prefix_fits nanos : validate_segment_name_budget (bench_prefix nanos) = Ok tt.
Proof.
  apply segment_name_budget. unfold bench_prefix, run_tag, len. rewrite length_app, length_drop.
  change (length (lit "b")) with 1%nat. lia.
Qed.

Lemma drop_component_length p q : drop_component p = Some q -> (length q < length p)%nat.
Proof.
  induction p as [|c p IH]; cbn [drop_component]; [done|]. case_decide; [intros [= <-]; cbn [length]; lia|].
  intros Hq%IH. cbn [length]. lia.
Qed.
Lemma path_parent_shorter p q : path_parent p = Some q -> (length q < length p)%nat.
Proof.
  unfold path_parent. case_decide as Hp; [done|]. destruct p as [|a [|b p]]; [naive_solver| |].
  - unfold SLASH in *. cbn. case_decide as Ha; [subst; naive_solver|]. intros [= <-]. cbn. lia.
  - destruct (drop_component _) as [[|c rest]|] eqn:E; intros [= <-]; cbn [length]; [lia| |lia].
    apply drop_component_length in E. rewrite length_reverse in E |- *. cbn [length] in *. lia.
Qed.
(** The directories above a path. *)
Definition above : str -> str -> Prop := tc (fun p q => path_parent p = Some q).
Lemma above_inv p q d : path_parent p = Some q -> above p d -> d = q \/ above q d.
Proof. intros E Hd. inversion Hd as [? ? E'|? y ? E' Hr]; subst; rewrite E in E'; injection E' as <-; [by left|by right]. Qed.
Lemma walk_up_spec is_file fuel p :
  (length p < fuel)%nat ->
  match walk_up is_file fuel p with
  | Some cand => is_file cand = true /\ exists dir, above p dir /\ cand = path_join dir (lit "wombatkv-daemon")
  | None => forall dir, above p dir -> is_file (path_join dir (lit "wombatkv-daemon")) = false
  end.
Proof.
  revert p. induction fuel as [|fuel IH]; intros p Hf; [lia|]. cbn [walk_up].
  destruct (path_parent p) as [q|] eqn:E; cbn [mbind option_bind].
  - destruct (is_file (path_join q (lit "wombatkv-daemon"))) eqn:Ef; [split; [done|]; exists q; split; [by apply tc_once|done]|].
    pose proof (path_parent_shorter _ _ E). specialize (IH q ltac:(lia)). destruct (walk_up is_file fuel q) as [cand|].
    + destruct IH as (? & dir & Hd & ?). split; [done|]. exists dir. split; [by eapply tc_l|done].
    + intros dir [->|Hd]%(above_inv _ _ _ E); [done|by apply IH].
  - intros dir Hd. inversion Hd; congruence.
Qed.
(** Among the directories above the executable the binary is found when it is in one. *)
Lemma daemon_found is_file exe :
  (exists dir, above exe dir /\ is_file (path_join dir (lit "wombatkv-daemon")) = true) <-> is_Some (find_daemon is_file exe).
Proof.
  unfold find_daemon. pose proof (walk_up_spec is_file (S (length exe)) exe ltac:(lia)) as Hw.
  destruct (walk_up _ _ _) as [cand|]; split; [by intros _; exists cand| | |by intros [? ?]].
  - intros _. destruct Hw as (Hf & dir & Hd & ->). by exists dir.
  - intros (dir & Hd & Hf). rewrite (Hw dir Hd) in Hf. done.
Qed.

(** A daemon with an arena answers a get with the place in the arena; the ring bench
    takes the empty payload for a wrong one. *)
Lemma arena_answer_panics {R : Type} `{!Ring R} took kib i n us (r r' : R) slab :
  0 < kib -> shm_exchange (shm_get_request kib i) r = Done (r', arena_response (Z.of_nat i) op.GET slab) ->
  shm_stage took (lit "get") (shm_get_request kib) (inline_size (len (stage_payload kib))) i (S n) us r = Panicked.
Proof.
  intros Hk E. cbn [shm_stage]. rewrite E. cbn [ran_bind]. unfold inline_size. rewrite len_stage_payload by lia.
  rewrite (bool_decide_eq_false_2 (len _ = kib * 1024)); [by rewrite andb_false_r|]. change (len (rs_payload _)) with 0. lia.
Qed.
Import Sample.
Module SampleShm.
Definition arena : ArenaShared :=
  mkShared (match arena_create (Ok tt) (Ok tt) (Ok tt) 5000 with Some (Ok w) => w | _ => mkArenaWriter [] 0 end) ∅ 4 false.
Definition served (a : option ArenaShared) : Link InMemoryObjectStore MapCache InMemoryMetadataIndex :=
  mkLink (mkDaemon sample_store a None 0 []) None (fun _ => SampleClient.exchange) 0.
(** One ping, one put and one get of the bench. *)
Definition one_of_each (a : option ArenaShared) : Ran (Z * Z) :=
  let took := fun _ _ => 1500 in
  ran_bind (shm_pings took 0 1 [] (served a)) (fun pinged =>
  match pinged with
  | Err _ => Panicked
  | Ok (r, pings) =>
      ran_bind (shm_stage took [] (shm_put_request 4) (fun _ => true) 0 1 [] r) (fun '(r, puts) =>
      ran_bind (shm_stage took [] (shm_get_request 4) (inline_size 4096) 0 1 [] r) (fun '(_, gets) => Done (len pings, len puts + len gets)))
  end).
End SampleShm.
Example shm_bench_runs : SampleShm.one_of_each None = Done (1, 2).
Proof. vm_compute. reflexivity. Qed.
Example shm_bench_panics_with_arena : SampleShm.one_of_each (Some SampleShm.arena) = Panicked.
Proof. vm_compute. reflexivity. Qed.
