(* ===== verification/PufferTools.v ===== *)
(** * The cache's bench and its command-line tool ([wombatkv-bench])

    Models [wombatkv-puffer-kv], the tool that puts one value into the cache of [Foyer] and
    reads it back, and [wombatkv-puffer-bench], which takes the store of [Embed] through
    puts, warm gets, gets after the cache was cleared, and a restart with a restore from
    the object store.  Files, the standard streams and the clock are arguments.

    The theorems say what the tool's round trip can report, that a tool started anew finds
    nothing, that the bench passes on every store whose object store works, and that its
    stage of cold gets never gets to the object store. *)

From S2P Require Import Prelude Order Text Strings Radix Hex BlockMeta ObjectStore Compression BlobCache Foyer Embed Durable F64.
From S2P Require Import Envelope Wire Arena Rpc Daemon DaemonSpec Client ClientSpec Lifecycle S3 Cabi CabiInit Serve Startup Remote Bench BenchTools.
From S2P Require SlateMeta.

(** ** [wombatkv-puffer-kv] *)
Inductive ToolOutput :=
| RoundTripped (key : str) (n hits misses inserts : Z) | Stored | Fetched (payload : bytes) | CacheStats (hits misses inserts : Z) (dir : str) | Cleared.
(** The arguments after the key: one flag with a path, which may be repeated. *)
Fixpoint tool_flags (cmd flag : str) (args : list str) (path : option str) : result (option str) str :=
  match args with
  | [] => Ok path
  | arg :: rest =>
      if decide (arg = flag) then
        match rest with
        | [] => Err (flag ++ lit " requires a path")
        | p :: rest => tool_flags cmd flag rest (Some p)
        end
      else Err (lit "unexpected " ++ cmd ++ lit " arg: " ++ arg)
  end.
Definition tool_args (cmd flag : str) (args : list str) : result (str * option str) str :=
  match args with
  | [] => Err (cmd ++ lit " requires <key>")
  | key :: rest => let? path := tool_flags cmd flag rest None in Ok (key, path)
  end.
Definition WARM_MISS : str := lit "warm-hit miss; puffer cache returned None".
Section PufferKv.
Context {H : Type} `{!HybridCache H} (env : str -> option str) (parent dir runtime : result unit str).
Context (read_file : str -> result bytes str) (stdin : result bytes str) (write_file : str -> bytes -> result unit str) (stdout : bytes -> result unit str).
Definition open_cache : result (FoyerHybridCache H) str :=
  map_err (fun e => lit "puffer cache open failed: " ++ foyer_error_display e) (foyer_open (config_from_lookup env) parent dir runtime).
Definition tool_payload (path : option str) : result bytes str :=
  match path with
  | Some path => map_err (fun err => lit "read " ++ path ++ lit ": " ++ err) (read_file path)
  | None => map_err (fun err => lit "read stdin: " ++ err) stdin
  end.
Definition tool_write (path : option str) (payload : bytes) : result unit str :=
  match path with
  | Some path => map_err (fun err => lit "write " ++ path ++ lit ": " ++ err) (write_file path payload)
  | None => map_err (fun err => lit "write stdout: " ++ err) (stdout payload)
  end.
Definition run_roundtrip (args : list str) : result ToolOutput str :=
  let? parsed := tool_args (lit "roundtrip") (lit "--from") args in let (key, from) := parsed : str * option str in
  let? payload := tool_payload from in
  let? cache := open_cache in
  let (cache, fetched) := foyer_get key (foyer_put key payload cache) in
  match fetched with
  | None => Err WARM_MISS
  | Some fetched =>
      if decide (fetched <> payload)
      then Err (lit "byte mismatch: put " ++ dec (len payload) ++ lit " bytes, got " ++ dec (len fetched) ++ lit " bytes back")
      else Ok (RoundTripped key (len payload) (hits cache) (misses cache) (inserts cache))
  end.
Definition run_put (args : list str) : result ToolOutput str :=
  let? parsed := tool_args (lit "put") (lit "--from") args in let (key, from) := parsed : str * option str in
  let? payload := tool_payload from in
  let? cache := open_cache in
  let _ := foyer_put key payload cache in Ok Stored.
Definition run_get (args : list str) : result ToolOutput str :=
  let? parsed := tool_args (lit "get") (lit "--to") args in let (key, to) := parsed : str * option str in
  let? cache := open_cache in
  match snd (foyer_get key cache) with
  | None => Err (lit "no entry for key " ++ key)
  | Some payload => let? _ := tool_write to payload in Ok (Fetched payload)
  end.
Definition run_stats (args : list str) : result ToolOutput str :=
  if decide (args <> []) then Err (lit "stats takes no arguments") else
  let? cache := open_cache in Ok (CacheStats (hits cache) (misses cache) (inserts cache) (fh_ssd_dir cache)).
Definition run_clear (args : list str) : result ToolOutput str :=
  if decide (args <> []) then Err (lit "clear takes no arguments") else
  let? cache := open_cache in let _ := foyer_clear cache in Ok Cleared.
(** [main]: the exit code, with the output or the message; [None] is the usage. *)
Definition puffer_kv_main (args : list str) : Z * option (result ToolOutput str) :=
  let exit r := (match r with Ok _ => EXIT_SUCCESS | Err _ => EXIT_FAILURE end, Some r) in
  match args with
  | [] => (EXIT_FAILURE, None)
  | cmd :: rest =>
      if decide (cmd = lit "roundtrip") then exit (run_roundtrip rest) else
      if decide (cmd = lit "put") then exit (run_put rest) else
      if decide (cmd = lit "get") then exit (run_get rest) else
      if decide (cmd = lit "stats") then exit (run_stats rest) else
      if decide (cmd = lit "clear") then exit (run_clear rest) else
      if decide (cmd = lit "--help" \/ cmd = lit "-h") then (EXIT_FAILURE, None) else
      exit (Err (lit "unknown subcommand: " ++ cmd))
  end.

(** *** What it reports *)
Context `{!HybridCacheLaws H}.
Lemma open_cache_fresh cache :
  open_cache = Ok cache -> hc_build (config_from_lookup env) = Ok (hybrid cache) /\ hits cache = 0 /\ misses cache = 0 /\ inserts cache = 0 /\
    fh_ssd_dir cache = ssd_dir (config_from_lookup env).
Proof.
  unfold open_cache. destruct (foyer_open _ _ _ _) as [f|e] eqn:E; [|done]. intros <-%Ok_inj.
  pose proof (foyer_open_valid _ _ _ _ _ E) as (_ & _ & _ & _ & Hd & Hb). split; [done|].
  revert E. unfold foyer_open, foyer_open_with_runtime. repeat case_decide; try done.
  destruct parent, dir, runtime; run_res; try done. rewrite Hb. run_res. by intros <-%Ok_inj.
Qed.
(** Whatever was in the cache's directory, a round trip that gets as far as the cache
    reports either a miss or the bytes it put, with one hit, no miss and one insert:
    never other bytes. *)
Lemma roundtrip_reports args key from payload cache m :
  tool_args (lit "roundtrip") (lit "--from") args = Ok (key, from) -> tool_payload from = Ok payload -> open_cache = Ok cache ->
  hc_holds (hybrid cache) m ->
  run_roundtrip args = Err WARM_MISS \/ run_roundtrip args = Ok (RoundTripped key (len payload) 1 0 1).
Proof.
  intros Ea Ep Ec Hm. unfold run_roundtrip. rewrite Ea. cbn [res_bind]. rewrite Ep. cbn [res_bind]. rewrite Ec. cbn [res_bind].
  destruct (open_cache_fresh cache Ec) as (_ & Hh & Hmi & Hi & _).
  pose proof (foyer_put_holds key payload cache m Hm) as Hp. unfold foyer_get.
  destruct (foyer_get_with_tier key (foyer_put key payload cache)) as [f r] eqn:E.
  destruct (foyer_get_holds key _ f r _ Hp E) as [_ Hv]. destruct r as [[v t]|]; cbn [fmap option_fmap option_map fst]; [|by left].
  right. specialize (Hv v t eq_refl). rewrite lookup_insert_eq in Hv. injection Hv as <-. rewrite decide_False by (intros Hne; by apply Hne).
  revert E. unfold foyer_get_with_tier, foyer_put. cbn [hybrid fh_ssd_dir hits misses inserts]. rewrite Hh, Hmi, Hi.
  destruct (hc_memory_get _ _) as [h1 [v1|]]; [by intros [= <- _ _]|]. destruct (hc_get _ _) as [h2 [[v2|]|e]]; intros [= <- E]; done.
Qed.
(** In a directory from which nothing is recovered a get of the tool finds nothing: what
    an earlier process put is gone. *)
Lemma fresh_tool_finds_nothing args key to cache :
  tool_args (lit "get") (lit "--to") args = Ok (key, to) -> open_cache = Ok cache -> hc_holds (hybrid cache) ∅ ->
  run_get args = Err (lit "no entry for key " ++ key).
Proof.
  intros Ea Ec Hm. unfold run_get. rewrite Ea. cbn [res_bind]. rewrite Ec. cbn [res_bind]. unfold foyer_get.
  destruct (foyer_get_with_tier key cache) as [f r] eqn:E. destruct (foyer_get_holds key cache f r ∅ Hm E) as [_ Hv].
  destruct r as [[v t]|]; [|done]. specialize (Hv v t eq_refl). by rewrite lookup_empty in Hv.
Qed.
(** The counters are of the process: the statistics are always zeros. *)
Lemma stats_are_zero cache : open_cache = Ok cache -> run_stats [] = Ok (CacheStats 0 0 0 (ssd_dir (config_from_lookup env))).
Proof.
  intros Ec. unfold run_stats. rewrite decide_False by (intros Hn; by apply Hn). rewrite Ec. cbn [res_bind].
  destruct (open_cache_fresh cache Ec) as (_ & -> & -> & -> & ->). done.
Qed.
End PufferKv.
Example puffer_kv_runs :
  let main := puffer_kv_main (H := MapCache) (fun _ => None) (Ok tt) (Ok tt) (Ok tt) (fun _ => Ok (lit "xyz")) (Err (lit "closed")) (fun _ _ => Ok tt) (fun _ => Ok tt) in
  main [lit "roundtrip"; lit "k"; lit "--from"; lit "a"] = (EXIT_SUCCESS, Some (Ok (RoundTripped (lit "k") 3 1 0 1))) /\
  main [lit "put"; lit "k"] = (EXIT_FAILURE, Some (Err (lit "read stdin: closed"))) /\
  main [lit "get"; lit "k"] = (EXIT_FAILURE, Some (Err (lit "no entry for key k"))) /\ main [lit "-h"] = (EXIT_FAILURE, None).
Proof. vm_compute. done. Qed.

(** ** [wombatkv-puffer-bench] *)
Definition seq_key (idx : nat) : str := lit "seq-" ++ hex_pad 8 (Z.of_nat idx).
(** The settings of the environment. *)
Record PufferArgs := mkPufferArgs { pa_ops : Z; pa_payload_kib : Z; pa_namespace : str }.
Definition puffer_args (env : str -> option str) (nanos : Z) : PufferArgs :=
  mkPufferArgs (parsed_or env (lit "WMBT_KV_BENCH_OPS") 64) (parsed_or env (lit "WMBT_KV_BENCH_PAYLOAD_KIB") 4096)
    (default (lit "bench-" ++ run_id nanos) (env (lit "WMBT_KV_BENCH_NAMESPACE"))).
(** [vec![0xAB_u8; payload_kib * 1024]] *)
Definition puffer_payload (kib : Z) : bytes := bench_payload (kib * 1024).
(** [n as f64 / secs.max(1e-9)] *)
Definition stage_rate (n : Z) (secs : f64) : f64 := f64_div (f64_of_u64 n) (f64_max secs (ratio 1 1000000000)).
Section PufferStore.
Context {H : Type} {B : Type} `{!Bucket B} {D : Type} `{!SlateMeta.SlateDb D} `{!HybridCache H} `{!Zstd}
  {R : Type} {P : Type} {Q : Type} `{!Texts} (o : Outside B D R P Q).
Definition puffer_build_store (temp_dir : str) (nanos : Z) (cache : CapabilityCache)
  : CapabilityCache * result (WombatKVKvStore (S3ObjectStore B) H) str :=
  open_kv_store o (bench_foyer (o_env o) (path_join temp_dir (lit "wombatkv-bench-foyer-" ++ run_id nanos)))
    (default (lit "kv/bench") (o_env o (lit "WMBT_KV_BENCH_S3_PREFIX"))) cache.
End PufferStore.
(** What the bench counts, with the rates of its five stages. *)
Record PufferReport := mkPufferReport { warm_hits : Z; s3_hits : Z; restored : Z; post_restore_hits : Z; pr_rates : list f64 }.
Section PufferBench.
Context {S : Type} `{!ObjectStore S} {H : Type} `{!HybridCache H} `{!Zstd}.
Abbreviation KvStore := (WombatKVKvStore S H).
(** Stage 1: whether every put succeeded. *)
Fixpoint puffer_puts (ns : str) (payload : bytes) (idx n : nat) (k : KvStore) : KvStore * bool :=
  match n with
  | O => (k, true)
  | Datatypes.S n =>
      let (k, r) := put_kv ns (seq_key idx) payload k in
      match r with Ok _ => puffer_puts ns payload (Datatypes.S idx) n k | Err _ => (k, false) end
  end.
(** Stages 2 and 3: the hits; [None] when a get did not hit. *)
Fixpoint puffer_gets (ns : str) (idx n : nat) (count : Z) (k : KvStore) : KvStore * option Z :=
  match n with
  | O => (k, Some count)
  | Datatypes.S n =>
      let (k, r) := get_kv ns (seq_key idx) k in
      match r with Ok (Hit _ _) => puffer_gets ns (Datatypes.S idx) n (count + 1) k | _ => (k, None) end
  end.
(** The last stage counts and goes on. *)
Fixpoint puffer_counts (ns : str) (idx n : nat) (count : Z) (k : KvStore) : KvStore * Z :=
  match n with
  | O => (k, count)
  | Datatypes.S n =>
      let (k, r) := get_kv ns (seq_key idx) k in
      puffer_counts ns (Datatypes.S idx) n (match r with Ok (Hit _ _) => count + 1 | _ => count end) k
  end.
(** [main]; [rebuilt] opens the store again after the first was dropped, [wall] is what
    the clock says a stage took.  A restore of another number is only warned about. *)
Definition puffer_bench (args : PufferArgs) (wall : Z -> f64) (built : result KvStore str) (rebuilt : KvStore -> result KvStore str)
  : Z * option PufferReport :=
  let n := Z.to_nat (pa_ops args) in
  let ns := pa_namespace args in
  match built with
  | Err _ => (EXIT_FAILURE, None)
  | Ok k =>
      let (k, put) := puffer_puts ns (puffer_payload (pa_payload_kib args)) 0 n k in
      if negb put then (EXIT_FAILURE, None) else
      let (k, warm) := puffer_gets ns 0 n 0 k in
      match warm with
      | None => (EXIT_FAILURE, None)
      | Some warm =>
          let (k, cold) := puffer_gets ns 0 n 0 (clear_foyer k) in
          match cold with
          | None => (EXIT_FAILURE, None)
          | Some cold =>
              match rebuilt k with
              | Err _ => (EXIT_FAILURE, None)
              | Ok k2 =>
                  let (k2, r) := restore_from_s3 ns k2 in
                  match r with
                  | Err _ => (EXIT_FAILURE, None)
                  | Ok back =>
                      let (_, post) := puffer_counts ns 0 n 0 k2 in
                      (EXIT_SUCCESS, Some (mkPufferReport warm cold back post
                         [stage_rate (pa_ops args) (wall 1); stage_rate warm (wall 2); stage_rate cold (wall 3); stage_rate back (wall 4); stage_rate post (wall 5)]))
                  end
              end
          end
      end
  end.

(** *** The cold stage

    A put writes the flat file as well, which clearing foyer leaves: the get after it is
    answered from there, whatever the object store holds. *)
Lemma cold_stage_is_warm ns key v (k k1 : KvStore) r s :
  faults (kv_flat k) = [] -> root_present (kv_flat k) = true -> put_kv ns key v k = (k1, r) ->
  exists k2, get_kv ns key (set_store s (clear_foyer k1)) = (k2, Ok (Hit TierFoyer v)) /\ kv_object_store k2 = s.
Proof.
  intros Hf Hp Hput. pose proof (flat_put_no_fault (cache_key k ns key) v (kv_flat k) Hf Hp) as (Hf1 & _ & Hv1).
  assert (kv_flat k1 = flat_put (cache_key k ns key) v (kv_flat k) /\ cache_key k1 ns key = cache_key k ns key) as [Efl Eck].
  { revert Hput. unfold put_kv, on_store. destruct (encode_for_storage _ _ _) as [w|e]; [|by intros [= <- _]].
    cbn [kv_write_through_s3 set_foyer set_flat]. destruct (kv_write_through_s3 k); destruct (put_object _ _ _); by intros [= <- _]. }
  unfold get_kv. change (cache_key (set_store s (clear_foyer k1)) ns key) with (cache_key k1 ns key).
  cbn [kv_flat set_store clear_foyer set_foyer]. rewrite Efl, Eck.
  destruct (flat_get _ _) as [c rg] eqn:E. destruct (flat_get_visible _ _ _ _ E) as (_ & _ & Hr).
  destruct (Hr Hf1) as (_ & _ & ->). rewrite Hv1, decide_True by done. cbn [fmap option_fmap option_map]. by eexists.
Qed.
End PufferBench.

(** *** The bench passes

    On a store whose object store works, with names and payloads as in [DaemonSpec]. *)
Section PufferPasses.
Context {S : Type} `{!ObjectStore S} `{!ObjectStoreLaws S} `{!ReliableStore S} {H : Type} `{!HybridCache H} `{!HybridCacheLaws H}
  `{!Zstd} `{!ZstdLaws} `{!Texts}.
Abbreviation KvStore := (WombatKVKvStore S H).
Context (N : str -> str -> Prop) (content : str -> option bytes) (k0 : KvStore).
Context (K_files : forall x y, K N k0 x -> K N k0 y -> path_for_key x = path_for_key y -> x = y).
Abbreviation has D := (store_ok N content k0 (has_objects k0 D)).
Abbreviation holds := (embedded_holds N content k0).
Abbreviation writable := (embedded_writable N content k0).
Lemma holds_put ns key v k m :
  writable ns key v -> holds m k -> exists k', put_kv ns key v k = (k', Ok tt) /\ holds (<[(ns, key) := v]> m) k'.
Proof.
  intros Hw Hk. destruct (embedded_put N content k0 K_files m k ns key v Hk Hw) as (k' & E & Hk'). exists k'. split; [|done].
  revert E. cbn [kc_put embedded_kv_client]. destruct (put_kv ns key v k) as [k1 [[]|e]]; by intros [= <-].
Qed.
Lemma holds_get ns key v k m : m !! (ns, key) = Some v -> holds m k -> exists k' t, get_kv ns key k = (k', Ok (Hit t v)) /\ holds m k'.
Proof.
  intros Hv Hk. destruct (embedded_get N content k0 K_files m k ns key v Hk Hv) as (k' & E & Hk').
  revert E. cbn [kc_get embedded_kv_client]. destruct (get_kv ns key k) as [k1 [[t p|]|e]]; intros [= <- E]; [|done..]. subst. by exists k1, t.
Qed.
(** What of a map the bench's keys are. *)
Definition covers (ns : str) (payload : bytes) (a b : nat) (m : gmap (str * str) bytes) : Prop :=
  forall i, (a <= i < b)%nat -> m !! (ns, seq_key i) = Some payload.
Lemma puffer_puts_ok ns payload n idx k m :
  (forall i, (i < idx + n)%nat -> writable ns (seq_key i) payload) -> covers ns payload 0 idx m -> holds m k ->
  exists k' m', puffer_puts ns payload idx n k = (k', true) /\ covers ns payload 0 (idx + n) m' /\ holds m' k'.
Proof.
  revert idx k m. induction n as [|n IH]; intros idx k m Hw Hc Hk; cbn [puffer_puts].
  { exists k, m. by rewrite Nat.add_0_r. }
  destruct (holds_put ns (seq_key idx) payload k m (Hw idx ltac:(lia)) Hk) as (k1 & -> & Hk1).
  rewrite <- Nat.add_succ_comm. eapply IH; [intros i Hi; apply Hw; lia| |exact Hk1].
  intros i Hi. destruct (decide (seq_key idx = seq_key i)) as [->|Hne]; [by rewrite lookup_insert_eq|].
  rewrite lookup_insert_ne by congruence. apply Hc. split; [lia|]. destruct (decide (i = idx)); [by subst|lia].
Qed.
Lemma puffer_gets_ok ns payload n idx count k m :
  covers ns payload idx (idx + n) m -> holds m k ->
  exists k', puffer_gets ns idx n count k = (k', Some (count + Z.of_nat n)) /\ puffer_counts ns idx n count k = (k', count + Z.of_nat n) /\ holds m k'.
Proof.
  revert idx count k. induction n as [|n IH]; intros idx count k Hc Hk; cbn [puffer_gets puffer_counts].
  { exists k. by rewrite Z.add_0_r. }
  destruct (holds_get ns (seq_key idx) payload k m) as (k1 & t & -> & Hk1); [apply Hc; lia|done|].
  destruct (IH (Datatypes.S idx) (count + 1) k1) as (k2 & -> & -> & Hk2); [|done|].
  { intros i Hi. apply Hc. lia. }
  exists k2. replace (count + 1 + Z.of_nat n) with (count + Z.of_nat (Datatypes.S n)) by lia. done.
Qed.
Lemma holds_call k k' m : kv_call N content k0 k k' -> coherent (K N k0) content k' -> kv_meta k' = kv_meta k -> holds m k -> holds m k'.
Proof.
  intros Hcall Hcoh Hmeta (D & Hk & Hm). exists D. split; [|done]. apply (store_ok_step N content k0 (has_objects k0 D) k); [done..|].
  apply (has_objects_kept N content k0 D k); [done|]. apply Hk.
Qed.
Lemma restore_loop_reliable keys n (k : KvStore) :
  reliable (kv_object_store k) -> exists k' n', restore_loop keys n k = (k', Ok n').
Proof.
  revert n k. induction keys as [|key keys IH]; intros n k Hr; cbn [restore_loop]; [by eexists _, _|].
  destruct (reliable_get key _ Hr) as (s & -> & Hr'). destruct (contents (kv_object_store k) !! key); cbn [ok_or]; by apply IH.
Qed.
Lemma restore_reliable ns (k : KvStore) : reliable (kv_object_store k) -> exists k' n, restore_from_s3 ns k = (k', Ok n).
Proof.
  intros Hr. unfold restore_from_s3, st_bind, list_namespace, on_store.
  destruct (reliable_list (namespace_prefix k ns) _ Hr) as (s & keys & -> & Hr'). cbn [map_err]. by apply restore_loop_reliable.
Qed.
(** The bench succeeds and every get of its three stages hits, when the store opened
    again holds what the first one did. *)
Theorem puffer_bench_passes args wall k rebuilt m :
  0 <= pa_ops args -> holds m k -> (forall i, (i < Z.to_nat (pa_ops args))%nat -> writable (pa_namespace args) (seq_key i) (puffer_payload (pa_payload_kib args))) ->
  (forall k m, holds m k -> exists k2, rebuilt k = Ok k2 /\ holds m k2) ->
  exists back rates, puffer_bench args wall (Ok k) rebuilt =
    (EXIT_SUCCESS, Some (mkPufferReport (pa_ops args) (pa_ops args) back (pa_ops args) rates)).
Proof.
  intros Hn Hk Hw Hre. unfold puffer_bench. set (ns := pa_namespace args). set (payload := puffer_payload _).
  destruct (puffer_puts_ok ns payload (Z.to_nat (pa_ops args)) 0 k m Hw) as (k1 & m1 & -> & Hc & Hk1); [intros i; lia|done|].
  cbn [negb]. destruct (puffer_gets_ok ns payload (Z.to_nat (pa_ops args)) 0 0 k1 m1 Hc Hk1) as (k2 & -> & _ & Hk2).
  assert (holds m1 (clear_foyer k2)) as Hk2'.
  { apply (holds_call k2); [constructor| |done|done]. destruct Hk2 as (D & ((Hfl & Hfo & Hs) & _) & _).
    split; [done|]. split; [by apply foyer_clear_coherent|done]. }
  destruct (puffer_gets_ok ns payload (Z.to_nat (pa_ops args)) 0 0 _ m1 Hc Hk2') as (k3 & -> & _ & Hk3).
  destruct (Hre k3 m1 Hk3) as (k4 & -> & Hk4).
  assert (reliable (kv_object_store k4)) as Hr by (destruct Hk4 as (D & (_ & _ & _ & Hr & _) & _); exact Hr).
  destruct (restore_reliable ns k4 Hr) as (k5 & back & E). rewrite E.
  assert (holds m1 k5) as Hk5.
  { replace k5 with (fst (restore_from_s3 ns k4)) by (by rewrite E). apply (holds_call k4); [constructor| |apply restore_meta|done].
    apply restore_coherent. destruct Hk4 as (D & (Hcoh & _) & _). exact Hcoh. }
  destruct (puffer_gets_ok ns payload (Z.to_nat (pa_ops args)) 0 0 k5 m1 Hc Hk5) as (k6 & _ & -> & _).
  rewrite Z.add_0_l, Z2Nat.id by done. by eexists _, _.
Qed.
End PufferPasses.
(** Two operations of one KiB on an empty store, opened again with empty caches. *)
Example puffer_bench_runs :
  let args := mkPufferArgs 2 1 (lit "ns") in
  let again (k : WombatKVKvStore InMemoryObjectStore MapCache) : result _ str :=
    Ok (mkKvStore (mkFoyer ∅ [] 0 0 0) (mkFlat ∅ true []) (kv_object_store k) (kv_s3_prefix k) true (kv_compression k) InMem.new) in
  let r := puffer_bench (H0 := store_codec) args (fun _ => ratio 1 2) (Ok sample_store) again in
  (fst r, (fun rep => (warm_hits rep, s3_hits rep, restored rep, post_restore_hits rep)) <$> snd r) = (EXIT_SUCCESS, Some (2, 2, 2, 2)).
Proof. vm_compute. reflexivity. Qed.
