(* ===== verification/Simulate.v ===== *)
(** * The simulation's programs

    Models what surrounds the loops of [Runner]: [main] and [spawn_child_and_report] of
    [wombatkv_dst_runner.rs], [main] of [wombatkv_dst_runner_child.rs], the part of
    [wombatkv-daemon.rs] that loads a plan, and [main], [run], [spawn_daemon] and
    [connect_with_retry] of [wombatkv-dst-driver.rs].  Plans and reports travel in files.
    The text of JSON is serde_json's, a parameter with its round trips as laws; a parsed
    command line and the answers of the operating system are arguments.

    The theorems say that a run through the spawned child passes, for every seed and every
    class, with the report the child made; that the daemon the driver starts has the
    driver's plan; that the driver exits well on every daemon that keeps what it
    acknowledges and leaves no segment behind; and that a report of an earlier run passes
    for that of a child that died. *)

From S2P Require Import Prelude Order Text Strings Hex ObjectStore Compression BlobCache Foyer Embed Envelope Wire Rpc Dst Oracle Runner.
From S2P Require Import F64 Arena Daemon Client Lifecycle Serve Remote Bench BenchTools.

(** ** The texts [Debug] derives *)
Definition class_debug (c : FailureClass.t) : str :=
  match c with
  | FailureClass.TransientS3Failure => lit "TransientS3Failure" | FailureClass.CorruptBlockBytes => lit "CorruptBlockBytes"
  | FailureClass.PartialChainSave => lit "PartialChainSave" | FailureClass.ConcurrentSameKeySave => lit "ConcurrentSameKeySave"
  | FailureClass.DaemonRestartMidLookup => lit "DaemonRestartMidLookup" | FailureClass.SidecarDriftAfterChain => lit "SidecarDriftAfterChain"
  | FailureClass.FoyerEvictionMidGet => lit "FoyerEvictionMidGet" | FailureClass.TransportConnectionDropMidRPC => lit "TransportConnectionDropMidRPC"
  | FailureClass.TransportPartialReadOnHeader => lit "TransportPartialReadOnHeader" | FailureClass.TransportSlowWrite => lit "TransportSlowWrite"
  | FailureClass.WireEnvelopeCorruption => lit "WireEnvelopeCorruption" | FailureClass.OldSidecarV3InBucket => lit "OldSidecarV3InBucket"
  | FailureClass.OldBlockV1InBucket => lit "OldBlockV1InBucket" | FailureClass.SlateDbWriteFailure => lit "SlateDbWriteFailure"
  | FailureClass.SlateDbManifestCorruption => lit "SlateDbManifestCorruption" | FailureClass.MultiEnginePrefixConflict => lit "MultiEnginePrefixConflict"
  | FailureClass.DaemonTpcOnlyNoShmClient => lit "DaemonTpcOnlyNoShmClient" | FailureClass.ResourceFdExhaustion => lit "ResourceFdExhaustion"
  | FailureClass.ResourceMemoryPressure => lit "ResourceMemoryPressure" | FailureClass.ResourceDiskFull => lit "ResourceDiskFull"
  | FailureClass.PlatformShmHidden => lit "PlatformShmHidden" | FailureClass.PlatformIoUringJitter => lit "PlatformIoUringJitter"
  | FailureClass.PlatformKqueueOnly => lit "PlatformKqueueOnly"
  end.
Definition error_kind_debug (k : S3ErrorKind) : str :=
  match k with
  | NotFoundKind => lit "NotFound" | InternalError => lit "InternalError" | ServiceUnavail => lit "ServiceUnavail" | Throttling => lit "Throttling"
  | NetworkTimeout => lit "NetworkTimeout"
  end.
Definition envelope_kind_debug (k : WireEnvelopeBadKind) : str :=
  match k with
  | BadMagicKind => lit "BadMagic" | BadVersionKind => lit "BadVersion" | BadCRCKind => lit "BadCRC" | OversizedLen => lit "OversizedLen"
  | TruncatedBody => lit "TruncatedBody"
  end.
Definition slatedb_kind_debug (k : SlateDbFaultKind) : str :=
  match k with WriteFailure => lit "WriteFailure" | StaleSnapshot => lit "StaleSnapshot" | CorruptManifest => lit "CorruptManifest" end.
Definition variant_debug (name field value : str) : str := name ++ lit " { " ++ field ++ lit ": " ++ value ++ lit " }".
Definition event_debug `{!Texts} (e : WombatKvFaultEvent) : str :=
  match e with
  | S3GetLatency ms => variant_debug (lit "S3GetLatency") (lit "ms") (dec ms)
  | S3GetFailure k => variant_debug (lit "S3GetFailure") (lit "error_kind") (error_kind_debug k)
  | S3GetCorrupt => lit "S3GetCorrupt"
  | S3PutLatency ms => variant_debug (lit "S3PutLatency") (lit "ms") (dec ms)
  | S3PutFailure k => variant_debug (lit "S3PutFailure") (lit "error_kind") (error_kind_debug k)
  | KillBeforeChainHead => lit "KillBeforeChainHead"
  | KillBeforeSidecar => lit "KillBeforeSidecar"
  | EvictBlockMidLease p => variant_debug (lit "EvictBlockMidLease") (lit "block_hash_prefix") (str_debug p)
  | DaemonRestart n => variant_debug (lit "DaemonRestart") (lit "after_n_ops") (dec n)
  | TransportConnectionDrop => lit "TransportConnectionDrop"
  | TransportPartialRead n => variant_debug (lit "TransportPartialRead") (lit "return_n") (dec n)
  | TransportSlowWrite ms => variant_debug (lit "TransportSlowWrite") (lit "ms") (dec ms)
  | WireBadEnvelope k => variant_debug (lit "WireBadEnvelope") (lit "kind") (envelope_kind_debug k)
  | OldVersionInBucket k => variant_debug (lit "OldVersionInBucket") (lit "which") (match k with SidecarV3 => lit "SidecarV3" | BlockV1 => lit "BlockV1" end)
  | SlateDbFault k => variant_debug (lit "SlateDbFault") (lit "kind") (slatedb_kind_debug k)
  | MultiEnginePrefixConflict => lit "MultiEnginePrefixConflict"
  | DaemonTpcOnlyNoShmClient => lit "DaemonTpcOnlyNoShmClient"
  | ResourceFdLimitTighten n => variant_debug (lit "ResourceFdLimitTighten") (lit "soft_limit") (dec n)
  | ResourceMemoryPressure n => variant_debug (lit "ResourceMemoryPressure") (lit "fail_every_nth_alloc") (dec n)
  | ResourceDiskFull n => variant_debug (lit "ResourceDiskFull") (lit "fail_after_bytes") (dec n)
  | PlatformShmHidden => lit "PlatformShmHidden"
  | PlatformIoUringJitter n => variant_debug (lit "PlatformIoUringJitter") (lit "p99_us") (dec n)
  | PlatformKqueueOnly => lit "PlatformKqueueOnly"
  end.

(** ** JSON

    [serde_json::Value] and what is read of it, a number that is no integer by its text;
    indexing anything but an object that has the field gives null. *)
Inductive Json := JNull | JBool (b : bool) | JNumber (n : Z) | JFloat (text : str) | JString (s : str) | JArray (l : list Json) | JObject (fields : list (str * Json)).
Fixpoint json_assoc (key : str) (fields : list (str * Json)) : Json :=
  match fields with [] => JNull | (k, v) :: rest => if decide (k = key) then v else json_assoc key rest end.
Definition json_index (v : Json) (key : str) : Json := match v with JObject fields => json_assoc key fields | _ => JNull end.
Definition as_str (v : Json) : option str := match v with JString s => Some s | _ => None end.
Definition as_u64 (v : Json) : option Z := match v with JNumber n => if decide (0 <= n <= u64_max) then Some n else None | _ => None end.
Definition as_array (v : Json) : option (list Json) := match v with JArray l => Some l | _ => None end.
(** What the derived [Serialize] makes of a report. *)
Definition fired_json `{!Texts} (f : FiredEvent) : Json :=
  JObject [(lit "op_n", JNumber (fe_op_n f)); (lit "event_idx", JNumber (Z.of_nat (fe_event_idx f)));
           (lit "event_debug", JString (event_debug (fe_event f))); (lit "action", JString (fe_action f))].
Definition report_json `{!Texts} (r : ChildReport) : Json :=
  JObject [(lit "plan_seed", JNumber (cr_plan_seed r)); (lit "plan_class", JString (from_option class_debug [] (cr_plan_class r)));
           (lit "plan_event_count", JNumber (cr_plan_event_count r)); (lit "ops_total", JNumber (cr_ops_total r));
           (lit "suppressed_writes", JNumber (cr_suppressed_writes r)); (lit "fired_events", JArray (map fired_json (cr_fired_events r)));
           (lit "oracle_key_count", JNumber (cr_oracle_key_count r)); (lit "store_key_count", JNumber (cr_store_key_count r));
           (lit "divergent_keys", JArray (map JString (cr_divergent_keys r))); (lit "verdict", JString (cr_verdict r)); (lit "error", JNull)].
(** serde_json: the texts of plans and values. *)
Class SerdeJson := {
  plan_to_text : FaultPlan -> result str str; plan_from_text : str -> result FaultPlan str;
  value_to_text : Json -> result str str; value_from_text : str -> result Json str
}.
Class SerdeJsonLaws `{!SerdeJson} := {
  plan_written p : exists t, plan_to_text p = Ok t /\ plan_from_text t = Ok p;
  value_written v : exists t, value_to_text v = Ok t /\ value_from_text t = Ok v
}.

(** ** Files

    A machine's text files, and the paths that it refuses with an error. *)
Record Disk := mkDisk { dk_files : gmap str str; dk_refused : str -> option str }.
Definition NO_SUCH_FILE : str := lit "No such file or directory (os error 2)".
Definition read_to_string (path : str) (w : Disk) : result str str :=
  match dk_refused w path with
  | Some e => Err e
  | None => match dk_files w !! path with Some t => Ok t | None => Err NO_SUCH_FILE end
  end.
Definition write_text (path text : str) (w : Disk) : Disk * result unit str :=
  match dk_refused w path with
  | Some e => (w, Err e)
  | None => (mkDisk (<[path := text]> (dk_files w)) (dk_refused w), Ok tt)
  end.
(** [Path::with_extension] of a path that ends in a file name *)
Definition DOT : byte := x2e.
Fixpoint split_at_last (c : byte) (s : str) : option (str * str) :=
  match s with
  | [] => None
  | x :: s =>
      match split_at_last c s with
      | Some (a, b) => Some (x :: a, b)
      | None => if decide (x = c) then Some ([], s) else None
      end
  end.
Definition file_stem (name : str) : str := match split_at_last DOT name with Some ([], _) | None => name | Some (stem, _) => stem end.
Definition with_extension (path ext : str) : str :=
  match split_at_last SLASH path with
  | Some (dir, name) => dir ++ [SLASH] ++ file_stem name ++ [DOT] ++ ext
  | None => file_stem path ++ [DOT] ++ ext
  end.
(** [with_context]: as printed with [{:#}] *)
Definition with_context {A : Type} (context : str) (r : result A str) : result A str := map_err (fun e => context ++ lit ": " ++ e) r.

(** ** The child *)
Section Programs.
Context `{!Texts} `{!SerdeJson}.
Definition PLAN_FILE_ENV : str := lit "DST_FAULT_PLAN_FILE".
Definition REPORT_FILE_ENV : str := lit "DST_CHILD_REPORT_FILE".
Definition OP_COUNT_ENV : str := lit "DST_CHILD_OP_COUNT".
(** [main]: the files after it, what it prints, and its result. *)
Definition child_main (env : str -> option str) (w : Disk) : Disk * option str * result unit str :=
  match env PLAN_FILE_ENV with
  | None => (w, None, Err (lit "DST_FAULT_PLAN_FILE not set"))
  | Some plan_path =>
      let op_count := default 30 (s ← env OP_COUNT_ENV; parse_u32 s) in
      match with_context (lit "read " ++ plan_path) (read_to_string plan_path w) with
      | Err e => (w, None, Err e)
      | Ok text =>
          match with_context (lit "parse FaultPlan from " ++ plan_path) (plan_from_text text) with
          | Err e => (w, None, Err e)
          | Ok plan =>
              let report := fst (child_run plan op_count (mkPlanState None 0)) in
              let verdict := if decide (cr_verdict report = lit "pass") then Ok tt else Err (lit "dst-runner-child verdict: " ++ cr_verdict report) in
              match value_to_text (report_json report) with
              | Err e => (w, None, Err e)
              | Ok text =>
                  match env REPORT_FILE_ENV with
                  | None => (w, Some text, verdict)
                  | Some p =>
                      let (w, r) := write_text p text w in
                      match with_context (lit "write report to " ++ p) r with
                      | Err e => (w, None, Err e)
                      | Ok _ => (w, None, verdict)
                      end
                  end
              end
          end
      end
  end.
(** The exit code of a [main] that returns a result. *)
Definition exit_of {A : Type} (r : result A str) : Z := match r with Ok _ => EXIT_SUCCESS | Err _ => EXIT_FAILURE end.

(** ** The runner *)
Record RunnerArgs := mkRunnerArgs {
  ra_seed : Z; ra_class : FailureClass.t; ra_plan_file : str; ra_print_plan : bool; ra_execute : bool; ra_spawn_child : bool;
  ra_child_bin : str; ra_child_report_file : option str; ra_child_op_count : Z
}.
(** The summary of a child's report that is printed. *)
Record ChildSummary := mkSummary {
  su_verdict : str; su_suppressed : Z; su_oracle_n : Z; su_store_n : Z; su_divergent : Z; su_exit_status : Z; su_report : str
}.
(** A started program: what it makes of the files, and its exit code, [-1] when a signal
    ended it. *)
Definition Process : Type := (str -> option str) -> Disk -> Disk * Z.
Definition child_process : Process := fun env w => let '(w, _, r) := child_main env w in (w, exit_of r).
Definition child_env (args : RunnerArgs) (report_path : str) (env : str -> option str) (name : str) : option str :=
  if decide (name = PLAN_FILE_ENV) then Some (ra_plan_file args) else
  if decide (name = REPORT_FILE_ENV) then Some report_path else
  if decide (name = OP_COUNT_ENV) then Some (dec (ra_child_op_count args)) else env name.
Definition report_path (args : RunnerArgs) : str := default (with_extension (ra_plan_file args) (lit "report.json")) (ra_child_report_file args).
(** What is read of the report, the first failure first. *)
Definition summarize (path : str) (status : Z) (v : Json) : ChildSummary :=
  mkSummary (default (lit "<missing>") (as_str (json_index v (lit "verdict")))) (default 0 (as_u64 (json_index v (lit "suppressed_writes"))))
    (default 0 (as_u64 (json_index v (lit "oracle_key_count")))) (default 0 (as_u64 (json_index v (lit "store_key_count"))))
    (from_option len 0 (as_array (json_index v (lit "divergent_keys")))) status path.
(** [bin] is the program at the child's path, if there is one; [started] how starting it
    went. *)
Definition spawn_child_and_report (args : RunnerArgs) (env : str -> option str) (bin : option Process) (started : result unit str) (w : Disk)
  : Disk * option ChildSummary * result unit str :=
  let path := report_path args in
  match bin with
  | None => (w, None, Err (lit "child binary not found at " ++ ra_child_bin args ++ lit "; build with `cargo build --release -p wombatkv-dst`"))
  | Some run =>
      match with_context (lit "spawn child binary at " ++ ra_child_bin args) started with
      | Err e => (w, None, Err e)
      | Ok _ =>
          let (w, status) := run (child_env args path env) w in
          match (let? text := with_context (lit "read child report from " ++ path) (read_to_string path w) in
                 with_context (lit "parse child report from " ++ path) (value_from_text text)) with
          | Err e => (w, None, Err e)
          | Ok v =>
              let su := summarize path status v in
              (w, Some su, if decide (su_verdict su <> lit "pass")
                           then Err (lit "child verdict " ++ str_debug (su_verdict su) ++ lit "; divergent_keys=" ++ dec (su_divergent su)) else Ok tt)
          end
      end
  end.
(** What the runner prints. *)
Record RunnerOutput := mkRunnerOutput {
  ro_plan : option str; ro_events : Z; ro_synthetic : option Synthetic; ro_child : option ChildSummary
}.
(** The directory of the plan. *)
Definition make_plan_dir (plan_file : str) (dir_exists : bool) (mkdir : result unit str) : result unit str :=
  match path_parent plan_file with
  | None => Ok tt
  | Some parent => if decide (parent = []) then Ok tt else if dir_exists then Ok tt else with_context (lit "create dir " ++ parent) mkdir
  end.
(** [main]; [dir_exists] and [mkdir] answer for the directory of the plan. *)
Definition runner_main (args : RunnerArgs) (env : str -> option str) (dir_exists : bool) (mkdir : result unit str)
    (bin : option Process) (started : result unit str) (w : Disk) : Disk * result RunnerOutput str :=
  let plan := schedule_for_class (ra_seed args) (ra_class args) in
  match (let? _ := make_plan_dir (ra_plan_file args) dir_exists mkdir in map_err (fun e => lit "serialize plan: " ++ e) (plan_to_text plan)) with
  | Err e => (w, Err e)
  | Ok text =>
      let (w, wrote) := write_text (ra_plan_file args) text w in
      match (let? _ := with_context (lit "write " ++ ra_plan_file args) wrote in
             if ra_execute args then let? s := execute_synthetic_run plan in Ok (Some s) else Ok None) with
      | Err e => (w, Err e)
      | Ok synthetic =>
          let printed := mkRunnerOutput (if ra_print_plan args then Some text else None) (len (plan_events plan)) synthetic in
          if ra_spawn_child args then
            let '(w, su, r) := spawn_child_and_report args env bin started w in (w, let? _ := r in Ok (printed su))
          else (w, Ok (printed None))
      end
  end.

(** ** The daemon's plan

    [main] of the daemon built with the feature [dst]: a plan that cannot be read leaves
    the state as it is. *)
Definition load_plan (env : str -> option str) (w : Disk) (s : PlanState) : PlanState :=
  match env PLAN_FILE_ENV with
  | None => s
  | Some path =>
      match read_to_string path w with
      | Err _ => s
      | Ok text => match plan_from_text text with Ok plan => set_plan plan s | Err _ => s end
      end
  end.
End Programs.

(** ** The classes on the command lines

    [ClassArg] of the runner and of the driver, as the command line's kebab-case names. *)
Module RunnerClass.
Inductive t :=
| TransientS3 | CorruptBlock | PartialChain | ConcurrentSave | DaemonRestart | SidecarDrift | FoyerEviction | TransportDrop
| TransportPartialRead | TransportSlowWrite | WireEnvelopeCorruption | OldSidecarV3 | OldBlockV1 | SlateDbWriteFailure
| SlateDbManifestCorruption | MultiEnginePrefixConflict | DaemonTpcOnlyNoShmClient | ResourceFdExhaustion | ResourceMemoryPressure
| ResourceDiskFull | PlatformShmHidden | PlatformIoUringJitter | PlatformKqueueOnly.
Definition value_variants : list t :=
  [TransientS3; CorruptBlock; PartialChain; ConcurrentSave; DaemonRestart; SidecarDrift; FoyerEviction; TransportDrop; TransportPartialRead;
   TransportSlowWrite; WireEnvelopeCorruption; OldSidecarV3; OldBlockV1; SlateDbWriteFailure; SlateDbManifestCorruption;
   MultiEnginePrefixConflict; DaemonTpcOnlyNoShmClient; ResourceFdExhaustion; ResourceMemoryPressure; ResourceDiskFull; PlatformShmHidden;
   PlatformIoUringJitter; PlatformKqueueOnly].
Definition into (c : t) : FailureClass.t :=
  match c with
  | TransientS3 => FailureClass.TransientS3Failure | CorruptBlock => FailureClass.CorruptBlockBytes
  | PartialChain => FailureClass.PartialChainSave | ConcurrentSave => FailureClass.ConcurrentSameKeySave
  | DaemonRestart => FailureClass.DaemonRestartMidLookup | SidecarDrift => FailureClass.SidecarDriftAfterChain
  | FoyerEviction => FailureClass.FoyerEvictionMidGet | TransportDrop => FailureClass.TransportConnectionDropMidRPC
  | TransportPartialRead => FailureClass.TransportPartialReadOnHeader | TransportSlowWrite => FailureClass.TransportSlowWrite
  | WireEnvelopeCorruption => FailureClass.WireEnvelopeCorruption | OldSidecarV3 => FailureClass.OldSidecarV3InBucket
  | OldBlockV1 => FailureClass.OldBlockV1InBucket | SlateDbWriteFailure => FailureClass.SlateDbWriteFailure
  | SlateDbManifestCorruption => FailureClass.SlateDbManifestCorruption | MultiEnginePrefixConflict => FailureClass.MultiEnginePrefixConflict
  | DaemonTpcOnlyNoShmClient => FailureClass.DaemonTpcOnlyNoShmClient | ResourceFdExhaustion => FailureClass.ResourceFdExhaustion
  | ResourceMemoryPressure => FailureClass.ResourceMemoryPressure | ResourceDiskFull => FailureClass.ResourceDiskFull
  | PlatformShmHidden => FailureClass.PlatformShmHidden | PlatformIoUringJitter => FailureClass.PlatformIoUringJitter
  | PlatformKqueueOnly => FailureClass.PlatformKqueueOnly
  end.
End RunnerClass.
Module DriverClass.
Inductive t :=
| TransientS3 | CorruptBlock | PartialChain | ConcurrentSave | DaemonRestart | SidecarDrift | FoyerEviction | TransportDrop
| TransportPartialRead | TransportSlowWrite | WireEnvelopeCorruption | OldSidecarV3 | OldBlockV1 | SlateDbWriteFailure
| SlateDbManifestCorruption | MultiEnginePrefixConflict.
Definition value_variants : list t :=
  [TransientS3; CorruptBlock; PartialChain; ConcurrentSave; DaemonRestart; SidecarDrift; FoyerEviction; TransportDrop; TransportPartialRead;
   TransportSlowWrite; WireEnvelopeCorruption; OldSidecarV3; OldBlockV1; SlateDbWriteFailure; SlateDbManifestCorruption;
   MultiEnginePrefixConflict].
Definition into (c : t) : FailureClass.t :=
  match c with
  | TransientS3 => FailureClass.TransientS3Failure | CorruptBlock => FailureClass.CorruptBlockBytes
  | PartialChain => FailureClass.PartialChainSave | ConcurrentSave => FailureClass.ConcurrentSameKeySave
  | DaemonRestart => FailureClass.DaemonRestartMidLookup | SidecarDrift => FailureClass.SidecarDriftAfterChain
  | FoyerEviction => FailureClass.FoyerEvictionMidGet | TransportDrop => FailureClass.TransportConnectionDropMidRPC
  | TransportPartialRead => FailureClass.TransportPartialReadOnHeader | TransportSlowWrite => FailureClass.TransportSlowWrite
  | WireEnvelopeCorruption => FailureClass.WireEnvelopeCorruption | OldSidecarV3 => FailureClass.OldSidecarV3InBucket
  | OldBlockV1 => FailureClass.OldBlockV1InBucket | SlateDbWriteFailure => FailureClass.SlateDbWriteFailure
  | SlateDbManifestCorruption => FailureClass.SlateDbManifestCorruption | MultiEnginePrefixConflict => FailureClass.MultiEnginePrefixConflict
  end.
End DriverClass.
(** Every class can be asked of the runner; the driver lacks the last seven. *)
Lemma runner_offers_every_class : map RunnerClass.into RunnerClass.value_variants = FailureClass.all.
Proof. reflexivity. Qed.
Lemma driver_offers_sixteen_classes : map DriverClass.into DriverClass.value_variants = take 16 FailureClass.all.
Proof. reflexivity. Qed.
Lemma value_variants_complete : (forall c, c ∈ RunnerClass.value_variants) /\ (forall c, c ∈ DriverClass.value_variants).
Proof. split; intros []; cbn; set_solver. Qed.

(** ** The driver *)
Record DriverArgs := mkDriverArgs {
  da_seed : Z; da_class : FailureClass.t; da_ops : Z; da_plan_file : str; da_daemon_bin : str; da_daemon_prefix : str;
  da_daemon_start_timeout_s : Z; da_s3_endpoint : str; da_s3_bucket : str; da_puffer_dir : str
}.
Definition spawn_args (args : DriverArgs) : list str := [lit "--prefix"; da_daemon_prefix args].
Definition spawn_env (args : DriverArgs) (env : str -> option str) (name : str) : option str :=
  if decide (name = lit "WMBT_KV_S3_ENDPOINT") then Some (da_s3_endpoint args) else
  if decide (name = lit "WMBT_KV_BUCKET") then Some (da_s3_bucket args) else
  if decide (name = lit "WMBT_KV_PUFFER_DIR") then Some (da_puffer_dir args) else
  if decide (name = lit "WMBT_KV_DST_BUGGIFY") then Some (lit "1") else
  if decide (name = lit "WMBT_KV_DST_BUGGIFY_SEED") then Some (dec (da_seed args)) else
  if decide (name = PLAN_FILE_ENV) then Some (da_plan_file args) else env name.
Section DriverMain.
Context {D : Type} `{!UnderTest D} `{!Texts} `{!SerdeJson} (duration_debug : Z -> str).
(** [connect_with_retry]: the clock before each attempt, and its outcome; [None] is
    still trying. *)
Fixpoint connect_with_retry (timeout deadline : Z) (attempts : list (Z * result D str)) (last_err : option str) : option (result D str) :=
  match attempts with
  | [] => None
  | (now, r) :: rest =>
      if decide (now < deadline) then
        match r with Ok c => Some (Ok c) | Err e => connect_with_retry timeout deadline rest (Some e) end
      else Some (Err (lit "daemon connect timed out after " ++ duration_debug timeout ++ lit "; last error: " ++ default (lit "(none captured)") last_err))
  end.
(** [run], with the segments of the machine: those of the prefix are removed before the
    daemon is started and when its guard is dropped. *)
Definition driver_main_run (args : DriverArgs) (mkdir spawned : result unit str) (now : Z) (attempts : list (Z * result D str)) (w : Disk * Machine)
  : (Disk * Machine) * option (result (Driver D) str) :=
  let (files, m) := w in
  let prefix := da_daemon_prefix args in
  match validate_segment_name_budget prefix with
  | Err e => (w, Some (Err (lit "dst-driver: prefix rejected: " ++ wire_error_display e)))
  | Ok _ =>
      match plan_to_text (schedule_for_class (da_seed args) (da_class args)) with
      | Err e => (w, Some (Err e))
      | Ok text =>
          let (files, wrote) := write_text (da_plan_file args) text files in
          match wrote with
          | Err e => ((files, m), Some (Err e))
          | Ok _ =>
              let m := cleanup_prefix_segments prefix m in
              match (let? _ := mkdir in with_context (lit "failed to spawn " ++ da_daemon_bin args) spawned) with
              | Err e => ((files, m), Some (Err e))
              | Ok _ =>
                  let timeout := da_daemon_start_timeout_s args * 1000 in
                  let connected := connect_with_retry timeout (now + timeout) attempts None in
                  match connected with
                  | None => ((files, m), None)
                  | Some (Err e) => ((files, cleanup_prefix_segments prefix m), Some (Err e))
                  | Some (Ok d) => ((files, cleanup_prefix_segments prefix m), Some (Ok (driver_run (da_seed args) (da_ops args) d)))
                  end
              end
          end
      end
  end.
(** [main]: the exit code. *)
Definition driver_exit (r : result (Driver D) str) : Z :=
  match r with Ok s => match dv_divergences s with [] => EXIT_SUCCESS | _ => EXIT_FAILURE end | Err _ => EXIT_FAILURE end.
End DriverMain.

(** ** What they achieve *)
Section Achieve.
Context `{!Texts} `{!SerdeJson} `{!SerdeJsonLaws}.
(** No path is refused. *)
Definition writable_disk (w : Disk) : Prop := forall path, dk_refused w path = None.
Lemma write_then_read path text w : writable_disk w ->
  exists w', write_text path text w = (w', Ok tt) /\ read_to_string path w' = Ok text /\ writable_disk w'.
Proof.
  intros Hw. unfold write_text. rewrite Hw. eexists. split; [reflexivity|]. unfold read_to_string. cbn [dk_refused dk_files].
  rewrite Hw, lookup_insert_eq. done.
Qed.
(** A report read back has the numbers that were written, as far as they are numbers of
    sixty-four bits. *)
Lemma summarize_report path status r :
  in_u64 (cr_suppressed_writes r) -> in_u64 (cr_oracle_key_count r) -> in_u64 (cr_store_key_count r) ->
  summarize path status (report_json r) =
    mkSummary (cr_verdict r) (cr_suppressed_writes r) (cr_oracle_key_count r) (cr_store_key_count r) (len (cr_divergent_keys r)) status path.
Proof.
  intros Hs Ho Ht. unfold summarize.
  change (json_index (report_json r) (lit "verdict")) with (JString (cr_verdict r)).
  change (json_index (report_json r) (lit "suppressed_writes")) with (JNumber (cr_suppressed_writes r)).
  change (json_index (report_json r) (lit "oracle_key_count")) with (JNumber (cr_oracle_key_count r)).
  change (json_index (report_json r) (lit "store_key_count")) with (JNumber (cr_store_key_count r)).
  change (json_index (report_json r) (lit "divergent_keys")) with (JArray (map JString (cr_divergent_keys r))).
  unfold as_u64, in_u64 in *. rewrite !decide_True by done. cbn [as_str as_array from_option default]. unfold len. by rewrite length_map.
Qed.
(** The child on a plan in a file. *)
Lemma child_main_reports env w plan_path report_path text plan n :
  writable_disk w -> env PLAN_FILE_ENV = Some plan_path -> env REPORT_FILE_ENV = Some report_path -> env OP_COUNT_ENV = Some (dec n) ->
  0 <= n <= u32_max -> read_to_string plan_path w = Ok text -> plan_from_text text = Ok plan ->
  let report := fst (child_run plan n (mkPlanState None 0)) in
  exists w' rtext, child_main env w = (w', None, Ok tt) /\ writable_disk w' /\ read_to_string report_path w' = Ok rtext /\
    value_from_text rtext = Ok (report_json report).
Proof.
  intros Hw E1 E2 E3 Hn Er Ep report. destruct (value_written (report_json report)) as (rtext & Et & Ev).
  destruct (write_then_read report_path rtext w Hw) as (w' & Ew & Hr & Hw').
  exists w', rtext. split; [|done]. unfold child_main. rewrite E1, E2, E3. cbn [mbind option_bind default].
  unfold parse_u32. rewrite parse_bounded_dec by (done || lia). cbn [default]. rewrite Er. cbn [with_context map_err]. rewrite Ep. cbn [with_context map_err].
  change (id n) with n. fold report. rewrite Et, Ew. cbn [with_context map_err].
  unfold report. rewrite (proj1 (child_reports plan n (mkPlanState None 0) Hn)). by rewrite decide_True.
Qed.
(** What the runner tells of the child's run. *)
Definition expected_summary (args : RunnerArgs) : ChildSummary :=
  let n := ra_child_op_count args in
  let k := count_ops (suppress_this_write (schedule_for_class (ra_seed args) (ra_class args))) 0 (Z.to_nat n) in
  mkSummary (lit "pass") k (n - k) (n - k) 0 EXIT_SUCCESS (report_path args).
Lemma child_env_vars args path env :
  child_env args path env PLAN_FILE_ENV = Some (ra_plan_file args) /\ child_env args path env REPORT_FILE_ENV = Some path /\
  child_env args path env OP_COUNT_ENV = Some (dec (ra_child_op_count args)).
Proof. done. Qed.
Lemma spawned_child_reports args env w text :
  writable_disk w -> 0 <= ra_child_op_count args <= u32_max -> read_to_string (ra_plan_file args) w = Ok text ->
  plan_from_text text = Ok (schedule_for_class (ra_seed args) (ra_class args)) ->
  exists w', spawn_child_and_report args env (Some child_process) (Ok tt) w = (w', Some (expected_summary args), Ok tt).
Proof.
  intros Hw Hn Er Ep. destruct (child_env_vars args (report_path args) env) as (E1 & E2 & E3).
  destruct (child_main_reports (child_env args (report_path args) env) w _ _ text _ _ Hw E1 E2 E3 Hn Er Ep) as (w' & rtext & Em & _ & Hr & Hv).
  exists w'. unfold spawn_child_and_report. cbn [with_context map_err]. unfold child_process. rewrite Em. cbn [exit_of]. rewrite Hr.
  cbn [with_context map_err res_bind]. rewrite Hv. cbn [with_context map_err].
  destruct (child_reports (schedule_for_class (ra_seed args) (ra_class args)) (ra_child_op_count args) (mkPlanState None 0) Hn) as (Hpass & Hdiv & Hsup & Ho & Hs).
  pose proof (child_suppresses (ra_seed args) (ra_class args) (ra_child_op_count args) (mkPlanState None 0) Hn) as Hk.
  set (r := fst (child_run _ _ _)) in *.
  rewrite (summarize_report (report_path args) EXIT_SUCCESS r); [|unfold in_u64; lia..].
  rewrite Hpass, Hdiv, Ho, Hs, Hk. cbn [su_verdict]. by rewrite decide_False by (intros Hne; by apply Hne).
Qed.
(** The report of an earlier run passes for that of a child that died before it wrote
    its own. *)
Lemma stale_report_passes args env w v text :
  read_to_string (report_path args) w = Ok text -> value_from_text text = Ok v -> json_index v (lit "verdict") = JString (lit "pass") ->
  exists su, spawn_child_and_report args env (Some (fun _ w => (w, -1))) (Ok tt) w = (w, Some su, Ok tt) /\ su_exit_status su = -1.
Proof.
  intros Hr Hv Hp. unfold spawn_child_and_report. cbn [with_context map_err]. rewrite Hr. cbn [with_context map_err res_bind].
  rewrite Hv. cbn [with_context map_err]. exists (summarize (report_path args) (-1) v). split; [|done].
  assert (su_verdict (summarize (report_path args) (-1) v) = lit "pass") as -> by (unfold summarize; cbn [su_verdict]; by rewrite Hp).
  by rewrite decide_False by (intros Hne; by apply Hne).
Qed.
(** C35: for every seed, every class and every number of operations the runner, asked for the
    synthetic run and for the child, ends well; the child's report says pass and counts
    the writes that the plan suppresses, and the synthetic run's report does too. *)
Theorem runner_passes args env dir_exists bin_started w :
  writable_disk w -> 0 <= ra_child_op_count args <= u32_max -> bin_started = Ok tt -> ra_execute args = true -> ra_spawn_child args = true ->
  exists w' out s, runner_main args env dir_exists (Ok tt) (Some child_process) bin_started w = (w', Ok out) /\
    ro_child out = Some (expected_summary args) /\ ro_synthetic out = Some s /\
    sy_suppressed s = count_ops (suppress_this_write (schedule_for_class (ra_seed args) (ra_class args))) 0 20.
Proof.
  intros Hw Hn -> Hex Hsp. unfold runner_main. set (plan := schedule_for_class _ _). destruct (plan_written plan) as (text & Et & Ep).
  assert (make_plan_dir (ra_plan_file args) dir_exists (Ok tt) = Ok tt) as ->.
  { unfold make_plan_dir. destruct (path_parent _); [|done]. case_decide; [done|]. by destruct dir_exists. }
  cbn [res_bind]. rewrite Et. cbn [map_err]. destruct (write_then_read (ra_plan_file args) text w Hw) as (w1 & -> & Hr1 & Hw1).
  cbn [with_context map_err res_bind]. rewrite Hex, Hsp. destruct (synthetic_run_passes plan) as (s & -> & Hs & _). cbn [res_bind].
  destruct (spawned_child_reports args env w1 text Hw1 Hn Hr1 Ep) as (w2 & ->). cbn [res_bind].
  eexists w2, _, s. split; [reflexivity|]. by split.
Qed.

(** ** The driver and its daemon *)
Lemma spawn_env_plan args env : spawn_env args env PLAN_FILE_ENV = Some (da_plan_file args).
Proof. done. Qed.
Context {D : Type} `{!UnderTest D} (duration_debug : Z -> str).
(** Connecting ends: with the first attempt that succeeds in time, or when time is up. *)
Lemma connect_with_retry_ends timeout deadline (attempts : list (Z * result D str)) last_err :
  Exists (fun '(now, r) => deadline <= now \/ exists c, r = Ok c) attempts ->
  exists r, connect_with_retry duration_debug timeout deadline attempts last_err = Some r /\
    forall c, r = Ok c -> Exists (fun a => exists now, a = (now, Ok c) /\ now < deadline) attempts.
Proof.
  revert last_err. induction attempts as [|[now r] rest IH]; intros last_err Hx; [by apply Exists_nil in Hx|]. cbn [connect_with_retry].
  case_decide as Hd; [|eexists; split; [reflexivity|done]]. destruct r as [c|e].
  - eexists. split; [reflexivity|]. intros c' [= <-]. apply Exists_cons_hd. by exists now.
  - apply Exists_cons in Hx as [[?|[c ?]]|Hx]; [lia|done|]. destruct (IH (Some e) Hx) as (r & E & Hr). exists r. split; [done|].
    intros c Hc. apply Exists_cons_tl. by apply Hr.
Qed.
(** The daemon that the driver has started loads the driver's plan, and the driver leaves
    no segment of the prefix behind. *)
Theorem driver_sets_the_stage args mkdir spawned now (attempts : list (Z * result D str)) files m files' m' s env ps :
  writable_disk files ->
  driver_main_run duration_debug args mkdir spawned now attempts (files, m) = ((files', m'), Some (Ok s)) ->
  load_plan (spawn_env args env) files' ps = set_plan (schedule_for_class (da_seed args) (da_class args)) ps /\
  ring_gone (da_daemon_prefix args) m' /\ len (da_daemon_prefix args) <= 14.
Proof.
  intros Hw. unfold driver_main_run. destruct (validate_segment_name_budget _) as [[]|e] eqn:Ev; [|done].
  destruct (plan_written (schedule_for_class (da_seed args) (da_class args))) as (text & -> & Ep).
  destruct (write_then_read (da_plan_file args) text files Hw) as (files1 & -> & Hr & _).
  destruct mkdir as [[]|]; [|done]. destruct spawned as [[]|]; [|done]. cbn [res_bind with_context map_err].
  destruct (connect_with_retry _ _ _ _ _) as [[d|e]|]; [|done|done]. intros [= <- <- _].
  split; [|split; [exact (cleanup_gone env [] _ _)|by apply segment_name_budget]]. unfold load_plan. rewrite spawn_env_plan, Hr, Ep. done.
Qed.
(** Whatever daemon answers the driver's first attempt in time, the driver exits well when
    that daemon keeps what it acknowledges. *)
Context `{!UnderTestLaws D}.
Lemma driver_exits_well args now rest (d : D) m files w :
  writable_disk files -> len (da_daemon_prefix args) <= 14 -> 0 < da_daemon_start_timeout_s args -> 0 <= da_ops args <= u32_max ->
  ut_repr d m -> NoDup (dv_keys (driver_run (da_seed args) (da_ops args) d)) ->
  exists w' s, driver_main_run duration_debug args (Ok tt) (Ok tt) now ((now, Ok d) :: rest) (files, w) = (w', Some (Ok s)) /\
    driver_exit (Ok s) = EXIT_SUCCESS.
Proof.
  intros Hw Hp Ht Ho Hd Hk. unfold driver_main_run. apply segment_name_budget in Hp as ->.
  destruct (plan_written (schedule_for_class (da_seed args) (da_class args))) as (text & -> & _).
  destruct (write_then_read (da_plan_file args) text files Hw) as (files1 & -> & _ & _). cbn [res_bind with_context map_err connect_with_retry].
  rewrite decide_True by lia. eexists _, _. split; [reflexivity|]. unfold driver_exit.
  destruct (driver_accepts_faithful_daemon (da_seed args) (da_ops args) d m Hd Ho Hk) as (-> & _). done.
Qed.
End Achieve.

(** ** Concrete runs

    A serializer whose texts are numbers. *)
Module SampleSimulate.
Definition error_kinds : list S3ErrorKind := [NotFoundKind; InternalError; ServiceUnavail; Throttling; NetworkTimeout].
Definition error_code (k : S3ErrorKind) : Z := match k with NotFoundKind => 0 | InternalError => 1 | ServiceUnavail => 2 | Throttling => 3 | NetworkTimeout => 4 end.
Definition envelope_code (k : WireEnvelopeBadKind) : Z :=
  match k with BadMagicKind => 0 | BadVersionKind => 1 | BadCRCKind => 2 | OversizedLen => 3 | TruncatedBody => 4 end.
Definition slatedb_code (k : SlateDbFaultKind) : Z := match k with WriteFailure => 0 | StaleSnapshot => 1 | CorruptManifest => 2 end.
Definition event_code (e : WombatKvFaultEvent) : Z * Z * str :=
  match e with
  | S3GetLatency ms => (0, ms, []) | S3GetFailure k => (1, error_code k, []) | S3GetCorrupt => (2, 0, []) | S3PutLatency ms => (3, ms, [])
  | S3PutFailure k => (4, error_code k, []) | KillBeforeChainHead => (5, 0, []) | KillBeforeSidecar => (6, 0, []) | EvictBlockMidLease p => (7, 0, p)
  | DaemonRestart n => (8, n, []) | TransportConnectionDrop => (9, 0, []) | TransportPartialRead n => (10, n, []) | TransportSlowWrite ms => (11, ms, [])
  | WireBadEnvelope k => (12, envelope_code k, []) | OldVersionInBucket k => (13, match k with SidecarV3 => 0 | BlockV1 => 1 end, [])
  | SlateDbFault k => (14, slatedb_code k, []) | MultiEnginePrefixConflict => (15, 0, []) | DaemonTpcOnlyNoShmClient => (16, 0, [])
  | ResourceFdLimitTighten n => (17, n, []) | ResourceMemoryPressure n => (18, n, []) | ResourceDiskFull n => (19, n, []) | PlatformShmHidden => (20, 0, [])
  | PlatformIoUringJitter n => (21, n, []) | PlatformKqueueOnly => (22, 0, [])
  end.
Definition event_of (code : Z * Z * str) : WombatKvFaultEvent :=
  let '(c, n, p) := code in
  let error := nth (Z.to_nat n) error_kinds NotFoundKind in
  nth (Z.to_nat c)
    [S3GetLatency n; S3GetFailure error; S3GetCorrupt; S3PutLatency n; S3PutFailure error; KillBeforeChainHead; KillBeforeSidecar; EvictBlockMidLease p;
     DaemonRestart n; TransportConnectionDrop; TransportPartialRead n; TransportSlowWrite n;
     WireBadEnvelope (nth (Z.to_nat n) envelope_kinds BadMagicKind); OldVersionInBucket (nth (Z.to_nat n) [SidecarV3; BlockV1] SidecarV3);
     SlateDbFault (nth (Z.to_nat n) [WriteFailure; StaleSnapshot; CorruptManifest] WriteFailure); MultiEnginePrefixConflict; DaemonTpcOnlyNoShmClient;
     ResourceFdLimitTighten n; ResourceMemoryPressure n; ResourceDiskFull n; PlatformShmHidden; PlatformIoUringJitter n; PlatformKqueueOnly]
    PlatformKqueueOnly.
Definition trigger_code (t : FaultTrigger) : Z * Z :=
  match t with AfterKvOp n => (0, n) | AfterS3Get n => (1, n) | AfterS3Put n => (2, n) | AfterBootstrapMs ms => (3, ms) end.
Definition trigger_of (code : Z * Z) : FaultTrigger :=
  let (c, n) := code in if decide (c = 0) then AfterKvOp n else if decide (c = 1) then AfterS3Get n else if decide (c = 2) then AfterS3Put n else AfterBootstrapMs n.
Definition class_code (c : FailureClass.t) : nat :=
  match c with
  | FailureClass.TransientS3Failure => 0 | FailureClass.CorruptBlockBytes => 1 | FailureClass.PartialChainSave => 2 | FailureClass.ConcurrentSameKeySave => 3
  | FailureClass.DaemonRestartMidLookup => 4 | FailureClass.SidecarDriftAfterChain => 5 | FailureClass.FoyerEvictionMidGet => 6
  | FailureClass.TransportConnectionDropMidRPC => 7 | FailureClass.TransportPartialReadOnHeader => 8 | FailureClass.TransportSlowWrite => 9
  | FailureClass.WireEnvelopeCorruption => 10 | FailureClass.OldSidecarV3InBucket => 11 | FailureClass.OldBlockV1InBucket => 12
  | FailureClass.SlateDbWriteFailure => 13 | FailureClass.SlateDbManifestCorruption => 14 | FailureClass.MultiEnginePrefixConflict => 15
  | FailureClass.DaemonTpcOnlyNoShmClient => 16 | FailureClass.ResourceFdExhaustion => 17 | FailureClass.ResourceMemoryPressure => 18
  | FailureClass.ResourceDiskFull => 19 | FailureClass.PlatformShmHidden => 20 | FailureClass.PlatformIoUringJitter => 21 | FailureClass.PlatformKqueueOnly => 22
  end%nat.
Definition class_of (n : nat) : FailureClass.t := nth n FailureClass.all FailureClass.PlatformKqueueOnly.
Definition plan_code (p : FaultPlan) : Z * option nat * list (Z * Z * (Z * Z * str)) :=
  (plan_seed p, class_code <$> plan_class p, map (fun f => (trigger_code (trigger f), event_code (event f))) (plan_events p)).
Definition plan_of (code : Z * option nat * list (Z * Z * (Z * Z * str))) : FaultPlan :=
  let '(seed, class, events) := code in mkPlan seed (class_of <$> class) (map (fun '(t, e) => mkFault (trigger_of t) (event_of e)) events).
Lemma plan_of_code p : plan_of (plan_code p) = p.
Proof.
  assert (forall e, event_of (event_code e) = e) as He by (intros []; try done; by destruct error_kind || destruct kind || destruct which).
  assert (forall t, trigger_of (trigger_code t) = t) as Ht by (by intros []).
  assert (forall c, class_of (class_code c) = c) as Hc by (by intros []).
  destruct p as [seed class events]. unfold plan_of, plan_code. cbn [plan_seed plan_class plan_events]. f_equal.
  - destruct class as [c|]; [|done]. exact (f_equal Some (Hc c)).
  - induction events as [|[t e] events IH]; [done|]. cbn [map trigger event]. by rewrite Ht, He, IH.
Qed.
Abbreviation Leaf := (bool + (Z + (str + str)))%type.
Fixpoint json_tree (v : Json) : gen_tree Leaf :=
  match v with
  | JNull => GenNode 0 []
  | JBool b => GenLeaf (inl b)
  | JNumber n => GenLeaf (inr (inl n))
  | JFloat t => GenLeaf (inr (inr (inl t)))
  | JString s => GenLeaf (inr (inr (inr s)))
  | JArray l => GenNode 1 (map json_tree l)
  | JObject fields => GenNode 2 (map (fun '(k, v) => GenNode 3 [GenLeaf (inr (inr (inr k))); json_tree v]) fields)
  end.
Fixpoint tree_json (t : gen_tree Leaf) : Json :=
  match t with
  | GenLeaf (inl b) => JBool b
  | GenLeaf (inr (inl n)) => JNumber n
  | GenLeaf (inr (inr (inl t))) => JFloat t
  | GenLeaf (inr (inr (inr s))) => JString s
  | GenNode 1 ts => JArray (map tree_json ts)
  | GenNode 2 ts =>
      JObject (map (fun t => match t with GenNode 3 [GenLeaf (inr (inr (inr k))); t] => (k, tree_json t) | _ => ([], JNull) end) ts)
  | GenNode _ _ => JNull
  end.
Fixpoint tree_json_tree (v : Json) : tree_json (json_tree v) = v :=
  match v with
  | JNull => eq_refl | JBool _ => eq_refl | JNumber _ => eq_refl | JFloat _ => eq_refl | JString _ => eq_refl
  | JArray l =>
      f_equal JArray ((fix go (l : list Json) : map tree_json (map json_tree l) = l :=
        match l with [] => eq_refl | v :: l => f_equal2 cons (tree_json_tree v) (go l) end) l)
  | JObject fields =>
      f_equal JObject ((fix go (l : list (str * Json)) :
          map (fun t => match t with GenNode 3 [GenLeaf (inr (inr (inr k))); t] => (k, tree_json t) | _ => ([], JNull) end)
            (map (fun '(k, v) => GenNode 3 [GenLeaf (inr (inr (inr k))); json_tree v]) l) = l :=
        match l with [] => eq_refl | (k, v) :: l => f_equal2 cons (f_equal (pair k) (tree_json_tree v)) (go l) end) fields)
  end.
#[export] Instance numbered_json : SerdeJson := {|
  plan_to_text p := Ok (pos_digits (countable.encode (plan_code p)));
  plan_from_text t := match digits_pos t ≫= countable.decode with Some c => Ok (plan_of c) | None => Err (lit "expected value") end;
  value_to_text v := Ok (pos_digits (countable.encode (json_tree v)));
  value_from_text t := match digits_pos t ≫= countable.decode with Some c => Ok (tree_json c) | None => Err (lit "expected value") end
|}.
#[export] Instance numbered_json_laws : SerdeJsonLaws.
Proof.
  split.
  - intros p. eexists. split; [reflexivity|]. cbn [plan_from_text numbered_json]. rewrite digits_pos_digits. cbn [mbind option_bind].
    by rewrite countable.decode_encode, plan_of_code.
  - intros v. eexists. split; [reflexivity|]. cbn [value_from_text numbered_json]. rewrite digits_pos_digits. cbn [mbind option_bind].
    by rewrite countable.decode_encode, tree_json_tree.
Qed.
#[export] Existing Instance plain_texts.
Definition args : RunnerArgs :=
  mkRunnerArgs 42 FailureClass.ConcurrentSameKeySave (lit "/tmp/plans/a.json") false true true (lit "child") None 7.
Definition disk : Disk := mkDisk ∅ (fun _ => None).
End SampleSimulate.
Import SampleSimulate.
(** Seven operations under the plan of seed 42: two of the writes are suppressed. *)
Lemma runner_passes_witness :
  exists w' out s, runner_main args (fun _ => None) false (Ok tt) (Some child_process) (Ok tt) disk = (w', Ok out) /\
    ro_child out = Some (expected_summary args) /\ ro_synthetic out = Some s /\
    sy_suppressed s = count_ops (suppress_this_write (schedule_for_class 42 FailureClass.ConcurrentSameKeySave)) 0 20.
Proof. apply (runner_passes args (fun _ => None) false (Ok tt) disk); [done|by_eval|done..]. Defined.
Example summary_of_seven : expected_summary args = mkSummary (lit "pass") 2 5 5 0 EXIT_SUCCESS (lit "/tmp/plans/a.report.json").
Proof. vm_compute. reflexivity. Qed.
(** The report is beside the plan, its extension in place of the plan's. *)
Example report_beside_plan :
  with_extension (lit "plan") (lit "report.json") = lit "plan.report.json" /\ with_extension (lit "d.x/.plan") (lit "y") = lit "d.x/.plan.y" /\
  with_extension (lit "/tmp/a.b.json") (lit "report.json") = lit "/tmp/a.b.report.json".
Proof. by_eval. Qed.
