(* ===== verification/LayoutAudit.v ===== *)
(** * The layout audit tool ([wombatkv-wal-layout-audit.rs])

    Models the tool that lists the keys of a namespace, from the bucket or from a fixture,
    has them counted by layout ([WalKeys]) and exits with the verdict; the two reports it
    writes are the outcomes of the calls that write them. *)

From S2P Require Import Prelude Order Text Strings ObjectStore WalKeys Rpc S3.

Definition BACKEND_FIXTURE : str := lit "inmemory-fixture".
Definition BACKEND_S3 : str := lit "s3".
Definition fixture_keys (namespace_prefix : str) : list str :=
  [namespace_prefix ++ lit "/00000000000170000000/chunk-node-a-00000000000000000009.bin";
   namespace_prefix ++ lit "/00000000000170000001/chunk-node-a-00000000000000000010.bin";
   namespace_prefix ++ lit "/chunk-node-a-00000000000000000007.bin";
   namespace_prefix ++ lit "/chunk-00000000000000000003.bin";
   lit "wal/other-tenant/fp/chunk-node-a-00000000000000000001.bin"].
Definition strict_pass (backend : str) (counts : WalLayoutAuditCounts) : bool :=
  if decide (total_keys counts = 0 \/ canonical_keys counts = 0 \/ unknown_keys counts <> 0) then false
  else if decide (backend = BACKEND_FIXTURE /\ legacy_keys counts = 0) then false else true.

Section Audit.
Context {B : Type} `{!Bucket B} `{!Texts}.
Definition format_wal_store_error (error : WalStoreError) : str := lit "s3 namespace listing failed: " ++ wal_error_debug error.
(** The store as [from_env] makes it; the clock gives the probe its name. *)
Definition load_s3_keys (store : result (S3ObjectStore B) WalStoreError) (probe_ns : Z) (cache : CapabilityCache) (namespace_prefix : str)
  : CapabilityCache * result (list str) str :=
  match store with
  | Err error => (cache, Err (lit "failed to build S3ObjectStore from env: " ++ wal_error_debug error))
  | Ok store =>
      let '((cache, store), r) := ensure_bucket probe_ns (cache, store) in
      match r with
      | Err error => (cache, Err (format_wal_store_error error))
      | Ok _ => let (_, r) := s3_list_prefix namespace_prefix store in (cache, map_err format_wal_store_error r)
      end
  end.
Definition load_keys (store : result (S3ObjectStore B) WalStoreError) (probe_ns : Z) (cache : CapabilityCache) (backend namespace_prefix : str)
  : result (list str) str :=
  if decide (backend = BACKEND_FIXTURE) then Ok (fixture_keys namespace_prefix)
  else if decide (backend = BACKEND_S3) then snd (load_s3_keys store probe_ns cache namespace_prefix)
  else Err (lit "unsupported WAL_LAYOUT_AUDIT_BACKEND `" ++ backend ++ lit "`; expected `inmemory-fixture` or `s3`").
(** [main]: the exit code; the arguments include the program's name, and [reports] are
    the outcomes of making the directory and of encoding and writing the reports. *)
Definition audit_main (args : list str) (env : str -> option str) (store : result (S3ObjectStore B) WalStoreError) (probe_ns : Z)
    (cache : CapabilityCache) (reports : list (result unit str)) : Z :=
  if decide (3 < len args) then 2 else
  let namespace_prefix := match args !! 1%nat with Some a => a | None => default (lit "wal/tenant-a/fp") (env (lit "WMBT_KV_WAL_NAMESPACE_PREFIX")) end in
  let backend := default BACKEND_FIXTURE (env (lit "WMBT_KV_WAL_LAYOUT_AUDIT_BACKEND")) in
  match load_keys store probe_ns cache backend namespace_prefix with
  | Err _ => 2
  | Ok keys =>
      if existsb (fun r => match r with Ok _ => false | Err _ => true end) reports then 2
      else if strict_pass backend (audit_wal_layout_counts namespace_prefix keys) then 0 else 1
  end.
End Audit.

(** A count is zero when no key is of that layout. *)
Lemma layout_count_zero ns P keys :
  layout_count ns P keys = 0 <-> forall k, k ∈ keys -> is_under_namespace ns k = true -> P (parse_wal_object_key ns k) = false.
Proof.
  unfold layout_count. split.
  - intros E k Hk Hu. destruct (P _) eqn:Ep; [|done]. exfalso.
    assert (k ∈ filter (fun k => is_under_namespace ns k = true /\ P (parse_wal_object_key ns k) = true) keys) as Hin by (by apply list_elem_of_filter).
    destruct (filter _ _) as [|x l]; [by apply not_elem_of_nil in Hin|]. rewrite len_cons in E. pose proof (len_nonneg l). lia.
  - intros Hall. destruct (filter _ _) as [|x l] eqn:Ef; [done|]. exfalso.
    assert (x ∈ filter (fun k => is_under_namespace ns k = true /\ P (parse_wal_object_key ns k) = true) keys) as Hin by (rewrite Ef; left).
    apply list_elem_of_filter in Hin as [[Hu Hp] Hk]. by rewrite (Hall x Hk Hu) in Hp.
Qed.
(** For a bucket the audit passes exactly when the namespace has a key in the layout of
    the store and none it does not know. *)
Lemma audit_verdict ns keys :
  len keys <= u64_max ->
  strict_pass BACKEND_S3 (audit_wal_layout_counts ns keys) = true <->
  (exists k, k ∈ keys /\ is_under_namespace ns k = true /\ is_canonical (parse_wal_object_key ns k) = true) /\
  forall k, k ∈ keys -> is_under_namespace ns k = true -> is_Some (parse_wal_object_key ns k).
Proof.
  intros Hl. destruct (audit_partitions_namespace ns keys Hl) as (Et & _ & Ec & El & Eu). unfold strict_pass.
  assert (0 <= layout_count ns is_canonical keys /\ 0 <= layout_count ns is_legacy keys /\ 0 <= layout_count ns is_unknown keys) as (? & ? & ?)
    by (unfold layout_count; split; [|split]; apply len_nonneg).
  assert (layout_count ns is_unknown keys = 0 <-> forall k, k ∈ keys -> is_under_namespace ns k = true -> is_Some (parse_wal_object_key ns k)) as Hu.
  { rewrite layout_count_zero. split; intros Hk k Hin Hn; specialize (Hk k Hin Hn); destruct (parse_wal_object_key ns k); try done. }
  assert (layout_count ns is_canonical keys <> 0 <->
    exists k, k ∈ keys /\ is_under_namespace ns k = true /\ is_canonical (parse_wal_object_key ns k) = true) as Hc.
  { split.
    - intros Hne. unfold layout_count in Hne. destruct (filter _ keys) as [|x l] eqn:Ef; [done|]. exists x.
      assert (x ∈ filter (fun k => is_under_namespace ns k = true /\ is_canonical (parse_wal_object_key ns k) = true) keys) as Hin by (rewrite Ef; left).
      by apply list_elem_of_filter in Hin as [[? ?] ?].
    - intros (k & Hk & Hn & Hcan) E. rewrite layout_count_zero in E. by rewrite (E k Hk Hn) in Hcan. }
  rewrite <- Hu, <- Hc. case_decide as Hd.
  - split; [done|]. intros [? ?]. destruct Hd as [?|[?|?]]; lia.
  - rewrite decide_False by (intros [E _]; vm_compute in E; discriminate). split; [|done]. intros _. lia.
Qed.
Example fixture_passes : strict_pass BACKEND_FIXTURE (audit_wal_layout_counts (lit "wal/tenant-a/fp") (fixture_keys (lit "wal/tenant-a/fp"))) = true.
Proof. vm_compute. reflexivity. Qed.
