(* ===== verification/Drill.v ===== *)
(** * The group-commit drill ([wombatkv-wal-group-commit-drill.rs])

    Models the tool that publishes the same records once one object per record and once
    through group commit, replays both and compares the number of objects; and proves
    what the drill looks for, for any records, clock, node and batching policy: on a
    store that does not fail, group commit and a final flush succeed, a store opened
    afterwards replays the records, and objects hold as many records as the policy
    allows. *)

From S2P Require Import Prelude Order Text Strings Format ObjectStore WalKeys WalStore GroupCommit.

Section Grouped.
Context {S : Type} `{!ObjectStore S}.

(** Publish one record after the other through group commit, the [i]-th at time
    [now i] of the caller. *)
Fixpoint group_publish_all (clock : nat -> nat -> Z) (now : nat -> Z) (records : list WalRecord) (gc : WalGroupCommitStore S)
  : option (WalGroupCommitStore S * result (list str) WalStoreError) :=
  match records with
  | [] => Some (gc, Ok [])
  | r :: rest =>
      match group_publish_record 1 (clock 0%nat) r (now 0%nat) gc with
      | None => None
      | Some (gc, Err e) => Some (gc, Err e)
      | Some (gc, Ok res) =>
          match group_publish_all (fun i => clock (Datatypes.S i)) (fun i => now (Datatypes.S i)) rest gc with
          | Some (gc, Ok ks) => Some (gc, Ok (flushed_object_keys res ++ ks))
          | other => other
          end
      end
  end.

Context `{!ObjectStoreLaws S} `{!ReliableStore S}.

(** ** Flushing on a store that does not fail *)
Lemma put_and_verify_reliable k payload (gc : WalGroupCommitStore S) :
  reliable (object_store (wal_store gc)) -> contents (object_store (wal_store gc)) !! k = None ->
  exists s, put_and_verify k payload gc = (set_wal (set_store s (wal_store gc)) gc, Ok k) /\ reliable s.
Proof.
  intros Hr Hn. unfold put_and_verify. destruct (reliable_put k payload _ Hr) as (s1 & Ep & R1). rewrite Ep.
  apply put_object_law in Ep as [_ Hok]. specialize (Hok eq_refl Hn).
  destruct (reliable_get k s1 R1) as (s2 & Eg & R2). rewrite Eg, Hok, lookup_insert_eq. cbn [ok_or].
  rewrite decide_False by (intros []; done). by exists s2.
Qed.

(** The encoded records of a buffer are small enough for a batch object. *)
Definition batchable (gc : WalGroupCommitStore S) : Prop :=
  len (buffer gc) <= u32_max /\ Forall (fun b => len (encoded_record b) <= u32_max) (buffer gc).

(** What a flush leaves alone. *)
Definition same_place (gc gc' : WalGroupCommitStore S) : Prop :=
  reliable (object_store (wal_store gc')) /\ namespace_prefix (wal_store gc') = namespace_prefix (wal_store gc).

Lemma write_reliable gc L B k p payload (gc1 : WalGroupCommitStore S) :
  gc_ok gc L B -> reliable (object_store (wal_store gc)) -> wal_store gc1 = wal_store gc ->
  starts_with (namespace_prefix (wal_store gc)) k = true -> parse_wal_object_key (namespace_prefix (wal_store gc)) k = Some p ->
  start_seq p = next_seq (wal_store gc) - len (buffer gc) -> decode_wal_object_records payload = Ok B ->
  exists gc2, put_and_verify k payload gc1 = (gc2, Ok k) /\ same_place gc (cleared gc2).
Proof.
  intros Hok Hr Hw Hpre Hp Hst Hd.
  destruct (append_object _ _ L k p payload B (gc_log _ _ _ Hok) Hpre Hp) as [Hn _]; [rewrite Hst; apply Hok|done|].
  destruct (put_and_verify_reliable k payload gc1) as (s & E & Rs); [by rewrite Hw..|].
  eexists. split; [exact E|]. split; [done|]. cbn. by rewrite Hw.
Qed.

Lemma flush_reliable clock_ms now_ms gc L B :
  gc_ok gc L B -> gc_fits gc -> batchable gc -> in_u64 (Z.max now_ms clock_ms) -> reliable (object_store (wal_store gc)) ->
  exists gc' res, flush_buffer_as_object clock_ms now_ms gc = (gc', Ok res) /\ same_place gc gc' /\ (res = None <-> buffer gc = []).
Proof.
  intros Hok Hfit [Hn Hsm] He Hr. pose proof (gc_buffers _ _ _ Hok) as [HF Hseq]. pose proof (gc_seq _ _ _ Hok) as Hq.
  unfold flush_buffer_as_object. cbv zeta. destruct (buffer gc) as [|r1 [|r2 rest]] eqn:Ebuf.
  { exists gc, None. by repeat split. }
  - rewrite <- Ebuf in Hseq. pose proof (Hseq 0%nat r1 ltac:(by rewrite Ebuf)) as Hs1. rewrite Ebuf in Hs1.
    change (len [r1]) with 1 in *.
    apply Forall2_cons_inv_l in HF as (rec & B' & Henc & HF & ->). apply Forall2_nil_inv_l in HF as ->.
    unfold write_single_object_with_seq.
    edestruct (write_reliable gc L [rec]) as (gc2 & E & Hsame); [done|done| | | | | |rewrite E].
    6:{ eexists _, _. split; [done|]. by split; [exact Hsame|]. }
    + done.
    + apply build_key_starts_with.
    + apply parse_chunk_key; [apply Hok|done|]. rewrite Hs1. unfold in_u64. lia.
    + cbn [start_seq]. rewrite Hs1, Ebuf. change (len [r1]) with 1. lia.
    + by apply decode_single_object.
  - rewrite <- Ebuf in *. set (stop := match last (buffer gc) with Some r => seq r | None => seq r1 end).
    assert (seq r1 = next_seq (wal_store gc) - len (buffer gc)) as Hs1 by (rewrite (Hseq 0%nat r1) by (by rewrite Ebuf); lia).
    destruct (wal_batch_encodes (buffer gc)) as [payload Epl]; [by rewrite Ebuf|done|done|]. rewrite Epl.
    pose proof (len_nonneg (buffer gc)) as Hl0. unfold write_batch_object.
    edestruct (write_reliable gc L B) as (gc2 & E & Hsame); [done|done| | | | | |rewrite E].
    6:{ eexists _, _. split; [done|]. split; [exact Hsame|]. by rewrite Ebuf. }
    + done.
    + apply build_batch_key_starts_with.
    + apply parse_batch_key; [apply Hok|done|rewrite Hs1; unfold in_u64; lia|].
      unfold stop. destruct (last (buffer gc)) as [b|] eqn:El; [|apply last_None in El; congruence].
      rewrite last_lookup in El. pose proof (lookup_lt_Some _ _ _ El). rewrite (Hseq _ _ El). unfold in_u64, len in *. lia.
    + exact Hs1.
    + apply (decode_batch_object (next_seq (wal_store gc) - len (buffer gc)) (buffer gc)); [done|lia|lia| |done].
      apply len_wal_batch_payload in Epl. unfold gc_fits in Hfit. lia.
Qed.
Lemma flush_if_reliable cond clock_ms now_ms result gc L B :
  gc_ok gc L B -> gc_fits gc -> batchable gc -> in_u64 (Z.max now_ms clock_ms) -> reliable (object_store (wal_store gc)) ->
  exists gc' res, flush_if cond clock_ms now_ms result gc = (gc', Ok res) /\ same_place gc gc'.
Proof.
  intros Hok Hfit Hb He Hr. unfold flush_if. destruct (cond gc); [|by eexists _, _].
  destruct (flush_reliable clock_ms now_ms gc L B Hok Hfit Hb He Hr) as (gc' & res & E & Hs & _).
  unfold st_bind, st_ret. rewrite E. by eexists _, _.
Qed.

(** ** Room for records *)
Definition total_encoded (rs : list WalRecord) : Z := foldr (fun r n => len (wal_record_layout r) + n) 0 rs.
(** The records are few and small enough for one batch object. *)
Definition room (rs : list WalRecord) : Prop :=
  len rs <= u32_max /\ Forall (fun r => len (wal_record_layout r) <= u32_max) rs /\ total_encoded rs + 4 * len rs + 36 <= u64_max.

Lemma total_encoded_nonneg rs : 0 <= total_encoded rs.
Proof using. unfold total_encoded. induction rs as [|r rs IH]; cbn [foldr]; [lia|]. pose proof (len_nonneg (wal_record_layout r)). lia. Qed.
Lemma total_encoded_app a b : total_encoded (a ++ b) = total_encoded a + total_encoded b.
Proof using. unfold total_encoded. induction a as [|r a IH]; cbn [app foldr]; lia. Qed.
Lemma room_app a b : room (a ++ b) -> room a /\ room b.
Proof using.
  unfold room. rewrite !len_app, !Forall_app, total_encoded_app.
  pose proof (total_encoded_nonneg a). pose proof (total_encoded_nonneg b). pose proof (len_nonneg a). pose proof (len_nonneg b).
  intros (? & [? ?] & ?). repeat split; try done; lia.
Qed.
Lemma encoded_as r b : encode_wal_record r = Ok b -> b = wal_record_layout r.
Proof using. rewrite encode_wal_record_eq. case_decide; [|done]. by intros <-%Ok_inj. Qed.

Lemma buffer_records (gc : WalGroupCommitStore S) L B :
  gc_ok gc L B -> len (buffer gc) = len B /\ sum_encoded (buffer gc) = total_encoded B /\
  (Forall (fun r => len (wal_record_layout r) <= u32_max) B -> Forall (fun b => len (encoded_record b) <= u32_max) (buffer gc)).
Proof using.
  intros Hok. destruct (gc_buffers _ _ _ Hok) as [HF _]. split; [unfold len; by rewrite (Forall2_length _ _ _ HF)|].
  clear Hok. induction HF as [|b r bs rs Hb HF [IH1 IH2]]; [done|]. apply encoded_as in Hb. split.
  - unfold sum_encoded, total_encoded in *. cbn [foldr]. by rewrite IH1, Hb.
  - intros [Hr Hrs]%Forall_cons. apply Forall_cons. split; [by rewrite Hb|auto].
Qed.
Lemma room_fits gc L B : gc_ok gc L B -> room B -> gc_fits gc /\ batchable gc.
Proof using.
  intros Hok (Hn & Hs & Ht). destruct (buffer_records gc L B Hok) as (E1 & E2 & E3). unfold gc_fits, batchable.
  rewrite E1, E2. auto.
Qed.

(** ** A run of publishes *)

(** The records of [done] are published: those of the log and, after them, those still
    buffered; without a limit on bytes in the way, the objects are full. *)
Record grouped (ns : str) (p : WalBatchPolicy) (done : list WalRecord) (gc : WalGroupCommitStore S)
    (L : list (str * list WalRecord)) (B : list WalRecord) : Prop := mkGrouped {
  gp_ok : gc_ok gc L B;
  gp_reliable : reliable (object_store (wal_store gc));
  gp_ns : namespace_prefix (wal_store gc) = ns;
  gp_policy : policy gc = p;
  gp_done : log_records L ++ B = done;
  gp_few : len B < max_records p;
  gp_next : next_seq (wal_store gc) = 1 + len done;
  gp_full : total_encoded done < max_bytes p -> Forall (fun kr => len (snd kr) = max_records p) L
}.

Lemma log_records_app a b : log_records (a ++ b) = log_records a ++ log_records b.
Proof using. unfold log_records. by rewrite map_app, concat_app. Qed.
Lemma publish_batched_reliable clock record now_ms gc L B :
  gc_ok gc L B -> reliable (object_store (wal_store gc)) -> in_u64 now_ms -> (forall n, in_u64 (clock n)) ->
  next_seq (wal_store gc) < u64_max -> wal_record_fits record -> room (B ++ [record]) ->
  exists gc' res, publish_batched clock record now_ms gc = (gc', Ok res) /\ same_place gc gc'.
Proof.
  intros Hok Hr Hnow Hclock Hmax Hfits Hroom.
  assert (encode_wal_record record = Ok (wal_record_layout record)) as Henc by (rewrite encode_wal_record_eq; by apply decide_True).
  assert (forall n, in_u64 (Z.max now_ms (clock n))) as He by (intros n; specialize (Hclock n); unfold in_u64 in *; lia).
  destruct (room_fits gc L B Hok) as [Hf Hb]; [by apply room_app in Hroom as [? _]|].
  unfold publish_batched. rewrite Henc. unfold st_bind at 1.
  destruct (flush_if_reliable (fun gc => bool_decide (over_bytes (wal_record_layout record) gc)) (clock 0%nat) now_ms
              (mkGroupCommitPublishResult [] (len (buffer gc)) (buffered_bytes gc)) gc L B Hok Hf Hb (He _) Hr) as (gc1 & r1 & E1 & [R1 N1]).
  rewrite E1. apply (flush_if_spec _ _ _ _ _ L B) in E1 as (_ & _ & _ & Hq1 & _ & L1 & B1 & Hok1 & HB1 & _ & _); [|done..].
  unfold st_bind at 1. unfold st_bind at 1.
  pose proof (push_record_spec gc1 (L ++ L1) B1 record (wal_record_layout record) now_ms Hok1 Henc ltac:(lia)) as Hok2.
  destruct (room_fits _ _ _ Hok2) as [Hf2 Hb2]; [rewrite <- HB1, <- app_assoc in Hroom; by apply room_app in Hroom as [_ ?]|].
  destruct (flush_if_reliable (fun gc => bool_decide (flush_wanted gc)) (clock 1%nat) now_ms r1 _ _ _ Hok2 Hf2 Hb2 (He _) R1)
    as (gc3 & r3 & E3 & [R3 N3]). rewrite E3. eexists _, _. split; [done|]. split; [done|]. by rewrite N3.
Qed.

Lemma grouped_step ns p done gc L B clock record now_ms :
  grouped ns p done gc L B -> is_single_record_mode p = false -> in_u64 now_ms -> (forall n, in_u64 (clock n)) ->
  1 + len done < u64_max -> wal_record_fits record -> room (B ++ [record]) ->
  exists gc' res L' B', group_publish_record 1 clock record now_ms gc = Some (gc', Ok res) /\
    grouped ns p (done ++ [record]) gc' (L ++ L') B' /\ flushed_object_keys res = map fst L'.
Proof.
  intros [Hok Hr Hns Hp Hd Hfew Hq Hfull] Hmode Hnow Hclock Hmax Hfits Hroom.
  destruct (publish_batched_reliable clock record now_ms gc L B) as (gc' & res & E & [Rs Ns]); [done..|lia|done|done|].
  destruct (publish_batched_spec clock record now_ms gc L B gc' res) as
    (enc & L1 & B1 & L2 & B2 & Henc & Hok' & HB1 & HB2 & H1 & H2 & Hk & _ & Hp' & Hq' & Hlen & _); [done|by rewrite Hp|done|done|lia| |done|].
  { intros enc Henc. pose proof (push_record_spec gc L B record enc now_ms Hok Henc ltac:(lia)) as Hok2.
    by destruct (room_fits _ _ _ Hok2 Hroom). }
  unfold group_publish_record. rewrite Hp, Hmode, E. exists gc', res, (L1 ++ L2), B2. split; [done|]. split; [|done].
  split; [done|done|by rewrite Ns|by rewrite Hp'| | | |].
  - by rewrite <- Hd, !log_records_app, <- !app_assoc, HB2, <- HB1, <- !app_assoc.
  - destruct (buffer_records gc' _ _ Hok') as (<- & _). by rewrite <- Hp.
  - rewrite Hq', Hq, len_app. change (len [record]) with 1. lia.
  - intros Hb. rewrite total_encoded_app in Hb. pose proof (total_encoded_nonneg [record]).
    assert (total_encoded [record] = len (wal_record_layout record)) as E1 by (unfold total_encoded; cbn [foldr]; lia).
    assert (total_encoded (B ++ [record]) < max_bytes p) as HBr.
    { rewrite <- Hd, total_encoded_app in Hb. rewrite total_encoded_app. pose proof (total_encoded_nonneg (log_records L)). lia. }
    assert (L1 = []) as ->.
    { destruct H1 as [?|[(_ & _ & Hov) _]]; [done|exfalso]. destruct (buffer_records gc _ _ Hok) as (_ & E2 & _).
      rewrite (gc_bytes _ _ _ Hok), E2, Hp in Hov. apply encoded_as in Henc as ->.
      rewrite total_encoded_app in HBr. unfold saturating_add in Hov. lia. }
    cbn in HB1. subst B1. rewrite app_nil_l. apply Forall_app. split; [apply Hfull; lia|].
    destruct H2 as [->|(k & gc1 & -> & Hp1 & Hok1 & Hw)]; [constructor|]. repeat constructor. cbn [snd].
    destruct (buffer_records gc1 _ _ Hok1) as (E3 & E2 & _). unfold flush_wanted in Hw.
    rewrite (gc_bytes _ _ _ Hok1), E3, E2, Hp1, Hp in Hw. rewrite len_app in *. change (len [record]) with 1 in *. lia.
Qed.
(** Records that each fit a record and together the address space. *)
Definition publishable (rs : list WalRecord) : Prop :=
  Forall (fun r => wal_record_fits r /\ len (wal_record_layout r) <= u32_max) rs /\ total_encoded rs + 4 * len rs + 36 <= u64_max.

Lemma publishable_app a b : publishable (a ++ b) -> publishable a /\ publishable b.
Proof using.
  unfold publishable. rewrite !len_app, !Forall_app, total_encoded_app.
  pose proof (total_encoded_nonneg a). pose proof (total_encoded_nonneg b). pose proof (len_nonneg a). pose proof (len_nonneg b).
  intros ([? ?] & ?). repeat split; try done; lia.
Qed.
Lemma publishable_room rs : publishable rs -> len rs <= u32_max -> room rs.
Proof using. intros [Hs Ht] Hl. split; [done|]. split; [|done]. eapply Forall_impl; [exact Hs|]. by intros r [_ ?]. Qed.

Lemma grouped_run ns p records : forall done clock now gc L B,
  grouped ns p done gc L B -> is_single_record_mode p = false -> max_records p <= u32_max ->
  (forall i, in_u64 (now i)) -> (forall i n, in_u64 (clock i n)) -> publishable (done ++ records) ->
  exists gc' ks L' B', group_publish_all clock now records gc = Some (gc', Ok ks) /\
    grouped ns p (done ++ records) gc' (L ++ L') B' /\ ks = map fst L'.
Proof.
  induction records as [|r records IH]; intros done clock now gc L B Hg Hmode Hmr Hnow Hclock Hpub; cbn [group_publish_all].
  { exists gc, [], [], B. by rewrite !app_nil_r. }
  assert (publishable (done ++ [r])) as Hp1.
  { change (r :: records) with ([r] ++ records) in Hpub. rewrite app_assoc in Hpub. by apply publishable_app in Hpub as [? _]. }
  pose proof Hp1 as [Hall Htot]. rewrite len_app in Htot. change (len [r]) with 1 in Htot.
  pose proof (total_encoded_nonneg (done ++ [r])). pose proof (len_nonneg done).
  destruct (grouped_step ns p done gc L B (clock 0%nat) r (now 0%nat)) as (gc1 & res & L1 & B1 & E & Hg1 & Hk1); [done..|lia| | |].
  { apply Forall_app in Hall as [_ Hr]. by apply Forall_singleton in Hr as [? _]. }
  { apply publishable_room.
    - rewrite <- (gp_done _ _ _ _ _ _ Hg), <- app_assoc in Hp1. by apply publishable_app in Hp1 as [_ ?].
    - pose proof (gp_few _ _ _ _ _ _ Hg). rewrite len_app. change (len [r]) with 1. lia. }
  rewrite E.
  destruct (IH (done ++ [r]) (fun i => clock (Datatypes.S i)) (fun i => now (Datatypes.S i)) gc1 (L ++ L1) B1)
    as (gc2 & ks & L2 & B2 & E2 & Hg2 & Hk2); [done..|by rewrite <- app_assoc|].
  rewrite E2. exists gc2, (flushed_object_keys res ++ ks), (L1 ++ L2), B2. split; [done|].
  rewrite <- !app_assoc in Hg2. split; [exact Hg2|]. by rewrite Hk1, Hk2, map_app.
Qed.

(** Full objects and a rest: how many objects there are. *)
Lemma full_objects p (L : list (str * list WalRecord)) :
  Forall (fun kr => len (snd kr) = max_records p) L -> len (log_records L) = max_records p * len L.
Proof using.
  induction 1 as [|kr L Hk _ IH]; [unfold log_records, len; cbn; lia|].
  change (kr :: L) with ([kr] ++ L). rewrite log_records_app, !len_app, IH.
  unfold log_records. cbn [map concat]. rewrite app_nil_r, Hk. change (len [kr]) with 1. lia.
Qed.

(** The keys of a run and of the flush after it. *)
Definition objects_written (ks : list str) (flushed : option str) : list str := ks ++ option_list flushed.

Lemma grouped_start ns id s p :
  reliable s -> (forall k, starts_with ns k = true -> contents s !! k = None) -> 1 < max_records p ->
  grouped ns p [] (group_new ns id s p) [] [].
Proof using.
  intros Hr Hempty Hm. destruct (open_empty ns id s Hr Hempty) as (s1 & Ew & R1 & Hl). unfold group_new. rewrite Ew.
  split; cbn; [|done|done|done|done|change (len (@nil WalRecord)) with 0; lia|done|constructor].
  split; cbn; [done|constructor|apply buffers_nil|done|apply sanitize_node_id_nonempty|change (len (@nil BufferedWalRecord)) with 0; lia].
Qed.

(** The flush at the end writes what is left as one object. *)
Lemma final_flush ns p done gc L B clock_ms now_ms :
  grouped ns p done gc L B -> room B -> in_u64 (Z.max now_ms clock_ms) ->
  exists gc' res L', flush_now clock_ms now_ms gc = (gc', Ok res) /\ buffer gc' = [] /\
    reliable (object_store (wal_store gc')) /\ log_repr ns (contents (object_store (wal_store gc'))) (L ++ L') /\
    log_records (L ++ L') = done /\ map fst L' = option_list res /\ len L' = if decide (len B = 0) then 0 else 1.
Proof using.
  intros [Hok Rg Hns Hp Hd Hfew _ _] Hroom He. destruct (room_fits gc L B Hok Hroom) as [Hf Hb].
  destruct (flush_reliable clock_ms now_ms gc L B Hok Hf Hb He Rg) as (gc' & res & Ef & [R' N'] & Hres).
  pose proof (flush_buffer_spec clock_ms now_ms gc L B gc' res Hok Hf He Ef) as Hspec.
  destruct (buffer_records gc L B Hok) as (Elen & _). exists gc', res. destruct res as [k|].
  - destruct Hspec as (Hbuf & _ & _ & Hok'). exists [(k, B)]. split; [done|]. split; [done|]. split; [done|].
    split; [rewrite <- Hns, <- N'; apply (gc_log _ _ _ Hok')|].
    split; [rewrite log_records_app; unfold log_records at 2; cbn; by rewrite app_nil_r|]. split; [done|].
    rewrite decide_False; [done|]. rewrite <- Elen. intros H0.
    destruct (buffer gc) as [|b l]; [by discriminate (proj2 Hres eq_refl)|rewrite len_cons in H0; pose proof (len_nonneg l); lia].
  - destruct Hspec as [-> ->]. exists []. rewrite !app_nil_r in *. split; [done|]. split; [by apply Hres|]. split; [done|].
    split; [rewrite <- Hns; apply (gc_log _ _ _ Hok)|]. done.
Qed.

(** C11: group commit loses nothing: on a store that does not fail and holds nothing under
    the namespace, publishing any records that fit, one after the other under any
    batching policy and whatever the clocks read, and flushing at the end succeeds; the
    objects of the namespace are then those the calls reported, a store opened by any node
    replays exactly those records in order, and unless the limit on bytes cuts a batch
    short there are as few objects as the limit on records allows. *)
Theorem group_commit_survives_restart ns id id' s clock now flush_clock flush_ms p records :
  reliable s -> (forall k, starts_with ns k = true -> contents s !! k = None) ->
  (forall i, in_u64 (now i)) -> (forall i n, in_u64 (clock i n)) -> in_u64 flush_clock -> in_u64 flush_ms ->
  is_single_record_mode p = false -> max_records p <= u32_max -> publishable records ->
  exists gc ks gc' flushed,
    group_publish_all clock now records (group_new ns id s p) = Some (gc, Ok ks) /\
    flush_now flush_clock flush_ms gc = (gc', Ok flushed) /\ buffer gc' = [] /\
    NoDup (objects_written ks flushed) /\
    (forall k, starts_with ns k = true ->
       is_Some (contents (object_store (wal_store gc')) !! k) <-> k ∈ objects_written ks flushed) /\
    snd (replay_records (with_node_id ns id' (object_store (wal_store gc')))) = Ok records /\
    (total_encoded records < max_bytes p ->
     len (objects_written ks flushed) = (len records + max_records p - 1) / max_records p).
Proof.
  intros Hr Hempty Hnow Hclock Hfc Hfm Hmode Hmr Hpub.
  assert (1 < max_records p) as Hm1.
  { unfold is_single_record_mode in Hmode. apply orb_false_iff in Hmode as [Hm _]. apply bool_decide_eq_false in Hm. lia. }
  destruct (grouped_run ns p records [] clock now (group_new ns id s p) [] [] (grouped_start ns id s p Hr Hempty Hm1))
    as (gc & ks & L & B & E & Hg & Hk); [done..|]. cbn [app] in Hg. pose proof (gp_few _ _ _ _ _ _ Hg) as Hfew.
  pose proof (gp_done _ _ _ _ _ _ Hg) as Hd.
  destruct (final_flush ns p records gc L B flush_clock flush_ms Hg) as (gc' & res & L' & Ef & Hbuf & R' & Hrep & Hlog & Hk' & HL').
  { rewrite <- Hd in Hpub. apply publishable_app in Hpub as [_ HpB]. apply publishable_room; [done|lia]. }
  { unfold in_u64 in *. lia. }
  exists gc, ks, gc', res. split; [done|]. split; [done|]. split; [done|].
  assert (objects_written ks res = map fst (L ++ L')) as -> by (unfold objects_written; by rewrite Hk, map_app, Hk').
  split; [apply (sorted_lt_NoDup (compare_wal_object_keys ns)), Hrep|]. split; [apply Hrep|].
  split; [by rewrite (reopened_replays ns id' _ _ R' Hrep), Hlog|].
  intros Hby. pose proof (full_objects p L (gp_full _ _ _ _ _ _ Hg Hby)) as Hfull.
  assert (len (map fst (L ++ L')) = len L + len L') as -> by (unfold len; rewrite length_map, length_app; lia).
  rewrite HL', <- Hd, len_app, Hfull. pose proof (len_nonneg B). case_decide as HB.
  - apply Z.div_unique_pos with (max_records p - 1); nia.
  - apply Z.div_unique_pos with (len B - 1); nia.
Qed.
End Grouped.

(** ** The tool *)
Definition RECORDS : nat := 20.
Definition fixture_record (idx : Z) : WalRecord :=
  mkWalRecord (lit "k-" ++ dec_pad 4 idx) (lit "m-" ++ dec_pad 4 idx) (repeat "x"%byte 64).
Definition drill_records : list WalRecord := map (fun i => fixture_record (Z.of_nat i)) (List.seq 0 RECORDS).
Definition drill_policy : WalBatchPolicy := mkWalBatchPolicy 500 5 (128 * 1024).
Definition drill_ns : str := lit "wal/tenant-a/fp".
Definition drill_listing : str := lit "wal/tenant-a/fp/".

(** The objects and the replayed records of the store that writes one object per
    record; [None] when an [expect] panics.  [clock i] is read by the [i]-th publish. *)
Definition drill_baseline (clock : nat -> nat -> Z) : option (list str * list WalRecord) :=
  match publish_all clock drill_records (with_node_id drill_ns (lit "node-a") in_memory_default) with
  | Some (ws, Ok _) =>
      match list_prefix drill_listing (object_store ws), replay_records ws with
      | (_, Ok objects), (_, Ok replay) => Some (objects, replay)
      | _, _ => None
      end
  | _ => None
  end.
Definition drill_grouped (clock : nat -> nat -> Z) (flush_clock : Z) : option (list str * list WalRecord) :=
  match group_publish_all clock (fun i => Z.of_nat i * 10) drill_records (group_new drill_ns (lit "node-a") in_memory_default drill_policy) with
  | Some (gc, Ok _) =>
      match flush_now flush_clock 10000 gc with
      | (gc, Ok _) =>
          match list_prefix drill_listing (object_store (wal_store gc)), group_replay_records gc with
          | (_, Ok objects), (_, Ok replay) => Some (objects, replay)
          | _, _ => None
          end
      | _ => None
      end
  | _ => None
  end.
Definition drill_pass (baseline grouped : list str * list WalRecord) : bool :=
  bool_decide (len (fst grouped) < len (fst baseline)) &&
  bool_decide (len (snd baseline) = Z.of_nat RECORDS) && bool_decide (len (snd grouped) = Z.of_nat RECORDS).
(** [main]: the exit code; [created] and [reports] are the outcomes of making the
    directory and of encoding and writing the reports. *)
Definition drill_main (created : bool) (clock grouped_clock : nat -> nat -> Z) (flush_clock : Z) (reports : list bool) : option Z :=
  if negb created then Some 2 else
  match drill_baseline clock, drill_grouped grouped_clock flush_clock with
  | Some baseline, Some grouped =>
      if forallb id reports then Some (if drill_pass baseline grouped then 0 else 1) else Some 2
  | _, _ => None
  end.

(** With clocks that stand still the drill passes, four objects against twenty. *)
Example drill_passes :
  drill_main true (fun _ _ => 1700) (fun _ _ => 1700) 1700 [true; true; true] = Some 0 /\
  option_map (fun r => len (fst r)) (drill_grouped (fun _ _ => 1700) 1700) = Some 4.
Proof. split; vm_compute; reflexivity. Qed.

Lemma group_commit_survives_restart_witness :
  exists (gc : WalGroupCommitStore InMemoryObjectStore) ks gc' flushed,
    group_publish_all (fun i n => Z.min 1700 (Z.of_nat n)) (fun i => Z.of_nat i mod 1000) drill_records
      (group_new drill_ns (lit "node-a") in_memory_default drill_policy) = Some (gc, Ok ks) /\
    flush_now 1700 10000 gc = (gc', Ok flushed) /\ buffer gc' = [] /\
    snd (replay_records (with_node_id drill_ns (lit "other") (object_store (wal_store gc')))) = Ok drill_records /\
    len (objects_written ks flushed) = 4.
Proof.
  destruct (group_commit_survives_restart drill_ns (lit "node-a") (lit "other") in_memory_default
              (fun i n => Z.min 1700 (Z.of_nat n)) (fun i => Z.of_nat i mod 1000) 1700 10000 drill_policy drill_records)
    as (gc & ks & gc' & fl & E1 & E2 & E3 & _ & _ & E4 & E5).
  - reflexivity.
  - intros k _. reflexivity.
  - intros i. unfold in_u64. pose proof (Z.mod_pos_bound (Z.of_nat i) 1000). lia.
  - intros i n. unfold in_u64. lia.
  - unfold in_u64. lia.
  - unfold in_u64. lia.
  - reflexivity.
  - vm_compute. discriminate.
  - split; [|vm_compute; discriminate]. apply Forall_forall. intros r Hr. unfold drill_records in Hr.
    apply list_elem_of_fmap in Hr as (i & -> & Hi%elem_of_seq).
    assert (i < 20)%nat as Hlt by (unfold RECORDS in Hi; lia). clear Hi. unfold wal_record_fits. rewrite len_wal_record_layout.
    do 20 (destruct i as [|i]; [vm_compute; repeat split; discriminate|]). lia.
  - exists gc, ks, gc', fl. split; [exact E1|]. split; [exact E2|]. split; [exact E3|]. split; [exact E4|].
    rewrite E5 by (vm_compute; reflexivity). vm_compute. reflexivity.
Defined.
